(* ===== verification/_CoqProject ===== *)
-Q . S2P
Prelude.v
RtlTime.v
RtlCnvInt.v
RtlCnvIntSpec.v
RtlBitmap.v
RtlBitmapSearch.v
RtlBitmapRuns.v
RtlHeap.v
RtlSplay.v
RtlSplayOps.v
RtlList.v
RtlGenTable.v
RtlGenTableOps.v
RtlAvl.v
RtlAvlTree.v
RtlAvlTable.v
RtlAvlTableOps.v
RtlAvlTableSpec.v
RtlAcl.v
RtlAclLayout.v
RtlAclOps.v
RtlAclSpec.v
FsRtlName.v
FsRtlNameLang.v
FsRtlNameMatch.v
FsRtlMcb.v
FsRtlMcbRuns.v
FsRtlMcbExec.v
FsRtlMcbAdd.v
FsRtlMcbRemove.v
FsRtlMcbOps.v
FsRtlMcbQuery.v
FsRtlMcbSpec.v
ExRundown.v
ExRundownCache.v
ExRundownCacheInv.v
SeAccess.v
SeAclCheck.v
SeTypeTree.v
