(* ===== verification/Prelude.v ===== *)
(** * OpenXP kernel: a verification library

    OpenXP is an NT kernel: src/ntoskrnl holds the executive (ex), the kernel
    proper (ke), memory, object, process, security, configuration and I/O
    management, and a run-time library (rtl) that all of them use.  Most of that
    code drives hardware or other components; what carries the kernel's
    guarantees and can be stated without the machine are the algorithms and
    protocols below it.  This library models and verifies some of them, for the
    32-bit x86 build; only the 64-bit divisions of ntrtl.h, whose x86 bodies are
    assembly that is not in the tree, are taken from the AMD64 inline routines:

    - time conversion, src/ntoskrnl/rtl/time.c, in [RtlTime];
    - integer and text conversion, src/ntoskrnl/rtl/cnvint.c, in [RtlCnvInt]
      (the routines) and [RtlCnvIntSpec] (the theorems);
    - bit maps, src/ntoskrnl/rtl/bitmap.c, in [RtlBitmap] (ranges, counts,
      single bits), [RtlBitmapSearch] (the searches for runs) and [RtlBitmapRuns]
      (tables of runs, the longest run);
    - doubly linked lists, src/sdk/sdk/inc/ntrtl.h, in [RtlList];
    - splay trees, src/ntoskrnl/rtl/splay.c, in [RtlSplay] (all routines, and
      splaying) and [RtlSplayOps] (deletion, neighbours), over the memory of
      [RtlHeap];
    - generic tables, src/ntoskrnl/rtl/gentable.c, in [RtlGenTable] (all routines,
      the search) and [RtlGenTableOps] (the operations and their refinement);
    - AVL tables, src/ntoskrnl/rtl/avltable.c, in [RtlAvl] (the routines on the
      tree), [RtlAvlTree] (balance), [RtlAvlTable] (the routines on the table, the
      search), [RtlAvlTableOps] (the operations) and [RtlAvlTableSpec] (the
      theorems);
    - access control lists, src/ntoskrnl/rtl/acledit.c, in [RtlAcl] (all routines),
      [RtlAclLayout] (what the bytes mean), [RtlAclOps] (the routines one by one) and
      [RtlAclSpec] (the theorems);
    - file names and name expressions, src/ntoskrnl/fsrtl/name.c, in [FsRtlName]
      (all routines), [FsRtlNameLang] (the language of an expression) and
      [FsRtlNameMatch] (the theorems);
    - map control blocks, src/ntoskrnl/fsrtl/largemcb.c, in [FsRtlMcb] (all
      routines), [FsRtlMcbRuns] (lists of runs and what they map), [FsRtlMcbExec]
      (rules for the steps of the routines), [FsRtlMcbAdd], [FsRtlMcbRemove],
      [FsRtlMcbOps] and [FsRtlMcbQuery] (the routines) and [FsRtlMcbSpec] (the
      theorems);
    - rundown protection, src/ntoskrnl/ex/rundown.c, in [ExRundown], its
      cache-aware variant in [ExRundownCache] (routines, layout) and
      [ExRundownCacheInv] (the protocol);
    - the access check, src/ntoskrnl/se/accessck.c, in [SeAccess] (data, all
      routines, checks without a type list), [SeAclCheck] (the check on ACLs in
      memory) and [SeTypeTree] (checks with a list of object types).

    They meet as they do in the kernel: the searches end in RtlSetBits and
    RtlClearBits of [RtlBitmap] and are proved from its specifications, a generic
    table is a splay tree and a list and is verified from the theorems on both,
    an AVL table implements the same dictionary of [RtlGenTable] on another tree,
    what the editing routines write is what the access check reads ([SeAclCheck]),
    [SeTypeTree] is about the routines of [SeAccess], and all of them share the
    machine integers, sums and bit lemmas of this file.

    ** How the code is modelled

    Definitions keep the names of the source.  A w-bit integer is a [Z] with its
    wrap-around written out ([u32], [s64], ...), a mask operation is the [Z]
    operation on bits.  A routine is a function from the state it reads to the
    state it writes; [None] as the result of a function into [option] is a fault
    (an access outside a buffer, a failed ASSERT) or, for a loop that carries
    fuel, fuel exhausted, and the theorems show that neither happens under the
    conditions they state.  The ASSERTs of accessck.c and largemcb.c are taken as in
    a free build, where they are no code.  Loops of C
    become structural recursion over the list they walk, or recursion on fuel
    where they advance an index:
    - RtlpFindClearBitsRange gets one unit per chunk of the range and one more,
      RtlFindNextForwardRunClear and its backward counterpart one per bit and one
      more, since every turn moves by at least one;
    - the loops over splay and AVL trees get one unit per record of the memory
      and one more, since every turn moves to another node;
    - the loop of RtlAddAce over the list of new entries gets one unit per byte and
      one more, since every entry has at least four;
    - for each state the loop of FsRtlIsNameInExpressionPrivate over the expression
      gets one unit per character and one more, the loop over the previous states
      one per state;
    - the binary search of FsRtlFindLargeIndex gets 34 turns, enough to halve any
      interval of 32-bit indices down to nothing; the loop of
      FsRtlRemoveBaseMcbEntry two more than the number of pairs, since every turn
      but the last leaves fewer pairs beyond Vbn; the shift of FsRtlSplitBaseMcb one
      more than the number of pairs;
    - SepUpdateParentTypeList gets one more than the length of the list, since
      every call moves to an earlier entry;
    - the week loop of RtlCutoverTimeToSystemTime and its retry in the next year
      have the fixed bounds RtlCutoverTimeToSystemTime_terminates justifies.

    [RtlTime], Module [Time]: a LARGE_INTEGER is an [s64]; the division by
    reciprocals (RtlExtendedMagicDivide), the day-to-month tables and the year
    computation are those of the source.  [TIME_FIELDS] is the record.  The
    conversions to and from fields are shown to be inverse to each other, to
    accept exactly the calendar dates of the years 1601 to 30827, and to follow the
    Gregorian rules; a theorem shows that the part of 30828 that a LARGE_INTEGER
    reaches is refused; the
    cutover computation to give the n-th weekday of the month the rule names.

    [RtlCnvInt], [RtlCnvIntSpec], Modules [CnvInt] and [CnvIntSpec]: strings and
    buffers are lists, an access outside them is a fault, and the local array of
    digits bounds the loop that fills it.  Printing is shown to write numerals,
    parsing to read them modulo 2^32, the two parsers to agree and to invert
    printing; five theorems show inputs on which the routines fault.

    [RtlBitmap], Module [Bitmap]: an [RTL_BITMAP] is its size in bits and the
    bytes of its buffer, with byte and ULONG accesses that fault outside it.
    The theorems give each routine's effect bit by bit, and that nothing outside
    the buffer is touched.

    [RtlBitmapSearch], Module [BitmapSearch]: the four algorithms of
    RtlpFindClearBitsRange (runs over three and more chunks, up to three, inside
    two, single bits) are shown equal to one specification, the first run of the
    range; the exported searches, the allocator RtlFindClearBitsAndSet and the
    run queries follow.

    [RtlBitmapRuns], Module [BitmapRuns]: the byte-wise walk of RtlFindClearRuns
    with its sorted insertion is shown to store maximal runs only, and the
    longest ones when these are asked for; RtlFindLongestRunClear follows.

    [RtlHeap]: a memory of records that point to each other, routines on it as a
    state monad with faults, and triples with a frame rule.  [RtlList], Module
    [DList], and [RtlSplay], [RtlSplayOps], Modules [Splay] and [SplayOps], use
    it: every pointer write of the source is a write to the memory, and the
    theorems say that a list or a tree with consistent pointers becomes another
    one, with the order of its nodes changed as documented and no other record
    touched.  Splaying is shown equal to bottom-up splaying on trees.

    [RtlGenTable], [RtlGenTableOps], Modules [GenTable] and [GenTableOps]: the
    nodes of a table are in a tree and in a list, with a cursor into the list.
    The specification is a sorted association list with an order of insertion;
    any sequence of requests is shown to give its answers.  The compare, allocate
    and free routines of the user are parameters with the laws of three classes.
    Elements are values: BufferSize and the size of a block are not modelled apart
    from them (no buffer is so large that the 32-bit size of its node wraps).

    [RtlAvl], [RtlAvlTree], Modules [Avl] and [AvlTree]: the links of the nodes and
    of BalancedRoot are records in a memory, every write to a link or a balance is
    a write to it, and a failed ASSERT is a fault.  The triples say which tree with
    balances each routine leaves; insertion and deletion are shown to keep every
    balance the difference of the heights of the two sides, between -1 and 1, and
    DepthOfTree the height.

    [RtlAvlTable], [RtlAvlTableOps], [RtlAvlTableSpec], Modules [AvlTable],
    [AvlTableOps] and [AvlTableSpec]: the routines of the table over two memories,
    links and user data.  The specification is a sorted association list that the
    enumeration cuts in two, what was returned and what is to come; any sequence of
    requests is shown to give its answers, enumeration across insertions and
    deletions to return each element once, the directory enumeration to return the
    first match after the key.  The bound [MaxElements] on the number of elements
    is one less than the smallest balanced tree of depth 33, for which the tables
    in the ASSERT of the insertion and the deletion have no entry.  Three theorems
    show where the saved location and the saved count go wrong.

    [RtlAcl], [RtlAclLayout], [RtlAclOps], [RtlAclSpec], Modules [Acl], [AclLayout],
    [AclOps] and [AclSpec]: an ACL is a list of bytes, every field an access to
    them, pointers are offsets.  RtlValidAcl is shown to decide the layout, which is
    spelt out field by field apart from the routine ([ace_form], [is_acl]), and any
    sequence of edits to act as on a list of entries of bounded size and to leave a
    valid ACL, if the entries and SIDs handed in are right; seven theorems show
    edits that succeed on others and leave an ACL that is not valid, or read too
    far.  The list of new entries is taken not to overlap the ACL.

    [FsRtlName], [FsRtlNameLang], [FsRtlNameMatch], Modules [Name], [NameLang] and
    [NameMatch]: strings are lists of characters, the arrays of states have a
    capacity, and writing past it is a fault; an exception is a result of its own.
    FsRtlIsNameInExpression is shown to decide the language [matches] defines,
    within its buffers, for expressions of fewer than 16384 characters without a
    backslash, or to raise when the pool has no memory; names are compared and
    dissected as described.  Four theorems show where the comments or the 16-bit
    state numbers do not hold.

    [FsRtlMcb], [FsRtlMcbRuns], [FsRtlMcbExec], [FsRtlMcbAdd], [FsRtlMcbRemove],
    [FsRtlMcbOps], [FsRtlMcbQuery], [FsRtlMcbSpec], Modules [Mcb], [McbRuns],
    [McbExec], [McbAdd], [McbRemove], [McbOps], [McbQuery] and [McbSpec]: the routines
    are a state monad with exceptions over the buffer of pairs; accesses outside
    it, after it was freed, and frees that do not match the allocation are faults.
    The specification is a partial function from Vbn to Lbn.  The list of runs is
    shown to be the canonical one for its function, so that the order of additions
    does not matter, and any sequence of requests to give the answers of the
    function; additions are taken exactly when the request agrees with what is
    mapped on a prefix or a suffix and the rest is unmapped.  The pool is a
    parameter that may refuse a request, and is taken not to hand out more than
    2^31 bytes at once, so that the 32-bit sizes do not wrap; requests are taken
    to keep Vbns and Lbns below 2^32 - 1, to add and split by at least one sector,
    and not to use the Lbn 0, which the description calls illegal ([legal]).  What an
    exception leaves behind is a theorem; further theorems show the boundary cases
    the code does not guard: an addition of no sectors, a split by none, and the
    Lbn 0 in front of a leading hole, which writes in front of the buffer.

    [ExRundown], Module [Rundown]: the shared word, the wait block and the event
    are the state; any number of client threads and the thread that runs the
    object down take one shared access per step ([step], [reachable]).  An
    invariant, kept by every step, gives mutual exclusion after rundown, the
    absence of faults and of lost wake-ups.  Callers are assumed to give back
    only references they hold and to keep the number of references below 2^31.

    [ExRundownCache], [ExRundownCacheInv], Modules [CacheAware] and [CacheInv]: one
    word per processor, clients that move between processors, the same client
    routines, and the loops that mark, complete and re-initialise the words one
    access at a time.  The invariant counts modulo 2^32; the same three theorems
    follow for multiprocessors and callers that keep acquires away from
    re-initialisation and wait once before it ([promises], [disciplined]); theorems
    show what happens otherwise: a race on re-initialisation, and a failed ASSERT in
    the second wait and on a uniprocessor.

    [SeAccess], Module [Access]: tokens, ACEs, security descriptors and object
    type lists as records; SepAccessCheck with the walk for MAXIMUM_ALLOWED and
    the walk for specific accesses, its privilege checks and result lists;
    SeAccessCheck, SeFastTraverseCheck, SePrivilegePolicyCheck, SepTokenIsOwner and
    SeCaptureObjectTypeList on top.  The abstract specification is first match:
    [acl_grants] says for one access which entry of the DACL decides it.  Both
    walks are shown to implement it, and from that soundness (nothing is granted
    without a reason), exactness of MAXIMUM_ALLOWED, monotonicity under
    restriction, and soundness of the traverse shortcut, with the exact
    conditions under which these hold and examples of what happens outside
    them.

    [SeAclCheck], Module [AclCheck]: the walk of the check over the bytes of an ACL.
    It stays within a valid ACL, finds the entries the editing routines were asked
    to add, and gives what a denying entry does at the end and at the front.

    [SeTypeTree], Module [TypeTree]: the array of object types is a tree in
    preorder.  SepAddAccessTypeList is shown to keep each entry the union or
    intersection of its children; from that, first match leaf by leaf
    ([type_grants]) specifies the check with a type list.

    ** What is not modelled

    Allocation failure is a parameter ([PoolOk], [Allocated], [answer]); paging, IRQL
    and locks of the token are not modelled, nor is debug output.  SIDs are compared as values
    (RtlEqualSid, RtlEqualMemory over the whole SID).  A self-relative and an
    absolute security descriptor are one record.  Of the files above the following
    is left: in bitmap.c the debug output RtlDumpBitMap; in largemcb.c
    FsRtlInitializeLargeMcbs, which sets up two lookaside lists; in
    accessck.c the system services NtAccessCheck and
    its siblings and SeAccessCheckByType, which probe user memory, and
    SeMaximumAuditMask.

    ** Plan

    Next, in this order: range lists (rtl/range.c); security descriptors and inheritance (rtl/sertl.c). *)

From Stdlib Require Export ZArith Lia Bool.
From stdpp Require Export base tactics numbers list option.

#[global] Open Scope Z_scope.

(** ** Machine integers

    A C object of width [w] is a [Z] in its range; every arithmetic result is
    brought back into the range by one of the functions below.  [u..] are the
    unsigned types (UCHAR, USHORT, ULONG, ULONGLONG), [s..] the signed ones
    (CSHORT, LONG, LONGLONG). *)

Definition uwrap (w z : Z) : Z := z mod 2 ^ w.
Definition swrap (w z : Z) : Z := (z + 2 ^ (w - 1)) mod 2 ^ w - 2 ^ (w - 1).

Abbreviation u8 := (uwrap 8).
Abbreviation u16 := (uwrap 16).
Abbreviation u32 := (uwrap 32).
Abbreviation u64 := (uwrap 64).
Abbreviation s16 := (swrap 16).
Abbreviation s32 := (swrap 32).
Abbreviation s64 := (swrap 64).

Lemma uwrap_range w z : 0 <= w -> 0 <= uwrap w z < 2 ^ w.
Proof. intros; apply Z.mod_pos_bound, Z.pow_pos_nonneg; lia. Qed.

Lemma uwrap_small w z : 0 <= z < 2 ^ w -> uwrap w z = z.
Proof. apply Z.mod_small. Qed.

Lemma swrap_small w z :
  0 < w -> - 2 ^ (w - 1) <= z < 2 ^ (w - 1) -> swrap w z = z.
Proof.
  intros Hw Hz. unfold swrap.
  assert (2 ^ w = 2 * 2 ^ (w - 1)).
  { rewrite <- Z.pow_succ_r by lia. f_equal; lia. }
  rewrite Z.mod_small; lia.
Qed.

Lemma swrap_range w z : 0 < w -> - 2 ^ (w - 1) <= swrap w z < 2 ^ (w - 1).
Proof.
  intros Hw. unfold swrap.
  assert (2 ^ w = 2 * 2 ^ (w - 1)).
  { rewrite <- Z.pow_succ_r by lia. f_equal; lia. }
  assert (0 < 2 ^ (w - 1)) by (apply Z.pow_pos_nonneg; lia).
  pose proof (Z.mod_pos_bound (z + 2 ^ (w - 1)) (2 ^ w)). lia.
Qed.

Lemma u16_small z : 0 <= z < 65536 -> u16 z = z.
Proof. apply Z.mod_small. Qed.
Lemma u8_small z : 0 <= z < 256 -> u8 z = z.
Proof. apply Z.mod_small. Qed.
Lemma u32_small z : 0 <= z < 4294967296 -> u32 z = z.
Proof. exact (uwrap_small 32 z). Qed.
Lemma u64_small z : 0 <= z < 18446744073709551616 -> u64 z = z.
Proof. exact (uwrap_small 64 z). Qed.
Lemma s16_small z : -32768 <= z < 32768 -> s16 z = z.
Proof. apply (swrap_small 16); lia. Qed.
Lemma s32_small z : -2147483648 <= z < 2147483648 -> s32 z = z.
Proof. apply (swrap_small 32); lia. Qed.
Lemma s64_small z :
  -9223372036854775808 <= z < 9223372036854775808 -> s64 z = z.
Proof. apply (swrap_small 64); lia. Qed.

(** ** Automation

    [zdiv] is [lia] with quotients and remainders by constants replaced by
    their defining equations; [wrap] removes every wrap-around whose argument
    is provably in range. *)

Ltac zdiv := Z.div_mod_to_equations; lia.

Ltac wrap_step :=
  match goal with
  | |- context [uwrap 32 ?z] => rewrite (u32_small z) by lia
  | |- context [uwrap 64 ?z] => rewrite (u64_small z) by lia
  | |- context [swrap 16 ?z] => rewrite (s16_small z) by lia
  | |- context [swrap 32 ?z] => rewrite (s32_small z) by lia
  | |- context [swrap 64 ?z] => rewrite (s64_small z) by lia
  end.
Ltac wrap := repeat wrap_step.

(** Case analysis on the boolean tests of a goal, as propositions. *)
Ltac btest :=
  repeat match goal with
  | |- context [if ?b then _ else _] =>
      lazymatch b with
      | context [if _ then _ else _] => fail
      | _ => let E := fresh "E" in destruct b eqn:E
      end
  end.

(** [kernel] has the range facts that side conditions of rewriting ask for. *)
Create HintDb kernel.
#[export] Hint Resolve lookup_lt_Some uwrap_range : kernel.

(** Checking a boolean property on an initial segment of [Z] by computation. *)
Definition zrange (n : nat) : list Z := map Z.of_nat (seq 0 n).

Lemma zrange_forallb n (f : Z -> bool) i :
  forallb f (zrange n) = true -> 0 <= i < Z.of_nat n -> f i = true.
Proof.
  intros H Hi. unfold zrange in H. rewrite forallb_forall in H. apply H.
  apply in_map_iff. exists (Z.to_nat i). rewrite in_seq. lia.
Qed.

(** Wrapping is arithmetic modulo 2^32. *)
Lemma s32_neg R : 0 <= R < 2 ^ 31 -> s32 (u32 (- R)) = - R.
Proof. intros H. unfold s32, u32, swrap, uwrap. zdiv. Qed.
Lemma u32_add_l a b : u32 (u32 a + b) = u32 (a + b).
Proof. unfold u32, uwrap. by rewrite Zplus_mod_idemp_l. Qed.
Lemma u32_shift a q : u32 (a + 2 ^ 32 * q) = u32 a.
Proof. unfold u32, uwrap. rewrite Z.mul_comm. apply Z_mod_plus_full. Qed.
Lemma u32_quot a : exists q, u32 a = a + 2 ^ 32 * q.
Proof. exists (- (a / 2 ^ 32)). unfold u32, uwrap. pose proof (Z.div_mod a (2 ^ 32) ltac:(lia)). lia. Qed.

(** ** Sums over lists *)

Section ZSum.
Context {A : Type} (f : A -> Z).

Fixpoint zsum (l : list A) : Z :=
  match l with [] => 0 | x :: l => f x + zsum l end.

Lemma zsum_insert l i x y :
  l !! i = Some x -> zsum (<[i := y]> l) = zsum l - f x + f y.
Proof.
  revert i; induction l as [|a l IH]; intros [|i] H; simplify_eq/=; [lia|].
  rewrite (IH _ H). lia.
Qed.

Lemma zsum_nonneg l : Forall (fun y => 0 <= f y) l -> 0 <= zsum l.
Proof. induction 1; cbn; lia. Qed.

Lemma zsum_lookup_le l i x :
  Forall (fun y => 0 <= f y) l -> l !! i = Some x -> f x <= zsum l.
Proof.
  intros Hl; revert i; induction Hl as [|a l Ha Hl IH]; intros [|i] H; simplify_eq/=.
  - pose proof (zsum_nonneg l Hl). lia.
  - specialize (IH _ H). lia.
Qed.

Lemma zsum_replicate n x : f x = 0 -> zsum (replicate n x) = 0.
Proof. intros Hx; induction n; cbn; lia. Qed.
Lemma zsum_pos_lookup l : 0 < zsum l -> exists i x, l !! i = Some x /\ 0 < f x.
Proof.
  induction l as [|a l IH]; cbn [zsum]; intros H; [lia|].
  destruct (Z.lt_ge_cases 0 (f a)); [by exists 0%nat, a|].
  destruct IH as (i & x & Hi & Hx); [lia|]. by exists (S i), x.
Qed.
End ZSum.

Lemma zsum_all_zero {A} (f : A -> Z) l : (forall i x, l !! i = Some x -> f x = 0) -> zsum f l = 0.
Proof.
  induction l as [|a l IH]; intros H; [done|]. cbn. rewrite (H 0%nat a eq_refl), IH; [lia|].
  intros i x Hi. exact (H (S i) x Hi).
Qed.

(** ** Counting the positions of an interval where a predicate holds *)

Fixpoint zcount (f : Z -> bool) (s : Z) (n : nat) : Z :=
  match n with O => 0 | S n => (if f s then 1 else 0) + zcount f (s + 1) n end.

Lemma zcount_bound f s n : 0 <= zcount f s n <= Z.of_nat n.
Proof.
  revert s; induction n as [|n IH]; intros s; cbn [zcount]; [lia|].
  specialize (IH (s + 1)). destruct (f s); lia.
Qed.

Lemma zcount_app f s n m : zcount f s (n + m) = zcount f s n + zcount f (s + Z.of_nat n) m.
Proof.
  revert s; induction n as [|n IH]; intros s; cbn [zcount Nat.add].
  - by rewrite Z.add_0_r.
  - rewrite IH. replace (s + 1 + Z.of_nat n) with (s + Z.of_nat (S n)) by lia. lia.
Qed.

Lemma zcount_ext f g s n :
  (forall i, s <= i < s + Z.of_nat n -> f i = g i) -> zcount f s n = zcount g s n.
Proof.
  revert s; induction n as [|n IH]; intros s H; cbn [zcount]; [done|].
  rewrite (H s), (IH (s + 1)); [done| |lia]. intros i Hi. apply H. lia.
Qed.

Lemma zcount_shift f g s n :
  (forall i, 0 <= i < Z.of_nat n -> f i = g (s + i)) -> zcount f 0 n = zcount g s n.
Proof.
  assert (Hgen : forall t, (forall i, 0 <= i < Z.of_nat n -> f (t + i) = g (s + i)) ->
    zcount f t n = zcount g s n).
  { revert s; induction n as [|n IH]; intros s t H; cbn [zcount]; [done|].
    pose proof (H 0 ltac:(lia)) as H0. rewrite !Z.add_0_r in H0. rewrite H0.
    rewrite (IH (s + 1) (t + 1)); [done|]. intros i Hi.
    rewrite <- !Z.add_assoc. apply H. lia. }
  intros H. apply Hgen. intros i Hi. rewrite Z.add_0_l. by apply H.
Qed.

Lemma zcount_zero f s n : (forall i, s <= i < s + Z.of_nat n -> f i = false) -> zcount f s n = 0.
Proof.
  revert s; induction n as [|n IH]; intros s H; cbn [zcount]; [done|].
  rewrite (H s), IH by (intros; try apply H; lia). done.
Qed.

(** ** Bits *)

(** A number whose bits from [k] on are clear is below [2 ^ k]. *)
Lemma Z_bits_bound z k : 0 <= k -> (forall i, k <= i -> Z.testbit z i = false) -> 0 <= z < 2 ^ k.
Proof.
  intros Hk H. assert (z = z mod 2 ^ k) as ->; [|apply Z.mod_pos_bound; lia].
  apply Z.bits_inj'. intros i Hi. destruct (Z.lt_ge_cases i k).
  - by rewrite Z.mod_pow2_bits_low by lia.
  - by rewrite Z.mod_pow2_bits_high, H by lia.
Qed.

Lemma Z_bits_above z k i : 0 <= z < 2 ^ k -> k <= i -> 0 <= k -> Z.testbit z i = false.
Proof.
  intros Hz Hi Hk. rewrite <- (Z.mod_small z (2 ^ k)) by lia. apply Z.mod_pow2_bits_high. lia.
Qed.

(** Bounded search over an interval of [Z]. *)
Lemma zfind (f : Z -> bool) a b :
  (forall i, a <= i < b -> f i = true) \/ exists i, a <= i < b /\ f i = false.
Proof.
  destruct (Z.le_gt_cases b a) as [Hle|Hlt]; [left; intros; lia|].
  replace b with (a + Z.of_nat (Z.to_nat (b - a))) by lia. generalize (Z.to_nat (b - a)). clear b Hlt.
  intros n. revert a. induction n as [|n IH]; intros a; [left; intros; lia|].
  destruct (f a) eqn:Ea; [|right; exists a; split; [lia|done]].
  destruct (IH (a + 1)) as [H|(i & Hi & Hf)].
  - left. intros i Hi. destruct (Z.eq_dec i a) as [->|]; [done|apply H; lia].
  - right. exists i. split; [lia|done].
Qed.

(** A number that is not zero has a bit set. *)
Lemma zbit_exists z : z <> 0 -> exists b, 0 <= b /\ Z.testbit z b = true.
Proof.
  intros Hz. destruct (Z.lt_ge_cases z 0) as [Hn|Hp].
  - exists (Z.log2 (Z.pred (- z)) + 1). pose proof (Z.log2_nonneg (Z.pred (- z))). split; [lia|].
    apply Z.bits_above_log2_neg; lia.
  - exists (Z.log2 z). split; [apply Z.log2_nonneg|]. apply Z.bit_log2. lia.
Qed.

(** ** Lists *)

Lemma list_last_app {A} (u v : list A) x d : List.last (u ++ x :: v) d = List.last (x :: v) d.
Proof. induction u as [|y u IH]; [done|]. cbn [app]. rewrite <- IH. by destruct u. Qed.
Lemma list_last_cons {A} (u v : list A) x y d : List.last (x :: u ++ y :: v) d = List.last (y :: v) d.
Proof. exact (list_last_app (x :: u) v y d). Qed.
