(* ===== verification/RtlTime.v ===== *)
(** * Absolute time conversion (src/ntoskrnl/rtl/time.c)

    The conversions between a 64-bit NT time (100ns ticks since 1601) and
    calendar fields, the reciprocal-multiplication division they are built on,
    the seconds-since-1970/1980 conversions and the daylight-saving cutover
    computation.

    A LARGE_INTEGER is the [Z] of its QuadPart, between -2^63 and 2^63-1;
    [LowPart] and [HighPart] are the union's 32-bit halves.  A BOOLEAN routine
    with one output parameter returns an [option]: [None] is FALSE, with the
    output left unwritten.

    RtlExtendedMagicDivide is an inline function of ntrtl.h on AMD64 only; on x86 it
    is an assembly routine whose source is not in the tree.  The definition is the
    inline one; that it is the quotient for the three divisors is a theorem. *)

From S2P Require Import Prelude.

Module Time.

(** ** LARGE_INTEGER and the extended division (sdk/sdk/inc/ntrtl.h) *)

Definition LowPart (q : Z) : Z := u32 q.
Definition HighPart (q : Z) : Z := s32 (Z.shiftr q 32).
Definition LARGE_INTEGER_init (low high : Z) : Z := s64 (high * 2 ^ 32 + low).

Definition UnsignedMultiplyHigh (a b : Z) : Z := (u64 a * u64 b) / 2 ^ 64.

Definition RtlExtendedMagicDivide (Dividend MagicDivisor ShiftCount : Z) : Z :=
  let q1 := if Dividend >=? 0
            then s64 (UnsignedMultiplyHigh Dividend MagicDivisor)
            else s64 (UnsignedMultiplyHigh (- Dividend) MagicDivisor) in
  let q2 := s64 (Z.shiftr (u64 q1) ShiftCount) in
  if Dividend <? 0 then s64 (- q2) else q2.

Definition RtlExtendedIntegerMultiply (Multiplicand Multiplier : Z) : Z :=
  s64 (Multiplicand * Multiplier).

Definition Int32x32To64 (a b : Z) : Z := s64 (s32 a * s32 b).

(** ** Constants and tables of time.c *)

Definition LeapYearDayToMonth : list Z :=
  replicate 31 0 ++ replicate 29 1 ++ replicate 31 2 ++ replicate 30 3 ++
  replicate 31 4 ++ replicate 30 5 ++ replicate 31 6 ++ replicate 31 7 ++
  replicate 30 8 ++ replicate 31 9 ++ replicate 30 10 ++ replicate 31 11.

Definition NormalYearDayToMonth : list Z :=
  replicate 31 0 ++ replicate 28 1 ++ replicate 31 2 ++ replicate 30 3 ++
  replicate 31 4 ++ replicate 30 5 ++ replicate 31 6 ++ replicate 31 7 ++
  replicate 30 8 ++ replicate 31 9 ++ replicate 30 10 ++ replicate 31 11.

Definition LeapYearDaysPrecedingMonth : list Z :=
  [0; 31; 31+29; 31+29+31; 31+29+31+30; 31+29+31+30+31; 31+29+31+30+31+30;
   31+29+31+30+31+30+31; 31+29+31+30+31+30+31+31; 31+29+31+30+31+30+31+31+30;
   31+29+31+30+31+30+31+31+30+31; 31+29+31+30+31+30+31+31+30+31+30;
   31+29+31+30+31+30+31+31+30+31+30+31].

Definition NormalYearDaysPrecedingMonth : list Z :=
  [0; 31; 31+28; 31+28+31; 31+28+31+30; 31+28+31+30+31; 31+28+31+30+31+30;
   31+28+31+30+31+30+31; 31+28+31+30+31+30+31+31; 31+28+31+30+31+30+31+31+30;
   31+28+31+30+31+30+31+31+30+31; 31+28+31+30+31+30+31+31+30+31+30;
   31+28+31+30+31+30+31+31+30+31+30+31].

Definition WEEKDAY_OF_1601 : Z := 1.

Definition SecondsToStartOf1970 : Z := LARGE_INTEGER_init 0xb6109100 0x00000002.
Definition SecondsToStartOf1980 : Z := LARGE_INTEGER_init 0xc8df3700 0x00000002.

Definition Magic10000 : Z := LARGE_INTEGER_init 0xe219652c 0xd1b71758.
Definition SHIFT10000 : Z := 13.
Definition Magic10000000 : Z := LARGE_INTEGER_init 0xe57a42bd 0xd6bf94d5.
Definition SHIFT10000000 : Z := 23.
Definition Magic86400000 : Z := LARGE_INTEGER_init 0xfa67b90e 0xc6d750eb.
Definition SHIFT86400000 : Z := 26.

Definition Convert100nsToMilliseconds (t : Z) : Z :=
  RtlExtendedMagicDivide t Magic10000 SHIFT10000.
Definition ConvertMillisecondsTo100ns (ms : Z) : Z :=
  RtlExtendedIntegerMultiply ms 10000.
Definition Convert100nsToSeconds (t : Z) : Z :=
  RtlExtendedMagicDivide t Magic10000000 SHIFT10000000.
Definition ConvertSecondsTo100ns (secs : Z) : Z :=
  RtlExtendedIntegerMultiply secs 10000000.
Definition ConvertMillisecondsToDays (ms : Z) : Z :=
  RtlExtendedMagicDivide ms Magic86400000 SHIFT86400000.
Definition ConvertDaysToMilliseconds (days : Z) : Z :=
  Int32x32To64 days 86400000.

(** ** Calendar arithmetic on ULONG *)

Definition ElapsedDaysToYears (ElapsedDays : Z) : Z :=
  let NumberOf400s := ElapsedDays / 146097 in
  let d1 := u32 (ElapsedDays - u32 (NumberOf400s * 146097)) in
  let NumberOf100s := u32 (u32 (d1 * 100) + 75) / 3652425 in
  let d2 := u32 (d1 - u32 (NumberOf100s * 36524)) in
  let NumberOf4s := d2 / 1461 in
  let d3 := u32 (d2 - u32 (NumberOf4s * 1461)) in
  u32 (u32 (u32 (u32 (NumberOf400s * 400) + u32 (NumberOf100s * 100))
            + u32 (NumberOf4s * 4))
       + u32 (u32 (d3 * 100) + 75) / 36525).

Definition NumberOfLeapYears (YEARS : Z) : Z :=
  u32 (u32 (YEARS / 4 - YEARS / 100) + YEARS / 400).

Definition ElapsedYearsToDays (YEARS : Z) : Z :=
  u32 (u32 (YEARS * 365) + NumberOfLeapYears YEARS).

Definition IsLeapYear (YEARS : Z) : bool :=
  (YEARS mod 400 =? 0) || (negb (YEARS mod 100 =? 0) && (YEARS mod 4 =? 0)).

Definition table (t : list Z) (i : Z) : Z := nth (Z.to_nat i) t 0.

Definition MaxDaysInMonth (YEAR MONTH : Z) : Z :=
  if IsLeapYear YEAR
  then table LeapYearDaysPrecedingMonth (u32 (MONTH + 1))
       - table LeapYearDaysPrecedingMonth MONTH
  else table NormalYearDaysPrecedingMonth (u32 (MONTH + 1))
       - table NormalYearDaysPrecedingMonth MONTH.

(** ** Splitting a time into days and milliseconds *)

Definition TimeToDaysAndFraction (t : Z) : Z * Z :=
  let TotalMilliseconds := Convert100nsToMilliseconds t in
  let Temp := ConvertMillisecondsToDays TotalMilliseconds in
  let ElapsedDays := LowPart Temp in
  let Temp := ConvertDaysToMilliseconds ElapsedDays in
  let Temp := s64 (TotalMilliseconds - Temp) in
  (ElapsedDays, LowPart Temp).

Definition DaysAndFractionToTime (ElapsedDays Milliseconds : Z) : Z :=
  let Temp := ConvertDaysToMilliseconds ElapsedDays in
  let Temp2 := LARGE_INTEGER_init Milliseconds 0 in
  let Temp := s64 (Temp + Temp2) in
  ConvertMillisecondsTo100ns Temp.

(** ** Time fields *)

Record TIME_FIELDS := mkTF {
  Year : Z; Month : Z; Day : Z; Hour : Z;
  Minute : Z; Second : Z; Milliseconds : Z; Weekday : Z }.

Definition RtlTimeToTimeFields (Time : Z) : TIME_FIELDS :=
  let '(days, ms) := TimeToDaysAndFraction Time in
  let weekday := s16 (u32 (days + WEEKDAY_OF_1601) mod 7) in
  let years := ElapsedDaysToYears days in
  let days := u32 (days - ElapsedYearsToDays years) in
  let '(month, days) :=
    if IsLeapYear (u32 (years + 1))
    then let month := table LeapYearDayToMonth days in
         (month, u32 (days - table LeapYearDaysPrecedingMonth month))
    else let month := table NormalYearDayToMonth days in
         (month, u32 (days - table NormalYearDaysPrecedingMonth month)) in
  let seconds := ms / 1000 in
  let ms := ms mod 1000 in
  let minutes := seconds / 60 in
  let seconds := seconds mod 60 in
  let hours := minutes / 60 in
  let minutes := minutes mod 60 in
  {| Year := s16 (u32 (years + 1601)); Month := s16 (u32 (month + 1));
     Day := s16 (u32 (days + 1)); Hour := s16 hours; Minute := s16 minutes;
     Second := s16 seconds; Milliseconds := s16 ms; Weekday := weekday |}.

Definition RtlTimeFieldsToTime (TimeFields : TIME_FIELDS) : option Z :=
  let year := u32 (Year TimeFields) in
  let month := u32 (Month TimeFields - 1) in
  let day := u32 (Day TimeFields - 1) in
  let hour := u32 (Hour TimeFields) in
  let minute := u32 (Minute TimeFields) in
  let second := u32 (Second TimeFields) in
  let ms := u32 (Milliseconds TimeFields) in
  if (Month TimeFields <? 1) || (Day TimeFields <? 1) || (year <? 1601)
     || (year >? 30827) || (month >? 11)
     || (s16 day >=? MaxDaysInMonth year month)
     || (hour >? 23) || (minute >? 59) || (second >? 59) || (ms >? 999)
  then None
  else
    let ElapsedDays := ElapsedYearsToDays (u32 (year - 1601)) in
    let ElapsedDays :=
      if IsLeapYear (u32 (year - 1600))
      then u32 (ElapsedDays + table LeapYearDaysPrecedingMonth month)
      else u32 (ElapsedDays + table NormalYearDaysPrecedingMonth month) in
    let ElapsedDays := u32 (ElapsedDays + day) in
    let ElapsedMilliseconds :=
      u32 (u32 (u32 (u32 (u32 (u32 (hour * 60) + minute) * 60) + second)
                * 1000) + ms) in
    Some (DaysAndFractionToTime ElapsedDays ElapsedMilliseconds).

(** The Weekday field of the output record is left as the caller had it. *)
Definition RtlTimeToElapsedTimeFields (Time : Z) (TimeFields : TIME_FIELDS) : TIME_FIELDS :=
  let '(days, ms) := TimeToDaysAndFraction Time in
  let seconds := ms / 1000 in
  let ms := ms mod 1000 in
  let minutes := seconds / 60 in
  let seconds := seconds mod 60 in
  let hours := minutes / 60 in
  let minutes := minutes mod 60 in
  {| Year := 0; Month := 0; Day := s16 days; Hour := s16 hours;
     Minute := s16 minutes; Second := s16 seconds; Milliseconds := s16 ms;
     Weekday := Weekday TimeFields |}.

(** ** Seconds since 1970 and 1980 *)

Definition RtlTimeToSecondsSince1980 (Time : Z) : option Z :=
  let Seconds := Convert100nsToSeconds Time in
  let Seconds := s64 (Seconds - SecondsToStartOf1980) in
  if negb (HighPart Seconds =? 0) then None else Some (LowPart Seconds).

Definition RtlSecondsSince1980ToTime (ElapsedSeconds : Z) : Z :=
  let Seconds := LARGE_INTEGER_init ElapsedSeconds 0 in
  let Seconds := s64 (Seconds + SecondsToStartOf1980) in
  ConvertSecondsTo100ns Seconds.

Definition RtlTimeToSecondsSince1970 (Time : Z) : option Z :=
  let Seconds := Convert100nsToSeconds Time in
  let Seconds := s64 (Seconds - SecondsToStartOf1970) in
  if negb (HighPart Seconds =? 0) then None else Some (LowPart Seconds).

Definition RtlSecondsSince1970ToTime (ElapsedSeconds : Z) : Z :=
  let Seconds := LARGE_INTEGER_init ElapsedSeconds 0 in
  let Seconds := s64 (Seconds + SecondsToStartOf1970) in
  ConvertSecondsTo100ns Seconds.

(** ** Daylight-saving cutover

    The result is [None] when the iteration bound is exhausted (excluded by
    [cutover_terminates]); otherwise the BOOLEAN returned and, when the routine
    stored into *SystemTime, the value stored. *)

Definition set_Day (tf : TIME_FIELDS) (d : Z) : TIME_FIELDS :=
  {| Year := Year tf; Month := Month tf; Day := d; Hour := Hour tf;
     Minute := Minute tf; Second := Second tf; Milliseconds := Milliseconds tf;
     Weekday := Weekday tf |}.

(** [while ( WorkingWeekdayNumber < TargetWeekdayNumber )]: the final
    BestWeekdayDate. *)
Fixpoint cutover_weeks (fuel : nat) (WorkingTimeField : TIME_FIELDS)
    (WorkingWeekdayNumber TargetWeekdayNumber BestWeekdayDate : Z) : option Z :=
  if WorkingWeekdayNumber <? TargetWeekdayNumber then
    match fuel with
    | O => None
    | S fuel =>
        let WorkingTimeField := set_Day WorkingTimeField (s16 (Day WorkingTimeField + 7)) in
        match RtlTimeFieldsToTime WorkingTimeField with
        | None => Some BestWeekdayDate
        | Some ScratchTime =>
            let ScratchTimeField := RtlTimeToTimeFields ScratchTime in
            cutover_weeks fuel WorkingTimeField (s16 (WorkingWeekdayNumber + 1))
              TargetWeekdayNumber (Day ScratchTimeField)
        end
    end
  else Some BestWeekdayDate.

(** The code from the label [try_next_year] on. *)
Fixpoint try_next_year (fuel : nat) (CutoverTime CurrentTimeFields : TIME_FIELDS)
    (CurrentSystemTime TargetYear : Z) (MonthMatches : bool) : option (bool * option Z) :=
  match fuel with
  | O => None
  | S fuel =>
    let TargetWeekday := Weekday CutoverTime in
    let WorkingTimeField :=
      {| Year := TargetYear; Month := Month CutoverTime; Day := 1;
         Hour := Hour CutoverTime; Minute := Minute CutoverTime;
         Second := Second CutoverTime; Milliseconds := Milliseconds CutoverTime;
         Weekday := 0 |} in
    match RtlTimeFieldsToTime WorkingTimeField with
    | None => Some (false, None)
    | Some ScratchTime =>
        let ScratchTimeField := RtlTimeToTimeFields ScratchTime in
        let WorkingTimeField :=
          if Weekday ScratchTimeField >? TargetWeekday then
            set_Day WorkingTimeField
              (s16 (Day WorkingTimeField + (7 - (Weekday ScratchTimeField - TargetWeekday))))
          else if Weekday ScratchTimeField <? TargetWeekday then
            set_Day WorkingTimeField
              (s16 (Day WorkingTimeField + (TargetWeekday - Weekday ScratchTimeField)))
          else WorkingTimeField in
        match cutover_weeks 5 WorkingTimeField 1 (Day CutoverTime) (Day WorkingTimeField) with
        | None => None
        | Some BestWeekdayDate =>
            let WorkingTimeField := set_Day WorkingTimeField BestWeekdayDate in
            match RtlTimeFieldsToTime WorkingTimeField with
            | None => Some (false, None)
            | Some ScratchTime =>
                if MonthMatches &&
                   ((Day WorkingTimeField <? Day CurrentTimeFields) ||
                    ((Day WorkingTimeField =? Day CurrentTimeFields) &&
                     (ScratchTime <? CurrentSystemTime)))
                then try_next_year fuel CutoverTime CurrentTimeFields CurrentSystemTime
                       (s16 (TargetYear + 1)) false
                else Some (true, Some ScratchTime)
            end
        end
    end
  end.

Definition RtlCutoverTimeToSystemTime (CutoverTime : TIME_FIELDS)
    (CurrentSystemTime : Z) (ThisYear : bool) : option (bool * option Z) :=
  let CurrentTimeFields := RtlTimeToTimeFields CurrentSystemTime in
  if negb (Year CutoverTime =? 0) then
    match RtlTimeFieldsToTime CutoverTime with
    | None => Some (false, None)
    | Some SystemTime =>
        if SystemTime <? CurrentSystemTime then Some (false, Some SystemTime)
        else Some (true, Some SystemTime)
    end
  else if (Day CutoverTime >? 5) || (Day CutoverTime =? 0) then Some (false, None)
  else
    let '(TargetYear, MonthMatches) :=
      if negb ThisYear then
        if Month CutoverTime <? Month CurrentTimeFields
        then (s16 (Year CurrentTimeFields + 1), false)
        else if Month CutoverTime >? Month CurrentTimeFields
        then (Year CurrentTimeFields, false)
        else (Year CurrentTimeFields, true)
      else (Year CurrentTimeFields, false) in
    try_next_year 2 CutoverTime CurrentTimeFields CurrentSystemTime TargetYear MonthMatches.

(** ** Local time

    The time zone bias is what ZwQuerySystemInformation reports: a status and,
    when it is a success, the bias. *)

Section LocalTime.
Variable QuerySystemTimeOfDay : Z * Z.
Definition NT_SUCCESS (status : Z) : bool := 0 <=? status.
Definition STATUS_SUCCESS : Z := 0.

Definition RtlSystemTimeToLocalTime (SystemTime : Z) : Z * option Z :=
  let '(Status, TimeZoneBias) := QuerySystemTimeOfDay in
  if negb (NT_SUCCESS Status) then (Status, None)
  else (STATUS_SUCCESS, Some (s64 (SystemTime - TimeZoneBias))).

Definition RtlLocalTimeToSystemTime (LocalTime : Z) : Z * option Z :=
  let '(Status, TimeZoneBias) := QuerySystemTimeOfDay in
  if negb (NT_SUCCESS Status) then (Status, None)
  else (STATUS_SUCCESS, Some (s64 (LocalTime + TimeZoneBias))).
End LocalTime.

(** ** Specification vocabulary *)

(** Days in the first [y] years after 1601, without wrap-around. *)
Definition year_days (y : Z) : Z := 365 * y + (y / 4 - y / 100 + y / 400).

Definition DayToMonth (leap : bool) : list Z :=
  if leap then LeapYearDayToMonth else NormalYearDayToMonth.
Definition DaysPrecedingMonth (leap : bool) : list Z :=
  if leap then LeapYearDaysPrecedingMonth else NormalYearDaysPrecedingMonth.
Definition year_length (leap : bool) : Z := if leap then 366 else 365.

(** [civil D y m d]: day [D] since 1601 is day [d] of month [m] of year
    1601 + [y], everything zero-based. *)
Record civil (D y m d : Z) : Prop := {
  civil_year : 0 <= y;
  civil_month : 0 <= m <= 11;
  civil_day : 0 <= d <
    table (DaysPrecedingMonth (IsLeapYear (y + 1))) (m + 1)
    - table (DaysPrecedingMonth (IsLeapYear (y + 1))) m;
  civil_total : D = year_days y + table (DaysPrecedingMonth (IsLeapYear (y + 1))) m + d }.

Definition TICKS_PER_DAY : Z := 864000000000.

(** The fields [RtlTimeToTimeFields] computes from a day number, a month, a
    day in the month and the milliseconds of the day. *)
Definition fields_of (D y m d ms : Z) : TIME_FIELDS :=
  {| Year := y + 1601; Month := m + 1; Day := d + 1;
     Hour := ms / 3600000; Minute := ms / 60000 mod 60;
     Second := ms / 1000 mod 60; Milliseconds := ms mod 1000;
     Weekday := (D + 1) mod 7 |}.

(** An independent statement of what a well-formed record is. *)
Definition days_in_month (year month : Z) : Z :=
  if month =? 2 then if IsLeapYear year then 29 else 28
  else if (month =? 4) || (month =? 6) || (month =? 9) || (month =? 11) then 30 else 31.

Definition valid_fields (tf : TIME_FIELDS) : bool :=
  (1601 <=? Year tf) && (Year tf <=? 30827) &&
  (1 <=? Month tf) && (Month tf <=? 12) &&
  (1 <=? Day tf) && (Day tf <=? days_in_month (Year tf) (Month tf)) &&
  (0 <=? Hour tf) && (Hour tf <=? 23) && (0 <=? Minute tf) && (Minute tf <=? 59) &&
  (0 <=? Second tf) && (Second tf <=? 59) &&
  (0 <=? Milliseconds tf) && (Milliseconds tf <=? 999).

(** The eight members are CSHORTs. *)
Definition fields_typed (tf : TIME_FIELDS) : Prop :=
  Forall (fun z => -32768 <= z < 32768)
    [Year tf; Month tf; Day tf; Hour tf; Minute tf; Second tf; Milliseconds tf; Weekday tf].

(** The time a well-formed record denotes. *)
Definition fields_time (tf : TIME_FIELDS) : Z :=
  (year_days (Year tf - 1601)
   + table (DaysPrecedingMonth (IsLeapYear (Year tf))) (Month tf - 1)
   + (Day tf - 1)) * TICKS_PER_DAY
  + (((Hour tf * 60 + Minute tf) * 60 + Second tf) * 1000 + Milliseconds tf) * 10000.

(** First instant of the year 30828, which RtlTimeFieldsToTime refuses. *)
Definition TIME_LIMIT : Z := 10674942 * TICKS_PER_DAY.

Definition set_Weekday (tf : TIME_FIELDS) (w : Z) : TIME_FIELDS :=
  {| Year := Year tf; Month := Month tf; Day := Day tf; Hour := Hour tf;
     Minute := Minute tf; Second := Second tf; Milliseconds := Milliseconds tf;
     Weekday := w |}.

Definition next_day (tf : TIME_FIELDS) : TIME_FIELDS :=
  let tf := set_Weekday tf ((Weekday tf + 1) mod 7) in
  if Day tf <? days_in_month (Year tf) (Month tf) then set_Day tf (Day tf + 1)
  else
    {| Year := if Month tf <? 12 then Year tf else Year tf + 1;
       Month := if Month tf <? 12 then Month tf + 1 else 1;
       Day := 1; Hour := Hour tf; Minute := Minute tf; Second := Second tf;
       Milliseconds := Milliseconds tf; Weekday := Weekday tf |}.

(** What a relative cutover rule asks of the moment chosen in year [y]: the
    [Day]-th (or, failing that, last) [Weekday] of the month, at the rule's
    time of day. *)
Definition matches_rule (rule tf : TIME_FIELDS) : Prop :=
  Month tf = Month rule /\ Weekday tf = Weekday rule /\
  Hour tf = Hour rule /\ Minute tf = Minute rule /\ Second tf = Second rule /\
  Milliseconds tf = Milliseconds rule /\
  ((Day tf - 1) / 7 = Day rule - 1 \/
   ((Day tf - 1) / 7 < Day rule - 1 /\ days_in_month (Year tf) (Month tf) < Day tf + 7)).

Definition rule_ok (rule : TIME_FIELDS) : bool :=
  (Year rule =? 0) && (1 <=? Day rule) && (Day rule <=? 5) &&
  (0 <=? Weekday rule) && (Weekday rule <=? 6) &&
  (1 <=? Month rule) && (Month rule <=? 12) &&
  (0 <=? Hour rule) && (Hour rule <=? 23) && (0 <=? Minute rule) && (Minute rule <=? 59) &&
  (0 <=? Second rule) && (Second rule <=? 59) &&
  (0 <=? Milliseconds rule) && (Milliseconds rule <=? 999).

(** The candidate of one attempt: the record for day [d] of the target month. *)
Definition candidate (rule : TIME_FIELDS) (y d : Z) : TIME_FIELDS :=
  {| Year := y; Month := Month rule; Day := d; Hour := Hour rule; Minute := Minute rule;
     Second := Second rule; Milliseconds := Milliseconds rule; Weekday := 0 |}.

(** ** Lemmas and theorems *)

Lemma magic_quotient d M K e n :
    0 < d -> 0 < K -> M * d = K + e -> 0 <= e -> 0 <= n -> n * e < K ->
    n * M / K = n / d.
  Proof.
    intros Hd HK HM He Hn Hlt.
    symmetry. apply (Z.div_unique_pos _ _ _ (n * M - n / d * K)); [|lia].
    pose proof (Z.div_mod n d ltac:(lia)) as Hq.
    pose proof (Z.mod_pos_bound n d Hd).
    set (q := n / d) in *. set (r := n mod d) in *.
    assert (0 <= q) by (apply Z.div_pos; lia).
    assert (n * (M * d) = n * K + n * e) by (rewrite HM; ring).
    split.
    - apply (Z.mul_le_mono_pos_r _ _ d Hd). nia.
    - apply (Z.mul_lt_mono_pos_r d _ _ Hd). nia.
  Qed.

Lemma UnsignedMultiplyHigh_shift n M d e s :
  0 <= n <= 2 ^ 63 -> 0 < d < 2^63 -> 0 <= s < 64 -> 0 <= M < 2 ^ 64 ->
  M * d = 2 ^ (64 + s) + e -> 0 <= e -> 2 ^ 63 * e < 2 ^ (64 + s) ->
  Z.shiftr (UnsignedMultiplyHigh n M) s = n / d.
Proof.
  intros Hn Hd Hs HM Hm He Hlt. unfold UnsignedMultiplyHigh.
  rewrite !u64_small by lia.
  rewrite Z.shiftr_div_pow2, Zdiv_Zdiv, <- Z.pow_add_r by lia.
  apply (magic_quotient d M _ e); try nia.
Qed.

Lemma magic_divide_quot t M d e s :
  - 2 ^ 63 <= t < 2 ^ 63 -> 1 < d < 2^63 -> 0 <= s < 64 ->
  u64 M * d = 2 ^ (64 + s) + e -> 0 <= e -> 2 ^ 63 * e < 2 ^ (64 + s) ->
  RtlExtendedMagicDivide t M s = Z.quot t d.
Proof.
  intros Ht Hd Hs Hm He Hlt. unfold RtlExtendedMagicDivide.
  pose proof (uwrap_range 64 M ltac:(lia)) as HM.
  assert (Hmul : forall n, 0 <= n <= 2 ^ 63 ->
    s64 (Z.shiftr (u64 (s64 (UnsignedMultiplyHigh n M))) s) = n / d /\ 0 <= n / d < 2 ^ 63).
  { intros n Hn.
    assert (UnsignedMultiplyHigh n M = UnsignedMultiplyHigh n (u64 M)) as ->.
    { unfold UnsignedMultiplyHigh. rewrite (uwrap_small 64 (u64 M)) by lia. reflexivity. }
    pose proof (UnsignedMultiplyHigh_shift n (u64 M) d e s Hn ltac:(lia) Hs HM Hm He Hlt) as E.
    assert (0 <= UnsignedMultiplyHigh n (u64 M) < 2 ^ 63).
    { unfold UnsignedMultiplyHigh. rewrite (uwrap_small 64 (u64 M)), u64_small by lia.
      split; [apply Z.div_pos; nia|]. apply Z.div_lt_upper_bound; nia. }
    assert (0 <= n / d < 2 ^ 63).
    { split; [apply Z.div_pos; lia|]. apply Z.div_lt_upper_bound; nia. }
    rewrite (s64_small (UnsignedMultiplyHigh _ _)), u64_small, E, s64_small by lia.
    lia. }
  destruct (Z.ltb_spec t 0); destruct (Z.geb_spec t 0); try lia.
  - destruct (Hmul (- t)) as [-> ?]; [lia|].
    rewrite s64_small by lia.
    rewrite <- (Z.quot_div_nonneg (-t) d), Z.quot_opp_l by lia. lia.
  - destruct (Hmul t) as [-> ?]; [lia|]. symmetry; apply Z.quot_div_nonneg; lia.
Qed.

Lemma Convert100nsToMilliseconds_quot t :
  - 2 ^ 63 <= t < 2 ^ 63 -> Convert100nsToMilliseconds t = Z.quot t 10000.
Proof. intros. apply (magic_divide_quot _ _ _ 1728); easy || lia. Qed.
Lemma Convert100nsToSeconds_quot t :
  - 2 ^ 63 <= t < 2 ^ 63 -> Convert100nsToSeconds t = Z.quot t 10000000.
Proof. intros. apply (magic_divide_quot _ _ _ 7609472); easy || lia. Qed.
Lemma ConvertMillisecondsToDays_quot t :
  - 2 ^ 63 <= t < 2 ^ 63 -> ConvertMillisecondsToDays t = Z.quot t 86400000.
Proof. intros. apply (magic_divide_quot _ _ _ 76875776); easy || lia. Qed.

Lemma year_days_succ y :
  year_days (y + 1) = year_days y + 365 + (if IsLeapYear (y + 1) then 1 else 0).
Proof.
  unfold year_days, IsLeapYear.
  destruct (Z.eqb_spec ((y + 1) mod 400) 0), (Z.eqb_spec ((y + 1) mod 100) 0),
    (Z.eqb_spec ((y + 1) mod 4) 0); cbn [orb andb negb]; zdiv.
Qed.

Lemma year_days_lower y : 0 <= y -> 365 * y <= year_days y.
Proof. unfold year_days; intros; zdiv. Qed.

Lemma year_days_mono y z : y <= z -> year_days y <= year_days z.
Proof. unfold year_days; intros; zdiv. Qed.

Lemma ElapsedYearsToDays_exact y :
  0 <= y -> year_days y < 2 ^ 32 -> ElapsedYearsToDays y = year_days y.
Proof.
  intros H0 H. pose proof (year_days_lower y H0).
  unfold ElapsedYearsToDays, NumberOfLeapYears, year_days in *.
  rewrite (u32_small (y * 365)), (u32_small (y / 4 - y / 100)), (u32_small (_ + y / 400)), u32_small;
    zdiv.
Qed.

(** The quotients by 4, 100 and 400 of a year split into blocks. *)
Lemma year_days_blocks a c q r :
  0 <= c <= 3 -> 0 <= q <= 24 -> 0 <= r <= 3 ->
  year_days (400 * a + 100 * c + 4 * q + r)
  = 146097 * a + 36524 * c + 1461 * q + 365 * r.
Proof. unfold year_days; intros; zdiv. Qed.

Lemma ElapsedDaysToYears_bounds d :
  0 <= d < 2 ^ 32 ->
  let y := ElapsedDaysToYears d in
  0 <= y < 12000000 /\ year_days y <= d < year_days (y + 1).
Proof.
  intros Hd y.
  remember (d / 146097) as a eqn:Ha.
  assert (Hab : 0 <= a < 29399 /\ a * 146097 <= d < a * 146097 + 146097) by zdiv.
  remember (d - a * 146097) as d1 eqn:Hd1.
  remember ((d1 * 100 + 75) / 3652425) as c eqn:Hc.
  assert (Hcb : 0 <= c <= 3 /\ c * 3652425 <= d1 * 100 + 75 < c * 3652425 + 3652425) by zdiv.
  remember (d1 - c * 36524) as d2 eqn:Hd2.
  assert (Hd2b : 0 <= d2 <= 36524 /\ (c < 3 -> d2 < 36524)) by lia.
  remember (d2 / 1461) as q eqn:Hq.
  remember (d2 - q * 1461) as d3 eqn:Hd3.
  assert (Hqb : 0 <= q <= 24 /\ 0 <= d3 < 1461) by zdiv.
  remember ((d3 * 100 + 75) / 36525) as r eqn:Hr.
  assert (Hrb : 0 <= r <= 3 /\ 365 * r <= d3 <= 365 * r + 365 /\ (r < 3 -> d3 < 365 * r + 365))
    by zdiv.
  assert (Hy : y = 400 * a + 100 * c + 4 * q + r).
  { unfold y, ElapsedDaysToYears. rewrite <- Ha.
    rewrite (u32_small (a * 146097)), <- Hd1, (u32_small d1) by lia.
    rewrite (u32_small (d1 * 100)), (u32_small (d1 * 100 + 75)), <- Hc by lia.
    rewrite (u32_small (c * 36524)), <- Hd2, (u32_small d2), <- Hq by lia.
    rewrite (u32_small (q * 1461)), <- Hd3, (u32_small d3) by lia.
    rewrite (u32_small (d3 * 100)), (u32_small (d3 * 100 + 75)), <- Hr by lia.
    wrap. lia. }
  rewrite Hy. clear y Hy.
  split; [lia|].
  rewrite year_days_succ, year_days_blocks by lia.
  assert (d = 146097 * a + 36524 * c + 1461 * q + d3) by lia.
  split; [lia|].
  unfold IsLeapYear.
  destruct (Z.eq_dec r 3) as [->|]; [|btest; lia].
  (* last year of a 4-year block: leap unless it ends a non-400 century *)
  assert (Hmod4 : (400 * a + 100 * c + 4 * q + 3 + 1) mod 4 = 0) by zdiv.
  destruct (Z.eq_dec q 24) as [->|].
  - destruct (Z.eq_dec c 3) as [->|].
    + replace ((400 * a + 100 * 3 + 4 * 24 + 3 + 1) mod 400) with 0 by zdiv. cbn. lia.
    + btest; lia.
  - replace ((400 * a + 100 * c + 4 * q + 3 + 1) mod 100 =? 0) with false
      by (symmetry; apply Z.eqb_neq; zdiv).
    rewrite Hmod4, orb_true_r. lia.
Qed.

Lemma DayToMonth_spec leap i :
  0 <= i < year_length leap ->
  let m := table (DayToMonth leap) i in
  0 <= m <= 11 /\
  table (DaysPrecedingMonth leap) m <= i < table (DaysPrecedingMonth leap) (m + 1).
Proof.
  intros Hi m. subst m.
  set (f := fun i => let m := table (DayToMonth leap) i in
    (0 <=? m) && (m <=? 11) && (table (DaysPrecedingMonth leap) m <=? i)
    && (i <? table (DaysPrecedingMonth leap) (m + 1))).
  assert (f i = true); [|unfold f in *; lia].
  destruct leap; [apply (zrange_forallb 366)|apply (zrange_forallb 365)];
    solve [vm_compute; reflexivity | exact Hi].
Qed.

Lemma DaysPrecedingMonth_bounds leap m :
  0 <= m <= 11 ->
  0 <= table (DaysPrecedingMonth leap) m <= 335 /\
  28 <= table (DaysPrecedingMonth leap) (m + 1) - table (DaysPrecedingMonth leap) m <= 31 /\
  table (DaysPrecedingMonth leap) (m + 1) <= year_length leap.
Proof.
  intros Hm.
  set (f := fun m => (0 <=? table (DaysPrecedingMonth leap) m)
    && (table (DaysPrecedingMonth leap) m <=? 335)
    && (28 <=? table (DaysPrecedingMonth leap) (m + 1) - table (DaysPrecedingMonth leap) m)
    && (table (DaysPrecedingMonth leap) (m + 1) - table (DaysPrecedingMonth leap) m <=? 31)
    && (table (DaysPrecedingMonth leap) (m + 1) <=? year_length leap)).
  assert (f m = true); [|unfold f in *; lia].
  destruct leap; apply (zrange_forallb 12); solve [vm_compute; reflexivity | lia].
Qed.

Lemma DaysPrecedingMonth_mono leap m m' :
  0 <= m -> m' <= 12 -> m <= m' ->
  table (DaysPrecedingMonth leap) m <= table (DaysPrecedingMonth leap) m'.
Proof.
  intros H0 H12 Hle.
  replace m' with (m + Z.of_nat (Z.to_nat (m' - m))) in * by lia.
  revert H12. induction (Z.to_nat (m' - m)) as [|k IH]; intros H12.
  - rewrite Z.add_0_r. lia.
  - rewrite Nat2Z.inj_succ in *.
    pose proof (DaysPrecedingMonth_bounds leap (m + Z.of_nat k) ltac:(lia)).
    replace (m + Z.succ (Z.of_nat k)) with (m + Z.of_nat k + 1) by lia.
    specialize (IH ltac:(lia)). lia.
Qed.

Lemma civil_in_year D y m d : civil D y m d -> year_days y <= D < year_days (y + 1).
Proof.
  intros [Hy Hm Hd ->]. rewrite year_days_succ.
  destruct (DaysPrecedingMonth_bounds (IsLeapYear (y + 1)) m Hm) as (? & ? & Hl).
  unfold year_length in Hl. destruct (IsLeapYear (y + 1)); lia.
Qed.

Lemma civil_unique D y m d y' m' d' :
  civil D y m d -> civil D y' m' d' -> y = y' /\ m = m' /\ d = d'.
Proof.
  intros H H'.
  pose proof (civil_in_year _ _ _ _ H). pose proof (civil_in_year _ _ _ _ H').
  assert (y = y').
  { destruct (Z.lt_trichotomy y y') as [?|[?|?]]; [|done|].
    - pose proof (year_days_mono (y + 1) y' ltac:(lia)). lia.
    - pose proof (year_days_mono (y' + 1) y ltac:(lia)). lia. }
  subst y'. destruct H as [Hy Hm Hd HD], H' as [Hy' Hm' Hd' HD'].
  assert (m = m'); [|subst m'; lia].
  destruct (Z.lt_trichotomy m m') as [?|[?|?]]; [|done|].
  - pose proof (DaysPrecedingMonth_mono (IsLeapYear (y + 1)) (m + 1) m'
      ltac:(lia) ltac:(lia) ltac:(lia)). lia.
  - pose proof (DaysPrecedingMonth_mono (IsLeapYear (y + 1)) (m' + 1) m
      ltac:(lia) ltac:(lia) ltac:(lia)). lia.
Qed.

Lemma civil_of_days D :
  0 <= D < 2 ^ 32 ->
  let y := ElapsedDaysToYears D in
  let i := D - year_days y in
  let m := table (DayToMonth (IsLeapYear (y + 1))) i in
  civil D y m (i - table (DaysPrecedingMonth (IsLeapYear (y + 1))) m)
  /\ 0 <= y < 12000000 /\ 0 <= i < year_length (IsLeapYear (y + 1)).
Proof.
  intros HD y i m.
  destruct (ElapsedDaysToYears_bounds D HD) as (Hy & Hlo & Hhi). fold y in Hy, Hlo, Hhi.
  assert (Hi : 0 <= i < year_length (IsLeapYear (y + 1))).
  { rewrite year_days_succ in Hhi. unfold i, year_length.
    destruct (IsLeapYear (y + 1)); lia. }
  destruct (DayToMonth_spec _ i Hi) as (Hm & Hlo' & Hhi'). fold m in Hm, Hlo', Hhi'.
  repeat split; lia.
Qed.

Lemma TimeToDaysAndFraction_exact t :
  0 <= t < 2 ^ 63 ->
  TimeToDaysAndFraction t = (t / TICKS_PER_DAY, (t / 10000) mod 86400000).
Proof.
  intros Ht. unfold TimeToDaysAndFraction, TICKS_PER_DAY.
  rewrite Convert100nsToMilliseconds_quot by lia.
  rewrite Z.quot_div_nonneg by lia.
  remember (t / 10000) as k eqn:Hk.
  assert (0 <= k < 922337203685478) by zdiv.
  rewrite ConvertMillisecondsToDays_quot, Z.quot_div_nonneg by lia.
  replace (t / 864000000000) with (k / 86400000) by (subst k; zdiv).
  remember (k / 86400000) as D eqn:HD.
  assert (0 <= D < 10675200 /\ D * 86400000 <= k < D * 86400000 + 86400000) by zdiv.
  unfold LowPart, ConvertDaysToMilliseconds, Int32x32To64.
  wrap. f_equal. zdiv.
Qed.

Lemma DaysAndFractionToTime_exact D ms :
  0 <= D < 10675199 -> 0 <= ms < 86400000 ->
  DaysAndFractionToTime D ms = D * TICKS_PER_DAY + ms * 10000.
Proof.
  intros HD Hms.
  unfold DaysAndFractionToTime, ConvertDaysToMilliseconds, ConvertMillisecondsTo100ns,
    RtlExtendedIntegerMultiply, Int32x32To64, LARGE_INTEGER_init, TICKS_PER_DAY.
  wrap. lia.
Qed.

Lemma RtlTimeToTimeFields_civil t :
  0 <= t < 2 ^ 63 ->
  exists y m d, civil (t / TICKS_PER_DAY) y m d /\ y <= 29227 /\
    RtlTimeToTimeFields t
    = fields_of (t / TICKS_PER_DAY) y m d ((t / 10000) mod 86400000).
Proof.
  intros Ht. unfold RtlTimeToTimeFields. rewrite TimeToDaysAndFraction_exact by done.
  remember (t / TICKS_PER_DAY) as D eqn:HD.
  assert (HDb : 0 <= D < 10675200) by (unfold TICKS_PER_DAY in HD; zdiv).
  destruct (civil_of_days D ltac:(lia)) as (Hc & Hy & Hi). cbv zeta in Hc, Hy, Hi.
  set (y := ElapsedDaysToYears D) in *.
  set (m := table (DayToMonth (IsLeapYear (y + 1))) (D - year_days y)) in *.
  set (d := D - year_days y - table (DaysPrecedingMonth (IsLeapYear (y + 1))) m) in *.
  pose proof (civil_in_year _ _ _ _ Hc) as Hin.
  pose proof (year_days_lower y ltac:(lia)).
  assert (Hymax : y <= 29227).
  { destruct (Z.le_gt_cases y 29227); [done|].
    pose proof (year_days_mono 29228 y ltac:(lia)).
    change (year_days 29228) with 10675308 in *. lia. }
  exists y, m, d. split; [done|]. split; [done|].
  rewrite ElapsedYearsToDays_exact by lia.
  rewrite (u32_small (D - year_days y)) by lia.
  rewrite (u32_small (y + 1)) by lia.
  destruct Hc as [_ Hm Hd Htot].
  pose proof (DaysPrecedingMonth_bounds (IsLeapYear (y + 1)) m Hm) as Hb.
  assert (Hsel : (if IsLeapYear (y + 1)
     then let month := table LeapYearDayToMonth (D - year_days y) in
          (month, u32 (D - year_days y - table LeapYearDaysPrecedingMonth month))
     else let month := table NormalYearDayToMonth (D - year_days y) in
          (month, u32 (D - year_days y - table NormalYearDaysPrecedingMonth month)))
     = (m, d)).
  { transitivity (m, u32 d).
    - unfold d, m, DayToMonth, DaysPrecedingMonth. destruct (IsLeapYear (y + 1)); reflexivity.
    - rewrite u32_small by lia. reflexivity. }
  cbv zeta in Hsel |- *. rewrite Hsel. unfold fields_of, WEEKDAY_OF_1601.
  remember (t / 10000 mod 86400000) as ms eqn:Hms.
  assert (0 <= ms < 86400000) by (subst ms; apply Z.mod_pos_bound; lia).
  assert (0 <= ms / 1000 / 60 / 60 < 24) by zdiv.
  assert (0 <= ms / 1000 / 60 mod 60 < 60) by (apply Z.mod_pos_bound; lia).
  assert (0 <= ms / 1000 mod 60 < 60) by (apply Z.mod_pos_bound; lia).
  assert (0 <= ms mod 1000 < 1000) by (apply Z.mod_pos_bound; lia).
  assert (0 <= (D + 1) mod 7 < 7) by (apply Z.mod_pos_bound; lia).
  wrap. rewrite !Zdiv_Zdiv by lia. reflexivity.
Qed.

Lemma IsLeapYear_shift y : IsLeapYear (y + 1600) = IsLeapYear y.
Proof.
  unfold IsLeapYear.
  replace ((y + 1600) mod 400) with (y mod 400) by zdiv.
  replace ((y + 1600) mod 100) with (y mod 100) by zdiv.
  replace ((y + 1600) mod 4) with (y mod 4) by zdiv. reflexivity.
Qed.

Lemma days_in_month_table y m :
  0 <= m <= 11 ->
  days_in_month y (m + 1)
  = table (DaysPrecedingMonth (IsLeapYear y)) (m + 1) - table (DaysPrecedingMonth (IsLeapYear y)) m.
Proof.
  intros Hm. unfold days_in_month.
  set (f := fun leap m => (if m + 1 =? 2 then if leap : bool then 29 else 28
      else if (m + 1 =? 4) || (m + 1 =? 6) || (m + 1 =? 9) || (m + 1 =? 11) then 30 else 31)
     =? table (DaysPrecedingMonth leap) (m + 1) - table (DaysPrecedingMonth leap) m).
  apply Z.eqb_eq. change (f (IsLeapYear y) m = true).
  destruct (IsLeapYear y); apply (zrange_forallb 12); solve [vm_compute; reflexivity | lia].
Qed.

Lemma u32_short z : -32768 <= z < 32768 -> u32 z = if z <? 0 then z + 4294967296 else z.
Proof.
  intros Hz. unfold uwrap. destruct (Z.ltb_spec z 0).
  - symmetry; apply (Z.mod_unique_pos _ _ (-1)); lia.
  - apply Z.mod_small; lia.
Qed.

Lemma MaxDaysInMonth_spec y m :
  0 <= m <= 11 -> MaxDaysInMonth y m = days_in_month y (m + 1).
Proof.
  intros Hm. rewrite days_in_month_table by done. unfold MaxDaysInMonth, DaysPrecedingMonth.
  rewrite u32_small by lia. destruct (IsLeapYear y); reflexivity.
Qed.

Lemma days_in_month_bounds y m : 28 <= days_in_month y m <= 31.
Proof. unfold days_in_month. btest; lia. Qed.

Lemma RtlTimeFieldsToTime_spec tf :
  fields_typed tf ->
  RtlTimeFieldsToTime tf = if valid_fields tf then Some (fields_time tf) else None.
Proof.
  intros Htyped. unfold fields_typed in Htyped. rewrite !Forall_cons_iff in Htyped.
  destruct tf as [Y M D h mi s ms w]; cbn [Year Month Day Hour Minute Second Milliseconds Weekday] in *.
  unfold RtlTimeFieldsToTime, valid_fields, fields_time.
  cbn [Year Month Day Hour Minute Second Milliseconds Weekday].
  match goal with |- (if ?g then _ else _) = (if ?v then _ else _) =>
    set (guard := g); set (valid := v) end.
  pose proof (days_in_month_bounds Y M) as Hdim.
  assert (Hguard : guard = negb valid).
  { subst guard valid.
    rewrite (u32_short Y), (u32_short h), (u32_short mi), (u32_short s), (u32_short ms) by lia.
    destruct (decide (1 <= M <= 12 /\ 1 <= D /\ 1601 <= Y)) as [(HM & HD & HY)|Hbad].
    - rewrite (u32_small (M - 1)), (u32_small (D - 1)), s16_small by lia.
      replace (Y <? 0) with false by lia. cbv iota.
      rewrite MaxDaysInMonth_spec, Z.sub_add by lia.
      destruct (Z.ltb_spec h 0), (Z.ltb_spec mi 0), (Z.ltb_spec s 0), (Z.ltb_spec ms 0); lia.
    - destruct (decide (M < 1 \/ D < 1 \/ Y < 1601)); [destruct (Z.ltb_spec Y 0); lia|].
      rewrite (u32_small (M - 1)) by lia. destruct (Z.ltb_spec Y 0); lia. }
  destruct valid eqn:Hvalid; subst guard; rewrite Hguard; [|reflexivity].
  subst valid. cbn [negb].
  assert (HY : 1601 <= Y <= 30827) by lia.
  assert (HM : 0 <= M - 1 <= 11) by lia.
  rewrite (u32_small Y), (u32_small (M - 1)), (u32_small (D - 1)), (u32_small h),
    (u32_small mi), (u32_small s), (u32_small ms) by lia.
  rewrite (u32_small (Y - 1601)), (u32_small (Y - 1600)) by lia.
  pose proof (year_days_mono (Y - 1601) 29226 ltac:(lia)) as Hyd.
  change (year_days 29226) with 10674577 in Hyd.
  pose proof (year_days_lower (Y - 1601) ltac:(lia)).
  rewrite ElapsedYearsToDays_exact by lia.
  replace (Y - 1600) with (Y - 1601 + 1) by lia.
  assert (IsLeapYear Y = IsLeapYear (Y - 1601 + 1)) as ->
    by (rewrite <- (IsLeapYear_shift (Y - 1601 + 1)); f_equal; lia).
  pose proof (DaysPrecedingMonth_bounds (IsLeapYear (Y - 1601 + 1)) (M - 1) HM) as Hdp.
  set (dp := table (DaysPrecedingMonth (IsLeapYear (Y - 1601 + 1))) (M - 1)) in *.
  f_equal. etransitivity; [|apply DaysAndFractionToTime_exact; lia].
  f_equal; [|wrap; lia].
  destruct (IsLeapYear (Y - 1601 + 1)); fold dp; cbn [DaysPrecedingMonth] in dp; fold dp; wrap; lia.
Qed.

Lemma leap_of_elapsed y : IsLeapYear (y + 1601) = IsLeapYear (y + 1).
Proof. rewrite <- (IsLeapYear_shift (y + 1)). f_equal; lia. Qed.

Lemma civil_days_in_month D y m d :
  civil D y m d -> 0 <= d < days_in_month (y + 1601) (m + 1).
Proof.
  intros [? Hm Hd ?]. rewrite days_in_month_table, leap_of_elapsed by done. done.
Qed.

Lemma ms_fields_bounds ms :
  0 <= ms < 86400000 ->
  0 <= ms / 3600000 <= 23 /\ 0 <= ms / 60000 mod 60 <= 59 /\
  0 <= ms / 1000 mod 60 <= 59 /\ 0 <= ms mod 1000 <= 999 /\
  ((ms / 3600000 * 60 + ms / 60000 mod 60) * 60 + ms / 1000 mod 60) * 1000 + ms mod 1000 = ms.
Proof. intros; repeat split; zdiv. Qed.

Lemma fields_of_valid D y m d ms :
  civil D y m d -> y <= 29227 -> 0 <= ms < 86400000 ->
  fields_typed (fields_of D y m d ms) /\
  (y <= 29226 -> valid_fields (fields_of D y m d ms) = true).
Proof.
  intros Hc Hy Hms.
  pose proof (civil_days_in_month _ _ _ _ Hc) as Hd.
  pose proof (days_in_month_bounds (y + 1601) (m + 1)).
  destruct Hc as [Hy0 Hm _ _].
  destruct (ms_fields_bounds ms Hms) as (? & ? & ? & ? & _).
  assert (0 <= (D + 1) mod 7 < 7) by (apply Z.mod_pos_bound; lia).
  unfold fields_typed, valid_fields, fields_of; cbn. rewrite !Forall_cons_iff.
  split; [repeat split; lia || constructor|intros; lia].
Qed.

Lemma fields_time_of D y m d ms :
  civil D y m d -> 0 <= ms < 86400000 ->
  fields_time (fields_of D y m d ms) = D * TICKS_PER_DAY + ms * 10000.
Proof.
  intros [Hy Hm Hd ->] Hms.
  destruct (ms_fields_bounds ms Hms) as (_ & _ & _ & _ & E).
  unfold fields_time, fields_of; cbn [Year Month Day Hour Minute Second Milliseconds].
  rewrite E, leap_of_elapsed. rewrite !Z.add_simpl_r. reflexivity.
Qed.

Lemma civil_of_valid tf :
  valid_fields tf = true ->
  exists D, civil D (Year tf - 1601) (Month tf - 1) (Day tf - 1) /\ 0 <= D < 10674942 /\
  exists ms, 0 <= ms < 86400000 /\
    ms = ((Hour tf * 60 + Minute tf) * 60 + Second tf) * 1000 + Milliseconds tf /\
    fields_time tf = D * TICKS_PER_DAY + ms * 10000.
Proof.
  intros Hv. unfold valid_fields in Hv.
  set (y := Year tf - 1601). set (m := Month tf - 1).
  assert (HY : Year tf = y + 1601) by lia. assert (HM : Month tf = m + 1) by lia.
  rewrite HY, HM in Hv. rewrite days_in_month_table, leap_of_elapsed in Hv by lia.
  assert (Hc : civil (year_days y + table (DaysPrecedingMonth (IsLeapYear (y + 1))) m
     + (Day tf - 1)) y m (Day tf - 1)) by (split; lia).
  eexists. split; [exact Hc|]. split.
  { pose proof (civil_in_year _ _ _ _ Hc).
    pose proof (year_days_mono 0 y ltac:(lia)). pose proof (year_days_mono (y + 1) 29227 ltac:(lia)).
    change (year_days 29227) with 10674942 in *. change (year_days 0) with 0 in *. lia. }
  exists (((Hour tf * 60 + Minute tf) * 60 + Second tf) * 1000 + Milliseconds tf).
  split; [lia|]. split; [reflexivity|].
  unfold fields_time. rewrite HY, leap_of_elapsed, HM, !Z.add_simpl_r. reflexivity.
Qed.

Lemma time_split_div D ms :
  0 <= ms < 86400000 ->
  (D * TICKS_PER_DAY + ms * 10000) / TICKS_PER_DAY = D /\
  (D * TICKS_PER_DAY + ms * 10000) / 10000 mod 86400000 = ms.
Proof. unfold TICKS_PER_DAY; intros; split; zdiv. Qed.

Lemma time_join_mod t :
  0 <= t -> t / TICKS_PER_DAY * TICKS_PER_DAY + t / 10000 mod 86400000 * 10000 = t - t mod 10000.
Proof. unfold TICKS_PER_DAY; intros; zdiv. Qed.

Lemma DaysPrecedingMonth_first leap : table (DaysPrecedingMonth leap) 0 = 0.
Proof. destruct leap; reflexivity. Qed.
Lemma DaysPrecedingMonth_last leap : table (DaysPrecedingMonth leap) 12 = year_length leap.
Proof. destruct leap; reflexivity. Qed.

(** The multiply-and-shift divisions used for every time conversion are
    exact: for every signed 64-bit input, dividing by 10^4, 10^7 and 86400000
    with the magic constants of the file gives the C quotient (truncated
    toward zero). *)
Theorem Convert_magic_quot t :
  - 2 ^ 63 <= t < 2 ^ 63 ->
  Convert100nsToMilliseconds t = Z.quot t 10000 /\
  Convert100nsToSeconds t = Z.quot t 10000000 /\
  ConvertMillisecondsToDays t = Z.quot t 86400000.
Proof.
  intros Ht. auto using Convert100nsToMilliseconds_quot, Convert100nsToSeconds_quot,
    ConvertMillisecondsToDays_quot.
Qed.

(** ElapsedDaysToYears, with its biased block divisions and 32-bit
    arithmetic, finds the year containing a day for every ULONG day number:
    the days before that year do not exceed it and the days before the next
    year do, and ElapsedYearsToDays of the result has not wrapped. *)
Theorem ElapsedDaysToYears_correct d :
  0 <= d < 2 ^ 32 ->
  let y := ElapsedDaysToYears d in
  ElapsedYearsToDays y = year_days y /\ year_days y <= d < year_days (y + 1).
Proof.
  intros Hd y. destruct (ElapsedDaysToYears_bounds d Hd) as (Hy & Hlo). fold y in Hy, Hlo.
  split; [apply ElapsedYearsToDays_exact; lia|done].
Qed.

(** C17: Splitting a time into fields and joining them again gives back the
    time, truncated to a millisecond, for every time from 1601 to the end of
    the year 30827. *)
Theorem RtlTimeToTimeFields_roundtrip t :
  0 <= t < TIME_LIMIT ->
  RtlTimeFieldsToTime (RtlTimeToTimeFields t) = Some (t - t mod 10000).
Proof.
  intros Ht. unfold TIME_LIMIT, TICKS_PER_DAY in Ht.
  destruct (RtlTimeToTimeFields_civil t ltac:(lia)) as (y & m & d & Hc & Hy & ->).
  set (ms := t / 10000 mod 86400000).
  assert (Hms : 0 <= ms < 86400000) by (apply Z.mod_pos_bound; lia).
  assert (Hy' : y <= 29226).
  { pose proof (civil_in_year _ _ _ _ Hc) as Hin.
    destruct (Z.le_gt_cases y 29226) as [|Hgt]; [done|].
    pose proof (year_days_mono 29227 y ltac:(lia)).
    change (year_days 29227) with 10674942 in *. unfold TICKS_PER_DAY in *. zdiv. }
  destruct (fields_of_valid _ _ _ _ ms Hc Hy Hms) as [Hty Hval].
  rewrite RtlTimeFieldsToTime_spec, (Hval Hy'), (fields_time_of _ _ _ _ _ Hc Hms) by done.
  f_equal. apply time_join_mod; lia.
Qed.

Lemma RtlTimeToTimeFields_fields_time tf :
  valid_fields tf = true ->
  RtlTimeToTimeFields (fields_time tf)
  = set_Weekday tf ((fields_time tf / TICKS_PER_DAY + WEEKDAY_OF_1601) mod 7).
Proof.
  intros Hv.
  destruct (civil_of_valid tf Hv) as (D & Hc & HD & ms & Hms & Hmsdef & ->).
  destruct (time_split_div D ms Hms) as [E1 E2].
  destruct (RtlTimeToTimeFields_civil (D * TICKS_PER_DAY + ms * 10000)) as (y & m & d & Hc' & Hy & ->).
  { unfold TICKS_PER_DAY. lia. }
  rewrite E1, E2 in *.
  destruct (civil_unique _ _ _ _ _ _ _ Hc Hc') as (<- & <- & <-).
  unfold valid_fields in Hv.
  unfold fields_of, set_Weekday. rewrite !Z.sub_add.
  f_equal; zdiv.
Qed.

(** Joining fields and splitting the result gives back the same fields,
    except that the Weekday member, which RtlTimeFieldsToTime ignores, becomes
    the true day of the week. *)
Theorem RtlTimeFieldsToTime_roundtrip tf t :
  fields_typed tf -> RtlTimeFieldsToTime tf = Some t ->
  RtlTimeToTimeFields t = set_Weekday tf ((t / TICKS_PER_DAY + WEEKDAY_OF_1601) mod 7).
Proof.
  intros Hty. rewrite RtlTimeFieldsToTime_spec by done.
  destruct (valid_fields tf) eqn:Hv; [|discriminate]. intros [= <-].
  by apply RtlTimeToTimeFields_fields_time.
Qed.

(** C37: RtlTimeFieldsToTime returns TRUE exactly on the records that are well
    formed by the Gregorian rules and have a year between 1601 and 30827, for all
    values of the eight signed 16-bit members. *)
Theorem RtlTimeFieldsToTime_accepts tf :
  fields_typed tf -> (is_Some (RtlTimeFieldsToTime tf) <-> valid_fields tf = true).
Proof.
  intros Hty. rewrite RtlTimeFieldsToTime_spec by done.
  destruct (valid_fields tf); split; intros H; done || by destruct H.
Qed.

(** The last year is cut off: a LARGE_INTEGER reaches into September 30828, and
    RtlTimeToTimeFields splits these times, but RtlTimeFieldsToTime does not take
    their fields. *)
Theorem last_year_refused :
  RtlTimeToTimeFields (2 ^ 63 - 1) = mkTF 30828 9 14 2 48 5 477 4 /\
  RtlTimeFieldsToTime (mkTF 30828 9 14 2 48 5 477 4) = None.
Proof. split; vm_compute; reflexivity. Qed.

(** Adding 24 hours to a time moves its fields to the following calendar
    day (month, year and leap-day carries included), advances the weekday and
    keeps the time of day. *)
Theorem RtlTimeToTimeFields_next_day t :
  0 <= t -> t + TICKS_PER_DAY < 2 ^ 63 ->
  RtlTimeToTimeFields (t + TICKS_PER_DAY) = next_day (RtlTimeToTimeFields t).
Proof.
  intros H0 Hmax. unfold TICKS_PER_DAY in Hmax.
  destruct (RtlTimeToTimeFields_civil t ltac:(lia)) as (y & m & d & Hc & Hy & ->).
  destruct (RtlTimeToTimeFields_civil (t + TICKS_PER_DAY)) as (y' & m' & d' & Hc' & Hy' & ->);
    [unfold TICKS_PER_DAY; lia|].
  replace ((t + TICKS_PER_DAY) / 10000 mod 86400000) with (t / 10000 mod 86400000)
    by (unfold TICKS_PER_DAY; zdiv).
  replace ((t + TICKS_PER_DAY) / TICKS_PER_DAY) with (t / TICKS_PER_DAY + 1) in *
    by (unfold TICKS_PER_DAY; zdiv).
  set (D := t / TICKS_PER_DAY) in *. set (ms := t / 10000 mod 86400000) in *.
  assert (HD : 0 <= D) by (apply Z.div_pos; unfold TICKS_PER_DAY; lia).
  pose proof (civil_days_in_month _ _ _ _ Hc) as Hdim.
  unfold next_day, fields_of, set_Weekday, set_Day;
    cbn [Year Month Day Hour Minute Second Milliseconds Weekday].
  replace (((D + 1) mod 7 + 1) mod 7) with ((D + 1 + 1) mod 7) by zdiv.
  destruct Hc as [Hy0 Hm Hd HDe].
  rewrite days_in_month_table, leap_of_elapsed in * by done.
  set (p := DaysPrecedingMonth (IsLeapYear (y + 1))) in *.
  destruct (Z.ltb_spec (d + 1) (table p (m + 1) - table p m)) as [Hlt|Hge].
  - assert (Hn : civil (D + 1) y m (d + 1)) by (split; fold p; lia).
    destruct (civil_unique _ _ _ _ _ _ _ Hc' Hn) as (-> & -> & ->). reflexivity.
  - destruct (Z.ltb_spec (m + 1) 12).
    + pose proof (DaysPrecedingMonth_bounds (IsLeapYear (y + 1)) (m + 1) ltac:(lia)) as Hb.
      assert (Hn : civil (D + 1) y (m + 1) 0) by (split; fold p; fold p in Hb; lia).
      destruct (civil_unique _ _ _ _ _ _ _ Hc' Hn) as (-> & -> & ->). reflexivity.
    + assert (m = 11) as -> by lia.
      assert (Hn : civil (D + 1) (y + 1) 0 0).
      { split; try lia.
        - pose proof (DaysPrecedingMonth_bounds (IsLeapYear (y + 1 + 1)) 0 ltac:(lia)). lia.
        - rewrite year_days_succ, HDe, DaysPrecedingMonth_first. change (11 + 1) with 12 in *.
          subst p. rewrite DaysPrecedingMonth_last in *. unfold year_length in *.
          destruct (IsLeapYear (y + 1)); lia. }
      destruct (civil_unique _ _ _ _ _ _ _ Hc' Hn) as (-> & -> & ->).
      f_equal; lia.
Qed.

Lemma HighPart_zero k : - 2 ^ 63 <= k < 2 ^ 63 -> (HighPart k =? 0) = (0 <=? k) && (k <? 2 ^ 32).
Proof.
  intros Hk. unfold HighPart. rewrite Z.shiftr_div_pow2, s32_small by zdiv. zdiv.
Qed.

Lemma seconds_since_spec t base :
  - 2 ^ 63 <= t < 2 ^ 63 -> 0 <= base < 2 ^ 36 ->
  (let s := s64 (Convert100nsToSeconds t - base) in
   if negb (HighPart s =? 0) then None else Some (LowPart s))
  = let k := Z.quot t 10000000 - base in
    if (0 <=? k) && (k <? 2 ^ 32) then Some k else None.
Proof.
  intros Ht Hb. cbv zeta. rewrite Convert100nsToSeconds_quot by done.
  assert (-2 ^ 62 <= Z.quot t 10000000 <= 2 ^ 62).
  { pose proof (Z.quot_rem' t 10000000). pose proof (Z.rem_bound_abs t 10000000). lia. }
  rewrite s64_small, HighPart_zero by lia.
  destruct ((0 <=? _) && _) eqn:E; cbn [negb]; [|done].
  unfold LowPart. rewrite u32_small by lia. done.
Qed.

Lemma seconds_since_inverse base s :
  0 <= base < 2 ^ 36 -> 0 <= s < 2 ^ 32 ->
  ConvertSecondsTo100ns (s64 (LARGE_INTEGER_init s 0 + base)) = (s + base) * 10000000.
Proof.
  intros Hb Hs. unfold ConvertSecondsTo100ns, RtlExtendedIntegerMultiply, LARGE_INTEGER_init.
  wrap. lia.
Qed.

(** RtlTimeToSecondsSince1970 returns the whole seconds since the first
    day of 1970 when they fit a ULONG and FALSE otherwise, for every signed
    64-bit time; the base constant is the day count of the 369 years. *)
Theorem RtlTimeToSecondsSince1970_spec t :
  - 2 ^ 63 <= t < 2 ^ 63 ->
  RtlTimeToSecondsSince1970 t
  = let k := Z.quot t 10000000 - 86400 * year_days (1970 - 1601) in
    if (0 <=? k) && (k <? 2 ^ 32) then Some k else None.
Proof. intros. by apply (seconds_since_spec t SecondsToStartOf1970). Qed.

(** RtlTimeToSecondsSince1980 returns the whole seconds since the first
    day of 1980 when they fit a ULONG and FALSE otherwise, for every signed
    64-bit time. *)
Theorem RtlTimeToSecondsSince1980_spec t :
  - 2 ^ 63 <= t < 2 ^ 63 ->
  RtlTimeToSecondsSince1980 t
  = let k := Z.quot t 10000000 - 86400 * year_days (1980 - 1601) in
    if (0 <=? k) && (k <? 2 ^ 32) then Some k else None.
Proof. intros. by apply (seconds_since_spec t SecondsToStartOf1980). Qed.

(** Converting a 32-bit second count since 1970 or 1980 to a time and back
    returns it. *)
Theorem seconds_roundtrip s :
  0 <= s < 2 ^ 32 ->
  RtlTimeToSecondsSince1970 (RtlSecondsSince1970ToTime s) = Some s /\
  RtlTimeToSecondsSince1980 (RtlSecondsSince1980ToTime s) = Some s.
Proof.
  intros Hs.
  assert (H : forall base, 0 <= base < 2 ^ 36 ->
    (let k := s64 (Convert100nsToSeconds (ConvertSecondsTo100ns (s64 (LARGE_INTEGER_init s 0 + base))) - base) in
     if negb (HighPart k =? 0) then None else Some (LowPart k)) = Some s).
  { intros base Hb. rewrite seconds_since_inverse by done. rewrite seconds_since_spec by lia.
    cbv zeta. rewrite Z.quot_mul by lia. rewrite Z.add_simpl_r.
    destruct (Z.leb_spec 0 s), (Z.ltb_spec s (2 ^ 32)); done || lia. }
  split; [apply (H SecondsToStartOf1970)|apply (H SecondsToStartOf1980)]; done.
Qed.

(** RtlTimeToElapsedTimeFields splits an elapsed time of less than 32768
    days into days, hours, minutes, seconds and milliseconds that add up to
    it, each within its range, and leaves Weekday alone. *)
Theorem RtlTimeToElapsedTimeFields_spec t tf0 :
  0 <= t < 32768 * TICKS_PER_DAY ->
  let tf := RtlTimeToElapsedTimeFields t tf0 in
  ((((Day tf * 24 + Hour tf) * 60 + Minute tf) * 60 + Second tf) * 1000 + Milliseconds tf)
    = t / 10000 /\
  0 <= Hour tf <= 23 /\ 0 <= Minute tf <= 59 /\ 0 <= Second tf <= 59 /\
  0 <= Milliseconds tf <= 999 /\ Weekday tf = Weekday tf0.
Proof.
  intros Ht tf. subst tf. unfold TICKS_PER_DAY in Ht. unfold RtlTimeToElapsedTimeFields.
  rewrite TimeToDaysAndFraction_exact by lia.
  remember (t / 10000 mod 86400000) as ms eqn:Hms.
  assert (Hb : 0 <= ms < 86400000) by (subst ms; apply Z.mod_pos_bound; lia).
  remember (t / TICKS_PER_DAY) as D eqn:HD. unfold TICKS_PER_DAY in HD.
  assert (0 <= D < 32768) by zdiv.
  assert (t / 10000 = D * 86400000 + ms) by zdiv.
  rewrite !Zdiv_Zdiv by lia. cbn -[Z.mul Z.add Z.div Z.modulo].
  change (1000 * (60 * 60)) with 3600000. change (1000 * 60) with 60000.
  destruct (ms_fields_bounds ms Hb) as (? & ? & ? & ? & E).
  wrap. repeat split; lia.
Qed.

(** Every table access of RtlTimeToTimeFields is inside its table, for
    every 64-bit input, negative ones included. *)
Theorem RtlTimeToTimeFields_tables t :
  let D := fst (TimeToDaysAndFraction t) in
  let y := ElapsedDaysToYears D in
  let i := u32 (D - ElapsedYearsToDays y) in
  let leap := IsLeapYear (u32 (y + 1)) in
  0 <= i < Z.of_nat (length (DayToMonth leap)) /\
  0 <= table (DayToMonth leap) i < Z.of_nat (length (DaysPrecedingMonth leap)).
Proof.
  intros D y i leap.
  assert (HD : 0 <= D < 2 ^ 32) by (apply uwrap_range; lia).
  destruct (civil_of_days D HD) as (Hc & Hy & Hi). fold y in Hc, Hy, Hi.
  pose proof (civil_in_year _ _ _ _ Hc). pose proof (year_days_lower y ltac:(lia)).
  assert (i = D - year_days y) as ->.
  { unfold i. rewrite ElapsedYearsToDays_exact, u32_small by lia. done. }
  assert (leap = IsLeapYear (y + 1)) as -> by (unfold leap; rewrite u32_small by lia; done).
  destruct Hc as [_ Hm _ _].
  destruct (IsLeapYear (y + 1)); cbn -[table] in *; lia.
Qed.

(** *** Cutover *)

Lemma valid_fields_Day tf d :
  valid_fields tf = true -> 1 <= Day tf ->
  valid_fields (set_Day tf d) = (1 <=? d) && (d <=? days_in_month (Year tf) (Month tf)).
Proof. unfold valid_fields, set_Day; cbn. lia. Qed.

Lemma fields_typed_Day tf d : fields_typed tf -> -32768 <= d < 32768 -> fields_typed (set_Day tf d).
Proof. unfold fields_typed, set_Day; cbn. rewrite !Forall_cons_iff. intuition lia. Qed.

Lemma valid_fields_Day_dim tf :
  valid_fields tf = true -> 1 <= Day tf <= days_in_month (Year tf) (Month tf).
Proof. unfold valid_fields. lia. Qed.

(** The week loop stops at the [T]-th weekday or at the last one in the month. *)
Lemma cutover_weeks_spec fuel tf W T :
  fields_typed tf -> valid_fields tf = true -> 1 <= W <= 5 -> T <= 5 -> T - W <= Z.of_nat fuel ->
  exists j, 0 <= j /\
    cutover_weeks fuel tf W T (Day tf) = Some (Day tf + 7 * j) /\
    Day tf + 7 * j <= days_in_month (Year tf) (Month tf) /\
    (W + j = T \/ (j = 0 /\ T <= W) \/
     (W + j < T /\ days_in_month (Year tf) (Month tf) < Day tf + 7 * j + 7)).
Proof.
  revert tf W. induction fuel as [|fuel IH]; intros tf W Hty Hv HW HT Hf; cbn [cutover_weeks];
    pose proof (valid_fields_Day_dim tf Hv) as Hd;
    pose proof (days_in_month_bounds (Year tf) (Month tf)) as Hb;
    (destruct (Z.ltb_spec W T); [|exists 0; rewrite Z.add_0_r; repeat split; lia || done]).
  { lia. }
  rewrite s16_small by lia.
  assert (Hty' : fields_typed (set_Day tf (Day tf + 7))) by (apply fields_typed_Day; [done|lia]).
  rewrite RtlTimeFieldsToTime_spec by done.
  destruct (valid_fields (set_Day tf (Day tf + 7))) eqn:Hv'.
  - rewrite RtlTimeToTimeFields_fields_time by done. cbn [set_Weekday Day].
    rewrite (s16_small (W + 1)) by lia.
    destruct (IH (set_Day tf (Day tf + 7)) (W + 1) Hty' Hv') as (j & Hj & E & Hdim & Hstop);
      [lia..|].
    exists (j + 1). cbn [set_Day Day Year Month] in *. rewrite E.
    repeat split; [lia|apply (f_equal Some); lia|lia|lia].
  - rewrite valid_fields_Day in Hv' by (done || lia).
    exists 0. rewrite Z.add_0_r. repeat split; lia || done.
Qed.

(** Weekdays advance with the day of the month. *)
Lemma weekday_of_Day tf d :
  valid_fields tf = true -> valid_fields (set_Day tf d) = true ->
  Weekday (RtlTimeToTimeFields (fields_time (set_Day tf d)))
  = (Weekday (RtlTimeToTimeFields (fields_time tf)) + (d - Day tf)) mod 7.
Proof.
  intros Hv Hv'. rewrite !RtlTimeToTimeFields_fields_time by done.
  cbn [set_Weekday Weekday]. unfold WEEKDAY_OF_1601.
  destruct (civil_of_valid _ Hv) as (D & Hc & HD & ms & Hms & Hmsd & E).
  destruct (civil_of_valid _ Hv') as (D' & Hc' & HD' & ms' & Hms' & Hmsd' & E').
  cbn [set_Day Year Month Day] in Hc'.
  rewrite E, E'. rewrite (proj1 (time_split_div D ms Hms)), (proj1 (time_split_div D' ms' Hms')).
  destruct Hc as [_ _ _ HD1], Hc' as [_ _ _ HD2].
  replace D' with (D + (d - Day tf)) by lia.
  rewrite Zplus_mod_idemp_l. f_equal; lia.
Qed.

Lemma candidate_ok rule y d :
  rule_ok rule = true -> 1601 <= y <= 30827 -> 1 <= d <= days_in_month y (Month rule) ->
  fields_typed (candidate rule y d) /\ valid_fields (candidate rule y d) = true.
Proof.
  intros Hr Hy Hd. pose proof (days_in_month_bounds y (Month rule)).
  unfold rule_ok in Hr. unfold fields_typed, valid_fields, candidate; cbn.
  rewrite !Forall_cons_iff. split; [repeat split; lia || constructor|lia].
Qed.

Lemma try_next_year_step fuel rule cur now y mm :
  rule_ok rule = true -> 1601 <= y <= 30827 ->
  exists d, let cand := candidate rule y d in
    1 <= d <= days_in_month y (Month rule) /\
    matches_rule rule (RtlTimeToTimeFields (fields_time cand)) /\
    try_next_year (S fuel) rule cur now y mm
    = if mm && ((d <? Day cur) || ((d =? Day cur) && (fields_time cand <? now)))
      then try_next_year fuel rule cur now (s16 (y + 1)) false
      else Some (true, Some (fields_time cand)).
Proof.
  intros Hr Hy. cbn [try_next_year]. fold (candidate rule y 1).
  pose proof (days_in_month_bounds y (Month rule)) as Hdim.
  destruct (candidate_ok rule y 1 Hr Hy ltac:(lia)) as [Hty1 Hv1].
  rewrite RtlTimeFieldsToTime_spec, Hv1 by done.
  set (w1 := Weekday (RtlTimeToTimeFields (fields_time (candidate rule y 1)))).
  assert (Hw1 : 0 <= w1 < 7).
  { unfold w1. rewrite RtlTimeToTimeFields_fields_time by done. apply Z.mod_pos_bound; lia. }
  assert (Hwr : 0 <= Weekday rule <= 6) by (unfold rule_ok in Hr; lia).
  set (first := 1 + (Weekday rule - w1) mod 7).
  assert (Hfirst : 1 <= first <= 7).
  { pose proof (Z.mod_pos_bound (Weekday rule - w1) 7 ltac:(lia)). lia. }
  set (wtf := if w1 >? Weekday rule then _ else _).
  assert (wtf = candidate rule y first) as ->.
  { subst wtf first. unfold set_Day, candidate; cbn [Day Year Month Hour Minute Second Milliseconds Weekday].
    destruct (Z.gtb_spec w1 (Weekday rule)); [|destruct (Z.ltb_spec w1 (Weekday rule))];
      f_equal; rewrite ?s16_small by lia; zdiv. }
  destruct (candidate_ok rule y first Hr Hy ltac:(lia)) as [Htyf Hvf].
  destruct (cutover_weeks_spec 5 (candidate rule y first) 1 (Day rule) Htyf Hvf)
    as (j & Hj & E & Hdj & Hstop); try (unfold rule_ok in Hr; lia).
  rewrite E. cbn [candidate Day Year Month] in E, Hdj, Hstop |- *.
  set (d := first + 7 * j) in *.
  change (set_Day (candidate rule y first) d) with (candidate rule y d).
  cbn [candidate Day].
  destruct (candidate_ok rule y d Hr Hy ltac:(lia)) as [Htyd Hvd].
  rewrite RtlTimeFieldsToTime_spec, Hvd by done.
  exists d. split; [lia|]. split; [|reflexivity].
  assert (Hwd : Weekday (RtlTimeToTimeFields (fields_time (candidate rule y d))) = Weekday rule).
  { change (candidate rule y d) with (set_Day (candidate rule y 1) d).
    rewrite weekday_of_Day by done. fold w1. cbn [candidate Day].
    subst d first. zdiv. }
  unfold matches_rule. rewrite Hwd, RtlTimeToTimeFields_fields_time by done.
  cbn [set_Weekday candidate Year Month Day Hour Minute Second Milliseconds].
  repeat split; try done. unfold rule_ok in Hr.
  subst d. destruct Hstop as [?|[?|?]]; [left; zdiv|left; zdiv|right; split; [zdiv|lia]].
Qed.

(** Any moment of a later calendar day is later. *)
Lemma time_of_later_day tf now y m d :
  valid_fields tf = true -> 0 <= now ->
  civil (now / TICKS_PER_DAY) y m d ->
  y + 1601 < Year tf \/
  (y + 1601 = Year tf /\ (m + 1 < Month tf \/ (m + 1 = Month tf /\ d + 1 < Day tf))) ->
  now <= fields_time tf.
Proof.
  intros Hv Hnow Hc Hlater.
  destruct (civil_of_valid tf Hv) as (D & Hc' & HD & ms & Hms & _ & ->).
  assert (now / TICKS_PER_DAY < D); [|unfold TICKS_PER_DAY in *; zdiv].
  pose proof (civil_in_year _ _ _ _ Hc). pose proof (civil_in_year _ _ _ _ Hc').
  destruct Hlater as [Hy|[Hy Hmd]].
  - pose proof (year_days_mono (y + 1) (Year tf - 1601) ltac:(lia)). lia.
  - replace (Year tf - 1601) with y in * by lia.
    destruct Hc as [_ Hm Hd HD1], Hc' as [_ Hm' Hd' HD2].
    destruct Hmd as [Hm2|[Hm2 Hd2]].
    + pose proof (DaysPrecedingMonth_mono (IsLeapYear (y + 1)) (m + 1) (Month tf - 1)
        ltac:(lia) ltac:(lia) ltac:(lia)). lia.
    + replace (Month tf - 1) with m in * by lia. lia.
Qed.

(** For a relative cutover rule (n-th weekday of a month) the routine
    succeeds and returns a moment that is the n-th, or else the last, such
    weekday of that month at the rule's time of day; it lies in the current
    year when ThisYear is set and is never before the current time when it is
    not. *)
Theorem RtlCutoverTimeToSystemTime_rule rule now ThisYear :
  rule_ok rule = true -> 0 <= now < 2 ^ 63 -> Year (RtlTimeToTimeFields now) <= 30826 ->
  exists T,
    RtlCutoverTimeToSystemTime rule now ThisYear = Some (true, Some T) /\
    matches_rule rule (RtlTimeToTimeFields T) /\
    (if ThisYear then Year (RtlTimeToTimeFields T) = Year (RtlTimeToTimeFields now)
     else now <= T).
Proof.
  intros Hr Hnow Hyear. unfold RtlCutoverTimeToSystemTime.
  assert (HY0 : Year rule = 0 /\ 1 <= Day rule <= 5) by (unfold rule_ok in Hr; lia).
  rewrite (proj1 HY0). cbn [negb Z.eqb].
  replace ((Day rule >? 5) || (Day rule =? 0)) with false by lia.
  destruct (RtlTimeToTimeFields_civil now ltac:(lia)) as (y & m & d & Hc & Hy & E).
  rewrite E in Hyear |- *. cbn [fields_of Year] in Hyear.
  assert (Hy0 : 0 <= y) by (destruct Hc; lia).
  set (cur := fields_of _ _ _ _ _).
  assert (Hcur : Year cur = y + 1601 /\ Month cur = m + 1 /\ Day cur = d + 1) by done.
  destruct Hcur as (HcY & HcM & HcD).
  (* an attempt that is not for the current month ends the search *)
  assert (Hfinal : forall fuel y', 1601 <= y' <= 30827 ->
    exists dd, valid_fields (candidate rule y' dd) = true /\
      matches_rule rule (RtlTimeToTimeFields (fields_time (candidate rule y' dd))) /\
      Year (RtlTimeToTimeFields (fields_time (candidate rule y' dd))) = y' /\
      try_next_year (S fuel) rule cur now y' false = Some (true, Some (fields_time (candidate rule y' dd)))).
  { intros fuel y' Hy'.
    destruct (try_next_year_step fuel rule cur now y' false Hr Hy') as (dd & Hdd & Hm & Ht).
    destruct (candidate_ok rule y' dd Hr Hy' Hdd) as [_ Hv].
    exists dd. rewrite Ht. split; [done|]. split; [done|]. split; [|done].
    rewrite RtlTimeToTimeFields_fields_time by done. reflexivity. }
  destruct ThisYear; cbn [negb].
  { destruct (Hfinal 1%nat (Year cur) ltac:(lia)) as (dd & Hv & Hm & HY & ->).
    eexists; split; [reflexivity|]. done. }
  assert (Hlater : forall fuel y', (y + 1601 < y' <= 30827 \/ (y' = y + 1601 /\ m + 1 < Month rule)) ->
    exists T, try_next_year (S fuel) rule cur now y' false = Some (true, Some T) /\
      matches_rule rule (RtlTimeToTimeFields T) /\ now <= T).
  { intros fuel y' Hy'.
    destruct (Hfinal fuel y' ltac:(lia)) as (dd & Hv & Hm & HY & Ht). rewrite Ht.
    eexists; split; [reflexivity|]. split; [done|].
    apply (time_of_later_day _ now y m d); try done; [lia|]. cbn [candidate Year Month]. lia. }
  destruct (Z.ltb_spec (Month rule) (Month cur)).
  { rewrite s16_small by lia. apply Hlater. lia. }
  destruct (Z.gtb_spec (Month rule) (Month cur)).
  { apply Hlater. lia. }
  destruct (try_next_year_step 1%nat rule cur now (Year cur) true Hr ltac:(lia)) as (dd & Hdd & Hm & Ht).
  rewrite Ht. cbn [andb]. rewrite s16_small by lia.
  destruct ((dd <? Day cur) || _) eqn:Hre; [apply Hlater; lia|].
  eexists; split; [reflexivity|]. split; [done|].
  destruct (Z.eqb_spec dd (Day cur)); [lia|].
  apply (time_of_later_day _ now y m d); [|lia|done|cbn [candidate Year Month Day]; lia].
  apply candidate_ok; [done|lia|done].
Qed.

Lemma cutover_weeks_total fuel tf W T B :
  1 <= W <= 5 -> T <= 5 -> T - W <= Z.of_nat fuel -> is_Some (cutover_weeks fuel tf W T B).
Proof.
  revert tf W B. induction fuel as [|fuel IH]; intros tf W B HW HT Hf; cbn [cutover_weeks];
    (destruct (Z.ltb_spec W T); [|done]).
  { lia. }
  destruct (RtlTimeFieldsToTime _); [|done].
  rewrite (s16_small (W + 1)) by lia. apply IH; lia.
Qed.

Lemma try_next_year_total fuel rule cur now y (mm : bool) :
  Day rule <= 5 -> (if mm then 2 else 1) <= Z.of_nat fuel ->
  is_Some (try_next_year fuel rule cur now y mm).
Proof.
  intros HD. revert y mm. induction fuel as [|fuel IH]; intros y mm Hf; [destruct mm; lia|].
  cbn [try_next_year].
  destruct (RtlTimeFieldsToTime _) as [t|]; [|done].
  set (wtf := if _ >? _ then _ else _).
  destruct (cutover_weeks_total 5 wtf 1 (Day rule) (Day wtf)) as [b ->]; [lia..|].
  destruct (RtlTimeFieldsToTime _) as [t'|]; [|done].
  destruct mm; [|done].
  destruct (_ && _); [|done]. apply IH. lia.
Qed.

(** C38: The search for the cutover moment always ends, for every rule and
    every current time: the retry in the following year happens at most once
    and the week loop makes at most four steps. *)
Theorem RtlCutoverTimeToSystemTime_terminates rule now ThisYear :
  is_Some (RtlCutoverTimeToSystemTime rule now ThisYear).
Proof.
  unfold RtlCutoverTimeToSystemTime.
  destruct (negb (Year rule =? 0)).
  { destruct (RtlTimeFieldsToTime rule); [|done]. by destruct (_ <? _). }
  destruct ((Day rule >? 5) || _) eqn:E; [done|].
  set (p := if negb ThisYear then _ else _). destruct p as [y mm].
  apply try_next_year_total; [lia|destruct mm; done].
Qed.

(** When the time zone bias can be queried, converting a system time to
    local time and back gives the same time, 64-bit wrap-around included. *)
Theorem local_time_roundtrip Q t :
  NT_SUCCESS (fst Q) = true -> - 2 ^ 63 <= t < 2 ^ 63 ->
  exists l, RtlSystemTimeToLocalTime Q t = (STATUS_SUCCESS, Some l) /\
            RtlLocalTimeToSystemTime Q l = (STATUS_SUCCESS, Some t).
Proof.
  intros HQ Ht. destruct Q as [st bias]. cbn in HQ.
  unfold RtlSystemTimeToLocalTime, RtlLocalTimeToSystemTime. rewrite HQ. cbn [negb].
  eexists. split; [reflexivity|]. do 2 f_equal.
  unfold swrap. zdiv.
Qed.

(** ** Witnesses *)

Lemma Convert_magic_quot_witness : Convert100nsToMilliseconds (-12345678) = -1234.
Proof. apply (Convert_magic_quot (-12345678)). lia. Defined.

Lemma ElapsedDaysToYears_correct_witness : year_days 400 <= 146097 < year_days 401.
Proof. apply (ElapsedDaysToYears_correct 146097). lia. Defined.

Lemma RtlTimeToTimeFields_roundtrip_witness :
  RtlTimeFieldsToTime (RtlTimeToTimeFields 133000000000012345)
  = Some (133000000000012345 - 133000000000012345 mod 10000).
Proof.
  apply (RtlTimeToTimeFields_roundtrip 133000000000012345).
  unfold TIME_LIMIT, TICKS_PER_DAY; lia.
Defined.

Lemma RtlTimeFieldsToTime_roundtrip_witness :
  RtlTimeToTimeFields 125911584000000000
  = set_Weekday (mkTF 2000 1 1 0 0 0 0 0) 6.
Proof.
  apply (RtlTimeFieldsToTime_roundtrip (mkTF 2000 1 1 0 0 0 0 0) 125911584000000000).
  - unfold fields_typed; rewrite !Forall_cons_iff; cbn; repeat split; lia || constructor.
  - vm_compute; reflexivity.
Defined.

Lemma RtlTimeFieldsToTime_accepts_witness :
  is_Some (RtlTimeFieldsToTime (mkTF 2000 2 29 0 0 0 0 0)).
Proof.
  apply (RtlTimeFieldsToTime_accepts (mkTF 2000 2 29 0 0 0 0 0)).
  - unfold fields_typed; rewrite !Forall_cons_iff; cbn; repeat split; lia || constructor.
  - vm_compute; reflexivity.
Defined.

Lemma RtlTimeToTimeFields_next_day_witness :
  RtlTimeToTimeFields (125911584000000000 + TICKS_PER_DAY)
  = next_day (RtlTimeToTimeFields 125911584000000000).
Proof.
  apply (RtlTimeToTimeFields_next_day 125911584000000000); unfold TICKS_PER_DAY; lia.
Defined.

Lemma RtlTimeToSecondsSince1970_spec_witness :
  RtlTimeToSecondsSince1970 116444736010000000 = Some 1.
Proof. rewrite (RtlTimeToSecondsSince1970_spec 116444736010000000); [reflexivity|lia]. Defined.

Lemma RtlTimeToSecondsSince1980_spec_witness :
  RtlTimeToSecondsSince1980 116444736010000000 = None.
Proof. rewrite (RtlTimeToSecondsSince1980_spec 116444736010000000); [reflexivity|lia]. Defined.

Lemma seconds_roundtrip_witness :
  RtlTimeToSecondsSince1970 (RtlSecondsSince1970ToTime 1234567890) = Some 1234567890.
Proof. apply (seconds_roundtrip 1234567890). lia. Defined.

Lemma RtlTimeToElapsedTimeFields_spec_witness :
  Weekday (RtlTimeToElapsedTimeFields 999999999999 (mkTF 0 0 0 0 0 0 0 5)) = 5.
Proof.
  apply (RtlTimeToElapsedTimeFields_spec 999999999999 (mkTF 0 0 0 0 0 0 0 5)).
  unfold TICKS_PER_DAY; lia.
Defined.

(** First Sunday of November, 02:00, asked in June 2022. *)
Lemma RtlCutoverTimeToSystemTime_rule_witness :
  exists T,
    RtlCutoverTimeToSystemTime (mkTF 0 11 1 2 0 0 0 0) 133000000000000000 false
      = Some (true, Some T) /\
    matches_rule (mkTF 0 11 1 2 0 0 0 0) (RtlTimeToTimeFields T) /\ 133000000000000000 <= T.
Proof.
  apply (RtlCutoverTimeToSystemTime_rule (mkTF 0 11 1 2 0 0 0 0) 133000000000000000 false);
    [vm_compute; reflexivity|lia|vm_compute; discriminate].
Defined.

Lemma local_time_roundtrip_witness :
  exists l, RtlSystemTimeToLocalTime (0, 36000000000) 5 = (STATUS_SUCCESS, Some l) /\
            RtlLocalTimeToSystemTime (0, 36000000000) l = (STATUS_SUCCESS, Some 5).
Proof. apply (local_time_roundtrip (0, 36000000000) 5); [reflexivity|lia]. Defined.

End Time.
