(* ===== verification/RtlCnvIntSpec.v ===== *)
(** * Integer and text conversion: correctness (src/ntoskrnl/rtl/cnvint.c)

    Numerals are lists of digits with a value by Horner's rule ([eval], [numeral]).
    [digits_loop_spec] and [output_spec] give the text the conversions write,
    [value_loop_spec], [parse_spec] the value the parsers read; the counted and the
    zero-terminated parser are shown to agree, and parsing to invert printing.  The
    last part holds inputs for which the routines leave their buffers. *)

From S2P Require Import Prelude RtlCnvInt.

Module CnvIntSpec.
Import CnvInt.

(** ** Numerals *)

(** The value of a list of digits, most significant first. *)
Definition eval (b acc : Z) (ds : list Z) : Z := fold_left (fun a d => a * b + d) ds acc.
Definition chr (d : Z) : Z := default 0 (RtlpIntegerChars !! Z.to_nat d).

(** [ds] is the numeral of [v] in base [b]: no leading zero, except for zero. *)
Definition numeral (b v : Z) (ds : list Z) : Prop :=
  eval b 0 ds = v /\ Forall (fun d => 0 <= d < b) ds /\ (ds = [0] \/ exists d ds', ds = d :: ds' /\ d <> 0).

(** The bases and their shifts. *)
Definition base_ok (b sh : Z) : Prop := b = 10 /\ sh = 0 \/ b = 2 ^ sh /\ (sh = 1 \/ sh = 3 \/ sh = 4).

Lemma base_switch_ok Base b sh : base_switch Base = Some (b, sh) -> base_ok b sh.
Proof.
  unfold base_switch, base_ok. repeat (case_match; [intros [= <- <-]; lia|]). done.
Qed.
Lemma given_base_ok Base b sh : given_base Base = Some (b, sh) -> base_ok b sh /\ b = Base.
Proof.
  unfold given_base, base_ok.
  repeat (match goal with |- context [?x =? ?y] => destruct (Z.eqb_spec x y) end; [intros [= <- <-]; lia|]). done.
Qed.
Lemma prefix_base_ok c b sh : prefix_base c = Some (b, sh) -> base_ok b sh.
Proof. unfold prefix_base, base_ok. repeat (case_match; [intros [= <- <-]; lia|]). done. Qed.
Lemma base_ok_range b sh : base_ok b sh -> 2 <= b <= 16.
Proof. intros [[-> _]|[-> [->|[->| ->]]]]; cbn; lia. Qed.

Lemma chr_cases :
  forallb (fun d => bool_decide (RtlpIntegerChars !! Z.to_nat d = Some (chr d)) && bool_decide (digit_of (chr d) = Some d) &&
    (48 <=? chr d) && (chr d <=? 70)) (zrange 16) = true.
Proof. reflexivity. Qed.
Lemma chr_spec d : 0 <= d < 16 ->
  RtlpIntegerChars !! Z.to_nat d = Some (chr d) /\ digit_of (chr d) = Some d /\ 48 <= chr d <= 70.
Proof.
  intros Hd. pose proof (zrange_forallb 16 _ d chr_cases Hd) as H. cbn beta in H.
  rewrite !andb_true_iff, !bool_decide_eq_true in H. destruct H as [[[H1 H2] H3] H4]. split_and!; [done|done|lia|lia].
Qed.

Lemma digit_step b sh v : base_ok b sh -> 0 <= v ->
  (if negb (sh =? 0) then (Z.land v (Z.shiftl 1 sh - 1), Z.shiftr v sh) else (v mod b, v / b)) = (v mod b, v / b).
Proof.
  intros [[-> ->]|[-> Hs]] Hv; [done|]. assert (0 < sh) by lia. replace (sh =? 0) with false by lia. cbn [negb].
  rewrite Z.shiftr_div_pow2, Z.shiftl_mul_pow2, Z.mul_1_l by lia.
  replace (2 ^ sh - 1) with (Z.ones sh) by (rewrite Z.ones_equiv; lia). by rewrite Z.land_ones by lia.
Qed.

Lemma eval_app b acc u v : eval b acc (u ++ v) = eval b (eval b acc u) v.
Proof. apply fold_left_app. Qed.

Lemma digits_loop_spec b sh : base_ok b sh -> forall room v s, (0 < room)%nat -> 0 <= v < b ^ Z.of_nat room ->
  exists ds, digits_loop RtlpIntegerChars room b sh v s = Some (map chr ds ++ s) /\ numeral b v ds.
Proof.
  intros Hb. pose proof (base_ok_range b sh Hb) as Hr. induction room as [|room IH]; intros v s Hroom Hv; [lia|].
  cbn [digits_loop]. rewrite digit_step by (done || lia). pose proof (Z.mod_pos_bound v b ltac:(lia)) as Hm.
  pose proof (Z.div_mod v b ltac:(lia)) as Hdm. pose proof (Z.div_pos v b ltac:(lia) ltac:(lia)) as Hd0.
  destruct (chr_spec (v mod b) ltac:(lia)) as (Hc & _). rewrite Hc. cbn [mbind option_bind].
  destruct (Z.eqb_spec (v / b) 0) as [E|E]; cbn [negb].
  - exists [v mod b]. split; [done|]. split_and!; [cbn; lia|constructor; [lia|constructor]|].
    destruct (decide (v mod b = 0)) as [->|]; [by left|]. right. by exists (v mod b), [].
  - destruct room as [|room]; [exfalso; cbn in Hv; nia|].
    destruct (IH (v / b) (chr (v mod b) :: s)) as (ds & Hds & Hev & Hf & Hh); [lia| |].
    { split; [lia|]. apply Z.div_lt_upper_bound; [lia|]. rewrite Nat2Z.inj_succ, Z.pow_succ_r in Hv by lia. lia. }
    exists (ds ++ [v mod b]). rewrite Hds, map_app, <- app_assoc. split; [done|]. split_and!.
    + rewrite eval_app, Hev. cbn. lia.
    + apply Forall_app. split; [done|]. constructor; [lia|constructor].
    + right. destruct Hh as [->|(d & ds' & -> & Hd)]; [cbn in Hev; lia|]. by exists d, (ds' ++ [v mod b]).
Qed.

(** Large integers go through the same digits. *)
Lemma shift_loop_eq sh : base_ok (2 ^ sh) sh -> forall room v s, 0 <= v ->
  shift_loop RtlpIntegerChars room sh v s = digits_loop RtlpIntegerChars room (2 ^ sh) sh v s.
Proof.
  intros Hb. pose proof (base_ok_range _ _ Hb) as Hr.
  assert (Hs : 0 < sh <= 4) by (destruct Hb as [[H ?]|[_ ?]]; [subst sh; cbn in H; lia|lia]).
  induction room as [|room IH]; intros v s Hv; [done|]. cbn [shift_loop digits_loop].
  replace (sh =? 0) with false by lia. cbn [negb].
  pose proof (digit_step _ _ v Hb Hv) as Hd. replace (sh =? 0) with false in Hd by lia. cbn [negb] in Hd. injection Hd as Hd1 Hd2.
  pose proof (Z.mod_pos_bound v (2 ^ sh) ltac:(lia)). rewrite Hd1, (u32_small (v mod 2 ^ sh)) by lia.
  destruct (RtlpIntegerChars !! Z.to_nat (v mod 2 ^ sh)); [|done]. cbn [mbind option_bind].
  destruct (Z.shiftr v sh =? 0); [done|]. cbn [negb]. apply IH. rewrite Hd2. by apply Z.div_pos; lia.
Qed.
Lemma divide_loop_eq : forall room v s, 0 <= v < 2 ^ 63 ->
  divide_loop RtlpIntegerChars room 10 v s = digits_loop RtlpIntegerChars room 10 0 v s.
Proof.
  induction room as [|room IH]; intros v s Hv; [done|]. cbn [divide_loop digits_loop Z.eqb negb].
  unfold RtlExtendedLargeIntegerDivide. cbn [Z.eqb mbind option_bind].
  rewrite u64_small by lia. rewrite (Z.rem_mod_nonneg v 10) by lia. rewrite u32_small by zdiv. rewrite s64_small by zdiv.
  destruct (RtlpIntegerChars !! Z.to_nat (v mod 10)); [|done]. cbn [mbind option_bind].
  destruct (v / 10 =? 0); [done|]. cbn [negb]. apply IH. zdiv.
Qed.

(** ** Output *)

Lemma store_at a x b c : store (a ++ x :: b) (length a) c = Some (a ++ c :: b).
Proof.
  unfold store. rewrite (proj2 (Nat.ltb_lt _ _)) by (rewrite length_app; cbn; lia).
  rewrite insert_app_r_alt by lia. by rewrite Nat.sub_diag.
Qed.
Lemma copy_at cs : forall a b t, length b = length cs -> copy (a ++ b ++ t) (length a) cs = Some (a ++ cs ++ t).
Proof.
  induction cs as [|c cs IH]; intros a [|x b] t Hl; try done. cbn [copy app]. rewrite store_at. cbn [mbind option_bind].
  replace (S (length a)) with (length (a ++ [c])) by (rewrite length_app; cbn; lia).
  replace (a ++ c :: b ++ t) with ((a ++ [c]) ++ b ++ t) by (by rewrite <- app_assoc).
  rewrite IH by (cbn in Hl; lia). by rewrite <- app_assoc.
Qed.
Lemma pad_at n : forall L OL a b t, OL = L + Z.of_nat n -> length b = n ->
  pad n L OL (a ++ b ++ t) (length a) = Some (a ++ replicate n 48 ++ t, (length a + n)%nat, L).
Proof.
  induction n as [|n IH]; intros L OL a b t HO Hb.
  - cbn [pad]. destruct (Z.ltb_spec L OL); [lia|]. destruct b; [|done]. by replace OL with L by lia; rewrite Nat.add_0_r.
  - destruct b as [|x b]; [done|]. cbn [pad]. destruct (Z.ltb_spec L OL); [|lia]. cbn [app]. rewrite store_at. cbn [mbind option_bind].
    replace (a ++ 48 :: b ++ t) with ((a ++ [48]) ++ b ++ t) by (by rewrite <- app_assoc).
    replace (S (length a)) with (length (a ++ [48])) by (rewrite length_app; cbn; lia).
    rewrite IH by (cbn in Hb; lia). rewrite <- app_assoc, length_app. cbn. do 3 f_equal. lia.
Qed.

Lemma split_at (l : list Z) k m : (k + m <= length l)%nat ->
  exists a b t, l = a ++ b ++ t /\ length a = k /\ length b = m.
Proof.
  intros H. exists (take k l), (take m (drop k l)), (drop m (drop k l)).
  rewrite !length_take, length_drop, !take_drop. split_and!; [done|lia|lia].
Qed.

(** What is in the buffer afterwards. *)
Definition written (digits : list Z) (OutputLength : Z) (String : list Z) : list Z :=
  let n := Z.to_nat (Z.abs OutputLength) in
  if OutputLength <? 0 then replicate (n - length digits) 48 ++ digits ++ drop n String
  else digits ++ (if Nat.ltb (length digits) n then 0 :: drop (S (length digits)) String else drop (length digits) String).

Lemma output_spec digits OL String : - 2 ^ 31 < OL < 2 ^ 31 -> Z.abs OL <= Z.of_nat (length String) ->
  output digits OL String =
  Some (if Z.of_nat (length digits) >? Z.abs OL then (STATUS_BUFFER_OVERFLOW, String)
        else (STATUS_SUCCESS, written digits OL String)).
Proof.
  intros HO Hlen. unfold output, written. set (L := length digits).
  destruct (Z.ltb_spec OL 0) as [Hneg|Hpos]; cbn [mbind option_bind].
  - rewrite s32_small by lia. rewrite (Z.abs_neq OL) in * by lia.
    destruct (Z.gtb_spec (Z.of_nat L) (- OL)) as [Hgt|Hle].
    + replace (Z.to_nat (- OL - Z.of_nat L)) with 0%nat by lia. cbn [pad].
      destruct (Z.ltb_spec (Z.of_nat L) (- OL)); [lia|]. cbn [mbind option_bind].
      destruct (Z.gtb_spec (Z.of_nat L) (- OL)); [done|lia].
    + set (k := Z.to_nat (- OL - Z.of_nat L)). set (m := Z.to_nat (- OL)).
      assert (Hm : (m = k + L)%nat) by lia. assert (HmS : (m <= length String)%nat) by lia.
      destruct (split_at String k L ltac:(lia)) as (b1 & b2 & t & -> & Hb1 & Hb2).
      replace (drop m (b1 ++ b2 ++ t)) with t by (rewrite app_assoc, drop_app_length'; [done|rewrite length_app; lia]).
      pose proof (pad_at k (Z.of_nat L) (- OL) [] b1 (b2 ++ t) ltac:(lia) Hb1) as Hp. cbn [app length] in Hp. rewrite Hp.
      cbn [mbind option_bind]. destruct (Z.gtb_spec (Z.of_nat L) (Z.of_nat L)); [lia|].
      replace (0 + k)%nat with (length (replicate k 48)) by (rewrite length_replicate; lia).
      rewrite copy_at by done. cbn [mbind option_bind]. destruct (Z.ltb_spec (Z.of_nat L) (Z.of_nat L)); [lia|].
      cbn [mbind option_bind]. do 4 f_equal. lia.
  - rewrite (Z.abs_eq OL) in * by lia. destruct (Z.gtb_spec (Z.of_nat L) OL) as [Hgt|Hle]; [done|].
    destruct (split_at String 0 L ltac:(lia)) as (b1 & b2 & t & -> & Hb1 & Hb2). destruct b1; [|done]. cbn [app].
    pose proof (copy_at digits [] b2 t Hb2) as Hc. cbn [app length] in Hc. rewrite Hc. cbn [mbind option_bind].
    destruct (Z.ltb_spec (Z.of_nat L) OL) as [Hlt|Hge].
    + replace (Nat.ltb L (Z.to_nat OL)) with true by (symmetry; apply Nat.ltb_lt; lia).
      rewrite !length_app in Hlen. cbn in Hlen. destruct t as [|x t]; [cbn in Hlen; lia|].
      change (0 + L)%nat with (length digits). rewrite store_at. cbn [mbind option_bind]. do 4 f_equal.
      replace (S L) with (length (b2 ++ [x])) by (rewrite length_app; cbn; lia).
      change (b2 ++ x :: t) with (b2 ++ [x] ++ t). by rewrite app_assoc, drop_app_length.
    + replace (Nat.ltb L (Z.to_nat OL)) with false by (symmetry; apply Nat.ltb_ge; lia). cbn [mbind option_bind].
      by rewrite drop_app_length'.
Qed.

Lemma to_text_spec Value Base b sh OL String : 0 <= Value < 2 ^ 32 -> base_switch Base = Some (b, sh) ->
  - 2 ^ 31 < OL < 2 ^ 31 -> Z.abs OL <= Z.of_nat (length String) ->
  exists ds, numeral b Value ds /\
    to_text RtlpIntegerChars Value Base OL String =
    Some (if Z.of_nat (length ds) >? Z.abs OL then (STATUS_BUFFER_OVERFLOW, String)
          else (STATUS_SUCCESS, written (map chr ds) OL String)).
Proof.
  intros Hv Hb HO Hl. pose proof (base_switch_ok _ _ _ Hb) as Hok. pose proof (base_ok_range _ _ Hok) as Hr.
  destruct (digits_loop_spec b sh Hok 33 Value []) as (ds & Hds & Hn); [lia| |].
  { split; [lia|]. assert (2 ^ Z.of_nat 33 <= b ^ Z.of_nat 33) by (apply Z.pow_le_mono_l; lia). cbn in *. lia. }
  exists ds. split; [done|]. unfold to_text. rewrite Hb, Hds. cbn [mbind option_bind].
  rewrite app_nil_r, output_spec, length_map by done. done.
Qed.

Lemma large_to_text_spec Value Base b sh OL String : - 2 ^ 63 <= Value < 2 ^ 63 -> large_base_switch Base = Some (b, sh) ->
  (sh = 0 -> Base = 10 /\ 0 <= Value) -> - 2 ^ 31 < OL < 2 ^ 31 -> Z.abs OL <= Z.of_nat (length String) ->
  exists ds, numeral b (u64 Value) ds /\
    large_to_text RtlpIntegerChars Value Base OL String =
    Some (if Z.of_nat (length ds) >? Z.abs OL then (STATUS_BUFFER_OVERFLOW, String)
          else (STATUS_SUCCESS, written (map chr ds) OL String)).
Proof.
  intros Hv Hb Hten HO Hl.
  assert (Hok : base_ok b sh).
  { unfold large_base_switch, base_ok in *.
    do 3 (match type of Hb with context [?x =? ?y] => destruct (Z.eqb_spec x y) end; [injection Hb as <- <-; lia|]).
    destruct ((Base =? 0) || (Base =? 10)); [|done]. injection Hb as <- <-. destruct (Hten eq_refl). lia. }
  pose proof (base_ok_range _ _ Hok) as Hr. pose proof (uwrap_range 64 Value ltac:(lia)) as Hu.
  destruct (digits_loop_spec b sh Hok MAX_DIGITS (u64 Value) []) as (ds & Hds & Hn); [unfold MAX_DIGITS; lia| |].
  { split; [lia|]. assert (2 ^ Z.of_nat MAX_DIGITS <= b ^ Z.of_nat MAX_DIGITS) by (apply Z.pow_le_mono_l; lia).
    change (2 ^ Z.of_nat MAX_DIGITS) with (2 * 2 ^ 64) in *. lia. }
  exists ds. split; [done|]. unfold large_to_text. rewrite Hb.
  assert (Hloop : (if negb (sh =? 0) then shift_loop RtlpIntegerChars MAX_DIGITS sh (u64 Value) []
    else divide_loop RtlpIntegerChars MAX_DIGITS b Value []) = Some (map chr ds)).
  { rewrite app_nil_r in Hds. rewrite <- Hds. destruct (Z.eqb_spec sh 0) as [->|Hne]; cbn [negb].
    - destruct (Hten eq_refl) as [-> Hnn]. injection Hb as <-. rewrite u64_small by lia. apply divide_loop_eq. lia.
    - destruct Hok as [[_ ?]|[-> Hsh]]; [done|]. apply shift_loop_eq; [by right|lia]. }
  rewrite Hloop. cbn [mbind option_bind]. rewrite output_spec, length_map by done. done.
Qed.

(** ** Parsing *)

Lemma lor_disjoint q s d : 0 <= s -> 0 <= d < 2 ^ s -> Z.lor (q * 2 ^ s) d = q * 2 ^ s + d.
Proof.
  intros Hs Hd. assert (Hl : Z.land (q * 2 ^ s) d = 0).
  { apply Z.bits_inj'. intros i Hi. rewrite Z.land_spec, Z.bits_0. rewrite <- Z.shiftl_mul_pow2 by lia.
    rewrite Z.shiftl_spec by lia. destruct (Z.ltb_spec i s).
    - by rewrite (Z.testbit_neg_r q) by lia.
    - rewrite (Z_bits_above d s i) by lia. apply andb_false_r. }
  by rewrite <- Z.lxor_lor, <- Z.add_nocarry_lxor.
Qed.

Lemma add_digit_spec b sh R d : base_ok b sh -> 0 <= R < 2 ^ 32 -> 0 <= d < b -> add_digit b sh R d = u32 (R * b + d).
Proof.
  intros Hok HR Hd. unfold add_digit. destruct (Z.eqb_spec sh 0) as [->|Hne].
  - f_equal. lia.
  - destruct Hok as [[_ ?]|[-> Hsh]]; [done|]. rewrite Z.shiftl_mul_pow2 by lia.
    assert (Hm : u32 (R * 2 ^ sh) = (R mod 2 ^ (32 - sh)) * 2 ^ sh).
    { unfold u32, uwrap. replace (2 ^ 32) with (2 ^ (32 - sh) * 2 ^ sh) by (rewrite <- Z.pow_add_r by lia; f_equal; lia).
      apply Z.mul_mod_distr_r; apply Z.pow_nonzero; lia. }
    rewrite Hm, lor_disjoint by lia. rewrite <- Hm. unfold u32, uwrap.
    destruct Hsh as [->|[->| ->]]; cbn in Hd; change (2 ^ 1) with 2; change (2 ^ 3) with 8; change (2 ^ 4) with 16; zdiv.
Qed.

Lemma eval_u32 b ds : forall acc, u32 (eval b (u32 acc) ds) = u32 (eval b acc ds).
Proof.
  induction ds as [|d ds IH]; intros acc.
  - cbn. unfold u32, uwrap. by rewrite Zmod_mod.
  - cbn [eval fold_left]. fold (eval b (u32 acc * b + d) ds). fold (eval b (acc * b + d) ds). rewrite <- IH, <- (IH (acc * b + d)).
    do 2 f_equal. unfold u32, uwrap. rewrite <- Zplus_mod_idemp_l, Zmult_mod_idemp_l, Zplus_mod_idemp_l. done.
Qed.

(** Characters that are the digits [ds] in base [b]. *)
Definition digits (b : Z) : list Z -> list Z -> Prop := Forall2 (fun c d => digit_of c = Some d /\ 0 <= d < b).
(** A character at which the digits end. *)
Definition ends (b c : Z) : Prop := match digit_of c with Some d => b <= d | None => True end.

Lemma digit_of_nonzero c d : digit_of c = Some d -> 48 <= c <= 102.
Proof.
  unfold digit_of. do 3 (match goal with |- context [if ?b then _ else _] => destruct b eqn:? end; [intros _; lia|]). done.
Qed.

Lemma value_loop_spec b sh cs ds stop tail : base_ok b sh -> digits b cs ds -> ends b stop ->
  forall R c0 s0, c0 :: s0 = cs ++ stop :: tail -> 0 <= R < 2 ^ 32 -> value_loop b sh R c0 s0 = Some (u32 (eval b R ds)).
Proof.
  intros Hok Hds Hst. induction Hds as [|c d cs ds [Hc Hd] Hds IH]; intros R c0 s0 E HR.
  - injection E as -> ->. assert (Hend : forall s, value_loop b sh R stop s = Some R).
    { intros s. unfold ends in Hst. destruct (digit_of stop) as [z|] eqn:Ed; destruct s; cbn [value_loop];
        rewrite Ed; (destruct (stop =? 0); [done|]); try done; destruct (Z.geb_spec z b); done || lia. }
    rewrite Hend. cbn. by rewrite uwrap_small.
  - injection E as -> ->. pose proof (digit_of_nonzero _ _ Hc) as Hnz.
    assert (Hstep : forall c1 s1, value_loop b sh R c (c1 :: s1) = value_loop b sh (u32 (R * b + d)) c1 s1).
    { intros c1 s1. cbn [value_loop]. replace (c =? 0) with false by lia. rewrite Hc. replace (d >=? b) with false by lia.
      by rewrite add_digit_spec. }
    destruct (cs ++ stop :: tail) as [|c1 s1] eqn:E1; [by destruct cs|]. rewrite Hstep, (IH _ c1 s1) by (done || apply uwrap_range; lia).
    cbn [eval fold_left]. fold (eval b (R * b + d) ds). by rewrite eval_u32.
Qed.

(** Blanks, a sign, and what follows them. *)
Definition blank (c : Z) : Prop := 1 <= c <= 32.
Lemma skip_blanks_spec blanks c s : Forall blank blanks -> 32 < c < 128 -> skip_blanks (blanks ++ c :: s) = Some (c, s).
Proof.
  intros Hb Hc. assert (H8 : forall x, 0 <= x < 128 -> swrap 8 x = x) by (intros x Hx; apply swrap_small; cbn; lia).
  induction Hb as [|x blanks Hx Hb IH]; cbn [skip_blanks app].
  - rewrite H8 by lia. by destruct (Z.leb_spec c 32); [lia|].
  - unfold blank in Hx. rewrite H8 by lia. destruct (Z.leb_spec x 32); [|lia].
    destruct (blanks ++ c :: s) as [|y l] eqn:E; [by destruct blanks|].
    destruct (Z.eqb_spec y 0) as [->|]; [|done]. destruct blanks as [|y' blanks]; injection E as E' E2; [lia|].
    inversion Hb as [|? ? Hy']. unfold blank in Hy'. lia.
Qed.

Lemma negate_spec Sign E : negate Sign (u32 E) = u32 (if Sign =? 45 then - E else E).
Proof.
  unfold negate. destruct (Sign =? 45); [|done]. destruct (u32_quot E) as [q Hq]. rewrite Hq.
  assert (Hs : exists q', s32 (E + 2 ^ 32 * q) = E + 2 ^ 32 * q').
  { exists (q - (E + 2 ^ 32 * q + 2 ^ 31) / 2 ^ 32). unfold s32, swrap. change (32 - 1) with 31.
    pose proof (Z.div_mod (E + 2 ^ 32 * q + 2 ^ 31) (2 ^ 32) ltac:(lia)). lia. }
  destruct Hs as [q1 ->].
  assert (Hs : forall z, u32 (s32 z) = u32 z).
  { intros z. unfold u32, uwrap, s32, swrap. change (32 - 1) with 31. zdiv. }
  rewrite Hs. replace (- (E + 2 ^ 32 * q1)) with (- E + 2 ^ 32 * - q1) by lia. apply u32_shift.
Qed.

(** What comes between the sign and the digits [cs] in base [b]: nothing when the base
    is given; else a prefix, a superfluous zero, or nothing in front of a decimal number. *)
Definition prefixed (Base : Z) (pre : list Z) (b sh : Z) (first : Z) : Prop :=
  (Base <> 0 /\ given_base Base = Some (b, sh) /\ pre = []) \/
  (Base = 0 /\ b = 10 /\ sh = 0 /\ pre = [] /\ first <> 48) \/
  (Base = 0 /\ b = 10 /\ sh = 0 /\ pre = [48] /\ prefix_base first = None) \/
  (Base = 0 /\ exists x, pre = [48; x] /\ prefix_base x = Some (b, sh)).

Lemma prefixed_ok Base pre b sh first : prefixed Base pre b sh first -> base_ok b sh.
Proof.
  intros [(_ & H & _)|[(_ & -> & -> & _)|[(_ & -> & -> & _)|(_ & x & _ & H)]]].
  - by apply (given_base_ok Base).
  - by left.
  - by left.
  - by apply (prefix_base_ok x).
Qed.

Lemma convert_spec Sign c s Base pre b sh first cs ds stop tail :
  prefixed Base pre b sh first -> head (cs ++ stop :: tail) = Some first -> digits b cs ds -> ends b stop ->
  c :: s = pre ++ cs ++ stop :: tail ->
  convert Sign c s Base = Some (STATUS_SUCCESS, Some (u32 (if Sign =? 45 then - eval b 0 ds else eval b 0 ds))).
Proof.
  intros Hp Hf Hds Hst E. pose proof (prefixed_ok _ _ _ _ _ Hp) as Hok.
  assert (Hfin : forall c1 s1, c1 :: s1 = cs ++ stop :: tail ->
    (Result ← value_loop b sh 0 c1 s1; Some (STATUS_SUCCESS, Some (negate Sign Result))) =
    Some (STATUS_SUCCESS, Some (u32 (if Sign =? 45 then - eval b 0 ds else eval b 0 ds)))).
  { intros c1 s1 E1. rewrite (value_loop_spec b sh cs ds stop tail) by (done || lia). cbn [mbind option_bind].
    by rewrite negate_spec. }
  unfold convert. destruct Hp as [(Hne & Hg & ->)|[(-> & -> & -> & -> & Hne)|[(-> & -> & -> & -> & Hx)|(-> & x & -> & Hx)]]].
  - replace (Base =? 0) with false by lia. rewrite Hg. by apply Hfin.
  - cbn [Z.eqb]. cbn [app] in E. rewrite <- E in Hf. injection Hf as ->. replace (first =? 48) with false by lia.
    cbn [mbind option_bind]. by apply Hfin.
  - cbn [Z.eqb]. injection E as -> ->. cbn [Z.eqb Pos.eqb]. destruct (cs ++ stop :: tail) as [|c1 s1] eqn:E1; [by destruct cs|].
    injection Hf as ->. cbn [next mbind option_bind]. rewrite Hx. cbn [mbind option_bind]. by apply Hfin.
  - cbn [Z.eqb]. injection E as -> ->. cbn [Z.eqb Pos.eqb next mbind option_bind]. rewrite Hx.
    destruct (cs ++ stop :: tail) as [|c1 s1] eqn:E1; [by destruct cs|]. cbn [next mbind option_bind]. by apply Hfin.
Qed.

Lemma parse_spec blanks sgn pre cs ds stop tail Base b sh first : Forall blank blanks ->
  sgn = [] \/ sgn = [43] \/ sgn = [45] -> prefixed Base pre b sh first -> head (cs ++ stop :: tail) = Some first ->
  digits b cs ds -> ends b stop -> cs <> [] \/ pre <> [] ->
  RtlCharToInteger (blanks ++ sgn ++ pre ++ cs ++ stop :: tail) Base =
  Some (STATUS_SUCCESS, Some (u32 (if bool_decide (sgn = [45]) then - eval b 0 ds else eval b 0 ds))).
Proof.
  intros Hb Hs Hp Hf Hds Hst Hne.
  assert (Hfirst : exists c s, c :: s = pre ++ cs ++ stop :: tail /\ 48 <= c <= 102).
  { destruct pre as [|p pre].
    - destruct cs as [|c cs]; [by destruct Hne|]. inversion Hds as [|? d ? ? [Hc _]]; subst. exists c, (cs ++ stop :: tail).
      split; [done|]. by eapply digit_of_nonzero.
    - exists p, (pre ++ cs ++ stop :: tail). split; [done|].
      destruct Hp as [(_ & _ & ?)|[(_ & _ & _ & ? & _)|[(_ & _ & _ & Hpre & _)|(_ & x & Hpre & _)]]]; try done; injection Hpre as ->; lia. }
  destruct Hfirst as (c & s & E & Hc). rewrite <- E. unfold RtlCharToInteger.
  destruct Hs as [->|[->| ->]]; cbn [app].
  - rewrite skip_blanks_spec by (done || lia). cbn [mbind option_bind].
    replace (c =? 45) with false by lia. replace (c =? 43) with false by lia. cbn [orb mbind option_bind].
    rewrite (convert_spec c c s Base pre b sh first cs ds stop tail) by done. by replace (c =? 45) with false by lia.
  - rewrite skip_blanks_spec by (done || lia). cbn [mbind option_bind Z.eqb Pos.eqb orb next].
    by rewrite (convert_spec 43 c s Base pre b sh first cs ds stop tail).
  - rewrite skip_blanks_spec by (done || lia). cbn [mbind option_bind Z.eqb Pos.eqb orb next].
    by rewrite (convert_spec 45 c s Base pre b sh first cs ds stop tail).
Qed.

(** ** The counted and the zero-terminated form agree *)

Lemma of_nat_S_eqb n : (Z.of_nat (S n) =? 0) = false.
Proof. apply Z.eqb_neq. lia. Qed.

Section Equiv.
Context (extra : list Z).

Lemma value_loop_equiv b sh s : forall R c,
  value_loop_w b sh R c (Z.of_nat (length s)) (s ++ extra) = value_loop b sh R c (s ++ [0]).
Proof.
  induction s as [|c1 s IH]; intros R c; cbn [length app].
  - destruct extra; cbn [value_loop value_loop_w]; (destruct (c =? 0); [done|]); (destruct (digit_of c); [|done]);
      by destruct (_ >=? _).
  - cbn [value_loop value_loop_w]. destruct (c =? 0); [done|]. destruct (digit_of c); [|done]. destruct (_ >=? _); [done|].
    rewrite of_nat_S_eqb. replace (Z.of_nat (S (length s)) - 1) with (Z.of_nat (length s)) by lia.
    apply IH.
Qed.

Lemma next_equiv s : next_w (Z.of_nat (length s), s ++ extra) =
  match s with [] => Some (0, (0, extra)) | c :: s => Some (c, (Z.of_nat (length s), s ++ extra)) end.
Proof.
  destruct s as [|c s]; [done|]. unfold next_w. cbn [length app]. rewrite of_nat_S_eqb.
  cbn [negb]. by replace (Z.of_nat (S (length s)) - 1) with (Z.of_nat (length s)) by lia.
Qed.

Lemma value_null b sh R n s : value_loop_w b sh R 0 n s = Some R /\ value_loop b sh R 0 s = Some R.
Proof. by destruct s. Qed.

Lemma convert_equiv Sign c s Base :
  convert_w Sign c (Z.of_nat (length s), s ++ extra) Base = convert Sign c (s ++ [0]) Base.
Proof.
  unfold convert_w, convert. cbn [fst snd].
  assert (Hv : forall b sh c s, value_loop_w b sh 0 c (Z.of_nat (length s)) (s ++ extra) = value_loop b sh 0 c (s ++ [0]))
    by (intros; apply value_loop_equiv).
  destruct (Base =? 0).
  - destruct (c =? 48); [|cbn [mbind option_bind fst snd]; by rewrite Hv].
    destruct s as [|x s].
    + change (Z.of_nat (length ([] : list Z))) with 0. cbn [Z.eqb negb mbind option_bind app next]. change (prefix_base 0) with (@None (Z * Z)).
      cbn [mbind option_bind next_w Z.eqb negb next app fst snd]. by rewrite !(proj1 (value_null _ _ _ _ _)).
    + rewrite (of_nat_S_eqb (length s) : (Z.of_nat (length (x :: s)) =? 0) = false). cbn [negb]. rewrite next_equiv.
      cbn [mbind option_bind app next]. destruct (prefix_base x) as [[b sh]|].
      * rewrite next_equiv. destruct s as [|c1 s]; cbn [mbind option_bind app next fst snd].
        -- by rewrite (proj1 (value_null _ _ _ _ _)), (proj2 (value_null b sh 0 0 [])).
        -- by rewrite Hv.
      * cbn [mbind option_bind].
        rewrite next_equiv. cbn [mbind option_bind fst snd]. by rewrite Hv.
  - destruct (given_base Base) as [[b sh]|]; [|done]. by rewrite Hv.
Qed.

Lemma blanks_equiv g s : s <> [] -> Forall (fun c => 1 <= c <= 127) s ->
  exists Sign1 s1 Sign2 t2, skip_blanks_w (Z.of_nat (length s)) (s ++ extra) g = Some (Sign1, (Z.of_nat (length s1), s1 ++ extra)) /\
    skip_blanks (s ++ [0]) = Some (Sign2, t2) /\
    (Sign1 = Sign2 /\ t2 = s1 ++ [0] \/ Sign1 = 0 /\ s1 = [] /\ 1 <= Sign2 <= 32 /\ t2 = [Sign2; 0]).
Proof.
  intros Hne Hs. revert g. induction Hs as [|c s Hc Hs IH]; intros g; [done|].
  assert (H8 : swrap 8 c = c) by (apply swrap_small; cbn; lia).
  cbn [skip_blanks_w app]. rewrite (of_nat_S_eqb (length s) : (Z.of_nat (length (c :: s)) =? 0) = false).
  cbn [skip_blanks app]. rewrite H8. replace (Z.of_nat (length (c :: s)) - 1) with (Z.of_nat (length s)) by (cbn; lia).
  destruct (Z.leb_spec c 32) as [Hle|Hgt].
  - destruct s as [|c1 s].
    + cbn. exists 0, [], c, [c; 0]. split_and!; [done|done|]. right. split_and!; done || lia.
    + rewrite (of_nat_S_eqb (length s) : (Z.of_nat (length (c1 :: s)) =? 0) = false). cbn [app].
      inversion Hs as [|? ? Hc1 _]; subst. replace (c1 =? 0) with false by lia. apply IH. done.
  - exists c, s, c, (s ++ [0]). split_and!; [done|done|by left].
Qed.

Lemma parse_equiv g s Base : s <> [] -> Forall (fun c => 1 <= c <= 127) s ->
  RtlUnicodeStringToInteger g (s ++ extra) (Z.of_nat (length s)) Base = RtlCharToInteger (s ++ [0]) Base.
Proof.
  intros Hne Hs. unfold RtlUnicodeStringToInteger, RtlCharToInteger.
  destruct (blanks_equiv g s Hne Hs) as (S1 & s1 & S2 & t2 & -> & -> & Hcase). cbn [mbind option_bind].
  destruct Hcase as [[-> ->]|(-> & -> & HS2 & ->)].
  - destruct ((S2 =? 45) || (S2 =? 43)); [|by apply convert_equiv]. rewrite next_equiv.
    destruct s1 as [|c s1]; cbn [app next mbind option_bind]; [|by apply convert_equiv].
    unfold convert_w, convert. cbn [fst snd]. destruct (Base =? 0); cbn [Z.eqb mbind option_bind fst snd].
    + by rewrite (proj1 (value_null _ _ _ _ _)), (proj2 (value_null 10 0 0 0 [])).
    + destruct (given_base Base) as [[b sh]|]; [|done]. by rewrite (proj1 (value_null _ _ _ _ _)), (proj2 (value_null b sh 0 0 [])).
  - cbn [Z.eqb orb]. replace (S2 =? 45) with false by lia. replace (S2 =? 43) with false by lia. cbn [orb mbind option_bind].
    assert (Hd : digit_of S2 = None).
    { destruct (digit_of S2) eqn:E; [|done]. apply digit_of_nonzero in E. lia. }
    assert (Hv : forall b sh, value_loop b sh 0 S2 [S2; 0] = Some 0).
    { intros b sh. cbn. rewrite Hd. by destruct (S2 =? 0). }
    unfold convert_w, convert, negate. replace (S2 =? 45) with false by lia. replace (S2 =? 48) with false by lia.
    cbn [Z.eqb fst snd]. destruct (Base =? 0); cbn [mbind option_bind fst snd].
    + by rewrite (proj1 (value_null _ _ _ _ _)), Hv.
    + destruct (given_base Base) as [[b sh]|]; [|done]. by rewrite (proj1 (value_null _ _ _ _ _)), Hv.
Qed.
End Equiv.

(** ** Theorems *)

Lemma eval_lower b ds : 1 <= b -> Forall (fun d => 0 <= d < b) ds -> forall acc, 0 <= acc ->
  acc * b ^ Z.of_nat (length ds) <= eval b acc ds.
Proof.
  intros Hb Hf. induction Hf as [|d ds Hd Hf IH]; intros acc Hacc; [cbn; lia|].
  cbn [eval fold_left]. fold (eval b (acc * b + d) ds). specialize (IH (acc * b + d) ltac:(nia)).
  replace (Z.of_nat (length (d :: ds))) with (Z.succ (Z.of_nat (length ds))) by (cbn [length]; lia).
  rewrite Z.pow_succ_r by lia. assert (0 <= b ^ Z.of_nat (length ds)) by (apply Z.pow_nonneg; lia). nia.
Qed.

(** A number below [2 ^ n] has at most [n] digits. *)
Lemma numeral_length b v ds n : 2 <= b -> numeral b v ds -> (0 < n)%nat -> v < 2 ^ Z.of_nat n -> (length ds <= n)%nat.
Proof.
  intros Hb (Hev & Hf & [->|(d & ds' & -> & Hd)]) Hn Hv; [cbn; lia|]. inversion Hf as [|? ? Hd0 Hf']; subst.
  pose proof (eval_lower b ds' ltac:(lia) Hf' d ltac:(lia)) as Hlow.
  change (eval b 0 (d :: ds')) with (eval b (0 * b + d) ds') in Hv. replace (0 * b + d) with d in Hv by lia.
  assert (2 ^ Z.of_nat (length ds') <= b ^ Z.of_nat (length ds')) by (apply Z.pow_le_mono_l; lia).
  assert (2 ^ Z.of_nat (length ds') < 2 ^ Z.of_nat n) by nia. apply Z.pow_lt_mono_r_iff in H0; [cbn [length]|lia|]; lia.
Qed.

Lemma chr_digits b ds : b <= 16 -> Forall (fun d => 0 <= d < b) ds -> digits b (map chr ds) ds.
Proof.
  intros Hb Hf. induction Hf as [|d ds Hd Hf IH]; [constructor|]. constructor; [|exact IH].
  destruct (chr_spec d ltac:(lia)) as (_ & H & _). done.
Qed.

Lemma wchars : RtlpIntegerWChars = RtlpIntegerChars.
Proof. done. Qed.

(** RtlIntegerToChar and RtlIntegerToUnicode write the numeral of the value, without
    leading zeros and with a terminator when there is room, or padded with zeros to a
    width given as a negative length; when it does not fit nothing is written. *)
Theorem integer_text Value Base b sh OutputLength String : 0 <= Value < 2 ^ 32 -> base_switch Base = Some (b, sh) ->
  - 2 ^ 31 < OutputLength < 2 ^ 31 -> Z.abs OutputLength <= Z.of_nat (length String) ->
  exists ds, numeral b Value ds /\
    forall to, to = RtlIntegerToChar \/ to = RtlIntegerToUnicode ->
    to Value Base OutputLength String =
    Some (if Z.of_nat (length ds) >? Z.abs OutputLength then (STATUS_BUFFER_OVERFLOW, String)
          else (STATUS_SUCCESS, written (map chr ds) OutputLength String)).
Proof.
  intros Hv Hb HO Hl. destruct (to_text_spec Value Base b sh OutputLength String Hv Hb HO Hl) as (ds & Hn & Ht).
  exists ds. split; [done|]. intros to [->| ->]; exact Ht.
Qed.

(** C29: RtlCharToInteger skips blanks, takes a sign and, when no base is given, a prefix
    0x, 0o or 0b, and returns the value of the digits that follow modulo 2^32, up to the
    first character that is not a digit of the base. *)
Theorem RtlCharToInteger_spec blanks sgn pre cs ds stop tail Base b sh first : Forall blank blanks ->
  sgn = [] \/ sgn = [43] \/ sgn = [45] -> prefixed Base pre b sh first -> head (cs ++ stop :: tail) = Some first ->
  digits b cs ds -> ends b stop -> cs <> [] \/ pre <> [] ->
  RtlCharToInteger (blanks ++ sgn ++ pre ++ cs ++ stop :: tail) Base =
  Some (STATUS_SUCCESS, Some (u32 (if bool_decide (sgn = [45]) then - eval b 0 ds else eval b 0 ds))).
Proof. apply parse_spec. Qed.

(** On every non-empty string of ASCII characters RtlUnicodeStringToInteger and
    RtlCharToInteger return the same, in every base, valid or not; nothing behind the
    counted characters is read. *)
Theorem RtlUnicodeStringToInteger_equiv g s extra Base : s <> [] -> Forall (fun c => 1 <= c <= 127) s ->
  RtlUnicodeStringToInteger g (s ++ extra) (Z.of_nat (length s)) Base = RtlCharToInteger (s ++ [0]) Base.
Proof. apply parse_equiv. Qed.

Lemma parse_numeral Value Base b sh ds tail : 0 <= Value < 2 ^ 32 -> base_switch Base = Some (b, sh) -> numeral b Value ds ->
  RtlCharToInteger (map chr ds ++ 0 :: tail) Base = Some (STATUS_SUCCESS, Some Value).
Proof.
  intros Hv Hb (Hev & Hf & Hh). pose proof (base_switch_ok _ _ _ Hb) as Hok. pose proof (base_ok_range _ _ Hok) as Hr.
  pose proof (chr_digits b ds ltac:(lia) Hf) as Hd. assert (Hend : ends b 0) by done.
  assert (Hres : Some (STATUS_SUCCESS, Some (u32 (if bool_decide (([] : list Z) = [45]) then - eval b 0 ds else eval b 0 ds))) =
    Some (STATUS_SUCCESS, Some Value)) by (rewrite bool_decide_eq_false_2 by done; rewrite Hev, u32_small by lia; done).
  destruct (Z.eq_dec Base 0) as [->|Hne].
  - injection Hb as <- <-. destruct Hh as [->|(d & ds' & -> & Hd0)].
    + rewrite <- Hres. apply (parse_spec [] [] [48] [] [] 0 tail 0 10 0 0); try done.
      * by left.
      * right. right. left. done.
      * constructor.
      * by right.
    + rewrite <- Hres. inversion Hf; subst.
      apply (parse_spec [] [] [] (map chr (d :: ds')) (d :: ds') 0 tail 0 10 0 (chr d)); try done.
      * by left.
      * right. left. split_and!; try done. intros E. destruct (chr_spec d ltac:(lia)) as (_ & Hdd & _). rewrite E in Hdd. by injection Hdd as <-.
      * by left.
  - assert (Hg : given_base Base = Some (b, sh)).
    { revert Hb. unfold base_switch, given_base. by replace (Base =? 0) with false by lia. }
    rewrite <- Hres. assert (Hc : exists c, head (map chr ds ++ 0 :: tail) = Some c) by (destruct ds; cbn; eauto).
    destruct Hc as [c Hc]. apply (parse_spec [] [] [] (map chr ds) ds 0 tail Base b sh c); try done.
    + by left.
    + left. done.
    + left. destruct Hh as [->|(d & ds' & -> & _)]; done.
Qed.

Lemma written_terminated ds OL String : Z.of_nat (length ds) < OL ->
  written (map chr ds) OL String = map chr ds ++ 0 :: drop (S (length ds)) String.
Proof.
  intros H. unfold written. destruct (Z.ltb_spec OL 0); [lia|]. rewrite length_map.
  destruct (Nat.ltb_spec (length ds) (Z.to_nat (Z.abs OL))); [done|lia].
Qed.

(** C30: With a buffer of 33 characters every ULONG is written in every base, and reading
    the text back in that base gives the value. *)
Theorem char_roundtrip Value Base b sh OutputLength String : 0 <= Value < 2 ^ 32 -> base_switch Base = Some (b, sh) ->
  33 <= OutputLength < 2 ^ 31 -> OutputLength <= Z.of_nat (length String) ->
  exists String', RtlIntegerToChar Value Base OutputLength String = Some (STATUS_SUCCESS, String') /\
    RtlCharToInteger String' Base = Some (STATUS_SUCCESS, Some Value).
Proof.
  intros Hv Hb HO Hl. destruct (to_text_spec Value Base b sh OutputLength String Hv Hb ltac:(lia) ltac:(lia)) as (ds & Hn & Ht).
  pose proof (base_ok_range _ _ (base_switch_ok _ _ _ Hb)) as Hr.
  pose proof (numeral_length b Value ds 32 ltac:(lia) Hn ltac:(lia) ltac:(cbn; lia)) as Hlen.
  destruct (Z.gtb_spec (Z.of_nat (length ds)) (Z.abs OutputLength)); [lia|].
  eexists. split; [exact Ht|]. rewrite written_terminated by lia. by eapply parse_numeral.
Qed.

(** Padding with zeros and reading back a counted string. *)
Theorem unicode_roundtrip g Value Base b sh n String : 0 <= Value < 2 ^ 32 -> Base <> 0 -> base_switch Base = Some (b, sh) ->
  32 <= n < 2 ^ 31 -> n <= Z.of_nat (length String) ->
  exists String', RtlIntegerToUnicode Value Base (- n) String = Some (STATUS_SUCCESS, String') /\
    RtlUnicodeStringToInteger g String' n Base = Some (STATUS_SUCCESS, Some Value).
Proof.
  intros Hv Hne Hb HO Hl. destruct (to_text_spec Value Base b sh (- n) String Hv Hb ltac:(lia) ltac:(lia)) as (ds & Hn & Ht).
  pose proof (base_ok_range _ _ (base_switch_ok _ _ _ Hb)) as Hr.
  pose proof (numeral_length b Value ds 32 ltac:(lia) Hn ltac:(lia) ltac:(cbn; lia)) as Hlen.
  destruct (Z.gtb_spec (Z.of_nat (length ds)) (Z.abs (- n))); [lia|].
  eexists. split; [exact Ht|]. unfold written. destruct (Z.ltb_spec (- n) 0); [|lia]. rewrite length_map.
  set (k := (Z.to_nat (Z.abs (- n)) - length ds)%nat). set (cs := replicate k 48 ++ map chr ds).
  assert (Hk : n = Z.of_nat (length cs)) by (unfold cs; rewrite length_app, length_replicate, length_map; lia).
  destruct Hn as (Hev & Hf & Hh). pose proof (chr_digits b ds ltac:(lia) Hf) as Hd.
  assert (Hds : digits b cs (replicate k 0 ++ ds)).
  { apply Forall2_app; [|done]. apply Forall2_replicate. split; [done|lia]. }
  assert (Hcs : Forall (fun c => 1 <= c <= 127) cs).
  { apply Forall_lookup. intros i c Hi. destruct (Forall2_lookup_l _ _ _ _ _ Hds Hi) as (d & _ & Hc & _).
    apply digit_of_nonzero in Hc. lia. }
  assert (Hcne : cs <> []) by (intros E; rewrite E in Hk; cbn in Hk; lia).
  rewrite app_assoc. fold cs. rewrite Hk, parse_equiv by done.
  assert (Hg : given_base Base = Some (b, sh)).
  { revert Hb. unfold base_switch, given_base. by replace (Base =? 0) with false by lia. }
  assert (Hc : exists c, head (cs ++ [0]) = Some c) by (destruct cs; [done|]; eexists; reflexivity). destruct Hc as [c Hc].
  pose proof (parse_spec [] [] [] cs (replicate k 0 ++ ds) 0 [] Base b sh c) as Hp. cbn [app] in Hp. rewrite Hp; try done.
  - rewrite bool_decide_eq_false_2 by done. rewrite eval_app.
    assert (Hz : forall m, eval b 0 (replicate m 0) = 0) by (induction m; [done|]; exact IHm). rewrite Hz, Hev, u32_small by lia. done.
  - by left.
  - by left.
  - by left.
Qed.

(** ** Counted strings *)

Lemma strlen_digits ds tail : Forall (fun d => 0 <= d < 16) ds -> strlen (map chr ds ++ 0 :: tail) = Some (length ds).
Proof.
  induction 1 as [|d ds Hd Hf IH]; [done|]. cbn [map app strlen]. destruct (chr_spec d Hd) as (_ & _ & Hc).
  replace (chr d =? 0) with false by lia. by rewrite IH.
Qed.
Lemma strlen_none ds : Forall (fun d => 0 <= d < 16) ds -> strlen (map chr ds) = None.
Proof.
  induction 1 as [|d ds Hd Hf IH]; [done|]. cbn [map strlen]. destruct (chr_spec d Hd) as (_ & _ & Hc).
  replace (chr d =? 0) with false by lia. by rewrite IH.
Qed.

Lemma to_string_spec table ds n stack String (r : option (Z * list Z)) : Forall (fun d => 0 <= d < 16) ds ->
  0 <= n < 2 ^ 31 -> Z.of_nat (length stack) = n ->
  r = Some (if Z.of_nat (length ds) >? Z.abs n then (STATUS_BUFFER_OVERFLOW, stack) else (STATUS_SUCCESS, written (map chr ds) n stack)) ->
  to_string table r String =
  if Z.of_nat (length ds) >? n then Some (STATUS_BUFFER_OVERFLOW, String)
  else if Z.of_nat (length ds) =? n then None
  else RtlAnsiStringToUnicodeString table String (map chr ds).
Proof.
  intros Hf Hn Hst ->. rewrite Z.abs_eq by lia. unfold to_string. cbn [mbind option_bind].
  destruct (Z.gtb_spec (Z.of_nat (length ds)) n) as [Hgt|Hle]; [done|]. cbn [Z.eqb].
  change (STATUS_SUCCESS =? STATUS_SUCCESS) with true. cbn [mbind option_bind].
  destruct (Z.eqb_spec (Z.of_nat (length ds)) n) as [E|E].
  - unfold written. destruct (Z.ltb_spec n 0); [lia|]. rewrite length_map.
    destruct (Nat.ltb_spec (length ds) (Z.to_nat (Z.abs n))); [lia|]. rewrite drop_ge by lia. rewrite app_nil_r.
    by rewrite strlen_none.
  - rewrite written_terminated by lia. rewrite strlen_digits by done. cbn [mbind option_bind].
    by rewrite take_app_length' by (by rewrite length_map).
Qed.

(** What the conversion to a counted string leaves in it. *)
Definition counted_text (table : Z -> Z) (cs : list Z) (d : UNICODE_STRING) : Z * UNICODE_STRING :=
  let n := 2 * Z.of_nat (length cs) in
  if n + 1 >=? MaximumLength d then (STATUS_BUFFER_OVERFLOW, mkUS n (MaximumLength d) (Buffer d))
  else (STATUS_SUCCESS, mkUS n (MaximumLength d) (map table cs ++ 0 :: drop (S (length cs)) (Buffer d))).

Lemma ansi_to_unicode_spec table cs d : Z.of_nat (length cs) < 32767 -> MaximumLength d <= 2 * Z.of_nat (length (Buffer d)) ->
  RtlAnsiStringToUnicodeString table d cs = Some (counted_text table cs d).
Proof.
  intros Hn Hm. unfold RtlAnsiStringToUnicodeString, counted_text, MAX_USTRING. cbn [CnvInt.Length MaximumLength Buffer].
  change (2 * (65535 / 2)) with 65534. destruct (Z.gtb_spec ((Z.of_nat (length cs) + 1) * 2) 65534); [lia|].
  replace ((Z.of_nat (length cs) + 1) * 2 - 2) with (2 * Z.of_nat (length cs)) by lia.
  destruct (Z.geb_spec (2 * Z.of_nat (length cs) + 1) (MaximumLength d)); [done|].
  unfold RtlMultiByteToUnicodeN. replace (2 * Z.of_nat (length cs) / 2) with (Z.of_nat (length cs)) by zdiv.
  rewrite Z.min_id, Nat2Z.id, take_ge by lia.
  destruct (split_at (Buffer d) 0 (length cs) ltac:(lia)) as (a & b & t & E & Ha & Hb). rewrite E in Hm |- *. destruct a; [|done]. cbn [app] in *.
  pose proof (copy_at (map table cs) [] b t ltac:(by rewrite length_map)) as Hc. cbn [app length] in Hc. rewrite Hc.
  cbn [mbind option_bind]. replace (Z.of_nat (length cs) * 2 / 2) with (Z.of_nat (length cs)) by zdiv. rewrite Nat2Z.id.
  rewrite length_app in Hm. destruct t as [|x t]; [cbn in Hm; lia|].
  rewrite <- (length_map table cs) at 1. rewrite store_at. cbn [mbind option_bind]. do 3 f_equal.
  replace (S (length cs)) with (length (b ++ [x])) by (rewrite length_app; cbn; lia).
  change (b ++ x :: t) with (b ++ [x] ++ t). by rewrite app_assoc, drop_app_length.
Qed.

Lemma numeral_small b v ds : b <= 16 -> numeral b v ds -> Forall (fun d => 0 <= d < 16) ds.
Proof. intros Hb (_ & Hf & _). eapply List.Forall_impl; [|exact Hf]. cbn. lia. Qed.

(** RtlIntegerToUnicodeString stores the numeral in the counted string when it has fewer
    than sixteen digits, reports longer ones, and leaves its buffer at exactly sixteen. *)
Theorem RtlIntegerToUnicodeString_spec table stack Value Base b sh String : 0 <= Value < 2 ^ 32 ->
  base_switch Base = Some (b, sh) -> (16 <= length stack)%nat -> MaximumLength String <= 2 * Z.of_nat (length (Buffer String)) ->
  exists ds, numeral b Value ds /\
    RtlIntegerToUnicodeString table stack Value Base String =
    if Z.of_nat (length ds) >? 16 then Some (STATUS_BUFFER_OVERFLOW, String)
    else if Z.of_nat (length ds) =? 16 then None
    else Some (counted_text table (map chr ds) String).
Proof.
  intros Hv Hb Hst Hm. assert (Hl : length (take 16 stack) = 16%nat) by (rewrite length_take; lia).
  destruct (to_text_spec Value Base b sh 16 (take 16 stack) Hv Hb ltac:(lia) ltac:(lia)) as (ds & Hn & Ht).
  pose proof (base_ok_range _ _ (base_switch_ok _ _ _ Hb)) as Hr.
  pose proof (numeral_small b Value ds ltac:(lia) Hn) as Hsm. exists ds. split; [done|]. unfold RtlIntegerToUnicodeString.
  rewrite (to_string_spec table ds 16 (take 16 stack) String) by (done || lia).
  destruct (Z.gtb_spec (Z.of_nat (length ds)) 16); [done|]. destruct (Z.eqb_spec (Z.of_nat (length ds)) 16); [done|].
  apply ansi_to_unicode_spec; [rewrite length_map; lia|done].
Qed.

(** The routines for large integers, with a base that is a power of two or for a
    decimal number that is not negative. *)
Theorem large_integer_text Value Base b sh OutputLength String : - 2 ^ 63 <= Value < 2 ^ 63 ->
  large_base_switch Base = Some (b, sh) -> (sh = 0 -> Base = 10 /\ 0 <= Value) ->
  - 2 ^ 31 < OutputLength < 2 ^ 31 -> Z.abs OutputLength <= Z.of_nat (length String) ->
  exists ds, numeral b (u64 Value) ds /\
    forall to, to = RtlLargeIntegerToChar \/ to = RtlLargeIntegerToUnicode ->
    to Value Base OutputLength String =
    Some (if Z.of_nat (length ds) >? Z.abs OutputLength then (STATUS_BUFFER_OVERFLOW, String)
          else (STATUS_SUCCESS, written (map chr ds) OutputLength String)).
Proof.
  intros Hv Hb Hten HO Hl. destruct (large_to_text_spec Value Base b sh OutputLength String Hv Hb Hten HO Hl) as (ds & Hn & Ht).
  exists ds. split; [done|]. intros to [->| ->]; exact Ht.
Qed.

(** ** Witnesses *)

Lemma integer_text_witness : RtlIntegerToChar 255 16 (-4) [1; 1; 1; 1; 1] = Some (STATUS_SUCCESS, [48; 48; 70; 70; 1]) /\
  exists ds, numeral 16 255 ds /\ RtlIntegerToChar 255 16 (-4) [1; 1; 1; 1; 1] =
    Some (if Z.of_nat (length ds) >? 4 then (STATUS_BUFFER_OVERFLOW, [1; 1; 1; 1; 1])
          else (STATUS_SUCCESS, written (map chr ds) (-4) [1; 1; 1; 1; 1])).
Proof.
  split; [reflexivity|].
  destruct (integer_text 255 16 16 4 (-4) [1; 1; 1; 1; 1]) as (ds & Hn & H); [lia|reflexivity|lia|cbn; lia|].
  exists ds. split; [exact Hn|]. exact (H RtlIntegerToChar (or_introl eq_refl)).
Defined.

(** [" -0x1F,"] with the base taken from the prefix. *)
Lemma RtlCharToInteger_spec_witness : RtlCharToInteger [32; 45; 48; 120; 49; 70; 44] 0 = Some (STATUS_SUCCESS, Some 4294967265).
Proof.
  apply (RtlCharToInteger_spec [32] [45] [48; 120] [49; 70] [1; 15] 44 [] 0 16 4 49); try reflexivity.
  - constructor; [unfold blank; lia|constructor].
  - right; right; reflexivity.
  - right; right; right. split; [reflexivity|]. exists 120. split; reflexivity.
  - repeat constructor; lia.
  - left. discriminate.
Defined.

Lemma RtlUnicodeStringToInteger_equiv_witness :
  RtlUnicodeStringToInteger 7 [32; 45; 49; 50] 4 10 = RtlCharToInteger [32; 45; 49; 50; 0] 10 /\
  RtlCharToInteger [32; 45; 49; 50; 0] 10 = Some (STATUS_SUCCESS, Some 4294967284).
Proof.
  split; [|reflexivity]. apply (RtlUnicodeStringToInteger_equiv 7 [32; 45; 49; 50] [] 10); [discriminate|].
  repeat constructor; lia.
Defined.

Lemma char_roundtrip_witness : exists String',
  RtlIntegerToChar 1234 10 33 (replicate 40 1) = Some (STATUS_SUCCESS, String') /\
  RtlCharToInteger String' 10 = Some (STATUS_SUCCESS, Some 1234).
Proof. apply (char_roundtrip 1234 10 10 0 33 (replicate 40 1)); [lia|reflexivity|lia|cbn; lia]. Defined.

Lemma RtlIntegerToUnicodeString_spec_witness : exists ds, numeral 10 1234 ds /\
  RtlIntegerToUnicodeString id (replicate 16 1) 1234 10 (mkUS 0 12 (replicate 6 7)) =
  if Z.of_nat (length ds) >? 16 then Some (STATUS_BUFFER_OVERFLOW, mkUS 0 12 (replicate 6 7))
  else if Z.of_nat (length ds) =? 16 then None else Some (counted_text id (map chr ds) (mkUS 0 12 (replicate 6 7))).
Proof. apply (RtlIntegerToUnicodeString_spec id (replicate 16 1) 1234 10 10 0); [lia|reflexivity|cbn; lia|cbn; lia]. Defined.

(** ** Where the routines go wrong *)

(** Sixteen binary digits fill ResultBuffer, and strlen runs past its end. *)
Theorem sixteen_digits table stack String : (16 <= length stack)%nat ->
  RtlIntegerToUnicodeString table stack 0xFFFF 2 String = None.
Proof.
  intros Hst. assert (Hl : length (take 16 stack) = 16%nat) by (rewrite length_take; lia).
  unfold RtlIntegerToUnicodeString.
  rewrite (to_string_spec table (replicate 16 1) 16 (take 16 stack) String); [done|by repeat constructor|done|lia|].
  unfold RtlIntegerToChar, to_text. cbn [base_switch Z.eqb Pos.eqb].
  change (digits_loop RtlpIntegerChars 33 2 1 0xFFFF []) with (Some (map chr (replicate 16 1))). cbn [mbind option_bind].
  rewrite output_spec by lia. by rewrite length_map.
Qed.

(** Base 0 stands for 10, but is used as the divisor. *)
Theorem large_base_zero Value OutputLength String : RtlLargeIntegerToChar Value 0 OutputLength String = None.
Proof. done. Qed.

(** The remainder of a negative number is negative, and the table is read far outside. *)
Theorem large_negative Value OutputLength String : - 2 ^ 63 <= Value < 0 -> Z.rem Value 10 <> 0 ->
  RtlLargeIntegerToChar Value 10 OutputLength String = None.
Proof.
  intros Hv Hr.
  assert (Hloop : forall room s, divide_loop RtlpIntegerChars room 10 Value s = None).
  { intros [|room] s; [done|]. cbn [divide_loop]. unfold RtlExtendedLargeIntegerDivide. cbn [Z.eqb mbind option_bind].
    pose proof (Z.rem_bound_pos_neg Value 10 ltac:(lia) ltac:(lia)) as Hb.
    assert (Hu : u32 (Z.rem Value 10) = Z.rem Value 10 + 2 ^ 32).
    { unfold u32, uwrap. symmetry. apply (Z.mod_unique_pos _ _ (-1)); lia. }
    rewrite Hu. rewrite (lookup_ge_None_2 RtlpIntegerChars); [done|].
    change (length RtlpIntegerChars) with 16%nat. clear Hu. lia. }
  unfold RtlLargeIntegerToChar, large_to_text. cbn [large_base_switch Z.eqb Pos.eqb orb negb]. by rewrite Hloop.
Qed.

(** For an empty string the character behind the terminator is read, and taken for
    part of the number. *)
Theorem empty_char_string : RtlCharToInteger [0] 10 = None /\
  RtlCharToInteger [0; 49; 50; 0] 10 = Some (STATUS_SUCCESS, Some 12).
Proof. split; reflexivity. Qed.

(** For an empty counted string the result depends on what the stack held. *)
Theorem empty_unicode_string : RtlUnicodeStringToInteger 0 [] 0 10 = Some (STATUS_SUCCESS, Some 0) /\
  RtlUnicodeStringToInteger 53 [] 0 10 = None.
Proof. split; reflexivity. Qed.

End CnvIntSpec.
