(* ===== verification/RtlBitmap.v ===== *)
(** * Bit maps (src/ntoskrnl/rtl/bitmap.c): storage, single bits and ranges

    An RTL_BITMAP is its SizeOfBitMap and the buffer it points to, here the
    list of the buffer's bytes (a ULONG is four of them, low byte first).
    Accesses outside the buffer are the outcome [None].  The abstract value of
    a bit map is the function [bit] from bit numbers to booleans; the theorems
    say what each routine does to that function.

    The x86 build is modelled: CHUNK is a 32-bit ULONG_PTR and the byte-wise
    versions of the single-bit and significant-bit routines are used. *)

From S2P Require Import Prelude.

Module Bitmap.

(** ** Tables *)

Definition RtlpBitsClearAnywhere : list Z :=
  [8; 7; 6; 6; 5; 5; 5; 5; 4; 4; 4; 4; 4; 4; 4; 4;
   4; 3; 3; 3; 3; 3; 3; 3; 3; 3; 3; 3; 3; 3; 3; 3;
   5; 4; 3; 3; 2; 2; 2; 2; 3; 2; 2; 2; 2; 2; 2; 2;
   4; 3; 2; 2; 2; 2; 2; 2; 3; 2; 2; 2; 2; 2; 2; 2;
   6; 5; 4; 4; 3; 3; 3; 3; 3; 2; 2; 2; 2; 2; 2; 2;
   4; 3; 2; 2; 2; 1; 1; 1; 3; 2; 1; 1; 2; 1; 1; 1;
   5; 4; 3; 3; 2; 2; 2; 2; 3; 2; 1; 1; 2; 1; 1; 1;
   4; 3; 2; 2; 2; 1; 1; 1; 3; 2; 1; 1; 2; 1; 1; 1;
   7; 6; 5; 5; 4; 4; 4; 4; 3; 3; 3; 3; 3; 3; 3; 3;
   4; 3; 2; 2; 2; 2; 2; 2; 3; 2; 2; 2; 2; 2; 2; 2;
   5; 4; 3; 3; 2; 2; 2; 2; 3; 2; 1; 1; 2; 1; 1; 1;
   4; 3; 2; 2; 2; 1; 1; 1; 3; 2; 1; 1; 2; 1; 1; 1;
   6; 5; 4; 4; 3; 3; 3; 3; 3; 2; 2; 2; 2; 2; 2; 2;
   4; 3; 2; 2; 2; 1; 1; 1; 3; 2; 1; 1; 2; 1; 1; 1;
   5; 4; 3; 3; 2; 2; 2; 2; 3; 2; 1; 1; 2; 1; 1; 1;
   4; 3; 2; 2; 2; 1; 1; 1; 3; 2; 1; 1; 2; 1; 1; 0].

Definition RtlpBitsClearLow : list Z :=
  [8; 0; 1; 0; 2; 0; 1; 0; 3; 0; 1; 0; 2; 0; 1; 0;
   4; 0; 1; 0; 2; 0; 1; 0; 3; 0; 1; 0; 2; 0; 1; 0;
   5; 0; 1; 0; 2; 0; 1; 0; 3; 0; 1; 0; 2; 0; 1; 0;
   4; 0; 1; 0; 2; 0; 1; 0; 3; 0; 1; 0; 2; 0; 1; 0;
   6; 0; 1; 0; 2; 0; 1; 0; 3; 0; 1; 0; 2; 0; 1; 0;
   4; 0; 1; 0; 2; 0; 1; 0; 3; 0; 1; 0; 2; 0; 1; 0;
   5; 0; 1; 0; 2; 0; 1; 0; 3; 0; 1; 0; 2; 0; 1; 0;
   4; 0; 1; 0; 2; 0; 1; 0; 3; 0; 1; 0; 2; 0; 1; 0;
   7; 0; 1; 0; 2; 0; 1; 0; 3; 0; 1; 0; 2; 0; 1; 0;
   4; 0; 1; 0; 2; 0; 1; 0; 3; 0; 1; 0; 2; 0; 1; 0;
   5; 0; 1; 0; 2; 0; 1; 0; 3; 0; 1; 0; 2; 0; 1; 0;
   4; 0; 1; 0; 2; 0; 1; 0; 3; 0; 1; 0; 2; 0; 1; 0;
   6; 0; 1; 0; 2; 0; 1; 0; 3; 0; 1; 0; 2; 0; 1; 0;
   4; 0; 1; 0; 2; 0; 1; 0; 3; 0; 1; 0; 2; 0; 1; 0;
   5; 0; 1; 0; 2; 0; 1; 0; 3; 0; 1; 0; 2; 0; 1; 0;
   4; 0; 1; 0; 2; 0; 1; 0; 3; 0; 1; 0; 2; 0; 1; 0].

Definition RtlpBitsClearHigh : list Z :=
  [8; 7; 6; 6; 5; 5; 5; 5; 4; 4; 4; 4; 4; 4; 4; 4;
   3; 3; 3; 3; 3; 3; 3; 3; 3; 3; 3; 3; 3; 3; 3; 3;
   2; 2; 2; 2; 2; 2; 2; 2; 2; 2; 2; 2; 2; 2; 2; 2;
   2; 2; 2; 2; 2; 2; 2; 2; 2; 2; 2; 2; 2; 2; 2; 2;
   1; 1; 1; 1; 1; 1; 1; 1; 1; 1; 1; 1; 1; 1; 1; 1;
   1; 1; 1; 1; 1; 1; 1; 1; 1; 1; 1; 1; 1; 1; 1; 1;
   1; 1; 1; 1; 1; 1; 1; 1; 1; 1; 1; 1; 1; 1; 1; 1;
   1; 1; 1; 1; 1; 1; 1; 1; 1; 1; 1; 1; 1; 1; 1; 1;
   0; 0; 0; 0; 0; 0; 0; 0; 0; 0; 0; 0; 0; 0; 0; 0;
   0; 0; 0; 0; 0; 0; 0; 0; 0; 0; 0; 0; 0; 0; 0; 0;
   0; 0; 0; 0; 0; 0; 0; 0; 0; 0; 0; 0; 0; 0; 0; 0;
   0; 0; 0; 0; 0; 0; 0; 0; 0; 0; 0; 0; 0; 0; 0; 0;
   0; 0; 0; 0; 0; 0; 0; 0; 0; 0; 0; 0; 0; 0; 0; 0;
   0; 0; 0; 0; 0; 0; 0; 0; 0; 0; 0; 0; 0; 0; 0; 0;
   0; 0; 0; 0; 0; 0; 0; 0; 0; 0; 0; 0; 0; 0; 0; 0;
   0; 0; 0; 0; 0; 0; 0; 0; 0; 0; 0; 0; 0; 0; 0; 0].

Definition RtlpBitsClearTotal : list Z :=
  [8; 7; 7; 6; 7; 6; 6; 5; 7; 6; 6; 5; 6; 5; 5; 4;
   7; 6; 6; 5; 6; 5; 5; 4; 6; 5; 5; 4; 5; 4; 4; 3;
   7; 6; 6; 5; 6; 5; 5; 4; 6; 5; 5; 4; 5; 4; 4; 3;
   6; 5; 5; 4; 5; 4; 4; 3; 5; 4; 4; 3; 4; 3; 3; 2;
   7; 6; 6; 5; 6; 5; 5; 4; 6; 5; 5; 4; 5; 4; 4; 3;
   6; 5; 5; 4; 5; 4; 4; 3; 5; 4; 4; 3; 4; 3; 3; 2;
   6; 5; 5; 4; 5; 4; 4; 3; 5; 4; 4; 3; 4; 3; 3; 2;
   5; 4; 4; 3; 4; 3; 3; 2; 4; 3; 3; 2; 3; 2; 2; 1;
   7; 6; 6; 5; 6; 5; 5; 4; 6; 5; 5; 4; 5; 4; 4; 3;
   6; 5; 5; 4; 5; 4; 4; 3; 5; 4; 4; 3; 4; 3; 3; 2;
   6; 5; 5; 4; 5; 4; 4; 3; 5; 4; 4; 3; 4; 3; 3; 2;
   5; 4; 4; 3; 4; 3; 3; 2; 4; 3; 3; 2; 3; 2; 2; 1;
   6; 5; 5; 4; 5; 4; 4; 3; 5; 4; 4; 3; 4; 3; 3; 2;
   5; 4; 4; 3; 4; 3; 3; 2; 4; 3; 3; 2; 3; 2; 2; 1;
   5; 4; 4; 3; 4; 3; 3; 2; 4; 3; 3; 2; 3; 2; 2; 1;
   4; 3; 3; 2; 3; 2; 2; 1; 3; 2; 2; 1; 2; 1; 1; 0].

Definition FillMask : list Z :=
  [0x00; 0x01; 0x03; 0x07; 0x0F; 0x1F; 0x3F; 0x7F; 0xFF].

Definition ZeroMask : list Z :=
  [0xFF; 0xFE; 0xFC; 0xF8; 0xf0; 0xe0; 0xc0; 0x80; 0x00].

(** A table access; the index is in range wherever the code uses it. *)
Definition tbl (t : list Z) (i : Z) : Z := nth (Z.to_nat i) t 0.

Definition RtlpBitsSetTotal (Byte : Z) : Z :=
  tbl RtlpBitsClearTotal (Z.land (Z.lnot Byte) 0xFF).

(** ** The bit map header and its memory *)

Record RTL_BITMAP := mkBM { SizeOfBitMap : Z; Buffer : list Z }.

Definition get_byte (buf : list Z) (i : Z) : option Z :=
  if 0 <=? i then buf !! Z.to_nat i else None.

Definition set_byte (buf : list Z) (i v : Z) : option (list Z) :=
  _ ← get_byte buf i; Some (<[Z.to_nat i := v]> buf).

(** Storing [n] copies of a byte (RtlZeroMemory, RtlFillMemory). *)
Definition fill_bytes (buf : list Z) (i n v : Z) : option (list Z) :=
  if (0 <=? i) && (0 <=? n) && (i + n <=? Z.of_nat (length buf))
  then Some (take (Z.to_nat i) buf ++ replicate (Z.to_nat n) v ++ drop (Z.to_nat (i + n)) buf)
  else None.

(** Reading the [k]-th ULONG. *)
Definition get_ulong (buf : list Z) (k : Z) : option Z :=
  b0 ← get_byte buf (4 * k);
  b1 ← get_byte buf (4 * k + 1);
  b2 ← get_byte buf (4 * k + 2);
  b3 ← get_byte buf (4 * k + 3);
  Some (Z.lor b0 (Z.lor (Z.shiftl b1 8) (Z.lor (Z.shiftl b2 16) (Z.shiftl b3 24)))).

Definition with_Buffer (bm : RTL_BITMAP) (buf : list Z) : RTL_BITMAP :=
  mkBM (SizeOfBitMap bm) buf.

(** ** Initialisation and single bits *)

Definition RtlInitializeBitMap (BitMapBuffer : list Z) (Size : Z) : RTL_BITMAP :=
  {| SizeOfBitMap := Size; Buffer := BitMapBuffer |}.

Definition RtlClearBit (bm : RTL_BITMAP) (BitNumber : Z) : option RTL_BITMAP :=
  let ByteAddress := Z.shiftr BitNumber 3 in
  let ShiftCount := Z.land BitNumber 0x7 in
  b ← get_byte (Buffer bm) ByteAddress;
  buf ← set_byte (Buffer bm) ByteAddress (Z.land b (u8 (Z.lnot (Z.shiftl 1 ShiftCount))));
  Some (with_Buffer bm buf).

Definition RtlSetBit (bm : RTL_BITMAP) (BitNumber : Z) : option RTL_BITMAP :=
  let ByteAddress := Z.shiftr BitNumber 3 in
  let ShiftCount := Z.land BitNumber 0x7 in
  b ← get_byte (Buffer bm) ByteAddress;
  buf ← set_byte (Buffer bm) ByteAddress (Z.lor b (u8 (Z.shiftl 1 ShiftCount)));
  Some (with_Buffer bm buf).

Definition RtlTestBit (bm : RTL_BITMAP) (BitNumber : Z) : option bool :=
  let ByteAddress := Z.shiftr BitNumber 3 in
  let ShiftCount := Z.land BitNumber 0x7 in
  b ← get_byte (Buffer bm) ByteAddress;
  Some (negb (Z.land (Z.shiftr b ShiftCount) 1 =? 0)).

Definition RtlClearAllBits (bm : RTL_BITMAP) : option RTL_BITMAP :=
  buf ← fill_bytes (Buffer bm) 0 (u32 (SizeOfBitMap bm + 31) / 32 * 4) 0;
  Some (with_Buffer bm buf).

(** RtlFillMemoryUlong with the pattern 0xffffffff. *)
Definition RtlSetAllBits (bm : RTL_BITMAP) : option RTL_BITMAP :=
  buf ← fill_bytes (Buffer bm) 0 (u32 (SizeOfBitMap bm + 31) / 32 * 4) 0xff;
  Some (with_Buffer bm buf).

(** ** Ranges *)

Definition RtlClearBits (bm : RTL_BITMAP) (StartingIndex NumberToClear : Z) : option RTL_BITMAP :=
  if NumberToClear =? 0 then Some bm
  else
    let CurrentByte := StartingIndex / 8 in
    let BitOffset := StartingIndex mod 8 in
    if u32 (BitOffset + NumberToClear) <=? 8 then
      b ← get_byte (Buffer bm) CurrentByte;
      buf ← set_byte (Buffer bm) CurrentByte
              (Z.land b (u8 (Z.lnot (Z.shiftl (tbl FillMask NumberToClear) BitOffset))));
      Some (with_Buffer bm buf)
    else
      '(buf, CurrentByte, NumberToClear) ←
        (if BitOffset >? 0 then
           b ← get_byte (Buffer bm) CurrentByte;
           buf ← set_byte (Buffer bm) CurrentByte (Z.land b (tbl FillMask BitOffset));
           Some (buf, CurrentByte + 1, u32 (NumberToClear - (8 - BitOffset)))
         else Some (Buffer bm, CurrentByte, NumberToClear));
      '(buf, CurrentByte, NumberToClear) ←
        (if NumberToClear >? 8 then
           buf ← fill_bytes buf CurrentByte (NumberToClear / 8) 0;
           Some (buf, CurrentByte + NumberToClear / 8, NumberToClear mod 8)
         else Some (buf, CurrentByte, NumberToClear));
      if NumberToClear >? 0 then
        b ← get_byte buf CurrentByte;
        buf ← set_byte buf CurrentByte (Z.land b (tbl ZeroMask NumberToClear));
        Some (with_Buffer bm buf)
      else Some (with_Buffer bm buf).

Definition RtlSetBits (bm : RTL_BITMAP) (StartingIndex NumberToSet : Z) : option RTL_BITMAP :=
  if NumberToSet =? 0 then Some bm
  else
    let CurrentByte := StartingIndex / 8 in
    let BitOffset := StartingIndex mod 8 in
    if u32 (BitOffset + NumberToSet) <=? 8 then
      b ← get_byte (Buffer bm) CurrentByte;
      buf ← set_byte (Buffer bm) CurrentByte
              (Z.lor b (u8 (Z.shiftl (tbl FillMask NumberToSet) BitOffset)));
      Some (with_Buffer bm buf)
    else
      '(buf, CurrentByte, NumberToSet) ←
        (if BitOffset >? 0 then
           b ← get_byte (Buffer bm) CurrentByte;
           buf ← set_byte (Buffer bm) CurrentByte (Z.lor b (tbl ZeroMask BitOffset));
           Some (buf, CurrentByte + 1, u32 (NumberToSet - (8 - BitOffset)))
         else Some (Buffer bm, CurrentByte, NumberToSet));
      '(buf, CurrentByte, NumberToSet) ←
        (if NumberToSet >? 8 then
           buf ← fill_bytes buf CurrentByte (NumberToSet / 8) 0xff;
           Some (buf, CurrentByte + NumberToSet / 8, NumberToSet mod 8)
         else Some (buf, CurrentByte, NumberToSet));
      if NumberToSet >? 0 then
        b ← get_byte buf CurrentByte;
        buf ← set_byte buf CurrentByte (Z.lor b (tbl FillMask NumberToSet));
        Some (with_Buffer bm buf)
      else Some (with_Buffer bm buf).

(** The loop over the whole bytes of RtlAreBitsClear and RtlAreBitsSet: [n]
    bytes from [i] on, all equal to [v]. *)
Fixpoint bytes_all (buf : list Z) (i : Z) (n : nat) (v : Z) : option bool :=
  match n with
  | O => Some true
  | S n => b ← get_byte buf i; if b =? v then bytes_all buf (i + 1) n v else Some false
  end.

Definition RtlAreBitsClear (bm : RTL_BITMAP) (StartingIndex Length : Z) : option bool :=
  if (u32 (StartingIndex + Length) >? SizeOfBitMap bm) || (Length =? 0) then Some false
  else
    let EndingIndex := u32 (u32 (StartingIndex + Length) - 1) in
    let StartingByte := StartingIndex / 8 in
    let EndingByte := EndingIndex / 8 in
    let StartingOffset := StartingIndex mod 8 in
    let EndingOffset := EndingIndex mod 8 in
    if StartingByte =? EndingByte then
      b ← get_byte (Buffer bm) StartingByte;
      Some (Z.land (Z.land (tbl ZeroMask StartingOffset) (tbl FillMask (EndingOffset + 1))) b =? 0)
    else
      b ← get_byte (Buffer bm) StartingByte;
      if negb (Z.land (tbl ZeroMask StartingOffset) b =? 0) then Some false
      else
        middle ← bytes_all (Buffer bm) (StartingByte + 1)
                   (Z.to_nat (EndingByte - (StartingByte + 1))) 0;
        if negb middle then Some false
        else
          b ← get_byte (Buffer bm) (Z.max (StartingByte + 1) EndingByte);
          Some (Z.land (tbl FillMask (EndingOffset + 1)) b =? 0).

Definition RtlAreBitsSet (bm : RTL_BITMAP) (StartingIndex Length : Z) : option bool :=
  if (u32 (StartingIndex + Length) >? SizeOfBitMap bm) || (Length =? 0) then Some false
  else
    let EndingIndex := u32 (u32 (StartingIndex + Length) - 1) in
    let StartingByte := StartingIndex / 8 in
    let EndingByte := EndingIndex / 8 in
    let StartingOffset := StartingIndex mod 8 in
    let EndingOffset := EndingIndex mod 8 in
    if StartingByte =? EndingByte then
      b ← get_byte (Buffer bm) StartingByte;
      Some (Z.land (Z.land (tbl ZeroMask StartingOffset) (tbl FillMask (EndingOffset + 1)))
                   (Z.lnot b) =? 0)
    else
      b ← get_byte (Buffer bm) StartingByte;
      if negb (Z.land (tbl ZeroMask StartingOffset) (Z.lnot b) =? 0) then Some false
      else
        middle ← bytes_all (Buffer bm) (StartingByte + 1)
                   (Z.to_nat (EndingByte - (StartingByte + 1))) 0xff;
        if negb middle then Some false
        else
          b ← get_byte (Buffer bm) (Z.max (StartingByte + 1) EndingByte);
          Some (Z.land (tbl FillMask (EndingOffset + 1)) (Z.lnot b) =? 0).

(** ** Counting *)

Definition RtlpNumberOfSetBitsInChunk (Target : Z) : Z :=
  let Target := u32 (Z.lnot Target) in
  let setBits := u8 (tbl RtlpBitsClearTotal (u8 Target)) in
  let Target := Z.shiftr Target 8 in
  let setBits := u8 (setBits + tbl RtlpBitsClearTotal (u8 Target)) in
  let Target := Z.shiftr Target 8 in
  let setBits := u8 (setBits + tbl RtlpBitsClearTotal (u8 Target)) in
  let Target := Z.shiftr Target 8 in
  u8 (setBits + tbl RtlpBitsClearTotal Target).

(** [while (n > 0) { GET_BYTE(CurrentByte); TotalSet += ...; n -= 1; }] from
    byte [i]: the position reached and the total. *)
Fixpoint count_bytes (buf : list Z) (n : nat) (i TotalSet : Z) : option (Z * Z) :=
  match n with
  | O => Some (i, TotalSet)
  | S n => b ← get_byte buf i; count_bytes buf n (i + 1) (u32 (TotalSet + RtlpBitsSetTotal b))
  end.

(** The loop over whole CHUNKs; [i] is a byte position that is a multiple of
    four, as the buffer is ULONG aligned. *)
Fixpoint count_chunks (buf : list Z) (n : nat) (i TotalSet : Z) : option (Z * Z) :=
  match n with
  | O => Some (i, TotalSet)
  | S n => c ← get_ulong buf (i / 4);
           count_chunks buf n (i + 4) (u32 (TotalSet + RtlpNumberOfSetBitsInChunk c))
  end.

(** The count, and the bit map with the unused bits of the last byte cleared.
    The buffer is ULONG aligned, so BytesHead is zero. *)
Definition RtlNumberOfSetBits (bm : RTL_BITMAP) : option (Z * RTL_BITMAP) :=
  let Size := SizeOfBitMap bm in
  let SizeInBytes := u32 (Size + 7) / 8 in
  buf ← (if negb (Size mod 8 =? 0) then
           b ← get_byte (Buffer bm) (SizeInBytes - 1);
           set_byte (Buffer bm) (SizeInBytes - 1) (Z.land b (tbl FillMask (Size mod 8)))
         else Some (Buffer bm));
  let BytesHead := 0 in
  let BytesTail := (SizeInBytes - BytesHead) mod 8 in
  let BytesMiddle := SizeInBytes - (BytesHead + BytesTail) in
  '(i, TotalSet) ← count_bytes buf (Z.to_nat BytesHead) 0 0;
  '(i, TotalSet) ← count_chunks buf (Z.to_nat (BytesMiddle / 4)) i TotalSet;
  '(i, TotalSet) ← count_bytes buf (Z.to_nat BytesTail) i TotalSet;
  Some (TotalSet, with_Buffer bm buf).

Definition RtlNumberOfClearBits (bm : RTL_BITMAP) : option (Z * RTL_BITMAP) :=
  '(n, bm') ← RtlNumberOfSetBits bm;
  Some (u32 (SizeOfBitMap bm - n), bm').

(** ** Significant bits of a 64-bit set *)

Definition RtlFindMostSignificantBit (Set_ : Z) : Z :=
  let has (mask : Z) := negb (Z.land Set_ mask =? 0) in
  let finish (bitOffset : Z) :=
    let lookup := u8 (Z.shiftr Set_ bitOffset) in
    u8 ((7 - tbl RtlpBitsClearHigh lookup) + bitOffset) in
  if has 0xFFFFFFFF00000000 then
    if has 0xFFFF000000000000 then
      if has 0xFF00000000000000 then finish (7 * 8) else finish (6 * 8)
    else
      if has 0x0000FF0000000000 then finish (5 * 8) else finish (4 * 8)
  else
    if has 0x00000000FFFF0000 then
      if has 0x00000000FF000000 then finish (3 * 8) else finish (2 * 8)
    else
      if has 0x000000000000FF00 then finish (1 * 8)
      else if Set_ =? 0 then -1 else finish (0 * 8).

Definition RtlFindLeastSignificantBit (Set_ : Z) : Z :=
  let has (mask : Z) := negb (Z.land Set_ mask =? 0) in
  let finish (bitOffset : Z) :=
    let lookup := u8 (Z.shiftr Set_ bitOffset) in
    u8 (tbl RtlpBitsClearLow lookup + bitOffset) in
  if has 0x00000000FFFFFFFF then
    if has 0x000000000000FFFF then
      if has 0x00000000000000FF then finish (0 * 8) else finish (1 * 8)
    else
      if has 0x0000000000FF0000 then finish (2 * 8) else finish (3 * 8)
  else
    if has 0x0000FFFF00000000 then
      if has 0x000000FF00000000 then finish (4 * 8) else finish (5 * 8)
    else
      if has 0x00FF000000000000 then finish (6 * 8)
      else if Set_ =? 0 then -1 else finish (7 * 8).

(** ** The abstract bit map *)

Definition byte (buf : list Z) (i : Z) : Z := nth (Z.to_nat i) buf 0.
Definition bit (buf : list Z) (j : Z) : bool := Z.testbit (byte buf (j / 8)) (j mod 8).
Definition zlen (buf : list Z) : Z := Z.of_nat (length buf).
Definition bytes_ok (buf : list Z) : Prop := Forall (fun b => 0 <= b < 256) buf.
Definition between (s n j : Z) : bool := (s <=? j) && (j <? s + n).

(** The buffer is a whole number of ULONGs that covers the bit map. *)
Record bitmap_ok (bm : RTL_BITMAP) : Prop := {
  ok_size : 0 <= SizeOfBitMap bm <= 2 ^ 32 - 32;
  ok_bytes : bytes_ok (Buffer bm);
  ok_words : zlen (Buffer bm) mod 4 = 0;
  ok_cover : SizeOfBitMap bm <= 8 * zlen (Buffer bm) }.

(** [assigns buf buf' s n v]: [buf'] is [buf] with the [n] bits from [s] on
    made equal to [v]. *)
Definition assigns (buf buf' : list Z) (s n : Z) (v : bool) : Prop :=
  zlen buf' = zlen buf /\ bytes_ok buf' /\
  forall j, 0 <= j -> bit buf' j = if between s n j then v else bit buf j.

Definition all_bits (buf : list Z) (s n : Z) (v : bool) : Prop :=
  forall j, s <= j < s + n -> bit buf j = v.

Definition set_bits (buf : list Z) (s n : Z) : Z := zcount (bit buf) s (Z.to_nat n).

Definition lowest_bit (x r : Z) : Prop :=
  0 <= r /\ Z.testbit x r = true /\ forall i, 0 <= i < r -> Z.testbit x i = false.

(** The longest run of clear bits among the lowest [n] bits of [b]: the current
    run [cur] and the best one so far. *)
Fixpoint longest_clear (n : nat) (b i cur best : Z) : Z :=
  match n with
  | O => best
  | S n => if Z.testbit b i then longest_clear n b (i + 1) 0 best
           else longest_clear n b (i + 1) (cur + 1) (Z.max best (cur + 1))
  end.

(** The number of clear bits below the lowest, and above the highest, set bit. *)
Fixpoint clear_from (n : nat) (b i d : Z) : Z :=
  match n with
  | O => 0
  | S n => if Z.testbit b i then 0 else 1 + clear_from n b (i + d) d
  end.

(** ** Bytes and bits *)

Lemma byte_ok buf i : bytes_ok buf -> 0 <= byte buf i < 256.
Proof.
  intros H. unfold byte. destruct (nth_in_or_default (Z.to_nat i) buf 0) as [Hin| ->]; [|lia].
  unfold bytes_ok in H. rewrite List.Forall_forall in H. auto.
Qed.

Lemma get_byte_in buf i : 0 <= i < zlen buf -> get_byte buf i = Some (byte buf i).
Proof.
  intros Hi. unfold get_byte, byte. destruct (Z.leb_spec 0 i); [|lia].
  destruct (lookup_lt_is_Some_2 buf (Z.to_nat i)) as [b Hb]; [unfold zlen in *; lia|].
  rewrite Hb. f_equal. symmetry. by apply nth_lookup_Some.
Qed.

Lemma get_byte_out buf i : i < 0 \/ zlen buf <= i -> get_byte buf i = None.
Proof.
  intros Hi. unfold get_byte. destruct (Z.leb_spec 0 i); [|done].
  apply lookup_ge_None. unfold zlen in *. lia.
Qed.

Lemma byte_insert buf i v k :
  0 <= i < zlen buf -> 0 <= k ->
  byte (<[Z.to_nat i := v]> buf) k = if k =? i then v else byte buf k.
Proof.
  intros Hi Hk. unfold byte, zlen in *. rewrite !nth_lookup.
  destruct (Z.eqb_spec k i) as [->|Hne].
  - rewrite list_lookup_insert_eq by lia. done.
  - rewrite list_lookup_insert_ne by lia. done.
Qed.

Lemma set_byte_in buf i v :
  0 <= i < zlen buf -> bytes_ok buf -> 0 <= v < 256 ->
  exists buf', set_byte buf i v = Some buf' /\ zlen buf' = zlen buf /\ bytes_ok buf' /\
    forall k, 0 <= k -> byte buf' k = if k =? i then v else byte buf k.
Proof.
  intros Hi Hb Hv. unfold set_byte. rewrite get_byte_in by done. cbn [mbind option_bind].
  eexists. split; [reflexivity|]. split; [unfold zlen; by rewrite length_insert|].
  split; [by apply Forall_insert|]. intros k Hk. by apply byte_insert.
Qed.

Lemma fill_bytes_in buf i n v :
  0 <= i -> 0 <= n -> i + n <= zlen buf -> bytes_ok buf -> 0 <= v < 256 ->
  exists buf', fill_bytes buf i n v = Some buf' /\ zlen buf' = zlen buf /\ bytes_ok buf' /\
    forall k, 0 <= k -> byte buf' k = if between i n k then v else byte buf k.
Proof.
  intros Hi Hn Hlen Hb Hv. unfold fill_bytes, zlen in *.
  replace ((0 <=? i) && (0 <=? n) && (i + n <=? Z.of_nat (length buf))) with true by lia.
  eexists. split; [reflexivity|]. split.
  { rewrite !length_app, length_take, length_replicate, length_drop. lia. }
  split.
  { apply Forall_app; split; [by apply Forall_take|]. apply Forall_app; split.
    - by apply Forall_replicate.
    - by apply Forall_drop. }
  intros k Hk. unfold byte, between. rewrite !nth_lookup.
  destruct (Z.leb_spec i k); [destruct (Z.ltb_spec k (i + n))|]; cbn [andb].
  - rewrite lookup_app_r by (rewrite length_take; lia).
    rewrite lookup_app_l by (rewrite length_take, length_replicate; lia).
    rewrite lookup_replicate_2 by (rewrite length_take; lia). done.
  - rewrite lookup_app_r by (rewrite length_take; lia).
    rewrite lookup_app_r by (rewrite length_take, length_replicate; lia).
    rewrite lookup_drop, length_take, length_replicate.
    f_equal. f_equal. lia.
  - rewrite lookup_app_l by (rewrite length_take; lia).
    rewrite lookup_take_lt by lia. done.
Qed.

(** *** Masks *)

Lemma FillMask_bit n i : 0 <= n <= 8 -> 0 <= i < 8 -> Z.testbit (tbl FillMask n) i = (i <? n).
Proof.
  intros Hn Hi.
  set (f := fun n => forallb (fun i => Bool.eqb (Z.testbit (tbl FillMask n) i) (i <? n)) (zrange 8)).
  assert (Hf : f n = true) by (apply (zrange_forallb 9); [vm_compute; reflexivity|lia]).
  apply eqb_prop. exact (zrange_forallb 8 _ i Hf Hi).
Qed.

Lemma ZeroMask_bit n i : 0 <= n <= 8 -> 0 <= i < 8 -> Z.testbit (tbl ZeroMask n) i = (n <=? i).
Proof.
  intros Hn Hi.
  set (f := fun n => forallb (fun i => Bool.eqb (Z.testbit (tbl ZeroMask n) i) (n <=? i)) (zrange 8)).
  assert (Hf : f n = true) by (apply (zrange_forallb 9); [vm_compute; reflexivity|lia]).
  apply eqb_prop. exact (zrange_forallb 8 _ i Hf Hi).
Qed.

Lemma masks_ok n : 0 <= n <= 8 -> 0 <= tbl FillMask n < 256 /\ 0 <= tbl ZeroMask n < 256.
Proof.
  intros Hn.
  set (f := fun n => (0 <=? tbl FillMask n) && (tbl FillMask n <? 256) &&
                     (0 <=? tbl ZeroMask n) && (tbl ZeroMask n <? 256)).
  assert (Hf : f n = true) by (apply (zrange_forallb 9); [vm_compute; reflexivity|lia]).
  unfold f in Hf. lia.
Qed.

Lemma u8_bit z i : 0 <= i < 8 -> Z.testbit (u8 z) i = Z.testbit z i.
Proof. intros. unfold uwrap. rewrite Z.mod_pow2_bits_low by lia. done. Qed.

Lemma byte_above b i : 0 <= b < 256 -> 8 <= i -> Z.testbit b i = false.
Proof.
  intros Hb Hi. rewrite <- (Z.mod_small b (2 ^ 8)) by lia. apply Z.mod_pow2_bits_high. lia.
Qed.

Lemma land_byte a b : 0 <= a < 256 -> 0 <= Z.land a b < 256.
Proof.
  intros Ha. assert (Z.land a b = u8 (Z.land a b)) as ->; [|apply (uwrap_range 8); lia].
  unfold uwrap. rewrite <- Z.land_ones by lia. rewrite <- Z.land_assoc, (Z.land_comm b), Z.land_assoc.
  rewrite Z.land_ones, Z.mod_small by lia. done.
Qed.

Lemma lor_byte a b : 0 <= a < 256 -> 0 <= b < 256 -> 0 <= Z.lor a b < 256.
Proof.
  intros Ha Hb. split; [apply Z.lor_nonneg; lia|].
  destruct (Z.eq_dec (Z.lor a b) 0) as [->|Hne]; [lia|].
  assert (0 < Z.lor a b) by (pose proof (proj2 (Z.lor_nonneg a b)); lia).
  apply (Z.log2_lt_pow2 _ 8); [done|]. rewrite Z.log2_lor by lia.
  apply Z.max_lub_lt.
  - destruct (Z.eq_dec a 0) as [->|]; [done|]. apply Z.log2_lt_pow2; lia.
  - destruct (Z.eq_dec b 0) as [->|]; [done|]. apply Z.log2_lt_pow2; lia.
Qed.

Lemma assigns_refl buf s v : bytes_ok buf -> assigns buf buf s 0 v.
Proof.
  intros. split; [done|]. split; [done|]. intros j Hj. unfold between.
  replace ((s <=? j) && (j <? s + 0)) with false by lia. done.
Qed.

Lemma assigns_app b0 b1 b2 s n1 s2 n2 v :
  assigns b0 b1 s n1 v -> assigns b1 b2 s2 n2 v -> s2 = s + n1 -> 0 <= n1 -> 0 <= n2 ->
  assigns b0 b2 s (n1 + n2) v.
Proof.
  intros (L1 & _ & H1) (L2 & B2 & H2) -> Hn1 Hn2. split; [congruence|]. split; [done|].
  intros j Hj. rewrite H2, H1 by done. unfold between.
  destruct (Z.leb_spec s j), (Z.ltb_spec j (s + n1)), (Z.leb_spec (s + n1) j),
    (Z.ltb_spec j (s + n1 + n2)), (Z.ltb_spec j (s + (n1 + n2))); cbn [andb]; done || lia.
Qed.

Lemma assigns_byte buf q w lo hi v :
  bytes_ok buf -> 0 <= q < zlen buf -> 0 <= lo <= hi -> hi <= 8 -> 0 <= w < 256 ->
  (forall i, 0 <= i < 8 ->
     Z.testbit w i = if between lo (hi - lo) i then v else Z.testbit (byte buf q) i) ->
  exists buf', set_byte buf q w = Some buf' /\ assigns buf buf' (8 * q + lo) (hi - lo) v.
Proof.
  intros Hb Hq Hlo Hhi Hw Hbits.
  destruct (set_byte_in buf q w Hq Hb Hw) as (buf' & E & Hl & Hb' & Hbyte).
  exists buf'. split; [done|]. split; [done|]. split; [done|]. intros j Hj.
  unfold bit. rewrite Hbyte by (apply Z.div_pos; lia).
  pose proof (Z.mod_pos_bound j 8 ltac:(lia)) as Hm.
  destruct (Z.eqb_spec (j / 8) q) as [Hjq|Hjq].
  - rewrite Hbits by done. unfold between.
    replace ((8 * q + lo <=? j) && (j <? 8 * q + lo + (hi - lo)))
      with ((lo <=? j mod 8) && (j mod 8 <? lo + (hi - lo))) by zdiv.
    by rewrite Hjq.
  - unfold between. replace ((8 * q + lo <=? j) && _) with false by zdiv. done.
Qed.

Lemma assigns_fill buf q n w v :
  bytes_ok buf -> 0 <= q -> 0 <= n -> q + n <= zlen buf -> 0 <= w < 256 ->
  (forall i, 0 <= i < 8 -> Z.testbit w i = v) ->
  exists buf', fill_bytes buf q n w = Some buf' /\ assigns buf buf' (8 * q) (8 * n) v.
Proof.
  intros Hb Hq Hn Hlen Hw Hbits.
  destruct (fill_bytes_in buf q n w Hq Hn Hlen Hb Hw) as (buf' & E & Hl & Hb' & Hbyte).
  exists buf'. split; [done|]. split; [done|]. split; [done|]. intros j Hj.
  unfold bit. rewrite Hbyte by (apply Z.div_pos; lia).
  pose proof (Z.mod_pos_bound j 8 ltac:(lia)) as Hm.
  unfold between.
  replace ((8 * q <=? j) && (j <? 8 * q + 8 * n)) with ((q <=? j / 8) && (j / 8 <? q + n)) by zdiv.
  destruct ((q <=? j / 8) && _); [by apply Hbits|done].
Qed.

(** The code of RtlSetBits and RtlClearBits is the same up to the three byte
    updates; [range_update] is that code, and the lemma its correctness. *)
Section RangeUpdate.
Variables (upd_one : Z -> Z -> Z -> Z) (upd_head upd_tail : Z -> Z -> Z) (whole : Z) (v : bool).
Hypothesis whole_ok : 0 <= whole < 256 /\ forall i, 0 <= i < 8 -> Z.testbit whole i = v.
Hypothesis one_ok : forall b off n, 0 <= b < 256 -> 0 <= off -> 0 <= n -> off + n <= 8 ->
  0 <= upd_one b off n < 256 /\ forall i, 0 <= i < 8 ->
    Z.testbit (upd_one b off n) i = if between off n i then v else Z.testbit b i.
Hypothesis head_ok : forall b off, 0 <= b < 256 -> 0 <= off <= 8 ->
  0 <= upd_head b off < 256 /\ forall i, 0 <= i < 8 ->
    Z.testbit (upd_head b off) i = if between off (8 - off) i then v else Z.testbit b i.
Hypothesis tail_ok : forall b n, 0 <= b < 256 -> 0 <= n <= 8 ->
  0 <= upd_tail b n < 256 /\ forall i, 0 <= i < 8 ->
    Z.testbit (upd_tail b n) i = if between 0 n i then v else Z.testbit b i.

Definition range_update (bm : RTL_BITMAP) (s n : Z) : option RTL_BITMAP :=
  if n =? 0 then Some bm
  else
    let q := s / 8 in
    let off := s mod 8 in
    if u32 (off + n) <=? 8 then
      b ← get_byte (Buffer bm) q;
      buf ← set_byte (Buffer bm) q (upd_one b off n);
      Some (with_Buffer bm buf)
    else
      '(buf, q, n) ←
        (if off >? 0 then
           b ← get_byte (Buffer bm) q;
           buf ← set_byte (Buffer bm) q (upd_head b off);
           Some (buf, q + 1, u32 (n - (8 - off)))
         else Some (Buffer bm, q, n));
      '(buf, q, n) ←
        (if n >? 8 then
           buf ← fill_bytes buf q (n / 8) whole;
           Some (buf, q + n / 8, n mod 8)
         else Some (buf, q, n));
      if n >? 0 then
        b ← get_byte buf q;
        buf ← set_byte buf q (upd_tail b n);
        Some (with_Buffer bm buf)
      else Some (with_Buffer bm buf).

(** The last partial byte. *)
Lemma range_update_tail bm buf q n :
  bytes_ok buf -> 0 <= q -> 0 <= n <= 8 -> 8 * q + n <= 8 * zlen buf ->
  exists buf', (if n >? 0 then b ← get_byte buf q; buf ← set_byte buf q (upd_tail b n);
                               Some (with_Buffer bm buf)
                else Some (with_Buffer bm buf)) = Some (with_Buffer bm buf') /\
    assigns buf buf' (8 * q) n v.
Proof.
  intros Hb Hq Hn Hlen. destruct (Z.gtb_spec n 0).
  - rewrite get_byte_in by lia. cbn [mbind option_bind].
    destruct (tail_ok (byte buf q) n (byte_ok buf q Hb) Hn) as [Hw Hbits].
    destruct (assigns_byte buf q (upd_tail (byte buf q) n) 0 n v) as (buf' & -> & Ha);
      [done|lia|lia|lia|done|by rewrite Z.sub_0_r|].
    exists buf'. split; [done|]. rewrite Z.sub_0_r, Z.add_0_r in Ha. done.
  - assert (n = 0) as -> by lia. exists buf. split; [done|]. by apply assigns_refl.
Qed.

(** The whole bytes and the last partial byte. *)
Lemma range_update_rest bm buf q n :
  bytes_ok buf -> 0 <= q -> 0 <= n -> 8 * q + n <= 8 * zlen buf ->
  exists buf',
    ('(buf, q, n) ←
        (if n >? 8 then
           buf ← fill_bytes buf q (n / 8) whole;
           Some (buf, q + n / 8, n mod 8)
         else Some (buf, q, n));
      if n >? 0 then
        b ← get_byte buf q;
        buf ← set_byte buf q (upd_tail b n);
        Some (with_Buffer bm buf)
      else Some (with_Buffer bm buf)) = Some (with_Buffer bm buf') /\
    assigns buf buf' (8 * q) n v.
Proof.
  intros Hb Hq Hn Hlen. destruct whole_ok as [Hw Hwb]. destruct (Z.gtb_spec n 8).
  - destruct (assigns_fill buf q (n / 8) whole v) as (b1 & -> & H1); [done|lia|zdiv|zdiv|done|done|].
    cbn [mbind option_bind]. pose proof H1 as (L1 & B1 & _).
    destruct (range_update_tail bm b1 (q + n / 8) (n mod 8)) as (b2 & E & H2); [done|zdiv|zdiv|zdiv|].
    exists b2. split; [exact E|].
    replace n with (8 * (n / 8) + n mod 8) by zdiv.
    eapply assigns_app; [exact H1|exact H2|zdiv|zdiv|zdiv].
  - cbn [mbind option_bind]. apply range_update_tail; lia || done.
Qed.

Lemma range_update_ok bm s n :
  bitmap_ok bm -> 0 <= s -> 0 <= n -> s + n <= SizeOfBitMap bm ->
  exists buf', range_update bm s n = Some (with_Buffer bm buf') /\
    assigns (Buffer bm) buf' s n v.
Proof.
  intros [Hsz Hb Hwd Hcov] Hs Hn Hle. unfold range_update.
  destruct (Z.eqb_spec n 0) as [->|Hn0].
  { exists (Buffer bm). split; [by destruct bm|]. by apply assigns_refl. }
  cbv zeta. remember (s / 8) as q eqn:Hq. remember (s mod 8) as off eqn:Hoff.
  assert (Hs8 : s = 8 * q + off /\ 0 <= off < 8) by zdiv. clear Hq Hoff.
  rewrite u32_small by lia.
  destruct (Z.leb_spec (off + n) 8).
  - rewrite get_byte_in by lia. cbn [mbind option_bind].
    destruct (one_ok (byte (Buffer bm) q) off n) as [Hw Hbits]; [by apply byte_ok|lia|lia|lia|].
    destruct (assigns_byte (Buffer bm) q _ off (off + n) v Hb ltac:(lia) ltac:(lia) ltac:(lia) Hw)
      as (buf' & -> & Ha); [by replace (off + n - off) with n by lia|].
    exists buf'. split; [done|].
    replace (off + n - off) with n in Ha by lia. by replace s with (8 * q + off) by lia.
  - destruct (Z.gtb_spec off 0).
    + rewrite get_byte_in by lia. cbn [mbind option_bind].
      destruct (head_ok (byte (Buffer bm) q) off) as [Hw Hbits]; [by apply byte_ok|lia|].
      destruct (assigns_byte (Buffer bm) q _ off 8 v Hb ltac:(lia) ltac:(lia) ltac:(lia) Hw Hbits)
        as (b1 & -> & H1).
      cbn [mbind option_bind]. pose proof H1 as (L1 & B1 & _).
      rewrite u32_small by lia.
      destruct (range_update_rest bm b1 (q + 1) (n - (8 - off))) as (b2 & E & H2); [done|lia|lia|lia|].
      exists b2. split; [exact E|].
      replace n with ((8 - off) + (n - (8 - off))) by lia.
      eapply assigns_app; [|exact H2|lia|lia|lia]. by replace s with (8 * q + off) by lia.
    + assert (off = 0) as -> by lia. cbn [mbind option_bind].
      destruct (range_update_rest bm (Buffer bm) q n) as (b2 & E & H2); [done|lia|lia|lia|].
      exists b2. split; [exact E|]. by replace s with (8 * q) by lia.
Qed.
End RangeUpdate.

Ltac bit_cases :=
  unfold between;
  repeat match goal with
  | |- context [?a <=? ?b] => destruct (Z.leb_spec a b)
  | |- context [?a <? ?b] => destruct (Z.ltb_spec a b)
  end; cbn [andb orb negb]; try lia.

Lemma FillMask_shift_bit n off i :
  0 <= n -> 0 <= off -> off + n <= 8 -> 0 <= i < 8 ->
  Z.testbit (u8 (Z.shiftl (tbl FillMask n) off)) i = between off n i.
Proof.
  intros. rewrite u8_bit, Z.shiftl_spec by lia.
  destruct (Z.lt_ge_cases i off); [rewrite Z.testbit_neg_r by lia; by bit_cases|].
  rewrite FillMask_bit by lia. by bit_cases.
Qed.

Lemma FillMask_shift_not_bit n off i :
  0 <= n -> 0 <= off -> off + n <= 8 -> 0 <= i < 8 ->
  Z.testbit (u8 (Z.lnot (Z.shiftl (tbl FillMask n) off))) i = negb (between off n i).
Proof.
  intros. rewrite u8_bit, Z.lnot_spec by lia. f_equal.
  rewrite <- (FillMask_shift_bit n off i), u8_bit by lia. done.
Qed.

Lemma RtlSetBits_ok bm s n :
  bitmap_ok bm -> 0 <= s -> 0 <= n -> s + n <= SizeOfBitMap bm ->
  exists buf', RtlSetBits bm s n = Some (with_Buffer bm buf') /\ assigns (Buffer bm) buf' s n true.
Proof.
  apply (range_update_ok (fun b off n => Z.lor b (u8 (Z.shiftl (tbl FillMask n) off)))
    (fun b off => Z.lor b (tbl ZeroMask off)) (fun b n => Z.lor b (tbl FillMask n)) 0xff true).
  - split; [lia|]. intros i Hi. apply (zrange_forallb 8 (Z.testbit 255)); [vm_compute; reflexivity|done].
  - intros b off k Hb Hoff Hk Hle. split; [apply lor_byte; [done|apply (uwrap_range 8); lia]|].
    intros i Hi. rewrite Z.lor_spec, FillMask_shift_bit by lia. by destruct (between _ _ _), (Z.testbit b i).
  - intros b off Hb Hoff. split; [apply lor_byte; [done|by apply masks_ok]|].
    intros i Hi. rewrite Z.lor_spec, ZeroMask_bit by lia. destruct (Z.testbit b i); by bit_cases.
  - intros b k Hb Hk. split; [apply lor_byte; [done|by apply masks_ok]|].
    intros i Hi. rewrite Z.lor_spec, FillMask_bit by lia. destruct (Z.testbit b i); by bit_cases.
Qed.

Lemma RtlClearBits_ok bm s n :
  bitmap_ok bm -> 0 <= s -> 0 <= n -> s + n <= SizeOfBitMap bm ->
  exists buf', RtlClearBits bm s n = Some (with_Buffer bm buf') /\ assigns (Buffer bm) buf' s n false.
Proof.
  apply (range_update_ok (fun b off n => Z.land b (u8 (Z.lnot (Z.shiftl (tbl FillMask n) off))))
    (fun b off => Z.land b (tbl FillMask off)) (fun b n => Z.land b (tbl ZeroMask n)) 0 false).
  - split; [lia|]. intros i Hi. apply Z.bits_0.
  - intros b off k Hb Hoff Hk Hle. split; [by apply land_byte|].
    intros i Hi. rewrite Z.land_spec, FillMask_shift_not_bit by lia.
    by destruct (between _ _ _), (Z.testbit b i).
  - intros b off Hb Hoff. split; [by apply land_byte|].
    intros i Hi. rewrite Z.land_spec, FillMask_bit by lia. destruct (Z.testbit b i); by bit_cases.
  - intros b k Hb Hk. split; [by apply land_byte|].
    intros i Hi. rewrite Z.land_spec, ZeroMask_bit by lia. destruct (Z.testbit b i); by bit_cases.
Qed.

(** *** Single bits *)

Lemma bit_index n : 0 <= n -> Z.shiftr n 3 = n / 8 /\ Z.land n 0x7 = n mod 8.
Proof.
  intros. split; [by rewrite Z.shiftr_div_pow2|].
  change 7 with (Z.ones 3). by rewrite Z.land_ones.
Qed.

Lemma RtlSetBit_ok bm n :
  bitmap_ok bm -> 0 <= n < SizeOfBitMap bm ->
  exists buf', RtlSetBit bm n = Some (with_Buffer bm buf') /\ assigns (Buffer bm) buf' n 1 true.
Proof.
  intros [Hsz Hb Hwd Hcov] Hn. unfold RtlSetBit.
  destruct (bit_index n) as [-> ->]; [lia|].
  rewrite get_byte_in by zdiv. cbn [mbind option_bind].
  change (Z.shiftl 1 (n mod 8)) with (Z.shiftl (tbl FillMask 1) (n mod 8)).
  destruct (assigns_byte (Buffer bm) (n / 8)
    (Z.lor (byte (Buffer bm) (n / 8)) (u8 (Z.shiftl (tbl FillMask 1) (n mod 8))))
    (n mod 8) (n mod 8 + 1) true) as (buf' & -> & Ha).
  { done. } { zdiv. } { zdiv. } { zdiv. }
  { apply lor_byte; [by apply byte_ok|apply (uwrap_range 8); lia]. }
  { intros i Hi. rewrite Z.lor_spec, FillMask_shift_bit, Z.add_simpl_l by zdiv.
    by destruct (between _ _ _), (Z.testbit _ i). }
  exists buf'. split; [done|]. rewrite Z.add_simpl_l in Ha.
  by replace (8 * (n / 8) + n mod 8) with n in Ha by zdiv.
Qed.

Lemma RtlClearBit_ok bm n :
  bitmap_ok bm -> 0 <= n < SizeOfBitMap bm ->
  exists buf', RtlClearBit bm n = Some (with_Buffer bm buf') /\ assigns (Buffer bm) buf' n 1 false.
Proof.
  intros [Hsz Hb Hwd Hcov] Hn. unfold RtlClearBit.
  destruct (bit_index n) as [-> ->]; [lia|].
  rewrite get_byte_in by zdiv. cbn [mbind option_bind].
  change (Z.shiftl 1 (n mod 8)) with (Z.shiftl (tbl FillMask 1) (n mod 8)).
  destruct (assigns_byte (Buffer bm) (n / 8)
    (Z.land (byte (Buffer bm) (n / 8)) (u8 (Z.lnot (Z.shiftl (tbl FillMask 1) (n mod 8)))))
    (n mod 8) (n mod 8 + 1) false) as (buf' & -> & Ha).
  { done. } { zdiv. } { zdiv. } { zdiv. }
  { apply land_byte. by apply byte_ok. }
  { intros i Hi. rewrite Z.land_spec, FillMask_shift_not_bit, Z.add_simpl_l by zdiv.
    by destruct (between _ _ _), (Z.testbit _ i). }
  exists buf'. split; [done|]. rewrite Z.add_simpl_l in Ha.
  by replace (8 * (n / 8) + n mod 8) with n in Ha by zdiv.
Qed.

Lemma RtlTestBit_ok bm n :
  bitmap_ok bm -> 0 <= n < SizeOfBitMap bm -> RtlTestBit bm n = Some (bit (Buffer bm) n).
Proof.
  intros [Hsz Hb Hwd Hcov] Hn. unfold RtlTestBit.
  destruct (bit_index n) as [-> ->]; [lia|].
  rewrite get_byte_in by zdiv. cbn [mbind option_bind]. f_equal. unfold bit.
  set (x := byte _ _). change 1 with (Z.ones 1) at 1.
  rewrite Z.land_ones, <- Z.bit0_mod, Z.shiftr_spec, Z.add_0_l by lia.
  by destruct (Z.testbit x (n mod 8)).
Qed.

Lemma fill_all_ok bm w v :
  bitmap_ok bm -> 0 <= w < 256 -> (forall i, 0 <= i < 8 -> Z.testbit w i = v) ->
  exists buf', fill_bytes (Buffer bm) 0 (u32 (SizeOfBitMap bm + 31) / 32 * 4) w = Some buf' /\
    assigns (Buffer bm) buf' 0 ((SizeOfBitMap bm + 31) / 32 * 32) v.
Proof.
  intros [Hsz Hb Hwd Hcov] Hw Hbits. rewrite u32_small by lia.
  destruct (assigns_fill (Buffer bm) 0 ((SizeOfBitMap bm + 31) / 32 * 4) w v)
    as (buf' & E & Ha); [done|lia|zdiv|zdiv|done|done|].
  exists buf'. split; [done|]. rewrite Z.mul_0_r in Ha.
  by replace (8 * ((SizeOfBitMap bm + 31) / 32 * 4)) with ((SizeOfBitMap bm + 31) / 32 * 32) in Ha by lia.
Qed.

(** *** Testing a range *)

Lemma mask_zero m x :
  0 <= m < 256 ->
  (Z.land m x =? 0) = true <->
  (forall i, 0 <= i < 8 -> Z.testbit m i = true -> Z.testbit x i = false).
Proof.
  intros Hm. rewrite Z.eqb_eq. split.
  - intros E i Hi Hmi. assert (Z.testbit (Z.land m x) i = false) as H by (rewrite E; apply Z.bits_0).
    rewrite Z.land_spec, Hmi in H. done.
  - intros H. apply Z.bits_inj'. intros i Hi. rewrite Z.bits_0, Z.land_spec.
    destruct (Z.lt_ge_cases i 8); [|by rewrite byte_above].
    destruct (Z.testbit m i) eqn:E; [|done]. by rewrite (H i).
Qed.

Lemma byte_whole b (v : bool) :
  0 <= b < 256 ->
  (b =? if v then 0xff else 0) = true <-> (forall i, 0 <= i < 8 -> Z.testbit b i = v).
Proof.
  intros Hb. rewrite Z.eqb_eq. split.
  - intros -> i Hi. destruct v; [|apply Z.bits_0].
    apply (zrange_forallb 8 (Z.testbit 255)); [vm_compute; reflexivity|done].
  - intros H. apply Z.bits_inj'. intros i Hi.
    destruct (Z.lt_ge_cases i 8).
    + rewrite H by lia. destruct v; [|by rewrite Z.bits_0].
      symmetry. apply (zrange_forallb 8 (Z.testbit 255)); [vm_compute; reflexivity|lia].
    + rewrite byte_above by lia. symmetry. apply byte_above; [destruct v; lia|lia].
Qed.

Lemma all_bits_byte buf q lo hi v :
  0 <= q -> 0 <= lo -> hi <= 8 ->
  all_bits buf (8 * q + lo) (hi - lo) v <->
  (forall i, 0 <= i < 8 -> lo <= i < hi -> Z.testbit (byte buf q) i = v).
Proof.
  intros Hq Hlo Hhi. unfold all_bits, bit. split.
  - intros H i Hi Hr. specialize (H (8 * q + i) ltac:(lia)).
    replace ((8 * q + i) / 8) with q in H by zdiv.
    by replace ((8 * q + i) mod 8) with i in H by zdiv.
  - intros H j Hj. replace (j / 8) with q by zdiv. apply H; zdiv.
Qed.

Lemma all_bits_app buf s n1 n2 v :
  0 <= n1 -> 0 <= n2 ->
  all_bits buf s (n1 + n2) v <-> all_bits buf s n1 v /\ all_bits buf (s + n1) n2 v.
Proof.
  intros H1 H2. unfold all_bits. split.
  - intros H. split; intros j Hj; apply H; lia.
  - intros [Ha Hb] j Hj. destruct (Z.lt_ge_cases j (s + n1)); [apply Ha|apply Hb]; lia.
Qed.

Lemma bytes_all_ok buf i n (v : bool) :
  bytes_ok buf -> 0 <= i -> i + Z.of_nat n <= zlen buf ->
  exists r, bytes_all buf i n (if v then 0xff else 0) = Some r /\
    (r = true <-> all_bits buf (8 * i) (8 * Z.of_nat n) v).
Proof.
  intros Hb. revert i. induction n as [|n IH]; intros i Hi Hlen; cbn [bytes_all].
  { exists true. split; [done|]. split; [|done]. intros _ j Hj. lia. }
  rewrite get_byte_in by lia. cbn [mbind option_bind].
  pose proof (byte_whole (byte buf i) v (byte_ok buf i Hb)) as Hw.
  pose proof (all_bits_byte buf i 0 8 v Hi ltac:(lia) ltac:(lia)) as Hab.
  rewrite Z.add_0_r, Z.sub_0_r in Hab.
  replace (8 * Z.of_nat (S n)) with (8 + 8 * Z.of_nat n) by lia.
  destruct (byte buf i =? _) eqn:E.
  - destruct (IH (i + 1)) as (r & -> & Hr); [lia|lia|].
    exists r. split; [done|]. rewrite Hr, all_bits_app by lia.
    replace (8 * (i + 1)) with (8 * i + 8) by lia.
    rewrite Hab. intuition.
  - exists false. split; [done|]. split; [done|]. rewrite all_bits_app by lia.
    intros [Ha _]. apply Hw. intros j Hj. apply (proj1 Hab Ha); lia.
Qed.

(** RtlAreBitsClear and RtlAreBitsSet are the same code up to the complement
    of the bytes and the value of a whole byte. *)
Section RangeTest.
Variables (flip : Z -> Z) (v : bool).
Hypothesis flip_bit : forall b i, 0 <= i -> Z.testbit (flip b) i = xorb v (Z.testbit b i).

Definition range_test (bm : RTL_BITMAP) (StartingIndex Length : Z) : option bool :=
  if (u32 (StartingIndex + Length) >? SizeOfBitMap bm) || (Length =? 0) then Some false
  else
    let EndingIndex := u32 (u32 (StartingIndex + Length) - 1) in
    let StartingByte := StartingIndex / 8 in
    let EndingByte := EndingIndex / 8 in
    let StartingOffset := StartingIndex mod 8 in
    let EndingOffset := EndingIndex mod 8 in
    if StartingByte =? EndingByte then
      b ← get_byte (Buffer bm) StartingByte;
      Some (Z.land (Z.land (tbl ZeroMask StartingOffset) (tbl FillMask (EndingOffset + 1)))
                   (flip b) =? 0)
    else
      b ← get_byte (Buffer bm) StartingByte;
      if negb (Z.land (tbl ZeroMask StartingOffset) (flip b) =? 0) then Some false
      else
        middle ← bytes_all (Buffer bm) (StartingByte + 1)
                   (Z.to_nat (EndingByte - (StartingByte + 1))) (if v then 0xff else 0);
        if negb middle then Some false
        else
          b ← get_byte (Buffer bm) (Z.max (StartingByte + 1) EndingByte);
          Some (Z.land (tbl FillMask (EndingOffset + 1)) (flip b) =? 0).

Lemma masked_test m x buf q lo hi :
  0 <= m < 256 -> x = flip (byte buf q) -> 0 <= q -> 0 <= lo -> hi <= 8 ->
  (forall i, 0 <= i < 8 -> Z.testbit m i = (lo <=? i) && (i <? hi)) ->
  (Z.land m x =? 0) = true <-> all_bits buf (8 * q + lo) (hi - lo) v.
Proof.
  intros Hm -> Hq Hlo Hhi Hbits. rewrite mask_zero, all_bits_byte by done. split.
  - intros H i Hi Hr. specialize (H i Hi). rewrite flip_bit in H by lia.
    rewrite Hbits in H by done. specialize (H ltac:(lia)).
    by destruct v, (Z.testbit _ i).
  - intros H i Hi Hmi. rewrite Hbits in Hmi by done. rewrite flip_bit by lia.
    rewrite H by lia. by destruct v.
Qed.

Lemma range_test_ok bm s n :
  bitmap_ok bm -> 0 <= s -> 0 <= n -> s + n < 2 ^ 32 ->
  exists r, range_test bm s n = Some r /\
    (r = true <-> (0 < n /\ s + n <= SizeOfBitMap bm /\ all_bits (Buffer bm) s n v)).
Proof.
  intros [Hsz Hb Hwd Hcov] Hs Hn Hlt. unfold range_test. rewrite (u32_small (s + n)) by lia.
  destruct ((s + n >? SizeOfBitMap bm) || (n =? 0)) eqn:Eg.
  { exists false. split; [done|]. split; [done|]. lia. }
  rewrite u32_small by lia. cbv zeta.
  remember (s / 8) as q eqn:Hq. remember (s mod 8) as off eqn:Hoff.
  assert (Hs8 : s = 8 * q + off /\ 0 <= off < 8) by zdiv. clear Hq Hoff.
  remember ((s + n - 1) / 8) as q' eqn:Hq. remember ((s + n - 1) mod 8) as off' eqn:Hoff.
  assert (He8 : s + n - 1 = 8 * q' + off' /\ 0 <= off' < 8) by zdiv. clear Hq Hoff.
  destruct (masks_ok off ltac:(lia)) as [_ Hz]. destruct (masks_ok (off' + 1) ltac:(lia)) as [Hf _].
  destruct (Z.eqb_spec q q') as [<-|Hne].
  - rewrite get_byte_in by lia. cbn [mbind option_bind]. eexists. split; [reflexivity|].
    rewrite (masked_test _ _ (Buffer bm) q off (off' + 1)); try done; try lia.
    + replace (off' + 1 - off) with n by lia. replace (8 * q + off) with s by lia. intuition lia.
    + by apply land_byte.
    + intros i Hi. rewrite Z.land_spec, ZeroMask_bit, FillMask_bit by lia. done.
  - assert (q < q') by lia.
    rewrite (get_byte_in _ q) by lia. cbn [mbind option_bind].
    pose proof (masked_test (tbl ZeroMask off) _ (Buffer bm) q off 8 Hz eq_refl ltac:(lia) ltac:(lia)
      ltac:(lia)) as Hhead.
    specialize (Hhead ltac:(intros i Hi; rewrite ZeroMask_bit by lia; lia)).
    pose proof (masked_test (tbl FillMask (off' + 1)) _ (Buffer bm) q' 0 (off' + 1) Hf eq_refl
      ltac:(lia) ltac:(lia) ltac:(lia)) as Htail.
    specialize (Htail ltac:(intros i Hi; rewrite FillMask_bit by lia; lia)).
    assert (Hsplit : all_bits (Buffer bm) s n v <->
      all_bits (Buffer bm) (8 * q + off) (8 - off) v /\
      all_bits (Buffer bm) (8 * (q + 1)) (8 * (q' - (q + 1))) v /\
      all_bits (Buffer bm) (8 * q' + 0) (off' + 1 - 0) v).
    { replace n with ((8 - off) + (8 * (q' - (q + 1)) + (off' + 1 - 0))) by lia.
      rewrite all_bits_app, all_bits_app by lia.
      replace (s + (8 - off)) with (8 * (q + 1)) by lia.
      replace (8 * (q + 1) + 8 * (q' - (q + 1))) with (8 * q' + 0) by lia.
      by replace s with (8 * q + off) by lia. }
    destruct (Z.land (tbl ZeroMask off) (flip (byte (Buffer bm) q)) =? 0) eqn:E1; cbv beta;
      rewrite ?E1; cbn [negb].
    + destruct (bytes_all_ok (Buffer bm) (q + 1) (Z.to_nat (q' - (q + 1))) v) as (r & -> & Hr);
        [done|lia|lia|].
      rewrite Z2Nat.id in Hr by lia. cbn [mbind option_bind].
      destruct r; cbn [negb].
      * rewrite Z.max_r, get_byte_in by lia. cbn [mbind option_bind].
        eexists. split; [reflexivity|]. rewrite Hsplit, Htail. intuition lia.
      * exists false. split; [done|]. rewrite Hsplit. intuition congruence.
    + exists false. split; [done|]. rewrite Hsplit. intuition congruence.
Qed.
End RangeTest.

Lemma RtlAreBitsClear_ok bm s n :
  bitmap_ok bm -> 0 <= s -> 0 <= n -> s + n < 2 ^ 32 ->
  exists r, RtlAreBitsClear bm s n = Some r /\
    (r = true <-> (0 < n /\ s + n <= SizeOfBitMap bm /\ all_bits (Buffer bm) s n false)).
Proof.
  apply (range_test_ok (fun b => b) false). intros b i _. by destruct (Z.testbit b i).
Qed.

Lemma RtlAreBitsSet_ok bm s n :
  bitmap_ok bm -> 0 <= s -> 0 <= n -> s + n < 2 ^ 32 ->
  exists r, RtlAreBitsSet bm s n = Some r /\
    (r = true <-> (0 < n /\ s + n <= SizeOfBitMap bm /\ all_bits (Buffer bm) s n true)).
Proof.
  apply (range_test_ok Z.lnot true). intros b i Hi. rewrite Z.lnot_spec by done. reflexivity.
Qed.

(** *** Words *)

Lemma lor_shift_bit a b k i :
  0 <= a < 2 ^ k -> 0 <= k -> 0 <= i ->
  Z.testbit (Z.lor a (Z.shiftl b k)) i = if i <? k then Z.testbit a i else Z.testbit b (i - k).
Proof.
  intros Ha Hk Hi. rewrite Z.lor_spec, Z.shiftl_spec by lia.
  destruct (Z.ltb_spec i k).
  - rewrite (Z.testbit_neg_r b) by lia. apply orb_false_r.
  - rewrite <- (Z.mod_small a (2 ^ k)) by lia. rewrite Z.mod_pow2_bits_high by lia. done.
Qed.

Lemma get_ulong_in buf k :
  bytes_ok buf -> 0 <= k -> 4 * k + 4 <= zlen buf ->
  exists c, get_ulong buf k = Some c /\ 0 <= c < 2 ^ 32 /\
    (forall i, 0 <= i < 32 -> Z.testbit c i = bit buf (32 * k + i)).
Proof.
  intros Hb Hk Hlen. unfold get_ulong. rewrite !get_byte_in by lia. cbn [mbind option_bind].
  eexists. split; [reflexivity|].
  assert (HB : forall i, 0 <= byte buf i < 2 ^ 8) by (intros; by apply byte_ok).
  set (b := byte buf) in *.
  assert (Hbits : forall i, 0 <= i ->
    Z.testbit (Z.lor (b (4 * k)) (Z.lor (Z.shiftl (b (4 * k + 1)) 8)
      (Z.lor (Z.shiftl (b (4 * k + 2)) 16) (Z.shiftl (b (4 * k + 3)) 24)))) i =
    if i <? 32 then Z.testbit (b (4 * k + i / 8)) (i mod 8) else false).
  { intros i Hi.
    replace 16 with (8 + 8) by lia. replace 24 with (8 + 8 + 8) by lia.
    rewrite <- !Z.shiftl_shiftl, <- !Z.shiftl_lor by lia.
    rewrite lor_shift_bit by (done || lia). destruct (Z.ltb_spec i 8).
    { replace (i / 8) with 0 by zdiv. replace (i mod 8) with i by zdiv.
      destruct (Z.ltb_spec i 32); [by rewrite Z.add_0_r|lia]. }
    rewrite lor_shift_bit by (done || lia). destruct (Z.ltb_spec (i - 8) 8).
    { replace (i / 8) with 1 by zdiv. replace (i mod 8) with (i - 8) by zdiv.
      destruct (Z.ltb_spec i 32); [done|lia]. }
    rewrite lor_shift_bit by (done || lia). destruct (Z.ltb_spec (i - 8 - 8) 8).
    { replace (i / 8) with 2 by zdiv. replace (i mod 8) with (i - 8 - 8) by zdiv.
      destruct (Z.ltb_spec i 32); [done|lia]. }
    destruct (Z.ltb_spec i 32).
    - replace (i / 8) with 3 by zdiv. by replace (i mod 8) with (i - 8 - 8 - 8) by zdiv.
    - apply byte_above; [apply HB|lia]. }
  split.
  - apply Z_bits_bound; [lia|]. intros i Hi. rewrite Hbits by lia.
    destruct (Z.ltb_spec i 32); [lia|done].
  - intros i Hi. rewrite Hbits by lia. destruct (Z.ltb_spec i 32); [|lia]. unfold bit.
    replace ((32 * k + i) / 8) with (4 * k + i / 8) by zdiv.
    by replace ((32 * k + i) mod 8) with (i mod 8) by zdiv.
Qed.

(** *** Counting *)

Lemma byte_count b :
  0 <= b < 256 -> RtlpBitsSetTotal b = zcount (Z.testbit b) 0 8.
Proof.
  intros Hb. apply Z.eqb_eq.
  apply (zrange_forallb 256 (fun b => RtlpBitsSetTotal b =? zcount (Z.testbit b) 0 8));
    [vm_compute; reflexivity|done].
Qed.

Lemma byte_set_bits buf q :
  bytes_ok buf -> 0 <= q -> RtlpBitsSetTotal (byte buf q) = set_bits buf (8 * q) 8.
Proof.
  intros Hb Hq. rewrite byte_count by (by apply byte_ok). unfold set_bits.
  apply zcount_shift. intros i Hi. unfold bit.
  replace ((8 * q + i) / 8) with q by zdiv. by replace ((8 * q + i) mod 8) with i by zdiv.
Qed.

Lemma set_bits_app buf s n m :
  0 <= n -> 0 <= m -> set_bits buf s (n + m) = set_bits buf s n + set_bits buf (s + n) m.
Proof.
  intros. unfold set_bits. rewrite Z2Nat.inj_add, zcount_app by lia. by rewrite Z2Nat.id by lia.
Qed.

Lemma set_bits_bound buf s n : 0 <= n -> 0 <= set_bits buf s n <= n.
Proof. intros. pose proof (zcount_bound (bit buf) s (Z.to_nat n)). unfold set_bits. lia. Qed.

Lemma chunk_byte c b i :
  0 <= b < 256 -> 0 <= i < 4 -> (forall j, 0 <= j < 8 -> Z.testbit c (8 * i + j) = Z.testbit b j) ->
  u8 (Z.shiftr (u32 (Z.lnot c)) (8 * i)) = Z.land (Z.lnot b) 0xFF.
Proof.
  intros Hb Hi Hc. change 255 with (Z.ones 8). rewrite Z.land_ones by lia. unfold uwrap.
  apply Z.bits_inj'. intros j Hj. destruct (Z.lt_ge_cases j 8).
  - rewrite !Z.mod_pow2_bits_low, Z.shiftr_spec, Z.mod_pow2_bits_low, !Z.lnot_spec by lia.
    by rewrite Z.add_comm, Hc by lia.
  - by rewrite !Z.mod_pow2_bits_high by lia.
Qed.

Lemma chunk_count buf k c :
  bytes_ok buf -> 0 <= k -> 0 <= c < 2 ^ 32 ->
  (forall i, 0 <= i < 32 -> Z.testbit c i = bit buf (32 * k + i)) ->
  RtlpNumberOfSetBitsInChunk c = set_bits buf (32 * k) 32.
Proof.
  intros Hb Hk Hc Hbits.
  assert (Hbyte : forall i, 0 <= i < 4 ->
    tbl RtlpBitsClearTotal (u8 (Z.shiftr (u32 (Z.lnot c)) (8 * i))) = set_bits buf (8 * (4 * k + i)) 8).
  { intros i Hi. rewrite <- byte_set_bits by (done || lia).
    rewrite (chunk_byte _ (byte buf (4 * k + i))); [done|by apply byte_ok|done|].
    intros j Hj. rewrite Hbits by lia. unfold bit.
    replace ((32 * k + (8 * i + j)) / 8) with (4 * k + i) by zdiv.
    by replace ((32 * k + (8 * i + j)) mod 8) with j by zdiv. }
  unfold RtlpNumberOfSetBitsInChunk. rewrite !Z.shiftr_shiftr by lia.
  pose proof (Hbyte 0 ltac:(lia)) as H0. rewrite Z.mul_0_r, Z.shiftr_0_r in H0.
  pose proof (Hbyte 1 ltac:(lia)) as H1. pose proof (Hbyte 2 ltac:(lia)) as H2.
  pose proof (Hbyte 3 ltac:(lia)) as H3.
  change (8 * 1) with 8 in H1. change (8 * 2) with (8 + 8) in H2. change (8 * 3) with (8 + 8 + 8) in H3.
  rewrite (uwrap_small 8 (Z.shiftr _ (8 + 8 + 8))) in H3
    by (rewrite Z.shiftr_div_pow2 by lia; unfold uwrap; zdiv).
  rewrite H0, H1, H2, H3.
  pose proof (fun i => set_bits_bound buf (8 * (4 * k + i)) 8 ltac:(lia)) as Hbd.
  pose proof (Hbd 0). pose proof (Hbd 1). pose proof (Hbd 2). pose proof (Hbd 3).
  set (a0 := set_bits buf (8 * (4 * k + 0)) 8) in *. set (a1 := set_bits buf (8 * (4 * k + 1)) 8) in *.
  set (a2 := set_bits buf (8 * (4 * k + 2)) 8) in *. set (a3 := set_bits buf (8 * (4 * k + 3)) 8) in *.
  rewrite (uwrap_small 8 a0), (uwrap_small 8 (a0 + a1)), (uwrap_small 8 (a0 + a1 + a2)),
    (uwrap_small 8) by lia. subst a0 a1 a2 a3.
  change 32 with (8 + (8 + (8 + 8))). rewrite !set_bits_app by lia.
  replace (8 * (4 * k + 0)) with ((8 + (8 + (8 + 8))) * k) by lia.
  replace (8 * (4 * k + 1)) with ((8 + (8 + (8 + 8))) * k + 8) by lia.
  replace (8 * (4 * k + 2)) with ((8 + (8 + (8 + 8))) * k + 8 + 8) by lia.
  replace (8 * (4 * k + 3)) with ((8 + (8 + (8 + 8))) * k + 8 + 8 + 8) by lia.
  lia.
Qed.

Lemma count_bytes_ok buf n i t :
  bytes_ok buf -> 0 <= i -> i + Z.of_nat n <= zlen buf ->
  0 <= t -> t + 8 * Z.of_nat n < 2 ^ 32 ->
  count_bytes buf n i t = Some (i + Z.of_nat n, t + set_bits buf (8 * i) (8 * Z.of_nat n)).
Proof.
  intros Hb. revert i t. induction n as [|n IH]; intros i t Hi Hlen Ht Hsm; cbn [count_bytes].
  { by rewrite !Z.add_0_r. }
  rewrite get_byte_in by lia. cbn [mbind option_bind]. rewrite byte_set_bits by done.
  pose proof (set_bits_bound buf (8 * i) 8 ltac:(lia)).
  rewrite u32_small, IH by lia.
  replace (8 * Z.of_nat (S n)) with (8 + 8 * Z.of_nat n) by lia. rewrite set_bits_app by lia.
  replace (8 * (i + 1)) with (8 * i + 8) by lia. f_equal. f_equal; lia.
Qed.

Lemma count_chunks_ok buf n k t :
  bytes_ok buf -> 0 <= k -> 4 * k + 4 * Z.of_nat n <= zlen buf ->
  0 <= t -> t + 32 * Z.of_nat n < 2 ^ 32 ->
  count_chunks buf n (4 * k) t =
  Some (4 * k + 4 * Z.of_nat n, t + set_bits buf (32 * k) (32 * Z.of_nat n)).
Proof.
  intros Hb. revert k t. induction n as [|n IH]; intros k t Hk Hlen Ht Hsm; cbn [count_chunks].
  { by rewrite !Z.mul_0_r, !Z.add_0_r. }
  replace (4 * k / 4) with k by zdiv.
  destruct (get_ulong_in buf k Hb Hk ltac:(lia)) as (c & -> & Hc & Hbits). cbn [mbind option_bind].
  rewrite (chunk_count buf k c) by done.
  pose proof (set_bits_bound buf (32 * k) 32 ltac:(lia)).
  replace (4 * k + 4) with (4 * (k + 1)) by lia.
  rewrite u32_small, IH by lia.
  replace (32 * Z.of_nat (S n)) with (32 + 32 * Z.of_nat n) by lia. rewrite set_bits_app by lia.
  replace (32 * (k + 1)) with (32 * k + 32) by lia. f_equal. f_equal; lia.
Qed.

(** The unused bits of the last byte are cleared. *)
Lemma clear_unused bm :
  bitmap_ok bm ->
  let Size := SizeOfBitMap bm in
  let SizeInBytes := (Size + 7) / 8 in
  exists buf,
    (if negb (Size mod 8 =? 0) then
       b ← get_byte (Buffer bm) (SizeInBytes - 1);
       set_byte (Buffer bm) (SizeInBytes - 1) (Z.land b (tbl FillMask (Size mod 8)))
     else Some (Buffer bm)) = Some buf /\
    assigns (Buffer bm) buf Size (8 * SizeInBytes - Size) false.
Proof.
  intros [Hsz Hb Hwd Hcov] Size SizeInBytes. subst Size SizeInBytes.
  destruct (Z.eqb_spec (SizeOfBitMap bm mod 8) 0) as [E|E]; cbn [negb].
  { exists (Buffer bm). split; [done|].
    replace (8 * _ - _) with 0 by zdiv. by apply assigns_refl. }
  rewrite get_byte_in by zdiv. cbn [mbind option_bind].
  set (q := (SizeOfBitMap bm + 7) / 8 - 1). set (r := SizeOfBitMap bm mod 8) in *.
  assert (0 <= r < 8) by (subst r; zdiv).
  assert (SizeOfBitMap bm = 8 * q + r) by (subst q r; zdiv).
  destruct (assigns_byte (Buffer bm) q (Z.land (byte (Buffer bm) q) (tbl FillMask r)) r 8 false)
    as (buf & -> & Ha); [done|lia|lia|lia|apply land_byte; by apply byte_ok| |].
  { intros i Hi. rewrite Z.land_spec, FillMask_bit by lia. destruct (Z.testbit _ i); by bit_cases. }
  exists buf. split; [done|].
  replace (8 * _ - _) with (8 - r) by (subst q; lia). by replace (SizeOfBitMap bm) with (8 * q + r) by lia.
Qed.

Lemma RtlNumberOfSetBits_ok bm :
  bitmap_ok bm ->
  exists buf,
    RtlNumberOfSetBits bm =
      Some (set_bits (Buffer bm) 0 (SizeOfBitMap bm), with_Buffer bm buf) /\
    assigns (Buffer bm) buf (SizeOfBitMap bm) (8 * ((SizeOfBitMap bm + 7) / 8) - SizeOfBitMap bm) false.
Proof.
  intros Hok. destruct (clear_unused bm Hok) as (buf & E & Ha). cbv zeta in E.
  destruct Hok as [Hsz Hb Hwd Hcov].
  unfold RtlNumberOfSetBits. cbv zeta. rewrite (u32_small (SizeOfBitMap bm + 7)) by lia.
  rewrite E. cbn [mbind option_bind]. pose proof Ha as (Hl & Hb' & Hbit).
  exists buf. split; [|done].
  set (Size := SizeOfBitMap bm) in *. set (n := (Size + 7) / 8) in *.
  assert (Hn : 8 * n - 8 < Size <= 8 * n) by (subst n; zdiv).
  assert (0 <= n mod 8 < 8) by zdiv. assert (n <= zlen buf) by lia.
  change (Z.to_nat 0) with 0%nat. cbn [count_bytes mbind option_bind].
  rewrite !Z.sub_0_r, !Z.add_0_l.
  assert (Hm : (n - n mod 8) / 4 * 4 = n - n mod 8) by zdiv.
  assert (0 <= (n - n mod 8) / 4) by zdiv.
  set (m := (n - n mod 8) / 4) in *. set (r := n mod 8) in *.
  pose proof (count_chunks_ok buf (Z.to_nat m) 0 0) as Hc.
  rewrite Z2Nat.id, !Z.mul_0_r, !Z.add_0_l in Hc by lia.
  rewrite Hc by (done || lia). cbn [mbind option_bind].
  pose proof (set_bits_bound buf 0 (32 * m) ltac:(lia)).
  rewrite count_bytes_ok by (rewrite ?Z2Nat.id by lia; done || lia).
  cbn [mbind option_bind]. rewrite Z2Nat.id by lia.
  replace (8 * (4 * m)) with (0 + 32 * m) by lia. rewrite <- set_bits_app by lia.
  replace (32 * m + 8 * r) with (Size + (8 * n - Size)) by lia.
  rewrite set_bits_app by lia. f_equal. f_equal.
  unfold set_bits. rewrite (zcount_zero _ (0 + Size)), Z.add_0_r.
  - apply zcount_ext. intros i Hi. rewrite Hbit by lia. unfold between.
    by replace ((Size <=? i) && _) with false by lia.
  - intros i Hi. rewrite Hbit by lia. unfold between.
    by replace ((Size <=? i) && _) with true by lia.
Qed.

(** *** Significant bits *)

Lemma land_window x lo hi :
  0 <= lo <= hi -> Z.land x (2 ^ hi - 2 ^ lo) = 2 ^ lo * (x / 2 ^ lo mod 2 ^ (hi - lo)).
Proof.
  intros H. rewrite Z.mul_comm, <- Z.shiftl_mul_pow2, <- Z.shiftr_div_pow2, <- Z.land_ones by lia.
  assert (2 ^ hi - 2 ^ lo = Z.shiftl (Z.ones (hi - lo)) lo) as ->.
  { rewrite Z.shiftl_mul_pow2, Z.ones_equiv by lia.
    replace (2 ^ hi) with (2 ^ (hi - lo) * 2 ^ lo); [lia|]. rewrite <- Z.pow_add_r by lia. f_equal. lia. }
  apply Z.bits_inj'. intros i Hi. rewrite Z.land_spec, !Z.shiftl_spec by lia.
  destruct (Z.lt_ge_cases i lo).
  - rewrite !(Z.testbit_neg_r _ (i - lo)) by lia. apply andb_false_r.
  - rewrite Z.land_spec, Z.shiftr_spec by lia. by replace (i - lo + lo) with i by lia.
Qed.

Lemma has_high x lo hi :
  0 <= lo <= hi -> 0 <= x < 2 ^ hi -> (Z.land x (2 ^ hi - 2 ^ lo) =? 0) = (x <? 2 ^ lo).
Proof.
  intros H Hx. rewrite land_window by done.
  assert (2 ^ hi = 2 ^ lo * 2 ^ (hi - lo)) as E by (rewrite <- Z.pow_add_r by lia; f_equal; lia).
  assert (0 < 2 ^ lo) by lia.
  rewrite Z.mod_small.
  - destruct (Z.ltb_spec x (2 ^ lo)); [rewrite Z.div_small by lia; lia|].
    assert (1 <= x / 2 ^ lo) by (apply Z.div_le_lower_bound; lia). nia.
  - split; [apply Z.div_pos; lia|]. apply Z.div_lt_upper_bound; lia.
Qed.

Lemma high_byte b : 0 < b < 256 -> 7 - tbl RtlpBitsClearHigh b = Z.log2 b.
Proof.
  intros Hb. apply Z.eqb_eq.
  assert ((b =? 0) || (7 - tbl RtlpBitsClearHigh b =? Z.log2 b) = true) as H; [|lia].
  apply (zrange_forallb 256 (fun b => (b =? 0) || (7 - tbl RtlpBitsClearHigh b =? Z.log2 b)));
    [vm_compute; reflexivity|lia].
Qed.

Lemma msb_finish x off :
  0 <= off <= 56 -> 2 ^ off <= x < 2 ^ (off + 8) ->
  u8 ((7 - tbl RtlpBitsClearHigh (u8 (Z.shiftr x off))) + off) = Z.log2 x.
Proof.
  intros Hoff Hx. rewrite Z.pow_add_r in Hx by lia. assert (0 < 2 ^ off) by lia.
  assert (Hs : 0 < Z.shiftr x off < 256).
  { rewrite Z.shiftr_div_pow2 by lia. split.
    - apply Z.div_str_pos. lia.
    - apply Z.div_lt_upper_bound; lia. }
  rewrite (uwrap_small 8 (Z.shiftr x off)), high_byte, Z.log2_shiftr by lia.
  assert (off <= Z.log2 x < off + 8).
  { split; [apply Z.log2_le_pow2; lia|]. apply Z.log2_lt_pow2; [lia|]. rewrite Z.pow_add_r by lia. lia. }
  rewrite Z.max_r, uwrap_small by lia. lia.
Qed.

Lemma RtlFindMostSignificantBit_ok x :
  0 < x < 2 ^ 64 -> RtlFindMostSignificantBit x = Z.log2 x.
Proof.
  intros Hx. unfold RtlFindMostSignificantBit. cbv zeta.
  change 0xFFFFFFFF00000000 with (2 ^ 64 - 2 ^ 32). change 0xFFFF000000000000 with (2 ^ 64 - 2 ^ 48).
  change 0xFF00000000000000 with (2 ^ 64 - 2 ^ 56). change 0x0000FF0000000000 with (2 ^ 48 - 2 ^ 40).
  change 0x00000000FFFF0000 with (2 ^ 32 - 2 ^ 16). change 0x00000000FF000000 with (2 ^ 32 - 2 ^ 24).
  change 0x000000000000FF00 with (2 ^ 16 - 2 ^ 8).
  rewrite (has_high x 32 64) by lia. destruct (Z.ltb_spec x (2 ^ 32)); cbn [negb].
  - rewrite (has_high x 16 32) by lia. destruct (Z.ltb_spec x (2 ^ 16)); cbn [negb].
    + rewrite (has_high x 8 16) by lia. destruct (Z.ltb_spec x (2 ^ 8)); cbn [negb].
      * destruct (Z.eqb_spec x 0); [lia|]. apply msb_finish; lia.
      * apply msb_finish; lia.
    + rewrite (has_high x 24 32) by lia. destruct (Z.ltb_spec x (2 ^ 24)); apply msb_finish; lia.
  - rewrite (has_high x 48 64) by lia. destruct (Z.ltb_spec x (2 ^ 48)); cbn [negb].
    + rewrite (has_high x 40 48) by lia. destruct (Z.ltb_spec x (2 ^ 40)); apply msb_finish; lia.
    + rewrite (has_high x 56 64) by lia. destruct (Z.ltb_spec x (2 ^ 56)); apply msb_finish; lia.
Qed.

Lemma has_low x lo hi :
  0 <= lo <= hi -> x mod 2 ^ lo = 0 -> (Z.land x (2 ^ hi - 2 ^ lo) =? 0) = (x mod 2 ^ hi =? 0).
Proof.
  intros H Hx. rewrite land_window by done.
  replace (2 ^ hi) with (2 ^ lo * 2 ^ (hi - lo)) by (rewrite <- Z.pow_add_r by lia; f_equal; lia).
  by rewrite Z.rem_mul_r, Hx, Z.add_0_l by lia.
Qed.

Lemma low_byte b : 0 < b < 256 -> lowest_bit b (tbl RtlpBitsClearLow b) /\ tbl RtlpBitsClearLow b < 8.
Proof.
  intros Hb.
  set (f := fun b => (b =? 0) || ((0 <=? tbl RtlpBitsClearLow b) && (tbl RtlpBitsClearLow b <? 8) &&
      Z.testbit b (tbl RtlpBitsClearLow b) &&
      forallb (fun i => (tbl RtlpBitsClearLow b <=? i) || negb (Z.testbit b i)) (zrange 8))).
  assert (Hf : f b = true) by (apply (zrange_forallb 256); [vm_compute; reflexivity|lia]).
  unfold f in Hf. destruct (Z.eqb_spec b 0); [lia|]. cbn [orb] in Hf.
  rewrite !andb_true_iff in Hf. destruct Hf as [[[H0 H8] Hr] Hall].
  split; [|lia]. split; [lia|]. split; [done|]. intros i Hi.
  pose proof (zrange_forallb 8 _ i Hall ltac:(lia)) as Hlow. cbv beta in Hlow.
  destruct (Z.leb_spec (tbl RtlpBitsClearLow b) i); [lia|]. by apply negb_true_iff.
Qed.

Lemma lsb_finish x off :
  0 <= off <= 56 -> x mod 2 ^ off = 0 -> x mod 2 ^ (off + 8) <> 0 ->
  lowest_bit x (u8 (tbl RtlpBitsClearLow (u8 (Z.shiftr x off)) + off)).
Proof.
  intros Hoff Hz Hnz. rewrite Z.pow_add_r, Z.rem_mul_r, Hz, Z.add_0_l in Hnz by lia.
  assert (Hb : u8 (Z.shiftr x off) = x / 2 ^ off mod 2 ^ 8) by (by rewrite Z.shiftr_div_pow2 by lia).
  set (b := u8 (Z.shiftr x off)) in *.
  assert (0 < b < 256) by (pose proof (uwrap_range 8 (Z.shiftr x off) ltac:(lia)); nia).
  destruct (low_byte b) as [(H0 & Hr & Hlow) H8]; [done|]. set (r := tbl RtlpBitsClearLow b) in *.
  rewrite uwrap_small by lia.
  assert (Hbit : forall i, 0 <= i < 8 -> Z.testbit b i = Z.testbit x (i + off)).
  { intros i Hi. subst b. rewrite u8_bit, Z.shiftr_spec by lia. done. }
  split; [lia|]. split; [by rewrite <- Hbit by lia|]. intros i Hi.
  destruct (Z.lt_ge_cases i off).
  - rewrite <- (Z.mod_pow2_bits_low x off i), Hz by lia. apply Z.bits_0.
  - replace i with (i - off + off) by lia. rewrite <- Hbit by lia. apply Hlow. lia.
Qed.

Lemma RtlFindLeastSignificantBit_ok x :
  0 < x < 2 ^ 64 -> lowest_bit x (RtlFindLeastSignificantBit x).
Proof.
  intros Hx. unfold RtlFindLeastSignificantBit. cbv zeta.
  change 0x00000000FFFFFFFF with (2 ^ 32 - 2 ^ 0). change 0x000000000000FFFF with (2 ^ 16 - 2 ^ 0).
  change 0x00000000000000FF with (2 ^ 8 - 2 ^ 0). change 0x0000000000FF0000 with (2 ^ 24 - 2 ^ 16).
  change 0x0000FFFF00000000 with (2 ^ 48 - 2 ^ 32). change 0x000000FF00000000 with (2 ^ 40 - 2 ^ 32).
  change 0x00FF000000000000 with (2 ^ 56 - 2 ^ 48).
  assert (H1 : x mod 2 ^ 0 = 0) by apply Z.mod_1_r.
  assert (H64 : x mod 2 ^ (56 + 8) <> 0) by (change (56 + 8) with 64; rewrite Z.mod_small; lia).
  rewrite (has_low x 0 32) by done || lia. destruct (Z.eqb_spec (x mod 2 ^ 32) 0) as [E|E]; cbn [negb].
  - rewrite (has_low x 32 48) by done || lia. destruct (Z.eqb_spec (x mod 2 ^ 48) 0); cbn [negb].
    + rewrite (has_low x 48 56) by done || lia. destruct (Z.eqb_spec (x mod 2 ^ 56) 0); cbn [negb].
      * destruct (Z.eqb_spec x 0); [lia|]. by apply lsb_finish.
      * by apply lsb_finish.
    + rewrite (has_low x 32 40) by done || lia.
      destruct (Z.eqb_spec (x mod 2 ^ 40) 0); by apply lsb_finish.
  - rewrite (has_low x 0 16) by done || lia. destruct (Z.eqb_spec (x mod 2 ^ 16) 0); cbn [negb].
    + rewrite (has_low x 16 24) by done || lia.
      destruct (Z.eqb_spec (x mod 2 ^ 24) 0); by apply lsb_finish.
    + rewrite (has_low x 0 8) by done || lia.
      destruct (Z.eqb_spec (x mod 2 ^ 8) 0); by apply lsb_finish.
Qed.

(** *** Buffers are equal when their bits are *)

Lemma byte_ext b1 b2 :
  0 <= b1 < 256 -> 0 <= b2 < 256 ->
  (forall i, 0 <= i < 8 -> Z.testbit b1 i = Z.testbit b2 i) -> b1 = b2.
Proof.
  intros H1 H2 H. apply Z.bits_inj'. intros i Hi. destruct (Z.lt_ge_cases i 8); [apply H; lia|].
  by rewrite !byte_above.
Qed.

Lemma buffer_ext buf1 buf2 :
  bytes_ok buf1 -> bytes_ok buf2 -> zlen buf1 = zlen buf2 ->
  (forall j, 0 <= j -> bit buf1 j = bit buf2 j) -> buf1 = buf2.
Proof.
  intros H1 H2 Hl H. apply (nth_ext _ _ 0 0); [unfold zlen in Hl; lia|]. intros n Hn.
  rewrite <- (Nat2Z.id n). change (byte buf1 (Z.of_nat n) = byte buf2 (Z.of_nat n)).
  apply byte_ext; [by apply byte_ok..|]. intros i Hi.
  specialize (H (8 * Z.of_nat n + i) ltac:(lia)). unfold bit in H.
  replace ((8 * Z.of_nat n + i) / 8) with (Z.of_nat n) in H by zdiv.
  by replace ((8 * Z.of_nat n + i) mod 8) with i in H by zdiv.
Qed.

Lemma assigns_ok bm buf s n v : bitmap_ok bm -> assigns (Buffer bm) buf s n v ->
  bitmap_ok (with_Buffer bm buf).
Proof.
  intros [Hsz Hb Hwd Hcov] (Hl & Hb' & _). split; cbn [SizeOfBitMap Buffer with_Buffer]; try done.
  - by rewrite Hl.
  - by rewrite Hl.
Qed.

Lemma assigns_restore b0 b1 b2 s n v :
  bytes_ok b0 -> assigns b0 b1 s n (negb v) -> assigns b1 b2 s n v -> all_bits b0 s n v -> b2 = b0.
Proof.
  intros Hb (L1 & _ & H1) (L2 & B2 & H2) Hall. apply buffer_ext; [done|done|congruence|].
  intros j Hj. rewrite H2, H1 by done. unfold between.
  destruct (Z.leb_spec s j), (Z.ltb_spec j (s + n)); cbn [andb]; try done. symmetry. apply Hall. lia.
Qed.

(** ** Properties *)

(** RtlSetBits, for a range inside the bit map, accesses the buffer only
    in bounds and sets exactly the bits of the range: every other bit of the
    buffer, the ones beside the range in its first and last byte included, keeps
    its value, and the bit map stays well formed. *)
Theorem RtlSetBits_spec bm StartingIndex NumberToSet :
  bitmap_ok bm -> 0 <= StartingIndex -> 0 <= NumberToSet ->
  StartingIndex + NumberToSet <= SizeOfBitMap bm ->
  exists bm', RtlSetBits bm StartingIndex NumberToSet = Some bm' /\
    bitmap_ok bm' /\ SizeOfBitMap bm' = SizeOfBitMap bm /\
    forall j, 0 <= j ->
      bit (Buffer bm') j = if between StartingIndex NumberToSet j then true else bit (Buffer bm) j.
Proof.
  intros Hok Hs Hn Hle. destruct (RtlSetBits_ok bm StartingIndex NumberToSet Hok Hs Hn Hle)
    as (buf & E & Ha).
  exists (with_Buffer bm buf). split; [done|]. split; [by eapply assigns_ok|]. split; [done|].
  apply Ha.
Qed.

(** RtlClearBits, for a range inside the bit map, accesses the buffer only
    in bounds and clears exactly the bits of the range. *)
Theorem RtlClearBits_spec bm StartingIndex NumberToClear :
  bitmap_ok bm -> 0 <= StartingIndex -> 0 <= NumberToClear ->
  StartingIndex + NumberToClear <= SizeOfBitMap bm ->
  exists bm', RtlClearBits bm StartingIndex NumberToClear = Some bm' /\
    bitmap_ok bm' /\ SizeOfBitMap bm' = SizeOfBitMap bm /\
    forall j, 0 <= j ->
      bit (Buffer bm') j = if between StartingIndex NumberToClear j then false else bit (Buffer bm) j.
Proof.
  intros Hok Hs Hn Hle. destruct (RtlClearBits_ok bm StartingIndex NumberToClear Hok Hs Hn Hle)
    as (buf & E & Ha).
  exists (with_Buffer bm buf). split; [done|]. split; [by eapply assigns_ok|]. split; [done|].
  apply Ha.
Qed.

(** Allocation and release of a range: when RtlAreBitsClear reports a
    range free, RtlSetBits makes RtlAreBitsSet report it, and RtlClearBits
    then gives back the very bit map there was before. *)
Theorem set_clear_roundtrip bm StartingIndex Length :
  bitmap_ok bm -> 0 <= StartingIndex -> 0 <= Length -> StartingIndex + Length < 2 ^ 32 ->
  RtlAreBitsClear bm StartingIndex Length = Some true ->
  exists bm', RtlSetBits bm StartingIndex Length = Some bm' /\
    RtlAreBitsSet bm' StartingIndex Length = Some true /\
    RtlClearBits bm' StartingIndex Length = Some bm.
Proof.
  intros Hok Hs Hn Hlt Hclear.
  destruct (RtlAreBitsClear_ok bm StartingIndex Length Hok Hs Hn Hlt) as (r & Er & Hr).
  rewrite Hclear in Er. injection Er as <-. destruct (proj1 Hr eq_refl) as (Hpos & Hle & Hall).
  destruct (RtlSetBits_ok bm StartingIndex Length Hok Hs Hn Hle) as (b1 & E1 & H1).
  exists (with_Buffer bm b1). split; [done|]. pose proof (assigns_ok _ _ _ _ _ Hok H1) as Hok1. split.
  - destruct (RtlAreBitsSet_ok (with_Buffer bm b1) StartingIndex Length Hok1 Hs Hn Hlt) as (r & -> & Hr1).
    f_equal. apply Hr1. split; [done|]. split; [done|]. intros j Hj. cbn [Buffer with_Buffer].
    destruct H1 as (_ & _ & H1). rewrite H1 by lia. by bit_cases.
  - destruct (RtlClearBits_ok (with_Buffer bm b1) StartingIndex Length Hok1 Hs Hn Hle) as (b2 & -> & H2).
    cbn [Buffer with_Buffer] in H2.
    rewrite (assigns_restore _ _ _ _ _ false (ok_bytes _ Hok) H1 H2 Hall). by destruct bm.
Qed.

(** RtlAreBitsClear and RtlAreBitsSet return, for every range that does not
    wrap around 2^32, TRUE exactly when the range is not empty, lies inside the
    bit map and all its bits have the value asked for. *)
Theorem RtlAreBits_spec bm StartingIndex Length :
  bitmap_ok bm -> 0 <= StartingIndex -> 0 <= Length -> StartingIndex + Length < 2 ^ 32 ->
  (exists r, RtlAreBitsClear bm StartingIndex Length = Some r /\
     (r = true <-> (0 < Length /\ StartingIndex + Length <= SizeOfBitMap bm /\
                    all_bits (Buffer bm) StartingIndex Length false))) /\
  (exists r, RtlAreBitsSet bm StartingIndex Length = Some r /\
     (r = true <-> (0 < Length /\ StartingIndex + Length <= SizeOfBitMap bm /\
                    all_bits (Buffer bm) StartingIndex Length true))).
Proof. intros. split; [by apply RtlAreBitsClear_ok|by apply RtlAreBitsSet_ok]. Qed.

(** A range that wraps around 2^32 passes the range check of
    RtlAreBitsClear and RtlAreBitsSet, and the byte read is outside the buffer,
    where the documentation promises FALSE: eight bytes of bit map, sixteen
    bits from 0xFFFFFFF8. *)
Theorem RtlAreBits_wrap :
  bitmap_ok (mkBM 64 (replicate 8 0)) /\
  RtlAreBitsClear (mkBM 64 (replicate 8 0)) 0xFFFFFFF8 16 = None /\
  RtlAreBitsSet (mkBM 64 (replicate 8 0)) 0xFFFFFFF8 16 = None.
Proof.
  split.
  { split; cbn [SizeOfBitMap Buffer]; [lia|by repeat constructor|done|done]. }
  split; [unfold RtlAreBitsClear|unfold RtlAreBitsSet];
    change (u32 (0xFFFFFFF8 + 16)) with 8; change (u32 (8 - 1)) with 7; cbn [SizeOfBitMap Buffer];
    change (4294967288 / 8) with 536870911; change (7 / 8) with 0;
    cbv zeta; change (536870911 =? 0) with false; change ((8 >? 64) || (16 =? 0)) with false; cbv iota;
    rewrite get_byte_out by (right; vm_compute; discriminate); reflexivity.
Qed.

(** The single-bit routines access the bit they are given and no other:
    RtlTestBit reads it, RtlSetBit and RtlClearBit write it and leave the others. *)
Theorem single_bit_spec bm BitNumber :
  bitmap_ok bm -> 0 <= BitNumber < SizeOfBitMap bm ->
  RtlTestBit bm BitNumber = Some (bit (Buffer bm) BitNumber) /\
  (exists bm', RtlSetBit bm BitNumber = Some bm' /\ bitmap_ok bm' /\
     forall j, 0 <= j -> bit (Buffer bm') j = if j =? BitNumber then true else bit (Buffer bm) j) /\
  (exists bm', RtlClearBit bm BitNumber = Some bm' /\ bitmap_ok bm' /\
     forall j, 0 <= j -> bit (Buffer bm') j = if j =? BitNumber then false else bit (Buffer bm) j).
Proof.
  intros Hok Hn. split; [by apply RtlTestBit_ok|].
  assert (Hone : forall j, between BitNumber 1 j = (j =? BitNumber)).
  { intros j. unfold between. lia. }
  split.
  - destruct (RtlSetBit_ok bm BitNumber Hok Hn) as (buf & E & Ha). exists (with_Buffer bm buf).
    split; [done|]. split; [by eapply assigns_ok|]. intros j Hj. rewrite <- Hone. by apply Ha.
  - destruct (RtlClearBit_ok bm BitNumber Hok Hn) as (buf & E & Ha). exists (with_Buffer bm buf).
    split; [done|]. split; [by eapply assigns_ok|]. intros j Hj. rewrite <- Hone. by apply Ha.
Qed.

(** RtlSetAllBits and RtlClearAllBits give every bit of the bit map the
    value; they write whole ULONGs, and nothing beyond the last one. *)
Theorem all_bits_spec bm :
  bitmap_ok bm ->
  exists s c, RtlSetAllBits bm = Some s /\ RtlClearAllBits bm = Some c /\
    bitmap_ok s /\ bitmap_ok c /\
    (forall j, 0 <= j < SizeOfBitMap bm -> bit (Buffer s) j = true /\ bit (Buffer c) j = false) /\
    (forall j, (SizeOfBitMap bm + 31) / 32 * 32 <= j ->
       bit (Buffer s) j = bit (Buffer bm) j /\ bit (Buffer c) j = bit (Buffer bm) j).
Proof.
  intros Hok. pose proof (ok_size _ Hok) as Hsz. unfold RtlSetAllBits, RtlClearAllBits.
  destruct (fill_all_ok bm 0xff true) as (b1 & -> & H1); [done|lia| |].
  { intros i Hi. apply (zrange_forallb 8 (Z.testbit 255)); [vm_compute; reflexivity|done]. }
  destruct (fill_all_ok bm 0 false) as (b2 & -> & H2); [done|lia|intros; apply Z.bits_0|].
  exists (with_Buffer bm b1), (with_Buffer bm b2). split; [done|]. split; [done|].
  split; [by eapply assigns_ok|]. split; [by eapply assigns_ok|]. cbn [Buffer with_Buffer].
  destruct H1 as (_ & _ & H1), H2 as (_ & _ & H2). split; intros j Hj.
  - rewrite H1, H2 by lia. unfold between. replace ((0 <=? j) && _) with true by zdiv. done.
  - assert (0 <= j) by zdiv. rewrite H1, H2 by lia. unfold between.
    replace ((0 <=? j) && _) with false by lia. done.
Qed.

(** RtlNumberOfSetBits and RtlNumberOfClearBits return the numbers of set
    and clear bits below SizeOfBitMap, by table look-up of whole ULONGs and the
    bytes left; the only bits they change are the unused ones of the last byte. *)
Theorem RtlNumberOfSetBits_spec bm :
  bitmap_ok bm ->
  exists bm',
    RtlNumberOfSetBits bm = Some (set_bits (Buffer bm) 0 (SizeOfBitMap bm), bm') /\
    RtlNumberOfClearBits bm =
      Some (SizeOfBitMap bm - set_bits (Buffer bm) 0 (SizeOfBitMap bm), bm') /\
    bitmap_ok bm' /\
    forall j, 0 <= j -> j < SizeOfBitMap bm \/ (SizeOfBitMap bm + 7) / 8 * 8 <= j ->
      bit (Buffer bm') j = bit (Buffer bm) j.
Proof.
  intros Hok. pose proof (ok_size _ Hok) as Hsz.
  destruct (RtlNumberOfSetBits_ok bm Hok) as (buf & E & Ha).
  exists (with_Buffer bm buf). split; [done|]. split.
  { unfold RtlNumberOfClearBits. rewrite E. cbn [mbind option_bind].
    pose proof (set_bits_bound (Buffer bm) 0 (SizeOfBitMap bm) ltac:(lia)).
    by rewrite u32_small by lia. }
  split; [by eapply assigns_ok|]. intros j Hj Hout. destruct Ha as (_ & _ & Ha).
  cbn [Buffer with_Buffer]. rewrite Ha by done. unfold between.
  replace ((SizeOfBitMap bm <=? j) && _) with false by lia. done.
Qed.

(** RtlFindMostSignificantBit and RtlFindLeastSignificantBit return, for
    every non-zero 64-bit set, the number of the highest and of the lowest set
    bit; both return -1 for the empty set. *)
Theorem significant_bits_spec Set_ :
  0 < Set_ < 2 ^ 64 ->
  RtlFindMostSignificantBit Set_ = Z.log2 Set_ /\
  lowest_bit Set_ (RtlFindLeastSignificantBit Set_) /\
  RtlFindMostSignificantBit 0 = -1 /\ RtlFindLeastSignificantBit 0 = -1.
Proof.
  intros Hx. split; [by apply RtlFindMostSignificantBit_ok|].
  split; [by apply RtlFindLeastSignificantBit_ok|]. done.
Qed.

(** The four look-up tables hold, for every byte, what their comments say:
    the longest run of clear bits, the clear bits at the low end, the clear bits
    at the high end and the number of clear bits. *)
Theorem byte_tables_spec b :
  0 <= b < 256 ->
  tbl RtlpBitsClearAnywhere b = longest_clear 8 b 0 0 0 /\
  tbl RtlpBitsClearLow b = clear_from 8 b 0 1 /\
  tbl RtlpBitsClearHigh b = clear_from 8 b 7 (-1) /\
  tbl RtlpBitsClearTotal b = zcount (fun i => negb (Z.testbit b i)) 0 8.
Proof.
  intros Hb.
  assert (H : ((tbl RtlpBitsClearAnywhere b =? longest_clear 8 b 0 0 0) &&
    (tbl RtlpBitsClearLow b =? clear_from 8 b 0 1) &&
    (tbl RtlpBitsClearHigh b =? clear_from 8 b 7 (-1)) &&
    (tbl RtlpBitsClearTotal b =? zcount (fun i => negb (Z.testbit b i)) 0 8)) = true).
  { apply (zrange_forallb 256 (fun b => (tbl RtlpBitsClearAnywhere b =? longest_clear 8 b 0 0 0) &&
      (tbl RtlpBitsClearLow b =? clear_from 8 b 0 1) &&
      (tbl RtlpBitsClearHigh b =? clear_from 8 b 7 (-1)) &&
      (tbl RtlpBitsClearTotal b =? zcount (fun i => negb (Z.testbit b i)) 0 8)));
      [vm_compute; reflexivity|lia]. }
  lia.
Qed.

(** ** Witnesses *)

Lemma byte_tables_spec_witness : tbl RtlpBitsClearAnywhere 0x21 = 4 /\ tbl RtlpBitsClearHigh 0x21 = clear_from 8 0x21 7 (-1).
Proof. split; [vm_compute; reflexivity|]. apply (byte_tables_spec 0x21). lia. Defined.

Definition sample : RTL_BITMAP := mkBM 41 [0x0f; 0x00; 0x00; 0x80; 0x01; 0xff; 0x00; 0x00].

Lemma sample_ok : bitmap_ok sample.
Proof. split; cbn [SizeOfBitMap Buffer sample]; [lia|by repeat constructor|done|vm_compute; discriminate]. Qed.

Lemma RtlSetBits_spec_witness :
  exists bm', RtlSetBits sample 5 25 = Some bm' /\ Buffer bm' = [0xef; 0xff; 0xff; 0xbf; 0x01; 0xff; 0x00; 0x00] /\
    bit (Buffer bm') 29 = true /\ bit (Buffer bm') 30 = false.
Proof.
  destruct (RtlSetBits_spec sample 5 25 sample_ok) as (bm' & E & _ & _ & H);
    [lia|lia|vm_compute; discriminate|].
  exists bm'. split; [done|]. split; [vm_compute in E; by injection E as <-|].
  split; by rewrite H by lia.
Defined.

Lemma RtlClearBits_spec_witness :
  exists bm', RtlClearBits sample 2 31 = Some bm' /\ bit (Buffer bm') 31 = false /\ bit (Buffer bm') 1 = true.
Proof.
  destruct (RtlClearBits_spec sample 2 31 sample_ok) as (bm' & E & _ & _ & H);
    [lia|lia|vm_compute; discriminate|].
  exists bm'. split; [done|]. split; by rewrite H by lia.
Defined.

Lemma set_clear_roundtrip_witness :
  exists bm', RtlSetBits sample 4 27 = Some bm' /\ RtlAreBitsSet bm' 4 27 = Some true /\
    RtlClearBits bm' 4 27 = Some sample.
Proof. apply (set_clear_roundtrip sample 4 27 sample_ok); [lia|lia|lia|vm_compute; reflexivity]. Defined.

Lemma RtlAreBits_spec_witness :
  RtlAreBitsClear sample 4 27 = Some true /\ RtlAreBitsSet sample 31 2 = Some true /\
  exists r, RtlAreBitsClear sample 4 27 = Some r /\
    (r = true <-> (0 < 27 /\ 4 + 27 <= 41 /\ all_bits (Buffer sample) 4 27 false)).
Proof.
  split; [vm_compute; reflexivity|]. split; [vm_compute; reflexivity|].
  apply (RtlAreBits_spec sample 4 27 sample_ok); lia.
Defined.

Lemma single_bit_spec_witness : RtlTestBit sample 31 = Some true /\ RtlTestBit sample 31 = Some (bit (Buffer sample) 31).
Proof.
  split; [vm_compute; reflexivity|].
  apply (single_bit_spec sample 31 sample_ok); vm_compute; split; [discriminate|reflexivity].
Defined.

Lemma all_bits_spec_witness :
  exists s, RtlSetAllBits sample = Some s /\ bit (Buffer s) 40 = true.
Proof.
  destruct (all_bits_spec sample sample_ok) as (s & c & Es & _ & _ & _ & H & _).
  exists s. split; [done|]. apply H. vm_compute. split; [discriminate|reflexivity].
Defined.

Lemma RtlNumberOfSetBits_spec_witness :
  exists bm', RtlNumberOfSetBits sample = Some (7, bm') /\ set_bits (Buffer sample) 0 41 = 7 /\ bitmap_ok bm'.
Proof.
  destruct (RtlNumberOfSetBits_spec sample sample_ok) as (bm' & E & _ & Hok & _).
  exists bm'. split; [|split; [vm_compute; reflexivity|done]]. rewrite E. vm_compute. reflexivity.
Defined.

Lemma significant_bits_spec_witness :
  RtlFindMostSignificantBit 0x0000300000000480 = 45 /\ lowest_bit 0x0000300000000480 7.
Proof.
  split; [vm_compute; reflexivity|].
  apply (significant_bits_spec 0x0000300000000480). lia.
Defined.

End Bitmap.
