(* ===== verification/RtlBitmapSearch.v ===== *)
(** * Searching bit maps (src/ntoskrnl/rtl/bitmap.c, the routines that find runs)

    RtlpFindClearBitsRange is the engine under RtlFindClearBits, RtlFindSetBits
    and their -AndSet/-AndClear forms: it looks for the first run of a given
    length between two bit numbers, with one of four algorithms chosen by the
    length.  A PCHUNK is the index of a ULONG relative to the start of the
    buffer; reading outside the buffer is [None], and so is running out of
    fuel, so that a theorem "the result is [Some r]" says that the search
    stays inside the buffer and ends.  The search loops get as fuel one more
    than the number of chunks of the range.

    Each search is compared with the declarative "first run": no shorter
    description of what the routine computes is used in the statements. *)

From S2P Require Import Prelude RtlBitmap.
Import Bitmap.

Module BitmapSearch.

Definition CHUNK_BITS : Z := 32.
Definition CHUNK_CLEAR : Z := 0.
Definition CHUNK_SET : Z := 0xFFFFFFFF.
Definition CHUNK_HIGH_BIT : Z := 0x80000000.
Definition RTL_INVALID_INDEX : Z := 0xFFFFFFFF.

(** The intrinsics: the number of the lowest and of the highest set bit, and
    no index for zero. *)
Fixpoint lowest_set (p : positive) : Z :=
  match p with xO p => 1 + lowest_set p | _ => 0 end.
Definition BitScanForward (Mask : Z) : option Z :=
  match Mask with Zpos p => Some (lowest_set p) | _ => None end.
Definition BitScanReverse (Mask : Z) : option Z :=
  if Mask =? 0 then None else Some (Z.log2 Mask).

(** ** Within a chunk *)

(** The do-while loop of RtlpFindClearRunInChunk; [None] is fuel exhausted,
    [Some None] the early return of FALSE. *)
Fixpoint shift_and (fuel : nat) (chunkMask shiftsRemaining : Z) : option (option Z) :=
  match fuel with
  | O => None
  | S fuel =>
      let shift := shiftsRemaining / 2 in
      let chunkMask := Z.land chunkMask (Z.shiftr chunkMask shift) in
      if chunkMask =? 0 then Some None
      else
        let shiftsRemaining := shiftsRemaining - shift in
        if shiftsRemaining >? 1 then shift_and fuel chunkMask shiftsRemaining
        else Some (Some chunkMask)
  end.

(** The start of the first run, or none for FALSE. *)
Definition RtlpFindClearRunInChunk (Chunk RunLength : Z) : option (option Z) :=
  r ← shift_and (Z.to_nat RunLength) (u32 (Z.lnot Chunk)) RunLength;
  Some (match r with None => None | Some chunkMask => BitScanForward chunkMask end).

Definition RtlpClearMSBInChunk (Chunk : Z) : Z :=
  match BitScanReverse Chunk with
  | None => CHUNK_BITS
  | Some Index => CHUNK_BITS - Index - 1
  end.

Definition RtlpClearLSBInChunk (Chunk : Z) : Z :=
  match BitScanForward Chunk with None => CHUNK_BITS | Some Index => Index end.

(** ** The four searches *)

Section Search.
(** READ_CHUNK, by chunk number. *)
Variable read : Z -> option Z.
Variables (NumberToFind lastPossibleStartBit : Z).

(** [NumberToFind > 2 * CHUNK_BITS - 1] *)

(** [while (chunkPtr != clearChunkRunEnd)]: where the loop stops, and whether
    it came to the end. *)
Fixpoint clear_chunks (fuel : nat) (chunkPtr clearChunkRunEnd : Z) : option (Z * bool) :=
  match fuel with
  | O => None
  | S fuel =>
      if chunkPtr =? clearChunkRunEnd then Some (chunkPtr, true)
      else
        c ← read chunkPtr;
        if negb (c =? CHUNK_CLEAR) then Some (chunkPtr, false)
        else clear_chunks fuel (chunkPtr + 1) clearChunkRunEnd
  end.

(** From the label largeLoopEntry on; [again] is [goto findRunStartLarge]. *)
Definition largeLoopEntry (again : Z -> option Z) (chunkPtr headClearBits : Z) : option Z :=
  let runStartBit := u32 (u32 (chunkPtr * CHUNK_BITS) - headClearBits) in
  if runStartBit >? lastPossibleStartBit then Some RTL_INVALID_INDEX
  else
    let clearChunksRequired := u32 (NumberToFind - headClearBits) / CHUNK_BITS in
    let clearChunkRunEnd := chunkPtr + clearChunksRequired in
    '(chunkPtr, complete) ← clear_chunks (Z.to_nat clearChunksRequired) (chunkPtr + 1) clearChunkRunEnd;
    if negb complete then again chunkPtr
    else
      let tailClearBits := u32 (NumberToFind - headClearBits) mod CHUNK_BITS in
      if negb (tailClearBits =? 0) then
        c ← read chunkPtr;
        if RtlpClearLSBInChunk c <? tailClearBits then again chunkPtr else Some runStartBit
      else Some runStartBit.

Fixpoint findRunStartLarge (fuel : nat) (lastPossibleClearChunk chunkPtr : Z) : option Z :=
  match fuel with
  | O => None
  | S fuel =>
      if chunkPtr >? lastPossibleClearChunk then Some RTL_INVALID_INDEX
      else
        let chunkPtr := chunkPtr + 1 in
        c ← read chunkPtr;
        if c =? CHUNK_CLEAR then
          prev ← read (chunkPtr - 1);
          largeLoopEntry (findRunStartLarge fuel lastPossibleClearChunk) chunkPtr
            (RtlpClearMSBInChunk prev)
        else findRunStartLarge fuel lastPossibleClearChunk chunkPtr
  end.

Definition find_large (fuel : nat) (rangeStartChunk firstChunk : Z) : option Z :=
  let lastPossibleStartChunk := lastPossibleStartBit / CHUNK_BITS in
  let lastPossibleClearChunk :=
    if negb (lastPossibleStartBit mod CHUNK_BITS =? 0) then lastPossibleStartChunk + 1
    else lastPossibleStartChunk in
  let again := findRunStartLarge fuel lastPossibleClearChunk in
  if firstChunk =? CHUNK_CLEAR then largeLoopEntry again rangeStartChunk 0
  else
    let chunkPtr := rangeStartChunk + 1 in
    c ← read chunkPtr;
    if c =? CHUNK_CLEAR then largeLoopEntry again chunkPtr (RtlpClearMSBInChunk firstChunk)
    else again chunkPtr.

(** [CHUNK_BITS <= NumberToFind]: a run of one, two or three chunks. *)
Fixpoint find_medium (fuel : nat) (chunkPtr chunk : Z) : option Z :=
  match fuel with
  | O => None
  | S fuel =>
      if negb (Z.land chunk CHUNK_HIGH_BIT =? 0) then
        let chunkPtr := chunkPtr + 1 in
        if chunkPtr >? lastPossibleStartBit / CHUNK_BITS then Some RTL_INVALID_INDEX
        else chunk ← read chunkPtr; find_medium fuel chunkPtr chunk
      else
        let headClearBits := RtlpClearMSBInChunk chunk in
        let runStartBit := u32 (u32 (chunkPtr * CHUNK_BITS) + (CHUNK_BITS - headClearBits)) in
        if runStartBit >? lastPossibleStartBit then Some RTL_INVALID_INDEX
        else
          let bitsRemaining := u32 (NumberToFind - headClearBits) in
          if bitsRemaining =? 0 then Some runStartBit
          else
            let chunkPtr := chunkPtr + 1 in
            chunk ← read chunkPtr;
            if bitsRemaining >=? CHUNK_BITS then
              if negb (chunk =? CHUNK_CLEAR) then find_medium fuel chunkPtr chunk
              else
                let bitsRemaining := bitsRemaining - CHUNK_BITS in
                if bitsRemaining =? 0 then Some runStartBit
                else
                  let chunkPtr := chunkPtr + 1 in
                  chunk ← read chunkPtr;
                  if RtlpClearLSBInChunk chunk >=? bitsRemaining then Some runStartBit
                  else find_medium fuel chunkPtr chunk
            else
              if RtlpClearLSBInChunk chunk >=? bitsRemaining then Some runStartBit
              else find_medium fuel chunkPtr chunk
  end.

(** [1 < NumberToFind < CHUNK_BITS].  The inner do-while over full chunks is
    the first branch: it leaves tailClearBits zero, and looks at the next
    chunk the way the outer loop does. *)
Fixpoint find_small (fuel : nat) (rangeEndChunk chunkPtr chunk tailClearBits : Z) : option Z :=
  match fuel with
  | O => None
  | S fuel =>
      if chunk =? CHUNK_SET then
        let chunkPtr := chunkPtr + 1 in
        if chunkPtr >? lastPossibleStartBit / CHUNK_BITS then Some RTL_INVALID_INDEX
        else chunk ← read chunkPtr; find_small fuel rangeEndChunk chunkPtr chunk 0
      else
        let headClearBits := RtlpClearLSBInChunk chunk in
        let finish (runStartBit : Z) :=
          let runStartBit := u32 (runStartBit + u32 (chunkPtr * CHUNK_BITS)) in
          if runStartBit >? lastPossibleStartBit then Some RTL_INVALID_INDEX
          else Some runStartBit in
        if headClearBits + tailClearBits >=? NumberToFind then finish (u32 (0 - tailClearBits))
        else
          r ← RtlpFindClearRunInChunk chunk NumberToFind;
          match r with
          | Some runStartBit => finish runStartBit
          | None =>
              if chunkPtr =? rangeEndChunk then Some RTL_INVALID_INDEX
              else
                let tailClearBits := RtlpClearMSBInChunk chunk in
                let chunkPtr := chunkPtr + 1 in
                chunk ← read chunkPtr;
                find_small fuel rangeEndChunk chunkPtr chunk tailClearBits
          end
  end.

(** [NumberToFind == 1] *)
Fixpoint find_single (fuel : nat) (chunkPtr chunk : Z) : option Z :=
  match fuel with
  | O => None
  | S fuel =>
      if chunk =? CHUNK_SET then
        let chunkPtr := chunkPtr + 1 in
        if chunkPtr >? lastPossibleStartBit / CHUNK_BITS then Some RTL_INVALID_INDEX
        else chunk ← read chunkPtr; find_single fuel chunkPtr chunk
      else
        runStartBit ← BitScanForward (u32 (Z.lnot chunk));
        let runStartBit := u32 (runStartBit + u32 (chunkPtr * CHUNK_BITS)) in
        if runStartBit >? lastPossibleStartBit then Some RTL_INVALID_INDEX
        else Some runStartBit
  end.
End Search.

Definition READ_CHUNK (BitMap : list Z) (Invert : bool) (n : Z) : option Z :=
  c ← get_ulong BitMap n; Some (if Invert then u32 (Z.lnot c) else c).

Definition RtlpFindClearBitsRange
    (BitMap : list Z) (NumberToFind RangeStart RangeEnd : Z) (Invert : bool) : option Z :=
  let rangeStart := RangeStart in
  let rangeEnd := RangeEnd in
  if u32 (u32 (rangeEnd - rangeStart) + 1) <? NumberToFind then Some RTL_INVALID_INDEX
  else
    let read := READ_CHUNK BitMap Invert in
    let rangeStartChunk := rangeStart / CHUNK_BITS in
    let lastPossibleStartBit := u32 (u32 (rangeEnd - NumberToFind) + 1) in
    let headChunkMask := u32 (Z.shiftl 1 (rangeStart mod CHUNK_BITS)) - 1 in
    c ← read rangeStartChunk;
    let firstChunk := Z.lor c headChunkMask in
    let fuel := Z.to_nat (rangeEnd / CHUNK_BITS - rangeStartChunk + 2) in
    if NumberToFind >? 2 * CHUNK_BITS - 1 then
      find_large read NumberToFind lastPossibleStartBit fuel rangeStartChunk firstChunk
    else if NumberToFind >=? CHUNK_BITS then
      find_medium read NumberToFind lastPossibleStartBit fuel rangeStartChunk firstChunk
    else if NumberToFind >? 1 then
      find_small read NumberToFind lastPossibleStartBit fuel (rangeEnd / CHUNK_BITS)
        rangeStartChunk firstChunk 0
    else
      find_single read lastPossibleStartBit fuel rangeStartChunk firstChunk.

(** ** The exported searches *)

(** The two passes of RtlFindClearBits and RtlFindSetBits: from the hint to
    the end, and again from the start when the first pass began later. *)
Definition find_two_passes (bm : RTL_BITMAP) (NumberToFind HintIndex : Z) (Invert : bool) : option Z :=
  let Size := SizeOfBitMap bm in
  let RangeStart := if HintIndex >=? Size then 0 else HintIndex in
  let RangeEnd := u32 (Size - 1) in
  if NumberToFind =? 0 then Some (Z.land RangeStart (u32 (Z.lnot 7)))
  else
    BitIndex ← RtlpFindClearBitsRange (Buffer bm) NumberToFind RangeStart RangeEnd Invert;
    if negb (BitIndex =? RTL_INVALID_INDEX) || (RangeStart =? 0) then Some BitIndex
    else
      let RangeEnd := u32 (HintIndex + NumberToFind) in
      let RangeEnd := if RangeEnd >? Size then Size else RangeEnd in
      let RangeEnd := u32 (RangeEnd - 1) in
      RtlpFindClearBitsRange (Buffer bm) NumberToFind 0 RangeEnd Invert.

Definition RtlFindClearBits (bm : RTL_BITMAP) (NumberToFind HintIndex : Z) : option Z :=
  find_two_passes bm NumberToFind HintIndex false.

Definition RtlFindSetBits (bm : RTL_BITMAP) (NumberToFind HintIndex : Z) : option Z :=
  find_two_passes bm NumberToFind HintIndex true.

Definition RtlFindClearBitsAndSet (bm : RTL_BITMAP) (NumberToFind HintIndex : Z)
    : option (Z * RTL_BITMAP) :=
  StartingIndex ← RtlFindClearBits bm NumberToFind HintIndex;
  if negb (StartingIndex =? 0xffffffff) then
    bm' ← RtlSetBits bm StartingIndex NumberToFind; Some (StartingIndex, bm')
  else Some (StartingIndex, bm).

Definition RtlFindSetBitsAndClear (bm : RTL_BITMAP) (NumberToFind HintIndex : Z)
    : option (Z * RTL_BITMAP) :=
  StartingIndex ← RtlFindSetBits bm NumberToFind HintIndex;
  if negb (StartingIndex =? 0xffffffff) then
    bm' ← RtlClearBits bm StartingIndex NumberToFind; Some (StartingIndex, bm')
  else Some (StartingIndex, bm).

(** ** Runs next to an index *)

Definition FillMaskUlong : list Z :=
  [0x00000000; 0x00000001; 0x00000003; 0x00000007;
   0x0000000f; 0x0000001f; 0x0000003f; 0x0000007f;
   0x000000ff; 0x000001ff; 0x000003ff; 0x000007ff;
   0x00000fff; 0x00001fff; 0x00003fff; 0x00007fff;
   0x0000ffff; 0x0001ffff; 0x0003ffff; 0x0007ffff;
   0x000fffff; 0x001fffff; 0x003fffff; 0x007fffff;
   0x00ffffff; 0x01ffffff; 0x03ffffff; 0x07ffffff;
   0x0fffffff; 0x1fffffff; 0x3fffffff; 0x7fffffff;
   0xffffffff].

Definition MAXULONG : Z := 0xFFFFFFFF.

Definition RtlCheckBit (bm : RTL_BITMAP) (BitPosition : Z) : option Z :=
  w ← get_ulong (Buffer bm) (BitPosition / 32);
  Some (Z.land (Z.shiftr w (BitPosition mod 32)) 0x1).

(** A ULONG with all bits set, and one with all bits clear. *)
Definition hunk_full (v : bool) : Z := if v then 0xFFFFFFFF else 0.

(** [while (PHunk < BitMapEnd) { if ( *PHunk != ~0 ) break; PHunk++; Start += 32; }],
    and the same loop for 0. *)
Fixpoint skip_forward (fuel : nat) (buf : list Z) (v : bool) (BitMapEnd PHunk Start : Z)
    : option (Z * Z) :=
  match fuel with
  | O => None
  | S fuel =>
      if PHunk <? BitMapEnd then
        w ← get_ulong buf PHunk;
        if negb (w =? hunk_full v) then Some (PHunk, Start)
        else skip_forward fuel buf v BitMapEnd (PHunk + 1) (u32 (Start + 32))
      else Some (PHunk, Start)
  end.

(** [while ((Start < SizeOfBitMap) && (RtlCheckBit(Start) == v)) Start += 1;] *)
Fixpoint scan_forward (fuel : nat) (bm : RTL_BITMAP) (v : bool) (Start : Z) : option Z :=
  match fuel with
  | O => None
  | S fuel =>
      if Start <? SizeOfBitMap bm then
        x ← RtlCheckBit bm Start;
        if x =? Z.b2z v then scan_forward fuel bm v (u32 (Start + 1)) else Some Start
      else Some Start
  end.

(** The length of the run, and StartingRunIndex. *)
Definition RtlFindNextForwardRunClear (bm : RTL_BITMAP) (FromIndex : Z) : option (Z * Z) :=
  let Size := SizeOfBitMap bm in
  let fuel := S (Z.to_nat Size) in
  if Size =? 0 then Some (0, FromIndex)
  else
    let BitMapEnd := (Size - 1) / 32 in
    let Start := FromIndex in
    let PHunk := Start / 32 in
    '(PHunk, Start) ←
      (if negb (PHunk =? BitMapEnd) then
         w ← get_ulong (Buffer bm) PHunk;
         let Hunk := Z.lor w (tbl FillMaskUlong (Start mod 32)) in
         if Hunk =? hunk_full true then
           skip_forward fuel (Buffer bm) true BitMapEnd (PHunk + 1) (u32 (Start + (32 - Start mod 32)))
         else Some (PHunk, Start)
       else Some (PHunk, Start));
    Start ← scan_forward fuel bm true Start;
    let End_ := Start in
    '(_, End_) ←
      (if negb (PHunk =? BitMapEnd) then
         w ← get_ulong (Buffer bm) PHunk;
         let Hunk := Z.land w (u32 (Z.lnot (tbl FillMaskUlong (End_ mod 32)))) in
         if Hunk =? hunk_full false then
           skip_forward fuel (Buffer bm) false BitMapEnd (PHunk + 1) (u32 (End_ + (32 - End_ mod 32)))
         else Some (PHunk, End_)
       else Some (PHunk, End_));
    End_ ← scan_forward fuel bm false End_;
    Some (u32 (End_ - Start), Start).

Definition RtlFindFirstRunClear (bm : RTL_BITMAP) : option (Z * Z) :=
  RtlFindNextForwardRunClear bm 0.

(** [while (PHunk > Buffer) { if ( *PHunk != ~0 ) break; PHunk--; End -= 32; }],
    and the same loop for 0. *)
Fixpoint skip_backward (fuel : nat) (buf : list Z) (v : bool) (PHunk End_ : Z) : option (Z * Z) :=
  match fuel with
  | O => None
  | S fuel =>
      if PHunk >? 0 then
        w ← get_ulong buf PHunk;
        if negb (w =? hunk_full v) then Some (PHunk, End_)
        else skip_backward fuel buf v (PHunk - 1) (u32 (End_ - 32))
      else Some (PHunk, End_)
  end.

(** [while ((End != MAXULONG) && (RtlCheckBit(End) == v)) End -= 1;] *)
Fixpoint scan_backward (fuel : nat) (bm : RTL_BITMAP) (v : bool) (End_ : Z) : option Z :=
  match fuel with
  | O => None
  | S fuel =>
      if negb (End_ =? MAXULONG) then
        x ← RtlCheckBit bm End_;
        if x =? Z.b2z v then scan_backward fuel bm v (u32 (End_ - 1)) else Some End_
      else Some End_
  end.

(** The length of the run, and StartingRunIndex. *)
Definition RtlFindLastBackwardRunClear (bm : RTL_BITMAP) (FromIndex : Z) : option (Z * Z) :=
  let fuel := S (S (Z.to_nat FromIndex)) in
  if SizeOfBitMap bm =? 0 then Some (0, FromIndex)
  else
    let End_ := FromIndex in
    let PHunk := End_ / 32 in
    w ← get_ulong (Buffer bm) PHunk;
    let Hunk := Z.lor w (u32 (Z.lnot (tbl FillMaskUlong (End_ mod 32 + 1)))) in
    '(PHunk, End_) ←
      (if Hunk =? hunk_full true then
         skip_backward fuel (Buffer bm) true (PHunk - 1) (u32 (End_ - (End_ mod 32 + 1)))
       else Some (PHunk, End_));
    End_ ← scan_backward fuel bm true End_;
    let Start := End_ in
    w ← get_ulong (Buffer bm) PHunk;
    let Hunk := Z.land w (tbl FillMaskUlong (Start mod 32)) in
    '(_, Start) ←
      (if Hunk =? hunk_full false then
         skip_backward fuel (Buffer bm) false (PHunk - 1) (u32 (Start - (Start mod 32 + 1)))
       else Some (PHunk, Start));
    Start ← scan_backward fuel bm false Start;
    Some (u32 (End_ - Start), u32 (Start + 1)).


(** ** Runs *)

(** [g] holds for the [n] positions from [s] on. *)
Definition run (g : Z -> bool) (s n : Z) : Prop := forall i, s <= i < s + n -> g i = true.

Definition no_run_below (g : Z -> bool) (n j : Z) : Prop := forall s, s < j -> ~ run g s n.

(** [r] is the first position not above [last] where a run of [n] begins, or
    the invalid index when there is none. *)
Definition first_run (g : Z -> bool) (n last r : Z) : Prop :=
  (r = RTL_INVALID_INDEX /\ no_run_below g n (last + 1)) \/
  (0 <= r <= last /\ run g r n /\ no_run_below g n r).

Lemma run_blocked g s n b : s <= b < s + n -> g b = false -> ~ run g s n.
Proof. intros Hb Hg Hr. rewrite (Hr b Hb) in Hg. done. Qed.

(** Extending the region known to hold no start of a run. *)
Lemma no_run_step g n j j' :
  no_run_below g n j -> (forall s, j <= s < j' -> ~ run g s n) -> no_run_below g n j'.
Proof. intros H1 H2 s Hs. destruct (Z.lt_ge_cases s j); [by apply H1|apply H2; lia]. Qed.

(** A position where [g] fails ends every run that reaches it. *)
Lemma no_run_blocked g n j j' b :
  no_run_below g n j -> g b = false -> b < j + n -> j' <= b + 1 -> no_run_below g n j'.
Proof.
  intros H1 Hb Hlt Hle. eapply no_run_step; [exact H1|]. intros s Hs.
  apply (run_blocked g s n b); [lia|done].
Qed.

Lemma no_run_le g n j j' : no_run_below g n j -> j' <= j -> no_run_below g n j'.
Proof. intros H Hle s Hs. apply H. lia. Qed.

(** ** Within a chunk *)

Lemma lowest_set_ok p : lowest_bit (Zpos p) (lowest_set p).
Proof.
  induction p as [p IH|p IH|]; cbn [lowest_set].
  - split; [lia|]. split; [done|]. lia.
  - destruct IH as (H0 & Ht & Hl). split; [lia|].
    change (Zpos (xO p)) with (2 * Zpos p). split.
    + replace (1 + lowest_set p) with (Z.succ (lowest_set p)) by lia. by rewrite Z.double_bits_succ.
    + intros i Hi. destruct (Z.eq_dec i 0) as [->|]; [done|].
      replace i with (Z.succ (i - 1)) by lia. rewrite Z.double_bits_succ. apply Hl. lia.
  - split; [lia|]. split; [done|]. lia.
Qed.

Lemma BitScanForward_ok m :
  0 <= m -> (m = 0 /\ BitScanForward m = None) \/
            (0 < m /\ exists r, BitScanForward m = Some r /\ lowest_bit m r).
Proof.
  intros Hm. destruct m as [|p|p]; [by left|right|lia]. split; [lia|].
  eexists. split; [reflexivity|]. apply lowest_set_ok.
Qed.

Lemma lowest_bit_lt m r k : 0 <= m < 2 ^ k -> 0 <= k -> lowest_bit m r -> r < k.
Proof.
  intros Hm Hk (H0 & Ht & _). destruct (Z.lt_ge_cases r k); [done|].
  by rewrite (Z_bits_above m k r) in Ht by lia.
Qed.

Lemma RtlpClearLSBInChunk_ok c :
  0 <= c < 2 ^ 32 ->
  0 <= RtlpClearLSBInChunk c <= 32 /\
  (forall i, 0 <= i < RtlpClearLSBInChunk c -> Z.testbit c i = false) /\
  (RtlpClearLSBInChunk c < 32 -> Z.testbit c (RtlpClearLSBInChunk c) = true) /\
  (c <> 0 -> RtlpClearLSBInChunk c < 32).
Proof.
  intros Hc. unfold RtlpClearLSBInChunk, CHUNK_BITS.
  destruct (BitScanForward_ok c) as [[-> ->]|(Hp & r & -> & Hr)]; [lia| |].
  - split; [lia|]. split; [intros; apply Z.bits_0|]. split; lia.
  - pose proof (lowest_bit_lt c r 32 Hc ltac:(lia) Hr). destruct Hr as (H0 & Ht & Hl).
    split; [lia|]. split; [done|]. split; [done|lia].
Qed.

Lemma RtlpClearMSBInChunk_ok c :
  0 <= c < 2 ^ 32 ->
  0 <= RtlpClearMSBInChunk c <= 32 /\
  (forall i, 32 - RtlpClearMSBInChunk c <= i < 32 -> Z.testbit c i = false) /\
  (RtlpClearMSBInChunk c < 32 -> Z.testbit c (31 - RtlpClearMSBInChunk c) = true) /\
  (c <> 0 -> RtlpClearMSBInChunk c < 32).
Proof.
  intros Hc. unfold RtlpClearMSBInChunk, BitScanReverse, CHUNK_BITS.
  destruct (Z.eqb_spec c 0) as [->|Hne].
  - split; [lia|]. split; [intros; apply Z.bits_0|]. split; lia.
  - assert (0 <= Z.log2 c < 32) by (split; [apply Z.log2_nonneg|apply Z.log2_lt_pow2; lia]).
    split; [lia|]. split; [intros i Hi; apply Z.bits_above_log2; lia|]. split; [|lia].
    intros _. replace (31 - (32 - Z.log2 c - 1)) with (Z.log2 c) by lia. apply Z.bit_log2. lia.
Qed.

(** One step of the halving: a run of [rem] ones is a run of [rem - s] ones in
    the mask anded with its shift. *)
Lemma shift_and_step m s rem j :
  0 <= s -> s <= rem - s -> 0 <= j ->
  run (Z.testbit m) j rem <-> run (Z.testbit (Z.land m (Z.shiftr m s))) j (rem - s).
Proof.
  intros Hs Hle Hj. split; intros H i Hi.
  - rewrite Z.land_spec, Z.shiftr_spec, !H by lia. done.
  - destruct (Z.lt_ge_cases i (j + (rem - s))).
    + specialize (H i ltac:(lia)). rewrite Z.land_spec in H. apply andb_true_iff in H. by destruct H.
    + specialize (H (i - s) ltac:(lia)). rewrite Z.land_spec, Z.shiftr_spec in H by lia.
      apply andb_true_iff in H. destruct H as [_ H]. by replace (i - s + s) with i in H by lia.
Qed.

Lemma shift_and_ok fuel m rem :
  0 <= m -> 2 <= rem <= Z.of_nat fuel ->
  exists r, shift_and fuel m rem = Some r /\
    match r with
    | None => forall j, 0 <= j -> ~ run (Z.testbit m) j rem
    | Some m' => 0 < m' /\ forall j, 0 <= j -> Z.testbit m' j = true <-> run (Z.testbit m) j rem
    end.
Proof.
  revert m rem. induction fuel as [|fuel IH]; intros m rem Hm Hrem; [lia|]. cbn [shift_and].
  assert (Hs : 0 < rem / 2 /\ rem / 2 <= rem - rem / 2 /\ rem - rem / 2 < rem) by zdiv.
  set (s := rem / 2) in *.
  assert (Hm1 : 0 <= Z.land m (Z.shiftr m s)) by (apply Z.land_nonneg; lia).
  pose proof (fun j => shift_and_step m s rem j ltac:(lia) ltac:(lia)) as Hstep.
  set (m1 := Z.land m (Z.shiftr m s)) in *.
  destruct (Z.eqb_spec m1 0) as [E|E].
  { exists None. split; [done|]. intros j Hj. rewrite Hstep, E by done.
    apply (run_blocked _ _ _ j); [lia|apply Z.bits_0]. }
  destruct (Z.gtb_spec (rem - s) 1).
  - destruct (IH m1 (rem - s) Hm1 ltac:(lia)) as (r & -> & Hr). exists r. split; [done|].
    destruct r as [m'|].
    + destruct Hr as [Hp Hr]. split; [done|]. intros j Hj. by rewrite Hr, Hstep by done.
    + intros j Hj. rewrite Hstep by done. by apply Hr.
  - exists (Some m1). split; [done|]. split; [lia|]. intros j Hj. rewrite Hstep by done.
    replace (rem - s) with 1 by lia. split.
    + intros Ht i Hi. by replace i with j by lia.
    + intros Hr. apply Hr. lia.
Qed.

(** ** Chunks of a predicate *)

(** The chunk [c] holds, as clear bits, the positions of chunk [k] where [g]
    holds. *)
Definition chunk_is (g : Z -> bool) (k c : Z) : Prop :=
  0 <= c < 2 ^ 32 /\ forall i, 0 <= i < 32 -> Z.testbit c i = negb (g (32 * k + i)).

Lemma chunk_at g k c i :
  chunk_is g k c -> 32 * k <= i < 32 * k + 32 -> g i = negb (Z.testbit c (i - 32 * k)).
Proof.
  intros [_ H] Hi. rewrite H by lia. rewrite negb_involutive. f_equal. lia.
Qed.

Lemma chunk_lsb g k c :
  chunk_is g k c ->
  0 <= RtlpClearLSBInChunk c <= 32 /\
  run g (32 * k) (RtlpClearLSBInChunk c) /\
  (RtlpClearLSBInChunk c < 32 -> g (32 * k + RtlpClearLSBInChunk c) = false) /\
  (c <> 0 -> RtlpClearLSBInChunk c < 32).
Proof.
  intros Hc. destruct (RtlpClearLSBInChunk_ok c) as (H0 & Hl & Ht & Hn); [apply Hc|].
  split; [done|]. split; [|split; [|done]].
  - intros i Hi. rewrite (chunk_at g k c) by (done || lia). rewrite Hl by lia. done.
  - intros Hlt. rewrite (chunk_at g k c) by (done || lia). rewrite Z.add_simpl_l, Ht by done. done.
Qed.

Lemma chunk_msb g k c :
  chunk_is g k c ->
  0 <= RtlpClearMSBInChunk c <= 32 /\
  run g (32 * k + 32 - RtlpClearMSBInChunk c) (RtlpClearMSBInChunk c) /\
  (RtlpClearMSBInChunk c < 32 -> g (32 * k + 31 - RtlpClearMSBInChunk c) = false) /\
  (c <> 0 -> RtlpClearMSBInChunk c < 32).
Proof.
  intros Hc. destruct (RtlpClearMSBInChunk_ok c) as (H0 & Hl & Ht & Hn); [apply Hc|].
  split; [done|]. split; [|split; [|done]].
  - intros i Hi. rewrite (chunk_at g k c) by (done || lia). rewrite Hl by lia. done.
  - intros Hlt. rewrite (chunk_at g k c) by (done || lia).
    replace (32 * k + 31 - RtlpClearMSBInChunk c - 32 * k) with (31 - RtlpClearMSBInChunk c) by lia.
    by rewrite Ht.
Qed.

Lemma chunk_nonclear g k c :
  chunk_is g k c -> c <> 0 -> exists b, 32 * k <= b < 32 * k + 32 /\ g b = false.
Proof.
  intros Hc Hn. destruct (chunk_lsb g k c Hc) as (H0 & _ & Hf & Hlt). specialize (Hlt Hn).
  exists (32 * k + RtlpClearLSBInChunk c). split; [lia|auto].
Qed.

Lemma chunk_clear g k : chunk_is g k 0 -> run g (32 * k) 32.
Proof. intros Hc i Hi. rewrite (chunk_at g k 0) by (done || lia). by rewrite Z.bits_0. Qed.

Lemma chunk_set g k i : chunk_is g k CHUNK_SET -> 32 * k <= i < 32 * k + 32 -> g i = false.
Proof.
  intros Hc Hi. rewrite (chunk_at g k CHUNK_SET) by done.
  unfold CHUNK_SET. change 0xFFFFFFFF with (Z.ones 32). rewrite Z.ones_spec_low by lia. done.
Qed.

Lemma not_chunk_bit c i : 0 <= i < 32 -> Z.testbit (u32 (Z.lnot c)) i = negb (Z.testbit c i).
Proof. intros. unfold uwrap. rewrite Z.mod_pow2_bits_low, Z.lnot_spec by lia. done. Qed.

Lemma not_chunk_high c i : 32 <= i -> Z.testbit (u32 (Z.lnot c)) i = false.
Proof. intros. unfold uwrap. by rewrite Z.mod_pow2_bits_high by lia. Qed.

Lemma not_chunk_bit_g g k c i :
  chunk_is g k c -> 0 <= i < 32 -> Z.testbit (u32 (Z.lnot c)) i = g (32 * k + i).
Proof. intros [_ H] Hi. rewrite not_chunk_bit, H by done. apply negb_involutive. Qed.

(** RtlpFindClearRunInChunk finds the first run that lies inside the chunk. *)
Lemma RtlpFindClearRunInChunk_ok g k c n :
  chunk_is g k c -> 2 <= n < 32 ->
  exists r, RtlpFindClearRunInChunk c n = Some r /\
    match r with
    | None => forall s, 32 * k <= s -> s + n <= 32 * k + 32 -> ~ run g s n
    | Some b => 0 <= b /\ b + n <= 32 /\ run g (32 * k + b) n /\
                forall s, 32 * k <= s < 32 * k + b -> ~ run g s n
    end.
Proof.
  intros Hc Hn. unfold RtlpFindClearRunInChunk. set (m := u32 (Z.lnot c)).
  assert (Hin : forall j, 0 <= j -> run (Z.testbit m) j n <-> j + n <= 32 /\ run g (32 * k + j) n).
  { intros j Hj. split.
    - intros Hr. split.
      + destruct (Z.le_gt_cases (j + n) 32); [done|]. exfalso.
        assert (Hb : j <= Z.max j 32 < j + n) by lia. pose proof (Hr _ Hb) as Ht.
        unfold m in Ht. rewrite not_chunk_high in Ht by lia. done.
      + intros i Hi. specialize (Hr (i - 32 * k) ltac:(lia)). unfold m in Hr.
        destruct (Z.lt_ge_cases (i - 32 * k) 32); [|by rewrite not_chunk_high in Hr by lia].
        rewrite (not_chunk_bit_g g k) in Hr by (done || lia). by replace (32 * k + (i - 32 * k)) with i in Hr by lia.
    - intros [Hle Hr] i Hi. unfold m. rewrite (not_chunk_bit_g g k) by (done || lia). apply Hr. lia. }
  destruct (shift_and_ok (Z.to_nat n) m n) as (r & -> & Hr);
    [apply (uwrap_range 32); lia|lia|]. cbn [mbind option_bind].
  destruct r as [m'|].
  - destruct Hr as [Hp Hr].
    destruct (BitScanForward_ok m') as [[-> _]|(_ & b & -> & H0 & Ht & Hl)]; [lia|lia|].
    exists (Some b). split; [done|]. rewrite Hr, Hin in Ht by done. destruct Ht as [Hle Hrun].
    split; [done|]. split; [done|]. split; [done|]. intros s Hs Hrs.
    specialize (Hl (s - 32 * k) ltac:(lia)).
    assert (Z.testbit m' (s - 32 * k) = true) as Ht; [|congruence].
    apply Hr; [lia|]. apply Hin; [lia|]. split; [lia|]. by replace (32 * k + (s - 32 * k)) with s by lia.
  - exists None. split; [done|]. intros s Hs Hle Hrs. apply (Hr (s - 32 * k)); [lia|].
    apply Hin; [lia|]. split; [lia|]. by replace (32 * k + (s - 32 * k)) with s by lia.
Qed.

(** ** The four searches find the first run *)

Section SearchOk.
Variables (read : Z -> option Z) (g : Z -> bool) (k0 kE N last : Z).
(** Nothing is free below the first chunk, the chunks after it read as [g]
    says, up to the one that holds the last bit of the range. *)
Hypothesis Hk0 : 0 <= k0.
Hypothesis HkE : 32 * kE + 32 <= 2 ^ 32.
Hypothesis Hbelow : forall i, i < 32 * k0 -> g i = false.
Hypothesis Hread : forall k, k0 < k <= kE -> exists c, read k = Some c /\ chunk_is g k c.
Hypothesis HN : 0 < N < 2 ^ 32.
Hypothesis Hlast0 : 32 * k0 <= last.
Hypothesis Hlast : 32 * kE <= last + N - 1 < 32 * kE + 32.

Local Abbreviation spec := (first_run g N last).
Local Abbreviation none := (no_run_below g N).

Lemma none_start : none (32 * k0).
Proof. intros s Hs. apply (run_blocked g s N s); [lia|by apply Hbelow]. Qed.

Lemma spec_invalid j : none j -> last < j -> spec RTL_INVALID_INDEX.
Proof. intros H Hj. left. split; [done|]. eapply no_run_le; [exact H|lia]. Qed.

Lemma spec_found r : 0 <= r <= last -> run g r N -> none r -> spec r.
Proof. intros. by right. Qed.

(** The last line of every search: the run must not begin too late. *)
Lemma spec_finish r :
  0 <= r -> run g r N -> none r ->
  exists r', (if r >? last then Some RTL_INVALID_INDEX else Some r) = Some r' /\ spec r'.
Proof.
  intros Hr Hrun Hn. destruct (Z.gtb_spec r last); eexists; (split; [reflexivity|]).
  - by apply (spec_invalid r).
  - apply spec_found; [lia|done|done].
Qed.

Lemma chunk_start_small k : 0 <= k <= kE -> u32 (k * CHUNK_BITS) = 32 * k.
Proof. intros. unfold CHUNK_BITS. rewrite u32_small by lia. lia. Qed.

(** *** One bit *)

Lemma find_single_ok fuel k c :
  N = 1 -> k0 <= k <= kE -> chunk_is g k c -> none (32 * k) -> kE - k < Z.of_nat fuel ->
  exists r, find_single read last fuel k c = Some r /\ spec r.
Proof.
  intros HN1. revert k c. induction fuel as [|fuel IH]; intros k c Hk Hc Hn Hf; [lia|].
  cbn [find_single]. destruct (Z.eqb_spec c CHUNK_SET) as [->|Hne].
  - assert (Hn' : none (32 * (k + 1))).
    { eapply no_run_step; [exact Hn|]. intros s Hs. apply (run_blocked g s N s); [lia|].
      apply (chunk_set g k); [done|lia]. }
    unfold CHUNK_BITS. destruct (Z.gtb_spec (k + 1) (last / 32)) as [Hgt|Hgt].
    + eexists. split; [reflexivity|]. apply (spec_invalid _ Hn'). zdiv.
    + destruct (Hread (k + 1)) as (c' & -> & Hc'); [zdiv|]. cbn [mbind option_bind].
      apply IH; [zdiv|done|done|lia].
  - destruct (BitScanForward_ok (u32 (Z.lnot c))) as [[Hz _]|(_ & r & -> & Hr)];
      [apply (uwrap_range 32); lia| |].
    { exfalso. apply Hne. destruct Hc as [Hc _]. apply Z.bits_inj'. intros i Hi.
      destruct (Z.lt_ge_cases i 32).
      - pose proof (not_chunk_bit c i ltac:(lia)) as Hb. rewrite Hz, Z.bits_0 in Hb.
        unfold CHUNK_SET. change 0xFFFFFFFF with (Z.ones 32). rewrite Z.ones_spec_low by lia.
        by destruct (Z.testbit c i).
      - rewrite (Z_bits_above c 32), (Z_bits_above CHUNK_SET 32); unfold CHUNK_SET; lia || done. }
    cbn [mbind option_bind].
    assert (Hr32 : r < 32) by (eapply lowest_bit_lt; [apply (uwrap_range 32); lia|lia|exact Hr]).
    destruct Hr as (H0 & Ht & Hl). rewrite (not_chunk_bit_g g k) in Ht by (done || lia).
    rewrite chunk_start_small, u32_small, (Z.add_comm r) by lia.
    apply spec_finish; [lia|intros i Hi; by replace i with (32 * k + r) by lia|].
    eapply no_run_step; [exact Hn|]. intros s Hs. apply (run_blocked g s N s); [lia|].
    pose proof (Hl (s - 32 * k) ltac:(lia)) as Hf'.
    rewrite (not_chunk_bit_g g k) in Hf' by (done || lia).
    by replace (32 * k + (s - 32 * k)) with s in Hf' by lia.
Qed.

(** *** Less than a chunk *)

Lemma find_small_ok fuel k c tail :
  2 <= N < 32 -> k0 <= k <= kE -> chunk_is g k c -> 0 <= tail < N ->
  run g (32 * k - tail) tail -> none (32 * k - tail) -> kE - k < Z.of_nat fuel ->
  exists r, find_small read N last fuel kE k c tail = Some r /\ spec r.
Proof.
  intros HN2. revert k c tail.
  induction fuel as [|fuel IH]; intros k c tail Hk Hc Htl Hrun Hn Hf; [lia|].
  cbn [find_small]. destruct (Z.eqb_spec c CHUNK_SET) as [->|Hne].
  - assert (Hn' : none (32 * (k + 1))).
    { assert (none (32 * k + 1)) by
        (eapply (no_run_blocked _ _ _ _ (32 * k)); [exact Hn|apply (chunk_set g k); [done|lia]|lia|lia]).
      eapply no_run_step; [eassumption|]. intros s Hs. apply (run_blocked g s N s); [lia|].
      apply (chunk_set g k); [done|lia]. }
    unfold CHUNK_BITS. destruct (Z.gtb_spec (k + 1) (last / 32)) as [Hgt|Hgt].
    + eexists. split; [reflexivity|]. apply (spec_invalid _ Hn'). zdiv.
    + destruct (Hread (k + 1)) as (c' & -> & Hc'); [zdiv|]. cbn [mbind option_bind].
      apply IH; [zdiv|done|lia|intros i Hi; lia|by rewrite Z.sub_0_r|lia].
  - destruct (chunk_lsb g k c Hc) as (Hh & Hhead & Hstop & _).
    set (head := RtlpClearLSBInChunk c) in *. rewrite chunk_start_small by lia. cbv zeta.
    destruct (Z.geb_spec (head + tail) N) as [Hge|Hlt].
    + assert (Hnn : 0 <= 32 * k - tail).
      { destruct (Z.eq_dec tail 0); [lia|]. destruct (Z.le_gt_cases (32 * k0) (32 * k - tail)); [lia|].
        pose proof (Hrun (32 * k - tail) ltac:(lia)) as Ht. rewrite Hbelow in Ht by lia. done. }
      replace (u32 (u32 (0 - tail) + 32 * k)) with (32 * k - tail)
        by (unfold uwrap; rewrite Z.add_mod_idemp_l, Z.mod_small by lia; lia).
      apply spec_finish; [lia| |done]. intros i Hi.
      destruct (Z.lt_ge_cases i (32 * k)); [apply Hrun|apply Hhead]; lia.
    + assert (Hn' : none (32 * k)).
      { eapply (no_run_blocked _ _ _ _ (32 * k + head)); [exact Hn|apply Hstop; lia|lia|lia]. }
      destruct (RtlpFindClearRunInChunk_ok g k c N Hc HN2) as (r & -> & Hr). cbn [mbind option_bind].
      destruct r as [b|].
      * destruct Hr as (Hb0 & Hb & Hbrun & Hbfirst). rewrite u32_small, (Z.add_comm b) by lia.
        apply spec_finish; [lia|done|]. eapply no_run_step; [exact Hn'|done].
      * destruct (Z.eqb_spec k kE) as [->|Hke].
        { eexists. split; [reflexivity|]. apply (spec_invalid (last + 1)); [|lia].
          eapply no_run_step; [exact Hn'|]. intros s Hs. apply Hr; lia. }
        destruct (chunk_msb g k c Hc) as (Hm & Hmrun & Hmstop & _).
        set (tail' := RtlpClearMSBInChunk c) in *.
        assert (Htail' : tail' < N).
        { destruct (Z.lt_ge_cases tail' N); [done|]. exfalso.
          apply (Hr (32 * k + 32 - tail')); [lia|lia|]. intros i Hi. apply Hmrun. lia. }
        destruct (Hread (k + 1)) as (c' & -> & Hc'); [lia|]. cbn [mbind option_bind].
        replace (32 * k + 32 - tail') with (32 * (k + 1) - tail') in Hmrun by lia.
        apply IH; [lia|done|lia|done| |lia].
        eapply no_run_step; [exact Hn'|]. intros s Hs.
        destruct (Z.le_gt_cases (s + N) (32 * k + 32)); [apply Hr; lia|].
        apply (run_blocked g s N (32 * k + 31 - tail')); [lia|apply Hmstop; lia].
Qed.

(** *** One to three chunks *)

Lemma find_medium_ok fuel k c :
  32 <= N < 64 -> k0 <= k <= kE -> chunk_is g k c -> none (32 * k) -> kE - k < Z.of_nat fuel ->
  exists r, find_medium read N last fuel k c = Some r /\ spec r.
Proof.
  intros HN2. revert k c. induction fuel as [|fuel IH]; intros k c Hk Hc Hn Hf; [lia|].
  cbn [find_medium].
  assert (Hhigh : (Z.land c CHUNK_HIGH_BIT =? 0) = g (32 * k + 31)).
  { rewrite (chunk_at g k c) by (done || lia). replace (32 * k + 31 - 32 * k) with 31 by lia.
    unfold CHUNK_HIGH_BIT. change 0x80000000 with (2 ^ 32 - 2 ^ 31).
    rewrite land_window, (Z.testbit_eqb c 31) by lia. change (2 ^ (32 - 31)) with 2. zdiv. }
  rewrite Hhigh. destruct (g (32 * k + 31)) eqn:Eh; cbn [negb].
  2:{ assert (Hn' : none (32 * (k + 1))) by
        (eapply (no_run_blocked _ _ _ _ (32 * k + 31)); [exact Hn|done|lia|lia]).
      unfold CHUNK_BITS. destruct (Z.gtb_spec (k + 1) (last / 32)) as [Hgt|Hgt].
      + eexists. split; [reflexivity|]. apply (spec_invalid _ Hn'). zdiv.
      + destruct (Hread (k + 1)) as (c' & -> & Hc'); [zdiv|]. cbn [mbind option_bind].
        apply IH; [zdiv|done|done|lia]. }
  destruct (chunk_msb g k c Hc) as (Hm & Hmrun & Hmstop & _).
  set (head := RtlpClearMSBInChunk c) in *. rewrite chunk_start_small by lia. cbv zeta.
  unfold CHUNK_BITS, CHUNK_CLEAR.
  assert (Hhead1 : 0 < head).
  { destruct (Z.lt_ge_cases 0 head); [done|]. assert (head = 0) as E0 by lia.
    rewrite E0, Z.sub_0_r in Hmstop. specialize (Hmstop ltac:(lia)). congruence. }
  destruct (Z.lt_ge_cases (32 * k + (32 - head)) (2 ^ 32)); [|lia].
  rewrite u32_small by lia. set (start := 32 * k + (32 - head)) in *.
  assert (Hns : none start).
  { destruct (Z.eq_dec head 32); [by replace start with (32 * k) by lia|].
    eapply (no_run_blocked _ _ _ _ (32 * k + 31 - head)); [exact Hn|apply Hmstop; lia|lia|lia]. }
  replace (32 * k + 32 - head) with start in Hmrun by lia.
  destruct (Z.gtb_spec start last) as [Hgt|Hle].
  { eexists. split; [reflexivity|]. by apply (spec_invalid start). }
  rewrite u32_small by lia. remember (N - head) as rem eqn:Hrem.
  destruct (Z.eqb_spec rem 0) as [Hr0|Hr0].
  { eexists. split; [reflexivity|]. apply spec_found; [lia| |done].
    intros i Hi. apply Hmrun. lia. }
  assert (k + 1 <= kE) by lia.
  destruct (Hread (k + 1)) as (c1 & -> & Hc1); [lia|]. cbn [mbind option_bind].
  destruct (chunk_lsb g (k + 1) c1 Hc1) as (Hl1 & Hl1run & Hl1stop & _).
  destruct (Z.geb_spec rem 32) as [Hge|Hlt].
  - destruct (Z.eqb_spec c1 0) as [->|Hne]; cbn [negb].
    + pose proof (chunk_clear g (k + 1) Hc1) as Hc1run.
      destruct (Z.eqb_spec (rem - 32) 0) as [Hr1|Hr1].
      { eexists. split; [reflexivity|]. apply spec_found; [lia| |done]. intros i Hi.
        destruct (Z.lt_ge_cases i (32 * (k + 1))); [apply Hmrun|apply Hc1run]; lia. }
      assert (k + 2 <= kE) by lia.
      destruct (Hread (k + 1 + 1)) as (c2 & -> & Hc2); [lia|]. cbn [mbind option_bind].
      destruct (chunk_lsb g (k + 1 + 1) c2 Hc2) as (Hl2 & Hl2run & Hl2stop & _).
      destruct (Z.geb_spec (RtlpClearLSBInChunk c2) (rem - 32)) as [Hok|Hko].
      * eexists. split; [reflexivity|]. apply spec_found; [lia| |done]. intros i Hi.
        destruct (Z.lt_ge_cases i (32 * (k + 1))); [apply Hmrun; lia|].
        destruct (Z.lt_ge_cases i (32 * (k + 1 + 1))); [apply Hc1run|apply Hl2run]; lia.
      * apply IH; [lia|done| |lia].
        eapply (no_run_blocked _ _ start _ (32 * (k + 1 + 1) + RtlpClearLSBInChunk c2));
          [exact Hns|apply Hl2stop; lia|lia|lia].
    + destruct (chunk_nonclear g (k + 1) c1 Hc1 Hne) as (b & Hb & Hgb).
      apply IH; [lia|done| |lia].
      eapply (no_run_blocked _ _ start _ b); [exact Hns|done|lia|lia].
  - destruct (Z.geb_spec (RtlpClearLSBInChunk c1) rem) as [Hok|Hko].
    + eexists. split; [reflexivity|]. apply spec_found; [lia| |done]. intros i Hi.
      destruct (Z.lt_ge_cases i (32 * (k + 1))); [apply Hmrun|apply Hl1run]; lia.
    + apply IH; [lia|done| |lia].
      eapply (no_run_blocked _ _ start _ (32 * (k + 1) + RtlpClearLSBInChunk c1));
        [exact Hns|apply Hl1stop; lia|lia|lia].
Qed.

(** *** At least one whole chunk *)

Definition bad_chunk (k : Z) : Prop := exists b, 32 * k <= b < 32 * k + 32 /\ g b = false.

Lemma clear_chunks_ok fuel start k kend :
  k0 < k -> k <= kend <= kE + 1 -> run g start (32 * k - start) -> kend - k < Z.of_nat fuel ->
  exists k' ok, clear_chunks read fuel k kend = Some (k', ok) /\ k <= k' <= kend /\
    (if ok : bool then k' = kend /\ run g start (32 * kend - start)
     else k' < kend /\ bad_chunk k').
Proof.
  revert k. induction fuel as [|fuel IH]; intros k Hk Hke Hrun Hf; [lia|]. cbn [clear_chunks].
  destruct (Z.eqb_spec k kend) as [->|Hne].
  { exists kend, true. split; [done|]. split; [lia|]. done. }
  destruct (Hread k) as (c & -> & Hc); [lia|]. cbn [mbind option_bind]. unfold CHUNK_CLEAR.
  destruct (Z.eqb_spec c 0) as [->|Hcn]; cbn [negb].
  - destruct (IH (k + 1)) as (k' & ok & -> & Hk' & H); [lia|lia| |lia|].
    { intros i Hi. destruct (Z.lt_ge_cases i (32 * k)); [apply Hrun; lia|].
      apply (chunk_clear g k Hc). lia. }
    exists k', ok. split; [done|]. split; [lia|done].
  - exists k, false. split; [done|]. split; [lia|]. split; [lia|].
    by apply (chunk_nonclear g k c).
Qed.

Lemma largeLoopEntry_ok again k head :
  64 <= N -> k0 <= k <= kE -> 0 <= head < 32 ->
  run g (32 * k - head) (head + 32) -> none (32 * k - head) ->
  (forall k', k < k' <= kE -> bad_chunk k' -> none (32 * k' + 1) ->
     exists r, again k' = Some r /\ spec r) ->
  exists r, largeLoopEntry read N last again k head = Some r /\ spec r.
Proof.
  intros HN2 Hk Hh Hrun Hn Hagain. unfold largeLoopEntry. rewrite chunk_start_small by lia.
  unfold CHUNK_BITS. set (start := 32 * k - head) in *.
  assert (Hs0 : 0 <= start).
  { destruct (Z.le_gt_cases (32 * k0) start); [lia|].
    pose proof (Hrun start ltac:(lia)) as Ht. rewrite Hbelow in Ht by lia. done. }
  rewrite u32_small by lia. cbv zeta.
  destruct (Z.gtb_spec start last) as [Hgt|Hle].
  { eexists. split; [reflexivity|]. by apply (spec_invalid start). }
  rewrite u32_small by lia.
  remember ((N - head) / 32) as req eqn:Hreq. remember ((N - head) mod 32) as tail eqn:Htail.
  assert (HNh : N - head = 32 * req + tail /\ 0 <= tail < 32 /\ 1 <= req) by zdiv.
  destruct (clear_chunks_ok (Z.to_nat req) start (k + 1) (k + req)) as (k' & ok & -> & Hk' & Hok);
    [lia|lia|intros i Hi; apply Hrun; lia|lia|]. cbn [mbind option_bind].
  destruct ok; cbn [negb].
  - destruct Hok as [-> Hall]. destruct (Z.eqb_spec tail 0) as [Ht|Ht]; cbn [negb].
    + eexists. split; [reflexivity|]. apply spec_found; [lia| |done].
      intros i Hi. apply Hall. lia.
    + destruct (Hread (k + req)) as (c & -> & Hc); [lia|]. cbn [mbind option_bind].
      destruct (chunk_lsb g (k + req) c Hc) as (Hl & Hlrun & Hlstop & _).
      destruct (Z.ltb_spec (RtlpClearLSBInChunk c) tail) as [Hlt|Hge].
      * apply Hagain; [lia|exists (32 * (k + req) + RtlpClearLSBInChunk c); split; [lia|apply Hlstop; lia]|].
        eapply (no_run_blocked _ _ start _ (32 * (k + req) + RtlpClearLSBInChunk c));
          [exact Hn|apply Hlstop; lia|lia|lia].
      * eexists. split; [reflexivity|]. apply spec_found; [lia| |done]. intros i Hi.
        destruct (Z.lt_ge_cases i (32 * (k + req))); [apply Hall|apply Hlrun]; lia.
  - destruct Hok as [Hlt Hbad]. apply Hagain; [lia|done|]. destruct Hbad as (b & Hb & Hgb).
    eapply (no_run_blocked _ _ start _ b); [exact Hn|done|lia|lia].
Qed.

(** The run that begins in the last bits of chunk [k - 1]. *)
Lemma head_run k prev :
  chunk_is g (k - 1) prev -> prev <> 0 -> chunk_is g k 0 -> none (32 * (k - 1)) \/ none (32 * (k - 1) + 1) ->
  64 <= N ->
  0 <= RtlpClearMSBInChunk prev < 32 /\
  run g (32 * k - RtlpClearMSBInChunk prev) (RtlpClearMSBInChunk prev + 32) /\
  none (32 * k - RtlpClearMSBInChunk prev).
Proof.
  intros Hp Hne Hc Hn HN2. destruct (chunk_msb g (k - 1) prev Hp) as (Hm & Hmrun & Hmstop & Hlt).
  specialize (Hlt Hne). set (head := RtlpClearMSBInChunk prev) in *.
  assert (none (32 * (k - 1))) by (destruct Hn; [done|eapply no_run_le; [eassumption|lia]]).
  split; [lia|]. split.
  - intros i Hi. destruct (Z.lt_ge_cases i (32 * k)); [apply Hmrun; lia|].
    apply (chunk_clear g k Hc). lia.
  - eapply (no_run_blocked _ _ _ _ (32 * (k - 1) + 31 - head)); [eassumption|apply Hmstop; lia|lia|lia].
Qed.

Lemma findRunStartLarge_ok lpcc fuel k :
  64 <= N -> last <= 32 * lpcc -> lpcc + 1 <= kE ->
  k0 < k <= kE -> bad_chunk k -> none (32 * k + 1) -> kE - k < Z.of_nat fuel ->
  exists r, findRunStartLarge read N last fuel lpcc k = Some r /\ spec r.
Proof.
  intros HN2 Hl1 Hl2. revert k. induction fuel as [|fuel IH]; intros k Hk Hbad Hn Hf; [lia|].
  cbn [findRunStartLarge]. destruct (Z.gtb_spec k lpcc).
  { eexists. split; [reflexivity|]. apply (spec_invalid _ Hn). lia. }
  destruct (Hread (k + 1)) as (c & -> & Hc); [lia|]. cbn [mbind option_bind]. unfold CHUNK_CLEAR.
  destruct (Z.eqb_spec c 0) as [->|Hne].
  - destruct (Hread (k + 1 - 1)) as (prev & -> & Hp); [lia|]. cbn [mbind option_bind].
    assert (Hpn : prev <> 0).
    { intros ->. destruct Hbad as (b & Hb & Hgb). pose proof (chunk_clear _ _ Hp b ltac:(lia)). congruence. }
    destruct (head_run (k + 1) prev Hp Hpn Hc) as (Hh & Hrun & Hn'); [|done|].
    { right. by replace (32 * (k + 1 - 1) + 1) with (32 * k + 1) by lia. }
    apply largeLoopEntry_ok; [done|lia|done|done|done|]. intros k' Hk' Hbad' Hn''.
    apply IH; [lia|done|done|lia].
  - pose proof (chunk_nonclear g (k + 1) c Hc Hne) as Hbad'.
    apply IH; [lia|done| |lia]. destruct Hbad' as (b & Hb & Hgb).
    eapply (no_run_blocked _ _ _ _ b); [exact Hn|done|lia|lia].
Qed.

Lemma find_large_ok fuel c :
  64 <= N -> k0 <= kE -> chunk_is g k0 c -> kE - k0 < Z.of_nat fuel ->
  exists r, find_large read N last fuel k0 c = Some r /\ spec r.
Proof.
  intros HN2 Hk Hc Hf. unfold find_large, CHUNK_BITS, CHUNK_CLEAR. cbv zeta.
  pose proof none_start as Hn0.
  set (lpcc := if negb (last mod 32 =? 0) then last / 32 + 1 else last / 32).
  assert (Hlpcc : last <= 32 * lpcc /\ lpcc + 1 <= kE).
  { subst lpcc. destruct (Z.eqb_spec (last mod 32) 0); cbn [negb]; zdiv. }
  assert (Hagain : forall k', k0 < k' <= kE -> bad_chunk k' -> none (32 * k' + 1) ->
    exists r, findRunStartLarge read N last fuel lpcc k' = Some r /\ spec r).
  { intros k' Hk' Hbad Hn. apply findRunStartLarge_ok; lia || done. }
  destruct (Z.eqb_spec c 0) as [->|Hne].
  - apply largeLoopEntry_ok; [done|lia|lia| |by rewrite Z.sub_0_r|].
    + rewrite Z.sub_0_r. by apply chunk_clear.
    + intros k' Hk'. apply Hagain. lia.
  - destruct (Hread (k0 + 1)) as (c1 & -> & Hc1); [lia|]. cbn [mbind option_bind].
    destruct (Z.eqb_spec c1 0) as [->|Hne1].
    + replace k0 with (k0 + 1 - 1) in Hc, Hn0 by lia.
      destruct (head_run (k0 + 1) c Hc Hne Hc1 (or_introl Hn0) HN2) as (Hh & Hrun & Hn').
      apply largeLoopEntry_ok; [done|lia|done|done|done|]. intros k' Hk'. apply Hagain. lia.
    + pose proof (chunk_nonclear g (k0 + 1) c1 Hc1 Hne1) as Hbad.
      apply Hagain; [lia|done|]. destruct Hbad as (b & Hb & Hgb).
      eapply (no_run_blocked _ _ _ _ b); [exact Hn0|done|lia|lia].
Qed.
End SearchOk.

(** ** The range search *)

(** A position is free for a search for clear bits when the bit is clear, and
    for an inverted search when it is set. *)
Definition free (buf : list Z) (Invert : bool) (i : Z) : bool := Bool.eqb (bit buf i) Invert.

(** [r] is the first place in the range from [rs] to [re] for a run of [n]
    free bits, or the invalid index when there is none. *)
Definition first_in_range (f : Z -> bool) (rs re n r : Z) : Prop :=
  (r = RTL_INVALID_INDEX /\ forall s, rs <= s -> s + n - 1 <= re -> ~ run f s n) \/
  (rs <= r /\ r + n - 1 <= re /\ run f r n /\ forall s, rs <= s < r -> ~ run f s n).

Lemma read_chunk_ok buf inv k :
  bytes_ok buf -> 0 <= k -> 4 * k + 4 <= zlen buf ->
  exists c, READ_CHUNK buf inv k = Some c /\ chunk_is (free buf inv) k c.
Proof.
  intros Hb Hk Hlen. unfold READ_CHUNK.
  destruct (get_ulong_in buf k Hb Hk Hlen) as (c & -> & Hc & Hbits). cbn [mbind option_bind].
  eexists. split; [reflexivity|]. destruct inv.
  - split; [apply (uwrap_range 32); lia|]. intros i Hi. rewrite not_chunk_bit, Hbits by done.
    unfold free. by destruct (bit buf _).
  - split; [done|]. intros i Hi. rewrite Hbits by done. unfold free. by destruct (bit buf _).
Qed.

(** The first chunk, with the bits below the range masked off. *)
Lemma first_chunk_ok f rs c :
  0 <= rs -> chunk_is f (rs / 32) c ->
  chunk_is (fun i => (rs <=? i) && f i) (rs / 32)
    (Z.lor c (u32 (Z.shiftl 1 (rs mod 32)) - 1)).
Proof.
  intros Hrs [Hc Hbits].
  assert (Hm : 0 <= rs mod 32 < 32) by zdiv.
  assert (0 < 2 ^ (rs mod 32) < 2 ^ 32) by (split; [lia|apply Z.pow_lt_mono_r; lia]).
  rewrite Z.shiftl_1_l, u32_small, Z.sub_1_r, <- Z.ones_equiv by lia.
  set (m := rs mod 32) in *.
  assert (Hb : forall i, 0 <= i -> Z.testbit (Z.lor c (Z.ones m)) i = Z.testbit c i || (i <? m)).
  { intros i Hi. rewrite Z.lor_spec, Z.testbit_ones_nonneg by lia. done. }
  split.
  - apply Z_bits_bound; [lia|]. intros i Hi. rewrite Hb, (Z_bits_above c 32) by lia. lia.
  - intros i Hi. rewrite Hb, Hbits by lia.
    replace (rs <=? 32 * (rs / 32) + i) with (negb (i <? m)) by (subst m; zdiv).
    by destruct (i <? m), (f _).
Qed.

Lemma RtlpFindClearBitsRange_ok buf inv n rs re :
  bytes_ok buf -> zlen buf mod 4 = 0 -> 0 <= rs <= re -> re < 8 * zlen buf -> re < 2 ^ 32 - 1 ->
  0 < n < 2 ^ 32 ->
  exists r, RtlpFindClearBitsRange buf n rs re inv = Some r /\
    first_in_range (free buf inv) rs re n r.
Proof.
  intros Hb Hw Hrs Hre Hmax Hn. unfold RtlpFindClearBitsRange. cbv zeta.
  rewrite (u32_small (re - rs)), (u32_small (re - rs + 1)) by lia.
  destruct (Z.ltb_spec (re - rs + 1) n).
  { eexists. split; [reflexivity|]. left. split; [done|]. lia. }
  assert (0 <= re - n + 1) by lia.
  replace (u32 (u32 (re - n) + 1)) with (re - n + 1)
    by (unfold uwrap; rewrite Z.add_mod_idemp_l, Z.mod_small by lia; lia).
  set (f := free buf inv). set (g := fun i => (rs <=? i) && f i).
  assert (Hk : 0 <= rs / 32 <= re / 32 /\ 32 * (rs / 32) <= rs < 32 * (rs / 32) + 32 /\
    32 * (re / 32) <= re < 32 * (re / 32) + 32 /\ 4 * (re / 32) + 4 <= zlen buf) by zdiv.
  unfold CHUNK_BITS.
  destruct (read_chunk_ok buf inv (rs / 32)) as (c & -> & Hc); [done|lia|lia|].
  cbn [mbind option_bind]. apply first_chunk_ok in Hc; [|lia]. fold f g in Hc.
  set (first := Z.lor _ _) in *.
  assert (Hread : forall k, rs / 32 < k <= re / 32 ->
    exists c, READ_CHUNK buf inv k = Some c /\ chunk_is g k c).
  { intros k Hk'. destruct (read_chunk_ok buf inv k) as (c' & -> & Hc' & Hb'); [done|lia|lia|].
    exists c'. split; [done|]. split; [done|]. intros i Hi. rewrite Hb' by done. unfold g.
    by destruct (Z.leb_spec rs (32 * k + i)); [|lia]. }
  assert (Hbelow : forall i, i < 32 * (rs / 32) -> g i = false).
  { intros i Hi. unfold g. by destruct (Z.leb_spec rs i); [lia|]. }
  assert (Hconv : forall s, run g s n <-> rs <= s /\ run f s n).
  { intros s. unfold g. split.
    - intros Hr. pose proof (Hr s ltac:(lia)) as H1. apply andb_true_iff in H1. split; [lia|].
      intros i Hi. specialize (Hr i Hi). apply andb_true_iff in Hr. by destruct Hr.
    - intros [Hs Hr] i Hi. rewrite Hr by done. lia. }
  assert (Hfin : forall o, (exists r, o = Some r /\ first_run g n (re - n + 1) r) ->
    exists r, o = Some r /\ first_in_range f rs re n r).
  { intros o (r & -> & [(-> & Hno)|(Hr & Hrun & Hno)]); exists r || eexists; (split; [reflexivity|]).
    - left. split; [done|]. intros s Hs Hle Hrs'. apply (Hno s); [lia|]. by apply Hconv.
    - apply Hconv in Hrun. right. split; [tauto|]. split; [lia|]. split; [tauto|].
      intros s Hs Hrs'. apply (Hno s); [lia|]. apply Hconv. split; [lia|done]. }
  apply Hfin.
  assert (Hns : no_run_below g n (32 * (rs / 32))) by (apply (none_start g (rs / 32) n); lia || done).
  destruct (Z.gtb_spec n (2 * 32 - 1)); [|destruct (Z.geb_spec n 32); [|destruct (Z.gtb_spec n 1)]].
  - eapply (find_large_ok _ g (rs / 32) (re / 32)); try done; lia.
  - eapply (find_medium_ok _ g (rs / 32) (re / 32)); try done; lia.
  - eapply (find_small_ok _ g (rs / 32) (re / 32)); try done; try lia.
    + intros i Hi. lia.
    + by rewrite Z.sub_0_r.
  - eapply (find_single_ok _ g (rs / 32) (re / 32)); try done; lia.
Qed.

(** ** The exported searches *)

(** What RtlFindClearBits and RtlFindSetBits promise for a hint: a run inside
    the bit map, the first one from the hint on if there is one, else the first
    one of all; the invalid index only when there is no run. *)
Definition found_from_hint (f : Z -> bool) (Size n hint r : Z) : Prop :=
  let h := if hint >=? Size then 0 else hint in
  (r = RTL_INVALID_INDEX /\ forall s, 0 <= s -> s + n <= Size -> ~ run f s n) \/
  (0 <= r /\ r + n <= Size /\ run f r n /\
   ((h <= r /\ forall s, h <= s < r -> ~ run f s n) \/
    (r < h /\ (forall s, h <= s -> s + n <= Size -> ~ run f s n) /\
     forall s, 0 <= s < r -> ~ run f s n))).

Lemma RtlpFindClearBitsRange_too_long buf inv n rs re :
  u32 (u32 (re - rs) + 1) < n -> RtlpFindClearBitsRange buf n rs re inv = Some RTL_INVALID_INDEX.
Proof. intros H. unfold RtlpFindClearBitsRange. cbv zeta. by destruct (Z.ltb_spec (u32 (u32 (re - rs) + 1)) n); [|lia]. Qed.

Lemma invalid_out r rs re n :
  0 <= rs -> 0 < n -> re < 2 ^ 32 - 1 -> rs <= r -> r + n - 1 <= re -> (r =? RTL_INVALID_INDEX) = false.
Proof. intros. unfold RTL_INVALID_INDEX. lia. Qed.

Lemma find_two_passes_ok bm inv n hint :
  bitmap_ok bm -> SizeOfBitMap bm <= 2 ^ 31 -> 0 < n < 2 ^ 32 -> 0 <= hint < 2 ^ 32 ->
  exists r, find_two_passes bm n hint inv = Some r /\
    found_from_hint (free (Buffer bm) inv) (SizeOfBitMap bm) n hint r.
Proof.
  intros [Hsz Hb Hwd Hcov] Hmax Hn Hh. unfold find_two_passes, found_from_hint. cbv zeta.
  set (Size := SizeOfBitMap bm) in *. set (f := free (Buffer bm) inv).
  destruct (Z.eqb_spec n 0); [lia|].
  destruct (Z.eq_dec Size 0) as [Hz|Hz].
  { assert (Hge : (hint >=? Size) = true) by lia. rewrite Hge, Hz. cbv iota.
    rewrite (RtlpFindClearBitsRange_too_long _ _ _ _ (u32 (0 - 1))) by (unfold uwrap; zdiv).
    cbn [mbind option_bind]. rewrite Z.eqb_refl, Z.eqb_refl. cbn [orb negb].
    eexists. split; [reflexivity|]. left. split; [done|]. lia. }
  rewrite (u32_small (Size - 1)) by lia.
  set (h := if hint >=? Size then 0 else hint).
  assert (Hh' : 0 <= h < Size) by (subst h; destruct (Z.geb_spec hint Size); lia).
  destruct (RtlpFindClearBitsRange_ok (Buffer bm) inv n h (Size - 1)) as (r & -> & Hr);
    [done|done|lia|lia|lia|lia|]. cbn [mbind option_bind]. fold f in Hr.
  destruct Hr as [(-> & Hno)|(Hr1 & Hr2 & Hrun & Hfirst)].
  2:{ rewrite (invalid_out r h (Size - 1) n) by lia. cbn [orb negb].
      exists r. split; [done|]. right. split; [lia|]. split; [lia|]. split; [done|]. by left. }
  rewrite Z.eqb_refl. cbn [orb negb]. destruct (Z.eqb_spec h 0) as [Eh|Eh].
  { eexists. split; [reflexivity|]. left. split; [done|]. intros s Hs Hle. apply Hno; lia. }
  assert (h = hint) as Ehh by (subst h; destruct (Z.geb_spec hint Size); lia).
  assert (Hsh : forall e, u32 (u32 (e - 0) + 1) = u32 (e + 1)).
  { intros e. rewrite Z.sub_0_r. unfold uwrap. by rewrite Z.add_mod_idemp_l by lia. }
  destruct (Z.le_gt_cases n Size) as [HnS|HnS].
  - rewrite (u32_small (hint + n)) by lia.
    set (re := (if hint + n >? Size then Size else hint + n) - 1).
    assert (Hre : n - 1 <= re < Size /\ hint + n - 1 >= re /\ (re = hint + n - 1 \/ re = Size - 1))
      by (subst re; destruct (Z.gtb_spec (hint + n) Size); lia).
    rewrite (u32_small re) by lia.
    destruct (RtlpFindClearBitsRange_ok (Buffer bm) inv n 0 re) as (r & -> & Hr);
      [done|done|lia|lia|lia|lia|]. fold f in Hr. exists r. split; [done|].
    destruct Hr as [(-> & Hno2)|(Hr1 & Hr2 & Hrun & Hfirst)].
    + left. split; [done|]. intros s Hs Hle. destruct (Z.lt_ge_cases s h); [apply Hno2|apply Hno]; lia.
    + right. split; [lia|]. split; [lia|]. split; [done|]. right.
      assert (r < h) by (destruct (Z.lt_ge_cases r h); [done|]; exfalso; apply (Hno r); lia || done).
      split; [done|]. split; [intros; apply Hno; lia|done].
  - assert (Hlong : forall e, (e = Size \/ (e = u32 (hint + n) /\ e <= Size)) ->
      RtlpFindClearBitsRange (Buffer bm) n 0 (u32 (e - 1)) inv = Some RTL_INVALID_INDEX).
    { intros e He. apply RtlpFindClearBitsRange_too_long. rewrite Hsh.
      unfold uwrap in *. rewrite Z.add_mod_idemp_l by lia. replace (e - 1 + 1) with e by lia. zdiv. }
    rewrite Hlong by (destruct (Z.gtb_spec (u32 (hint + n)) Size); [by left|right; split; [done|lia]]).
    eexists. split; [reflexivity|]. left. split; [done|]. intros s Hs Hle. lia.
Qed.

Lemma found_valid f Size n hint r :
  Size <= 2 ^ 31 -> 0 < n -> found_from_hint f Size n hint r ->
  r <> RTL_INVALID_INDEX -> 0 <= r /\ r + n <= Size /\ run f r n.
Proof. intros HS Hn [(-> & _)|(H0 & H1 & H2 & _)] Hne; [done|]. done. Qed.

Lemma RtlFindClearBitsAndSet_ok bm n hint :
  bitmap_ok bm -> SizeOfBitMap bm <= 2 ^ 31 -> 0 < n < 2 ^ 32 -> 0 <= hint < 2 ^ 32 ->
  exists r buf, RtlFindClearBitsAndSet bm n hint = Some (r, with_Buffer bm buf) /\
    found_from_hint (free (Buffer bm) false) (SizeOfBitMap bm) n hint r /\
    assigns (Buffer bm) buf r (if r =? RTL_INVALID_INDEX then 0 else n) true.
Proof.
  intros Hok HS Hn Hh. unfold RtlFindClearBitsAndSet, RtlFindClearBits.
  destruct (find_two_passes_ok bm false n hint Hok HS Hn Hh) as (r & -> & Hr). cbn [mbind option_bind].
  change 0xffffffff with RTL_INVALID_INDEX.
  destruct (Z.eqb_spec r RTL_INVALID_INDEX) as [E|E]; cbn [negb].
  - exists r, (Buffer bm). split; [by destruct bm|]. split; [done|].
    rewrite E, Z.eqb_refl. apply assigns_refl. apply Hok.
  - destruct (found_valid _ _ _ _ _ HS (proj1 Hn) Hr E) as (H0 & H1 & _).
    destruct (RtlSetBits_ok bm r n Hok H0 ltac:(lia) H1) as (buf & -> & Ha). cbn [mbind option_bind].
    exists r, buf. by rewrite (proj2 (Z.eqb_neq _ _) E).
Qed.

Lemma RtlFindSetBitsAndClear_ok bm n hint :
  bitmap_ok bm -> SizeOfBitMap bm <= 2 ^ 31 -> 0 < n < 2 ^ 32 -> 0 <= hint < 2 ^ 32 ->
  exists r buf, RtlFindSetBitsAndClear bm n hint = Some (r, with_Buffer bm buf) /\
    found_from_hint (free (Buffer bm) true) (SizeOfBitMap bm) n hint r /\
    assigns (Buffer bm) buf r (if r =? RTL_INVALID_INDEX then 0 else n) false.
Proof.
  intros Hok HS Hn Hh. unfold RtlFindSetBitsAndClear, RtlFindSetBits.
  destruct (find_two_passes_ok bm true n hint Hok HS Hn Hh) as (r & -> & Hr). cbn [mbind option_bind].
  change 0xffffffff with RTL_INVALID_INDEX.
  destruct (Z.eqb_spec r RTL_INVALID_INDEX) as [E|E]; cbn [negb].
  - exists r, (Buffer bm). split; [by destruct bm|]. split; [done|].
    rewrite E, Z.eqb_refl. apply assigns_refl. apply Hok.
  - destruct (found_valid _ _ _ _ _ HS (proj1 Hn) Hr E) as (H0 & H1 & _).
    destruct (RtlClearBits_ok bm r n Hok H0 ltac:(lia) H1) as (buf & -> & Ha). cbn [mbind option_bind].
    exists r, buf. by rewrite (proj2 (Z.eqb_neq _ _) E).
Qed.

(** ** Runs next to an index *)

Lemma FillMaskUlong_ones n : 0 <= n <= 32 -> tbl FillMaskUlong n = Z.ones n.
Proof.
  intros Hn. apply Z.eqb_eq.
  apply (zrange_forallb 33 (fun n => tbl FillMaskUlong n =? Z.ones n)); [vm_compute; reflexivity|lia].
Qed.

Lemma hunk_full_iff v x :
  0 <= x < 2 ^ 32 -> (x =? hunk_full v) = true <-> (forall i, 0 <= i < 32 -> Z.testbit x i = v).
Proof.
  intros Hx. rewrite Z.eqb_eq.
  assert (Hf : forall i, 0 <= i < 32 -> Z.testbit (hunk_full v) i = v).
  { intros i Hi. destruct v; cbn [hunk_full]; [|apply Z.bits_0].
    change 0xFFFFFFFF with (Z.ones 32). by rewrite Z.ones_spec_low. }
  split; [intros ->; done|]. intros H. apply Z.bits_inj'. intros i Hi.
  destruct (Z.lt_ge_cases i 32); [rewrite H, Hf by lia; done|].
  rewrite !(Z_bits_above _ 32); (lia || (destruct v; cbn [hunk_full]; lia) || done).
Qed.

Lemma lor_u32 a b : 0 <= a < 2 ^ 32 -> 0 <= b < 2 ^ 32 -> 0 <= Z.lor a b < 2 ^ 32.
Proof.
  intros Ha Hb. apply Z_bits_bound; [lia|]. intros i Hi.
  by rewrite Z.lor_spec, !(Z_bits_above _ 32) by lia.
Qed.

Lemma land_u32 a b : 0 <= a < 2 ^ 32 -> 0 <= Z.land a b < 2 ^ 32.
Proof.
  intros Ha. apply Z_bits_bound; [lia|]. intros i Hi. by rewrite Z.land_spec, (Z_bits_above a 32) by lia.
Qed.

Lemma ones_u32 n : 0 <= n <= 32 -> 0 <= Z.ones n < 2 ^ 32.
Proof.
  intros Hn. apply Z_bits_bound; [lia|]. intros i Hi. rewrite Z.testbit_ones_nonneg by lia. lia.
Qed.

(** The four tests on the first word, as statements on its bits. *)
Lemma test_set_from w off :
  0 <= w < 2 ^ 32 -> 0 <= off < 32 ->
  (Z.lor w (tbl FillMaskUlong off) =? hunk_full true) = true <->
  (forall i, off <= i < 32 -> Z.testbit w i = true).
Proof.
  intros Hw Ho. rewrite FillMaskUlong_ones by lia.
  rewrite hunk_full_iff by (apply lor_u32; [done|apply ones_u32; lia]). split; intros H i Hi.
  - specialize (H i ltac:(lia)). rewrite Z.lor_spec, Z.testbit_ones_nonneg in H by lia.
    destruct (Z.testbit w i); [done|]. cbn in H. lia.
  - rewrite Z.lor_spec, Z.testbit_ones_nonneg by lia.
    destruct (Z.ltb_spec i off); [apply orb_true_r|]. rewrite H by lia. done.
Qed.

Lemma test_clear_from w off :
  0 <= w < 2 ^ 32 -> 0 <= off < 32 ->
  (Z.land w (u32 (Z.lnot (tbl FillMaskUlong off))) =? hunk_full false) = true <->
  (forall i, off <= i < 32 -> Z.testbit w i = false).
Proof.
  intros Hw Ho. rewrite FillMaskUlong_ones by lia.
  rewrite hunk_full_iff by (by apply land_u32). split; intros H i Hi.
  - specialize (H i ltac:(lia)). rewrite Z.land_spec, not_chunk_bit, Z.testbit_ones_nonneg in H by lia.
    destruct (Z.testbit w i); [|done]. cbn in H. lia.
  - rewrite Z.land_spec, not_chunk_bit, Z.testbit_ones_nonneg by lia.
    destruct (Z.ltb_spec i off); [apply andb_false_r|]. rewrite H by lia. done.
Qed.

Lemma test_set_upto w off :
  0 <= w < 2 ^ 32 -> 0 <= off < 32 ->
  (Z.lor w (u32 (Z.lnot (tbl FillMaskUlong (off + 1)))) =? hunk_full true) = true <->
  (forall i, 0 <= i <= off -> Z.testbit w i = true).
Proof.
  intros Hw Ho. rewrite FillMaskUlong_ones by lia.
  rewrite hunk_full_iff by (apply lor_u32; [done|apply (uwrap_range 32); lia]). split; intros H i Hi.
  - specialize (H i ltac:(lia)). rewrite Z.lor_spec, not_chunk_bit, Z.testbit_ones_nonneg in H by lia.
    destruct (Z.testbit w i); [done|]. cbn in H. lia.
  - rewrite Z.lor_spec, not_chunk_bit, Z.testbit_ones_nonneg by lia.
    destruct (Z.ltb_spec i (off + 1)); [|apply orb_true_r]. rewrite H by lia. done.
Qed.

Lemma test_clear_upto w off :
  0 <= w < 2 ^ 32 -> 0 <= off < 32 ->
  (Z.land w (tbl FillMaskUlong off) =? hunk_full false) = true <->
  (forall i, 0 <= i < off -> Z.testbit w i = false).
Proof.
  intros Hw Ho. rewrite FillMaskUlong_ones by lia.
  rewrite hunk_full_iff by (by apply land_u32). split; intros H i Hi.
  - specialize (H i ltac:(lia)). rewrite Z.land_spec, Z.testbit_ones_nonneg in H by lia.
    destruct (Z.testbit w i); [|done]. cbn in H. lia.
  - rewrite Z.land_spec, Z.testbit_ones_nonneg by lia.
    destruct (Z.ltb_spec i off); [|apply andb_false_r]. rewrite H by lia. done.
Qed.

Lemma run_app f s m t : s <= m -> run f s (m - s) -> run f m (t - m) -> run f s (t - s).
Proof.
  intros Hm H1 H2 i Hi. destruct (Z.lt_ge_cases i m); [apply H1|apply H2]; lia.
Qed.

Section RunNextTo.
Variable bm : RTL_BITMAP.
Hypothesis Hok : bitmap_ok bm.
Local Abbreviation Size := (SizeOfBitMap bm).
Local Abbreviation buf := (Buffer bm).
Hypothesis Hpos : 0 < Size.
Local Abbreviation E := ((Size - 1) / 32).

Lemma word_in k :
  0 <= k <= E -> exists w, get_ulong buf k = Some w /\ 0 <= w < 2 ^ 32 /\
    (forall i, 0 <= i < 32 -> Z.testbit w i = bit buf (32 * k + i)).
Proof.
  intros Hk. destruct Hok as [Hsz Hb Hwd Hcov]. apply get_ulong_in; [done|lia|zdiv].
Qed.

Lemma free_bit v i : free buf v i = true <-> bit buf i = v.
Proof. unfold free. apply eqb_true_iff. Qed.

Lemma not_free_bit v i : free buf v i = false <-> bit buf i = negb v.
Proof. unfold free. rewrite eqb_false_iff. by destruct (bit buf i), v. Qed.

Lemma RtlCheckBit_ok i : 0 <= i < Size -> RtlCheckBit bm i = Some (Z.b2z (bit buf i)).
Proof.
  intros Hi. unfold RtlCheckBit. destruct (word_in (i / 32)) as (w & -> & Hw & Hbits); [zdiv|].
  cbn [mbind option_bind]. f_equal. change 1 with (Z.ones 1).
  rewrite Z.land_ones, <- Z.bit0_mod, Z.shiftr_spec, Z.add_0_l, Hbits by zdiv.
  do 2 f_equal. zdiv.
Qed.

Lemma b2z_eqb (b v : bool) : (Z.b2z b =? Z.b2z v) = Bool.eqb b v.
Proof. by destruct b, v. Qed.

(** *** Forward *)

Lemma scan_forward_ok v fuel s :
  0 <= s <= Size -> Size - s < Z.of_nat fuel ->
  exists t, scan_forward fuel bm v s = Some t /\ s <= t <= Size /\
    run (free buf v) s (t - s) /\ (t = Size \/ free buf v t = false).
Proof.
  pose proof (ok_size _ Hok) as Hsz. revert s. induction fuel as [|fuel IH]; intros s Hs Hf; [lia|].
  cbn [scan_forward]. destruct (Z.ltb_spec s Size).
  2:{ exists s. split; [done|]. split; [lia|]. split; [intros i Hi; lia|left; lia]. }
  rewrite RtlCheckBit_ok by lia. cbn [mbind option_bind]. rewrite b2z_eqb.
  change (Bool.eqb (bit buf s) v) with (free buf v s).
  destruct (free buf v s) eqn:Ef.
  - rewrite u32_small by lia. destruct (IH (s + 1)) as (t & -> & Ht & Hrun & Hend); [lia|lia|].
    exists t. split; [done|]. split; [lia|]. split; [|done].
    intros i Hi. destruct (Z.eq_dec i s) as [->|]; [done|]. apply Hrun. lia.
  - exists s. split; [done|]. split; [lia|]. split; [intros i Hi; lia|by right].
Qed.

Lemma full_word v k w :
  0 <= w < 2 ^ 32 -> (forall i, 0 <= i < 32 -> Z.testbit w i = bit buf (32 * k + i)) ->
  if w =? hunk_full v then run (free buf v) (32 * k) 32
  else exists i, 32 * k <= i < 32 * k + 32 /\ free buf v i = false.
Proof.
  intros Hw Hbits. destruct (w =? hunk_full v) eqn:Ew.
  - intros i Hi. apply free_bit. replace i with (32 * k + (i - 32 * k)) by lia.
    rewrite <- Hbits by lia. apply (proj1 (hunk_full_iff v w Hw) Ew). lia.
  - destruct (zfind (free buf v) (32 * k) (32 * k + 32)) as [Hall|Hex]; [|done].
    exfalso. assert ((w =? hunk_full v) = true); [|congruence]. apply hunk_full_iff; [done|].
    intros i Hi. rewrite Hbits by done. apply free_bit, Hall. lia.
Qed.

(** Where the words stop: at the last one, or at one with a bit that differs. *)
Definition stopped (v : bool) (k s : Z) : Prop :=
  0 <= k <= E /\ s <= Size /\
  (k = E \/ (k < E /\ 32 * k <= s /\ exists i, s <= i < 32 * k + 32 /\ free buf v i = false)).

Lemma skip_forward_ok v fuel k :
  0 <= k <= E -> E - k < Z.of_nat fuel ->
  exists k', skip_forward fuel buf v E k (32 * k) = Some (k', 32 * k') /\ k <= k' /\
    run (free buf v) (32 * k) (32 * k' - 32 * k) /\ stopped v k' (32 * k').
Proof.
  pose proof (ok_size _ Hok) as Hsz. revert k. induction fuel as [|fuel IH]; intros k Hk Hf; [lia|].
  cbn [skip_forward]. destruct (Z.ltb_spec k E).
  2:{ exists k. split; [done|]. split; [lia|]. split; [intros i Hi; lia|].
      split; [lia|]. split; [zdiv|]. left. lia. }
  destruct (word_in k) as (w & -> & Hw & Hbits); [lia|]. cbn [mbind option_bind].
  pose proof (full_word v k w Hw Hbits) as Hfull.
  destruct (w =? hunk_full v) eqn:Ew; cbn [negb].
  - rewrite u32_small by zdiv. replace (32 * k + 32) with (32 * (k + 1)) by lia.
    destruct (IH (k + 1)) as (k' & -> & Hk' & Hrun & Hst); [lia|lia|].
    exists k'. split; [done|]. split; [lia|]. split; [|done].
    apply (run_app _ _ (32 * (k + 1))); [lia| |done].
    by replace (32 * (k + 1) - 32 * k) with 32 by lia.
  - exists k. split; [done|]. split; [lia|]. split; [intros i Hi; lia|].
    split; [lia|]. split; [zdiv|]. right. split; [lia|]. split; [lia|].
    destruct Hfull as (i & Hi & Hfi). by exists i.
Qed.

(** The first half of the search, and the second: big steps. *)
Lemma words_forward_ok v test fuel k s :
  (forall w off, 0 <= w < 2 ^ 32 -> 0 <= off < 32 ->
     test w off = true <-> (forall i, off <= i < 32 -> Z.testbit w i = v)) ->
  0 <= k <= E -> 0 <= s <= Size -> (k = E \/ (k < E /\ 32 * k <= s < 32 * k + 32)) ->
  Size < Z.of_nat fuel ->
  exists k' s',
    (if negb (k =? E) then
       w ← get_ulong buf k;
       if test w (s mod 32) then skip_forward fuel buf v E (k + 1) (u32 (s + (32 - s mod 32)))
       else Some (k, s)
     else Some (k, s)) = Some (k', s') /\
    s <= s' /\ run (free buf v) s (s' - s) /\ stopped v k' s'.
Proof.
  intros Htest Hk Hs Hks Hf. pose proof (ok_size _ Hok) as Hsz.
  destruct (Z.eqb_spec k E) as [->|Hne]; cbn [negb].
  { exists E, s. split; [done|]. split; [lia|]. split; [intros i Hi; lia|].
    split; [lia|]. split; [lia|by left]. }
  destruct Hks as [|[Hlt Hin]]; [done|].
  destruct (word_in k) as (w & -> & Hw & Hbits); [lia|]. cbn [mbind option_bind].
  assert (Hoff : s = 32 * k + s mod 32 /\ 0 <= s mod 32 < 32) by zdiv.
  set (off := s mod 32) in *. specialize (Htest w off Hw ltac:(lia)).
  destruct (test w off) eqn:Et.
  - replace (u32 (s + (32 - off))) with (32 * (k + 1)) by (rewrite u32_small by zdiv; lia).
    destruct (skip_forward_ok v fuel (k + 1)) as (k' & -> & Hk' & Hrun & Hst); [lia|zdiv|].
    exists k', (32 * k'). split; [done|]. split; [lia|]. split; [|done].
    apply (run_app _ _ (32 * (k + 1))); [lia| |done]. intros i Hi. apply free_bit.
    replace i with (32 * k + (i - 32 * k)) by lia. rewrite <- Hbits by lia. apply Htest; [done|lia].
  - exists k, s. split; [done|]. split; [lia|]. split; [intros i Hi; lia|]. split; [lia|].
    split; [lia|]. right. split; [lia|]. split; [lia|].
    destruct (zfind (fun i => free buf v i) s (32 * k + 32)) as [Hall|(i & Hi & Hfi)].
    + exfalso. assert (false = true); [|done]. apply Htest. intros i Hi. rewrite Hbits by lia.
      apply free_bit, Hall. lia.
    + exists i. done.
Qed.

Lemma stopped_scan v k s t :
  stopped v k s -> s <= t <= Size -> run (free buf v) s (t - s) ->
  k = E \/ (k < E /\ 32 * k <= t < 32 * k + 32).
Proof.
  intros (Hk & Hs & [->|(Hlt & Hks & i & Hi & Hfi)]) Ht Hrun; [by left|right].
  split; [done|]. split; [lia|]. destruct (Z.lt_ge_cases t (32 * k + 32)); [done|].
  rewrite Hrun in Hfi by lia. done.
Qed.

Lemma RtlFindNextForwardRunClear_ok from :
  0 <= from < Size ->
  exists s n, RtlFindNextForwardRunClear bm from = Some (n, s) /\
    from <= s /\ 0 <= n /\ s + n <= Size /\
    run (free buf true) from (s - from) /\ run (free buf false) s n /\
    (s < Size -> 0 < n) /\ (s + n = Size \/ bit buf (s + n) = true).
Proof.
  intros Hfrom. pose proof (ok_size _ Hok) as Hsz. unfold RtlFindNextForwardRunClear. cbv zeta.
  destruct (Z.eqb_spec Size 0); [lia|].
  set (fuel := S (Z.to_nat Size)). assert (Hfuel : Size < Z.of_nat fuel) by lia.
  destruct (words_forward_ok true (fun w off => Z.lor w (tbl FillMaskUlong off) =? hunk_full true)
    fuel (from / 32) from test_set_from) as (k & s & -> & Hs & Hrun & Hst); [zdiv|lia|zdiv|done|].
  cbn [mbind option_bind]. pose proof Hst as (_ & Hs' & _).
  destruct (scan_forward_ok true fuel s) as (t & -> & Ht & Hrun2 & Hend); [lia|lia|].
  cbn [mbind option_bind].
  destruct (words_forward_ok false
    (fun w off => Z.land w (u32 (Z.lnot (tbl FillMaskUlong off))) =? hunk_full false)
    fuel k t test_clear_from) as (k2 & s2 & -> & Hs2 & Hrun3 & Hst2);
    [apply Hst|lia|by eapply stopped_scan|done|].
  cbn [mbind option_bind]. pose proof Hst2 as (_ & Hs2' & _).
  destruct (scan_forward_ok false fuel s2) as (e & -> & He & Hrun4 & Hend2); [lia|lia|].
  cbn [mbind option_bind]. rewrite u32_small by lia.
  exists t, (e - t). split; [done|]. split; [lia|]. split; [lia|]. split; [lia|].
  split; [by apply (run_app _ _ s); [lia| |]|]. split; [by apply (run_app _ _ s2); [lia| |]|].
  replace (t + (e - t)) with e by lia.
  rewrite not_free_bit in Hend2. rewrite not_free_bit in Hend. split; [|destruct Hend2; auto].
  intros Hlt. destruct Hend as [|Hc]; [lia|]. destruct (Z.eq_dec e t) as [->|]; [|lia].
  destruct Hend2; [lia|]. cbn [negb] in *. congruence.
Qed.

(** *** Backward: positions are followed as signed numbers, -1 standing for
    the ULONG MAXULONG. *)

Lemma u32_max e : -1 <= e < 2 ^ 32 - 1 -> (u32 e =? MAXULONG) = (e =? -1).
Proof. intros He. unfold MAXULONG, uwrap. zdiv. Qed.

Lemma u32_pred e d : u32 (u32 e - d) = u32 (e - d).
Proof. unfold uwrap. by rewrite Zminus_mod_idemp_l. Qed.

Lemma scan_backward_ok v fuel e :
  -1 <= e < Size -> e + 1 < Z.of_nat fuel ->
  exists t, scan_backward fuel bm v (u32 e) = Some (u32 t) /\ -1 <= t <= e /\
    run (free buf v) (t + 1) (e - t) /\ (t = -1 \/ free buf v t = false).
Proof.
  pose proof (ok_size _ Hok) as Hsz. revert e. induction fuel as [|fuel IH]; intros e He Hf; [lia|].
  cbn [scan_backward]. rewrite u32_max by lia. destruct (Z.eqb_spec e (-1)) as [->|Hne]; cbn [negb].
  { exists (-1). split; [done|]. split; [lia|]. split; [intros i Hi; lia|by left]. }
  rewrite (u32_small e), RtlCheckBit_ok by lia. cbn [mbind option_bind]. rewrite b2z_eqb.
  change (Bool.eqb (bit buf e) v) with (free buf v e).
  destruct (free buf v e) eqn:Ef.
  - destruct (IH (e - 1)) as (t & -> & Ht & Hrun & Hend); [lia|lia|].
    exists t. split; [done|]. split; [lia|]. split; [|done].
    intros i Hi. destruct (Z.eq_dec i e) as [->|]; [done|]. apply Hrun. lia.
  - exists e. split; [by rewrite u32_small by lia|]. split; [lia|]. split; [intros i Hi; lia|by right].
Qed.

Definition stopped_back (v : bool) (k : Z) : Prop :=
  -1 <= k <= E /\ (k <= 0 \/ exists i, 32 * k <= i < 32 * k + 32 /\ free buf v i = false).

Lemma skip_backward_ok v fuel k :
  -1 <= k <= E -> 32 * k + 31 < Size -> k < Z.of_nat fuel - 1 -> (0 < fuel)%nat ->
  exists k', skip_backward fuel buf v k (u32 (32 * k + 31)) = Some (k', u32 (32 * k' + 31)) /\
    k' <= k /\ run (free buf v) (32 * k' + 32) (32 * k - 32 * k') /\ stopped_back v k'.
Proof.
  revert k. induction fuel as [|fuel IH]; intros k Hk Hs Hf Hf0; [lia|].
  cbn [skip_backward]. destruct (Z.gtb_spec k 0).
  2:{ exists k. split; [done|]. split; [lia|]. split; [intros i Hi; lia|]. split; [lia|by left]. }
  destruct (word_in k) as (w & -> & Hw & Hbits); [lia|]. cbn [mbind option_bind].
  pose proof (full_word v k w Hw Hbits) as Hfull.
  destruct (w =? hunk_full v) eqn:Ew; cbn [negb].
  - rewrite u32_pred. replace (32 * k + 31 - 32) with (32 * (k - 1) + 31) by lia.
    destruct (IH (k - 1)) as (k' & -> & Hk' & Hrun & Hst); [lia|lia|lia|lia|].
    exists k'. split; [done|]. split; [lia|]. split; [|done]. intros i Hi.
    destruct (Z.lt_ge_cases i (32 * k)); [apply Hrun|apply Hfull]; lia.
  - exists k. split; [done|]. split; [lia|]. split; [intros i Hi; lia|]. split; [lia|by right].
Qed.

(** Big steps back from word [k], whose bits up to [e] are tested first. *)
Lemma words_backward_ok v (test : bool) fuel k e :
  0 <= e < Size -> k = e / 32 ->
  (test = true -> run (free buf v) (32 * k) (e - 32 * k + 1)) ->
  e + 1 < Z.of_nat fuel ->
  exists k' e',
    (if test then skip_backward fuel buf v (k - 1) (u32 (e - (e mod 32 + 1))) else Some (k, e)) =
      Some (k', u32 e') /\
    -1 <= e' <= e /\ run (free buf v) (e' + 1) (e - e') /\
    (if test then e' = 32 * k' + 31 /\ stopped_back v k' else k' = k /\ e' = e).
Proof.
  intros He -> Htest Hf. pose proof (ok_size _ Hok) as Hsz. destruct test.
  - specialize (Htest eq_refl).
    replace (e - (e mod 32 + 1)) with (32 * (e / 32 - 1) + 31) by zdiv.
    destruct (skip_backward_ok v fuel (e / 32 - 1)) as (k' & -> & Hk' & Hrun & Hst); [zdiv|zdiv|zdiv|lia|].
    exists k', (32 * k' + 31). split; [done|]. pose proof Hst as [Hk1 _]. split; [zdiv|].
    split; [|done]. intros i Hi.
    destruct (Z.lt_ge_cases i (32 * (e / 32))); [apply Hrun|apply Htest]; lia.
  - exists (e / 32), e. rewrite u32_small by lia. split; [done|]. split; [lia|].
    split; [intros i Hi; lia|done].
Qed.

(** A clear bit below keeps the first half of the search inside the word it
    stopped at. *)
Lemma backward_word (test : bool) from k e t c :
  0 <= c <= from -> bit buf c = false -> 0 <= from < Size ->
  -1 <= t <= e -> e <= from -> run (free buf true) (t + 1) (from - t) ->
  (test = false -> exists i, 32 * (from / 32) <= i <= from /\ free buf true i = false) ->
  (if test then e = 32 * k + 31 /\ stopped_back true k else k = from / 32 /\ e = from) ->
  0 <= t /\ k = t / 32.
Proof.
  intros Hc Hclear Hfrom Ht Hef Hrun Hno Hst.
  assert (Hge : forall i, i <= from -> free buf true i = false -> i <= t).
  { intros i Hi Hf. destruct (Z.le_gt_cases i t); [done|]. rewrite Hrun in Hf by lia. done. }
  assert (c <= t) by (apply Hge; [lia|by apply not_free_bit]).
  split; [lia|]. destruct test.
  - destruct Hst as [-> [Hk [H0|(i & Hi & Hfi)]]]; [zdiv|].
    assert (i <= t) by (apply Hge; [lia|done]). zdiv.
  - destruct Hst as [-> ->]. destruct (Hno eq_refl) as (i & Hi & Hfi).
    assert (i <= t) by (apply Hge; [lia|done]). zdiv.
Qed.

Lemma RtlFindLastBackwardRunClear_ok from c :
  0 <= from < Size -> 0 <= c <= from -> bit buf c = false ->
  exists s n, RtlFindLastBackwardRunClear bm from = Some (n, s) /\
    0 <= s /\ 0 < n /\ s + n - 1 <= from /\
    run (free buf true) (s + n) (from + 1 - (s + n)) /\ run (free buf false) s n /\
    (s = 0 \/ bit buf (s - 1) = true).
Proof.
  intros Hfrom Hc Hclear. pose proof (ok_size _ Hok) as Hsz.
  unfold RtlFindLastBackwardRunClear. cbv zeta. destruct (Z.eqb_spec Size 0); [lia|].
  set (fuel := S (S (Z.to_nat from))). assert (Hfuel : from + 1 < Z.of_nat fuel) by lia.
  destruct (word_in (from / 32)) as (w & -> & Hw & Hbits); [zdiv|]. cbn [mbind option_bind].
  pose proof (test_set_upto w (from mod 32) Hw ltac:(zdiv)) as Ht1.
  set (test1 := Z.lor w _ =? hunk_full true) in *.
  destruct (words_backward_ok true test1 fuel (from / 32) from) as (k & e & -> & He & Hrun1 & Hst);
    [lia|done| |lia|].
  { intros Et i Hi. apply free_bit. replace i with (32 * (from / 32) + (i - 32 * (from / 32))) by lia.
    rewrite <- Hbits by zdiv. apply Ht1; [done|zdiv]. }
  cbn [mbind option_bind].
  destruct (scan_backward_ok true fuel e) as (t & -> & Ht & Hrun2 & Hend); [lia|lia|].
  cbn [mbind option_bind].
  assert (Hrun : run (free buf true) (t + 1) (from - t)).
  { intros i Hi. destruct (Z.le_gt_cases i e); [apply Hrun2|apply Hrun1]; lia. }
  destruct (backward_word test1 from k e t c) as [Ht0 ->]; try done; try lia.
  { intros Et. destruct (zfind (free buf true) (32 * (from / 32)) (from + 1)) as [Hall|(i & Hi & Hfi)].
    - exfalso. rewrite Et in Ht1. assert (false = true); [|done]. apply Ht1. intros i Hi.
      rewrite Hbits by zdiv. apply free_bit, Hall. zdiv.
    - exists i. split; [lia|done]. }
  rewrite (u32_small t) by lia.
  assert (Htc : bit buf t = false) by (destruct Hend as [|Hend]; [lia|by apply (not_free_bit true)]).
  destruct (word_in (t / 32)) as (w2 & -> & Hw2 & Hbits2); [zdiv|]. cbn [mbind option_bind].
  pose proof (test_clear_upto w2 (t mod 32) Hw2 ltac:(zdiv)) as Ht2.
  set (test2 := Z.land w2 _ =? hunk_full false) in *.
  destruct (words_backward_ok false test2 fuel (t / 32) t) as (k2 & e2 & -> & He2 & Hrun3 & _);
    [lia|done| |lia|].
  { intros Et i Hi. apply free_bit. destruct (Z.eq_dec i t) as [->|]; [done|].
    replace i with (32 * (t / 32) + (i - 32 * (t / 32))) by lia.
    rewrite <- Hbits2 by zdiv. apply Ht2; [done|zdiv]. }
  cbn [mbind option_bind].
  destruct (scan_backward_ok false fuel e2) as (s & -> & Hs & Hrun4 & Hend2); [lia|lia|].
  cbn [mbind option_bind].
  assert (s < t).
  { destruct (Z.lt_ge_cases s t); [done|]. destruct Hend2 as [|Hf]; [lia|].
    apply not_free_bit in Hf. replace s with t in Hf by lia. cbn [negb] in Hf. congruence. }
  exists (s + 1), (t - s). split.
  { f_equal. unfold uwrap. rewrite Zminus_mod_idemp_r, Z.add_mod_idemp_l, !Z.mod_small by lia. done. }
  split; [lia|]. split; [lia|]. split; [lia|].
  replace (s + 1 + (t - s)) with (t + 1) by lia. replace (from + 1 - (t + 1)) with (from - t) by lia.
  split; [done|]. split.
  - intros i Hi. destruct (Z.le_gt_cases i e2); [apply Hrun4|apply Hrun3]; lia.
  - rewrite Z.add_simpl_r. rewrite not_free_bit in Hend2. destruct Hend2; [left; lia|by right].
Qed.
End RunNextTo.

(** ** A sequence of allocations *)

(** Serving a list of requests (length, hint) with RtlFindClearBitsAndSet: the
    ranges handed out, and the bit map at the end. *)
Fixpoint allocate (bm : RTL_BITMAP) (reqs : list (Z * Z)) : option (list (Z * Z) * RTL_BITMAP) :=
  match reqs with
  | [] => Some ([], bm)
  | (n, hint) :: reqs =>
      '(r, bm) ← RtlFindClearBitsAndSet bm n hint;
      '(rs, bm) ← allocate bm reqs;
      Some (if r =? RTL_INVALID_INDEX then (rs, bm) else ((r, n) :: rs, bm))
  end.

Definition covered (rs : list (Z * Z)) (j : Z) : bool := existsb (fun '(r, n) => between r n j) rs.

Definition disjoint_ranges (x y : Z * Z) : Prop := x.1 + x.2 <= y.1 \/ y.1 + y.2 <= x.1.

Definition request_ok (q : Z * Z) : Prop := 0 < q.1 < 2 ^ 32 /\ 0 <= q.2 < 2 ^ 32.

Lemma run_free_disjoint buf r n s m :
  0 <= n -> 0 <= m -> 0 < n -> 0 < m -> (forall j, between r n j = true -> bit buf j = true) ->
  run (free buf false) s m -> disjoint_ranges (r, n) (s, m).
Proof.
  intros Hn Hm Hn' Hm' Hset Hrun. unfold disjoint_ranges; cbn [fst snd].
  destruct (Z.le_gt_cases (r + n) s), (Z.le_gt_cases (s + m) r); try lia. exfalso.
  pose proof (Hrun (Z.max r s) ltac:(lia)) as Hf. unfold free in Hf.
  rewrite Hset in Hf by (unfold between; lia). done.
Qed.

Lemma allocate_ok reqs bm :
  bitmap_ok bm -> SizeOfBitMap bm <= 2 ^ 31 -> Forall request_ok reqs ->
  exists rs bm', allocate bm reqs = Some (rs, bm') /\
    bitmap_ok bm' /\ SizeOfBitMap bm' = SizeOfBitMap bm /\
    Forall (fun x => 0 <= x.1 /\ 0 < x.2 /\ x.1 + x.2 <= SizeOfBitMap bm /\
                     run (free (Buffer bm) false) x.1 x.2) rs /\
    ForallOrdPairs disjoint_ranges rs /\
    (forall j, 0 <= j -> bit (Buffer bm') j = covered rs j || bit (Buffer bm) j).
Proof.
  intros Hok HS Hreq. revert bm Hok HS.
  induction Hreq as [|[n hint] reqs [Hn Hh] _ IH]; intros bm Hok HS; cbn [allocate].
  { exists [], bm. split; [done|]. split; [done|]. split; [done|]. split; [done|]. split; [constructor|done]. }
  cbn [fst snd] in *.
  destruct (RtlFindClearBitsAndSet_ok bm n hint Hok HS Hn Hh) as (r & buf & -> & Hr & Ha).
  cbn [mbind option_bind]. pose proof (assigns_ok _ _ _ _ _ Hok Ha) as Hok1.
  destruct Ha as (_ & _ & Hbit).
  destruct (IH (with_Buffer bm buf) Hok1 HS) as (rs & bm' & -> & Hok' & Hsz' & Hrs & Hdis & Hbits).
  cbn [mbind option_bind]. cbn [Buffer SizeOfBitMap with_Buffer] in *.
  destruct (Z.eqb_spec r RTL_INVALID_INDEX) as [E|E].
  - assert (Hsame : forall j, 0 <= j -> bit buf j = bit (Buffer bm) j).
    { intros j Hj. rewrite Hbit by done. unfold between. by replace ((r <=? j) && _) with false by lia. }
    exists rs, bm'. split; [done|]. split; [done|]. split; [done|]. split; [|split; [done|]].
    + eapply List.Forall_impl; [|exact Hrs]. intros [s m]; cbn [fst snd]. intros (H0 & H1 & H2 & H3).
      split; [done|]. split; [done|]. split; [done|]. intros i Hi. specialize (H3 i Hi).
      unfold free in *. by rewrite <- Hsame by lia.
    + intros j Hj. by rewrite Hbits, Hsame by done.
  - destruct (found_valid _ _ _ _ _ HS (proj1 Hn) Hr E) as (H0 & H1 & H2).
    exists ((r, n) :: rs), bm'. split; [done|]. split; [done|]. split; [done|]. split; [|split].
    + constructor; [cbn [fst snd]; split; [done|]; split; [lia|done]|].
      eapply List.Forall_impl; [|exact Hrs]. intros [s m]; cbn [fst snd]. intros (G0 & G1 & G2 & G3).
      split; [done|]. split; [done|]. split; [done|]. intros i Hi. specialize (G3 i Hi).
      unfold free in *. rewrite Hbit in G3 by lia. destruct (between r n i); [done|done].
    + constructor; [|done]. eapply List.Forall_impl; [|exact Hrs].
      intros [s m]; cbn [fst snd]. intros (G0 & G1 & G2 & G3).
      apply (run_free_disjoint buf); try lia; [|done]. intros j Hj.
      rewrite Hbit by (unfold between in Hj; lia). by rewrite Hj.
    + intros j Hj. rewrite Hbits, Hbit by done. cbn [covered existsb].
      change (existsb _ rs) with (covered rs j).
      destruct (between r n j), (covered rs j), (bit (Buffer bm) j); done.
Qed.

(** ** Properties *)

(** C3: RtlpFindClearBitsRange, for every run length, range and polarity,
    stays inside the buffer, ends, and returns the first position of the range
    where the run fits, or RTL_INVALID_INDEX exactly when there is none: the
    four algorithms (one bit, less than a chunk, one to three chunks, at least one
    whole chunk) all compute the first run. *)
Theorem RtlpFindClearBitsRange_spec BitMap NumberToFind RangeStart RangeEnd Invert :
  bytes_ok BitMap -> zlen BitMap mod 4 = 0 ->
  0 <= RangeStart <= RangeEnd -> RangeEnd < 8 * zlen BitMap -> RangeEnd < 2 ^ 32 - 1 ->
  0 < NumberToFind < 2 ^ 32 ->
  exists r, RtlpFindClearBitsRange BitMap NumberToFind RangeStart RangeEnd Invert = Some r /\
    first_in_range (free BitMap Invert) RangeStart RangeEnd NumberToFind r.
Proof. apply RtlpFindClearBitsRange_ok. Qed.

(** RtlFindClearBits and RtlFindSetBits, on a bit map of at most 2^31
    bits, return the first run from the hint on, else the first run of the whole
    bit map, and RTL_INVALID_INDEX only when the bit map has no such run: the
    second pass, though it ends at HintIndex + NumberToFind, misses nothing. *)
Theorem RtlFindClearBits_spec bm NumberToFind HintIndex :
  bitmap_ok bm -> SizeOfBitMap bm <= 2 ^ 31 ->
  0 < NumberToFind < 2 ^ 32 -> 0 <= HintIndex < 2 ^ 32 ->
  (exists r, RtlFindClearBits bm NumberToFind HintIndex = Some r /\
     found_from_hint (free (Buffer bm) false) (SizeOfBitMap bm) NumberToFind HintIndex r) /\
  (exists r, RtlFindSetBits bm NumberToFind HintIndex = Some r /\
     found_from_hint (free (Buffer bm) true) (SizeOfBitMap bm) NumberToFind HintIndex r).
Proof. intros. split; by apply find_two_passes_ok. Qed.

(** C25: RtlFindClearBitsAndSet as an allocator: any sequence of requests is
    served without leaving the buffer; the ranges handed out lie inside the bit
    map, were clear before, are pairwise disjoint, and are exactly the bits that
    are newly set at the end. *)
Theorem RtlFindClearBitsAndSet_disjoint bm reqs :
  bitmap_ok bm -> SizeOfBitMap bm <= 2 ^ 31 -> Forall request_ok reqs ->
  exists rs bm', allocate bm reqs = Some (rs, bm') /\
    bitmap_ok bm' /\ SizeOfBitMap bm' = SizeOfBitMap bm /\
    Forall (fun x => 0 <= x.1 /\ 0 < x.2 /\ x.1 + x.2 <= SizeOfBitMap bm /\
                     run (free (Buffer bm) false) x.1 x.2) rs /\
    ForallOrdPairs disjoint_ranges rs /\
    (forall j, 0 <= j -> bit (Buffer bm') j = covered rs j || bit (Buffer bm) j).
Proof. intros. by apply allocate_ok. Qed.

(** RtlFindSetBitsAndClear releases a run of set bits: it returns where it
    was and clears exactly that run, or changes nothing and returns
    RTL_INVALID_INDEX when there is no such run. *)
Theorem RtlFindSetBitsAndClear_spec bm NumberToFind HintIndex :
  bitmap_ok bm -> SizeOfBitMap bm <= 2 ^ 31 ->
  0 < NumberToFind < 2 ^ 32 -> 0 <= HintIndex < 2 ^ 32 ->
  exists r bm', RtlFindSetBitsAndClear bm NumberToFind HintIndex = Some (r, bm') /\ bitmap_ok bm' /\
    found_from_hint (free (Buffer bm) true) (SizeOfBitMap bm) NumberToFind HintIndex r /\
    forall j, 0 <= j -> bit (Buffer bm') j =
      if negb (r =? RTL_INVALID_INDEX) && between r NumberToFind j then false else bit (Buffer bm) j.
Proof.
  intros Hok HS Hn Hh.
  destruct (RtlFindSetBitsAndClear_ok bm NumberToFind HintIndex Hok HS Hn Hh) as (r & buf & E & Hr & Ha).
  exists r, (with_Buffer bm buf). split; [done|]. split; [by eapply assigns_ok|]. split; [done|].
  intros j Hj. destruct Ha as (_ & _ & Ha). cbn [Buffer with_Buffer]. rewrite Ha by done.
  destruct (Z.eqb_spec r RTL_INVALID_INDEX); cbn [negb andb]; [|done].
  unfold between. by replace ((r <=? j) && _) with false by lia.
Qed.

(** RtlpFindClearRunInChunk, by masking a chunk with its own shifts,
    returns the first start of RunLength clear bits inside the chunk, and FALSE
    exactly when there is none. *)
Theorem RtlpFindClearRunInChunk_spec Chunk RunLength :
  0 <= Chunk < 2 ^ 32 -> 2 <= RunLength < 32 ->
  exists r, RtlpFindClearRunInChunk Chunk RunLength = Some r /\
    match r with
    | None => forall s, 0 <= s -> s + RunLength <= 32 -> ~ run (fun i => negb (Z.testbit Chunk i)) s RunLength
    | Some b => 0 <= b /\ b + RunLength <= 32 /\ run (fun i => negb (Z.testbit Chunk i)) b RunLength /\
                forall s, 0 <= s < b -> ~ run (fun i => negb (Z.testbit Chunk i)) s RunLength
    end.
Proof.
  intros Hc Hn. apply (RtlpFindClearRunInChunk_ok (fun i => negb (Z.testbit Chunk i)) 0); [|done].
  split; [done|]. intros i Hi. rewrite Z.mul_0_r, Z.add_0_l, negb_involutive. done.
Qed.

(** RtlFindNextForwardRunClear returns the first clear bit from FromIndex
    on and the length of the maximal run that begins there, and length zero
    exactly when no bit from FromIndex on is clear. *)
Theorem RtlFindNextForwardRunClear_spec bm FromIndex :
  bitmap_ok bm -> 0 <= FromIndex < SizeOfBitMap bm ->
  exists s n, RtlFindNextForwardRunClear bm FromIndex = Some (n, s) /\
    FromIndex <= s /\ 0 <= n /\ s + n <= SizeOfBitMap bm /\
    run (free (Buffer bm) true) FromIndex (s - FromIndex) /\ run (free (Buffer bm) false) s n /\
    (s < SizeOfBitMap bm -> 0 < n) /\ (s + n = SizeOfBitMap bm \/ bit (Buffer bm) (s + n) = true).
Proof. intros Hok Hf. apply RtlFindNextForwardRunClear_ok; [done|lia|done]. Qed.

(** RtlFindLastBackwardRunClear, when some bit at or below FromIndex is
    clear, returns the maximal run of clear bits that ends at the last such
    bit. *)
Theorem RtlFindLastBackwardRunClear_spec bm FromIndex c :
  bitmap_ok bm -> 0 <= FromIndex < SizeOfBitMap bm -> 0 <= c <= FromIndex -> bit (Buffer bm) c = false ->
  exists s n, RtlFindLastBackwardRunClear bm FromIndex = Some (n, s) /\
    0 <= s /\ 0 < n /\ s + n - 1 <= FromIndex /\
    run (free (Buffer bm) true) (s + n) (FromIndex + 1 - (s + n)) /\ run (free (Buffer bm) false) s n /\
    (s = 0 \/ bit (Buffer bm) (s - 1) = true).
Proof. intros Hok Hf Hc Hb. apply (RtlFindLastBackwardRunClear_ok bm Hok ltac:(lia) FromIndex c); done. Qed.

(** When no bit at or below FromIndex is clear, RtlFindLastBackwardRunClear
    reads the word in front of the buffer: here a bit map of one full word. *)
Theorem RtlFindLastBackwardRunClear_underrun :
  bitmap_ok (mkBM 32 [0xff; 0xff; 0xff; 0xff]) /\
  RtlFindLastBackwardRunClear (mkBM 32 [0xff; 0xff; 0xff; 0xff]) 31 = None.
Proof.
  split; [|vm_compute; reflexivity].
  split; cbn [SizeOfBitMap Buffer]; [lia|by repeat constructor|done|vm_compute; discriminate].
Qed.

(** ** Witnesses *)

(** 160 bits: set are 4..7, 63, 64..95, 128, 148, 149, 158, 159. *)
Definition sample_map : RTL_BITMAP :=
  mkBM 150 [0xf0; 0; 0; 0; 0; 0; 0; 0x80; 0xff; 0xff; 0xff; 0xff; 0; 0; 0; 0; 0x01; 0; 0x30; 0xc0].

Lemma sample_map_ok : bitmap_ok sample_map.
Proof. split; cbn [SizeOfBitMap Buffer sample_map]; [lia|by repeat constructor|done|vm_compute; discriminate]. Qed.

Lemma RtlpFindClearBitsRange_spec_witness :
  RtlpFindClearBitsRange (Buffer sample_map) 40 3 140 false = Some 8 /\
  exists r, RtlpFindClearBitsRange (Buffer sample_map) 40 3 140 false = Some r /\
    first_in_range (free (Buffer sample_map) false) 3 140 40 r.
Proof.
  split; [vm_compute; reflexivity|].
  apply RtlpFindClearBitsRange_spec; [apply sample_map_ok|done|lia|vm_compute; reflexivity|lia|lia].
Defined.

Lemma RtlFindClearBits_spec_witness :
  RtlFindClearBits sample_map 50 100 = Some 8 /\
  exists r, RtlFindClearBits sample_map 50 100 = Some r /\
    found_from_hint (free (Buffer sample_map) false) 150 50 100 r.
Proof.
  split; [vm_compute; reflexivity|].
  apply (RtlFindClearBits_spec sample_map 50 100 sample_map_ok); [vm_compute; discriminate|lia|lia].
Defined.

Lemma RtlFindClearBitsAndSet_disjoint_witness :
  exists rs bm', allocate sample_map [(20, 0); (20, 0); (40, 3); (3, 150)] = Some (rs, bm') /\
    rs = [(8, 20); (28, 20); (0, 3)] /\ ForallOrdPairs disjoint_ranges rs.
Proof.
  destruct (RtlFindClearBitsAndSet_disjoint sample_map [(20, 0); (20, 0); (40, 3); (3, 150)] sample_map_ok)
    as (rs & bm' & E & _ & _ & _ & Hd & _); [vm_compute; discriminate|repeat constructor; cbn; lia|].
  exists rs, bm'. split; [done|]. split; [|done]. vm_compute in E. by injection E as <- _.
Defined.

Lemma RtlFindSetBitsAndClear_spec_witness :
  exists bm', RtlFindSetBitsAndClear sample_map 33 0 = Some (63, bm') /\ bitmap_ok bm'.
Proof.
  destruct (RtlFindSetBitsAndClear_spec sample_map 33 0 sample_map_ok) as (r & bm' & E & Hok & _);
    [vm_compute; discriminate|lia|lia|].
  exists bm'. split; [|done]. rewrite E. vm_compute in E. by injection E as <- _.
Defined.

Lemma RtlpFindClearRunInChunk_spec_witness :
  RtlpFindClearRunInChunk 0xC07C0078 11 = Some (Some 7) /\
  exists r, RtlpFindClearRunInChunk 0xC07C0078 11 = Some r.
Proof.
  split; [vm_compute; reflexivity|].
  destruct (RtlpFindClearRunInChunk_spec 0xC07C0078 11) as (r & E & _); [lia|lia|]. by exists r.
Defined.

Lemma RtlFindNextForwardRunClear_spec_witness :
  RtlFindNextForwardRunClear sample_map 63 = Some (32, 96) /\
  exists s n, RtlFindNextForwardRunClear sample_map 63 = Some (n, s) /\ 63 <= s.
Proof.
  split; [vm_compute; reflexivity|].
  destruct (RtlFindNextForwardRunClear_spec sample_map 63 sample_map_ok) as (s & n & E & Hs & _);
    [vm_compute; split; [discriminate|reflexivity]|].
  exists s, n. split; [exact E|exact Hs].
Defined.

Lemma RtlFindLastBackwardRunClear_spec_witness :
  RtlFindLastBackwardRunClear sample_map 95 = Some (55, 8) /\
  exists s n, RtlFindLastBackwardRunClear sample_map 95 = Some (n, s) /\ 0 < n.
Proof.
  split; [vm_compute; reflexivity|].
  destruct (RtlFindLastBackwardRunClear_spec sample_map 95 10 sample_map_ok) as (s & n & E & _ & Hn & _);
    [vm_compute; split; [discriminate|reflexivity]|lia|vm_compute; reflexivity|].
  exists s, n. split; [exact E|exact Hn].
Defined.

End BitmapSearch.
