(* ===== verification/RtlBitmapRuns.v ===== *)
(** * The longest runs of a bit map (src/ntoskrnl/rtl/bitmap.c)

    RtlFindClearRuns collects runs of clear bits in an array of a fixed size:
    the longest ones, sorted, or as many as it finds.  It walks the bytes of
    the bit map with the tables of run lengths per byte and carries the run
    that is still open from byte to byte.

    The array is the list of the caller's entries, SizeOfRunArray of them; an
    access outside it is [None].  The specification is the order [before] on
    maximal runs of clear bits (longer first, then from the left): the array
    gets the first runs in that order. *)

From Stdlib Require Import Sorted.
From S2P Require Import Prelude RtlBitmap.
From stdpp Require Import sets.
#[local] Open Scope Z_scope.
Import Bitmap.

Module BitmapRuns.

Record RTL_BITMAP_RUN := mkRun { StartingIndex : Z; NumberOfBits : Z }.

Instance run_eq_dec : EqDecision RTL_BITMAP_RUN.
Proof. solve_decision. Defined.

(** ** The output array

    RunIndex and RunArray. *)

(** [for (j = RunIndex-2; (j >= 0) && (RunArray[j].NumberOfBits < Size); j -= 1)
    RunArray[j+1] = RunArray[j];] from [j + 1 = n] on: the final [j + 1]. *)
Fixpoint shift_runs (n : nat) (RunArray : list RTL_BITMAP_RUN) (Size : Z) : option (nat * list RTL_BITMAP_RUN) :=
  match n with
  | O => Some (O, RunArray)
  | S j =>
      e ← RunArray !! j;
      if NumberOfBits e <? Size then
        _ ← RunArray !! S j; shift_runs j (<[S j := e]> RunArray) Size
      else Some (S j, RunArray)
  end.

Definition run_at (RunArray : list RTL_BITMAP_RUN) (i : Z) : option RTL_BITMAP_RUN :=
  if (0 <=? i) && (i <? Z.of_nat (length RunArray)) then RunArray !! Z.to_nat i else None.

(** There is room in the array, or the last entry is shorter. *)
Definition has_room (RunIndex : Z) (RunArray : list RTL_BITMAP_RUN) (Size : Z) : option bool :=
  if RunIndex <? Z.of_nat (length RunArray) then Some true
  else e ← run_at RunArray (u32 (RunIndex - 1)); Some (NumberOfBits e <? Size).

(** The new entry is put in its place, with the entries after it shifted when
    the longest runs are asked for. *)
Definition store_run (LocateLongestRuns : bool) (RunIndex : Z) (RunArray : list RTL_BITMAP_RUN)
    (r : RTL_BITMAP_RUN) : option (Z * list RTL_BITMAP_RUN) :=
  let RunIndex := if RunIndex <? Z.of_nat (length RunArray) then RunIndex + 1 else RunIndex in
  '(slot, RunArray) ← (if LocateLongestRuns then shift_runs (Z.to_nat (RunIndex - 1)) RunArray (NumberOfBits r)
                       else Some (Z.to_nat (RunIndex - 1), RunArray));
  _ ← RunArray !! slot;
  Some (RunIndex, <[slot := r]> RunArray).

(** [if (!LocateLongestRuns && (RunIndex >= SizeOfRunArray)) return RunIndex;] *)
Definition full (LocateLongestRuns : bool) (RunIndex : Z) (RunArray : list RTL_BITMAP_RUN) : bool :=
  negb LocateLongestRuns && (RunIndex >=? Z.of_nat (length RunArray)).

(** ** The walk *)

(** [for (i = 0; (BitMask & CurrentByte) != 0; i += 1) BitMask <<= 1;] *)
Fixpoint find_mask (fuel : nat) (i BitMask CurrentByte : Z) : option (Z * Z) :=
  match fuel with
  | O => None
  | S fuel => if negb (Z.land BitMask CurrentByte =? 0)
              then find_mask fuel (i + 1) (u8 (Z.shiftl BitMask 1)) CurrentByte
              else Some (i, BitMask)
  end.

(** The while loop over the runs inside a byte; the boolean is an early return. *)
Fixpoint inner_runs (fuel : nat) (LocateLongestRuns : bool) (CurrentByteIndex CurrentByte RunIndex : Z)
    (RunArray : list RTL_BITMAP_RUN) : option (Z * list RTL_BITMAP_RUN * bool) :=
  match fuel with
  | O => None
  | S fuel =>
      if CurrentByte =? 0xff then Some (RunIndex, RunArray, false)
      else
        let TempNumber := tbl RtlpBitsClearAnywhere CurrentByte in
        room ← has_room RunIndex RunArray TempNumber;
        if negb room then Some (RunIndex, RunArray, false)
        else
          '(i, BitMask) ← find_mask 9 0 (tbl FillMask TempNumber) CurrentByte;
          '(RunIndex, RunArray) ← store_run LocateLongestRuns RunIndex RunArray
                                    (mkRun (u32 (u32 (CurrentByteIndex * 8) + i)) TempNumber);
          if full LocateLongestRuns RunIndex RunArray then Some (RunIndex, RunArray, true)
          else inner_runs fuel LocateLongestRuns CurrentByteIndex (Z.lor CurrentByte BitMask) RunIndex RunArray
  end.

(** Storing the run that has come to its end, when it is not empty. *)
Definition close_run (LocateLongestRuns : bool) (CurrentRunIndex CurrentRunSize RunIndex : Z)
    (RunArray : list RTL_BITMAP_RUN) : option (Z * list RTL_BITMAP_RUN * bool) :=
  if CurrentRunSize >? 0 then
    room ← has_room RunIndex RunArray CurrentRunSize;
    if room : bool then
      '(RunIndex, RunArray) ← store_run LocateLongestRuns RunIndex RunArray (mkRun CurrentRunIndex CurrentRunSize);
      Some (RunIndex, RunArray, full LocateLongestRuns RunIndex RunArray)
    else Some (RunIndex, RunArray, false)
  else Some (RunIndex, RunArray, false).

(** The loop over [n] more bytes, and the run still open at the end. *)
Fixpoint walk_bytes (n : nat) (LocateLongestRuns : bool) (buf : list Z)
    (CurrentByteIndex CurrentRunSize CurrentRunIndex RunIndex : Z) (RunArray : list RTL_BITMAP_RUN)
    : option (Z * list RTL_BITMAP_RUN) :=
  match n with
  | O =>
      '(RunIndex, RunArray, _) ← close_run LocateLongestRuns CurrentRunIndex CurrentRunSize RunIndex RunArray;
      Some (RunIndex, RunArray)
  | S n =>
      CurrentByte ← get_byte buf CurrentByteIndex;
      if negb (CurrentByte =? 0) then
        let CurrentRunSize := u32 (CurrentRunSize + tbl RtlpBitsClearLow CurrentByte) in
        '(RunIndex, RunArray, return_now) ←
          close_run LocateLongestRuns CurrentRunIndex CurrentRunSize RunIndex RunArray;
        if return_now : bool then Some (RunIndex, RunArray)
        else
          let CurrentRunSize := tbl RtlpBitsClearHigh CurrentByte in
          let CurrentRunIndex := u32 (u32 (CurrentByteIndex * 8) + (8 - CurrentRunSize)) in
          let Inside := Z.lor CurrentByte (Z.lor (tbl FillMask (tbl RtlpBitsClearLow CurrentByte))
                                                 (tbl ZeroMask (8 - tbl RtlpBitsClearHigh CurrentByte))) in
          '(RunIndex, RunArray, return_now) ←
            inner_runs 9 LocateLongestRuns CurrentByteIndex Inside RunIndex RunArray;
          if return_now : bool then Some (RunIndex, RunArray)
          else walk_bytes n LocateLongestRuns buf (CurrentByteIndex + 1) CurrentRunSize CurrentRunIndex RunIndex RunArray
      else
        walk_bytes n LocateLongestRuns buf (CurrentByteIndex + 1) (u32 (CurrentRunSize + 8)) CurrentRunIndex
          RunIndex RunArray
  end.

(** The number of runs found, the array, and the bit map with the unused bits of
    its last byte set. *)
Definition RtlFindClearRuns (bm : RTL_BITMAP) (RunArray : list RTL_BITMAP_RUN) (LocateLongestRuns : bool)
    : option (Z * list RTL_BITMAP_RUN * RTL_BITMAP) :=
  let Size := SizeOfBitMap bm in
  let SizeInBytes := u32 (Size + 7) / 8 in
  buf ← (if negb (Size mod 8 =? 0) then
           b ← get_byte (Buffer bm) (SizeInBytes - 1);
           set_byte (Buffer bm) (SizeInBytes - 1) (Z.lor b (tbl ZeroMask (Size mod 8)))
         else Some (Buffer bm));
  let RunArray := map (fun e => mkRun (StartingIndex e) 0) RunArray in
  '(RunIndex, RunArray) ← walk_bytes (Z.to_nat SizeInBytes) LocateLongestRuns buf 0 0 0 0 RunArray;
  Some (RunIndex, RunArray, with_Buffer bm buf).

(** The length of the run, StartingIndex, and the bit map. *)
Definition RtlFindLongestRunClear (bm : RTL_BITMAP) (uninitialised : RTL_BITMAP_RUN)
    : option (Z * Z * RTL_BITMAP) :=
  '(n, RunArray, bm) ← RtlFindClearRuns bm [uninitialised] true;
  if n =? 1 then
    e ← RunArray !! 0%nat; Some (NumberOfBits e, StartingIndex e, bm)
  else Some (0, 0, bm).


(** ** The order of runs *)

(** Longer runs first, equally long ones from the left. *)
Definition before (a b : RTL_BITMAP_RUN) : Prop :=
  NumberOfBits b < NumberOfBits a \/ (NumberOfBits a = NumberOfBits b /\ StartingIndex a < StartingIndex b).

Lemma before_trans a b c : before a b -> before b c -> before a c.
Proof. unfold before. lia. Qed.

Lemma before_irrefl a : ~ before a a.
Proof. unfold before. lia. Qed.

(** ** Insertion into the array *)

Lemma shift_keeps n arr size s arr' :
  shift_runs n arr size = Some (s, arr') -> forall i, (n < i)%nat -> arr' !! i = arr !! i.
Proof.
  revert arr. induction n as [|n IH]; intros arr; cbn [shift_runs]; [by intros [= <- <-]|].
  destruct (arr !! n) as [e|]; cbn [mbind option_bind]; [|done].
  destruct (NumberOfBits e <? size); [|by intros [= <- <-]].
  destruct (arr !! S n); cbn [mbind option_bind]; [|done]. intros E i Hi.
  rewrite (IH _ E i) by lia. apply list_lookup_insert_ne. lia.
Qed.

Lemma shift_runs_ok n arr size :
  (n < length arr)%nat ->
  exists s arr', shift_runs n arr size = Some (s, arr') /\ (s <= n)%nat /\ length arr' = length arr /\
    (forall r, take (S n) (<[s := r]> arr') = take s arr ++ r :: drop s (take n arr)) /\
    (forall e, (0 < s)%nat -> arr !! pred s = Some e -> size <= NumberOfBits e) /\
    (forall i e, (s <= i < n)%nat -> arr !! i = Some e -> NumberOfBits e < size).
Proof.
  revert arr. induction n as [|n IH]; intros arr Hn; cbn [shift_runs].
  { exists 0%nat, arr. split; [done|]. split; [done|]. split; [done|]. split; [|split; intros; lia].
    intros r. destruct arr as [|a arr]; [cbn in Hn; lia|]. done. }
  destruct (lookup_lt_is_Some_2 arr n) as [e He]; [lia|]. rewrite He. cbn [mbind option_bind].
  destruct (Z.ltb_spec (NumberOfBits e) size) as [Hlt|Hge].
  - destruct (lookup_lt_is_Some_2 arr (S n)) as [e1 He1]; [lia|]. rewrite He1. cbn [mbind option_bind].
    destruct (IH (<[S n := e]> arr)) as (s & arr' & E & Hs & Hl & Htk & Hlo & Hhi); [rewrite length_insert; lia|].
    rewrite length_insert in Hl.
    exists s, arr'. split; [done|]. split; [lia|]. split; [done|].
    assert (Hkeep : forall i, (i <= n)%nat -> <[S n := e]> arr !! i = arr !! i) by (intros; apply list_lookup_insert_ne; lia).
    split; [|split].
    + intros r. rewrite (take_S_r _ (S n) e).
      * rewrite Htk, <- app_assoc. rewrite take_insert_ge by lia. rewrite take_insert_ge by lia.
        rewrite (take_S_r arr n e) by done. rewrite drop_app_le; [done|].
        rewrite length_take. lia.
      * pose proof (shift_keeps n (<[S n := e]> arr) size s arr' E (S n)) as Hk.
        rewrite list_lookup_insert_ne by lia. rewrite Hk by lia. apply list_lookup_insert_eq. lia.
    + intros x Hpos Hx. apply Hlo; [done|]. rewrite Hkeep by lia. done.
    + intros i x Hi Hx. destruct (decide (i = n)) as [->|]; [congruence|]. apply (Hhi i); [lia|]. rewrite Hkeep by lia. done.
  - exists (S n), arr. split; [done|]. split; [done|]. split; [done|]. split; [|split; [|intros; lia]].
    + intros r. rewrite (take_S_r _ (S n) r) by (apply list_lookup_insert_eq; lia). rewrite take_insert_ge by lia.
      f_equal. rewrite drop_ge; [done|]. rewrite length_take. lia.
    + intros x _ Hx. cbn in Hx. assert (x = e) as -> by congruence. done.
Qed.

(** ** What the array holds *)

(** The array after the runs [seen]: with room left it has them all; when the
    longest are asked for it is sorted and has the first of them. *)
Record collected (L : bool) (k : Z) (arr : list RTL_BITMAP_RUN) (seen : RTL_BITMAP_RUN -> Prop) : Prop := {
  col_size : 0 < Z.of_nat (length arr) < 2 ^ 32;
  col_range : 0 <= k <= Z.of_nat (length arr);
  col_nodup : NoDup (take (Z.to_nat k) arr);
  col_seen : forall r, r ∈ take (Z.to_nat k) arr -> seen r;
  col_all : k < Z.of_nat (length arr) -> forall r, seen r -> r ∈ take (Z.to_nat k) arr;
  col_sorted : L = true -> StronglySorted before (take (Z.to_nat k) arr);
  col_rest : L = true -> forall r e, seen r -> r ∉ take (Z.to_nat k) arr -> e ∈ take (Z.to_nat k) arr -> before e r }.

(** A run that comes after all equally long ones seen. *)
Definition fresh_run (seen : RTL_BITMAP_RUN -> Prop) (r : RTL_BITMAP_RUN) : Prop :=
  ~ seen r /\ forall e, seen e -> NumberOfBits e = NumberOfBits r -> StartingIndex e < StartingIndex r.

Definition with_run (seen : RTL_BITMAP_RUN -> Prop) (r : RTL_BITMAP_RUN) : RTL_BITMAP_RUN -> Prop :=
  fun x => seen x \/ x = r.

Lemma collected_ext L k arr seen seen' :
  (forall r, seen r <-> seen' r) -> collected L k arr seen -> collected L k arr seen'.
Proof.
  intros H [H1 H2 H3 H4 H5 H6 H7]. constructor; try done.
  - intros r Hr. by apply H, H4.
  - intros Hk r Hr. by apply H5, H.
  - intros HL r e Hr. by apply H7, H.
Qed.

Lemma sorted_app l1 l2 :
  StronglySorted before (l1 ++ l2) <->
  StronglySorted before l1 /\ StronglySorted before l2 /\ forall x y, x ∈ l1 -> y ∈ l2 -> before x y.
Proof.
  induction l1 as [|a l1 IH]; cbn [app].
  { split; [intros H; split; [constructor|]; split; [done|]; intros x y Hx; set_solver|tauto]. }
  split.
  - intros H. apply StronglySorted_inv in H as [H Ha]. apply IH in H as (H1 & H2 & H3). apply List.Forall_app in Ha as [Ha1 Ha2].
    split; [constructor; assumption|]. split; [done|]. intros x y Hx Hy. apply elem_of_cons in Hx as [->|Hx]; [|by apply H3].
    rewrite Forall_forall in Ha2. by apply Ha2.
  - intros (H1 & H2 & H3). apply StronglySorted_inv in H1 as [H1 Ha]. constructor.
    + apply IH. split; [done|]. split; [done|]. intros x y Hx. apply H3. by right.
    + apply List.Forall_app. split; [done|]. apply Forall_forall. intros y Hy. apply H3; [by left|done].
Qed.

(** The new entry in its place among the [keep] that stay. *)
Lemma place_sorted keep s r :
  StronglySorted before keep ->
  (forall e, e ∈ keep -> NumberOfBits e = NumberOfBits r -> StartingIndex e < StartingIndex r) ->
  (s <= length keep)%nat ->
  (forall e, (0 < s)%nat -> keep !! pred s = Some e -> NumberOfBits r <= NumberOfBits e) ->
  (forall i e, (s <= i)%nat -> keep !! i = Some e -> NumberOfBits e < NumberOfBits r) ->
  StronglySorted before (take s keep ++ r :: drop s keep).
Proof.
  intros Hk Hlate Hs Hlo Hhi. pose proof Hk as Hk'. rewrite <- (take_drop s keep) in Hk'.
  apply sorted_app in Hk' as (H1 & H2 & H12). apply sorted_app. split; [done|].
  assert (Hd : forall y, y ∈ drop s keep -> before r y).
  { intros y Hy. apply list_elem_of_lookup in Hy as (i & Hi). rewrite lookup_drop in Hi. left. apply (Hhi (s + i)%nat); [lia|done]. }
  assert (Ht : forall x, x ∈ take s keep -> before x r).
  { intros x Hx. apply list_elem_of_lookup in Hx as (i & Hi). apply lookup_take_Some in Hi as [Hi His].
    assert (Hge : NumberOfBits r <= NumberOfBits x).
    { destruct (decide (i = pred s)) as [->|Hne]; [by apply Hlo; [lia|]|].
      destruct (keep !! pred s) as [p|] eqn:Ep.
      - specialize (Hlo p ltac:(lia) eq_refl). rewrite <- (take_drop (S i) keep) in Hk. apply sorted_app in Hk as (_ & _ & Hk).
        assert (before x p); [|unfold before in *; lia]. apply Hk.
        + apply list_elem_of_lookup. exists i. rewrite lookup_take_lt by lia. done.
        + apply list_elem_of_lookup. exists (pred s - S i)%nat. rewrite lookup_drop. by replace (S i + (pred s - S i))%nat with (pred s) by lia.
      - apply lookup_ge_None in Ep. lia. }
    assert (Hx : x ∈ keep) by (by eapply list_elem_of_lookup_2).
    unfold before. specialize (Hlate x Hx). lia. }
  split; [constructor; [done|]; by apply Forall_forall|].
  intros x y Hx Hy. apply elem_of_cons in Hy as [->|Hy]; [by apply Ht|by apply H12].
Qed.

Lemma place_perm (keep : list RTL_BITMAP_RUN) s r : Permutation (take s keep ++ r :: drop s keep) (r :: keep).
Proof. rewrite <- (take_drop s keep) at 3. symmetry. apply Permutation_middle. Qed.

Lemma has_room_ok k arr size :
  0 < Z.of_nat (length arr) < 2 ^ 32 -> 0 <= k <= Z.of_nat (length arr) ->
  exists b, has_room k arr size = Some b /\
    (b = true -> k < Z.of_nat (length arr) \/ exists e, arr !! pred (length arr) = Some e /\ NumberOfBits e < size) /\
    (b = false -> k = Z.of_nat (length arr) /\ exists e, arr !! pred (length arr) = Some e /\ size <= NumberOfBits e).
Proof.
  intros Hn Hk. unfold has_room. destruct (Z.ltb_spec k (Z.of_nat (length arr))) as [Hlt|Hge].
  { exists true. split; [done|]. split; [by left|done]. }
  rewrite u32_small by lia. unfold run_at. replace ((0 <=? k - 1) && (k - 1 <? Z.of_nat (length arr))) with true by lia.
  replace (Z.to_nat (k - 1)) with (pred (length arr)) by lia.
  destruct (lookup_lt_is_Some_2 arr (pred (length arr))) as [e He]; [lia|]. rewrite He. cbn [mbind option_bind].
  exists (NumberOfBits e <? size). split; [done|]. split; intros E; [right|split; [lia|]]; exists e; (split; [done|lia]).
Qed.

(** What stays of the array when one more entry is put in. *)
Lemma take_last (arr : list RTL_BITMAP_RUN) e :
  arr !! pred (length arr) = Some e -> arr = take (pred (length arr)) arr ++ [e].
Proof.
  intros He. pose proof (lookup_lt_Some _ _ _ He). rewrite <- (take_S_r arr _ e He).
  symmetry. apply take_ge. lia.
Qed.

Lemma last_in (l : list RTL_BITMAP_RUN) e : e ∈ l ++ [e].
Proof. apply elem_of_app. right. by left. Qed.

Lemma store_run_ok L k arr seen r :
  collected L k arr seen -> fresh_run seen r ->
  k < Z.of_nat (length arr) \/
    L = true /\ k = Z.of_nat (length arr) /\
    (exists e, arr !! pred (length arr) = Some e /\ NumberOfBits e < NumberOfBits r) ->
  exists k' arr', store_run L k arr r = Some (k', arr') /\ length arr' = length arr /\
    k' = Z.min (k + 1) (Z.of_nat (length arr)) /\ collected L k' arr' (with_run seen r).
Proof.
  intros [Hn Hk Hnd Hseen Hall Hsort Hrest] [Hnew Hlate] Hroom. unfold store_run.
  set (k' := if k <? Z.of_nat (length arr) then k + 1 else k).
  assert (Hk' : k' = Z.min (k + 1) (Z.of_nat (length arr))) by (unfold k'; destruct (Z.ltb_spec k (Z.of_nat (length arr))); lia).
  set (n := Z.to_nat (k' - 1)). assert (Hnl : (n < length arr)%nat) by lia.
  assert (HSn : Z.to_nat k' = S n) by lia.
  (* the entries that stay *)
  assert (Hkeep : forall e, e ∈ take n arr -> e ∈ take (Z.to_nat k) arr).
  { intros e He. apply list_elem_of_lookup in He as (i & Hi). apply lookup_take_Some in Hi as [Hi Hin].
    apply list_elem_of_lookup. exists i. rewrite lookup_take_lt by lia. done. }
  assert (Hlive : k < Z.of_nat (length arr) /\ take (Z.to_nat k) arr = take n arr \/
    (L = true /\ k = Z.of_nat (length arr)) /\ exists last, before r last /\ seen last /\ take (Z.to_nat k) arr = take n arr ++ [last]).
  { destruct Hroom as [Hlt|(HL & Hkn & e & He & Hlt)]; [left; split; [done|]; f_equal; lia|right].
    split; [done|]. exists e. split; [by left|].
    assert (Ht : take (Z.to_nat k) arr = take n arr ++ [e]).
    { replace (Z.to_nat k) with (length arr) by lia. replace n with (pred (length arr)) by lia.
      rewrite take_ge by lia. by apply take_last. }
    split; [|done]. apply Hseen. rewrite Ht. apply last_in. }
  assert (Hfin : forall s arr', (s <= n)%nat -> length arr' = length arr ->
    take (S n) (<[s := r]> arr') = take s arr ++ r :: drop s (take n arr) ->
    (L = true -> StronglySorted before (take s arr ++ r :: drop s (take n arr))) ->
    collected L k' (<[s := r]> arr') (with_run seen r)).
  { intros s arr' Hs Hl Htk Hso.
    assert (Hlv : Permutation (take (Z.to_nat k') (<[s := r]> arr')) (r :: take n arr)).
    { rewrite HSn, Htk. rewrite <- (place_perm (take n arr) s r). by rewrite take_take, Nat.min_l by lia. }
    constructor; rewrite ?length_insert, ?Hl; try done; [lia|..].
    - rewrite Hlv. apply NoDup_cons. split; [intros Hin; by apply Hnew, Hseen, Hkeep|].
      destruct Hlive as [[_ E]|(_ & last & _ & _ & E)]; rewrite E in Hnd; [done|]. by apply NoDup_app in Hnd as [? _].
    - intros x Hx. rewrite Hlv in Hx. apply elem_of_cons in Hx as [->|Hx]; [by right|left]. by apply Hseen, Hkeep.
    - intros Hlt x Hx. rewrite Hlv. apply elem_of_cons. destruct Hx as [Hx| ->]; [right|by left].
      destruct Hlive as [[Hkl E]|([_ Hkn] & _)]; [rewrite <- E; by apply Hall|lia].
    - intros HL. rewrite HSn, Htk. by apply Hso.
    - intros HL x e Hx Hnx He. rewrite Hlv in Hnx, He. apply not_elem_of_cons in Hnx as [Hxr Hxn].
      destruct Hx as [Hx|]; [|done].
      destruct Hlive as [[Hkl E]|(_ & last & Hbl & Hsl & E)].
      + exfalso. apply Hxn. rewrite <- E. by apply Hall.
      + assert (Hle : forall y, y ∈ take n arr -> before y last).
        { intros y Hy. specialize (Hsort HL). rewrite E in Hsort. apply sorted_app in Hsort as (_ & _ & H). apply H; [done|by left]. }
        assert (Hcase : x = last \/ x ∉ take (Z.to_nat k) arr).
        { destruct (decide (x = last)) as [->|Hne]; [by left|right]. rewrite E. rewrite elem_of_app, list_elem_of_singleton. tauto. }
        apply elem_of_cons in He. destruct Hcase as [->|Hnx]; destruct He as [->|He]; [done|by apply Hle|..].
        * apply (before_trans _ last); [done|]. apply (Hrest HL); [done|done|]. rewrite E. apply last_in.
        * apply (Hrest HL); [done|done|]. by apply Hkeep. }
  destruct L.
  - destruct (shift_runs_ok n arr (NumberOfBits r) Hnl) as (s & arr' & -> & Hs & Hl & Htk & Hlo & Hhi).
    cbn [mbind option_bind]. destruct (lookup_lt_is_Some_2 arr' s) as [x Hx]; [lia|]. rewrite Hx. cbn [mbind option_bind].
    exists k', (<[s := r]> arr'). split; [done|]. split; [by rewrite length_insert|]. split; [done|].
    apply Hfin; [done|done|apply Htk|]. intros _. replace (take s arr) with (take s (take n arr)) by (rewrite take_take; f_equal; lia).
    apply place_sorted.
    + specialize (Hsort eq_refl). destruct Hlive as [[_ E]|(_ & last & _ & _ & E)]; rewrite E in Hsort; [done|].
      by apply sorted_app in Hsort as [? _].
    + intros e He. apply Hlate. by apply Hseen, Hkeep.
    + rewrite length_take. lia.
    + intros e Hpos He. apply lookup_take_Some in He as [He _]. by apply Hlo.
    + intros i e Hi He. apply lookup_take_Some in He as [He Hin]. by apply (Hhi i).
  - cbn [mbind option_bind]. destruct (lookup_lt_is_Some_2 arr n) as [x Hx]; [lia|]. rewrite Hx. cbn [mbind option_bind].
    exists k', (<[n := r]> arr). split; [done|]. split; [by rewrite length_insert|]. split; [done|].
    apply Hfin; [done|done| |done]. rewrite (take_S_r _ n r) by (apply list_lookup_insert_eq; lia).
    rewrite take_insert_ge by lia. by rewrite drop_ge by (rewrite length_take; lia).
Qed.

Lemma skip_run_ok k arr seen r e :
  collected true k arr seen -> fresh_run seen r -> k = Z.of_nat (length arr) ->
  arr !! pred (length arr) = Some e -> NumberOfBits r <= NumberOfBits e -> collected true k arr (with_run seen r).
Proof.
  intros [Hn Hk Hnd Hseen Hall Hsort Hrest] [Hnew Hlate] Hfull He Hle. constructor; try done.
  - intros x Hx. left. by apply Hseen.
  - intros H. lia.
  - intros _ x y Hx Hnx Hy. destruct Hx as [Hx| ->]; [by apply Hrest|].
    assert (Hl : take (Z.to_nat k) arr = take (pred (length arr)) arr ++ [e]).
    { rewrite take_ge by lia. by apply take_last. }
    assert (Her : before e r).
    { assert (Hse : seen e) by (apply Hseen; rewrite Hl; apply last_in). unfold before. specialize (Hlate e Hse). lia. }
    rewrite Hl in Hy. apply elem_of_app in Hy as [Hy|Hy]; [|by apply list_elem_of_singleton in Hy as ->].
    apply (before_trans _ e); [|done]. specialize (Hsort eq_refl). rewrite Hl in Hsort.
    apply sorted_app in Hsort as (_ & _ & H). apply H; [done|by left].
Qed.

(** Where the walk stands after a run was offered: it goes on, or returns with
    the array full. *)
Definition goes_on (L : bool) (k : Z) (arr : list RTL_BITMAP_RUN) (stop : bool) : Prop :=
  if stop then L = false /\ k = Z.of_nat (length arr) else L = true \/ k < Z.of_nat (length arr).

Lemma full_ok L k arr : k <= Z.of_nat (length arr) -> goes_on L k arr (full L k arr).
Proof.
  intros Hk. unfold full, goes_on. destruct L; cbn [negb andb]; [by left|].
  rewrite Z.geb_leb. destruct (Z.leb_spec (Z.of_nat (length arr)) k); [split; [done|lia]|right; lia].
Qed.

Lemma close_run_ok L k arr seen idx size :
  collected L k arr seen -> goes_on L k arr false -> fresh_run seen (mkRun idx size) -> 0 < size ->
  exists k' arr' stop, close_run L idx size k arr = Some (k', arr', stop) /\ length arr' = length arr /\
    collected L k' arr' (with_run seen (mkRun idx size)) /\ goes_on L k' arr' stop.
Proof.
  intros Hc Hg Hf Hs. unfold close_run. rewrite Z.gtb_ltb. replace (0 <? size) with true by lia.
  destruct (has_room_ok k arr size (col_size _ _ _ _ Hc) (col_range _ _ _ _ Hc)) as (b & -> & Ht & Hfl).
  cbn [mbind option_bind]. destruct b.
  - destruct (store_run_ok L k arr seen (mkRun idx size) Hc Hf) as (k' & arr' & -> & Hl & Hk' & Hc').
    { pose proof (col_range _ _ _ _ Hc). destruct (Ht eq_refl) as [|He]; [by left|].
      destruct (Z.eq_dec k (Z.of_nat (length arr))); [|left; lia]. right. destruct Hg as [->|]; [done|lia]. }
    cbn [mbind option_bind]. exists k', arr', (full L k' arr'). split; [done|]. split; [done|]. split; [done|].
    apply full_ok. apply (col_range _ _ _ _ Hc').
  - destruct (Hfl eq_refl) as (Hk & e & He & Hle). exists k, arr, false. split; [done|]. split; [done|].
    destruct Hg as [->|]; [|lia]. split; [by apply (skip_run_ok k arr seen _ e)|by left].
Qed.

(** ** Runs inside a byte *)

Definition byte_run (c i n : Z) : bool :=
  (0 <=? i) && (0 <? n) && (i + n <=? 8) && forallb (fun j => negb (Z.testbit c (i + j))) (zrange (Z.to_nat n)) &&
  ((i =? 0) || Z.testbit c (i - 1)) && ((i + n =? 8) || Z.testbit c (i + n)).

Definition byte_step (c : Z) : bool :=
  let n := tbl RtlpBitsClearAnywhere c in
  match find_mask 9 0 (tbl FillMask n) c with
  | None => false
  | Some (i, m) =>
      let c' := Z.lor c m in
      (0 <=? m) && (m <? 256) && byte_run c i n && (tbl RtlpBitsClearTotal c' <? tbl RtlpBitsClearTotal c) &&
      forallb (fun i' => forallb (fun n' =>
        implb (byte_run c' i' n') (byte_run c i' n' && ((n' <? n) || ((n' =? n) && (i <? i')))) &&
        implb (byte_run c i' n') ((n' <=? n) && (((i' =? i) && (n' =? n)) || byte_run c' i' n'))) (zrange 9)) (zrange 8)
  end.

Lemma byte_run_range c i n : byte_run c i n = true -> 0 <= i < 8 /\ 0 < n <= 8.
Proof. unfold byte_run. intros H. repeat (apply andb_true_iff in H as [H ?]). lia. Qed.

Lemma byte_step_ok c :
  0 <= c < 255 ->
  exists i m, find_mask 9 0 (tbl FillMask (tbl RtlpBitsClearAnywhere c)) c = Some (i, m) /\ 0 <= m < 256 /\
    byte_run c i (tbl RtlpBitsClearAnywhere c) = true /\
    tbl RtlpBitsClearTotal (Z.lor c m) < tbl RtlpBitsClearTotal c /\
    (forall i' n', byte_run (Z.lor c m) i' n' = true ->
       byte_run c i' n' = true /\
       (n' < tbl RtlpBitsClearAnywhere c \/ n' = tbl RtlpBitsClearAnywhere c /\ i < i')) /\
    (forall i' n', byte_run c i' n' = true ->
       n' <= tbl RtlpBitsClearAnywhere c /\
       (i' = i /\ n' = tbl RtlpBitsClearAnywhere c \/ byte_run (Z.lor c m) i' n' = true)).
Proof.
  intros Hc. assert (H : byte_step c = true).
  { apply (zrange_forallb 255 byte_step); [vm_compute; reflexivity|lia]. }
  unfold byte_step in H. destruct (find_mask 9 0 _ c) as [[i m]|]; [|done].
  apply andb_true_iff in H as [H Hall]. apply andb_true_iff in H as [H Htot]. apply andb_true_iff in H as [H Hrun].
  exists i, m. split; [done|]. split; [lia|]. split; [done|]. split; [lia|].
  assert (Hin : forall i' n', 0 <= i' < 8 /\ 0 < n' <= 8 -> _) by
    (intros i' n' Hr; exact (zrange_forallb 9 _ n' (zrange_forallb 8 _ i' Hall ltac:(lia)) ltac:(lia))).
  split; intros i' n' Hb; specialize (Hin i' n' (byte_run_range _ _ _ Hb)); cbv beta in Hin;
    apply andb_true_iff in Hin as [H1 H2].
  - rewrite Hb in H1. cbn [implb] in H1. apply andb_true_iff in H1 as [H1 H3]. split; [done|]. lia.
  - rewrite Hb in H2. cbn [implb] in H2. apply andb_true_iff in H2 as [H2 H3]. split; [lia|].
    apply orb_true_iff in H3 as [H3|H3]; [left; lia|by right].
Qed.

Lemma byte_run_full i n : byte_run 255 i n = false.
Proof.
  destruct (byte_run 255 i n) eqn:E; [|done]. pose proof (byte_run_range _ _ _ E) as Hr.
  assert (H : forallb (fun i => forallb (fun n => negb (byte_run 255 i n)) (zrange 9)) (zrange 8) = true) by (vm_compute; reflexivity).
  pose proof (zrange_forallb 9 _ n (zrange_forallb 8 _ i H ltac:(lia)) ltac:(lia)) as H'. cbv beta in H'. by rewrite E in H'.
Qed.

Definition with_byte (seen : RTL_BITMAP_RUN -> Prop) (k8 c : Z) : RTL_BITMAP_RUN -> Prop :=
  fun x => seen x \/ exists i n, byte_run c i n = true /\ x = mkRun (k8 + i) n.

(** Runs that are all skipped. *)
Lemma skip_byte_ok k arr seen k8 c e :
  collected true k arr seen -> k = Z.of_nat (length arr) -> arr !! pred (length arr) = Some e ->
  (forall i n, byte_run c i n = true -> fresh_run seen (mkRun (k8 + i) n) /\ n <= NumberOfBits e) ->
  collected true k arr (with_byte seen k8 c).
Proof.
  intros Hc Hk He Hf. pose proof Hc as [Hn Hr Hnd Hseen Hall Hsort Hrest]. constructor; try done.
  - intros x Hx. left. by apply Hseen.
  - intros H. lia.
  - intros _ x y [Hx|(i & n & Hb & ->)] Hnx Hy; [by apply Hrest|]. destruct (Hf i n Hb) as [Hfr Hle].
    apply (col_rest _ _ _ _ (skip_run_ok k arr seen (mkRun (k8 + i) n) e Hc Hfr Hk He Hle) eq_refl); [by right|done|done].
Qed.

Lemma inner_runs_ok fuel L ByteIndex c k arr seen :
  0 <= c < 256 -> tbl RtlpBitsClearTotal c < Z.of_nat fuel -> 0 <= ByteIndex -> 8 * ByteIndex + 8 <= 2 ^ 32 ->
  collected L k arr seen -> goes_on L k arr false ->
  (forall i n, byte_run c i n = true -> fresh_run seen (mkRun (8 * ByteIndex + i) n)) ->
  exists k' arr' stop, inner_runs fuel L ByteIndex c k arr = Some (k', arr', stop) /\ length arr' = length arr /\
    goes_on L k' arr' stop /\
    (stop = false -> collected L k' arr' (with_byte seen (8 * ByteIndex) c)) /\
    (stop = true -> exists seen', collected L k' arr' seen' /\
       forall x, seen' x -> with_byte seen (8 * ByteIndex) c x).
Proof.
  revert c k arr seen. induction fuel as [|fuel IH]; intros c k arr seen Hc Hfuel HB H32 Hcol Hg Hf.
  { exfalso. assert (0 <= tbl RtlpBitsClearTotal c); [|lia].
    apply (Z.leb_le 0). apply (zrange_forallb 256 (fun c => 0 <=? tbl RtlpBitsClearTotal c)); [vm_compute; reflexivity|lia]. }
  cbn [inner_runs]. destruct (Z.eqb_spec c 255) as [->|Hne].
  { exists k, arr, false. split; [done|]. split; [done|]. split; [done|]. split; [|done]. intros _.
    apply (collected_ext _ _ _ seen); [|done]. intros x. split; [by left|]. intros [|(i & n & H & _)]; [done|].
    by rewrite byte_run_full in H. }
  destruct (byte_step_ok c ltac:(lia)) as (i & m & Em & Hm & Hrun & Htot & Hsub & Hsup).
  set (n := tbl RtlpBitsClearAnywhere c) in *.
  destruct (has_room_ok k arr n (col_size _ _ _ _ Hcol) (col_range _ _ _ _ Hcol)) as (b & -> & Ht & Hfl).
  cbn [mbind option_bind]. destruct b; cbn [negb].
  2:{ destruct (Hfl eq_refl) as (Hk & e & He & Hle). exists k, arr, false. split; [done|]. split; [done|]. split; [done|].
      split; [|done]. intros _. destruct Hg as [->|]; [|lia]. apply (skip_byte_ok _ _ _ _ _ e); try done.
      intros i' n' Hb'. split; [by apply Hf|]. destruct (Hsup i' n' Hb'). lia. }
  rewrite Em. cbn [mbind option_bind]. pose proof (byte_run_range _ _ _ Hrun) as Hrg.
  rewrite (u32_small (ByteIndex * 8)), u32_small by lia. replace (ByteIndex * 8 + i) with (8 * ByteIndex + i) by lia.
  set (r := mkRun (8 * ByteIndex + i) n). specialize (Hf i n Hrun) as Hfr. fold r in Hfr.
  destruct (store_run_ok L k arr seen r Hcol Hfr) as (k' & arr' & -> & Hl & Hk' & Hc').
  { pose proof (col_range _ _ _ _ Hcol). destruct (Ht eq_refl) as [|He]; [by left|].
    destruct (Z.eq_dec k (Z.of_nat (length arr))); [|left; lia]. right. destruct Hg as [->|]; [done|lia]. }
  cbn [mbind option_bind]. pose proof (full_ok L k' arr' (proj2 (col_range _ _ _ _ Hc'))) as Hgo.
  assert (Hw : forall x, with_byte (with_run seen r) (8 * ByteIndex) (Z.lor c m) x <-> with_byte seen (8 * ByteIndex) c x).
  { intros x. split.
    - intros [[Hx| ->]|(i' & n' & Hb & ->)]; [by left|right; by exists i, n|right; exists i', n'; split; [by apply Hsub|done]].
    - intros [Hx|(i' & n' & Hb & ->)]; [left; by left|]. destruct (Hsup i' n' Hb) as [_ [[-> ->]|Hb']]; [left; by right|].
      right. by exists i', n'. }
  destruct (full L k' arr').
  { exists k', arr', true. split; [done|]. split; [done|]. split; [done|]. split; [done|]. intros _.
    exists (with_run seen r). split; [done|]. intros x Hx. apply Hw. by left. }
  destruct (IH (Z.lor c m) k' arr' (with_run seen r)) as (k2 & arr2 & stop & E & Hl2 & Hg2 & Hgo2 & Hst2); try done.
  - by apply lor_byte.
  - lia.
  - intros i' n' Hb'. destruct (Hsub i' n' Hb') as [Hb Hord]. destruct (Hf i' n' Hb) as [Hn1 Hl1]. split.
    + intros [Hx|Hx]; [done|]. unfold r in Hx. injection Hx as Hx1 Hx2. lia.
    + intros e [He| ->]; [by apply Hl1|]. unfold r. cbn [NumberOfBits StartingIndex]. lia.
  - exists k2, arr2, stop. split; [done|]. split; [lia|]. split; [done|]. split.
    + intros Hs. apply (collected_ext _ _ _ _ _ Hw). by apply Hgo2.
    + intros Hs. destruct (Hst2 Hs) as (seen' & Hc2 & Hsub2). exists seen'. split; [done|]. intros x Hx. by apply Hw, Hsub2.
Qed.

Lemma byte_run_spec c i n :
  byte_run c i n = true <->
  0 <= i /\ 0 < n /\ i + n <= 8 /\ (forall j, i <= j < i + n -> Z.testbit c j = false) /\
  (i = 0 \/ Z.testbit c (i - 1) = true) /\ (i + n = 8 \/ Z.testbit c (i + n) = true).
Proof.
  unfold byte_run. rewrite !andb_true_iff, !orb_true_iff, forallb_forall. split.
  - intros (((((H1 & H2) & H3) & H4) & H5) & H6). split; [lia|]. split; [lia|]. split; [lia|]. split.
    + intros j Hj. apply negb_true_iff. replace j with (i + (j - i)) by lia. apply H4. unfold zrange.
      apply in_map_iff. exists (Z.to_nat (j - i)). rewrite in_seq. lia.
    + split; [destruct H5; [left; lia|by right]|destruct H6; [left; lia|by right]].
  - intros (H1 & H2 & H3 & H4 & H5 & H6). split; [split; [split; [split; [split|]|]|]|]; try lia.
    + intros j Hj. apply in_map_iff in Hj as (a & <- & Ha). apply in_seq in Ha. apply negb_true_iff, H4. lia.
    + destruct H5; [left; lia|by right].
    + destruct H6; [left; lia|by right].
Qed.

(** ** Maximal runs of clear bits *)

Section Walk.
Variables (g : Z -> bool) (total : Z).

Definition maxrun (r : RTL_BITMAP_RUN) : Prop :=
  let s := StartingIndex r in let n := NumberOfBits r in
  0 <= s /\ 0 < n /\ s + n <= total /\ (forall j, s <= j < s + n -> g j = false) /\
  (s = 0 \/ g (s - 1) = true) /\ (s + n = total \/ g (s + n) = true).

Definition seen_to (P : Z) (r : RTL_BITMAP_RUN) : Prop := maxrun r /\ StartingIndex r < P.

Lemma maxrun_start r1 r2 : maxrun r1 -> maxrun r2 -> StartingIndex r1 = StartingIndex r2 -> r1 = r2.
Proof.
  destruct r1 as [s n1], r2 as [s2 n2]. unfold maxrun. cbn [StartingIndex NumberOfBits].
  intros (H1 & H2 & H3 & H4 & H5 & H6) (G1 & G2 & G3 & G4 & G5 & G6) <-. f_equal.
  destruct (Z.lt_trichotomy n1 n2) as [Hlt|[|Hlt]]; [|done|].
  - destruct H6 as [|H6]; [lia|]. rewrite G4 in H6; [done|lia].
  - destruct G6 as [|G6]; [lia|]. rewrite H4 in G6; [done|lia].
Qed.

(** No run starts inside a stretch of clear bits. *)
Lemma maxrun_inside r P Q : 0 <= P -> maxrun r -> (forall j, P <= j < Q -> g j = false) -> P <= StartingIndex r < Q -> StartingIndex r = P.
Proof.
  intros HP (H1 & _ & _ & _ & H5 & _) Hc Hr. destruct (Z.eq_dec (StartingIndex r) P); [done|].
  destruct H5 as [H5|H5]; [lia|]. rewrite Hc in H5; [done|lia].
Qed.

Lemma maxrun_clear r j : maxrun r -> StartingIndex r <= j < StartingIndex r + NumberOfBits r -> g j = false.
Proof. intros (_ & _ & _ & H & _) Hj. by apply H. Qed.

Lemma fresh_seen_to P r : P <= StartingIndex r -> fresh_run (seen_to P) r.
Proof. intros H. split; [intros [_ ?]; lia|]. intros e [_ ?]. lia. Qed.

(** The open run [P, Q) has ended: closing it. *)
Lemma close_open L k arr P Q idx :
  collected L k arr (seen_to P) -> goes_on L k arr false -> 0 <= P <= Q -> Q <= total ->
  (forall j, P <= j < Q -> g j = false) -> P = 0 \/ g (P - 1) = true -> Q = total \/ g Q = true ->
  (P < Q -> idx = P) ->
  exists k' arr' stop, close_run L idx (Q - P) k arr = Some (k', arr', stop) /\ length arr' = length arr /\
    collected L k' arr' (seen_to Q) /\ goes_on L k' arr' stop.
Proof.
  intros Hc Hg HPQ HQt Hcl Hleft Hright Hidx. destruct (Z.eq_dec P Q) as [->|Hne].
  { exists k, arr, false. unfold close_run. rewrite Z.sub_diag. done. }
  rewrite (Hidx ltac:(lia)).
  destruct (close_run_ok L k arr (seen_to P) P (Q - P) Hc Hg) as (k' & arr' & stop & E & Hl & Hc' & Hg');
    [apply fresh_seen_to; cbn; lia|lia|].
  exists k', arr', stop. split; [done|]. split; [done|]. split; [|done].
  assert (Hr : maxrun (mkRun P (Q - P))).
  { unfold maxrun. cbn [StartingIndex NumberOfBits]. replace (P + (Q - P)) with Q by lia.
    split; [lia|]. split; [lia|]. split; [lia|]. split; [done|]. split; [done|done]. }
  eapply collected_ext; [|exact Hc']. intros x. split.
  - intros [[Hx Hs]| ->]; [split; [done|lia]|split; [done|cbn; lia]].
  - intros [Hx Hs]. destruct (Z.lt_ge_cases (StartingIndex x) P); [left; split; [done|lia]|right].
    apply maxrun_start; [done|done|]. apply (maxrun_inside x P Q); [lia|done|done|lia].
Qed.


(** The low and the high clear bits of a byte. *)
Definition byte_edges (c : Z) : bool :=
  let low := tbl RtlpBitsClearLow c in let high := tbl RtlpBitsClearHigh c in
  (0 <=? low) && (0 <=? high) && (low + high <=? 7) && Z.testbit c low && Z.testbit c (7 - high) &&
  forallb (fun i => implb (Z.testbit c i) ((low <=? i) && (i <=? 7 - high))) (zrange 8).

Lemma byte_edges_ok c :
  0 < c < 256 ->
  let low := tbl RtlpBitsClearLow c in let high := tbl RtlpBitsClearHigh c in
  0 <= low /\ 0 <= high /\ low + high <= 7 /\ Z.testbit c low = true /\ Z.testbit c (7 - high) = true /\
  forall i, 0 <= i < 8 -> i < low \/ 8 - high <= i -> Z.testbit c i = false.
Proof.
  intros Hc low high. assert (H : (if c =? 0 then true else byte_edges c) = true).
  { apply (zrange_forallb 256 (fun c => if c =? 0 then true else byte_edges c)); [vm_compute; reflexivity|lia]. }
  replace (c =? 0) with false in H by lia. unfold byte_edges in H. fold low high in H.
  repeat (apply andb_true_iff in H as [H ?]). split; [lia|]. split; [lia|]. split; [lia|]. split; [done|]. split; [done|].
  intros i Hi Ho. destruct (Z.testbit c i) eqn:E; [|done].
  match goal with F : forallb _ _ = true |- _ => pose proof (zrange_forallb 8 _ i F ltac:(lia)) as Hb end.
  cbv beta in Hb. rewrite E in Hb. cbn [implb] in Hb. lia.
Qed.

(** The runs inside a byte, with its low and high clear bits masked out, are the
    maximal runs that start between them. *)
Lemma inner_maxruns buf q c :
  (forall j, 0 <= j -> g j = bit buf j) -> 0 <= q -> 8 * q + 8 <= total -> byte buf q = c -> 0 < c < 256 ->
  let low := tbl RtlpBitsClearLow c in let high := tbl RtlpBitsClearHigh c in
  let cc := Z.lor c (Z.lor (tbl FillMask low) (tbl ZeroMask (8 - high))) in
  0 <= cc < 256 /\
  (forall i n, byte_run cc i n = true -> low <= i) /\
  forall x, with_byte (seen_to (8 * q + low)) (8 * q) cc x <-> seen_to (8 * q + 8 - high) x.
Proof.
  intros Hg Hq Ht Hbq Hc low high cc.
  destruct (byte_edges_ok c Hc) as (Hl0 & Hh0 & Hlh & Hbl & Hbh & Hout). fold low high in Hl0, Hh0, Hlh, Hbl, Hbh, Hout.
  assert (Hgb : forall i, 0 <= i < 8 -> g (8 * q + i) = Z.testbit c i).
  { intros i Hi. rewrite Hg by lia. unfold bit. replace ((8 * q + i) / 8) with q by zdiv.
    replace ((8 * q + i) mod 8) with i by zdiv. by rewrite Hbq. }
  assert (Hcc : forall i, 0 <= i < 8 -> Z.testbit cc i = Z.testbit c i || (i <? low) || (8 - high <=? i)).
  { intros i Hi. unfold cc. rewrite !Z.lor_spec, FillMask_bit, ZeroMask_bit by lia. by rewrite orb_assoc. }
  assert (Hin : forall i n, byte_run cc i n = true -> low < i /\ i + n <= 7 - high /\ maxrun (mkRun (8 * q + i) n)).
  { intros i n Hb. apply byte_run_spec in Hb as (H1 & H2 & H3 & H4 & H5 & H6).
    assert (Hi : low < i).
    { pose proof (H4 i ltac:(lia)) as Hi. rewrite Hcc in Hi by lia. destruct (Z.eq_dec i low) as [->|]; [by rewrite Hbl in Hi|].
      destruct (Z.testbit c i); [done|]. lia. }
    assert (He : i + n <= 7 - high).
    { destruct (Z.le_gt_cases (i + n) (7 - high)); [done|]. pose proof (H4 (i + n - 1) ltac:(lia)) as He. rewrite Hcc in He by lia.
      destruct (Z.eq_dec (i + n - 1) (7 - high)) as [E|]; [by rewrite E, Hbh in He|].
      destruct (Z.testbit c (i + n - 1)); [done|]. lia. }
    split; [done|]. split; [done|]. unfold maxrun. cbn [StartingIndex NumberOfBits].
    split; [lia|]. split; [lia|]. split; [lia|]. split; [|split; right].
    - intros j Hj. replace j with (8 * q + (j - 8 * q)) by lia. rewrite Hgb by lia.
      pose proof (H4 (j - 8 * q) ltac:(lia)) as Hx. rewrite Hcc in Hx by lia. by destruct (Z.testbit c (j - 8 * q)).
    - replace (8 * q + i - 1) with (8 * q + (i - 1)) by lia. rewrite Hgb by lia. destruct H5 as [|H5]; [lia|].
      rewrite Hcc in H5 by lia. destruct (Z.testbit c (i - 1)); [done|]. lia.
    - replace (8 * q + i + n) with (8 * q + (i + n)) by lia. rewrite Hgb by lia. destruct H6 as [|H6]; [lia|].
      rewrite Hcc in H6 by lia. destruct (Z.testbit c (i + n)); [done|]. lia. }
  pose proof (masks_ok low ltac:(lia)). pose proof (masks_ok (8 - high) ltac:(lia)).
  split; [apply lor_byte; [lia|apply lor_byte; lia]|]. split; [intros i n Hb; destruct (Hin i n Hb); lia|].
  intros x. split.
  - intros [[Hx Hs]|(i & n & Hb & ->)]; [split; [done|lia]|]. destruct (Hin i n Hb) as (? & ? & ?).
    pose proof (byte_run_range _ _ _ Hb). split; [done|]. cbn [StartingIndex]. lia.
  - intros [Hx Hs]. destruct (Z.lt_ge_cases (StartingIndex x) (8 * q + low)) as [|Hge]; [left; split; [done|lia]|right].
    exists (StartingIndex x - 8 * q), (NumberOfBits x). split; [|destruct x; cbn [StartingIndex NumberOfBits]; f_equal; lia].
    pose proof Hx as (H1 & H2 & H3 & H4 & H5 & H6).
    assert (Hclr : forall i, 0 <= i < 8 -> StartingIndex x <= 8 * q + i < StartingIndex x + NumberOfBits x -> Z.testbit c i = false).
    { intros i Hi Hr. rewrite <- Hgb by done. by apply H4. }
    assert (Hs1 : StartingIndex x - 8 * q <> 7 - high).
    { intros E. specialize (Hclr (7 - high) ltac:(lia) ltac:(lia)). congruence. }
    assert (Hs2 : StartingIndex x - 8 * q <> low).
    { intros E. specialize (Hclr low ltac:(lia) ltac:(lia)). congruence. }
    assert (He : StartingIndex x + NumberOfBits x <= 8 * q + (7 - high)).
    { destruct (Z.le_gt_cases (StartingIndex x + NumberOfBits x) (8 * q + (7 - high))); [done|].
      specialize (Hclr (7 - high) ltac:(lia) ltac:(lia)). congruence. }
    apply byte_run_spec. split; [lia|]. split; [lia|]. split; [lia|]. split; [|split; right].
    + intros j Hj. rewrite Hcc by lia. rewrite Hclr by lia. lia.
    + rewrite Hcc by lia. rewrite <- Hgb by lia. destruct H5 as [|H5]; [lia|].
      replace (8 * q + (StartingIndex x - 8 * q - 1)) with (StartingIndex x - 1) by lia. by rewrite H5.
    + rewrite Hcc by lia. rewrite <- Hgb by lia. destruct H6 as [|H6]; [lia|].
      replace (8 * q + (StartingIndex x - 8 * q + NumberOfBits x)) with (StartingIndex x + NumberOfBits x) by lia. by rewrite H6.
Qed.

Lemma walk_bytes_ok n L buf q cur idx k arr :
  total = 8 * (q + Z.of_nat n) -> total <= 2 ^ 32 - 8 -> 0 <= q -> q + Z.of_nat n <= zlen buf -> bytes_ok buf ->
  (forall j, 0 <= j -> g j = bit buf j) ->
  0 <= cur <= 8 * q -> (forall j, 8 * q - cur <= j < 8 * q -> g j = false) ->
  8 * q - cur = 0 \/ g (8 * q - cur - 1) = true -> idx = 8 * q - cur ->
  collected L k arr (seen_to (8 * q - cur)) -> goes_on L k arr false ->
  exists k' arr', walk_bytes n L buf q cur idx k arr = Some (k', arr') /\ length arr' = length arr /\
    (collected L k' arr' maxrun \/
     L = false /\ k' = Z.of_nat (length arr') /\
       exists seen', collected L k' arr' seen' /\ forall x, seen' x -> maxrun x).
Proof.
  revert q cur idx k arr. induction n as [|n IH]; intros q cur idx k arr Ht H32 Hq Hlen Hb Hg Hcur Hclr Hleft Hidx Hcol Hgo;
    cbn [walk_bytes].
  { destruct (close_open L k arr (8 * q - cur) (8 * q) idx) as (k' & arr' & stop & E & Hl & Hc' & Hg'); try done; try lia.
    replace (8 * q - (8 * q - cur)) with cur in E by lia. rewrite E. cbn [mbind option_bind].
    exists k', arr'. split; [done|]. split; [done|]. left. eapply collected_ext; [|exact Hc']. intros x. split; [by intros [? _]|].
    intros Hx. split; [done|]. destruct Hx as (? & ? & ? & _). lia. }
  rewrite get_byte_in by lia. cbn [mbind option_bind]. pose proof (byte_ok buf q Hb) as Hbyte. set (c := byte buf q) in *.
  assert (Hgb : forall i, 0 <= i < 8 -> g (8 * q + i) = Z.testbit c i).
  { intros i Hi. rewrite Hg by lia. unfold bit. replace ((8 * q + i) / 8) with q by zdiv.
    by replace ((8 * q + i) mod 8) with i by zdiv. }
  destruct (Z.eqb_spec c 0) as [Hz|Hz]; cbn [negb].
  { rewrite u32_small by lia.
    replace (8 * q - cur) with (8 * (q + 1) - (cur + 8)) in Hleft, Hidx, Hcol by lia.
    apply IH; try done; try lia. intros j Hj. destruct (Z.lt_ge_cases j (8 * q)); [apply Hclr; lia|].
    replace j with (8 * q + (j - 8 * q)) by lia. rewrite Hgb, Hz by lia. apply Z.bits_0. }
  destruct (byte_edges_ok c ltac:(lia)) as (Hl0 & Hh0 & Hlh & Hbl & Hbh & Hout).
  set (low := tbl RtlpBitsClearLow c) in *. set (high := tbl RtlpBitsClearHigh c) in *.
  destruct (close_open L k arr (8 * q - cur) (8 * q + low) idx) as (k1 & arr1 & stop1 & E1 & Hl1 & Hc1 & Hg1); try done; try lia.
  { intros j Hj. destruct (Z.lt_ge_cases j (8 * q)); [apply Hclr; lia|].
    replace j with (8 * q + (j - 8 * q)) by lia. rewrite Hgb by lia. apply Hout; lia. }
  { right. by rewrite Hgb by lia. }
  replace (8 * q + low - (8 * q - cur)) with (cur + low) in E1 by lia. rewrite (u32_small (cur + low)) by lia. rewrite E1.
  cbn [mbind option_bind]. destruct stop1.
  { exists k1, arr1. split; [done|]. split; [done|]. right. destruct Hg1 as [HL Hk1]. split; [done|]. split; [done|].
    exists (seen_to (8 * q + low)). split; [done|]. by intros x [? _]. }
  destruct (inner_maxruns buf q c Hg Hq ltac:(lia) eq_refl ltac:(lia)) as (Hcc & Hlow & Hw). fold low high in Hcc, Hlow, Hw.
  set (cc := Z.lor c (Z.lor (tbl FillMask low) (tbl ZeroMask (8 - high)))) in *.
  destruct (inner_runs_ok 9 L q cc k1 arr1 (seen_to (8 * q + low)) Hcc) as (k2 & arr2 & stop2 & E2 & Hl2 & Hg2 & Hgo2 & Hst2);
    try done; try lia.
  { apply Z.ltb_lt. apply (zrange_forallb 256 (fun c => tbl RtlpBitsClearTotal c <? Z.of_nat 9)); [vm_compute; reflexivity|lia]. }
  { intros i m Hbr. apply fresh_seen_to. cbn [StartingIndex]. specialize (Hlow i m Hbr). lia. }
  rewrite E2. cbn [mbind option_bind]. destruct stop2.
  { exists k2, arr2. split; [done|]. split; [lia|]. right. destruct Hg2 as [HL Hk2]. split; [done|]. split; [done|].
    destruct (Hst2 eq_refl) as (seen' & Hc2 & Hs2). exists seen'. split; [done|]. intros x Hx. apply Hs2, Hw in Hx. by destruct Hx. }
  rewrite (u32_small (q * 8)), u32_small by lia. replace (q * 8 + (8 - high)) with (8 * (q + 1) - high) by lia.
  destruct (IH (q + 1) high (8 * (q + 1) - high) k2 arr2) as (k' & arr' & E & Hl & Hres); try done; try lia.
  - intros j Hj. replace j with (8 * q + (j - 8 * q)) by lia. rewrite Hgb by lia. apply Hout; lia.
  - right. replace (8 * (q + 1) - high - 1) with (8 * q + (7 - high)) by lia. by rewrite Hgb by lia.
  - replace (8 * (q + 1) - high) with (8 * q + 8 - high) by lia. eapply collected_ext; [exact Hw|]. by apply Hgo2.
  - exists k', arr'. split; [done|]. split; [lia|]. done.
Qed.
End Walk.

(** A clear bit lies in a maximal run. *)
Lemma maxrun_exists g total j :
  0 <= j < total -> g j = false -> exists r, maxrun g total r /\ StartingIndex r <= j < StartingIndex r + NumberOfBits r.
Proof.
  intros Hj Hgj.
  assert (Hl : exists s, 0 <= s <= j /\ (forall i, s <= i <= j -> g i = false) /\ (s = 0 \/ g (s - 1) = true)).
  { clear - Hj Hgj. pose proof (proj1 Hj) as H0. revert Hgj Hj. pattern j. apply Z_lt_induction; [|exact H0].
    clear j H0. intros j IH Hgj Hj.
    destruct (Z.eq_dec j 0) as [->|]; [exists 0; split; [lia|]; split; [|by left]; intros i Hi; by replace i with 0 by lia|].
    destruct (g (j - 1)) eqn:E; [exists j; split; [lia|]; split; [|by right]; intros i Hi; by replace i with j by lia|].
    destruct (IH (j - 1) ltac:(lia) E ltac:(lia)) as (s & Hs & Hc & Hb). exists s. split; [lia|]. split; [|done].
    intros i Hi. destruct (Z.eq_dec i j) as [->|]; [done|apply Hc; lia]. }
  assert (Hr : exists e, j < e <= total /\ (forall i, j <= i < e -> g i = false) /\ (e = total \/ g e = true)).
  { destruct (zfind (fun i => negb (g i)) j total) as [H|(i & Hi & H)].
    - exists total. split; [lia|]. split; [|by left]. intros i Hi. apply negb_true_iff, H. lia.
    - clear Hl. assert (H0 : 0 <= i) by lia. revert Hi H. pattern i. apply Z_lt_induction; [|exact H0].
      clear i H0. intros i IH Hi H.
      destruct (zfind (fun i => negb (g i)) j i) as [Hall|(i' & Hi' & H')]; [|apply (IH i'); [lia|lia|done]].
      apply negb_false_iff in H. exists i. split; [|split; [intros m Hm; apply negb_true_iff, Hall; lia|by right]].
      destruct (Z.eq_dec i j) as [->|]; [congruence|lia]. }
  destruct Hl as (s & Hs & Hc & Hb), Hr as (e & He & Hc' & Hb'). exists (mkRun s (e - s)). unfold maxrun.
  cbn [StartingIndex NumberOfBits]. replace (s + (e - s)) with e by lia. split; [|lia].
  split; [lia|]. split; [lia|]. split; [lia|]. split; [|done]. intros i Hi.
  destruct (Z.le_gt_cases i j); [apply Hc; lia|apply Hc'; lia].
Qed.

(** ** The routines *)

(** The unused bits of the last byte are set. *)
Lemma set_unused bm :
  bitmap_ok bm ->
  let Size := SizeOfBitMap bm in let SizeInBytes := (Size + 7) / 8 in
  exists buf,
    (if negb (Size mod 8 =? 0) then
       b ← get_byte (Buffer bm) (SizeInBytes - 1);
       set_byte (Buffer bm) (SizeInBytes - 1) (Z.lor b (tbl ZeroMask (Size mod 8)))
     else Some (Buffer bm)) = Some buf /\
    assigns (Buffer bm) buf Size (8 * SizeInBytes - Size) true.
Proof.
  intros [Hsz Hb Hwd Hcov] Size SizeInBytes. subst Size SizeInBytes.
  destruct (Z.eqb_spec (SizeOfBitMap bm mod 8) 0) as [E|E]; cbn [negb].
  { exists (Buffer bm). split; [done|]. replace (8 * _ - _) with 0 by zdiv. by apply assigns_refl. }
  rewrite get_byte_in by zdiv. cbn [mbind option_bind].
  set (q := (SizeOfBitMap bm + 7) / 8 - 1). set (r := SizeOfBitMap bm mod 8) in *.
  assert (Hr : 0 <= r < 8) by (subst r; zdiv). assert (Hs : SizeOfBitMap bm = 8 * q + r) by (subst q r; zdiv).
  pose proof (masks_ok r ltac:(lia)) as [_ Hz]. pose proof (byte_ok (Buffer bm) q Hb).
  destruct (assigns_byte (Buffer bm) q (Z.lor (byte (Buffer bm) q) (tbl ZeroMask r)) r 8 true)
    as (buf & -> & Ha); [done|lia|lia|lia|by apply lor_byte| |].
  { intros i Hi. rewrite Z.lor_spec, ZeroMask_bit by lia. unfold between.
    destruct (Z.leb_spec r i); cbn [andb]; [|by rewrite orb_false_r]. replace (i <? r + (8 - r)) with true by lia. apply orb_true_r. }
  exists buf. split; [done|]. replace (8 * _ - _) with (8 - r) by (subst q; lia). by replace (SizeOfBitMap bm) with (8 * q + r) by lia.
Qed.

(** A maximal run of clear bits of a bit map. *)
Definition clear_run (bm : RTL_BITMAP) : RTL_BITMAP_RUN -> Prop := maxrun (bit (Buffer bm)) (SizeOfBitMap bm).

(** Setting the unused bits does not change the runs. *)
Lemma maxrun_unused g g' size total r :
  0 <= size <= total ->
  (forall j, 0 <= j < size -> g' j = g j) -> (forall j, size <= j < total -> g' j = true) ->
  maxrun g' total r <-> maxrun g size r.
Proof.
  intros Hst Hlow Hhigh. unfold maxrun. set (s := StartingIndex r). set (n := NumberOfBits r). split.
  - intros (H1 & H2 & H3 & H4 & H5 & H6).
    assert (Hsz : s + n <= size).
    { destruct (Z.le_gt_cases (s + n) size); [done|]. pose proof (H4 (s + n - 1) ltac:(lia)) as Hx.
      rewrite Hhigh in Hx by lia. done. }
    split; [done|]. split; [done|]. split; [done|]. split; [intros j Hj; rewrite <- Hlow by lia; by apply H4|]. split.
    + destruct (Z.eq_dec s 0); [by left|right]. destruct H5 as [|H5]; [lia|]. rewrite <- Hlow by lia. done.
    + destruct (Z.eq_dec (s + n) size); [by left|right]. destruct H6 as [|H6]; [lia|]. rewrite <- Hlow by lia. done.
  - intros (H1 & H2 & H3 & H4 & H5 & H6). split; [done|]. split; [done|]. split; [lia|].
    split; [intros j Hj; rewrite Hlow by lia; by apply H4|]. split.
    + destruct (Z.eq_dec s 0); [by left|right]. destruct H5 as [|H5]; [lia|]. rewrite Hlow by lia. done.
    + destruct (Z.eq_dec (s + n) total); [by left|right]. destruct (Z.eq_dec (s + n) size); [apply Hhigh; lia|].
      destruct H6 as [|H6]; [lia|]. rewrite Hlow by lia. done.
Qed.

Lemma RtlFindClearRuns_ok bm RunArray L :
  bitmap_ok bm -> 0 < Z.of_nat (length RunArray) < 2 ^ 32 ->
  exists k arr bm', RtlFindClearRuns bm RunArray L = Some (k, arr, bm') /\ length arr = length RunArray /\
    (collected L k arr (clear_run bm) \/
     L = false /\ k = Z.of_nat (length arr) /\
       exists seen, collected L k arr seen /\ forall r, seen r -> clear_run bm r) /\
    bitmap_ok bm' /\ SizeOfBitMap bm' = SizeOfBitMap bm /\
    forall j, 0 <= j -> j < SizeOfBitMap bm \/ (SizeOfBitMap bm + 7) / 8 * 8 <= j -> bit (Buffer bm') j = bit (Buffer bm) j.
Proof.
  intros Hok HN. unfold RtlFindClearRuns. pose proof (ok_size _ Hok) as Hsz. pose proof (ok_cover _ Hok) as Hcov.
  cbv zeta. rewrite u32_small by lia. destruct (set_unused bm Hok) as (buf & -> & Ha). cbn [mbind option_bind].
  pose proof Ha as (Hzl & Hbok & Hbit). set (total := 8 * ((SizeOfBitMap bm + 7) / 8)).
  assert (Htot : SizeOfBitMap bm <= total < SizeOfBitMap bm + 8) by (unfold total; zdiv).
  set (arr0 := map (fun e => mkRun (StartingIndex e) 0) RunArray).
  assert (Hlen0 : length arr0 = length RunArray) by apply length_map.
  destruct (walk_bytes_ok (bit buf) total (Z.to_nat ((SizeOfBitMap bm + 7) / 8)) L buf 0 0 0 0 arr0)
    as (k & arr & E & Hl & Hres); try done; try (unfold total; zdiv).
  - change (Z.to_nat 0) with 0%nat. constructor; rewrite ?take_0; try done; try lia.
    + constructor.
    + intros r Hr. by apply elem_of_nil in Hr.
    + intros _ r [(H1 & _) H2]. lia.
    + intros _. constructor.
    + intros _ r e _ _ He. by apply elem_of_nil in He.
  - destruct L; [by left|right; lia].
  - rewrite E. cbn [mbind option_bind]. exists k, arr, (with_Buffer bm buf). split; [done|]. split; [congruence|].
    assert (Hruns : forall r, maxrun (bit buf) total r <-> clear_run bm r).
    { intros r. apply maxrun_unused; [lia| |].
      - intros j Hj. rewrite Hbit by lia. unfold between. replace (SizeOfBitMap bm <=? j) with false by lia. done.
      - intros j Hj. rewrite Hbit by lia. unfold between. replace ((SizeOfBitMap bm <=? j) && _) with true by (unfold total in *; lia). done. }
    split; [|split; [by eapply assigns_ok|split; [done|]]].
    + destruct Hres as [Hc|(HL & Hk & seen & Hc & Hs)]; [left; by eapply collected_ext|right].
      split; [done|]. split; [done|]. exists seen. split; [done|]. intros r Hr. by apply Hruns, Hs.
    + intros j Hj Ho. cbn [Buffer with_Buffer]. rewrite Hbit by done. unfold between.
      replace ((SizeOfBitMap bm <=? j) && _) with false by (unfold total in *; lia). done.
Qed.

(** ** Properties *)

(** C18: RtlFindClearRuns stays inside the bit map and the array, ends, and stores
    distinct maximal runs of clear bits, all of them unless the array is full.  When
    the longest runs are asked for, the entries are sorted by decreasing length,
    equal lengths from the left, and every run left out comes after every entry in
    that order.  Bits below SizeOfBitMap keep their values. *)
Theorem RtlFindClearRuns_spec bm RunArray LocateLongestRuns :
  bitmap_ok bm -> 0 < Z.of_nat (length RunArray) < 2 ^ 32 ->
  exists k arr bm',
    RtlFindClearRuns bm RunArray LocateLongestRuns = Some (k, arr, bm') /\
    length arr = length RunArray /\ 0 <= k <= Z.of_nat (length arr) /\
    let runs := take (Z.to_nat k) arr in
    NoDup runs /\ (forall r, r ∈ runs -> clear_run bm r) /\
    (k < Z.of_nat (length arr) -> forall r, clear_run bm r -> r ∈ runs) /\
    (LocateLongestRuns = true ->
       StronglySorted before runs /\
       forall r e, clear_run bm r -> r ∉ runs -> e ∈ runs -> before e r) /\
    bitmap_ok bm' /\ forall j, 0 <= j < SizeOfBitMap bm -> bit (Buffer bm') j = bit (Buffer bm) j.
Proof.
  intros Hok HN. destruct (RtlFindClearRuns_ok bm RunArray LocateLongestRuns Hok HN) as (k & arr & bm' & E & Hl & Hc & Hok' & _ & Hb).
  exists k, arr, bm'. split; [done|]. split; [done|].
  destruct Hc as [[_ H2 H3 H4 H5 H6 H7]|(HL & Hk & seen & [_ H2 H3 H4 H5 H6 H7] & Hs)].
  - repeat (split; [done|]). split; [intros HL; split; [by apply H6|by apply H7]|]. split; [done|]. intros j Hj. apply Hb; lia.
  - split; [done|]. split; [done|]. split; [intros r Hr; by apply Hs, H4|]. split; [lia|]. split; [by rewrite HL|].
    split; [done|]. intros j Hj. apply Hb; lia.
Qed.

(** RtlFindLongestRunClear returns the first of the longest runs of clear
    bits, or length zero exactly when every bit is set. *)
Theorem RtlFindLongestRunClear_spec bm uninitialised :
  bitmap_ok bm ->
  exists n s bm', RtlFindLongestRunClear bm uninitialised = Some (n, s, bm') /\ bitmap_ok bm' /\
    ((n = 0 /\ forall j, 0 <= j < SizeOfBitMap bm -> bit (Buffer bm) j = true) \/
     (0 < n /\ clear_run bm (mkRun s n) /\
      forall r, clear_run bm r -> NumberOfBits r < n \/ (NumberOfBits r = n /\ s <= StartingIndex r))).
Proof.
  intros Hok. unfold RtlFindLongestRunClear.
  destruct (RtlFindClearRuns_ok bm [uninitialised] true Hok) as (k & arr & bm' & E & Hl & Hc & Hok' & _ & _); [cbn; lia|].
  rewrite E. cbn [mbind option_bind]. destruct Hc as [[_ H2 H3 H4 H5 H6 H7]|(HL & _)]; [|done].
  destruct arr as [|e [|e2 arr]]; try done. cbn [length] in H2, H5. destruct (Z.eqb_spec k 1) as [->|Hk].
  - cbn in H4, H5, H6, H7 |- *. exists (NumberOfBits e), (StartingIndex e), bm'. split; [done|]. split; [done|]. right.
    specialize (H4 e ltac:(by left)). split; [by destruct H4 as (_ & H & _)|]. split; [by destruct e|].
    intros r Hr. destruct (decide (r = e)) as [->|Hne]; [right; lia|].
    assert (Hb : before e r) by (apply H7; [done|done|by apply not_elem_of_cons; split; [|apply not_elem_of_nil]|by left]).
    destruct Hb as [|[? ?]]; [by left|right; lia].
  - assert (k = 0) as -> by lia. exists 0, 0, bm'. split; [done|]. split; [done|]. left. split; [done|]. intros j Hj.
    destruct (bit (Buffer bm) j) eqn:Eb; [done|]. destruct (maxrun_exists (bit (Buffer bm)) (SizeOfBitMap bm) j Hj Eb) as (r & Hr & _).
    specialize (H5 ltac:(lia) r Hr). cbn in H5. by apply elem_of_nil in H5.
Qed.

(** When just some runs are asked for, they need not be the first ones: inside a
    byte the longest comes first. *)
Theorem first_runs_order :
  let bm := mkBM 8 [0xe5; 0; 0; 0] in
  clear_run bm (mkRun 1 1) /\
  RtlFindClearRuns bm [mkRun 0 0] false = Some (1, [mkRun 3 2], bm).
Proof.
  split; [|vm_compute; reflexivity]. unfold clear_run, maxrun. cbn [StartingIndex NumberOfBits SizeOfBitMap].
  split; [lia|]. split; [lia|]. split; [lia|]. split; [|split; right; reflexivity].
  intros j Hj. assert (j = 1) as -> by lia. reflexivity.
Qed.

(** ** Witnesses *)

Lemma RtlFindClearRuns_spec_witness :
  exists bm', RtlFindClearRuns sample [mkRun 0 0; mkRun 0 0] true = Some (2, [mkRun 4 27; mkRun 33 7], bm') /\
    StronglySorted before [mkRun 4 27; mkRun 33 7] /\ forall r, r ∈ [mkRun 4 27; mkRun 33 7] -> clear_run sample r.
Proof.
  destruct (RtlFindClearRuns_spec sample [mkRun 0 0; mkRun 0 0] true sample_ok)
    as (k & arr & bm' & E & _ & _ & _ & H1 & _ & H2 & _); [cbn; lia|].
  exists bm'. destruct (H2 eq_refl) as [H3 _]. clear H2. pose proof E as E'. vm_compute in E'. injection E' as <- <- _.
  split; [exact E|]. split; [exact H3|exact H1].
Defined.

Lemma RtlFindLongestRunClear_spec_witness :
  exists bm', RtlFindLongestRunClear sample (mkRun 0 0) = Some (27, 4, bm') /\ bitmap_ok bm'.
Proof.
  destruct (RtlFindLongestRunClear_spec sample (mkRun 0 0) sample_ok) as (n & s & bm' & E & H & _).
  exists bm'. pose proof E as E'. vm_compute in E'. injection E' as <- <- _. split; [exact E|exact H].
Defined.

End BitmapRuns.
