(* ===== verification/RtlHeap.v ===== *)
(** * Linked structures in memory

    The trees and lists of the run-time library are records that point to each
    other.  This file models the memory they live in and the few rules by which
    the routines on them are verified:

    - [heap V] maps addresses to records of type [V]; NULL is 0, and reading or
      writing through NULL or through an address without a record is a fault;
    - [M V A] is the type of a routine that works on such a memory: it gives
      [None] for a fault, or the result and the new memory;
    - [owns ls h] says that the memory holds exactly these records at pairwise
      different addresses, and [triple pre m r post] that [m], started in a
      memory with the records [pre], ends with the result [r], the records
      [post] at the same addresses, and everything else unchanged.

    The triple has the frame and the composition rule of separation logic, with
    lists of records in the place of assertions and permutation of lists in the
    place of commutativity. *)

From S2P Require Import Prelude.
From stdpp Require Import gmap list_tactics.
#[local] Open Scope Z_scope.
#[export] Set Warnings "-clear-no-such-hyp".

Definition NULL : Z := 0.

(** The position of an element in a list without duplicates is unique. *)
Lemma NoDup_split {A} (u v u' v' : list A) x :
  NoDup (u ++ x :: v) -> u ++ x :: v = u' ++ x :: v' -> u = u' /\ v = v'.
Proof.
  revert u'; induction u as [|y u IH]; intros [|y' u'] Hnd He; simplify_eq/=; [done|..].
  - apply NoDup_cons in Hnd as [Hx _]. exfalso. apply Hx, elem_of_app. right. left.
  - apply NoDup_cons in Hnd as [Hx _]. exfalso. apply Hx, elem_of_app. right. left.
  - apply NoDup_cons in Hnd as [_ Hnd]. by destruct (IH u' Hnd ltac:(done)) as [-> ->].
Qed.

(** ** Routines on a memory *)

Abbreviation heap V := (gmap Z V).
Definition M (V A : Type) : Type := heap V -> option (A * heap V).

#[global] Instance M_ret {V} : MRet (M V) := fun A x h => Some (x, h).
#[global] Instance M_bind {V} : MBind (M V) :=
  fun A B k m h => match m h with Some (x, h') => k x h' | None => None end.

(** [X->Field] and [X->Field = ...] *)
Definition load {V} (a : Z) : M V V :=
  fun h => if a =? NULL then None else match h !! a with Some v => Some (v, h) | None => None end.
Definition modify {V} (a : Z) (f : V -> V) : M V unit :=
  fun h => if a =? NULL then None
           else match h !! a with Some v => Some (tt, <[a := f v]> h) | None => None end.
(** A fault, or a loop out of fuel. *)
Definition fault {V A} : M V A := fun _ => None.

(** ** Records owned by a structure *)

Record owns {V} (ls : list (Z * V)) (h : heap V) : Prop := mkOwns {
  owns_nodup : NoDup ls.*1;
  owns_null : NULL ∉ ls.*1;
  owns_lookup : forall a v, (a, v) ∈ ls -> h !! a = Some v }.

#[global] Instance owns_proper {V} : Proper (Permutation ==> eq ==> iff) (@owns V).
Proof.
  assert (H : forall (ls ls' : list (Z * V)) h, ls ≡ₚ ls' -> owns ls h -> owns ls' h).
  { intros ls ls' h Hp [H1 H2 H3]. split.
    - by rewrite <- Hp.
    - by rewrite <- Hp.
    - intros a v Hin. apply H3. by rewrite Hp. }
  intros ls ls' Hp h ? <-. split; apply H; [done|by symmetry].
Qed.

Lemma owns_app_l {V} (ls F : list (Z * V)) h : owns (ls ++ F) h -> owns ls h.
Proof.
  intros [H1 H2 H3]. rewrite fmap_app in *. apply NoDup_app in H1 as (H1 & _ & _).
  split; [done| |].
  - intros Hn. apply H2, elem_of_app. by left.
  - intros a v Hin. apply H3, elem_of_app. by left.
Qed.

Lemma owns_fun {V} (ls : list (Z * V)) h a v w :
  owns ls h -> (a, v) ∈ ls -> (a, w) ∈ ls -> v = w.
Proof.
  intros Ho Hv Hw. apply (owns_lookup _ _ Ho) in Hv. apply (owns_lookup _ _ Ho) in Hw. congruence.
Qed.

(** ** Triples *)

Definition triple {V A} (pre : list (Z * V)) (m : M V A) (r : A) (post : list (Z * V)) : Prop :=
  forall h, owns pre h -> exists h', m h = Some (r, h') /\ owns post h' /\
    pre.*1 ≡ₚ post.*1 /\ forall a, a ∉ pre.*1 -> h' !! a = h !! a.

Section Rules.
Context {V : Type}.
Implicit Types pre post mid F : list (Z * V).

Lemma triple_frame {A} pre (m : M V A) r post F :
  triple pre m r post -> triple (pre ++ F) m r (post ++ F).
Proof.
  intros Ht h Ho. destruct (Ht h (owns_app_l _ _ _ Ho)) as (h' & Hm & Ho' & Hk & Hf).
  exists h'. split; [done|]. destruct Ho as [H1 H2 H3], Ho' as [G1 G2 G3]. rewrite fmap_app in *.
  apply NoDup_app in H1 as (H1a & H1b & H1c).
  split; [split|split].
  - rewrite fmap_app, <- Hk. by apply NoDup_app.
  - rewrite fmap_app, <- Hk. done.
  - intros a v [Hin|Hin]%elem_of_app; [by apply G3|].
    rewrite Hf; [apply H3, elem_of_app; by right|].
    intros Ha. apply (H1b a Ha). apply list_elem_of_fmap. by exists (a, v).
  - by rewrite fmap_app, Hk.
  - intros a Ha. apply Hf. intros Hin. apply Ha, elem_of_app. by left.
Qed.

Lemma triple_perm {A} pre pre' (m : M V A) r post post' :
  pre ≡ₚ pre' -> post' ≡ₚ post -> triple pre' m r post' -> triple pre m r post.
Proof.
  intros Hp Hq Ht h Ho. rewrite Hp in Ho. destruct (Ht h Ho) as (h' & Hm & Ho' & Hk & Hf).
  exists h'. split; [done|]. split; [by rewrite <- Hq|]. split; [by rewrite Hp, Hk, Hq|].
  intros a Ha. apply Hf. by rewrite <- Hp.
Qed.

Lemma triple_ret {A} pre (r : A) : triple pre (mret r) r pre.
Proof. intros h Ho. by exists h. Qed.

Lemma triple_bind {A B} pre (m : M V A) r mid (k : A -> M V B) s post :
  triple pre m r mid -> triple mid (k r) s post -> triple pre (m ≫= k) s post.
Proof.
  intros H1 H2 h Ho. destruct (H1 h Ho) as (h1 & Hm & Ho1 & Hk1 & Hf1).
  destruct (H2 h1 Ho1) as (h2 & Hm2 & Ho2 & Hk2 & Hf2). exists h2.
  split; [unfold mbind, M_bind; by rewrite Hm|]. split; [done|]. split; [by rewrite Hk1|].
  intros a Ha. rewrite Hf2 by (by rewrite <- Hk1). by apply Hf1.
Qed.

(** One step of a routine on a part [P] of the records, the rest [R] kept. *)
Lemma triple_step {A B} pre P R (m : M V A) r Q (k : A -> M V B) s post :
  pre ≡ₚ P ++ R -> triple P m r Q -> triple (Q ++ R) (k r) s post -> triple pre (m ≫= k) s post.
Proof.
  intros Hp H1 H2. eapply triple_bind; [|exact H2].
  eapply triple_perm; [exact Hp|reflexivity|]. by apply triple_frame.
Qed.

(** What a memory with these records says about them may be used. *)
Lemma triple_pure {A} pre (m : M V A) r post :
  (NoDup pre.*1 -> NULL ∉ pre.*1 -> triple pre m r post) -> triple pre m r post.
Proof. intros Ht h Ho. apply Ht; [apply Ho|apply Ho|done]. Qed.

Lemma triple_load {B} pre a v (k : V -> M V B) s post :
  (a, v) ∈ pre -> triple pre (k v) s post -> triple pre (load a ≫= k) s post.
Proof.
  intros Hin Ht. eapply triple_bind; [|exact Ht]. intros h Ho. exists h. unfold load.
  destruct (Z.eqb_spec a NULL) as [->|].
  - exfalso. apply (owns_null _ _ Ho), list_elem_of_fmap. by exists (NULL, v).
  - by rewrite (owns_lookup _ _ Ho a v Hin).
Qed.

Lemma triple_modify a v (f : V -> V) : triple [(a, v)] (modify a f) tt [(a, f v)].
Proof.
  intros h Ho. unfold modify. pose proof (owns_null _ _ Ho) as Hn. cbn in Hn.
  rewrite list_elem_of_singleton in Hn. destruct (Z.eqb_spec a NULL) as [->|_]; [done|].
  rewrite (owns_lookup _ _ Ho a v) by (by apply list_elem_of_singleton).
  eexists. split; [done|]. split; [split|split; [done|]].
  - apply NoDup_singleton.
  - cbn. by rewrite list_elem_of_singleton.
  - intros b w Hb%list_elem_of_singleton. simplify_eq. apply lookup_insert_eq.
  - cbn. intros b Hb. rewrite list_elem_of_singleton in Hb. by apply lookup_insert_ne.
Qed.

Lemma triple_write {B} pre R a v (f : V -> V) (k : unit -> M V B) s post :
  pre ≡ₚ (a, v) :: R -> triple ((a, f v) :: R) (k tt) s post ->
  triple pre (modify a f ≫= k) s post.
Proof.
  intros Hp Ht. apply (triple_step pre [(a, v)] R _ tt [(a, f v)]); [done| |done].
  apply triple_modify.
Qed.

(** The same, for a record at a known position: the order is kept. *)
Lemma triple_write0 {B} R a v (f : V -> V) (k : unit -> M V B) s post :
  triple ((a, f v) :: R) (k tt) s post -> triple ((a, v) :: R) (modify a f ≫= k) s post.
Proof. by apply triple_write. Qed.

Lemma triple_write1 {B} c R a v (f : V -> V) (k : unit -> M V B) s post :
  triple (c :: (a, f v) :: R) (k tt) s post -> triple (c :: (a, v) :: R) (modify a f ≫= k) s post.
Proof.
  intros H. apply (triple_write _ (c :: R) a v); [solve_Permutation|].
  eapply triple_perm; [|reflexivity|exact H]. solve_Permutation.
Qed.

Lemma triple_write2 {B} c d R a v (f : V -> V) (k : unit -> M V B) s post :
  triple (c :: d :: (a, f v) :: R) (k tt) s post ->
  triple (c :: d :: (a, v) :: R) (modify a f ≫= k) s post.
Proof.
  intros H. apply (triple_write _ (c :: d :: R) a v); [solve_Permutation|].
  eapply triple_perm; [|reflexivity|exact H]. solve_Permutation.
Qed.

Lemma triple_write3 {B} c d e R a v (f : V -> V) (k : unit -> M V B) s post :
  triple (c :: d :: e :: (a, f v) :: R) (k tt) s post ->
  triple (c :: d :: e :: (a, v) :: R) (modify a f ≫= k) s post.
Proof.
  intros H. apply (triple_write _ (c :: d :: e :: R) a v); [solve_Permutation|].
  eapply triple_perm; [|reflexivity|exact H]. solve_Permutation.
Qed.

(** A routine in tail position. *)
Lemma triple_tail {A} pre (m : M V A) r post : triple pre (m ≫= mret) r post -> triple pre m r post.
Proof.
  intros Ht h Ho. destruct (Ht h Ho) as (h' & Hm & Hr). exists h'. split; [|done].
  revert Hm. unfold mbind, M_bind. destruct (m h) as [[x h1]|]; [|done]. cbn. done.
Qed.

Lemma triple_assoc {A B C} pre (m : M V A) (k : A -> M V B) (k' : B -> M V C) r post :
  triple pre (m ≫= fun x => k x ≫= k') r post -> triple pre ((m ≫= k) ≫= k') r post.
Proof.
  intros Ht h Ho. destruct (Ht h Ho) as (h' & Hm & Hr). exists h'. split; [|done].
  revert Hm. unfold mbind, M_bind. by destruct (m h) as [[x h1]|].
Qed.

(** There are no more records than the memory has. *)
Lemma owns_length (ls : list (Z * V)) h : owns ls h -> (length ls <= size h)%nat.
Proof.
  intros [H1 _ H3]. rewrite <- (length_fmap fst ls).
  assert (Hs : list_to_set (C := gset Z) ls.*1 ⊆ dom h).
  { intros a Ha. apply elem_of_list_to_set, list_elem_of_fmap in Ha as ((b & v) & -> & Hin).
    apply elem_of_dom. exists v. by apply H3. }
  apply subseteq_size in Hs. by rewrite size_list_to_set, size_dom in Hs.
Qed.

(** A routine on a part of the records, in tail position. *)
Lemma triple_part {A} pre P R (m : M V A) s :
  pre ≡ₚ P ++ R -> triple P m s P -> triple pre m s pre.
Proof. intros Hp Ht. eapply triple_perm; [exact Hp|symmetry; exact Hp|by apply triple_frame]. Qed.

(** A routine that leaves all its records as they are leaves the memory as it is. *)
Lemma triple_read {A} pre (m : M V A) s h :
  triple pre m s pre -> owns pre h -> m h = Some (s, h).
Proof.
  intros Ht Ho. destruct (Ht h Ho) as (h' & -> & Ho' & _ & Hf). do 2 f_equal. apply map_eq. intros a.
  destruct (decide (a ∈ pre.*1)) as [Ha|Ha]; [|by apply Hf].
  apply list_elem_of_fmap in Ha as ((b & v) & -> & Hv).
  cbn [fst]. by rewrite (owns_lookup _ _ Ho' b v Hv), (owns_lookup _ _ Ho b v Hv).
Qed.

(** A memory with these records and no others. *)
Lemma owns_list (ls : list (Z * V)) : NoDup ls.*1 -> NULL ∉ ls.*1 -> owns ls (list_to_map ls).
Proof. intros H1 H2. split; [done..|]. intros a v Hin. by apply elem_of_list_to_map_1. Qed.
End Rules.

(** ** Executing a routine

    The records a routine works on are kept at the head of the list. [m_elem]
    finds a record among them, [m_load] runs a read, [m_write] a write. *)

Ltac m_elem :=
  lazymatch goal with
  | |- _ ∈ _ :: _ => first [apply list_elem_of_here | apply list_elem_of_further; m_elem]
  | |- _ ∈ _ ++ _ => apply elem_of_app; first [left; m_elem | right; m_elem]
  end.
Ltac m_assoc := lazymatch goal with |- triple _ ((_ ≫= _) ≫= _) _ _ => apply triple_assoc end.
(** What distinctness of the addresses says about two of them. *)
Ltac m_distinct :=
  match goal with
  | H : NoDup _, H' : NULL ∉ _ |- _ =>
      revert H H'; repeat (progress csimpl || rewrite fmap_app); rewrite ?NoDup_cons, ?NoDup_app;
      repeat first [rewrite elem_of_cons | rewrite elem_of_app]; naive_solver
  end.
Ltac m_load := eapply triple_load; [m_elem|]; cbv beta.
Ltac m_write :=
  first [apply triple_write0 | apply triple_write1 | apply triple_write2 | apply triple_write3];
  cbv beta.
