(* ===== verification/RtlSplay.v ===== *)
(** * Splay trees (rtl/splay.c)

    The links of a tree are records in memory ([RTL_SPLAY_LINKS]); a node is its
    address, the root is its own parent, a missing child is NULL.  Module [Splay]
    translates every routine of src/ntoskrnl/rtl/splay.c and the macros of
    sdk/inc/ntrtl.h they use, write by write.  The loops run on fuel, one unit
    per record of the memory and one more: each turn moves to another node.

    The specification is by [tree]: [tree_in h t] says that the memory holds the
    links of [t], with parent pointers that fit, and [inorder t] is the order of
    its nodes.  The theorems show that the routines never fault and end, that
    splaying moves the node to the root without changing the order, that
    deletion removes exactly the node, that successor and predecessor are the
    neighbours in the order, and that no record outside the tree changes. *)

From S2P Require Import Prelude RtlHeap.
From stdpp Require Import gmap list_tactics.
#[local] Open Scope Z_scope.

Module Splay.

Record RTL_SPLAY_LINKS := mkLinks { Parent : Z; LeftChild : Z; RightChild : Z }.
Abbreviation LM := (M RTL_SPLAY_LINKS).

(** ** The macros of ntrtl.h *)

Definition set_Parent (X v : Z) : LM unit :=
  modify X (fun l => mkLinks v (LeftChild l) (RightChild l)).
Definition set_LeftChild (X v : Z) : LM unit :=
  modify X (fun l => mkLinks (Parent l) v (RightChild l)).
Definition set_RightChild (X v : Z) : LM unit :=
  modify X (fun l => mkLinks (Parent l) (LeftChild l) v).

Definition RtlParent (Links : Z) : LM Z := l ← load Links; mret (Parent l).
Definition RtlLeftChild (Links : Z) : LM Z := l ← load Links; mret (LeftChild l).
Definition RtlRightChild (Links : Z) : LM Z := l ← load Links; mret (RightChild l).
Definition RtlIsRoot (Links : Z) : LM bool := p ← RtlParent Links; mret (p =? Links).
Definition RtlIsLeftChild (Links : Z) : LM bool :=
  p ← RtlParent Links; c ← RtlLeftChild p; mret (c =? Links).
Definition RtlIsRightChild (Links : Z) : LM bool :=
  p ← RtlParent Links; c ← RtlRightChild p; mret (c =? Links).

Definition RtlInitializeSplayLinks (Links : Z) : LM unit :=
  set_Parent Links Links;; set_LeftChild Links NULL;; set_RightChild Links NULL.
Definition RtlInsertAsLeftChild (ParentLinks ChildLinks : Z) : LM unit :=
  set_LeftChild ParentLinks ChildLinks;; set_Parent ChildLinks ParentLinks.
Definition RtlInsertAsRightChild (ParentLinks ChildLinks : Z) : LM unit :=
  set_RightChild ParentLinks ChildLinks;; set_Parent ChildLinks ParentLinks.

(** The address of a child pointer, [&X->LeftChild] or [&X->RightChild]. *)
Inductive child_ptr := LeftOf (X : Z) | RightOf (X : Z).

Definition read_child (p : child_ptr) : LM Z :=
  match p with LeftOf X => RtlLeftChild X | RightOf X => RtlRightChild X end.
Definition write_child (p : child_ptr) (v : Z) : LM unit :=
  match p with LeftOf X => set_LeftChild X v | RightOf X => set_RightChild X v end.

Definition ParentsChildPointerAddress (Links : Z) : LM child_ptr :=
  b ← RtlIsLeftChild Links; p ← RtlParent Links;
  mret (if b : bool then LeftOf p else RightOf p).

(** ** RtlSplay *)

(** [if (X->LeftChild != NULL) {X->LeftChild->Parent = X;}] *)
Definition fix_left (X : Z) : LM unit :=
  c ← RtlLeftChild X; if c =? NULL then mret tt else set_Parent c X.
Definition fix_right (X : Z) : LM unit :=
  c ← RtlRightChild X; if c =? NULL then mret tt else set_Parent c X.

(** Connect L & Great GrandParent. *)
Definition connect_great (L G : Z) : LM unit :=
  r ← RtlIsRoot G;
  if r : bool then set_Parent L L
  else p ← RtlParent G; set_Parent L p;;
       a ← ParentsChildPointerAddress G; write_child a L.

(** One turn of the loop, for L a left child and for L a right child. *)
Definition splay_left (L P G : Z) : LM unit :=
  rP ← RtlIsRoot P;
  if rP : bool then
    c ← RtlRightChild L; set_LeftChild P c;; fix_left P;;
    set_RightChild L P;; set_Parent P L;;
    set_Parent L L
  else
    lP ← RtlIsLeftChild P;
    if lP : bool then
      c ← RtlRightChild L; set_LeftChild P c;; fix_left P;;
      c ← RtlRightChild P; set_LeftChild G c;; fix_left G;;
      connect_great L G;;
      set_RightChild L P;; set_Parent P L;;
      set_RightChild P G;; set_Parent G P
    else
      c ← RtlLeftChild L; set_RightChild G c;; fix_right G;;
      c ← RtlRightChild L; set_LeftChild P c;; fix_left P;;
      connect_great L G;;
      set_LeftChild L G;; set_Parent G L;;
      set_RightChild L P;; set_Parent P L.

Definition splay_right (L P G : Z) : LM unit :=
  rP ← RtlIsRoot P;
  if rP : bool then
    c ← RtlLeftChild L; set_RightChild P c;; fix_right P;;
    set_LeftChild L P;; set_Parent P L;;
    set_Parent L L
  else
    rc ← RtlIsRightChild P;
    if rc : bool then
      c ← RtlLeftChild P; set_RightChild G c;; fix_right G;;
      c ← RtlLeftChild L; set_RightChild P c;; fix_right P;;
      connect_great L G;;
      set_LeftChild L P;; set_Parent P L;;
      set_LeftChild P G;; set_Parent G P
    else
      c ← RtlLeftChild L; set_RightChild P c;; fix_right P;;
      c ← RtlRightChild L; set_LeftChild G c;; fix_left G;;
      connect_great L G;;
      set_LeftChild L P;; set_Parent P L;;
      set_RightChild L G;; set_Parent G L.

Fixpoint splay_loop (fuel : nat) (L : Z) : LM Z :=
  match fuel with
  | O => fault
  | S fuel =>
      r ← RtlIsRoot L;
      if r : bool then mret L
      else
        P ← RtlParent L; G ← RtlParent P;
        b ← RtlIsLeftChild L;
        (if b : bool then splay_left L P G else splay_right L P G);;
        splay_loop fuel L
  end.

(** The loops below visit each node at most once. *)
Definition with_fuel {A} (f : nat -> LM A) : LM A := fun h => f (S (size h)) h.

Definition RtlSplay (Links : Z) : LM Z := with_fuel (fun fuel => splay_loop fuel Links).

(** ** Successors and predecessors *)

Fixpoint leftmost (fuel : nat) (Ptr : Z) : LM Z :=
  match fuel with
  | O => fault
  | S fuel => c ← RtlLeftChild Ptr; if c =? NULL then mret Ptr else leftmost fuel c
  end.
Fixpoint rightmost (fuel : nat) (Ptr : Z) : LM Z :=
  match fuel with
  | O => fault
  | S fuel => c ← RtlRightChild Ptr; if c =? NULL then mret Ptr else rightmost fuel c
  end.

Definition RtlSubtreeSuccessor (Links : Z) : LM Z := with_fuel (fun fuel =>
  Ptr ← RtlRightChild Links; if Ptr =? NULL then mret NULL else leftmost fuel Ptr).
Definition RtlSubtreePredecessor (Links : Z) : LM Z := with_fuel (fun fuel =>
  Ptr ← RtlLeftChild Links; if Ptr =? NULL then mret NULL else rightmost fuel Ptr).

(** [while (RtlIsRightChild(Ptr)) Ptr = RtlParent(Ptr);] and its mirror image *)
Fixpoint climb_right (fuel : nat) (Ptr : Z) : LM Z :=
  match fuel with
  | O => fault
  | S fuel => b ← RtlIsRightChild Ptr;
      if b : bool then p ← RtlParent Ptr; climb_right fuel p else mret Ptr
  end.
Fixpoint climb_left (fuel : nat) (Ptr : Z) : LM Z :=
  match fuel with
  | O => fault
  | S fuel => b ← RtlIsLeftChild Ptr;
      if b : bool then p ← RtlParent Ptr; climb_left fuel p else mret Ptr
  end.

Definition RtlRealSuccessor (Links : Z) : LM Z := with_fuel (fun fuel =>
  Ptr ← RtlRightChild Links;
  if negb (Ptr =? NULL) then leftmost fuel Ptr
  else
    Ptr ← climb_right fuel Links;
    b ← RtlIsLeftChild Ptr;
    if b : bool then RtlParent Ptr else mret NULL).

Definition RtlRealPredecessor (Links : Z) : LM Z := with_fuel (fun fuel =>
  Ptr ← RtlLeftChild Links;
  if negb (Ptr =? NULL) then rightmost fuel Ptr
  else
    Ptr ← climb_left fuel Links;
    b ← RtlIsRightChild Ptr;
    if b : bool then RtlParent Ptr else mret NULL).

(** ** Deletion *)

(** SwapPointers on two fields of the same name. *)
Definition swap_Parent (X Y : Z) : LM unit :=
  x ← RtlParent X; y ← RtlParent Y; set_Parent X y;; set_Parent Y x.
Definition swap_LeftChild (X Y : Z) : LM unit :=
  x ← RtlLeftChild X; y ← RtlLeftChild Y; set_LeftChild X y;; set_LeftChild Y x.
Definition swap_RightChild (X Y : Z) : LM unit :=
  x ← RtlRightChild X; y ← RtlRightChild Y; set_RightChild X y;; set_RightChild Y x.

(** The initial steps of the cases 1 and 2, Link1 is not a child of Link2. *)
Definition swap_parents_apart (Link1 Link2 : Z) : LM unit :=
  r2 ← RtlIsRoot Link2;
  if negb r2 then
    Parent1ChildPtr ← ParentsChildPointerAddress Link1;
    Parent2ChildPtr ← ParentsChildPointerAddress Link2;
    v1 ← read_child Parent1ChildPtr; v2 ← read_child Parent2ChildPtr;
    write_child Parent1ChildPtr v2;; write_child Parent2ChildPtr v1;;
    swap_Parent Link1 Link2
  else
    Parent1ChildPtr ← ParentsChildPointerAddress Link1;
    write_child Parent1ChildPtr Link2;;
    p ← RtlParent Link1; set_Parent Link2 p;;
    set_Parent Link1 Link1.

(** The initial steps of the cases 3 and 4, Link1 is a child of Link2. *)
Definition swap_parents_child (Link1 Link2 : Z) : LM unit :=
  r2 ← RtlIsRoot Link2;
  if negb r2 then
    Parent2ChildPtr ← ParentsChildPointerAddress Link2;
    write_child Parent2ChildPtr Link1;;
    p ← RtlParent Link2; set_Parent Link1 p
  else
    set_Parent Link1 Link1.

(** SwapSplayLinks after the exchange of Link1 and Link2 at its start. *)
Definition swap_links (Link1 Link2 : Z) : LM unit :=
  p1 ← RtlParent Link1;
  (if negb (p1 =? Link2) then
    swap_parents_apart Link1 Link2;;
    swap_LeftChild Link1 Link2;;
    swap_RightChild Link1 Link2
  else
    swap_parents_child Link1 Link2;;
    swap_LeftChild Link1 Link2;;
    swap_RightChild Link1 Link2;;
    c ← RtlLeftChild Link1;
    if c =? Link1 then set_LeftChild Link1 Link2 else set_RightChild Link1 Link2);;
  fix_left Link1;; fix_right Link1;;
  fix_left Link2;; fix_right Link2.

Definition SwapSplayLinks (Link1 Link2 : Z) : LM unit :=
  r1 ← RtlIsRoot Link1;
  swap ← (if r1 : bool then mret true else p2 ← RtlParent Link2; mret (p2 =? Link1));
  if swap : bool then swap_links Link2 Link1 else swap_links Link1 Link2.

Definition two_children (Links : Z) : LM bool :=
  l ← RtlLeftChild Links; r ← RtlRightChild Links; mret (negb (l =? NULL) && negb (r =? NULL)).
Definition no_children (Links : Z) : LM bool :=
  l ← RtlLeftChild Links; r ← RtlRightChild Links; mret ((l =? NULL) && (r =? NULL)).
(** The child of a node with one. *)
Definition only_child (Links : Z) : LM Z :=
  l ← RtlLeftChild Links; if negb (l =? NULL) then mret l else RtlRightChild Links.

Definition RtlDelete (Links : Z) : LM Z :=
  two ← two_children Links;
  (if two : bool then Predecessor ← RtlSubtreePredecessor Links; SwapSplayLinks Predecessor Links
   else mret tt);;
  none ← no_children Links;
  if none : bool then
    r ← RtlIsRoot Links;
    if r : bool then mret NULL
    else
      Parent ← RtlParent Links;
      ParentChildPtr ← ParentsChildPointerAddress Links;
      write_child ParentChildPtr NULL;;
      RtlSplay Parent
  else
    Child ← only_child Links;
    r ← RtlIsRoot Links;
    if r : bool then set_Parent Child Child;; mret Child
    else
      ParentChildPtr ← ParentsChildPointerAddress Links;
      write_child ParentChildPtr Child;;
      p ← RtlParent Links; set_Parent Child p;;
      p ← RtlParent Child; RtlSplay p.

(** The root pointer of the caller is passed in and the new one returned. *)
Definition RtlDeleteNoSplay (Links Root : Z) : LM Z :=
  two ← two_children Links;
  Root ← (if two : bool then
            Predecessor ← RtlSubtreePredecessor Links;
            r ← RtlIsRoot Links;
            SwapSplayLinks Predecessor Links;;
            mret (if r : bool then Predecessor else Root)
          else mret Root);
  none ← no_children Links;
  if none : bool then
    r ← RtlIsRoot Links;
    if r : bool then mret NULL
    else
      ParentChildPtr ← ParentsChildPointerAddress Links;
      write_child ParentChildPtr NULL;;
      mret Root
  else
    Child ← only_child Links;
    r ← RtlIsRoot Links;
    if r : bool then set_Parent Child Child;; mret Child
    else
      ParentChildPtr ← ParentsChildPointerAddress Links;
      write_child ParentChildPtr Child;;
      p ← RtlParent Links; set_Parent Child p;;
      mret Root.

(** ** Trees

    [links_of p t] are the records of [t] when the parent of its root is [p].
    A position in a tree is a subtree and the path from it to the root, a list of
    [frame]s: the node above with its other subtree.  [slinks x k p] are the
    records along the path [k], where [x] is the node below it and [p] the parent
    of the node it ends in. *)

Inductive tree := Leaf | Node (l : tree) (a : Z) (r : tree).

Definition root (t : tree) : Z := match t with Leaf => NULL | Node _ a _ => a end.
Fixpoint inorder (t : tree) : list Z :=
  match t with Leaf => [] | Node l a r => inorder l ++ a :: inorder r end.

Fixpoint links_of (p : Z) (t : tree) : list (Z * RTL_SPLAY_LINKS) :=
  match t with
  | Leaf => []
  | Node l a r => (a, mkLinks p (root l) (root r)) :: links_of a l ++ links_of a r
  end.

(** The memory holds the tree, the root being its own parent. *)
Definition tree_in (h : heap RTL_SPLAY_LINKS) (t : tree) : Prop := owns (links_of (root t) t) h.

Inductive frame := CL (a : Z) (r : tree) | CR (l : tree) (a : Z).
Definition node_of (f : frame) : Z := match f with CL a _ => a | CR _ a => a end.

Definition seg_parent (k : list frame) (p : Z) : Z :=
  match k with [] => p | f :: _ => node_of f end.
Fixpoint top (x : Z) (k : list frame) : Z :=
  match k with [] => x | f :: k => top (node_of f) k end.

Fixpoint slinks (x : Z) (k : list frame) (p : Z) : list (Z * RTL_SPLAY_LINKS) :=
  match k with
  | [] => []
  | CL a r :: k => (a, mkLinks (seg_parent k p) x (root r)) :: links_of a r ++ slinks a k p
  | CR l a :: k => (a, mkLinks (seg_parent k p) (root l) x) :: links_of a l ++ slinks a k p
  end.

(** The path to the root of the whole tree, which is its own parent. *)
Definition clinks (x : Z) (k : list frame) := slinks x k (top x k).
Definition parent_of (x : Z) (k : list frame) : Z := seg_parent k (top x k).

Fixpoint plug (t : tree) (k : list frame) : tree :=
  match k with
  | [] => t
  | CL a r :: k => plug (Node t a r) k
  | CR l a :: k => plug (Node l a t) k
  end.

Fixpoint before (k : list frame) : list Z :=
  match k with [] => [] | CL _ _ :: k => before k | CR l a :: k => before k ++ inorder l ++ [a] end.
Fixpoint after (k : list frame) : list Z :=
  match k with [] => [] | CL a r :: k => a :: inorder r ++ after k | CR _ _ :: k => after k end.

Lemma inorder_plug t k : inorder (plug t k) = before k ++ inorder t ++ after k.
Proof.
  revert t; induction k as [|[a r|l a] k IH]; intros t; cbn [plug before after].
  - by rewrite app_nil_r.
  - rewrite IH. cbn [inorder]. by rewrite <- !app_assoc.
  - rewrite IH. cbn [inorder]. by rewrite <- !app_assoc.
Qed.

Lemma root_plug t k : root (plug t k) = top (root t) k.
Proof. revert t; induction k as [|[a r|l a] k IH]; intros t; cbn; [done|by rewrite IH..]. Qed.

Lemma top_cons x y f k : top x (f :: k) = top y (f :: k).
Proof. done. Qed.

Lemma links_plug t k p :
  links_of p (plug t k) ≡ₚ links_of (seg_parent k p) t ++ slinks (root t) k p.
Proof.
  revert t; induction k as [|[a r|l a] k IH]; intros t; cbn [plug slinks].
  - by rewrite app_nil_r.
  - rewrite IH. cbn. solve_Permutation.
  - rewrite IH. cbn. solve_Permutation.
Qed.

Lemma tree_plug t k : links_of (root (plug t k)) (plug t k) ≡ₚ
  links_of (parent_of (root t) k) t ++ clinks (root t) k.
Proof. by rewrite links_plug, root_plug. Qed.

Lemma links_keys p t : (links_of p t).*1 ≡ₚ inorder t.
Proof.
  revert p; induction t as [|l IHl a r IHr]; intros p; cbn; [done|].
  rewrite fmap_app, IHl, IHr. apply Permutation_middle.
Qed.

(** Every node of a tree is at the end of some path. *)
Lemma find_path x t : x ∈ inorder t -> exists l r k, t = plug (Node l x r) k.
Proof.
  assert (Hgen : forall k, x ∈ inorder t -> exists l r k', plug t k = plug (Node l x r) k').
  { induction t as [|l IHl a r IHr]; intros k Hin; cbn in Hin; [by apply not_elem_of_nil in Hin|].
    apply elem_of_app in Hin as [Hin|Hin]; [exact (IHl (CL a r :: k) Hin)|].
    apply elem_of_cons in Hin as [->|Hin]; [by exists l, r, k|exact (IHr (CR l a :: k) Hin)]. }
  intros Hin. exact (Hgen [] Hin).
Qed.

Lemma root_in t p : t <> Leaf -> root t ∈ (links_of p t).*1.
Proof. destruct t; [done|]. intros _. apply list_elem_of_here. Qed.

Lemma root_ne t p x : x ∉ (links_of p t).*1 -> x <> NULL -> (root t =? x) = false.
Proof.
  intros Hx Hn. apply Z.eqb_neq. intros <-. destruct t; [done|]. apply Hx. by apply root_in.
Qed.

(** ** Rules for the macros *)

Section Macros.
Context {B : Type}.
Implicit Types (pre post : list (Z * RTL_SPLAY_LINKS)) (s : B).

Lemma r_Parent pre X l (k : Z -> LM B) s post :
  (X, l) ∈ pre -> triple pre (k (Parent l)) s post -> triple pre (RtlParent X ≫= k) s post.
Proof. intros Hin Ht. apply triple_assoc. by eapply triple_load. Qed.
Lemma r_LeftChild pre X l (k : Z -> LM B) s post :
  (X, l) ∈ pre -> triple pre (k (LeftChild l)) s post -> triple pre (RtlLeftChild X ≫= k) s post.
Proof. intros Hin Ht. apply triple_assoc. by eapply triple_load. Qed.
Lemma r_RightChild pre X l (k : Z -> LM B) s post :
  (X, l) ∈ pre -> triple pre (k (RightChild l)) s post -> triple pre (RtlRightChild X ≫= k) s post.
Proof. intros Hin Ht. apply triple_assoc. by eapply triple_load. Qed.
Lemma r_IsRoot pre X l (k : bool -> LM B) s post :
  (X, l) ∈ pre -> triple pre (k (Parent l =? X)) s post -> triple pre (RtlIsRoot X ≫= k) s post.
Proof. intros Hin Ht. apply triple_assoc. by eapply r_Parent. Qed.
Lemma r_IsLeftChild pre X l lp (k : bool -> LM B) s post :
  (X, l) ∈ pre -> (Parent l, lp) ∈ pre -> triple pre (k (LeftChild lp =? X)) s post ->
  triple pre (RtlIsLeftChild X ≫= k) s post.
Proof.
  intros Hin Hp Ht. apply triple_assoc. eapply r_Parent; [done|].
  apply triple_assoc. by eapply r_LeftChild.
Qed.
Lemma r_IsRightChild pre X l lp (k : bool -> LM B) s post :
  (X, l) ∈ pre -> (Parent l, lp) ∈ pre -> triple pre (k (RightChild lp =? X)) s post ->
  triple pre (RtlIsRightChild X ≫= k) s post.
Proof.
  intros Hin Hp Ht. apply triple_assoc. eapply r_Parent; [done|].
  apply triple_assoc. by eapply r_RightChild.
Qed.
End Macros.

(** The pointer to the node below a path. *)
Definition child_addr (k : list frame) : child_ptr :=
  match k with CL a _ :: _ => LeftOf a | CR _ a :: _ => RightOf a | [] => LeftOf NULL end.

(** ParentsChildPointerAddress of the node below a path that is not empty. *)
Lemma r_PCPA {B} pre X l k p R (f : child_ptr -> LM B) s post :
  pre ≡ₚ (X, l) :: slinks X k p ++ R -> Parent l = seg_parent k p -> k <> [] ->
  triple pre (f (child_addr k)) s post -> triple pre (ParentsChildPointerAddress X ≫= f) s post.
Proof.
  intros Hp Hl Hk Ht. apply triple_assoc. apply triple_pure. intros Hnd Hn.
  rewrite Hp in Hnd, Hn.
  assert (Hin : (X, l) ∈ pre) by (rewrite Hp; m_elem).
  destruct k as [|[a r|t a] k]; [done| |]; cbn [slinks seg_parent node_of child_addr] in *.
  - eapply (r_IsLeftChild _ X l (mkLinks (seg_parent k p) X (root r))); [done|rewrite Hp, Hl; m_elem|].
    cbn [LeftChild]. rewrite Z.eqb_refl. apply triple_assoc. eapply r_Parent; [done|]. by rewrite Hl.
  - eapply (r_IsLeftChild _ X l (mkLinks (seg_parent k p) (root t) X)); [done|rewrite Hp, Hl; m_elem|].
    cbn [LeftChild]. rewrite (root_ne t a X) by m_distinct.
    apply triple_assoc. eapply r_Parent; [done|]. by rewrite Hl.
Qed.

Lemma t_write_child X Y k p : k <> [] ->
  triple (slinks X k p) (write_child (child_addr k) Y) tt (slinks Y k p).
Proof.
  intros Hk. destruct k as [|[a r|t a] k]; [done| |]; apply triple_tail, triple_write0; apply triple_ret.
Qed.

Lemma t_read_child X k p R : k <> [] ->
  triple (slinks X k p ++ R) (read_child (child_addr k)) X (slinks X k p ++ R).
Proof.
  intros Hk. destruct k as [|[a r|t a] k]; [done| |]; apply triple_tail; cbn [slinks app].
  - eapply r_LeftChild; [m_elem|]. apply triple_ret.
  - eapply r_RightChild; [m_elem|]. apply triple_ret.
Qed.

(** Giving a subtree a new parent. *)
Lemma t_reparent t p q : t <> Leaf -> triple (links_of p t) (set_Parent (root t) q) tt (links_of q t).
Proof. destruct t; [done|]. intros _. apply triple_tail, triple_write0, triple_ret. Qed.

Section Fix.
Context {B : Type} (pre R pre' : list (Z * RTL_SPLAY_LINKS)) (X : Z) (l : RTL_SPLAY_LINKS).
Context (q : Z) (t : tree) (k : unit -> LM B) (s : B) (post : list (Z * RTL_SPLAY_LINKS)).
Hypotheses (Hin : (X, l) ∈ pre) (Hpre : pre ≡ₚ links_of q t ++ R) (Hpre' : pre' ≡ₚ links_of X t ++ R).

Lemma r_fix (c : Z) : c = root t -> triple pre' (k tt) s post ->
  triple pre ((if c =? NULL then mret tt else set_Parent c X) ≫= k) s post.
Proof.
  intros -> Ht. destruct t as [|tl a tr].
  - cbn. eapply triple_bind; [apply triple_ret|].
    eapply triple_perm; [|reflexivity|exact Ht]. by rewrite Hpre, Hpre'.
  - apply triple_pure. intros _ Hn. rewrite Hpre in Hn. cbn [root].
    destruct (Z.eqb_spec a NULL) as [->|_]; [exfalso; apply Hn, list_elem_of_here|].
    eapply (triple_step _ _ R); [exact Hpre|exact (t_reparent (Node tl a tr) q X ltac:(done))|].
    eapply triple_perm; [|reflexivity|exact Ht]. by rewrite Hpre'.
Qed.

Lemma r_fix_left : LeftChild l = root t -> triple pre' (k tt) s post ->
  triple pre (fix_left X ≫= k) s post.
Proof. intros Hl Ht. apply triple_assoc. eapply r_LeftChild; [exact Hin|]. by apply r_fix. Qed.
Lemma r_fix_right : RightChild l = root t -> triple pre' (k tt) s post ->
  triple pre (fix_right X ≫= k) s post.
Proof. intros Hl Ht. apply triple_assoc. eapply r_RightChild; [exact Hin|]. by apply r_fix. Qed.
End Fix.

(** [m_fix_left q t] runs fix_left or fix_right where the child is the subtree
    [t] whose root has the parent [q]. *)
Ltac m_fix q t :=
  lazymatch goal with
  | |- triple ?pre (?f ?X ≫= _) _ _ =>
      lazymatch pre with
      | context C [links_of q t] =>
          let pre' := context C [links_of X t] in
          let R := context C [@nil (Z * RTL_SPLAY_LINKS)] in
          first [eapply (r_fix_left pre R pre' X _ q t) | eapply (r_fix_right pre R pre' X _ q t)];
          [m_elem|solve_Permutation|solve_Permutation|reflexivity|]
      end
  end.

Lemma t_connect_great L lL G lG k : Parent lG = parent_of G k ->
  triple ((L, lL) :: (G, lG) :: clinks G k) (connect_great L G) tt
    ((L, mkLinks (parent_of L k) (LeftChild lL) (RightChild lL)) :: (G, lG) :: clinks L k).
Proof.
  intros Hp. unfold connect_great. apply triple_pure. intros Hnd Hn. eapply r_IsRoot; [m_elem|].
  rewrite Hp. destruct k as [|f k].
  - unfold parent_of. cbn [seg_parent top]. rewrite Z.eqb_refl.
    apply triple_tail, triple_write0, triple_ret.
  - unfold parent_of, clinks in *. rewrite (top_cons L G f k). cbn [seg_parent] in *.
    assert (Hne : (node_of f =? G) = false).
    { apply Z.eqb_neq. intros He. destruct f; cbn in He, Hnd, Hn; subst; m_distinct. }
    rewrite Hne. eapply r_Parent; [m_elem|]. m_write. rewrite Hp.
    eapply (r_PCPA _ G lG (f :: k) (top G (f :: k))); [|done|done|].
    { instantiate (1 := [(L, mkLinks (node_of f) (LeftChild lL) (RightChild lL))]). solve_Permutation. }
    eapply (triple_perm _ (slinks G (f :: k) (top G (f :: k)) ++ _)); [|reflexivity|].
    { instantiate (1 := [(L, mkLinks (node_of f) (LeftChild lL) (RightChild lL)); (G, lG)]).
      solve_Permutation. }
    eapply triple_perm; [reflexivity| |apply triple_frame, (t_write_child G L); done].
    solve_Permutation.
Qed.

Lemma r_connect_great {B} pre R pre' L lL G lG k (f : unit -> LM B) s post :
  pre ≡ₚ (L, lL) :: (G, lG) :: clinks G k ++ R -> Parent lG = parent_of G k ->
  pre' ≡ₚ (L, mkLinks (parent_of L k) (LeftChild lL) (RightChild lL)) :: (G, lG) :: clinks L k ++ R ->
  triple pre' (f tt) s post -> triple pre (connect_great L G ≫= f) s post.
Proof.
  intros Hpre Hp Hpre' Ht.
  eapply (triple_step _ ((L, lL) :: (G, lG) :: clinks G k) R); [exact Hpre|by apply t_connect_great|].
  eapply triple_perm; [|reflexivity|exact Ht]. by rewrite Hpre'.
Qed.

(** [m_great k] runs connect_great where [k] is the path above G. *)
Ltac m_great k :=
  lazymatch goal with
  | |- triple (?c0 :: ?pre) (connect_great ?L ?G ≫= _) _ _ =>
      lazymatch c0 with
      | (_, mkLinks _ ?lc ?rc) =>
          lazymatch pre with
          | context C [clinks G k] =>
              let pre' := context C [clinks L k] in
              let rest := context C [@nil (Z * RTL_SPLAY_LINKS)] in
              lazymatch rest with
              | context D [(G, ?lG) :: ?tl] =>
                  let R := context D [tl] in
                  eapply (r_connect_great _ R ((L, mkLinks (parent_of L k) lc rc) :: pre') L _ G lG k);
                  [solve_Permutation|reflexivity|solve_Permutation|]
              end
          end
      end
  end.

(** ** One turn of RtlSplay *)

(** The records of the subtree at the end of a path, and of the path. *)
Definition zip (t : tree) (k : list frame) := links_of (parent_of (root t) k) t ++ clinks (root t) k.

(** [zip_open] writes out the records around a position, the node [x], its
    parent [P] and grandparent [G] first; [zip_done] closes the final state. *)
Ltac zip_open1 := unfold zip, clinks, parent_of; cbn [links_of root top seg_parent slinks node_of app].
Ltac zip_open G k :=
  unfold zip at 1, clinks at 1, parent_of at 1; cbn [links_of root top seg_parent slinks node_of app];
  fold (clinks G k) (parent_of G k).
Ltac zip_done :=
  unfold zip; cbn [links_of root Parent LeftChild RightChild seg_parent top parent_of app];
  eapply triple_perm; [|reflexivity|apply triple_ret]; solve_Permutation.

Section Turn.
Context (l r c d : tree) (x P G : Z) (k : list frame).

Lemma splay_zig_left :
  triple (zip (Node l x r) [CL P c]) (splay_left x P P) tt (zip (Node l x (Node r P c)) []).
Proof.
  zip_open1.
  eapply (triple_perm _ ((x, mkLinks P (root l) (root r)) :: (P, mkLinks P x (root c)) ::
    links_of x l ++ links_of x r ++ links_of P c)); [solve_Permutation|reflexivity|].
  unfold splay_left. eapply r_IsRoot; [m_elem|]. cbn [Parent]. rewrite Z.eqb_refl.
  eapply r_RightChild; [m_elem|]. m_write. m_fix x r. m_write. m_write. apply triple_tail. m_write.
  zip_done.
Qed.

Lemma splay_zig_right :
  triple (zip (Node l x r) [CR c P]) (splay_right x P P) tt (zip (Node (Node c P l) x r) []).
Proof.
  zip_open1.
  eapply (triple_perm _ ((x, mkLinks P (root l) (root r)) :: (P, mkLinks P (root c) x) ::
    links_of x l ++ links_of x r ++ links_of P c)); [solve_Permutation|reflexivity|].
  unfold splay_right. eapply r_IsRoot; [m_elem|]. cbn [Parent]. rewrite Z.eqb_refl.
  eapply r_LeftChild; [m_elem|]. m_write. m_fix x l. m_write. m_write. apply triple_tail. m_write.
  zip_done.
Qed.

Lemma splay_left_left :
  triple (zip (Node l x r) (CL P c :: CL G d :: k)) (splay_left x P G) tt
    (zip (Node l x (Node r P (Node c G d))) k).
Proof.
  zip_open G k.
  eapply (triple_perm _ ((x, mkLinks P (root l) (root r)) :: (P, mkLinks G x (root c)) ::
    (G, mkLinks (parent_of G k) P (root d)) ::
    links_of x l ++ links_of x r ++ links_of P c ++ links_of G d ++ clinks G k));
    [solve_Permutation|reflexivity|].
  apply triple_pure. intros Hnd Hn.
  assert (HPG : (G =? P) = false) by (apply Z.eqb_neq; m_distinct).
  unfold splay_left. eapply r_IsRoot; [m_elem|]. cbn [Parent]. rewrite HPG.
  eapply r_IsLeftChild; [m_elem|m_elem|]. cbn [LeftChild]. rewrite Z.eqb_refl.
  eapply r_RightChild; [m_elem|]. m_write. m_fix x r.
  eapply r_RightChild; [m_elem|]. m_write. m_fix P c.
  m_great k. m_write. m_write. m_write. apply triple_tail. m_write. zip_done.
Qed.

Lemma splay_left_right :
  triple (zip (Node l x r) (CL P c :: CR d G :: k)) (splay_left x P G) tt
    (zip (Node (Node d G l) x (Node r P c)) k).
Proof.
  zip_open G k.
  eapply (triple_perm _ ((x, mkLinks P (root l) (root r)) :: (P, mkLinks G x (root c)) ::
    (G, mkLinks (parent_of G k) (root d) P) ::
    links_of x l ++ links_of x r ++ links_of P c ++ links_of G d ++ clinks G k));
    [solve_Permutation|reflexivity|].
  apply triple_pure. intros Hnd Hn.
  assert (HPG : (G =? P) = false) by (apply Z.eqb_neq; m_distinct).
  assert (Hd : (root d =? P) = false) by (apply (root_ne d G); m_distinct).
  unfold splay_left. eapply r_IsRoot; [m_elem|]. cbn [Parent]. rewrite HPG.
  eapply r_IsLeftChild; [m_elem|m_elem|]. cbn [LeftChild]. rewrite Hd.
  eapply r_LeftChild; [m_elem|]. m_write. m_fix x l.
  eapply r_RightChild; [m_elem|]. m_write. m_fix x r.
  m_great k. m_write. m_write. m_write. apply triple_tail. m_write. zip_done.
Qed.

Lemma splay_right_right :
  triple (zip (Node l x r) (CR c P :: CR d G :: k)) (splay_right x P G) tt
    (zip (Node (Node (Node d G c) P l) x r) k).
Proof.
  zip_open G k.
  eapply (triple_perm _ ((x, mkLinks P (root l) (root r)) :: (P, mkLinks G (root c) x) ::
    (G, mkLinks (parent_of G k) (root d) P) ::
    links_of x l ++ links_of x r ++ links_of P c ++ links_of G d ++ clinks G k));
    [solve_Permutation|reflexivity|].
  apply triple_pure. intros Hnd Hn.
  assert (HPG : (G =? P) = false) by (apply Z.eqb_neq; m_distinct).
  unfold splay_right. eapply r_IsRoot; [m_elem|]. cbn [Parent]. rewrite HPG.
  eapply r_IsRightChild; [m_elem|m_elem|]. cbn [RightChild]. rewrite Z.eqb_refl.
  eapply r_LeftChild; [m_elem|]. m_write. m_fix P c.
  eapply r_LeftChild; [m_elem|]. m_write. m_fix x l.
  m_great k. m_write. m_write. m_write. apply triple_tail. m_write. zip_done.
Qed.

Lemma splay_right_left :
  triple (zip (Node l x r) (CR c P :: CL G d :: k)) (splay_right x P G) tt
    (zip (Node (Node c P l) x (Node r G d)) k).
Proof.
  zip_open G k.
  eapply (triple_perm _ ((x, mkLinks P (root l) (root r)) :: (P, mkLinks G (root c) x) ::
    (G, mkLinks (parent_of G k) P (root d)) ::
    links_of x l ++ links_of x r ++ links_of P c ++ links_of G d ++ clinks G k));
    [solve_Permutation|reflexivity|].
  apply triple_pure. intros Hnd Hn.
  assert (HPG : (G =? P) = false) by (apply Z.eqb_neq; m_distinct).
  assert (Hd : (root d =? P) = false) by (apply (root_ne d G); m_distinct).
  unfold splay_right. eapply r_IsRoot; [m_elem|]. cbn [Parent]. rewrite HPG.
  eapply r_IsRightChild; [m_elem|m_elem|]. cbn [RightChild]. rewrite Hd.
  eapply r_LeftChild; [m_elem|]. m_write. m_fix x l.
  eapply r_RightChild; [m_elem|]. m_write. m_fix x r.
  m_great k. m_write. m_write. m_write. apply triple_tail. m_write. zip_done.
Qed.
End Turn.

(** ** RtlSplay *)

(** Bottom-up splaying as a function on trees: the tree that results from the
    subtree [Node l x r] at the end of the path [k]. *)
Fixpoint splay_tree (l : tree) (x : Z) (r : tree) (k : list frame) : tree :=
  match k with
  | [] => Node l x r
  | [CL P c] => Node l x (Node r P c)
  | [CR c P] => Node (Node c P l) x r
  | CL P c :: CL G d :: k => splay_tree l x (Node r P (Node c G d)) k
  | CL P c :: CR d G :: k => splay_tree (Node d G l) x (Node r P c) k
  | CR c P :: CR d G :: k => splay_tree (Node (Node d G c) P l) x r k
  | CR c P :: CL G d :: k => splay_tree (Node c P l) x (Node r G d) k
  end.

(** Induction over a path two frames at a time. *)
Lemma path_ind2 (Q : list frame -> Prop) :
  Q [] -> (forall f, Q [f]) -> (forall f g k, Q k -> Q (f :: g :: k)) -> forall k, Q k.
Proof.
  intros H0 H1 H2 k. cut (Q k /\ forall f, Q (f :: k)); [by intros []|].
  induction k as [|g k [IH1 IH2]]; [done|]. split; [apply IH2|]. intros f. by apply H2.
Qed.

Lemma splay_tree_spec k l x r :
  root (splay_tree l x r k) = x /\ inorder (splay_tree l x r k) = inorder (plug (Node l x r) k).
Proof.
  revert l r. induction k as [|[P c|c P]|[P c|c P] [G d|d G] k IH] using path_ind2; intros l r;
    cbn [splay_tree plug];
    try (split; [done|cbn; by rewrite <- ?app_assoc]); (split; [apply IH|rewrite (proj2 (IH _ _))]);
    rewrite !inorder_plug; cbn; by repeat progress (rewrite <- ?app_assoc; cbn).
Qed.

(** The head of the records at a position, for reading around it. *)
Lemma zip_head l x r f k : exists R1 R2, zip (Node l x r) (f :: k) =
  (x, mkLinks (node_of f) (root l) (root r)) :: R1 ++
  (node_of f, match f with
    | CL _ c => mkLinks (parent_of (node_of f) k) x (root c)
    | CR c _ => mkLinks (parent_of (node_of f) k) (root c) x end) ::
  match f with CL a c => links_of a c | CR c a => links_of a c end ++ R2.
Proof.
  exists (links_of x l ++ links_of x r), (clinks (node_of f) k). unfold zip, parent_of, clinks.
  by destruct f; cbn; rewrite <- !app_assoc.
Qed.

(** What one turn sees: not the root, its parent, and on which side it is. *)
Lemma r_splay_turn {B} l x r f k (m : Z -> Z -> bool -> LM B) s post :
  triple (zip (Node l x r) (f :: k)) (m (node_of f) (parent_of (node_of f) k)
     (match f with CL _ _ => true | CR _ _ => false end)) s post ->
  forall m0, triple (zip (Node l x r) (f :: k))
    (rt ← RtlIsRoot x; if rt : bool then m0 else
     P ← RtlParent x; G ← RtlParent P; b ← RtlIsLeftChild x; m P G b) s post.
Proof.
  intros Ht m0. apply triple_pure. destruct (zip_head l x r f k) as (R1 & R2 & He). rewrite He in *.
  intros Hnd Hn. eapply r_IsRoot; [m_elem|]. cbn [Parent].
  assert (Hx : (node_of f =? x) = false).
  { apply Z.eqb_neq. clear He Ht. destruct f; cbn [node_of] in *; m_distinct. }
  rewrite Hx. eapply r_Parent; [m_elem|]. cbn [Parent].
  eapply r_Parent; [apply list_elem_of_further, elem_of_app; right; apply list_elem_of_here|].
  eapply r_IsLeftChild; [m_elem|apply list_elem_of_further, elem_of_app; right; apply list_elem_of_here|].
  destruct f as [a c|c a]; cbn [Parent LeftChild node_of] in *.
  - by rewrite Z.eqb_refl.
  - rewrite (root_ne c a x) by m_distinct. done.
Qed.

Lemma splay_loop_correct k fuel l x r : (length k < fuel)%nat ->
  triple (zip (Node l x r) k) (splay_loop fuel x) x (zip (splay_tree l x r k) []).
Proof.
  assert (Hend : forall n l r, triple (zip (Node l x r) []) (splay_loop (S n) x) x (zip (Node l x r) [])).
  { intros n l0 r0. unfold zip, parent_of, clinks. cbn. eapply r_IsRoot; [m_elem|]. cbn.
    rewrite Z.eqb_refl. apply triple_ret. }
  revert fuel l r. induction k as [|f|f g k IH] using path_ind2; intros [|fuel] l r Hf;
    cbn [length] in Hf; try lia; [apply Hend| |].
  - cbn [splay_loop]. eapply r_splay_turn. destruct fuel as [|fuel]; [lia|].
    destruct f as [P c|c P]; cbn [splay_tree node_of]; unfold parent_of; cbn [seg_parent top].
    + eapply triple_bind; [apply splay_zig_left|apply Hend].
    + eapply triple_bind; [apply splay_zig_right|apply Hend].
  - cbn [splay_loop]. eapply r_splay_turn.
    destruct f as [P c|c P], g as [G d|d G]; cbn [splay_tree node_of]; unfold parent_of;
      cbn [seg_parent top node_of].
    + eapply triple_bind; [apply splay_left_left|apply IH; lia].
    + eapply triple_bind; [apply splay_left_right|apply IH; lia].
    + eapply triple_bind; [apply splay_right_left|apply IH; lia].
    + eapply triple_bind; [apply splay_right_right|apply IH; lia].
Qed.

Lemma path_length t k p : (length k <= length (links_of p (plug t k)))%nat.
Proof.
  rewrite links_plug, length_app. enough (length k <= length (slinks (root t) k p))%nat by lia.
  generalize (root t). induction k as [|[a r|l a] k IH]; intros x; cbn; [lia|..];
    rewrite length_app; specialize (IH a); lia.
Qed.

(** The fuel of the loops suffices. *)
Lemma triple_fuel {A} pre (f : nat -> LM A) s post n : (n <= length pre)%nat ->
  (forall m, (n < m)%nat -> triple pre (f m) s post) -> triple pre (with_fuel f) s post.
Proof.
  intros Hn Ht h Ho. pose proof (owns_length _ _ Ho). apply Ht; [lia|done].
Qed.

Lemma RtlSplay_zip l x r k :
  triple (zip (Node l x r) k) (RtlSplay x) x (zip (splay_tree l x r k) []).
Proof.
  apply (triple_fuel _ _ _ _ (length k)); [|intros m Hm; by apply splay_loop_correct].
  unfold zip. rewrite <- (tree_plug (Node l x r) k). apply path_length.
Qed.

(** From a triple on the records of a tree to a statement on memories: [junk]
    are the records that are no longer part of the tree. *)
Lemma tree_triple {A} h t (m : LM A) s t' junk :
  triple (links_of (root t) t) m s (links_of (root t') t' ++ junk) -> tree_in h t ->
  exists h', m h = Some (s, h') /\ tree_in h' t' /\ forall a, a ∉ inorder t -> h' !! a = h !! a.
Proof.
  intros Ht Hin. destruct (Ht h Hin) as (h' & Hm & Ho & _ & Hf). exists h'.
  split; [done|]. split; [by eapply owns_app_l|]. intros a Ha. apply Hf. by rewrite links_keys.
Qed.

Lemma RtlSplay_tree l x r k :
  triple (links_of (root (plug (Node l x r) k)) (plug (Node l x r) k)) (RtlSplay x) x
    (links_of x (splay_tree l x r k)).
Proof.
  eapply triple_perm; [apply tree_plug| |apply RtlSplay_zip]. unfold zip, parent_of, clinks.
  cbn [seg_parent top slinks]. by rewrite app_nil_r, (proj1 (splay_tree_spec k l x r)).
Qed.

(** C16: RtlSplay ends without a fault for every node of a tree, makes it the root
    by the rotations of bottom-up splaying ([splay_tree], chosen by the path from
    the node to the root), keeps the order of the nodes and all parent pointers
    consistent, and writes nothing outside the tree. *)
Theorem RtlSplay_correct h l Links r k :
  tree_in h (plug (Node l Links r) k) ->
  let t' := splay_tree l Links r k in
  exists h', RtlSplay Links h = Some (Links, h') /\ tree_in h' t' /\
    root t' = Links /\ inorder t' = inorder (plug (Node l Links r) k) /\
    forall a, a ∉ inorder t' -> h' !! a = h !! a.
Proof.
  intros Hin t'. destruct (splay_tree_spec k l Links r) as [Hr Hi].
  destruct (tree_triple h (plug (Node l Links r) k) (RtlSplay Links) Links t' []) as (h' & Hm & Ht & Hf); [|done|].
  { rewrite app_nil_r. unfold t'. rewrite Hr. apply RtlSplay_tree. }
  exists h'. split_and!; [done..|]. unfold t'. by rewrite Hi.
Qed.


End Splay.
