(* ===== verification/RtlSplayOps.v ===== *)
(** * Splay trees: order, deletion and neighbours

    Theorems on the routines of [RtlSplay]: successor and predecessor searches,
    the exchange of two nodes (SwapSplayLinks), and deletion with and without
    splaying.  Every lemma on a routine is a triple on the records around a
    position ([zip]); the last part states the results for a tree in memory. *)

From S2P Require Import Prelude RtlHeap RtlSplay.
From stdpp Require Import gmap list_tactics.
#[local] Open Scope Z_scope.

Module SplayOps.
Import Splay.

(** ** Successors and predecessors *)

Lemma leftmost_correct t p fuel : t <> Leaf -> (length (links_of p t) <= fuel)%nat ->
  triple (links_of p t) (leftmost fuel (root t)) (hd NULL (inorder t)) (links_of p t).
Proof.
  revert p fuel. induction t as [|l IHl a r _]; intros p fuel Ht Hf; [done|].
  cbn in Hf. rewrite length_app in Hf. destruct fuel as [|fuel]; [lia|]. apply triple_pure.
  cbn [leftmost root links_of]. intros _ Hn. eapply r_LeftChild; [m_elem|]. cbn [LeftChild].
  destruct l as [|ll b lr]; [apply triple_ret|].
  assert (Hb : (b =? NULL) = false) by (apply Z.eqb_neq; intros ->; apply Hn; cbn; right; left).
  cbn [root]. rewrite Hb.
  assert (Hhd : hd NULL (inorder (Node (Node ll b lr) a r)) = hd NULL (inorder (Node ll b lr))).
  { cbn. by destruct (inorder ll). }
  rewrite Hhd. eapply triple_perm; [| |apply triple_frame, (IHl a fuel); [done|lia]].
  - instantiate (1 := (a, mkLinks p b (root r)) :: links_of a r). cbn [links_of]. solve_Permutation.
  - cbn [links_of root]. solve_Permutation.
Qed.

Lemma rightmost_correct t p fuel : t <> Leaf -> (length (links_of p t) <= fuel)%nat ->
  triple (links_of p t) (rightmost fuel (root t)) (List.last (inorder t) NULL) (links_of p t).
Proof.
  revert p fuel. induction t as [|l _ a r IHr]; intros p fuel Ht Hf; [done|].
  cbn in Hf. rewrite length_app in Hf. destruct fuel as [|fuel]; [lia|]. apply triple_pure.
  cbn [rightmost root links_of]. intros _ Hn. eapply r_RightChild; [m_elem|]. cbn [RightChild].
  destruct r as [|rl b rr]; [cbn; rewrite last_last; apply triple_ret|].
  assert (Hb : (b =? NULL) = false).
  { apply Z.eqb_neq; intros ->; apply Hn; cbn. right. rewrite fmap_app. apply elem_of_app. right. left. }
  cbn [root]. rewrite Hb.
  assert (Hlast : List.last (inorder (Node l a (Node rl b rr))) NULL
    = List.last (inorder (Node rl b rr)) NULL).
  { cbn [inorder]. by rewrite !list_last_app, list_last_cons. }
  rewrite Hlast. eapply triple_perm; [| |apply triple_frame, (IHr a fuel); [done|lia]].
  - instantiate (1 := (a, mkLinks p (root l) b) :: links_of a l). cbn [links_of]. solve_Permutation.
  - cbn [links_of root]. solve_Permutation.
Qed.

(** Reading the side a node is on. *)
Definition on_right (k : list frame) : bool := match k with CR _ _ :: _ => true | _ => false end.
Definition on_left (k : list frame) : bool := match k with CL _ _ :: _ => true | _ => false end.

Section Position.
Context {B : Type} (l : tree) (x : Z) (r : tree) (k : list frame) (pre : list (Z * RTL_SPLAY_LINKS)).
Hypothesis Hpre : pre ≡ₚ zip (Node l x r) k.

Lemma pos_node : (x, mkLinks (parent_of x k) (root l) (root r)) ∈ pre.
Proof. rewrite Hpre. unfold zip. cbn. m_elem. Qed.

Lemma r_at_Parent (f : Z -> LM B) s post :
  triple pre (f (parent_of x k)) s post -> triple pre (RtlParent x ≫= f) s post.
Proof. intros Ht. eapply r_Parent; [exact pos_node|done]. Qed.
Lemma r_at_LeftChild (f : Z -> LM B) s post :
  triple pre (f (root l)) s post -> triple pre (RtlLeftChild x ≫= f) s post.
Proof. intros Ht. eapply r_LeftChild; [exact pos_node|done]. Qed.
Lemma r_at_RightChild (f : Z -> LM B) s post :
  triple pre (f (root r)) s post -> triple pre (RtlRightChild x ≫= f) s post.
Proof. intros Ht. eapply r_RightChild; [exact pos_node|done]. Qed.

(** The record of the parent, and how it tells the sides apart. *)
Lemma pos_parent : NoDup pre.*1 -> NULL ∉ pre.*1 -> exists lp, (parent_of x k, lp) ∈ pre /\
  (LeftChild lp =? x) = on_left k /\ (RightChild lp =? x) = on_right k /\
  (parent_of x k =? x) = (match k with [] => true | _ => false end).
Proof using Hpre.
  intros Hnd Hn. pose proof pos_node as Hx. rewrite Hpre in Hnd, Hn, Hx. setoid_rewrite Hpre. clear Hpre. destruct k as [|f k'].
  - eexists. split; [exact Hx|]. unfold zip, parent_of, clinks in *. cbn in Hnd, Hn |- *.
    rewrite Z.eqb_refl. split_and!; [apply (root_ne l x)|apply (root_ne r x)|done]; m_distinct.
  - destruct (zip_head l x r f k') as (R1 & R2 & He). rewrite He in *. clear He Hx.
    eexists. split; [apply list_elem_of_further, elem_of_app; right; apply list_elem_of_here|].
    unfold parent_of. cbn [seg_parent].
    assert (node_of f <> x /\ x <> NULL /\
      x ∉ (match f with CL a c => links_of a c | CR c a => links_of a c end).*1) as (Hf & Hx & Hc).
    { destruct f; cbn [node_of] in *; split_and!; m_distinct. }
    apply Z.eqb_neq in Hf. destruct f as [a c|c a]; cbn in *; rewrite Z.eqb_refl; split_and!; try done.
    + by apply (root_ne c a).
    + by apply (root_ne c a).
Qed.

Lemma r_at_IsLeftChild (f : bool -> LM B) s post :
  triple pre (f (on_left k)) s post -> triple pre (RtlIsLeftChild x ≫= f) s post.
Proof using Hpre.
  intros Ht. apply triple_pure. intros Hnd Hn. destruct (pos_parent Hnd Hn) as (lp & Hin & He & _).
  rewrite <- He in Ht. eapply r_IsLeftChild; [exact pos_node|exact Hin|exact Ht].
Qed.
Lemma r_at_IsRightChild (f : bool -> LM B) s post :
  triple pre (f (on_right k)) s post -> triple pre (RtlIsRightChild x ≫= f) s post.
Proof using Hpre.
  intros Ht. apply triple_pure. intros Hnd Hn. destruct (pos_parent Hnd Hn) as (lp & Hin & _ & He & _).
  rewrite <- He in Ht. eapply r_IsRightChild; [exact pos_node|exact Hin|exact Ht].
Qed.
Lemma r_at_IsRoot (f : bool -> LM B) s post :
  triple pre (f (match k with [] => true | _ => false end)) s post ->
  triple pre (RtlIsRoot x ≫= f) s post.
Proof using Hpre.
  intros Ht. apply triple_pure. intros Hnd Hn. destruct (pos_parent Hnd Hn) as (lp & _ & _ & _ & He).
  eapply r_IsRoot; [exact pos_node|]. cbn [Parent]. by rewrite He.
Qed.
End Position.

Lemma zip_plug t k : zip t k ≡ₚ links_of (root (plug t k)) (plug t k).
Proof. symmetry. apply tree_plug. Qed.

(** [while (RtlIsRightChild(Ptr)) Ptr = RtlParent(Ptr)] stops at the first
    ancestor that is not a right child; what comes after it is unchanged. *)
Lemma climb_right_correct k l x r fuel : (length k < fuel)%nat ->
  exists l' y r' k', plug (Node l' y r') k' = plug (Node l x r) k /\ on_right k' = false /\
    after k' = after k /\ triple (zip (Node l x r) k) (climb_right fuel x) y (zip (Node l x r) k).
Proof.
  revert l x r fuel. induction k as [|[a c|c a] k IH]; intros l x r [|fuel] Hf; cbn [length] in Hf; try lia.
  1,2: exists l, x, r; eexists; split_and!; [done..|]; cbn [climb_right];
    eapply (r_at_IsRightChild l x r); [done|apply triple_ret].
  destruct (IH c a (Node l x r) fuel) as (l' & y & r' & k' & Hp & Hs & Ha & Ht); [lia|].
  exists l', y, r', k'. split_and!; [done..|]. cbn [climb_right].
  eapply (r_at_IsRightChild l x r (CR c a :: k)); [done|]. cbn [on_right].
  eapply (r_at_Parent l x r (CR c a :: k)); [done|].
  eapply triple_perm; [..|exact Ht]; by rewrite !zip_plug.
Qed.

Lemma climb_left_correct k l x r fuel : (length k < fuel)%nat ->
  exists l' y r' k', plug (Node l' y r') k' = plug (Node l x r) k /\ on_left k' = false /\
    before k' = before k /\ triple (zip (Node l x r) k) (climb_left fuel x) y (zip (Node l x r) k).
Proof.
  revert l x r fuel. induction k as [|[a c|c a] k IH]; intros l x r [|fuel] Hf; cbn [length] in Hf; try lia.
  1,3: exists l, x, r; eexists; split_and!; [done..|]; cbn [climb_left];
    eapply (r_at_IsLeftChild l x r); [done|apply triple_ret].
  destruct (IH (Node l x r) a c fuel) as (l' & y & r' & k' & Hp & Hs & Ha & Ht); [lia|].
  exists l', y, r', k'. split_and!; [done..|]. cbn [climb_left].
  eapply (r_at_IsLeftChild l x r (CL a c :: k)); [done|]. cbn [on_left].
  eapply (r_at_Parent l x r (CL a c :: k)); [done|].
  eapply triple_perm; [..|exact Ht]; by rewrite !zip_plug.
Qed.

Lemma zip_null l x r k : NULL ∉ (zip (Node l x r) k).*1 -> (NULL ∉ (links_of x l).*1) /\ (NULL ∉ (links_of x r).*1).
Proof.
  unfold zip. cbn. rewrite !fmap_app, not_elem_of_cons, !not_elem_of_app. tauto.
Qed.

Lemma root_null t p : NULL ∉ (links_of p t).*1 -> (root t =? NULL) = match t with Leaf => true | _ => false end.
Proof.
  destruct t; [done|]. intros Hn. apply Z.eqb_neq. intros E. apply Hn. rewrite <- E. by apply root_in.
Qed.

Lemma zip_length l x r k : (length k + length (links_of x l) + length (links_of x r) < length (zip (Node l x r) k))%nat.
Proof.
  unfold zip. cbn. rewrite !length_app.
  assert ((forall z p, length k <= length (slinks z k p))%nat) as Hk; [|specialize (Hk x (top x k)); unfold clinks; lia].
  induction k as [|[a u|u a] k' IH]; intros z p; cbn; [lia|..]; rewrite length_app; specialize (IH a p); lia.
Qed.

Lemma RealSuccessor_zip l x r k :
  triple (zip (Node l x r) k) (RtlRealSuccessor x) (hd NULL (inorder r ++ after k)) (zip (Node l x r) k).
Proof.
  pose proof (zip_length l x r k) as Hlen.
  apply (triple_fuel _ _ _ _ (length k + length (links_of x l) + length (links_of x r))); [lia|].
  intros fuel Hf. apply triple_pure. intros _ Hn. apply zip_null in Hn as [_ Hn].
  eapply (r_at_RightChild l x r k); [done|]. rewrite (root_null r x Hn). destruct r as [|rl b rr]; cbn [negb].
  - destruct (climb_right_correct k l x Leaf fuel) as (l' & y & r' & k' & Hp & Hs & Ha & Ht); [lia|].
    eapply triple_bind; [exact Ht|]. cbn [inorder app]. rewrite <- Ha.
    assert (Hz : zip (Node l x Leaf) k ≡ₚ zip (Node l' y r') k') by (by rewrite !zip_plug, Hp).
    eapply (r_at_IsLeftChild l' y r' k'); [exact Hz|]. destruct k' as [|[a c|c a] k']; cbn in Hs |- *; try done.
    + apply triple_ret.
    + apply triple_tail. eapply (r_at_Parent l' y r'); [exact Hz|]. apply triple_ret.
  - assert (Hhd : hd NULL (inorder (Node rl b rr) ++ after k) = hd NULL (inorder (Node rl b rr))).
    { cbn. by destruct (inorder rl). }
    rewrite Hhd. eapply (triple_part _ (links_of x (Node rl b rr))).
    + unfold zip. cbn [links_of root].
      instantiate (1 := (x, mkLinks (parent_of x k) (root l) b) :: links_of x l ++ clinks x k). solve_Permutation.
    + apply (leftmost_correct (Node rl b rr)); [done|lia].
Qed.

Lemma RealPredecessor_zip l x r k :
  triple (zip (Node l x r) k) (RtlRealPredecessor x) (List.last (before k ++ inorder l) NULL) (zip (Node l x r) k).
Proof.
  pose proof (zip_length l x r k) as Hlen.
  apply (triple_fuel _ _ _ _ (length k + length (links_of x l) + length (links_of x r))); [lia|].
  intros fuel Hf. apply triple_pure. intros _ Hn. apply zip_null in Hn as [Hn _].
  eapply (r_at_LeftChild l x r k); [done|]. rewrite (root_null l x Hn). destruct l as [|ll b lr]; cbn [negb].
  - destruct (climb_left_correct k Leaf x r fuel) as (l' & y & r' & k' & Hp & Hs & Ha & Ht); [lia|].
    eapply triple_bind; [exact Ht|]. cbn [inorder]. rewrite app_nil_r, <- Ha.
    assert (Hz : zip (Node Leaf x r) k ≡ₚ zip (Node l' y r') k') by (by rewrite !zip_plug, Hp).
    eapply (r_at_IsRightChild l' y r' k'); [exact Hz|].
    destruct k' as [|[a c|c a] k']; cbn [on_left on_right before] in Hs |- *; try done.
    + apply triple_ret.
    + rewrite !app_assoc, last_last.
      apply triple_tail. eapply (r_at_Parent l' y r'); [exact Hz|]. apply triple_ret.
  - assert (Hl : List.last (before k ++ inorder (Node ll b lr)) NULL = List.last (inorder (Node ll b lr)) NULL).
    { cbn [inorder]. by rewrite app_assoc, !list_last_app. }
    rewrite Hl. eapply (triple_part _ (links_of x (Node ll b lr))).
    + unfold zip. cbn [links_of root].
      instantiate (1 := (x, mkLinks (parent_of x k) b (root r)) :: links_of x r ++ clinks x k). solve_Permutation.
    + apply (rightmost_correct (Node ll b lr)); [done|lia].
Qed.

Lemma SubtreePredecessor_zip l x r k :
  triple (zip (Node l x r) k) (RtlSubtreePredecessor x) (List.last (inorder l) NULL) (zip (Node l x r) k).
Proof.
  pose proof (zip_length l x r k) as Hlen.
  apply (triple_fuel _ _ _ _ (length k + length (links_of x l) + length (links_of x r))); [lia|].
  intros fuel Hf. apply triple_pure. intros _ Hn. apply zip_null in Hn as [Hn _].
  eapply (r_at_LeftChild l x r k); [done|]. rewrite (root_null l x Hn).
  destruct l as [|ll b lr]; [apply triple_ret|]. eapply (triple_part _ (links_of x (Node ll b lr))).
  - unfold zip. cbn [links_of root].
    instantiate (1 := (x, mkLinks (parent_of x k) b (root r)) :: links_of x r ++ clinks x k). solve_Permutation.
  - apply (rightmost_correct (Node ll b lr)); [done|lia].
Qed.

Lemma SubtreeSuccessor_zip l x r k :
  triple (zip (Node l x r) k) (RtlSubtreeSuccessor x) (hd NULL (inorder r)) (zip (Node l x r) k).
Proof.
  pose proof (zip_length l x r k) as Hlen.
  apply (triple_fuel _ _ _ _ (length k + length (links_of x l) + length (links_of x r))); [lia|].
  intros fuel Hf. apply triple_pure. intros _ Hn. apply zip_null in Hn as [_ Hn].
  eapply (r_at_RightChild l x r k); [done|]. rewrite (root_null r x Hn).
  destruct r as [|rl b rr]; [apply triple_ret|]. eapply (triple_part _ (links_of x (Node rl b rr))).
  - unfold zip. cbn [links_of root].
    instantiate (1 := (x, mkLinks (parent_of x k) (root l) b) :: links_of x l ++ clinks x k). solve_Permutation.
  - apply (leftmost_correct (Node rl b rr)); [done|lia].
Qed.

(** ** Deletion *)

(** A child that is a single record is given its parent. *)
Lemma r_fix_cell {B} pre X l c (f : unit -> LM B) s post :
  (X, l) ∈ pre -> c <> NULL ->
  triple pre (set_Parent c X ≫= f) s post ->
  (LeftChild l = c -> triple pre (fix_left X ≫= f) s post) /\
  (RightChild l = c -> triple pre (fix_right X ≫= f) s post).
Proof.
  intros Hin Hc Ht. apply Z.eqb_neq in Hc. split; intros He; apply triple_assoc.
  - eapply r_LeftChild; [exact Hin|]. by rewrite He, Hc.
  - eapply r_RightChild; [exact Hin|]. by rewrite He, Hc.
Qed.

(** Giving the node at the end of a path a new parent. *)
Lemma t_reparent_seg z f k p q :
  triple (slinks z (f :: k) p) (set_Parent (top z (f :: k)) q) tt (slinks z (f :: k) q).
Proof.
  revert z f. induction k as [|g k IH]; intros z f.
  - destruct f; apply triple_tail, triple_write0, triple_ret.
  - destruct f as [a r|l a]; cbn [slinks].
    + eapply (triple_perm _ (slinks a (g :: k) p ++ (a, mkLinks (node_of g) z (root r)) :: links_of a r));
        [| |apply triple_frame, IH]; cbn [seg_parent]; solve_Permutation.
    + eapply (triple_perm _ (slinks a (g :: k) p ++ (a, mkLinks (node_of g) (root l) z) :: links_of a l));
        [| |apply triple_frame, IH]; cbn [seg_parent]; solve_Permutation.
Qed.

Lemma top_in z f k p : top z (f :: k) ∈ (slinks z (f :: k) p).*1.
Proof.
  revert z f. induction k as [|g k IH]; intros z f; [destruct f; left|].
  destruct f as [a r|l a]; cbn [slinks top node_of]; cbn [fmap list_fmap]; right; rewrite fmap_app;
    apply elem_of_app; right; exact (IH a g).
Qed.

(** The node above a path is not the node below it. *)
Lemma root_test X l k R : NoDup (((X, l) :: clinks X k ++ R).*1) -> Parent l = parent_of X k ->
  (Parent l =? X) = match k with [] => true | _ => false end.
Proof.
  intros Hnd ->. destruct k as [|f k]; [apply Z.eqb_refl|]. apply Z.eqb_neq. intros E.
  unfold parent_of, clinks in *. cbn in E. destruct f; cbn in E, Hnd; subst;
    apply NoDup_cons in Hnd as [Hnd _]; apply Hnd; left.
Qed.

Lemma top_path x y k : k <> [] -> parent_of x k = parent_of y k /\ forall z, slinks z k (top x k) = clinks z k.
Proof. by destruct k. Qed.

(** Exchanging fields of two records. *)
Lemma r_swap_LeftChild {B} y ly x lx R (f : unit -> LM B) s post :
  triple ((y, mkLinks (Parent ly) (LeftChild lx) (RightChild ly)) ::
          (x, mkLinks (Parent lx) (LeftChild ly) (RightChild lx)) :: R) (f tt) s post ->
  triple ((y, ly) :: (x, lx) :: R) (swap_LeftChild y x ≫= f) s post.
Proof.
  intros Ht. unfold swap_LeftChild. m_assoc. eapply r_LeftChild; [m_elem|].
  m_assoc. eapply r_LeftChild; [m_elem|]. m_assoc. m_write. m_write. exact Ht.
Qed.
Lemma r_swap_RightChild {B} y ly x lx R (f : unit -> LM B) s post :
  triple ((y, mkLinks (Parent ly) (LeftChild ly) (RightChild lx)) ::
          (x, mkLinks (Parent lx) (LeftChild lx) (RightChild ly)) :: R) (f tt) s post ->
  triple ((y, ly) :: (x, lx) :: R) (swap_RightChild y x ≫= f) s post.
Proof.
  intros Ht. unfold swap_RightChild. m_assoc. eapply r_RightChild; [m_elem|].
  m_assoc. eapply r_RightChild; [m_elem|]. m_assoc. m_write. m_write. exact Ht.
Qed.
Lemma t_swap_Parent y ly x lx R :
  triple ((y, ly) :: (x, lx) :: R) (swap_Parent y x) tt
    ((y, mkLinks (Parent lx) (LeftChild ly) (RightChild ly)) ::
     (x, mkLinks (Parent ly) (LeftChild lx) (RightChild lx)) :: R).
Proof.
  unfold swap_Parent. eapply r_Parent; [m_elem|]. eapply r_Parent; [m_elem|]. m_write.
  apply triple_tail. m_write. apply triple_ret.
Qed.

Lemma plug_app t k1 k2 : plug t (k1 ++ k2) = plug (plug t k1) k2.
Proof. revert t; induction k1 as [|[a r|l a] k1 IH]; intros t; cbn; [done|by rewrite IH..]. Qed.

Lemma parent_other x k y : y ∉ x :: (clinks x k).*1 -> (parent_of x k =? y) = false.
Proof.
  intros Hy. apply Z.eqb_neq. intros <-. apply Hy. destruct k as [|f k]; [left|right].
  unfold parent_of, clinks. destruct f; left.
Qed.

Section Swap.
Context (a b r : tree) (x y : Z) (k : list frame).

(** SwapSplayLinks, cases 3 and 4: the first node is the left child of the
    second; first the connection to the path above. *)
Lemma swap_near_parent ly lx : Parent lx = parent_of x k ->
  triple ((y, ly) :: (x, lx) :: clinks x k) (swap_parents_child y x) tt
    ((y, mkLinks (parent_of y k) (LeftChild ly) (RightChild ly)) :: (x, lx) :: clinks y k).
Proof.
  intros Hp. apply triple_pure. intros Hnd Hn. eapply r_IsRoot; [m_elem|].
  rewrite (root_test x lx k []); [|rewrite app_nil_r; cbn in Hnd; by apply NoDup_cons in Hnd as [_ ?]|done].
  destruct k as [|f k'] eqn:Ek; cbn [negb].
  - apply triple_tail, triple_write0, triple_ret.
  - rewrite <- Ek in *. assert (Hk : k <> []) by (by rewrite Ek). clear Ek.
    eapply (r_PCPA _ x lx k (top x k)); [|done|done|].
    { instantiate (1 := [(y, ly)]). unfold clinks. solve_Permutation. }
    eapply (triple_step _ (slinks x k (top x k)) [(y, ly); (x, lx)]);
      [unfold clinks; solve_Permutation|by apply (t_write_child x y)|].
    destruct (top_path x y k Hk) as [Hpar Hs]. rewrite Hs.
    eapply (triple_perm _ ((y, ly) :: (x, lx) :: clinks y k)); [solve_Permutation|reflexivity|].
    eapply r_Parent; [m_elem|]. rewrite Hp, Hpar. apply triple_tail, triple_write0, triple_ret.
Qed.

Lemma swap_near : triple (zip (Node (Node a y b) x r) k) (swap_links y x) tt
  (zip (Node (Node a x b) y r) k).
Proof.
  unfold zip. cbn [links_of root app].
  eapply (triple_perm _ ((y, mkLinks x (root a) (root b)) :: (x, mkLinks (parent_of x k) y (root r)) ::
    links_of y a ++ links_of y b ++ links_of x r ++ clinks x k)); [solve_Permutation|reflexivity|].
  apply triple_pure. intros Hnd Hn.
  assert (Hx : x <> NULL) by m_distinct. assert (Hxy : (x =? y) = false) by (apply Z.eqb_neq; m_distinct).
  unfold swap_links.
  eapply r_Parent; [m_elem|]. cbn [Parent]. rewrite Z.eqb_refl. cbn [negb]. m_assoc.
  eapply (triple_step _ ((y, mkLinks x (root a) (root b)) :: (x, mkLinks (parent_of x k) y (root r)) :: clinks x k)
    (links_of y a ++ links_of y b ++ links_of x r)); [solve_Permutation|by apply swap_near_parent|].
  eapply (triple_perm _ ((y, mkLinks (parent_of y k) (root a) (root b)) :: (x, mkLinks (parent_of x k) y (root r)) ::
    links_of y a ++ links_of y b ++ links_of x r ++ clinks y k)); [solve_Permutation|reflexivity|].
  m_assoc. apply r_swap_LeftChild. m_assoc. apply r_swap_RightChild. cbn [Parent LeftChild RightChild].
  m_assoc. eapply r_LeftChild; [m_elem|]. cbn [LeftChild]. rewrite Z.eqb_refl. m_write.
  eapply (r_fix_cell _ y _ x); [m_elem|done| |reflexivity]. m_write.
  m_fix x r. m_fix y a. apply triple_tail. m_fix y b.
  unfold zip. cbn [links_of root Parent LeftChild RightChild app].
  eapply triple_perm; [|reflexivity|apply triple_ret]; solve_Permutation.
Qed.

(** SwapSplayLinks, cases 1 and 2: the first node is further below. *)
Lemma swap_far_parent ly lx f k1 : Parent lx = parent_of x k -> Parent ly = node_of f ->
  triple ((y, ly) :: (x, lx) :: slinks y (f :: k1) x ++ clinks x k) (swap_parents_apart y x) tt
    ((y, mkLinks (parent_of y k) (LeftChild ly) (RightChild ly)) ::
     (x, mkLinks (node_of f) (LeftChild lx) (RightChild lx)) :: slinks x (f :: k1) x ++ clinks y k).
Proof.
  intros Hpx Hpy. apply triple_pure. intros Hnd Hn. eapply r_IsRoot; [m_elem|].
  rewrite (root_test x lx k (slinks y (f :: k1) x)); [| |done].
  2: { cbn [fmap list_fmap fst] in Hnd |- *. apply NoDup_cons in Hnd as [_ Hnd].
       by rewrite fmap_app, Permutation_app_comm, <- fmap_app in Hnd. }
  assert (PA1 : forall R l0 (g : child_ptr -> LM unit) s post pre, Parent l0 = node_of f ->
    pre ≡ₚ (y, l0) :: slinks y (f :: k1) x ++ R ->
    triple pre (g (child_addr (f :: k1))) s post -> triple pre (ParentsChildPointerAddress y ≫= g) s post).
  { intros R l0 g s post pre Hl Hp Ht. by eapply (r_PCPA _ y l0 (f :: k1) x R). }
  destruct k as [|f0 k'] eqn:Ek; cbn [negb].
  - unfold parent_of, clinks in *. cbn [seg_parent top slinks] in *. rewrite app_nil_r.
    eapply (PA1 [(x, lx)]); [done|solve_Permutation|].
    eapply (triple_step _ (slinks y (f :: k1) x) [(y, ly); (x, lx)]);
      [solve_Permutation|by apply (t_write_child y x)|].
    eapply (triple_perm _ ((y, ly) :: (x, lx) :: slinks x (f :: k1) x)); [solve_Permutation|reflexivity|].
    eapply r_Parent; [m_elem|]. rewrite Hpy. m_write. apply triple_tail. m_write.
    rewrite app_nil_r. apply triple_ret.
  - rewrite <- Ek in *. assert (Hk : k <> []) by (by rewrite Ek). clear Ek.
    eapply (PA1 ((x, lx) :: clinks x k)); [done|solve_Permutation|].
    eapply (r_PCPA _ x lx k (top x k) ((y, ly) :: slinks y (f :: k1) x)); [unfold clinks; solve_Permutation|done|done|].
    eapply (triple_step _ (slinks y (f :: k1) x ++ [(y, ly); (x, lx)]) (clinks x k));
      [solve_Permutation|by apply (t_read_child y)|].
    eapply (triple_step _ (slinks x k (top x k) ++ [(y, ly); (x, lx)]) (slinks y (f :: k1) x));
      [unfold clinks; solve_Permutation|by apply (t_read_child x)|].
    eapply (triple_step _ (slinks y (f :: k1) x) ((y, ly) :: (x, lx) :: clinks x k));
      [unfold clinks; solve_Permutation|by apply (t_write_child y x)|].
    eapply (triple_step _ (slinks x k (top x k)) ((y, ly) :: (x, lx) :: slinks x (f :: k1) x));
      [unfold clinks; solve_Permutation|by apply (t_write_child x y)|].
    destruct (top_path x y k Hk) as [Hpar Hs]. rewrite Hs.
    eapply (triple_perm _ ((y, ly) :: (x, lx) :: slinks x (f :: k1) x ++ clinks y k));
      [solve_Permutation| |apply t_swap_Parent].
    by rewrite Hpx, Hpy, Hpar.
Qed.

Lemma swap_far f k1 : triple (zip (Node (plug (Node a y b) (f :: k1)) x r) k) (swap_links y x) tt
  (zip (Node (plug (Node a x b) (f :: k1)) y r) k).
Proof.
  set (K := f :: k1).
  eapply (triple_perm _ ((y, mkLinks (node_of f) (root a) (root b)) ::
    (x, mkLinks (parent_of x k) (top y K) (root r)) ::
    links_of y a ++ links_of y b ++ slinks y K x ++ links_of x r ++ clinks x k)).
  { unfold zip. cbn [root]. cbn [links_of]. rewrite (links_plug (Node a y b) K x), root_plug.
    cbn [links_of root]. solve_Permutation. }
  { reflexivity. }
  apply triple_pure. intros Hnd Hn.
  assert (Hf : (node_of f =? x) = false).
  { apply Z.eqb_neq. unfold K in Hnd. destruct f; cbn [slinks node_of] in *; m_distinct. }
  assert (Ht : top y K <> NULL).
  { intros E. apply Hn. pose proof (top_in y f k1 x) as Hin. rewrite <- E.
    repeat (progress csimpl || rewrite fmap_app). repeat first [rewrite elem_of_cons | rewrite elem_of_app].
    auto 10. }
  unfold swap_links. eapply r_Parent; [m_elem|]. cbn [Parent]. rewrite Hf. cbn [negb]. m_assoc.
  eapply (triple_step _ ((y, mkLinks (node_of f) (root a) (root b)) ::
    (x, mkLinks (parent_of x k) (top y K) (root r)) :: slinks y K x ++ clinks x k)
    (links_of y a ++ links_of y b ++ links_of x r)); [solve_Permutation|by apply swap_far_parent|].
  cbn [LeftChild RightChild].
  eapply (triple_perm _ ((y, mkLinks (parent_of y k) (root a) (root b)) ::
    (x, mkLinks (node_of f) (top y K) (root r)) ::
    links_of y a ++ links_of y b ++ slinks x K x ++ links_of x r ++ clinks y k)); [solve_Permutation|reflexivity|].
  m_assoc. apply r_swap_LeftChild. apply r_swap_RightChild. cbn [Parent LeftChild RightChild].
  eapply (r_fix_cell _ y _ (top y K)); [m_elem|done| |reflexivity].
  eapply (triple_step _ (slinks x K x)); [|exact (t_reparent_seg x f k1 x y)|].
  { instantiate (1 := (y, mkLinks (parent_of y k) (top y K) (root r)) ::
     (x, mkLinks (node_of f) (root a) (root b)) :: links_of y a ++ links_of y b ++ links_of x r ++ clinks y k).
    solve_Permutation. }
  eapply (triple_perm _ ((y, mkLinks (parent_of y k) (top y K) (root r)) ::
     (x, mkLinks (node_of f) (root a) (root b)) :: links_of y a ++ links_of y b ++ links_of x r ++
     slinks x K y ++ clinks y k)); [solve_Permutation|reflexivity|].
  m_fix x r. m_fix y a. apply triple_tail. m_fix y b.
  eapply triple_perm; [reflexivity| |apply triple_ret].
  unfold zip. cbn [root]. cbn [links_of]. rewrite (links_plug (Node a x b) K y), root_plug.
  cbn [links_of root]. solve_Permutation.
Qed.

Lemma SwapSplayLinks_zip k1 : triple (zip (Node (plug (Node a y b) k1) x r) k) (SwapSplayLinks y x) tt
  (zip (Node (plug (Node a x b) k1) y r) k).
Proof.
  pose proof (eq_sym (plug_app (Node a y b) k1 (CL x r :: k))) as Hpl. cbn [plug] in Hpl.
  assert (Hz : zip (Node (plug (Node a y b) k1) x r) k ≡ₚ zip (Node a y b) (k1 ++ CL x r :: k)).
  { by rewrite !zip_plug, <- Hpl. }
  apply triple_pure. intros Hnd Hn. unfold SwapSplayLinks.
  eapply (r_at_IsRoot a y b); [exact Hz|].
  replace (match k1 ++ CL x r :: k with [] => true | _ => false end) with false by (by destruct k1).
  m_assoc. eapply (r_at_Parent _ x r k); [done|].
  eapply triple_bind; [apply triple_ret|]. rewrite parent_other.
  - destruct k1 as [|f k1]; [apply swap_near|apply swap_far].
  - assert (Hy : y ∈ (links_of x (plug (Node a y b) k1)).*1).
    { rewrite links_keys, inorder_plug. cbn [inorder]. rewrite !elem_of_app, elem_of_cons. tauto. }
    unfold zip in Hnd. cbn [links_of root app fmap list_fmap fst] in Hnd. rewrite !fmap_app in Hnd.
    apply NoDup_cons in Hnd as [Hx Hnd]. apply NoDup_app in Hnd as (_ & Hd & _).
    intros [->|Hin]%elem_of_cons; [apply Hx|apply (Hd y); [|exact Hin]]; rewrite !elem_of_app; tauto.
Qed.
End Swap.

(** The largest node of a tree: the one its predecessor search ends in. *)
Lemma last_path l : l <> Leaf -> exists a y k1, l = plug (Node a y Leaf) k1 /\ after k1 = [] /\
  List.last (inorder l) NULL = y.
Proof.
  induction l as [|ll _ b lr IH]; intros Hl; [done|]. destruct lr as [|rl c rr].
  - exists ll, b, []. cbn. by rewrite last_last.
  - destruct IH as (a & y & k1 & He & Ha & Hy); [done|]. exists a, y, (k1 ++ [CR ll b]).
    rewrite plug_app, <- He. split_and!; [done| |].
    + clear -Ha. induction k1 as [|[] k1 IH]; cbn in *; [done|done|by apply IH].
    + rewrite <- Hy. cbn [inorder]. by rewrite !list_last_app, list_last_cons.
Qed.

(** The tree left at the place of a node with at most one child. *)
Definition join (l r : tree) : tree := match l with Leaf => r | _ => l end.

(** The place of a node with at most one child, connected to the path above:
    what RtlDelete and RtlDeleteNoSplay do after the exchange of nodes, for a
    node that is not the root. *)
Lemma r_only_child {B} l x r k pre (f : Z -> LM B) s post :
  pre ≡ₚ zip (Node l x r) k -> l = Leaf \/ r = Leaf ->
  triple pre (f (root (join l r))) s post -> triple pre (only_child x ≫= f) s post.
Proof.
  intros Hz Hc Ht. apply triple_pure. intros _ Hn. rewrite Hz in Hn. apply zip_null in Hn as [Hl _].
  apply triple_assoc. eapply (r_at_LeftChild l x r k); [done|]. rewrite (root_null l x Hl).
  destruct l as [|ll b lr]; cbn [negb join root] in *.
  - by eapply (r_at_RightChild Leaf x r k).
  - eapply triple_bind; [apply triple_ret|done].
Qed.

Lemma r_no_children {B} l x r k pre (f : bool -> LM B) s post :
  pre ≡ₚ zip (Node l x r) k ->
  triple pre (f (match l, r with Leaf, Leaf => true | _, _ => false end)) s post ->
  triple pre (no_children x ≫= f) s post.
Proof.
  intros Hz Ht. apply triple_pure. intros _ Hn. rewrite Hz in Hn. apply zip_null in Hn as [Hl Hr].
  apply triple_assoc. eapply (r_at_LeftChild l x r k); [done|]. apply triple_assoc. eapply (r_at_RightChild l x r k); [done|].
  rewrite (root_null l x Hl), (root_null r x Hr). eapply triple_bind; [apply triple_ret|].
  by destruct l, r.
Qed.

Lemma r_two_children {B} l x r k pre (f : bool -> LM B) s post :
  pre ≡ₚ zip (Node l x r) k ->
  triple pre (f (match l, r with Node _ _ _, Node _ _ _ => true | _, _ => false end)) s post ->
  triple pre (two_children x ≫= f) s post.
Proof.
  intros Hz Ht. apply triple_pure. intros _ Hn. rewrite Hz in Hn. apply zip_null in Hn as [Hl Hr].
  apply triple_assoc. eapply (r_at_LeftChild l x r k); [done|]. apply triple_assoc. eapply (r_at_RightChild l x r k); [done|].
  rewrite (root_null l x Hl), (root_null r x Hr). eapply triple_bind; [apply triple_ret|].
  by destruct l, r.
Qed.

Lemma join_links l x r : l = Leaf \/ r = Leaf -> links_of x l ++ links_of x r = links_of x (join l r).
Proof. intros [->| ->]; cbn; [done|]. rewrite app_nil_r. by destruct l. Qed.

Lemma zip_join l x r k : l = Leaf \/ r = Leaf -> zip (Node l x r) k =
  (x, mkLinks (parent_of x k) (root l) (root r)) :: links_of x (join l r) ++ clinks x k.
Proof. intros Hc. unfold zip. cbn. by rewrite join_links. Qed.

(** [*(ParentsChildPointerAddress(x)) = c] for a child [c] of x *)
Lemma r_bypass {B} pre pre' x lx c f k (g : unit -> LM B) s post :
  pre ≡ₚ (x, lx) :: links_of x c ++ clinks x (f :: k) -> Parent lx = node_of f ->
  pre' ≡ₚ (x, lx) :: links_of x c ++ clinks (root c) (f :: k) ->
  triple pre' (g tt) s post ->
  triple pre (a ← ParentsChildPointerAddress x; write_child a (root c) ≫= g) s post.
Proof.
  intros Hp Hl Hp' Ht. set (K := f :: k).
  eapply (r_PCPA _ x lx K (top x K) (links_of x c)); [rewrite Hp; unfold clinks; solve_Permutation|done|done|].
  eapply (triple_step _ (slinks x K (top x K)) ((x, lx) :: links_of x c));
    [rewrite Hp; unfold clinks; fold K; solve_Permutation|by apply (t_write_child x (root c))|].
  eapply triple_perm; [|reflexivity|exact Ht]. rewrite Hp'. unfold clinks. fold K.
  change (top (root c) K) with (top x K). solve_Permutation.
Qed.

(** The tree with the child [c] at the end of the path, splayed at the node
    above it. *)
Definition splay_above (c : tree) (k : list frame) : tree :=
  match k with
  | [] => c
  | CL P d :: k => splay_tree c P d k
  | CR d P :: k => splay_tree d P c k
  end.

Lemma splay_above_spec c f k : root (splay_above c (f :: k)) = node_of f /\
  inorder (splay_above c (f :: k)) = before (f :: k) ++ inorder c ++ after (f :: k).
Proof.
  rewrite <- inorder_plug. destruct f as [P d|d P]; cbn [splay_above plug node_of]; apply splay_tree_spec.
Qed.

Lemma t_splay_above x lx c f k pre : pre ≡ₚ (x, lx) :: zip c (f :: k) ->
  triple pre (RtlSplay (node_of f)) (node_of f)
    (links_of (node_of f) (splay_above c (f :: k)) ++ [(x, lx)]).
Proof.
  intros Hp. eapply (triple_perm _ (links_of (root (plug c (f :: k))) (plug c (f :: k)) ++ [(x, lx)]));
    [rewrite Hp, zip_plug; solve_Permutation|reflexivity|]. apply triple_frame.
  destruct f as [P d|d P]; cbn [plug splay_above node_of]; apply RtlSplay_tree.
Qed.

(** [*(ParentsChildPointerAddress(x)) = Child; Child->Parent = x->Parent] *)
Lemma r_connect_child {B} pre x lx c f k (g : unit -> LM B) s post :
  pre ≡ₚ (x, lx) :: links_of x c ++ clinks x (f :: k) -> Parent lx = node_of f -> c <> Leaf ->
  triple ((x, lx) :: zip c (f :: k)) (g tt) s post ->
  triple pre (a ← ParentsChildPointerAddress x; write_child a (root c);;
              p ← RtlParent x; set_Parent (root c) p ≫= g) s post.
Proof.
  intros Hp Hl Hc Ht. eapply (r_bypass _ _ x lx c f k); [exact Hp|done|reflexivity|].
  eapply r_Parent; [m_elem|]. rewrite Hl.
  eapply (triple_step _ (links_of x c) ((x, lx) :: clinks (root c) (f :: k)));
    [solve_Permutation|by apply (t_reparent c x (node_of f))|].
  eapply triple_perm; [|reflexivity|exact Ht]. unfold zip, parent_of. cbn [seg_parent]. solve_Permutation.
Qed.

Lemma has_child l r : join l r <> Leaf -> match l, r with Leaf, Leaf => true | _, _ => false end = false.
Proof. by destruct l, r. Qed.
Lemma has_no_child l r : join l r = Leaf -> l = Leaf /\ r = Leaf.
Proof. by destruct l. Qed.

(** RtlDelete after the exchange of nodes. *)
Lemma unlink_splay l x r k : l = Leaf \/ r = Leaf ->
  triple (zip (Node l x r) k)
   (none ← no_children x;
    if none : bool then
      r ← RtlIsRoot x;
      if r : bool then mret NULL
      else Parent ← RtlParent x; ParentChildPtr ← ParentsChildPointerAddress x;
           write_child ParentChildPtr NULL;; RtlSplay Parent
    else
      Child ← only_child x; r ← RtlIsRoot x;
      if r : bool then set_Parent Child Child;; mret Child
      else ParentChildPtr ← ParentsChildPointerAddress x; write_child ParentChildPtr Child;;
           p ← RtlParent x; set_Parent Child p;; p ← RtlParent Child; RtlSplay p)
   (root (splay_above (join l r) k))
   (links_of (root (splay_above (join l r) k)) (splay_above (join l r) k) ++
    [(x, mkLinks (parent_of x k) (root l) (root r))]).
Proof.
  intros Hc. eapply (r_no_children l x r k); [done|].
  assert (Hz : zip (Node l x r) k ≡ₚ (x, mkLinks (parent_of x k) (root l) (root r)) ::
    links_of x (join l r) ++ clinks x k) by (by rewrite zip_join).
  destruct (join l r) as [|cl b cr] eqn:Ej.
  - destruct (has_no_child l r Ej) as [-> ->].
    eapply (r_at_IsRoot Leaf x Leaf k); [done|]. destruct k as [|f k]; [apply triple_ret|].
    eapply (r_at_Parent Leaf x Leaf (f :: k)); [done|].
    eapply (r_bypass _ _ x _ Leaf f k); [exact Hz|done|reflexivity|].
    rewrite (proj1 (splay_above_spec _ f k)). by apply t_splay_above.
  - rewrite has_child by (by rewrite Ej). eapply (r_only_child l x r k); [done|done|]. rewrite Ej.
    eapply (r_at_IsRoot l x r k); [done|]. destruct k as [|f k].
    + eapply (triple_step _ (links_of x (Node cl b cr))); [rewrite Hz; unfold clinks; cbn [slinks];
        rewrite app_nil_r; apply Permutation_cons_append|by apply t_reparent|]. apply triple_ret.
    + eapply (r_connect_child _ x _ (Node cl b cr) f k); [exact Hz|done|done|].
      eapply r_Parent; [unfold zip; cbn [links_of app]; m_elem|].
      rewrite (proj1 (splay_above_spec _ f k)). by apply t_splay_above.
Qed.

(** The same for RtlDeleteNoSplay: the tree is left as it is. *)
Lemma unlink_plain l x r k Root : l = Leaf \/ r = Leaf -> Root = root (plug (Node l x r) k) ->
  triple (zip (Node l x r) k)
   (none ← no_children x;
    if none : bool then
      r ← RtlIsRoot x;
      if r : bool then mret NULL
      else ParentChildPtr ← ParentsChildPointerAddress x;
           write_child ParentChildPtr NULL;; mret Root
    else
      Child ← only_child x; r ← RtlIsRoot x;
      if r : bool then set_Parent Child Child;; mret Child
      else ParentChildPtr ← ParentsChildPointerAddress x; write_child ParentChildPtr Child;;
           p ← RtlParent x; set_Parent Child p;; mret Root)
   (root (plug (join l r) k))
   (links_of (root (plug (join l r) k)) (plug (join l r) k) ++
    [(x, mkLinks (parent_of x k) (root l) (root r))]).
Proof.
  intros Hc HR. eapply (r_no_children l x r k); [done|].
  assert (Hz : zip (Node l x r) k ≡ₚ (x, mkLinks (parent_of x k) (root l) (root r)) ::
    links_of x (join l r) ++ clinks x k) by (by rewrite zip_join).
  assert (Hfin : forall lx f k', k = f :: k' -> triple ((x, lx) :: zip (join l r) k) (mret Root)
    (root (plug (join l r) k)) (links_of (root (plug (join l r) k)) (plug (join l r) k) ++ [(x, lx)])).
  { intros lx f k' Hk. rewrite root_plug in HR. rewrite (root_plug (join l r) k).
    assert (top (root (join l r)) k = Root) as Ht by (rewrite HR, Hk; done). rewrite Ht.
    eapply triple_perm; [reflexivity| |apply triple_ret]. rewrite zip_plug, root_plug, Ht. solve_Permutation. }
  destruct (join l r) as [|cl b cr] eqn:Ej.
  - destruct (has_no_child l r Ej) as [-> ->].
    eapply (r_at_IsRoot Leaf x Leaf k); [done|]. destruct k as [|f k]; [apply triple_ret|].
    eapply (r_bypass _ _ x _ Leaf f k); [exact Hz|done|reflexivity|]. by eapply Hfin.
  - rewrite has_child by (by rewrite Ej). eapply (r_only_child l x r k); [done|done|]. rewrite Ej.
    eapply (r_at_IsRoot l x r k); [done|]. destruct k as [|f k].
    + eapply (triple_step _ (links_of x (Node cl b cr))); [rewrite Hz; unfold clinks; cbn [slinks];
        rewrite app_nil_r; apply Permutation_cons_append|by apply t_reparent|]. apply triple_ret.
    + eapply (r_connect_child _ x _ (Node cl b cr) f k); [exact Hz|done|done|]. by eapply Hfin.
Qed.

Lemma before_app k1 k2 : before (k1 ++ k2) = before k2 ++ before k1.
Proof.
  induction k1 as [|[a r|l a] k1 IH]; cbn; [by rewrite app_nil_r|done|]. by rewrite IH, <- !app_assoc.
Qed.
Lemma after_app k1 k2 : after (k1 ++ k2) = after k1 ++ after k2.
Proof. induction k1 as [|[a r|l a] k1 IH]; cbn; [done| |done]. by rewrite IH, <- !app_assoc. Qed.

(** Where the node is after the exchange with its predecessor: it has at most
    one child, and without it the order is that of the other nodes. *)
Definition movable (l : tree) (x : Z) (r : tree) (k : list frame) (l' r' : tree) (k' : list frame) : Prop :=
  (l' = Leaf \/ r' = Leaf) /\
  inorder (plug (join l' r') k') = before k ++ inorder l ++ inorder r ++ after k.

Definition has_two (l r : tree) : bool :=
  match l, r with Node _ _ _, Node _ _ _ => true | _, _ => false end.

Lemma exchange l x r k : exists l' r' k', movable l x r k l' r' k' /\
  (has_two l r = false -> zip (Node l x r) k = zip (Node l' x r') k' /\ plug (Node l x r) k = plug (Node l' x r') k') /\
  (has_two l r = true ->
    root (plug (Node l' x r') k') = (match k with [] => List.last (inorder l) NULL | _ => root (plug (Node l x r) k) end) /\
    triple (zip (Node l x r) k) (SwapSplayLinks (List.last (inorder l) NULL) x) tt (zip (Node l' x r') k')).
Proof.
  destruct (has_two l r) eqn:E2.
  - destruct (last_path l) as (a & y & k1 & Hl & Ha & Hy); [by destruct l|].
    exists a, Leaf, (k1 ++ CL y r :: k). split; [split; [by right|]|split; [done|]].
    + rewrite inorder_plug, before_app, after_app, Ha, Hl, inorder_plug, Ha.
      cbn [before after inorder app]. rewrite <- !app_assoc. by destruct a; cbn; rewrite <- ?app_assoc.
    + intros _. rewrite Hy. split.
      * rewrite plug_app. cbn [plug]. rewrite !root_plug. by destruct k.
      * eapply triple_perm; [reflexivity| |rewrite Hl; apply (SwapSplayLinks_zip a Leaf r x y k k1)].
        rewrite !zip_plug. by rewrite plug_app.
  - exists l, r, k. split; [split|split; [done|done]].
    + destruct l; [by left|]. destruct r; [by right|done].
    + rewrite inorder_plug. destruct l; [done|]. destruct r; [|done]. by cbn.
Qed.

Lemma RtlDelete_zip l x r k : exists t' junk, inorder t' = before k ++ inorder l ++ inorder r ++ after k /\
  triple (zip (Node l x r) k) (RtlDelete x) (root t') (links_of (root t') t' ++ junk).
Proof.
  destruct (exchange l x r k) as (l' & r' & k' & [Hc Hi] & H1 & H2).
  exists (splay_above (join l' r') k'); eexists. split.
  - rewrite <- Hi, inorder_plug. destruct k' as [|f k']; [by rewrite app_nil_r|].
    apply splay_above_spec.
  - unfold RtlDelete. eapply (r_two_children l x r k); [done|]. fold (has_two l r).
    destruct (has_two l r).
    + apply triple_assoc. eapply triple_bind; [apply SubtreePredecessor_zip|].
      eapply triple_bind; [exact (proj2 (H2 eq_refl))|]. by apply unlink_splay.
    + eapply triple_bind; [apply triple_ret|]. rewrite (proj1 (H1 eq_refl)). by apply unlink_splay.
Qed.

Lemma RtlDeleteNoSplay_zip l x r k : exists t' junk, inorder t' = before k ++ inorder l ++ inorder r ++ after k /\
  triple (zip (Node l x r) k) (RtlDeleteNoSplay x (root (plug (Node l x r) k))) (root t')
    (links_of (root t') t' ++ junk).
Proof.
  destruct (exchange l x r k) as (l' & r' & k' & [Hc Hi] & H1 & H2).
  exists (plug (join l' r') k'); eexists. split; [done|].
  unfold RtlDeleteNoSplay. eapply (r_two_children l x r k); [done|]. fold (has_two l r).
  destruct (has_two l r).
  - destruct (H2 eq_refl) as [HR Hs].
    apply triple_assoc. eapply triple_bind; [apply SubtreePredecessor_zip|].
    apply triple_assoc. eapply (r_at_IsRoot l x r k); [done|].
    apply triple_assoc. eapply triple_bind; [exact Hs|]. eapply triple_bind; [apply triple_ret|].
    apply unlink_plain; [done|]. rewrite HR. by destruct k.
  - eapply triple_bind; [apply triple_ret|]. destruct (H1 eq_refl) as [-> ->]. by apply unlink_plain.
Qed.

(** ** The routines on a tree in memory *)

Lemma tree_in_nodup h t : tree_in h t -> NoDup (inorder t).
Proof. intros Ho. rewrite <- (links_keys (root t) t). apply Ho. Qed.

(** The position of a node in the order is its position in the tree. *)
Lemma locate h t u x v : tree_in h t -> inorder t = u ++ x :: v ->
  exists l r k, t = plug (Node l x r) k /\ u = before k ++ inorder l /\ v = inorder r ++ after k.
Proof.
  intros Hin Hi. pose proof (tree_in_nodup h t Hin) as Hnd.
  destruct (find_path x t) as (l & r & k & ->).
  { rewrite Hi. apply elem_of_app. right. left. }
  exists l, r, k. split; [done|]. rewrite inorder_plug in Hi, Hnd. cbn [inorder] in Hi, Hnd.
  rewrite <- app_assoc, app_assoc in Hi, Hnd. rewrite <- app_comm_cons in Hi, Hnd.
  by destruct (NoDup_split _ _ _ _ _ Hnd Hi) as [-> ->].
Qed.

Lemma triple_whole {A} h t (m : LM A) s t' junk l x r k : t = plug (Node l x r) k ->
  triple (zip (Node l x r) k) m s (links_of (root t') t' ++ junk) -> tree_in h t ->
  exists h', m h = Some (s, h') /\ tree_in h' t' /\ forall a, a ∉ inorder t -> h' !! a = h !! a.
Proof.
  intros -> Ht Hin. eapply (tree_triple h _ m s t' junk); [|done].
  eapply triple_perm; [|reflexivity|exact Ht]. by rewrite zip_plug.
Qed.

(** C15: RtlDelete ends without a fault for every node of a tree (root, leaf or
    inner node, with one child or two), returns the root of the remaining tree,
    NULL when it is empty, whose order is the old order without the node and
    whose pointers are consistent; no record outside the tree is written. *)
Theorem RtlDelete_correct h t u Links v :
  tree_in h t -> inorder t = u ++ Links :: v ->
  exists t' h', RtlDelete Links h = Some (root t', h') /\ tree_in h' t' /\ inorder t' = u ++ v /\
    forall a, a ∉ inorder t -> h' !! a = h !! a.
Proof.
  intros Hin Hi. destruct (locate h t u Links v Hin Hi) as (l & r & k & Ht & -> & ->).
  destruct (RtlDelete_zip l Links r k) as (t' & junk & Ho & Htr).
  destruct (triple_whole h t (RtlDelete Links) (root t') t' junk l Links r k) as (h' & Hm & Hin' & Hf); [done..|].
  exists t', h'. split_and!; [done..| |done]. by rewrite Ho, <- !app_assoc.
Qed.

(** RtlDeleteNoSplay, given the root of the tree, has the same effect on the
    order and leaves in the caller's root pointer the root of the remaining
    tree, also when the node removed was the root. *)
Theorem RtlDeleteNoSplay_correct h t u Links v :
  tree_in h t -> inorder t = u ++ Links :: v ->
  exists t' h', RtlDeleteNoSplay Links (root t) h = Some (root t', h') /\ tree_in h' t' /\
    inorder t' = u ++ v /\ forall a, a ∉ inorder t -> h' !! a = h !! a.
Proof.
  intros Hin Hi. destruct (locate h t u Links v Hin Hi) as (l & r & k & Ht & -> & ->).
  destruct (RtlDeleteNoSplay_zip l Links r k) as (t' & junk & Ho & Htr). rewrite <- Ht in Htr.
  destruct (triple_whole h t (RtlDeleteNoSplay Links (root t)) (root t') t' junk l Links r k)
    as (h' & Hm & Hin' & Hf); [done..|].
  exists t', h'. split_and!; [done..| |done]. by rewrite Ho, <- !app_assoc.
Qed.

(** RtlRealSuccessor and RtlRealPredecessor return the neighbours of the node
    in the order of the tree, NULL at its ends, and change nothing. *)
Theorem RtlReal_neighbours h t u Links v :
  tree_in h t -> inorder t = u ++ Links :: v ->
  RtlRealSuccessor Links h = Some (hd NULL v, h) /\
  RtlRealPredecessor Links h = Some (List.last u NULL, h).
Proof.
  intros Hin Hi. destruct (locate h t u Links v Hin Hi) as (l & r & k & Ht & -> & ->).
  assert (Ho : owns (zip (Node l Links r) k) h) by (rewrite zip_plug, <- Ht; exact Hin). split.
  - exact (triple_read _ _ _ h (RealSuccessor_zip l Links r k) Ho).
  - exact (triple_read _ _ _ h (RealPredecessor_zip l Links r k) Ho).
Qed.

(** The subtree variants look below the node only. *)
Theorem RtlSubtree_neighbours h l Links r k : tree_in h (plug (Node l Links r) k) ->
  RtlSubtreeSuccessor Links h = Some (hd NULL (inorder r), h) /\
  RtlSubtreePredecessor Links h = Some (List.last (inorder l) NULL, h).
Proof.
  intros Hin. assert (Ho : owns (zip (Node l Links r) k) h) by (rewrite zip_plug; exact Hin). split.
  - exact (triple_read _ _ _ h (SubtreeSuccessor_zip l Links r k) Ho).
  - exact (triple_read _ _ _ h (SubtreePredecessor_zip l Links r k) Ho).
Qed.

(** ** Insertion of a new node *)

Lemma t_InitializeSplayLinks x l :
  triple [(x, l)] (RtlInitializeSplayLinks x) tt [(x, mkLinks x NULL NULL)].
Proof.
  unfold RtlInitializeSplayLinks. m_write. m_write. apply triple_tail. m_write. apply triple_ret.
Qed.

Lemma t_InsertAsLeftChild x l P r k :
  triple ((x, mkLinks l NULL NULL) :: zip (Node Leaf P r) k) (RtlInsertAsLeftChild P x) tt
    (zip (Node Leaf x Leaf) (CL P r :: k)).
Proof.
  eapply (triple_perm _ ((x, mkLinks l NULL NULL) :: (P, mkLinks (parent_of P k) NULL (root r)) ::
    links_of P r ++ clinks P k)); [done|reflexivity|].
  unfold RtlInsertAsLeftChild. m_write. apply triple_tail. m_write. apply triple_ret.
Qed.

Lemma t_InsertAsRightChild x l P r k :
  triple ((x, mkLinks l NULL NULL) :: zip (Node r P Leaf) k) (RtlInsertAsRightChild P x) tt
    (zip (Node Leaf x Leaf) (CR r P :: k)).
Proof.
  eapply (triple_perm _ ((x, mkLinks l NULL NULL) :: (P, mkLinks (parent_of P k) (root r) NULL) ::
    links_of P r ++ clinks P k)); [unfold zip; cbn [links_of root]; by rewrite app_nil_r|reflexivity|].
  unfold RtlInsertAsRightChild. m_write. apply triple_tail. m_write. apply triple_ret.
Qed.

(** *** A tree in memory, for examples *)

Definition memory_of (t : tree) : heap RTL_SPLAY_LINKS := list_to_map (links_of (root t) t).

Definition ex_tree : tree :=
  Node (Node (Node Leaf 10 Leaf) 20 (Node (Node Leaf 25 Leaf) 30 Leaf)) 40 (Node Leaf 50 (Node Leaf 60 Leaf)).

Lemma ex_tree_in : tree_in (memory_of ex_tree) ex_tree.
Proof. apply owns_list; apply (bool_decide_eq_true_1 _); vm_compute; reflexivity. Qed.

Lemma RtlSplay_correct_witness : exists h', RtlSplay 25 (memory_of ex_tree) = Some (25, h') /\
  tree_in h' (Node (Node (Node Leaf 10 Leaf) 20 Leaf) 25 (Node (Node Leaf 30 Leaf) 40 (Node Leaf 50 (Node Leaf 60 Leaf)))).
Proof.
  destruct (RtlSplay_correct (memory_of ex_tree) Leaf 25 Leaf
    [CL 30 Leaf; CR (Node Leaf 10 Leaf) 20; CL 40 (Node Leaf 50 (Node Leaf 60 Leaf))] ex_tree_in)
    as (h' & H1 & H2 & _).
  exists h'. split; [exact H1|exact H2].
Defined.

Lemma RtlDelete_correct_witness : exists t' h', RtlDelete 40 (memory_of ex_tree) = Some (root t', h') /\
  tree_in h' t' /\ inorder t' = [10; 20; 25; 30; 50; 60].
Proof.
  destruct (RtlDelete_correct (memory_of ex_tree) ex_tree [10; 20; 25; 30] 40 [50; 60] ex_tree_in eq_refl)
    as (t' & h' & H1 & H2 & H3 & _).
  exists t', h'. split; [exact H1|]. split; [exact H2|exact H3].
Defined.

Lemma RtlDeleteNoSplay_correct_witness : exists t' h',
  RtlDeleteNoSplay 40 40 (memory_of ex_tree) = Some (root t', h') /\
  tree_in h' t' /\ inorder t' = [10; 20; 25; 30; 50; 60].
Proof.
  destruct (RtlDeleteNoSplay_correct (memory_of ex_tree) ex_tree [10; 20; 25; 30] 40 [50; 60] ex_tree_in eq_refl)
    as (t' & h' & H1 & H2 & H3 & _).
  exists t', h'. split; [exact H1|]. split; [exact H2|exact H3].
Defined.

Lemma RtlReal_neighbours_witness :
  RtlRealSuccessor 30 (memory_of ex_tree) = Some (40, memory_of ex_tree) /\
  RtlRealPredecessor 50 (memory_of ex_tree) = Some (40, memory_of ex_tree).
Proof.
  destruct (RtlReal_neighbours (memory_of ex_tree) ex_tree [10; 20; 25] 30 [40; 50; 60] ex_tree_in eq_refl) as [H _].
  destruct (RtlReal_neighbours (memory_of ex_tree) ex_tree [10; 20; 25; 30; 40] 50 [60] ex_tree_in eq_refl) as [_ H'].
  split; [exact H|exact H'].
Defined.

(** RtlDelete run on the example: the order and the root of what is left. *)
Example delete_root : (fst <$> RtlDelete 40 (memory_of ex_tree)) = Some 20.
Proof. vm_compute. reflexivity. Qed.

End SplayOps.
