(* ===== verification/RtlList.v ===== *)
(** * Doubly linked lists (sdk/inc/ntrtl.h)

    The list routines all of the kernel uses: a LIST_ENTRY points to its
    neighbours, the head is an entry itself and the list is a ring through it.
    [ring hd o] are the records of the list with head [hd] and entries [o]; each
    routine is shown to have its effect on [o] alone, whether its neighbours are
    entries or the head. *)

From S2P Require Import Prelude RtlHeap.
From stdpp Require Import gmap list_tactics.
#[local] Open Scope Z_scope.

Module DList.

Record LIST_ENTRY := mkEntry { Flink : Z; Blink : Z }.
Abbreviation EM := (M LIST_ENTRY).

Definition get_Flink (X : Z) : EM Z := e ← load X; mret (Flink e).
Definition get_Blink (X : Z) : EM Z := e ← load X; mret (Blink e).
Definition set_Flink (X v : Z) : EM unit := modify X (fun e => mkEntry v (Blink e)).
Definition set_Blink (X v : Z) : EM unit := modify X (fun e => mkEntry (Flink e) v).

Definition InitializeListHead (ListHead : Z) : EM unit :=
  set_Blink ListHead ListHead;; set_Flink ListHead ListHead.
Definition IsListEmpty (ListHead : Z) : EM bool :=
  f ← get_Flink ListHead; mret (f =? ListHead).

Definition RemoveEntryList (Entry : Z) : EM bool :=
  Flink ← get_Flink Entry; Blink ← get_Blink Entry;
  set_Flink Blink Flink;; set_Blink Flink Blink;; mret (Flink =? Blink).
Definition RemoveHeadList (ListHead : Z) : EM Z :=
  Entry ← get_Flink ListHead; Flink ← get_Flink Entry;
  set_Flink ListHead Flink;; set_Blink Flink ListHead;; mret Entry.
Definition RemoveTailList (ListHead : Z) : EM Z :=
  Entry ← get_Blink ListHead; Blink ← get_Blink Entry;
  set_Blink ListHead Blink;; set_Flink Blink ListHead;; mret Entry.
Definition InsertTailList (ListHead Entry : Z) : EM unit :=
  Blink ← get_Blink ListHead;
  set_Flink Entry ListHead;; set_Blink Entry Blink;;
  set_Flink Blink Entry;; set_Blink ListHead Entry.
Definition InsertHeadList (ListHead Entry : Z) : EM unit :=
  Flink ← get_Flink ListHead;
  set_Flink Entry Flink;; set_Blink Entry ListHead;;
  set_Blink Flink Entry;; set_Flink ListHead Entry.

(** ** Lists in memory *)

(** The records of the entries [o] between the entries [p] and [n]. *)
Fixpoint dseg (p : Z) (o : list Z) (n : Z) : list (Z * LIST_ENTRY) :=
  match o with [] => [] | a :: o => (a, mkEntry (hd n o) p) :: dseg a o n end.

Definition ring (hd0 : Z) (o : list Z) : list (Z * LIST_ENTRY) :=
  (hd0, mkEntry (hd hd0 o) (List.last o hd0)) :: dseg hd0 o hd0.

(** The memory holds the list. *)
Definition list_in (h : heap LIST_ENTRY) (hd0 : Z) (o : list Z) : Prop := owns (ring hd0 o) h.

Lemma last_any (a : Z) o n m : List.last (a :: o) n = List.last (a :: o) m.
Proof. revert a; induction o as [|b o IH]; intros a; [done|exact (IH b)]. Qed.

Lemma dseg_app p o1 o2 n : dseg p (o1 ++ o2) n = dseg p o1 (hd n o2) ++ dseg (List.last o1 p) o2 n.
Proof.
  revert p; induction o1 as [|a o1 IH]; intros p; [done|]. cbn [app dseg]. rewrite IH.
  f_equal; [by destruct o1|]. f_equal. destruct o1 as [|b o1]; [done|]. by rewrite (last_any b o1 a p).
Qed.

Lemma dseg_snoc p o z n : dseg p (o ++ [z]) n = dseg p o z ++ [(z, mkEntry n (List.last o p))].
Proof. by rewrite dseg_app. Qed.

Lemma dseg_keys p o n : (dseg p o n).*1 = o.
Proof. revert p; induction o as [|a o IH]; intros p; cbn; [done|by rewrite IH]. Qed.
Lemma ring_keys h0 o : (ring h0 o).*1 = h0 :: o.
Proof. cbn. by rewrite dseg_keys. Qed.

Lemma hd_snoc (o : list Z) z n m : hd n (o ++ [z]) = hd m (o ++ [z]).
Proof. by destruct o. Qed.
Lemma hd_app_cons (o1 o2 : list Z) a n : hd n (o1 ++ a :: o2) = hd a o1.
Proof. by destruct o1. Qed.

Section Rules.
Context {B : Type}.
Implicit Types (pre post : list (Z * LIST_ENTRY)) (s : B).
Lemma r_Flink pre X e (k : Z -> EM B) s post :
  (X, e) ∈ pre -> triple pre (k (Flink e)) s post -> triple pre (get_Flink X ≫= k) s post.
Proof. intros Hin Ht. apply triple_assoc. by eapply triple_load. Qed.
Lemma r_Blink pre X e (k : Z -> EM B) s post :
  (X, e) ∈ pre -> triple pre (k (Blink e)) s post -> triple pre (get_Blink X ≫= k) s post.
Proof. intros Hin Ht. apply triple_assoc. by eapply triple_load. Qed.
End Rules.

Ltac l_read := first [eapply r_Flink; [m_elem|] | eapply r_Blink; [m_elem|]]; cbn [Flink Blink].
Ltac l_done := cbn [Flink Blink]; eapply triple_perm; [|reflexivity|apply triple_ret]; solve_Permutation.

Lemma t_InitializeListHead h0 e : triple [(h0, e)] (InitializeListHead h0) tt (ring h0 []).
Proof. unfold InitializeListHead. m_write. apply triple_tail. m_write. apply triple_ret. Qed.

Lemma t_IsListEmpty h0 o : triple (ring h0 o) (IsListEmpty h0) (match o with [] => true | _ => false end) (ring h0 o).
Proof.
  apply triple_pure. intros Hnd _. unfold IsListEmpty, ring. l_read.
  assert ((hd h0 o =? h0) = match o with [] => true | _ => false end) as ->; [|apply triple_ret].
  rewrite ring_keys in Hnd. destruct o as [|a o]; [apply Z.eqb_refl|]. apply Z.eqb_neq. cbn. intros ->.
  apply NoDup_cons in Hnd as [Hn _]. apply Hn. left.
Qed.

(** InsertTailList and InsertHeadList add the entry at the end and at the front. *)
Lemma t_InsertTailList h0 o e v :
  triple ((e, v) :: ring h0 o) (InsertTailList h0 e) tt (ring h0 (o ++ [e])).
Proof.
  unfold InsertTailList, ring. destruct o as [|z o _] using rev_ind.
  - cbn. l_read. m_write. m_write. m_write. apply triple_tail. m_write. l_done.
  - rewrite !dseg_snoc, !last_last.
    eapply (triple_perm _ ((e, v) :: (h0, mkEntry (hd h0 (o ++ [z])) z) :: (z, mkEntry h0 (List.last o h0)) ::
      dseg h0 o z)); [solve_Permutation|reflexivity|].
    l_read. m_write. m_write. m_write. apply triple_tail. m_write.
    rewrite (hd_app_cons (o ++ [z]) [] e h0), (hd_snoc o z h0 e). l_done.
Qed.

Lemma t_InsertHeadList h0 o e v :
  triple ((e, v) :: ring h0 o) (InsertHeadList h0 e) tt (ring h0 (e :: o)).
Proof.
  unfold InsertHeadList, ring. destruct o as [|a o].
  - cbn. l_read. m_write. m_write. m_write. apply triple_tail. m_write. l_done.
  - cbn [hd dseg]. l_read. m_write. m_write. m_write. apply triple_tail. m_write.
    change (List.last (e :: a :: o) h0) with (List.last (a :: o) h0). l_done.
Qed.

(** RemoveEntryList takes the entry out, wherever it is, and says whether the
    list is empty now. *)
Lemma t_RemoveEntryList h0 o1 a o2 :
  triple (ring h0 (o1 ++ a :: o2)) (RemoveEntryList a) (match o1 ++ o2 with [] => true | _ => false end)
    (ring h0 (o1 ++ o2) ++ [(a, mkEntry (hd h0 o2) (List.last o1 h0))]).
Proof.
  apply triple_pure. rewrite ring_keys. intros Hnd _.
  assert (Hd : forall p n, p ∈ h0 :: o1 -> n ∈ o2 -> (n =? p) = false).
  { intros p n Hp Hn. apply Z.eqb_neq. intros ->. rewrite app_comm_cons in Hnd.
    apply NoDup_app in Hnd as (_ & Hx & _). apply (Hx p Hp). by right. }
  assert (Hd' : forall p, p ∈ o1 -> (h0 =? p) = false).
  { intros p Hp. apply Z.eqb_neq. intros ->. apply NoDup_cons in Hnd as [Hx _]. apply Hx, elem_of_app. by left. }
  unfold RemoveEntryList. destruct o1 as [|p o1 _] using rev_ind; destruct o2 as [|n o2]; unfold ring.
  - cbn. l_read. l_read. m_write. m_write. rewrite Z.eqb_refl. l_done.
  - cbn [app hd dseg List.last]. l_read. l_read. m_write. m_write. rewrite Hd by left. cbn [List.last]. l_done.
  - rewrite app_nil_r. rewrite dseg_app. cbn [dseg hd]. rewrite !dseg_snoc, !last_last.
    rewrite (hd_app_cons (o1 ++ [p]) [] a h0), (hd_snoc o1 p a h0).
    eapply (triple_perm _ ((h0, mkEntry (hd h0 (o1 ++ [p])) a) :: (a, mkEntry h0 p) ::
      (p, mkEntry a (List.last o1 h0)) :: dseg h0 o1 p)); [solve_Permutation|reflexivity|].
    l_read. l_read. m_write. m_write. rewrite Hd' by (apply elem_of_app; right; left).
    destruct (o1 ++ [p]) eqn:E; [by destruct o1|]. rewrite <- E. l_done.
  - rewrite (dseg_app h0 (o1 ++ [p]) (a :: n :: o2)), (dseg_app h0 (o1 ++ [p]) (n :: o2)). cbn [dseg hd]. rewrite !dseg_snoc, !last_last, !hd_app_cons, !list_last_app.
    cbn [List.last].
    eapply (triple_perm _ ((h0, mkEntry (hd p o1) (List.last (n :: o2) h0)) :: (a, mkEntry n p) ::
      (p, mkEntry a (List.last o1 h0)) :: (n, mkEntry (hd h0 o2) a) :: dseg h0 o1 p ++ dseg n o2 h0));
      [cbn [List.last]; solve_Permutation|reflexivity|].
    l_read. l_read. m_write. m_write. rewrite Hd; [|rewrite app_comm_cons; apply elem_of_app; right; left|left].
    destruct ((o1 ++ [p]) ++ n :: o2) eqn:E; [by destruct o1|]. clear E. cbn [List.last]. l_done.
Qed.

(** Walking along the list: the neighbours of the entry at position [i] of the
    ring, the head being at position 0. *)
Lemma dseg_lookup p o n i a : o !! i = Some a ->
  (a, mkEntry (default n (o !! S i)) (default p (match i with O => None | S j => o !! j end))) ∈ dseg p o n.
Proof.
  revert p i; induction o as [|b o IH]; intros p [|i] Hi; simplify_eq/=; [|right].
  - destruct o; left.
  - specialize (IH b i Hi). destruct i as [|i]; [exact IH|]. cbn in IH |- *.
    destruct (o !! i) eqn:E; [exact IH|]. apply lookup_ge_None in E. apply lookup_lt_Some in Hi. lia.
Qed.

Lemma ring_flink h0 o i a : (h0 :: o) !! i = Some a ->
  exists b, (a, mkEntry (default h0 ((h0 :: o) !! S i)) b) ∈ ring h0 o.
Proof.
  destruct i as [|i]; cbn; intros Hi; simplify_eq.
  - eexists. replace (default a (o !! 0%nat)) with (hd a o) by (by destruct o). left.
  - eexists. right. by apply dseg_lookup.
Qed.
Lemma ring_blink h0 o i a : (h0 :: o) !! S i = Some a ->
  exists b f, (h0 :: o) !! i = Some b /\ (a, mkEntry f b) ∈ ring h0 o.
Proof.
  cbn [lookup list_lookup]. intros Hi. pose proof (dseg_lookup h0 o h0 i a Hi) as Hin.
  destruct i as [|i]; cbn in Hin |- *; [eexists _, _; split; [done|]; right; exact Hin|].
  destruct (o !! i) as [b|] eqn:E; [eexists b, _; split; [done|]; right; exact Hin|].
  apply lookup_ge_None in E. apply lookup_lt_Some in Hi. lia.
Qed.
Lemma ring_blink_head h0 o : exists b f, (h0 :: o) !! length o = Some b /\ (h0, mkEntry f b) ∈ ring h0 o.
Proof.
  exists (List.last o h0), (hd h0 o). split; [|left].
  destruct o as [|z o _] using rev_ind; [done|]. rewrite last_last, length_app, Nat.add_1_r.
  change ((o ++ [z]) !! length o = Some z). by apply list_lookup_middle.
Qed.

(** RemoveHeadList and RemoveTailList: the entries at the ends. *)
Lemma t_RemoveHeadList h0 a o :
  triple (ring h0 (a :: o)) (RemoveHeadList h0) a (ring h0 o ++ [(a, mkEntry (hd h0 o) h0)]).
Proof.
  unfold RemoveHeadList, ring. destruct o as [|n o].
  - cbn. l_read. l_read. m_write. m_write. l_done.
  - cbn [hd dseg]. l_read. l_read. m_write. m_write. cbn [List.last]. l_done.
Qed.
Lemma t_RemoveTailList h0 o a :
  triple (ring h0 (o ++ [a])) (RemoveTailList h0) a (ring h0 o ++ [(a, mkEntry h0 (List.last o h0))]).
Proof.
  unfold RemoveTailList, ring. rewrite dseg_snoc, !last_last. destruct o as [|p o _] using rev_ind.
  - cbn. l_read. l_read. m_write. m_write. l_done.
  - rewrite !dseg_snoc, !last_last, (hd_app_cons (o ++ [p]) [] a h0), (hd_snoc o p a h0).
    eapply (triple_perm _ ((h0, mkEntry (hd h0 (o ++ [p])) a) :: (a, mkEntry h0 p) ::
      (p, mkEntry a (List.last o h0)) :: dseg h0 o p)); [solve_Permutation|reflexivity|].
    l_read. l_read. m_write. m_write. l_done.
Qed.

Lemma ring_triple {A} h h0 o o' (m : EM A) s junk :
  triple (ring h0 o) m s (ring h0 o' ++ junk) -> list_in h h0 o ->
  exists h', m h = Some (s, h') /\ list_in h' h0 o' /\ forall a, a ∉ h0 :: o -> h' !! a = h !! a.
Proof.
  intros Ht Hin. destruct (Ht h Hin) as (h' & Hm & Ho & _ & Hf). exists h'.
  split; [done|]. split; [by eapply owns_app_l|]. intros a Ha. apply Hf. by rewrite ring_keys.
Qed.

(** InsertTailList and RemoveHeadList make a list a first-in, first-out
    queue: what is put in at the tail comes out at the head in the same order,
    InsertHeadList and RemoveTailList likewise from the other side, each leaving
    all records outside the list alone. *)
Theorem list_queue h h0 o e v :
  list_in h h0 o -> e ∉ h0 :: o -> e <> NULL -> h !! e = Some v ->
  (exists h', InsertTailList h0 e h = Some (tt, h') /\ list_in h' h0 (o ++ [e]) /\
    (forall a, a ∉ h0 :: e :: o -> h' !! a = h !! a) /\
    exists h2, RemoveHeadList h0 h' = Some (hd e o, h2) /\ list_in h2 h0 (tail (o ++ [e]))) /\
  (exists h', InsertHeadList h0 e h = Some (tt, h') /\ list_in h' h0 (e :: o) /\
    (forall a, a ∉ h0 :: e :: o -> h' !! a = h !! a) /\
    exists h2, RemoveTailList h0 h' = Some (List.last o e, h2) /\ list_in h2 h0 (removelast (e :: o))).
Proof.
  intros Hin He Hn Hv.
  assert (Ho : owns ((e, v) :: ring h0 o) h).
  { destruct Hin as [H1 H2 H3]. split.
    - cbn [fmap list_fmap fst]. apply NoDup_cons. by rewrite ring_keys in *.
    - cbn [fmap list_fmap fst]. rewrite ring_keys in *. intros [E|E]%elem_of_cons; by subst.
    - intros a w [E|E]%elem_of_cons; [by simplify_eq|by apply H3]. }
  split.
  - destruct (t_InsertTailList h0 o e v h Ho) as (h' & Hm & Ho' & _ & Hf). exists h'.
    split; [done|]. split; [done|]. split.
    { intros a Ha. apply Hf. cbn [fmap list_fmap fst]. rewrite ring_keys. set_solver. }
    destruct (ring_triple h' h0 (o ++ [e]) (tail (o ++ [e])) (RemoveHeadList h0) (hd e o)
      [(hd e o, mkEntry (hd h0 (tail (o ++ [e]))) h0)]) as (h2 & H2 & H3 & _); [|done|by exists h2].
    destruct o as [|a o]; cbn [app hd tail]; apply t_RemoveHeadList.
  - destruct (t_InsertHeadList h0 o e v h Ho) as (h' & Hm & Ho' & _ & Hf). exists h'.
    split; [done|]. split; [done|]. split.
    { intros a Ha. apply Hf. cbn [fmap list_fmap fst]. rewrite ring_keys. set_solver. }
    destruct (ring_triple h' h0 (e :: o) (removelast (e :: o)) (RemoveTailList h0) (List.last o e)
      [(List.last o e, mkEntry h0 (List.last (removelast (e :: o)) h0))]) as (h2 & H2 & H3 & _);
      [|done|by exists h2].
    destruct o as [|z o _] using rev_ind; [apply (t_RemoveTailList h0 [] e)|].
    rewrite last_last, app_comm_cons, removelast_last. apply t_RemoveTailList.
Qed.
Lemma list_queue_witness : exists h',
  InsertTailList 100 3 (<[3 := mkEntry 0 0]> (list_to_map (ring 100 [1; 2]))) = Some (tt, h') /\
  list_in h' 100 [1; 2; 3].
Proof.
  destruct (list_queue (<[3 := mkEntry 0 0]> (list_to_map (ring 100 [1; 2]))) 100 [1; 2] 3 (mkEntry 0 0))
    as [(h' & H1 & H2 & _) _].
  - split; [apply (bool_decide_eq_true_1 _); vm_compute; reflexivity..|].
    intros a w Hin. repeat (apply elem_of_cons in Hin as [E|Hin]; [simplify_eq; reflexivity|]).
    by apply not_elem_of_nil in Hin.
  - apply (bool_decide_eq_true_1 _). vm_compute. reflexivity.
  - discriminate.
  - reflexivity.
  - exists h'. split; [exact H1|exact H2].
Defined.
End DList.
