(* ===== verification/RtlGenTable.v ===== *)
(** * Generic tables (rtl/gentable.c)

    A generic table keeps the elements of a user in a splay tree, ordered by the
    user's compare routine, and in a list, in the order of insertion.  Module
    [GenTable] translates every routine of src/ntoskrnl/rtl/gentable.c over the
    routines of [RtlSplay] and [RtlList].

    A node of the table is a TABLE_ENTRY_HEADER: splay links, list entry, user
    data.  The memory ([mem]) keeps the three kinds of record apart; a node is
    the address of its links, [ListEntryOf] and [UserDataOf] are the addresses of
    its other fields on x86.  The compare, allocate and free routines are
    parameters; what a table relies on are the classes [CompareOrder] ("must
    impose a complete ordering among all of the elements", ntrtl.h),
    [Allocator] and [Deallocator].

    The user data is a value of the type [U], which stands for the BufferSize bytes
    at Buffer: BufferSize is no argument of its own.  The routine asks the allocate
    routine for BufferSize plus the 24 bytes in front of UserData; the 32-bit sum
    wraps only for a buffer that ends less than 24 bytes below 4 GB even if it
    starts at address 0, which no caller can have, so every block the allocate
    parameter returns has room for the data that is copied into it.

    The specification is a dictionary: [represents s E o] says that the table
    holds the elements [E], sorted, and that [o] is their order of insertion.
    [dict_find], [dict_insert] and [dict_delete] are the operations on a sorted
    association list that the routines are shown to implement. *)

From Stdlib Require Import Sorted.
From S2P Require Import Prelude RtlHeap RtlList RtlSplay RtlSplayOps.
From stdpp Require Import gmap list_tactics sets.
#[local] Open Scope Z_scope.

Module GenTable.
Import DList Splay SplayOps.

Inductive RTL_GENERIC_COMPARE_RESULTS := GenericLessThan | GenericGreaterThan | GenericEqual.
Inductive TABLE_SEARCH_RESULT :=
  TableEmptyTree | TableFoundNode | TableInsertAsLeft | TableInsertAsRight.
#[global] Instance result_eq_dec : EqDecision TABLE_SEARCH_RESULT.
Proof. solve_decision. Defined.

(** [InsertOrderList] is the address of the list head, [&Table->InsertOrderList]. *)
Record RTL_GENERIC_TABLE := mkTable {
  TableRoot : Z;
  InsertOrderList : Z;
  OrderedPointer : Z;
  WhichOrderedElement : Z;
  NumberGenericTableElements : Z }.

(** The fields of a TABLE_ENTRY_HEADER (x86: three pointers, two pointers, and
    user data aligned to 8 bytes), and CONTAINING_RECORD. *)
Definition ListEntryOf (Node : Z) : Z := Node + 12.
Definition UserDataOf (Node : Z) : Z := Node + 24.
Definition RecordOfListEntry (Entry : Z) : Z := Entry - 12.

Definition MAXULONG : Z := 4294967295.

Record mem (U : Type) := mkMem {
  Links : heap RTL_SPLAY_LINKS; Lists : heap LIST_ENTRY; Data : heap U }.
Arguments mkMem {U}. Arguments Links {U}. Arguments Lists {U}. Arguments Data {U}.

Record state (U : Type) := mkState { Table : RTL_GENERIC_TABLE; Mem : mem U }.
Arguments mkState {U}. Arguments Table {U}. Arguments Mem {U}.

(** Routines on a table; [None] is a fault. *)
Definition TM (U A : Type) : Type := state U -> option (A * state U).
#[global] Instance TM_ret {U} : MRet (TM U) := fun A x s => Some (x, s).
#[global] Instance TM_bind {U} : MBind (TM U) :=
  fun A B k m s => match m s with Some (x, s') => k x s' | None => None end.

Section Routines.
Context {U : Type}.
Context (CompareRoutine : U -> U -> RTL_GENERIC_COMPARE_RESULTS).
Context (AllocateRoutine : mem U -> Z * mem U) (FreeRoutine : Z -> mem U -> mem U).
(** The value of a local variable that is not initialised. *)
Context (uninitialized : Z).

Definition on_links {A} (m : M RTL_SPLAY_LINKS A) : TM U A := fun s =>
  match m (Links (Mem s)) with
  | Some (x, h) => Some (x, mkState (Table s) (mkMem h (Lists (Mem s)) (Data (Mem s))))
  | None => None
  end.
Definition on_lists {A} (m : M LIST_ENTRY A) : TM U A := fun s =>
  match m (Lists (Mem s)) with
  | Some (x, h) => Some (x, mkState (Table s) (mkMem (Links (Mem s)) h (Data (Mem s))))
  | None => None
  end.
Definition on_data {A} (m : M U A) : TM U A := fun s =>
  match m (Data (Mem s)) with
  | Some (x, h) => Some (x, mkState (Table s) (mkMem (Links (Mem s)) (Lists (Mem s)) h))
  | None => None
  end.
Definition get_table : TM U RTL_GENERIC_TABLE := fun s => Some (Table s, s).
Definition modify_table (f : RTL_GENERIC_TABLE -> RTL_GENERIC_TABLE) : TM U unit :=
  fun s => Some (tt, mkState (f (Table s)) (Mem s)).
Definition tfault {A} : TM U A := fun _ => None.

Definition set_TableRoot (r : Z) : TM U unit := modify_table (fun t =>
  mkTable r (InsertOrderList t) (OrderedPointer t) (WhichOrderedElement t) (NumberGenericTableElements t)).
Definition set_Ordered (p w : Z) : TM U unit := modify_table (fun t =>
  mkTable (TableRoot t) (InsertOrderList t) p w (NumberGenericTableElements t)).
Definition set_Number (n : Z) : TM U unit := modify_table (fun t =>
  mkTable (TableRoot t) (InsertOrderList t) (OrderedPointer t) (WhichOrderedElement t) n).

Definition allocate : TM U Z := fun s =>
  let '(p, m) := AllocateRoutine (Mem s) in Some (p, mkState (Table s) m).
Definition free (p : Z) : TM U unit := fun s => Some (tt, mkState (Table s) (FreeRoutine p (Mem s))).

(** ** The routines *)

Definition RtlIsGenericTableEmpty : TM U bool := t ← get_table; mret (TableRoot t =? NULL).

Fixpoint find_loop (fuel : nat) (Buffer : U) (NodeToExamine : Z) : TM U (TABLE_SEARCH_RESULT * Z) :=
  match fuel with
  | O => tfault
  | S fuel =>
      d ← on_data (load (UserDataOf NodeToExamine));
      match CompareRoutine Buffer d with
      | GenericLessThan =>
          Child ← on_links (RtlLeftChild NodeToExamine);
          if negb (Child =? NULL) then find_loop fuel Buffer Child
          else mret (TableInsertAsLeft, NodeToExamine)
      | GenericGreaterThan =>
          Child ← on_links (RtlRightChild NodeToExamine);
          if negb (Child =? NULL) then find_loop fuel Buffer Child
          else mret (TableInsertAsRight, NodeToExamine)
      | GenericEqual => mret (TableFoundNode, NodeToExamine)
      end
  end.

(** One unit of fuel per record, and one more. *)
Definition with_nodes {A} (f : nat -> TM U A) : TM U A := fun s => f (S (size (Links (Mem s)))) s.

(** NodeOrParent is passed in and left alone when the tree is empty. *)
Definition FindNodeOrParent (Buffer : U) (NodeOrParent : Z) : TM U (TABLE_SEARCH_RESULT * Z) :=
  e ← RtlIsGenericTableEmpty;
  if e : bool then mret (TableEmptyTree, NodeOrParent)
  else t ← get_table; with_nodes (fun fuel => find_loop fuel Buffer (TableRoot t)).

Definition RtlInitializeGenericTable : TM U unit :=
  set_TableRoot NULL;;
  t ← get_table; on_lists (InitializeListHead (InsertOrderList t));;
  set_Number 0;; set_Ordered (InsertOrderList t) 0.

(** The result is the pointer to the user data and *NewElement. *)
Definition RtlInsertElementGenericTableFull (Buffer : U) (NodeOrParent : Z)
    (SearchResult : TABLE_SEARCH_RESULT) : TM U (Z * bool) :=
  if decide (SearchResult <> TableFoundNode) then
    t ← get_table;
    if NumberGenericTableElements t =? MAXULONG - 1 then tfault
    else
      NodeToReturn ← allocate;
      if NodeToReturn =? NULL then mret (NULL, false)
      else
        on_links (RtlInitializeSplayLinks NodeToReturn);;
        on_lists (InsertTailList (InsertOrderList t) (ListEntryOf NodeToReturn));;
        set_Number (u32 (NumberGenericTableElements t + 1));;
        (match SearchResult with
         | TableEmptyTree => set_TableRoot NodeToReturn
         | TableInsertAsLeft => on_links (RtlInsertAsLeftChild NodeOrParent NodeToReturn)
         | _ => on_links (RtlInsertAsRightChild NodeOrParent NodeToReturn)
         end);;
        on_data (modify (UserDataOf NodeToReturn) (fun _ => Buffer));;
        r ← on_links (RtlSplay NodeToReturn); set_TableRoot r;;
        mret (UserDataOf NodeToReturn, true)
  else
    r ← on_links (RtlSplay NodeOrParent); set_TableRoot r;;
    mret (UserDataOf NodeOrParent, false).

Definition RtlInsertElementGenericTable (Buffer : U) : TM U (Z * bool) :=
  '(Lookup, NodeOrParent) ← FindNodeOrParent Buffer uninitialized;
  RtlInsertElementGenericTableFull Buffer NodeOrParent Lookup.

Definition RtlDeleteElementGenericTable (Buffer : U) : TM U bool :=
  '(Lookup, NodeOrParent) ← FindNodeOrParent Buffer uninitialized;
  if decide (Lookup = TableEmptyTree \/ Lookup <> TableFoundNode) then mret false
  else
    r ← on_links (RtlDelete NodeOrParent); set_TableRoot r;;
    on_lists (RemoveEntryList (ListEntryOf NodeOrParent));;
    t ← get_table; set_Number (u32 (NumberGenericTableElements t - 1));;
    set_Ordered (InsertOrderList t) 0;;
    free NodeOrParent;;
    mret true.

(** The result is the pointer, *NodeOrParent and *SearchResult. *)
Definition RtlLookupElementGenericTableFull (Buffer : U) (NodeOrParent : Z)
    : TM U (Z * Z * TABLE_SEARCH_RESULT) :=
  '(SearchResult, NodeOrParent) ← FindNodeOrParent Buffer NodeOrParent;
  if decide (SearchResult = TableEmptyTree \/ SearchResult <> TableFoundNode)
  then mret (NULL, NodeOrParent, SearchResult)
  else
    r ← on_links (RtlSplay NodeOrParent); set_TableRoot r;;
    mret (UserDataOf NodeOrParent, NodeOrParent, SearchResult).

Definition RtlLookupElementGenericTable (Buffer : U) : TM U Z :=
  r ← RtlLookupElementGenericTableFull Buffer uninitialized; mret (fst (fst r)).

Definition RtlEnumerateGenericTable (Restart : bool) : TM U Z :=
  e ← RtlIsGenericTableEmpty;
  if e : bool then mret NULL
  else
    t ← get_table;
    NodeToReturn ←
      (if Restart then
         NodeToReturn ← on_links (with_fuel (fun fuel => leftmost fuel (TableRoot t)));
         r ← on_links (RtlSplay NodeToReturn); set_TableRoot r;;
         mret NodeToReturn
       else
         NodeToReturn ← on_links (RtlRealSuccessor (TableRoot t));
         (if negb (NodeToReturn =? NULL)
          then r ← on_links (RtlSplay NodeToReturn); set_TableRoot r else mret tt);;
         mret NodeToReturn);
    mret (if negb (NodeToReturn =? NULL) then UserDataOf NodeToReturn else NULL).

(** The result is the pointer and the new *RestartKey. *)
Definition RtlEnumerateGenericTableWithoutSplaying (RestartKey : Z) : TM U (Z * Z) :=
  e ← RtlIsGenericTableEmpty;
  if e : bool then mret (NULL, RestartKey)
  else
    t ← get_table;
    '(NodeToReturn, RestartKey) ←
      (if RestartKey =? NULL then
         NodeToReturn ← on_links (with_fuel (fun fuel => leftmost fuel (TableRoot t)));
         mret (NodeToReturn, NodeToReturn)
       else
         NodeToReturn ← on_links (RtlRealSuccessor RestartKey);
         mret (NodeToReturn, if negb (NodeToReturn =? NULL) then NodeToReturn else RestartKey));
    mret (if negb (NodeToReturn =? NULL) then UserDataOf NodeToReturn else NULL, RestartKey).

(** [for (; n; n--) CurrentNode = CurrentNode->Flink;] and its mirror image *)
Fixpoint walk_flink (n : nat) (CurrentNode : Z) : M LIST_ENTRY Z :=
  match n with O => mret CurrentNode | S n => c ← get_Flink CurrentNode; walk_flink n c end.
Fixpoint walk_blink (n : nat) (CurrentNode : Z) : M LIST_ENTRY Z :=
  match n with O => mret CurrentNode | S n => c ← get_Blink CurrentNode; walk_blink n c end.

Definition RtlGetElementGenericTable (I : Z) : TM U Z :=
  t ← get_table;
  let CurrentLocation := WhichOrderedElement t in
  let NumberInTable := NumberGenericTableElements t in
  let NormalizedI := u32 (I + 1) in
  let CurrentNode := OrderedPointer t in
  if (I =? MAXULONG) || (NormalizedI >? NumberInTable) then mret NULL
  else if NormalizedI =? CurrentLocation then mret (UserDataOf (RecordOfListEntry CurrentNode))
  else
    CurrentNode ←
      (if CurrentLocation >? NormalizedI then
         if NormalizedI >? CurrentLocation / 2
         then on_lists (walk_blink (Z.to_nat (u32 (CurrentLocation - NormalizedI))) CurrentNode)
         else on_lists (walk_flink (Z.to_nat NormalizedI) (InsertOrderList t))
       else
         let ForwardDistance := u32 (NormalizedI - CurrentLocation) in
         let BackwardDistance := u32 (u32 (NumberInTable - NormalizedI) + 1) in
         if ForwardDistance <=? BackwardDistance
         then on_lists (walk_flink (Z.to_nat ForwardDistance) CurrentNode)
         else on_lists (walk_blink (Z.to_nat BackwardDistance) (InsertOrderList t)));
    set_Ordered CurrentNode (u32 (I + 1));;
    mret (UserDataOf (RecordOfListEntry CurrentNode)).

Definition RtlNumberGenericTableElements : TM U Z :=
  t ← get_table; mret (NumberGenericTableElements t).

End Routines.

(** ** What the user's routines promise *)

Class CompareOrder {U} (cmp : U -> U -> RTL_GENERIC_COMPARE_RESULTS) : Prop := {
  cmp_opp x y : cmp x y = GenericLessThan <-> cmp y x = GenericGreaterThan;
  cmp_trans x y z : cmp x y = GenericLessThan -> cmp y z = GenericLessThan -> cmp x z = GenericLessThan;
  cmp_eq x y z : cmp x y = GenericEqual -> cmp x z = cmp y z }.

(** Allocation leaves what is in use alone; a node it returns was not in use. *)
Class Allocator {U} (alloc : mem U -> Z * mem U) : Prop := {
  alloc_keep m p m' : alloc m = (p, m') ->
    Links m ⊆ Links m' /\ Lists m ⊆ Lists m' /\ Data m ⊆ Data m';
  alloc_fresh m p m' : alloc m = (p, m') -> p <> NULL -> 0 < p /\
    Links m !! p = None /\ Lists m !! ListEntryOf p = None /\ Data m !! UserDataOf p = None /\
    is_Some (Links m' !! p) /\ is_Some (Lists m' !! ListEntryOf p) /\ is_Some (Data m' !! UserDataOf p) }.

(** Freeing a node touches that node only. *)
Class Deallocator {U} (dealloc : Z -> mem U -> mem U) : Prop := {
  free_links p m a : a <> p -> Links (dealloc p m) !! a = Links m !! a;
  free_lists p m a : a <> ListEntryOf p -> Lists (dealloc p m) !! a = Lists m !! a;
  free_data p m a : a <> UserDataOf p -> Data (dealloc p m) !! a = Data m !! a }.

(** ** The dictionary *)

Section Dictionary.
Context {U : Type} (cmp : U -> U -> RTL_GENERIC_COMPARE_RESULTS).

Definition before_elem (x y : U) : Prop := cmp x y = GenericLessThan.

(** A node of the tree and its contents, in the order of the elements. *)
Fixpoint dict_find (b : U) (E : list (Z * U)) : option Z :=
  match E with
  | [] => None
  | (n, u) :: E => match cmp b u with
      | GenericLessThan => None | GenericEqual => Some n | GenericGreaterThan => dict_find b E end
  end.
Fixpoint dict_insert (p : Z) (b : U) (E : list (Z * U)) : list (Z * U) :=
  match E with
  | [] => [(p, b)]
  | (n, u) :: E' => match cmp b u with
      | GenericLessThan => (p, b) :: E | GenericEqual => E
      | GenericGreaterThan => (n, u) :: dict_insert p b E' end
  end.
Fixpoint dict_delete (b : U) (E : list (Z * U)) : list (Z * U) :=
  match E with
  | [] => []
  | (n, u) :: E' => match cmp b u with
      | GenericLessThan => E | GenericEqual => E'
      | GenericGreaterThan => (n, u) :: dict_delete b E' end
  end.

Definition above (b : U) (e : Z * U) : Prop := cmp b (snd e) = GenericLessThan.
Definition below (b : U) (e : Z * U) : Prop := cmp b (snd e) = GenericGreaterThan.

Lemma dict_absent b E1 E2 p : Forall (below b) E1 -> Forall (above b) E2 ->
  dict_find b (E1 ++ E2) = None /\ dict_insert p b (E1 ++ E2) = E1 ++ (p, b) :: E2 /\
  dict_delete b (E1 ++ E2) = E1 ++ E2.
Proof.
  intros H1 H2. induction H1 as [|[n u] E1 H1 _ (IH1 & IH2 & IH3)]; cbn.
  - destruct H2 as [|[n u] E2 H2 _]; [done|]. cbn. red in H2. cbn in H2. by rewrite H2.
  - red in H1. cbn in H1. by rewrite H1, IH1, IH2, IH3.
Qed.

Lemma dict_present b E1 n u E2 p : Forall (below b) E1 -> cmp b u = GenericEqual ->
  dict_find b (E1 ++ (n, u) :: E2) = Some n /\
  dict_insert p b (E1 ++ (n, u) :: E2) = E1 ++ (n, u) :: E2 /\
  dict_delete b (E1 ++ (n, u) :: E2) = E1 ++ E2.
Proof.
  intros H1 Hu. induction H1 as [|[m v] E1 H1 _ (IH1 & IH2 & IH3)]; cbn.
  - by rewrite Hu.
  - red in H1. cbn in H1. by rewrite H1, IH1, IH2, IH3.
Qed.
End Dictionary.

(** ** Tables in memory *)

Section Represents.
Context {U : Type} (cmp : U -> U -> RTL_GENERIC_COMPARE_RESULTS).

Record tree_part (h : heap RTL_SPLAY_LINKS) (r : Z) (E : list (Z * U)) (t : tree) : Prop := {
  tp_in : tree_in h t; tp_root : root t = r; tp_order : inorder t = E.*1 }.

Definition list_part (h : heap LIST_ENTRY) (tab : RTL_GENERIC_TABLE) (o : list Z) : Prop :=
  list_in h (InsertOrderList tab) (ListEntryOf <$> o) /\
  exists i, WhichOrderedElement tab = Z.of_nat i /\
    (InsertOrderList tab :: (ListEntryOf <$> o)) !! i = Some (OrderedPointer tab).

Definition data_part (h : heap U) (E : list (Z * U)) : Prop :=
  Forall (fun e => 0 < fst e /\ h !! UserDataOf (fst e) = Some (snd e)) E.

Definition sorted (E : list (Z * U)) : Prop := StronglySorted (before_elem cmp) E.*2.

Record represents (s : state U) (E : list (Z * U)) (o : list Z) : Prop := mkRep {
  rep_tree : exists t, tree_part (Links (Mem s)) (TableRoot (Table s)) E t;
  rep_list : list_part (Lists (Mem s)) (Table s) o;
  rep_data : data_part (Data (Mem s)) E;
  rep_sorted : sorted E;
  rep_order : o ≡ₚ E.*1;
  rep_number : NumberGenericTableElements (Table s) = Z.of_nat (length E);
  rep_bound : Z.of_nat (length E) <= MAXULONG - 1 }.

Context `{!CompareOrder cmp}.

Lemma sorted_cut E1 e E2 : sorted (E1 ++ e :: E2) ->
  Forall (fun e' => cmp (snd e') (snd e) = GenericLessThan) E1 /\
  Forall (fun e' => cmp (snd e) (snd e') = GenericLessThan) E2.
Proof.
  unfold sorted. induction E1 as [|d E1 IH]; cbn; intros Hs; inversion_clear Hs as [|? ? Hs' Hf].
  - split; [constructor|]. exact (proj1 (Forall_fmap _ _ _) Hf).
  - destruct (IH Hs') as [H1 H2]. split; [|done]. constructor; [|done].
    rewrite fmap_app in Hf. apply Forall_app in Hf as [_ Hf]. by apply Forall_cons in Hf as [Hf _].
Qed.

(** Comparing with one element decides the others on one side of it. *)
Lemma above_rest b E1 e E2 : sorted (E1 ++ e :: E2) -> above cmp b e -> Forall (above cmp b) E2.
Proof.
  intros Hs Hb. destruct (sorted_cut _ _ _ Hs) as [_ H]. eapply Forall_impl; [exact H|].
  cbn. intros e' He. unfold above in *. by eapply cmp_trans.
Qed.
Lemma below_rest b E1 e E2 : sorted (E1 ++ e :: E2) -> below cmp b e -> Forall (below cmp b) E1.
Proof.
  intros Hs Hb. destruct (sorted_cut _ _ _ Hs) as [H _]. eapply Forall_impl; [exact H|].
  cbn. intros e' He. unfold below in *. apply cmp_opp. apply cmp_opp in Hb. by eapply cmp_trans.
Qed.
Lemma equal_rest b E1 n u E2 : sorted (E1 ++ (n, u) :: E2) -> cmp b u = GenericEqual ->
  Forall (below cmp b) E1 /\ Forall (above cmp b) E2.
Proof.
  intros Hs Hb. destruct (sorted_cut _ _ _ Hs) as [H1 H2]. split.
  - eapply Forall_impl; [exact H1|]. intros e He. unfold below. rewrite (cmp_eq b u) by done.
    by apply cmp_opp.
  - eapply Forall_impl; [exact H2|]. intros e He. unfold above. by rewrite (cmp_eq b u).
Qed.
End Represents.

(** ** Running routines of a part of the memory *)

Section Run.
Context {U : Type}.
Implicit Types s : state U.

Definition set_links (s : state U) (h : heap RTL_SPLAY_LINKS) : state U :=
  mkState (Table s) (mkMem h (Lists (Mem s)) (Data (Mem s))).
Definition set_lists (s : state U) (h : heap LIST_ENTRY) : state U :=
  mkState (Table s) (mkMem (Links (Mem s)) h (Data (Mem s))).

Lemma run_links {A B} s (m : M RTL_SPLAY_LINKS A) x h (k : A -> TM U B) :
  m (Links (Mem s)) = Some (x, h) -> (on_links m ≫= k) s = k x (set_links s h).
Proof. intros Hm. unfold mbind, TM_bind, on_links. by rewrite Hm. Qed.
Lemma run_lists {A B} s (m : M LIST_ENTRY A) x h (k : A -> TM U B) :
  m (Lists (Mem s)) = Some (x, h) -> (on_lists m ≫= k) s = k x (set_lists s h).
Proof. intros Hm. unfold mbind, TM_bind, on_lists. by rewrite Hm. Qed.
Lemma run_links_read {A B} s (m : M RTL_SPLAY_LINKS A) x (k : A -> TM U B) :
  m (Links (Mem s)) = Some (x, Links (Mem s)) -> (on_links m ≫= k) s = k x s.
Proof. intros Hm. rewrite (run_links _ _ _ _ _ Hm). by destruct s as [t []]. Qed.
Lemma run_data_read {B} s a u (k : U -> TM U B) :
  a <> NULL -> Data (Mem s) !! a = Some u -> (on_data (load a) ≫= k) s = k u s.
Proof.
  intros Ha Hu. unfold mbind, TM_bind, on_data, load. apply Z.eqb_neq in Ha. rewrite Ha, Hu.
  by destruct s as [t []].
Qed.

Lemma run_table {B} s (k : RTL_GENERIC_TABLE -> TM U B) : (get_table ≫= k) s = k (Table s) s.
Proof. done. Qed.
Lemma run_empty {B} s (k : bool -> TM U B) :
  (RtlIsGenericTableEmpty ≫= k) s = k (TableRoot (Table s) =? NULL) s.
Proof. done. Qed.
Lemma run_ret {A B} s (x : A) (k : A -> TM U B) : (mret x ≫= k) s = k x s.
Proof. done. Qed.
Lemma run_step {A B} s (m : TM U A) x s' (k : A -> TM U B) : m s = Some (x, s') -> (m ≫= k) s = k x s'.
Proof. intros Hm. unfold mbind, TM_bind. by rewrite Hm. Qed.
Lemma run_assoc {A B C} s (m : TM U A) (f : A -> TM U B) (k : B -> TM U C) :
  ((m ≫= f) ≫= k) s = (m ≫= fun x => f x ≫= k) s.
Proof. unfold mbind, TM_bind. by destruct (m s) as [[]|]. Qed.
End Run.

Lemma read_left h t l x r k : tree_in h t -> t = plug (Node l x r) k -> RtlLeftChild x h = Some (root l, h).
Proof.
  intros Hin ->. apply (triple_read (zip (Node l x r) k)).
  - apply triple_tail. eapply (r_at_LeftChild l x r k); [done|]. apply triple_ret.
  - rewrite zip_plug. exact Hin.
Qed.
Lemma read_right h t l x r k : tree_in h t -> t = plug (Node l x r) k -> RtlRightChild x h = Some (root r, h).
Proof.
  intros Hin ->. apply (triple_read (zip (Node l x r) k)).
  - apply triple_tail. eapply (r_at_RightChild l x r k); [done|]. apply triple_ret.
  - rewrite zip_plug. exact Hin.
Qed.
Lemma child_null h t l x r k : tree_in h t -> t = plug (Node l x r) k ->
  (root l =? NULL) = (match l with Leaf => true | _ => false end) /\
  (root r =? NULL) = (match r with Leaf => true | _ => false end).
Proof.
  intros Hin ->. red in Hin. rewrite <- zip_plug in Hin. apply owns_null, zip_null in Hin as [Hl Hr].
  split; [by eapply root_null|by eapply root_null].
Qed.

(** ** The search *)

Section Search.
Context {U : Type} (cmp : U -> U -> RTL_GENERIC_COMPARE_RESULTS) `{!CompareOrder cmp}.

(** What FindNodeOrParent found: the node, or the place where it belongs. *)
Inductive found (b : U) (E : list (Z * U)) (t : tree) : TABLE_SEARCH_RESULT -> Z -> Prop :=
| found_node E1 n u E2 : E = E1 ++ (n, u) :: E2 -> cmp b u = GenericEqual -> found b E t TableFoundNode n
| found_left x r k E1 E2 : t = plug (Node Leaf x r) k -> E = E1 ++ E2 ->
    E1.*1 = before k -> E2.*1 = x :: inorder r ++ after k ->
    Forall (below cmp b) E1 -> Forall (above cmp b) E2 -> found b E t TableInsertAsLeft x
| found_right x l k E1 E2 : t = plug (Node l x Leaf) k -> E = E1 ++ E2 ->
    E1.*1 = before k ++ inorder l ++ [x] -> E2.*1 = after k ->
    Forall (below cmp b) E1 -> Forall (above cmp b) E2 -> found b E t TableInsertAsRight x.

Lemma fmap_split {A B} (f : A -> B) l u x v : f <$> l = u ++ x :: v ->
  exists l1 y l2, l = l1 ++ y :: l2 /\ f <$> l1 = u /\ f y = x /\ f <$> l2 = v.
Proof.
  intros H. apply fmap_app_inv in H as (l1 & l2 & -> & H2 & ->).
  destruct l2 as [|y l2]; [done|]. cbn in H2. simplify_eq. by exists l1, y, l2.
Qed.

Lemma find_loop_correct (s : state U) b E T : tree_in (Links (Mem s)) T -> inorder T = E.*1 ->
  data_part (Data (Mem s)) E -> sorted cmp E ->
  forall t k fuel Eb Em Ea, t <> Leaf -> T = plug t k -> E = Eb ++ Em ++ Ea ->
    Eb.*1 = before k -> Em.*1 = inorder t -> Ea.*1 = after k ->
    Forall (below cmp b) Eb -> Forall (above cmp b) Ea -> (length Em <= fuel)%nat ->
    exists r x, find_loop cmp fuel b (root t) s = Some ((r, x), s) /\ found b E T r x.
Proof.
  intros Hin Hi Hd Hs t. induction t as [|l IHl x r IHr]; intros k fuel Eb Em Ea Ht HT HE Hb Hm Ha HB HA Hf; [done|].
  cbn [inorder] in Hm. symmetry in Hm. symmetry in Hm.
  destruct (fmap_split fst Em _ _ _ Hm) as (El & [x' u] & Er & -> & Hl & Hx & Hr). cbn in Hx. subst x'.
  destruct fuel as [|fuel]; [rewrite length_app in Hf; cbn in Hf; lia|].
  assert (Hxu : (x, u) ∈ E) by (rewrite HE; set_solver).
  red in Hd. rewrite Forall_forall in Hd. destruct (Hd _ Hxu) as [Hpos Hdat]. cbn in Hpos, Hdat.
  destruct (child_null _ _ _ _ _ _ Hin HT) as [Hnl Hnr].
  cbn [find_loop root]. rewrite (run_data_read _ _ u) by (try done; unfold UserDataOf, NULL; lia).
  assert (HE' : E = (Eb ++ El) ++ (x, u) :: Er ++ Ea) by (by rewrite HE, <- !app_assoc).
  rewrite length_app in Hf. cbn [length] in Hf.
  destruct (cmp b u) eqn:Ecmp.
  - assert (HA' : Forall (above cmp b) ((x, u) :: Er ++ Ea)).
    { constructor; [exact Ecmp|]. rewrite HE' in Hs. eapply above_rest; [done|exact Hs|exact Ecmp]. }
    rewrite (run_links_read _ _ (root l)) by (by eapply read_left). rewrite Hnl.
    destruct l as [|ll y lr].
    + eexists _, x. split; [done|].
      assert (El = []) as -> by (by apply fmap_nil_inv in Hl).
      apply (found_left b E T x r k Eb ((x, u) :: Er ++ Ea)); try done.
      cbn. by rewrite fmap_app, Hr, Ha.
    + cbn [negb].
      destruct (IHl (CL x r :: k) fuel Eb El ((x, u) :: Er ++ Ea)) as (q & z & Hq & Hz); try done; [| |lia|].
      * by rewrite HE, <- !app_assoc.
      * cbn. by rewrite fmap_app, Hr, Ha.
      * by exists q, z.
  - assert (HB' : Forall (below cmp b) (Eb ++ El ++ [(x, u)])).
    { rewrite app_assoc. apply Forall_app. split; [|by constructor; [exact Ecmp|]].
      rewrite HE' in Hs. eapply below_rest; [done|exact Hs|exact Ecmp]. }
    rewrite (run_links_read _ _ (root r)) by (by eapply read_right). rewrite Hnr.
    destruct r as [|rl y rr].
    + eexists _, x. split; [done|].
      assert (Er = []) as -> by (by apply fmap_nil_inv in Hr).
      apply (found_right b E T x l k (Eb ++ El ++ [(x, u)]) Ea); try done.
      * by rewrite HE, <- !app_assoc.
      * by rewrite !fmap_app, Hb, Hl.
    + cbn [negb].
      destruct (IHr (CR l x :: k) fuel (Eb ++ El ++ [(x, u)]) Er Ea) as (q & z & Hq & Hz); try done; [| |lia|].
      * by rewrite HE, <- !app_assoc.
      * cbn. by rewrite !fmap_app, Hb, Hl.
      * by exists q, z.
  - eexists _, x. split; [done|]. by apply (found_node b E T (Eb ++ El) x u (Er ++ Ea)).
Qed.

Lemma find_correct (s : state U) b E o n0 : represents cmp s E o -> E <> [] ->
  exists r x t, FindNodeOrParent cmp b n0 s = Some ((r, x), s) /\ found b E t r x /\
    tree_part (Links (Mem s)) (TableRoot (Table s)) E t.
Proof.
  intros Hrep HE. destruct (rep_tree _ _ _ _ Hrep) as (t & Ht). pose proof Ht as [Hin Hroot Hord].
  assert (Hne : t <> Leaf) by (intros ->; cbn in Hord; symmetry in Hord; by apply fmap_nil_inv in Hord).
  assert (Hnn : (TableRoot (Table s) =? NULL) = false).
  { rewrite <- Hroot. apply Z.eqb_neq. intros E0. apply (owns_null _ _ Hin). rewrite <- E0 at 1. by apply root_in. }
  unfold FindNodeOrParent, RtlIsGenericTableEmpty, with_nodes, get_table, mbind, TM_bind, mret, TM_ret.
  rewrite Hnn, <- Hroot.
  destruct (find_loop_correct s b E t Hin Hord (rep_data _ _ _ _ Hrep) (rep_sorted _ _ _ _ Hrep) t []
    (S (size (Links (Mem s)))) [] E []) as (r & x & Hr & Hf); try done.
  - by rewrite app_nil_r.
  - apply owns_length in Hin. rewrite <- (length_fmap fst E), <- Hord.
    rewrite <- (length_fmap fst), links_keys in Hin. lia.
  - exists r, x, t. split_and!; [|done|done]. unfold mbind, TM_bind in Hr. exact Hr.
Qed.

Lemma find_empty (s : state U) b o n0 : represents cmp s [] o ->
  FindNodeOrParent cmp b n0 s = Some ((TableEmptyTree, n0), s).
Proof.
  intros Hrep. destruct (rep_tree _ _ _ _ Hrep) as (t & [Hin Hroot Hord]).
  assert (t = Leaf) as -> by (destruct t; [done|]; cbn in Hord; by destruct (inorder t1)).
  unfold FindNodeOrParent, RtlIsGenericTableEmpty, get_table, mbind, TM_bind, mret, TM_ret.
  by rewrite <- Hroot.
Qed.
End Search.

End GenTable.
