(* ===== verification/RtlGenTableOps.v ===== *)
(** * Generic tables: the operations implement a dictionary

    Each routine of [RtlGenTable] against the dictionary: insertion (new element,
    duplicate, failed allocation), deletion, lookup, enumeration with and without
    splaying, access by order of insertion; then the refinement theorem over
    sequences of requests, and a table of integers on which it is run. *)

From Stdlib Require Import Sorted.
From S2P Require Import Prelude RtlHeap RtlList RtlSplay RtlSplayOps RtlGenTable.
From stdpp Require Import gmap list_tactics sets.
#[local] Open Scope Z_scope.

Module GenTableOps.
Import DList Splay SplayOps GenTable.

(** ** The operations *)

(** The pointer handed to the user. *)
Definition ptr (r : option Z) : Z := match r with Some n => UserDataOf n | None => NULL end.

Section Operations.
Context {U : Type} (cmp : U -> U -> RTL_GENERIC_COMPARE_RESULTS) `{!CompareOrder cmp}.
Context (alloc : mem U -> Z * mem U) `{!Allocator alloc}.
Context (dealloc : Z -> mem U -> mem U) `{!Deallocator dealloc}.
Context (uninit : Z).
Implicit Types (s : state U) (E : list (Z * U)).

Definition set_root (s : state U) (r : Z) (h : heap RTL_SPLAY_LINKS) : state U :=
  mkState (mkTable r (InsertOrderList (Table s)) (OrderedPointer (Table s)) (WhichOrderedElement (Table s))
    (NumberGenericTableElements (Table s))) (mkMem h (Lists (Mem s)) (Data (Mem s))).

Lemma represents_root s E o r h t : represents cmp s E o -> tree_part h r E t ->
  represents cmp (set_root s r h) E o.
Proof. intros [_ H2 H3 H4 H5 H6 H7] Ht. split; [by exists t|exact H2|exact H3|done..]. Qed.

Lemma splay_part h r E t n : tree_part h r E t -> n ∈ E.*1 ->
  exists h' t', RtlSplay n h = Some (n, h') /\ tree_part h' n E t'.
Proof.
  intros [Hin Hr Ho] Hn. rewrite <- Ho in Hn. destruct (find_path n t Hn) as (l & rr & k & ->).
  pose proof (splay_tree_spec k l n rr) as [Hroot Hord].
  destruct (tree_triple h (plug (Node l n rr) k) (RtlSplay n) n (splay_tree l n rr k) []) as (h' & Hm & Ht & _);
    [rewrite app_nil_r, Hroot; apply RtlSplay_tree|done|].
  exists h', (splay_tree l n rr k). split; [done|]. split; [done|done|by rewrite Hord].
Qed.

(** [Table->TableRoot = RtlSplay(n)] for a node of the table. *)
Lemma run_splay s E o n : represents cmp s E o -> n ∈ E.*1 ->
  exists h, (forall B (k : unit -> TM U B), (r ← on_links (RtlSplay n); set_TableRoot r ≫= k) s = k tt (set_root s n h)) /\
    represents cmp (set_root s n h) E o.
Proof.
  intros Hrep Hn. destruct (rep_tree _ _ _ _ Hrep) as (t & Ht).
  destruct (splay_part _ _ _ _ _ Ht Hn) as (h' & t' & Hm & Ht').
  exists h'. split; [|by eapply represents_root].
  intros B k. by rewrite (run_links _ _ _ _ _ Hm).
Qed.

Lemma in_keys E1 n (u : U) E2 : n ∈ (E1 ++ (n, u) :: E2).*1.
Proof. rewrite fmap_app. apply elem_of_app. right. left. Qed.

Lemma Lookup_spec s E o b : represents cmp s E o ->
  exists s', RtlLookupElementGenericTable cmp uninit b s = Some (ptr (dict_find cmp b E), s') /\
    represents cmp s' E o /\ forall n, dict_find cmp b E = Some n -> TableRoot (Table s') = n.
Proof.
  intros Hrep. unfold RtlLookupElementGenericTable, RtlLookupElementGenericTableFull.
  destruct (decide (E = [])) as [->|Hne].
  - exists s. split; [|done]. unfold mbind at 1 2, TM_bind at 1 2. by rewrite (find_empty _ _ _ o).
  - destruct (find_correct cmp s b E o uninit Hrep Hne) as (r & x & t & Hf & Hfound & Ht).
    unfold mbind at 1 2, TM_bind at 1 2. rewrite Hf.
    destruct Hfound as [E1 n u E2 HE Hu|y rr k E1 E2 _ HE _ _ H1 H2|y l k E1 E2 _ HE _ _ H1 H2]; cbn [ptr].
    + pose proof (rep_sorted _ _ _ _ Hrep) as Hs. rewrite HE in Hs.
      destruct (equal_rest cmp b E1 n u E2 Hs Hu) as [H1 _].
      destruct (run_splay s E o n Hrep) as (h & Hrun & Hrep'); [rewrite HE; apply in_keys|].
      rewrite HE in *. rewrite (proj1 (dict_present cmp b E1 n u E2 0 H1 Hu)).
      exists (set_root s n h). split; [|split; [done|intros ? [= <-]; done]].
      rewrite decide_False by naive_solver. by rewrite Hrun.
    + exists s. rewrite HE, (proj1 (dict_absent cmp b E1 E2 0 H1 H2)).
      split; [|split; [by rewrite <- HE|done]]. by rewrite decide_True by naive_solver.
    + exists s. rewrite HE, (proj1 (dict_absent cmp b E1 E2 0 H1 H2)).
      split; [|split; [by rewrite <- HE|done]]. by rewrite decide_True by naive_solver.
Qed.

(** *** Insertion *)

Lemma tree_weaken h h' t : h ⊆ h' -> tree_in h t -> tree_in h' t.
Proof.
  intros Hs [H1 H2 H3]. split; [done..|]. intros a v Hin. eapply lookup_weaken; [by apply H3|done].
Qed.

Lemma represents_weaken s E o m : represents cmp s E o ->
  Links (Mem s) ⊆ Links m -> Lists (Mem s) ⊆ Lists m -> Data (Mem s) ⊆ Data m ->
  represents cmp (mkState (Table s) m) E o.
Proof.
  intros [(t & [T1 T2 T3]) [[L1 L2 L3] Hc] H3 H4 H5 H6 H7] S1 S2 S3. split; [..|done|done|done|done]; cbn.
  - exists t. split; [by eapply tree_weaken|done|done].
  - split; [|done]. split; [done..|]. intros a v Hin. eapply lookup_weaken; [by apply L3|done].
  - eapply Forall_impl; [exact H3|]. cbn. intros e [? Hl]. split; [done|]. by eapply lookup_weaken.
Qed.

Lemma sorted_insert E1 E2 p b : sorted cmp (E1 ++ E2) -> Forall (below cmp b) E1 -> Forall (above cmp b) E2 ->
  sorted cmp (E1 ++ (p, b) :: E2).
Proof.
  unfold sorted. intros Hs H1 H2. induction H1 as [|e E1 He H1 IH]; cbn in *.
  - constructor; [done|]. apply Forall_fmap. exact H2.
  - inversion_clear Hs as [|? ? Hs' Hf]. constructor; [by apply IH|].
    rewrite fmap_app in *. apply Forall_app in Hf as [Hf1 Hf2]. apply Forall_app. split; [done|].
    constructor; [|done]. by apply cmp_opp.
Qed.

Lemma owns_fresh {V} (ls : list (Z * V)) h a v : owns ls h -> a ∉ ls.*1 -> a <> NULL -> h !! a = Some v ->
  owns ((a, v) :: ls) h.
Proof.
  intros [H1 H2 H3] Ha Hn Hv. split.
  - cbn. by apply NoDup_cons.
  - cbn. intros [E|E]%elem_of_cons; [by subst|done].
  - intros c w [E|E]%elem_of_cons; [by simplify_eq|by apply H3].
Qed.

(** The steps of an insertion on the links: initialise, connect. *)
Lemma insert_links h b E t r x p l : tree_in h t -> inorder t = E.*1 -> found cmp b E t r x -> r <> TableFoundNode ->
  h !! p = Some l -> p ∉ inorder t -> p <> NULL ->
  exists h1 h2 t2 E1 E2, RtlInitializeSplayLinks p h = Some (tt, h1) /\
    (match r with TableInsertAsLeft => RtlInsertAsLeftChild x p | _ => RtlInsertAsRightChild x p end) h1 = Some (tt, h2) /\
    E = E1 ++ E2 /\ Forall (below cmp b) E1 /\ Forall (above cmp b) E2 /\
    tree_in h2 t2 /\ inorder t2 = (E1 ++ (p, b) :: E2).*1.
Proof.
  intros Hin Hord Hf Hr Hl Hp Hn.
  assert (Ho : owns ([(p, l)] ++ links_of (root t) t) h).
  { apply owns_fresh; [done| |done|done]. by rewrite links_keys. }
  destruct (triple_frame _ _ _ _ (links_of (root t) t) (t_InitializeSplayLinks p l) h Ho) as (h1 & Hm1 & Ho1 & _).
  cbn [app] in Ho1.
  destruct Hf as [E1 n u E2 HE Hu|y rr k E1 E2 Ht HE Hb Ha H1 H2|y ll k E1 E2 Ht HE Hb Ha H1 H2]; [done|..].
  - rewrite Ht, <- zip_plug in Ho1. destruct (t_InsertAsLeftChild p p y rr k h1 Ho1) as (h2 & Hm2 & Ho2 & _).
    exists h1, h2, (plug (Node Leaf p Leaf) (CL y rr :: k)), E1, E2. split_and!; try done.
    + red. by rewrite <- zip_plug.
    + rewrite inorder_plug. cbn [before after inorder app]. rewrite fmap_app. cbn. by rewrite Hb, Ha.
  - rewrite Ht, <- zip_plug in Ho1. destruct (t_InsertAsRightChild p p y ll k h1 Ho1) as (h2 & Hm2 & Ho2 & _).
    exists h1, h2, (plug (Node Leaf p Leaf) (CR ll y :: k)), E1, E2. split_and!; try done.
    + red. by rewrite <- zip_plug.
    + rewrite inorder_plug. cbn [before after inorder app]. rewrite fmap_app. cbn. by rewrite Hb, Ha.
Qed.

Lemma insert_list h tab o e v : list_part h tab o -> h !! ListEntryOf e = Some v ->
  ListEntryOf e ∉ InsertOrderList tab :: (ListEntryOf <$> o) -> ListEntryOf e <> NULL ->
  exists h', InsertTailList (InsertOrderList tab) (ListEntryOf e) h = Some (tt, h') /\
    list_in h' (InsertOrderList tab) (ListEntryOf <$> (o ++ [e])) /\
    exists i, WhichOrderedElement tab = Z.of_nat i /\
      (InsertOrderList tab :: (ListEntryOf <$> (o ++ [e]))) !! i = Some (OrderedPointer tab).
Proof.
  intros [Hin (i & Hi & Hc)] Hv Hne Hn.
  assert (Ho : owns ((ListEntryOf e, v) :: ring (InsertOrderList tab) (ListEntryOf <$> o)) h).
  { apply owns_fresh; [done|by rewrite ring_keys|done|done]. }
  destruct (t_InsertTailList _ _ _ _ h Ho) as (h' & Hm & Ho' & _). exists h'.
  rewrite fmap_app. split_and!; [done|exact Ho'|]. exists i. split; [done|].
  rewrite app_comm_cons. by apply lookup_app_l_Some.
Qed.

Lemma run_alloc {B} s p m (k : Z -> TM U B) : alloc (Mem s) = (p, m) ->
  (allocate alloc ≫= k) s = k p (mkState (Table s) m).
Proof. intros Ha. unfold mbind, TM_bind, allocate. by rewrite Ha. Qed.

Lemma run_data_write {B} s a v b (k : unit -> TM U B) : a <> NULL -> Data (Mem s) !! a = Some v ->
  (on_data (modify a (fun _ => b)) ≫= k) s =
  k tt (mkState (Table s) (mkMem (Links (Mem s)) (Lists (Mem s)) (<[a := b]> (Data (Mem s))))).
Proof.
  intros Ha Hv. unfold mbind, TM_bind, on_data, modify. apply Z.eqb_neq in Ha. by rewrite Ha, Hv.
Qed.

(** A node that is not in use is not a node of the table. *)
Lemma fresh_node s E o p : represents cmp s E o -> Links (Mem s) !! p = None -> p ∉ E.*1.
Proof.
  intros Hrep Hp Hin. destruct (rep_tree _ _ _ _ Hrep) as (t & [Ht _ Ho]). rewrite <- Ho in Hin.
  rewrite <- (links_keys (root t)) in Hin. apply list_elem_of_fmap in Hin as ((a & v) & -> & Hv).
  apply (owns_lookup _ _ Ht) in Hv. cbn in Hp. congruence.
Qed.
Lemma fresh_entry s E o p : represents cmp s E o -> Lists (Mem s) !! p = None ->
  p ∉ InsertOrderList (Table s) :: (ListEntryOf <$> o).
Proof.
  intros Hrep Hp Hin. destruct (rep_list _ _ _ _ Hrep) as [Hl _]. red in Hl.
  rewrite <- ring_keys in Hin. apply list_elem_of_fmap in Hin as ((a & v) & -> & Hv).
  apply (owns_lookup _ _ Hl) in Hv. cbn in Hp. congruence.
Qed.

Lemma data_insert h E E1 E2 p b : data_part h E -> E = E1 ++ E2 -> p ∉ E.*1 -> 0 < p ->
  data_part (<[UserDataOf p := b]> h) (E1 ++ (p, b) :: E2).
Proof.
  unfold data_part. intros Hd -> Hp Hpos.
  assert (Hk : Forall (fun e : Z * U => 0 < e.1 /\ (<[UserDataOf p:=b]> h) !! UserDataOf e.1 = Some e.2) (E1 ++ E2)).
  { apply Forall_forall. intros e He. rewrite Forall_forall in Hd. destruct (Hd e He) as [H1 H2].
    split; [done|]. rewrite lookup_insert_ne; [done|]. unfold UserDataOf. intros Hx.
    apply Hp. replace p with e.1 by lia. by apply list_elem_of_fmap_2. }
  apply Forall_app in Hk as [K1 K2]. apply Forall_app. split; [done|]. constructor; [|done].
  cbn. split; [done|]. apply lookup_insert_eq.
Qed.

(** The state after a successful insertion. *)
Definition inserted (s : state U) (p : Z) (b : U) (hl : heap RTL_SPLAY_LINKS) (he : heap LIST_ENTRY) (hd0 : heap U) : state U :=
  mkState (mkTable p (InsertOrderList (Table s)) (OrderedPointer (Table s)) (WhichOrderedElement (Table s))
    (NumberGenericTableElements (Table s) + 1)) (mkMem hl he (<[UserDataOf p := b]> hd0)).

Lemma represents_inserted s E o E1 E2 p b m t3 h3 he : represents cmp s E o -> E = E1 ++ E2 ->
  Data (Mem s) ⊆ Data m -> Links (Mem s) !! p = None -> 0 < p -> Z.of_nat (length E) < MAXULONG - 1 ->
  Forall (below cmp b) E1 -> Forall (above cmp b) E2 ->
  tree_part h3 p (E1 ++ (p, b) :: E2) t3 ->
  list_in he (InsertOrderList (Table s)) (ListEntryOf <$> (o ++ [p])) ->
  (exists i, WhichOrderedElement (Table s) = Z.of_nat i /\
      (InsertOrderList (Table s) :: (ListEntryOf <$> (o ++ [p]))) !! i = Some (OrderedPointer (Table s))) ->
  represents cmp (inserted s p b h3 he (Data m)) (E1 ++ (p, b) :: E2) (o ++ [p]).
Proof.
  intros Hrep HE S3 Hp Hpos Hlen H1 H2 Ht Hl Hc.
  assert (Hlen' : length (E1 ++ (p, b) :: E2) = S (length E)) by (rewrite HE, !length_app; cbn; lia).
  split; cbn.
  - by exists t3.
  - done.
  - apply data_insert with (E := E); [|done|by eapply fresh_node|done].
    eapply Forall_impl; [exact (rep_data _ _ _ _ Hrep)|]. cbn. intros e [? Hx]. split; [done|]. by eapply lookup_weaken.
  - apply sorted_insert; [rewrite <- HE; apply Hrep|done|done].
  - rewrite fmap_app. cbn. rewrite (rep_order _ _ _ _ Hrep), HE, fmap_app.
    rewrite <- app_assoc. apply Permutation_app_head. rewrite Permutation_app_comm. done.
  - rewrite (rep_number _ _ _ _ Hrep), Hlen'. lia.
  - rewrite Hlen'. lia.
Qed.

Lemma Insert_new_spec s E o b p m : represents cmp s E o -> dict_find cmp b E = None ->
  Z.of_nat (length E) < MAXULONG - 1 -> alloc (Mem s) = (p, m) -> p <> NULL ->
  exists s', RtlInsertElementGenericTable cmp alloc uninit b s = Some ((UserDataOf p, true), s') /\
    represents cmp s' (dict_insert cmp p b E) (o ++ [p]) /\ TableRoot (Table s') = p.
Proof.
  intros Hrep Hnone Hlen Ha Hp.
  destruct (alloc_keep _ _ _ Ha) as (S1 & S2 & S3).
  destruct (alloc_fresh _ _ _ Ha Hp) as (Hpos & F1 & F2 & F3 & [l Hl] & [le Hle] & [d Hd]).
  pose proof (fresh_node _ _ _ _ Hrep F1) as Hfr. pose proof (fresh_entry _ _ _ _ Hrep F2) as Hfe.
  assert (Hnum : (NumberGenericTableElements (Table s) =? MAXULONG - 1) = false).
  { rewrite (rep_number _ _ _ _ Hrep). apply Z.eqb_neq. unfold MAXULONG in *. lia. }
  assert (Hnum' : u32 (NumberGenericTableElements (Table s) + 1) = NumberGenericTableElements (Table s) + 1).
  { rewrite (rep_number _ _ _ _ Hrep). apply u32_small. unfold MAXULONG in *. lia. }
  pose proof (represents_weaken s E o m Hrep S1 S2 S3) as Hrep1.
  assert (Hpn : (p =? NULL) = false) by (by apply Z.eqb_neq).
  destruct (insert_list (Lists m) (Table s) o p le) as (he & Hle' & Hring & Hcur);
    [exact (rep_list _ _ _ _ Hrep1)|done|done|unfold ListEntryOf, NULL; lia|].
  assert (Hdn : UserDataOf p <> NULL) by (unfold UserDataOf, NULL; lia).
  unfold RtlInsertElementGenericTable.
  destruct (decide (E = [])) as [->|Hne].
  - unfold mbind at 1, TM_bind at 1. rewrite (find_empty _ _ _ o) by done.
    unfold RtlInsertElementGenericTableFull. rewrite decide_True by done.
    unfold mbind at 1, TM_bind at 1. unfold get_table. rewrite Hnum. cbv iota.
    rewrite (run_alloc _ p m) by done. cbv beta. rewrite Hpn. cbv iota.
    destruct (t_InitializeSplayLinks p l (Links m)) as (h1 & Hm1 & Ho1 & _).
    { split; cbn; [apply NoDup_singleton|by rewrite list_elem_of_singleton|].
      intros a v [= -> ->]%list_elem_of_singleton. done. }
    assert (Ht1 : tree_part h1 p [(p, b)] (Node Leaf p Leaf)) by (split; [exact Ho1|done|done]).
    destruct (splay_part h1 p [(p, b)] _ p Ht1 ltac:(left)) as (h3 & t3 & Hm3 & Ht3).
    exists (inserted s p b h3 he (Data m)).
    split; [|split; [|done]].
    + rewrite (run_links _ _ tt h1) by exact Hm1. rewrite (run_lists _ _ tt he) by exact Hle'.
      unfold set_Number, set_TableRoot, modify_table. unfold mbind at 1 2, TM_bind at 1 2. cbn.
      rewrite (run_data_write _ _ d) by done. rewrite (run_links _ _ p h3) by exact Hm3.
      unfold mbind, TM_bind, mret, TM_ret, inserted. cbn. by rewrite Hnum'.
    + cbn [dict_insert]. by eapply (represents_inserted s [] o [] [] p b m t3).
  - unfold mbind at 1, TM_bind at 1.
    destruct (find_correct cmp s b E o uninit Hrep Hne) as (r & x & t & Hf & Hfound & Ht). rewrite Hf.
    assert (Hr : r <> TableFoundNode).
    { intros ->. inversion Hfound as [E1 n u E2 HE Hu| |]; subst.
      destruct (equal_rest cmp b E1 x u E2 (rep_sorted _ _ _ _ Hrep) Hu) as [H1 _].
      by rewrite (proj1 (dict_present cmp b E1 x u E2 0 H1 Hu)) in Hnone. }
    assert (Hr' : r <> TableEmptyTree) by (by inversion Hfound).
    destruct Ht as [Tin Troot Tord].
    destruct (insert_links (Links m) b E t r x p l) as (h1 & h2 & t2 & E1 & E2 & Hm1 & Hm2 & HE & H1 & H2 & Ht2 & Hi2);
      [by eapply tree_weaken|done..|by rewrite Tord|done|].
    assert (Ht2' : tree_part h2 (root t2) (E1 ++ (p, b) :: E2) t2) by (split; done).
    destruct (splay_part h2 _ _ _ p Ht2' ltac:(apply in_keys)) as (h3 & t3 & Hm3 & Ht3).
    exists (inserted s p b h3 he (Data m)).
    split; [|split; [|done]].
    + unfold RtlInsertElementGenericTableFull. rewrite decide_True by done.
      unfold mbind at 1, TM_bind at 1. unfold get_table. rewrite Hnum. cbv iota.
      rewrite (run_alloc _ p m) by done. cbv beta. rewrite Hpn. cbv iota.
      rewrite (run_links _ _ tt h1) by exact Hm1. rewrite (run_lists _ _ tt he) by exact Hle'.
      unfold set_Number, modify_table. unfold mbind at 1, TM_bind at 1. cbn.
      assert (Hconn : forall B (k : unit -> TM U B) s1, Links (Mem s1) = h1 ->
        (match r with TableEmptyTree => set_TableRoot p | TableInsertAsLeft => on_links (RtlInsertAsLeftChild x p)
         | _ => on_links (RtlInsertAsRightChild x p) end ≫= k) s1 = k tt (set_links s1 h2)).
      { intros B k s1 <-. destruct r; [done|done|..]; by rewrite (run_links _ _ _ _ _ Hm2). }
      rewrite Hconn by done. rewrite (run_data_write _ _ d) by done. rewrite (run_links _ _ p h3) by exact Hm3.
      unfold mbind, TM_bind, mret, TM_ret, inserted, set_TableRoot, modify_table. cbn. by rewrite Hnum'.
    + rewrite HE. rewrite (proj1 (proj2 (dict_absent cmp b E1 E2 p H1 H2))).
      eapply (represents_inserted s E); done.
Qed.
End Operations.

Section Operations2.
Context {U : Type} (cmp : U -> U -> RTL_GENERIC_COMPARE_RESULTS) `{!CompareOrder cmp}.
Context (alloc : mem U -> Z * mem U) `{!Allocator alloc}.
Context (dealloc : Z -> mem U -> mem U) `{!Deallocator dealloc}.
Context (uninit : Z).
Implicit Types (s : state U) (E : list (Z * U)).

(** The search as a case distinction for clients: the element is there, or not. *)
Lemma find_cases s b E o : represents cmp s E o ->
  (exists E1 n u E2, E = E1 ++ (n, u) :: E2 /\ cmp b u = GenericEqual /\ dict_find cmp b E = Some n /\
     dict_delete cmp b E = E1 ++ E2 /\ (forall p, dict_insert cmp p b E = E) /\
     FindNodeOrParent cmp b uninit s = Some ((TableFoundNode, n), s)) \/
  (dict_find cmp b E = None /\ dict_delete cmp b E = E /\
   exists r x, r <> TableFoundNode /\ FindNodeOrParent cmp b uninit s = Some ((r, x), s)).
Proof.
  intros Hrep. destruct (decide (E = [])) as [->|Hne].
  - right. split_and!; [done..|]. exists TableEmptyTree, uninit. split; [done|by eapply find_empty].
  - destruct (find_correct cmp s b E o uninit Hrep Hne) as (r & x & t & Hf & Hfound & _).
    destruct Hfound as [E1 n u E2 HE Hu|y rr k E1 E2 _ HE _ _ H1 H2|y l k E1 E2 _ HE _ _ H1 H2].
    + left. pose proof (rep_sorted _ _ _ _ Hrep) as Hs. rewrite HE in Hs.
      destruct (equal_rest cmp b E1 n u E2 Hs Hu) as [H1 _].
      destruct (dict_present cmp b E1 n u E2 0 H1 Hu) as (D1 & _ & D3).
      exists E1, n, u, E2. rewrite HE. split_and!; try done. intros p.
      by apply (dict_present cmp b E1 n u E2 p H1 Hu).
    + right. destruct (dict_absent cmp b E1 E2 0 H1 H2) as (D1 & _ & D3). rewrite <- HE in *.
      split_and!; [done..|]. by exists TableInsertAsLeft, y.
    + right. destruct (dict_absent cmp b E1 E2 0 H1 H2) as (D1 & _ & D3). rewrite <- HE in *.
      split_and!; [done..|]. by exists TableInsertAsRight, y.
Qed.

Lemma Insert_found_spec s E o b n : represents cmp s E o -> dict_find cmp b E = Some n ->
  exists s', RtlInsertElementGenericTable cmp alloc uninit b s = Some ((UserDataOf n, false), s') /\
    represents cmp s' E o /\ TableRoot (Table s') = n.
Proof.
  intros Hrep Hfd. destruct (find_cases s b E o Hrep) as [(E1 & n' & u & E2 & HE & _ & Hd & _ & _ & Hf)|(Hd & _)];
    [|congruence].
  assert (n' = n) as -> by congruence.
  destruct (run_splay cmp s E o n Hrep) as (h & Hrun & Hrep'); [rewrite HE; apply in_keys|].
  exists (set_root s n h). split; [|done]. unfold RtlInsertElementGenericTable.
  unfold mbind at 1, TM_bind at 1. rewrite Hf. unfold RtlInsertElementGenericTableFull.
  rewrite decide_False by (intros H; by apply H). by rewrite Hrun.
Qed.

Lemma Insert_full_spec s E o b m : represents cmp s E o -> dict_find cmp b E = None ->
  Z.of_nat (length E) < MAXULONG - 1 -> alloc (Mem s) = (NULL, m) ->
  RtlInsertElementGenericTable cmp alloc uninit b s = Some ((NULL, false), mkState (Table s) m) /\
  represents cmp (mkState (Table s) m) E o.
Proof.
  intros Hrep Hnone Hlen Ha. destruct (alloc_keep _ _ _ Ha) as (S1 & S2 & S3).
  split; [|by apply represents_weaken].
  destruct (find_cases s b E o Hrep) as [(E1 & n & u & E2 & _ & _ & Hd & _)|(_ & _ & r & x & Hr & Hf)]; [congruence|].
  unfold RtlInsertElementGenericTable. unfold mbind at 1, TM_bind at 1. rewrite Hf.
  unfold RtlInsertElementGenericTableFull. rewrite decide_True by done.
  unfold mbind at 1, TM_bind at 1. unfold get_table. rewrite (rep_number _ _ _ _ Hrep).
  destruct (Z.eqb_spec (Z.of_nat (length E)) (MAXULONG - 1)); [lia|].
  by rewrite (run_alloc alloc _ NULL m).
Qed.

(** *** Deletion *)

Lemma delete_part h r E t E1 n (u : U) E2 : tree_part h r E t -> E = E1 ++ (n, u) :: E2 ->
  exists h' t', RtlDelete n h = Some (root t', h') /\ tree_part h' (root t') (E1 ++ E2) t'.
Proof.
  intros [Hin _ Hord] HE. rewrite HE, fmap_app in Hord. cbn in Hord.
  destruct (locate h t _ _ _ Hin Hord) as (l & rr & k & Ht & Hu & Hv).
  destruct (RtlDelete_zip l n rr k) as (t' & junk & Ho & Htr).
  destruct (triple_whole h t (RtlDelete n) (root t') t' junk l n rr k Ht Htr Hin) as (h' & Hm & Hin' & _).
  exists h', t'. split; [done|]. split; [done..|]. by rewrite Ho, fmap_app, Hu, Hv, <- !app_assoc.
Qed.

Lemma tree_frame h h' (E : list (Z * U)) r t n : tree_part h r E t -> n ∉ E.*1 ->
  (forall a, a <> n -> h' !! a = h !! a) -> tree_part h' r E t.
Proof.
  intros [[H1 H2 H3] Hr Ho] Hn Hf. split; [|done|done]. split; [done..|]. intros a v Hin.
  rewrite Hf; [by apply H3|]. intros ->. apply Hn. rewrite <- Ho, <- (links_keys (root t)).
  apply list_elem_of_fmap. by exists (n, v).
Qed.

Lemma list_frame h h' h0 o n : list_in h h0 o -> n ∉ h0 :: o ->
  (forall a, a <> n -> h' !! a = h !! a) -> list_in h' h0 o.
Proof.
  intros [H1 H2 H3] Hn Hf. split; [done..|]. intros a v Hin.
  rewrite Hf; [by apply H3|]. intros ->. apply Hn. rewrite <- ring_keys.
  apply list_elem_of_fmap. by exists (n, v).
Qed.

Lemma sorted_remove E1 e E2 : sorted cmp (E1 ++ e :: E2) -> sorted cmp (E1 ++ E2).
Proof.
  unfold sorted. induction E1 as [|d E1 IH]; cbn; intros Hs; inversion_clear Hs as [|? ? Hs' Hf]; [done|].
  constructor; [by apply IH|]. rewrite fmap_app in *. apply Forall_app in Hf as [H1 H2].
  apply Forall_app. split; [done|]. by apply Forall_cons in H2 as [_ H2].
Qed.

Lemma nodes_nodup s E o : represents cmp s E o -> NoDup E.*1.
Proof. intros Hrep. destruct (rep_tree _ _ _ _ Hrep) as (t & [Hin _ <-]). by eapply tree_in_nodup. Qed.

Definition deleted (s : state U) (r n : Z) (hl : heap RTL_SPLAY_LINKS) (he : heap LIST_ENTRY) : state U :=
  mkState (mkTable r (InsertOrderList (Table s)) (InsertOrderList (Table s)) 0
    (NumberGenericTableElements (Table s) - 1)) (dealloc n (mkMem hl he (Data (Mem s)))).

Lemma represents_deleted s E E1 n u E2 o o1 o2 h' t' he : represents cmp s E o -> E = E1 ++ (n, u) :: E2 ->
  o = o1 ++ n :: o2 -> tree_part h' (root t') (E1 ++ E2) t' ->
  list_in he (InsertOrderList (Table s)) (ListEntryOf <$> (o1 ++ o2)) ->
  represents cmp (deleted s (root t') n h' he) (E1 ++ E2) (o1 ++ o2).
Proof.
  intros Hrep HE Hoo Ht Hl. pose proof (nodes_nodup s E o Hrep) as Hnd.
  destruct (rep_list _ _ _ _ Hrep) as [[Lnd _ _] _]. rewrite ring_keys in Lnd.
  assert (Hn : n ∉ (E1 ++ E2).*1).
  { rewrite HE, fmap_app in Hnd. cbn in Hnd. rewrite <- Permutation_middle in Hnd.
    apply NoDup_cons in Hnd as [Hn _]. by rewrite fmap_app. }
  assert (Hle : ListEntryOf n ∉ InsertOrderList (Table s) :: (ListEntryOf <$> (o1 ++ o2))).
  { rewrite Hoo, fmap_app in Lnd. cbn in Lnd. rewrite <- Permutation_middle in Lnd.
    rewrite fmap_app. apply NoDup_cons in Lnd as [H1 H2]. apply NoDup_cons in H2 as [H2 _].
    intros [E0|E0]%elem_of_cons; [|done]. apply H1. rewrite E0. left. }
  assert (Hlen : length E = S (length (E1 ++ E2))) by (rewrite HE, !length_app; cbn; lia).
  unfold deleted. split; cbn.
  - exists t'. eapply tree_frame; [exact Ht|exact Hn|]. intros a Ha. by rewrite free_links.
  - split; cbn; [|by exists 0%nat]. eapply list_frame; [exact Hl|exact Hle|].
    intros a Ha. by rewrite free_lists.
  - apply Forall_forall. intros e He. pose proof (rep_data _ _ _ _ Hrep) as Hd. red in Hd.
    rewrite Forall_forall in Hd. destruct (Hd e) as [H1 H2]; [rewrite HE; apply elem_of_app in He as [He|He]; apply elem_of_app; [by left|right; by right]|]. split; [done|].
    rewrite free_data; [done|]. unfold UserDataOf. intros Hx. apply Hn. replace n with e.1 by lia.
    by apply list_elem_of_fmap_2.
  - eapply (sorted_remove E1 (n, u)). rewrite <- HE. apply Hrep.
  - pose proof (rep_order _ _ _ _ Hrep) as Hp. rewrite HE, Hoo, fmap_app in Hp. cbn in Hp.
    rewrite <- !Permutation_middle in Hp. apply Permutation_cons_inv in Hp. by rewrite fmap_app.
  - rewrite (rep_number _ _ _ _ Hrep), Hlen. lia.
  - pose proof (rep_bound _ _ _ _ Hrep). lia.
Qed.

Lemma Delete_spec s E o b : represents cmp s E o ->
  exists s' o', RtlDeleteElementGenericTable cmp dealloc uninit b s =
      Some (match dict_find cmp b E with Some _ => true | None => false end, s') /\
    represents cmp s' (dict_delete cmp b E) o' /\
    match dict_find cmp b E with
    | Some n => exists o1 o2, o = o1 ++ n :: o2 /\ o' = o1 ++ o2
    | None => s' = s /\ o' = o
    end.
Proof.
  intros Hrep. unfold RtlDeleteElementGenericTable.
  destruct (find_cases s b E o Hrep) as [(E1 & n & u & E2 & HE & Hu & Hd & Hdel & _ & Hf)|(Hd & Hdel & r & x & Hr & Hf)];
    rewrite Hd, Hdel; unfold mbind at 1, TM_bind at 1; rewrite Hf.
  2: { exists s, o. split_and!; [|done..]. by rewrite decide_True by (by right). }
  rewrite decide_False by (intros [Hx|Hx]; [done|by apply Hx]).
  destruct (rep_tree _ _ _ _ Hrep) as (t & Ht).
  destruct (delete_part _ _ _ _ _ _ _ _ Ht HE) as (h' & t' & Hm & Ht').
  assert (Hn : n ∈ o) by (rewrite (rep_order _ _ _ _ Hrep), HE; apply in_keys).
  apply list_elem_of_split in Hn as (o1 & o2 & Hoo).
  destruct (rep_list _ _ _ _ Hrep) as [Hl _]. rewrite Hoo, fmap_app in Hl. cbn in Hl.
  destruct (ring_triple _ _ _ _ _ _ _ (t_RemoveEntryList _ _ _ _) Hl) as (he & Hme & Hl' & _).
  rewrite <- fmap_app in Hl'.
  exists (deleted s (root t') n h' he), (o1 ++ o2).
  split_and!; [|by eapply represents_deleted|by exists o1, o2].
  rewrite (run_links _ _ _ h') by exact Hm.
  unfold set_TableRoot, set_Number, set_Ordered, modify_table, get_table. unfold mbind at 1, TM_bind at 1.
  erewrite (run_lists _ _ _ he) by exact Hme. unfold mbind, TM_bind, mret, TM_ret, free, deleted. cbn.
  rewrite u32_small; [done|]. pose proof (rep_bound _ _ _ _ Hrep). rewrite (rep_number _ _ _ _ Hrep).
  rewrite HE, length_app in *. cbn in *. unfold MAXULONG in *. lia.
Qed.
End Operations2.

Section Enumeration.
Context {U : Type} (cmp : U -> U -> RTL_GENERIC_COMPARE_RESULTS) `{!CompareOrder cmp}.
Implicit Types (s : state U) (E : list (Z * U)).

Lemma first_part h r E t : tree_part h r E t -> E <> [] ->
  with_fuel (fun fuel => leftmost fuel r) h = Some (hd NULL E.*1, h).
Proof.
  intros [Hin <- Hord] HE. rewrite <- Hord.
  assert (t <> Leaf) by (intros ->; cbn in Hord; symmetry in Hord; by apply fmap_nil_inv in Hord).
  apply (triple_read (links_of (root t) t)); [|done].
  apply (triple_fuel _ _ _ _ (length (links_of (root t) t))); [done|].
  intros m Hm. apply leftmost_correct; [done|lia].
Qed.

Lemma succ_part h r E t E1 n u E2 : tree_part h r E t -> E = E1 ++ (n, u) :: E2 ->
  RtlRealSuccessor n h = Some (hd NULL E2.*1, h).
Proof.
  intros [Hin _ Hord] HE. rewrite HE, fmap_app in Hord. cbn in Hord.
  destruct (locate h t _ _ _ Hin Hord) as (l & rr & k & Ht & _ & Hv). rewrite Hv.
  apply (triple_read (zip (Node l n rr) k)); [apply RealSuccessor_zip|].
  rewrite zip_plug, <- Ht. exact Hin.
Qed.

Lemma root_null_iff s E o : represents cmp s E o ->
  (TableRoot (Table s) =? NULL) = match E with [] => true | _ => false end.
Proof.
  intros Hrep. destruct (rep_tree _ _ _ _ Hrep) as (t & [Hin <- Hord]).
  rewrite (root_null t (root t)) by apply Hin. destruct t as [|l a r], E as [|e E]; cbn in Hord; try done.
  by destruct (inorder l).
Qed.

Lemma node_pos s E o n : represents cmp s E o -> n ∈ E.*1 -> (n =? NULL) = false /\ (UserDataOf n =? NULL) = false.
Proof.
  intros Hrep Hn. apply list_elem_of_fmap in Hn as (e & -> & He). pose proof (rep_data _ _ _ _ Hrep) as Hd.
  red in Hd. rewrite Forall_forall in Hd. destruct (Hd e He) as [H _].
  split; apply Z.eqb_neq; unfold UserDataOf, NULL; lia.
Qed.

Lemma Enumerate_first s E o n u E' : represents cmp s E o -> E = (n, u) :: E' ->
  exists s', RtlEnumerateGenericTable true s = Some (UserDataOf n, s') /\
    represents cmp s' E o /\ TableRoot (Table s') = n.
Proof.
  intros Hrep HE. destruct (rep_tree _ _ _ _ Hrep) as (t & Ht).
  assert (Hn : n ∈ E.*1) by (rewrite HE; left).
  destruct (run_splay cmp s E o n Hrep Hn) as (h & Hrun & Hrep').
  destruct (node_pos s E o n Hrep Hn) as [Hnn _].
  exists (set_root s n h). split; [|done].
  pose proof (first_part _ _ _ _ Ht ltac:(rewrite HE; done)) as Hfirst. rewrite HE in Hfirst. cbn in Hfirst.
  unfold RtlEnumerateGenericTable. rewrite run_empty, (root_null_iff s E o Hrep), HE, run_table.
  rewrite (run_step _ _ n (set_root s n h)).
  - unfold mret, TM_ret. by rewrite Hnn.
  - rewrite (run_links_read _ _ n) by exact Hfirst. apply Hrun.
Qed.

Lemma Enumerate_next s E o E1 n u E2 : represents cmp s E o -> E = E1 ++ (n, u) :: E2 ->
  TableRoot (Table s) = n ->
  exists s', RtlEnumerateGenericTable false s = Some (ptr (head E2.*1), s') /\
    represents cmp s' E o /\ TableRoot (Table s') = hd n E2.*1.
Proof.
  intros Hrep HE Hroot. destruct (rep_tree _ _ _ _ Hrep) as (t & Ht).
  pose proof (succ_part _ _ _ _ _ _ _ _ Ht HE) as Hsucc.
  assert (Hemp : (TableRoot (Table s) =? NULL) = false).
  { rewrite (root_null_iff s E o Hrep), HE. by destruct E1. }
  unfold RtlEnumerateGenericTable. rewrite run_empty, Hemp, run_table, Hroot.
  destruct E2 as [|[n2 u2] E2]; cbn [hd head ptr fmap list_fmap fst] in *.
  - exists s. split; [|done]. rewrite (run_step _ _ NULL s); [done|].
    by rewrite (run_links_read _ _ NULL) by exact Hsucc.
  - assert (Hn : n2 ∈ E.*1) by (rewrite HE, fmap_app; cbn; set_solver).
    destruct (run_splay cmp s E o n2 Hrep Hn) as (h & Hrun & Hrep').
    destruct (node_pos s E o n2 Hrep Hn) as [Hnn _].
    exists (set_root s n2 h). split; [|done]. rewrite (run_step _ _ n2 (set_root s n2 h)).
    + unfold mret, TM_ret. by rewrite Hnn.
    + rewrite (run_links_read _ _ n2) by exact Hsucc. rewrite Hnn. cbn [negb]. rewrite run_assoc. apply Hrun.
Qed.

(** The loop the description of RtlEnumerateGenericTable gives for its use. *)
Fixpoint enumerate_next (fuel : nat) : TM U (list Z) :=
  match fuel with
  | O => tfault
  | S fuel => p ← RtlEnumerateGenericTable false;
      if p =? NULL then mret [] else rest ← enumerate_next fuel; mret (p :: rest)
  end.
Definition enumerate_all (fuel : nat) : TM U (list Z) :=
  p ← RtlEnumerateGenericTable true;
  if p =? NULL then mret [] else rest ← enumerate_next fuel; mret (p :: rest).

Lemma enumerate_next_spec E o E2 : forall s E1 n u fuel, represents cmp s E o -> E = E1 ++ (n, u) :: E2 ->
  TableRoot (Table s) = n -> (length E2 < fuel)%nat ->
  exists s', enumerate_next fuel s = Some (UserDataOf <$> E2.*1, s') /\ represents cmp s' E o.
Proof.
  induction E2 as [|[n2 u2] E2 IH]; intros s E1 n u [|fuel] Hrep HE Hroot Hf; cbn in Hf; try lia;
    destruct (Enumerate_next s E o _ _ _ _ Hrep HE Hroot) as (s' & Hs & Hrep' & Hroot');
    cbn [enumerate_next]; unfold mbind at 1, TM_bind at 1; rewrite Hs.
  - by exists s'.
  - cbn [head ptr fmap list_fmap fst].
    assert (Hn : n2 ∈ E.*1) by (rewrite HE, fmap_app; cbn; set_solver).
    rewrite (proj2 (node_pos s E o n2 Hrep Hn)).
    destruct (IH s' (E1 ++ [(n, u)]) n2 u2 fuel) as (s2 & Hs2 & Hrep2);
      [done|by rewrite HE, <- app_assoc|done|lia|].
    exists s2. split; [|done]. unfold mbind, TM_bind. by rewrite Hs2.
Qed.

Lemma enumerate_all_spec s E o fuel : represents cmp s E o -> (length E <= fuel)%nat ->
  exists s', enumerate_all fuel s = Some (UserDataOf <$> E.*1, s') /\ represents cmp s' E o.
Proof.
  intros Hrep Hf. unfold enumerate_all. destruct E as [|[n u] E0].
  - exists s. split; [|done]. unfold RtlEnumerateGenericTable, RtlIsGenericTableEmpty, get_table, mbind, TM_bind, mret, TM_ret.
    by rewrite (root_null_iff s [] o Hrep).
  - destruct (Enumerate_first s _ o n u E0 Hrep eq_refl) as (s' & Hs & Hrep' & Hroot).
    rewrite (run_step _ _ _ _ _ Hs), (proj2 (node_pos s _ o n Hrep ltac:(left))).
    destruct (enumerate_next_spec ((n, u) :: E0) o E0 s' [] n u fuel) as (s2 & Hs2 & Hrep2); try done.
    exists s2. split; [|done]. by rewrite (run_step _ _ _ _ _ Hs2).
Qed.

Lemma WithoutSplaying_spec s E o E1 n u E2 : represents cmp s E o -> E = E1 ++ (n, u) :: E2 ->
  RtlEnumerateGenericTableWithoutSplaying n s = Some ((ptr (head E2.*1), hd n E2.*1), s) /\
  RtlEnumerateGenericTableWithoutSplaying NULL s = Some ((ptr (head E.*1), hd NULL E.*1), s).
Proof.
  intros Hrep HE. destruct (rep_tree _ _ _ _ Hrep) as (t & Ht).
  pose proof (succ_part _ _ _ _ _ _ _ _ Ht HE) as Hsucc.
  assert (Hne : E <> []) by (rewrite HE; by destruct E1).
  pose proof (first_part _ _ _ _ Ht Hne) as Hfirst.
  assert (Hemp : (TableRoot (Table s) =? NULL) = false).
  { rewrite (root_null_iff s E o Hrep), HE. by destruct E1. }
  assert (Hnn : forall m, m ∈ E.*1 -> (m =? NULL) = false) by (intros m Hm; by apply (node_pos s E o m Hrep)).
  unfold RtlEnumerateGenericTableWithoutSplaying. rewrite !run_empty, Hemp, !run_table. split.
  - rewrite (Hnn n) by (rewrite HE; apply in_keys).
    rewrite run_assoc, (run_links_read _ _ (hd NULL E2.*1)), run_ret by exact Hsucc.
    destruct E2 as [|[n2 u2] E2]; [done|]. cbn [hd head fmap list_fmap fst]. unfold mret, TM_ret.
    by rewrite (Hnn n2) by (rewrite HE, fmap_app; cbn; set_solver).
  - rewrite Z.eqb_refl. rewrite run_assoc, (run_links_read _ _ (hd NULL E.*1)), run_ret by exact Hfirst.
    clear HE. destruct E as [|[n2 u2] E0]; [done|]. cbn [hd head fmap list_fmap fst]. unfold mret, TM_ret.
    by rewrite (Hnn n2) by left.
Qed.

(** *** The i-th element inserted *)

Lemma walk_flink_spec h h0 (L : list Z) n : forall i a b, list_in h h0 L -> (h0 :: L) !! i = Some a ->
  (h0 :: L) !! (i + n)%nat = Some b -> walk_flink n a h = Some (b, h).
Proof.
  induction n as [|n IH]; intros i a b Hin Ha Hb; cbn [walk_flink].
  - rewrite Nat.add_0_r in Hb. by simplify_eq.
  - destruct (ring_flink h0 L i a Ha) as (bl & Hr).
    assert (is_Some ((h0 :: L) !! S i)) as [c Hc].
    { apply lookup_lt_is_Some. apply lookup_lt_Some in Hb. lia. }
    rewrite Hc in Hr. cbn [default] in Hr. unfold mbind, M_bind.
    assert (Hg : get_Flink a h = Some (c, h)).
    { apply (triple_read (ring h0 L)); [|done]. apply triple_tail. eapply r_Flink; [exact Hr|]. apply triple_ret. }
    rewrite Hg. apply (IH (S i)); [done|done|]. by rewrite Nat.add_succ_comm.
Qed.

Lemma walk_blink_spec h h0 (L : list Z) n : forall i a b, list_in h h0 L -> (h0 :: L) !! (i + n)%nat = Some a ->
  (h0 :: L) !! i = Some b -> walk_blink n a h = Some (b, h).
Proof.
  induction n as [|n IH]; intros i a b Hin Ha Hb; cbn [walk_blink].
  - rewrite Nat.add_0_r in Ha. by simplify_eq.
  - rewrite Nat.add_succ_r in Ha. destruct (ring_blink h0 L (i + n) a Ha) as (c & f & Hc & Hr).
    assert (Hg : get_Blink a h = Some (c, h)).
    { apply (triple_read (ring h0 L)); [|done]. apply triple_tail. eapply r_Blink; [exact Hr|]. apply triple_ret. }
    unfold mbind, M_bind. rewrite Hg. by apply (IH i).
Qed.

(** Walking backwards from the head starts at the last entry. *)
Lemma walk_blink_head h h0 (L : list Z) n i b : list_in h h0 L -> (i + n = length L)%nat ->
  (h0 :: L) !! i = Some b -> walk_blink (S n) h0 h = Some (b, h).
Proof.
  intros Hin Hi Hb. destruct (ring_blink_head h0 L) as (c & f & Hc & Hr). cbn [walk_blink].
  assert (Hg : get_Blink h0 h = Some (c, h)).
  { apply (triple_read (ring h0 L)); [|done]. apply triple_tail. eapply r_Blink; [exact Hr|]. apply triple_ret. }
  unfold mbind, M_bind. rewrite Hg. apply (walk_blink_spec h h0 L n i); [done|by rewrite Hi|done].
Qed.

Lemma run_lists_read {A B} s (m : M LIST_ENTRY A) x (k : A -> TM U B) :
  m (Lists (Mem s)) = Some (x, Lists (Mem s)) -> (on_lists m ≫= k) s = k x s.
Proof. intros Hm. rewrite (run_lists _ _ _ _ _ Hm). by destruct s as [t []]. Qed.

Definition set_cursor s (p w : Z) : state U :=
  mkState (mkTable (TableRoot (Table s)) (InsertOrderList (Table s)) p w (NumberGenericTableElements (Table s))) (Mem s).

Lemma Get_spec s E o I : represents cmp s E o -> 0 <= I <= MAXULONG ->
  exists s', RtlGetElementGenericTable I s = Some (ptr (o !! Z.to_nat I), s') /\ represents cmp s' E o.
Proof.
  intros Hrep HI. unfold RtlGetElementGenericTable. rewrite run_table. cbv zeta.
  pose proof (rep_number _ _ _ _ Hrep) as Hnum. pose proof (rep_bound _ _ _ _ Hrep) as Hbound.
  assert (Hlen : length o = length E) by (rewrite (rep_order _ _ _ _ Hrep); apply length_fmap).
  destruct (rep_list _ _ _ _ Hrep) as [Hin (i & Hi & Hc)]. rewrite Hnum, Hi. unfold MAXULONG in *.
  destruct ((I =? 4294967295) || (u32 (I + 1) >? Z.of_nat (length E))) eqn:Eout.
  { exists s. split; [|done]. rewrite lookup_ge_None_2; [done|].
    destruct (Z.eqb_spec I 4294967295); [lia|]. rewrite u32_small in Eout by lia. cbn in Eout. lia. }
  apply orb_false_iff in Eout as [H1 H2]. apply Z.eqb_neq in H1.
  rewrite (u32_small (I + 1)) in H2 |- * by lia.
  assert (exists n, o !! Z.to_nat I = Some n) as [n Hn] by (apply lookup_lt_is_Some; lia).
  rewrite Hn. cbn [ptr]. set (h0 := InsertOrderList (Table s)) in *. set (L := ListEntryOf <$> o) in *.
  assert (HL : (h0 :: L) !! Z.to_nat (I + 1) = Some (ListEntryOf n)).
  { replace (Z.to_nat (I + 1)) with (S (Z.to_nat I)) by lia.
    change (L !! Z.to_nat I = Some (ListEntryOf n)). unfold L. by rewrite list_lookup_fmap, Hn. }
  assert (HLlen : length L = length E) by (unfold L; by rewrite length_fmap).
  assert (Hrec : UserDataOf (RecordOfListEntry (ListEntryOf n)) = UserDataOf n)
    by (unfold UserDataOf, RecordOfListEntry, ListEntryOf; lia).
  pose proof (lookup_lt_Some _ _ _ Hc) as Hilt. cbn [length] in Hilt. rewrite HLlen in Hilt.
  destruct (Z.eqb_spec (I + 1) (Z.of_nat i)) as [He|Hne].
  { exists s. split; [|done]. rewrite He, Nat2Z.id in HL. assert (OrderedPointer (Table s) = ListEntryOf n) as -> by congruence.
    by rewrite Hrec. }
  exists (set_cursor s (ListEntryOf n) (I + 1)). split.
  - assert (Hfin : forall m : M LIST_ENTRY Z, m (Lists (Mem s)) = Some (ListEntryOf n, Lists (Mem s)) ->
      (c ← on_lists m; set_Ordered c (I + 1);; mret (UserDataOf (RecordOfListEntry c))) s
      = Some (UserDataOf n, set_cursor s (ListEntryOf n) (I + 1))).
    { intros m Hm. rewrite (run_lists_read _ _ _ _ Hm). unfold set_Ordered, modify_table, mbind, TM_bind, mret, TM_ret.
      by rewrite Hrec. }
    destruct (Z.gtb_spec (Z.of_nat i) (I + 1)); [destruct (Z.gtb_spec (I + 1) (Z.of_nat i / 2))|].
    + apply Hfin. rewrite u32_small by lia. eapply (walk_blink_spec _ h0 L _ (Z.to_nat (I + 1))); [done| |done].
      rewrite <- Hc. f_equal. lia.
    + apply Hfin. by eapply (walk_flink_spec _ h0 L _ 0).
    + rewrite (u32_small (I + 1 - Z.of_nat i)) by lia. rewrite (u32_small (Z.of_nat (length E) - (I + 1))) by lia.
      rewrite (u32_small (Z.of_nat (length E) - (I + 1) + 1)) by lia.
      destruct (Z.leb_spec (I + 1 - Z.of_nat i) (Z.of_nat (length E) - (I + 1) + 1)).
      * apply Hfin. eapply (walk_flink_spec _ h0 L _ i); [done|done|]. rewrite <- HL. f_equal. lia.
      * apply Hfin. replace (Z.to_nat (Z.of_nat (length E) - (I + 1) + 1)) with (S (length E - Z.to_nat (I + 1)))%nat by lia.
        eapply (walk_blink_head _ h0 L _ (Z.to_nat (I + 1))); [done|lia|done].
  - destruct Hrep as [R1 R2 R3 R4 R5 R6 R7]. split; try done. cbn. split; [done|].
    exists (Z.to_nat (I + 1)). split; [cbn; lia|done].
Qed.
End Enumeration.

(** ** Refinement *)

(** The requests of a user and their answers. *)
Inductive request (U : Type) :=
| AskInsert (b : U) | AskDelete (b : U) | AskLookup (b : U) | AskElement (Idx : Z) | AskNumber | AskEmpty.
Arguments AskInsert {U}. Arguments AskDelete {U}. Arguments AskLookup {U}. Arguments AskElement {U}.
Arguments AskNumber {U}. Arguments AskEmpty {U}.

Inductive answer := Pointer (p : Z) | NewPointer (p : Z) (NewElement : bool) | Boolean (b : bool) | Number (n : Z).

Section Refinement.
Context {U : Type} (cmp : U -> U -> RTL_GENERIC_COMPARE_RESULTS) `{!CompareOrder cmp}.
Context (alloc : mem U -> Z * mem U) `{!Allocator alloc}.
Context (dealloc : Z -> mem U -> mem U) `{!Deallocator dealloc}.
Context (uninit : Z).
Implicit Types (s : state U) (E : list (Z * U)).

(** A request served by the table. *)
Definition serve (q : request U) : TM U answer :=
  match q with
  | AskInsert b => r ← RtlInsertElementGenericTable cmp alloc uninit b; mret (NewPointer (fst r) (snd r))
  | AskDelete b => r ← RtlDeleteElementGenericTable cmp dealloc uninit b; mret (Boolean r)
  | AskLookup b => r ← RtlLookupElementGenericTable cmp uninit b; mret (Pointer r)
  | AskElement Idx => r ← RtlGetElementGenericTable Idx; mret (Pointer r)
  | AskNumber => r ← RtlNumberGenericTableElements; mret (Number r)
  | AskEmpty => r ← RtlIsGenericTableEmpty; mret (Boolean r)
  end.

(** The same request on the dictionary [E] and the order of insertion [o]; [p]
    is what the allocation routine returns if it is called. *)
Definition specify (q : request U) (p : Z) (d : list (Z * U) * list Z) : answer * (list (Z * U) * list Z) :=
  let '(E, o) := d in
  match q with
  | AskInsert b => match dict_find cmp b E with
      | Some n => (NewPointer (UserDataOf n) false, (E, o))
      | None => if p =? NULL then (NewPointer NULL false, (E, o))
                else (NewPointer (UserDataOf p) true, (dict_insert cmp p b E, o ++ [p])) end
  | AskDelete b => match dict_find cmp b E with
      | Some n => (Boolean true, (dict_delete cmp b E, filter (fun m => m <> n) o))
      | None => (Boolean false, (E, o)) end
  | AskLookup b => (Pointer (ptr (dict_find cmp b E)), (E, o))
  | AskElement Idx => (Pointer (ptr (o !! Z.to_nat Idx)), (E, o))
  | AskNumber => (Number (Z.of_nat (length E)), (E, o))
  | AskEmpty => (Boolean (match E with [] => true | _ => false end), (E, o))
  end.

Definition valid_request (q : request U) : Prop :=
  match q with AskElement Idx => 0 <= Idx <= MAXULONG | _ => True end.

Lemma filter_removed n (o1 o2 : list Z) : NoDup (o1 ++ n :: o2) ->
  filter (fun m => m <> n) (o1 ++ n :: o2) = o1 ++ o2.
Proof.
  intros Hnd. rewrite <- Permutation_middle in Hnd. apply NoDup_cons in Hnd as [Hn _].
  rewrite not_elem_of_app in Hn. destruct Hn as [H1 H2].
  assert (Hid : forall l : list Z, n ∉ l -> filter (fun m => m <> n) l = l).
  { induction l as [|a l IH]; intros Hl; [done|]. apply not_elem_of_cons in Hl as [Ha Hl].
    rewrite filter_cons_True by done. by rewrite IH. }
  rewrite filter_app, filter_cons_False by (intros H; by apply H). by rewrite !Hid.
Qed.

Lemma serve_correct s E o q : represents cmp s E o -> Z.of_nat (length E) < MAXULONG - 1 -> valid_request q ->
  let '(a, (E', o')) := specify q (fst (alloc (Mem s))) (E, o) in
  exists s', serve q s = Some (a, s') /\ represents cmp s' E' o' /\ (length E' <= S (length E))%nat.
Proof.
  intros Hrep Hlen Hq. destruct q as [b|b|b|Idx| |]; cbn [specify serve valid_request] in *.
  - destruct (dict_find cmp b E) as [n|] eqn:Ed.
    + destruct (Insert_found_spec cmp alloc uninit s E o b n Hrep Ed) as (s' & Hs & Hr & _).
      exists s'. rewrite (run_step _ _ _ _ _ Hs). split_and!; [done|done|lia].
    + destruct (alloc (Mem s)) as [p m] eqn:Ea. cbn [fst]. destruct (Z.eqb_spec p NULL) as [->|Hp].
      * destruct (Insert_full_spec cmp alloc uninit s E o b m Hrep Ed Hlen Ea) as [Hs Hr].
        eexists. rewrite (run_step _ _ _ _ _ Hs). split_and!; [done|done|lia].
      * destruct (Insert_new_spec cmp alloc uninit s E o b p m Hrep Ed Hlen Ea Hp) as (s' & Hs & Hr & _).
        exists s'. rewrite (run_step _ _ _ _ _ Hs). split_and!; [done|done|].
        clear. induction E as [|[n u] E IH]; cbn; [lia|]. destruct (cmp b u); cbn; lia.
  - destruct (Delete_spec cmp dealloc uninit s E o b Hrep) as (s' & o' & Hs & Hr & Hm).
    assert (Hle : (length (dict_delete cmp b E) <= length E)%nat).
    { clear. induction E as [|[n u] E IH]; cbn; [lia|]. destruct (cmp b u); cbn; lia. }
    destruct (dict_find cmp b E) as [n|] eqn:Ed.
    + destruct Hm as (o1 & o2 & -> & ->). exists s'. rewrite (run_step _ _ _ _ _ Hs).
      rewrite filter_removed; [split_and!; [done|done|lia]|].
      rewrite (rep_order _ _ _ _ Hrep). by eapply nodes_nodup.
    + destruct Hm as [-> ->]. exists s. rewrite (run_step _ _ _ _ _ Hs). split_and!; [done|done|lia].
  - destruct (Lookup_spec cmp uninit s E o b Hrep) as (s' & Hs & Hr & _).
    exists s'. rewrite (run_step _ _ _ _ _ Hs). split_and!; [done|done|lia].
  - destruct (Get_spec cmp s E o Idx Hrep Hq) as (s' & Hs & Hr).
    exists s'. rewrite (run_step _ _ _ _ _ Hs). split_and!; [done|done|lia].
  - exists s. unfold RtlNumberGenericTableElements, get_table, mbind, TM_bind, mret, TM_ret.
    rewrite (rep_number _ _ _ _ Hrep). split_and!; [done|done|lia].
  - exists s. rewrite run_empty, (root_null_iff cmp s E o Hrep). split_and!; [done|done|lia].
Qed.

(** A sequence of requests, the answers of the allocation routine on the way, and
    the sequence on the dictionary. *)
Fixpoint serve_all (qs : list (request U)) : TM U (list answer) :=
  match qs with
  | [] => mret []
  | q :: qs => a ← serve q; l ← serve_all qs; mret (a :: l)
  end.
Fixpoint allocations (qs : list (request U)) (s : state U) : list Z :=
  match qs with
  | [] => []
  | q :: qs => fst (alloc (Mem s)) ::
      match serve q s with Some (_, s') => allocations qs s' | None => [] end
  end.
Fixpoint specify_all (qs : list (request U)) (ps : list Z) (d : list (Z * U) * list Z)
    : list answer * (list (Z * U) * list Z) :=
  match qs, ps with
  | q :: qs, p :: ps =>
      let '(a, d') := specify q p d in let '(l, d'') := specify_all qs ps d' in (a :: l, d'')
  | _, _ => ([], d)
  end.

(** C4: A generic table implements a dictionary with an order of insertion: in
    any sequence of insertions, deletions, lookups, accesses by index and
    queries, no routine faults or runs on, and every answer, pointers and
    NewElement included, is the one the sorted association list gives, with the
    nodes the allocation routine hands out; in particular a failed allocation
    changes nothing, duplicates are found, deletion moves later elements up. *)
Theorem table_refines_dictionary qs s E o : represents cmp s E o ->
  Z.of_nat (length E) + Z.of_nat (length qs) < MAXULONG - 1 -> Forall valid_request qs ->
  let '(l, (E', o')) := specify_all qs (allocations qs s) (E, o) in
  exists s', serve_all qs s = Some (l, s') /\ represents cmp s' E' o'.
Proof.
  revert s E o. induction qs as [|q qs IH]; intros s E o Hrep Hlen Hv; cbn [specify_all serve_all allocations].
  - by exists s.
  - apply Forall_cons in Hv as [Hq Hv]. cbn [length] in Hlen.
    pose proof (serve_correct s E o q Hrep ltac:(lia) Hq) as Hstep.
    destruct (specify q (fst (alloc (Mem s))) (E, o)) as [a [E1 o1]].
    destruct Hstep as (s1 & Hs1 & Hrep1 & Hle). rewrite Hs1.
    specialize (IH s1 E1 o1 Hrep1 ltac:(lia) Hv).
    destruct (specify_all qs (allocations qs s1) (E1, o1)) as [l [E2 o2]].
    destruct IH as (s2 & Hs2 & Hrep2). exists s2. split; [|done].
    by rewrite (run_step _ _ _ _ _ Hs1), (run_step _ _ _ _ _ Hs2).
Qed.

(** RtlEnumerateGenericTable, called with Restart and then until it returns
    NULL, returns every element of the table once, in order, and its variant
    without splaying steps from each element to the next and changes nothing. *)
Theorem RtlEnumerateGenericTable_complete s E o : represents cmp s E o ->
  (exists s', enumerate_all (length E) s = Some (UserDataOf <$> E.*1, s') /\ represents cmp s' E o) /\
  forall E1 n u E2, E = E1 ++ (n, u) :: E2 ->
    RtlEnumerateGenericTableWithoutSplaying NULL s = Some ((ptr (head E.*1), hd NULL E.*1), s) /\
    RtlEnumerateGenericTableWithoutSplaying n s = Some ((ptr (head E2.*1), hd n E2.*1), s).
Proof.
  intros Hrep. split; [by apply enumerate_all_spec|]. intros E1 n u E2 HE.
  destruct (WithoutSplaying_spec cmp s E o E1 n u E2 Hrep HE) as [H1 H2]. by split.
Qed.

(** RtlInitializeGenericTable gives an empty table. *)
Lemma Initialize_spec s e : Lists (Mem s) !! InsertOrderList (Table s) = Some e -> InsertOrderList (Table s) <> NULL ->
  exists s', RtlInitializeGenericTable s = Some (tt, s') /\ represents cmp s' [] [].
Proof.
  intros He Hn.
  destruct (t_InitializeListHead (InsertOrderList (Table s)) e (Lists (Mem s))) as (h & Hm & Ho & _).
  { apply owns_fresh; [split|..]; try done.
    - apply NoDup_nil_2.
    - cbn. apply not_elem_of_nil.
    - intros a v Hin. by apply not_elem_of_nil in Hin.
    - cbn. apply not_elem_of_nil. }
  eexists. split.
  - unfold RtlInitializeGenericTable, set_TableRoot, modify_table. unfold mbind at 1, TM_bind at 1.
    rewrite run_table. erewrite run_lists by exact Hm. reflexivity.
  - split; cbn; try done.
    + exists Leaf. split; [|done|done]. split; cbn; [apply NoDup_nil_2|apply not_elem_of_nil|].
      intros a v Hin. by apply not_elem_of_nil in Hin.
    + split; cbn; [exact Ho|]. by exists 0%nat.
    + constructor.
    + constructor.
Qed.
End Refinement.

(** ** A table of integers *)

Definition int_compare (x y : Z) : RTL_GENERIC_COMPARE_RESULTS :=
  match x ?= y with Lt => GenericLessThan | Gt => GenericGreaterThan | Eq => GenericEqual end.

#[global] Instance int_compare_order : CompareOrder int_compare.
Proof.
  unfold int_compare. split; intros x y.
  - destruct (Z.compare_spec x y), (Z.compare_spec y x); split; try done; lia.
  - intros z. destruct (Z.compare_spec x y), (Z.compare_spec y z), (Z.compare_spec x z); try done; lia.
  - intros z. destruct (Z.compare_spec x y); try done. by subst.
Qed.

(** An allocator that takes the first address above all in use, and its inverse. *)
Definition addresses (m : mem Z) : list Z :=
  (map_to_list (Links m)).*1 ++ (map_to_list (Lists m)).*1 ++ (map_to_list (Data m)).*1.
Definition next_address (m : mem Z) : Z := 1 + foldr Z.max 0 (addresses m).
Definition bump_alloc (m : mem Z) : Z * mem Z :=
  let p := next_address m in
  (p, mkMem (<[p := mkLinks 0 0 0]> (Links m)) (<[ListEntryOf p := mkEntry 0 0]> (Lists m))
        (<[UserDataOf p := 0]> (Data m))).
Definition bump_free (p : Z) (m : mem Z) : mem Z :=
  mkMem (delete p (Links m)) (delete (ListEntryOf p) (Lists m)) (delete (UserDataOf p) (Data m)).

Lemma max_ge l a : a ∈ l -> 0 <= foldr Z.max 0 l /\ a <= foldr Z.max 0 l.
Proof. induction 1 as [a l|a b l _ IH]; cbn; [|lia]. induction l; cbn; lia. Qed.
Lemma max_nonneg l : 0 <= foldr Z.max 0 l.
Proof. induction l; cbn; lia. Qed.

Lemma above_all {V} (h : heap V) l a : (forall b, b ∈ (map_to_list h).*1 -> b ∈ l) ->
  1 + foldr Z.max 0 l <= a -> h !! a = None.
Proof.
  intros Hl Ha. destruct (h !! a) as [v|] eqn:E; [|done]. apply elem_of_map_to_list in E.
  destruct (max_ge l a) as [_ H]; [|lia]. apply Hl, list_elem_of_fmap. by exists (a, v).
Qed.

#[global] Instance bump_allocator : Allocator bump_alloc.
Proof.
  assert (Hfresh : forall m, 0 < next_address m /\ Links m !! next_address m = None /\
    Lists m !! ListEntryOf (next_address m) = None /\ Data m !! UserDataOf (next_address m) = None).
  { intros m. unfold next_address, ListEntryOf, UserDataOf. pose proof (max_nonneg (addresses m)).
    split_and!; [lia|eapply (above_all _ (addresses m))..]; try lia; unfold addresses; intros b Hb;
      rewrite !elem_of_app; tauto. }
  split; unfold bump_alloc; intros m p m' [= <- <-]; destruct (Hfresh m) as (H0 & H1 & H2 & H3); cbn.
  - split_and!; by apply insert_subseteq.
  - intros _. rewrite !lookup_insert_eq. split_and!; try done; by eexists.
Qed.
#[global] Instance bump_deallocator : Deallocator bump_free.
Proof. by split; intros p m a Ha; cbn; apply lookup_delete_ne. Qed.

Definition ex_start : state Z :=
  mkState (mkTable NULL 4 4 0 0) (mkMem ∅ {[4 := mkEntry 4 4]} ∅).

Lemma ex_start_empty : represents int_compare ex_start [] [].
Proof.
  split; cbn; try done.
  - exists Leaf. split; [|done|done]. split; cbn; [apply NoDup_nil_2|apply not_elem_of_nil|].
    intros a v Hin. by apply not_elem_of_nil in Hin.
  - split; cbn; [|by exists 0%nat]. split; cbn; [apply NoDup_singleton|by rewrite list_elem_of_singleton|].
    intros a v [= -> ->]%list_elem_of_singleton. apply lookup_singleton_eq.
  - constructor.
  - constructor.
Qed.

Definition ex_requests : list (request Z) :=
  [AskInsert 50; AskInsert 30; AskInsert 90; AskInsert 30; AskElement 1; AskDelete 50; AskElement 1; AskLookup 30; AskLookup 50;
   AskNumber].

Lemma table_refines_dictionary_witness : exists s' E' o',
  serve_all int_compare bump_alloc bump_free 0 ex_requests ex_start =
    Some ([NewPointer 29 true; NewPointer 54 true; NewPointer 79 true; NewPointer 54 false; Pointer 54;
           Boolean true; Pointer 79; Pointer 54; Pointer NULL; Number 2], s') /\
  represents int_compare s' E' o'.
Proof.
  pose proof (table_refines_dictionary int_compare bump_alloc bump_free 0 ex_requests ex_start [] []
    ex_start_empty) as H.
  destruct (specify_all int_compare ex_requests (allocations int_compare bump_alloc bump_free 0 ex_requests ex_start) ([], []))
    as [l [E' o']] eqn:Es.
  destruct H as (s' & H1 & H2); [vm_compute; reflexivity| |].
  - repeat constructor; unfold valid_request, MAXULONG; lia.
  - exists s', E', o'. split; [|exact H2]. vm_compute in Es. injection Es as Hl _ _. rewrite H1, <- Hl. reflexivity.
Defined.

(** A table with two elements, as left by two insertions. *)
Definition ex_two : state Z :=
  match serve_all int_compare bump_alloc bump_free 0 [AskInsert 50; AskInsert 30] ex_start with
  | Some (_, s) => s | None => ex_start end.

Lemma ex_two_represents : represents int_compare ex_two [(30, 30); (5, 50)] [5; 30].
Proof.
  split.
  - exists (Node Leaf 30 (Node Leaf 5 Leaf)). split; [|vm_compute; reflexivity..].
    split; [apply (bool_decide_eq_true_1 _); vm_compute; reflexivity..|].
    intros a v Hin. cbn in Hin. repeat (apply elem_of_cons in Hin as [Hv|Hin]; [injection Hv as -> ->; vm_compute; reflexivity|]).
    by apply not_elem_of_nil in Hin.
  - split; [|exists 0%nat; vm_compute; split; reflexivity].
    split; [apply (bool_decide_eq_true_1 _); vm_compute; reflexivity..|].
    intros a v Hin. vm_compute in Hin.
    repeat (apply elem_of_cons in Hin as [Hv|Hin]; [injection Hv as -> ->; vm_compute; reflexivity|]).
    by apply not_elem_of_nil in Hin.
  - repeat (constructor; [split; vm_compute; reflexivity|]). constructor.
  - unfold sorted. cbn. repeat constructor.
  - cbn. apply perm_swap.
  - vm_compute. reflexivity.
  - vm_compute. discriminate.
Qed.

Lemma RtlEnumerateGenericTable_complete_witness :
  (exists s', enumerate_all 2 ex_two = Some ([54; 29], s')) /\
  RtlEnumerateGenericTableWithoutSplaying 30 ex_two = Some ((29, 5), ex_two).
Proof.
  destruct (RtlEnumerateGenericTable_complete int_compare ex_two [(30, 30); (5, 50)] [5; 30] ex_two_represents)
    as [(s' & H1 & _) H2].
  split; [exists s'; exact H1|]. exact (proj2 (H2 [] 30 30 [(5, 50)] eq_refl)).
Defined.

End GenTableOps.
