(* ===== verification/RtlAvl.v ===== *)
(** * Balanced trees (rtl/avltable.c, the tree)

    The nodes of a balanced tree are records in memory ([RTL_BALANCED_LINKS]).
    The table holds one more record, [BalancedRoot]: it is its own parent, has no
    left child, and its right child is the root of the tree, so that no routine
    has a special case for the root.  Module [Avl] translates the internal
    routines of src/ntoskrnl/rtl/avltable.c, write by write: PromoteNode,
    RebalanceNode, the loop of the insertion, DeleteNodeFromTree, RealSuccessor
    and RealPredecessor.  A failed ASSERT is a fault.  The loops run on fuel, one
    unit per record of the memory and one more: each turn moves to another node.

    The specification is by [tree], where every node has its balance: [cells W]
    are the records of [W], the header included, and [avl] says that every
    balance is the difference of the heights of the two sides and at most one.
    [rebalance] is RebalanceNode as a function on trees; what the loops of the
    insertion and the deletion leave is proved in RtlAvlTree.v. *)

From S2P Require Import Prelude RtlHeap.
From stdpp Require Import gmap list_tactics.
#[local] Open Scope Z_scope.

Module Avl.

Record RTL_BALANCED_LINKS := mkLinks { Parent : Z; LeftChild : Z; RightChild : Z; Balance : Z }.
Abbreviation BM := (M RTL_BALANCED_LINKS).

Definition get_Parent (X : Z) : BM Z := l ← load X; mret (Parent l).
Definition get_LeftChild (X : Z) : BM Z := l ← load X; mret (LeftChild l).
Definition get_RightChild (X : Z) : BM Z := l ← load X; mret (RightChild l).
Definition get_Balance (X : Z) : BM Z := l ← load X; mret (Balance l).
Definition set_Parent (X v : Z) : BM unit :=
  modify X (fun l => mkLinks v (LeftChild l) (RightChild l) (Balance l)).
Definition set_LeftChild (X v : Z) : BM unit :=
  modify X (fun l => mkLinks (Parent l) v (RightChild l) (Balance l)).
Definition set_RightChild (X v : Z) : BM unit :=
  modify X (fun l => mkLinks (Parent l) (LeftChild l) v (Balance l)).
Definition set_Balance (X v : Z) : BM unit :=
  modify X (fun l => mkLinks (Parent l) (LeftChild l) (RightChild l) v).

(** The macros of ntrtl.h, which look at the three pointers only. *)
Definition RtlIsLeftChild (Links : Z) : BM bool :=
  p ← get_Parent Links; c ← get_LeftChild p; mret (c =? Links).
Definition RtlIsRightChild (Links : Z) : BM bool :=
  p ← get_Parent Links; c ← get_RightChild p; mret (c =? Links).

Definition assert (b : bool) : BM unit := if b then mret tt else fault.

(** ** Promotion *)

Definition PromoteNode (C : Z) : BM unit :=
  P ← get_Parent C;
  G ← get_Parent P;
  l ← get_LeftChild P;
  (if l =? C then
     c ← get_RightChild C; set_LeftChild P c;;
     c ← get_LeftChild P; (if c =? NULL then mret tt else set_Parent c P);;
     set_RightChild C P
   else
     r ← get_RightChild P; assert (r =? C);;
     c ← get_LeftChild C; set_RightChild P c;;
     c ← get_RightChild P; (if c =? NULL then mret tt else set_Parent c P);;
     set_LeftChild C P);;
  set_Parent P C;;
  l ← get_LeftChild G;
  (if l =? P then set_LeftChild G C
   else r ← get_RightChild G; assert (r =? P);; set_RightChild G C);;
  set_Parent C G.

(** ** Rebalancing *)

(** The result is TRUE for Case 3. *)
Definition RebalanceNode (S : Z) : BM bool :=
  a ← get_Balance S;
  R ← (if a =? 1 then get_RightChild S else get_LeftChild S);
  b ← get_Balance R;
  if b =? a then
    PromoteNode R;;
    set_Balance R 0;;
    set_Balance S 0;;
    mret false
  else if b =? - a then
    P ← (if a =? 1 then get_LeftChild R else get_RightChild R);
    PromoteNode P;;
    PromoteNode P;;
    set_Balance S 0;;
    set_Balance R 0;;
    b ← get_Balance P;
    (if b =? a then set_Balance S (- a)
     else if b =? - a then set_Balance R a
     else mret tt);;
    set_Balance P 0;;
    mret false
  else
    PromoteNode R;;
    set_Balance R (- a);;
    mret true.

(** The loops below visit each node at most once. *)
Definition with_fuel {A} (f : nat -> BM A) : BM A := fun h => f (S (size h)) h.

(** The loop of RtlInsertElementGenericTableFullAvl; DepthOfTree is passed in and
    returned. *)
Fixpoint insert_loop (fuel : nat) (BalancedRoot R S DepthOfTree : Z) : BM Z :=
  match fuel with
  | O => fault
  | Datatypes.S fuel =>
      b ← RtlIsLeftChild R;
      let a := if b : bool then -1 else 1 in
      s ← get_Balance S;
      if s =? 0 then
        set_Balance S a;;
        p ← get_Parent S;
        insert_loop fuel BalancedRoot S p DepthOfTree
      else if negb (s =? a) then
        set_Balance S 0;;
        r ← get_Balance BalancedRoot;
        mret (if r =? 0 then u32 (DepthOfTree + 1) else DepthOfTree)
      else
        RebalanceNode S;;
        mret DepthOfTree
  end.

(** ** Deletion *)

Fixpoint leftmost (fuel : nat) (Ptr : Z) : BM Z :=
  match fuel with
  | O => fault
  | S fuel => c ← get_LeftChild Ptr; if c =? NULL then mret Ptr else leftmost fuel c
  end.
Fixpoint rightmost (fuel : nat) (Ptr : Z) : BM Z :=
  match fuel with
  | O => fault
  | S fuel => c ← get_RightChild Ptr; if c =? NULL then mret Ptr else rightmost fuel c
  end.

Definition choose_EasyDelete (NodeToDelete : Z) : BM Z := with_fuel (fun fuel =>
  l ← get_LeftChild NodeToDelete;
  r ← get_RightChild NodeToDelete;
  if (l =? NULL) || (r =? NULL) then mret NodeToDelete
  else
    b ← get_Balance NodeToDelete;
    if b >=? 0 then leftmost fuel r else rightmost fuel l).

(** The simple deletion; the result is [a], the side it happened on. *)
Definition unlink (EasyDelete : Z) : BM Z :=
  l ← get_LeftChild EasyDelete;
  if l =? NULL then
    b ← RtlIsLeftChild EasyDelete;
    p ← get_Parent EasyDelete;
    c ← get_RightChild EasyDelete;
    a ← (if b : bool then set_LeftChild p c;; mret (-1) else set_RightChild p c;; mret 1);
    c ← get_RightChild EasyDelete;
    (if c =? NULL then mret tt else p ← get_Parent EasyDelete; set_Parent c p);;
    mret a
  else
    b ← RtlIsLeftChild EasyDelete;
    p ← get_Parent EasyDelete;
    c ← get_LeftChild EasyDelete;
    a ← (if b : bool then set_LeftChild p c;; mret (-1) else set_RightChild p c;; mret 1);
    c ← get_LeftChild EasyDelete;
    p ← get_Parent EasyDelete; set_Parent c p;;
    mret a.

Fixpoint delete_loop (fuel : nat) (BalancedRoot P a DepthOfTree : Z) : BM Z :=
  match fuel with
  | O => fault
  | S fuel =>
      let next P :=
        r ← RtlIsRightChild P;
        p ← get_Parent P;
        delete_loop fuel BalancedRoot p (if r : bool then 1 else -1) DepthOfTree in
      b ← get_Balance P;
      if b =? a then set_Balance P 0;; next P
      else if b =? 0 then
        set_Balance P (- a);;
        r ← get_Balance BalancedRoot;
        mret (if negb (r =? 0) then u32 (DepthOfTree - 1) else DepthOfTree)
      else
        c ← RebalanceNode P;
        if c : bool then mret DepthOfTree
        else p ← get_Parent P; next p
  end.

(** [if (X->LeftChild != NULL) {X->LeftChild->Parent = X;}] *)
Definition fix_left (X : Z) : BM unit :=
  c ← get_LeftChild X; if c =? NULL then mret tt else set_Parent c X.
Definition fix_right (X : Z) : BM unit :=
  c ← get_RightChild X; if c =? NULL then mret tt else set_Parent c X.

(** EasyDelete takes the place of NodeToDelete. *)
Definition relink (EasyDelete NodeToDelete : Z) : BM unit :=
  n ← load NodeToDelete;
  modify EasyDelete (fun _ => n);;
  b ← RtlIsLeftChild NodeToDelete;
  (if b : bool then p ← get_Parent EasyDelete; set_LeftChild p EasyDelete
   else
     b ← RtlIsRightChild NodeToDelete; assert b;;
     p ← get_Parent EasyDelete; set_RightChild p EasyDelete);;
  fix_left EasyDelete;;
  fix_right EasyDelete.

Definition DeleteNodeFromTree (BalancedRoot NodeToDelete DepthOfTree : Z) : BM Z :=
  EasyDelete ← choose_EasyDelete NodeToDelete;
  a ← unlink EasyDelete;
  set_Balance BalancedRoot 0;;
  P ← get_Parent EasyDelete;
  DepthOfTree ← with_fuel (fun fuel => delete_loop fuel BalancedRoot P a DepthOfTree);
  (if NodeToDelete =? EasyDelete then mret tt else relink EasyDelete NodeToDelete);;
  mret DepthOfTree.

(** ** Successors and predecessors *)

(** [while (RtlIsRightChild(Ptr)) Ptr = Ptr->Parent;] and its mirror image *)
Fixpoint climb_right (fuel : nat) (Ptr : Z) : BM Z :=
  match fuel with
  | O => fault
  | S fuel => b ← RtlIsRightChild Ptr;
      if b : bool then p ← get_Parent Ptr; climb_right fuel p else mret Ptr
  end.
Fixpoint climb_left (fuel : nat) (Ptr : Z) : BM Z :=
  match fuel with
  | O => fault
  | S fuel => b ← RtlIsLeftChild Ptr;
      if b : bool then p ← get_Parent Ptr; climb_left fuel p else mret Ptr
  end.

Definition RealSuccessor (Links : Z) : BM Z := with_fuel (fun fuel =>
  Ptr ← get_RightChild Links;
  if negb (Ptr =? NULL) then leftmost fuel Ptr
  else
    Ptr ← climb_right fuel Links;
    b ← RtlIsLeftChild Ptr;
    if b : bool then get_Parent Ptr
    else p ← get_Parent Ptr; assert (p =? Ptr);; mret NULL).

Definition RealPredecessor (Links : Z) : BM Z := with_fuel (fun fuel =>
  Ptr ← get_LeftChild Links;
  if negb (Ptr =? NULL) then rightmost fuel Ptr
  else
    Ptr ← climb_left fuel Links;
    b ← RtlIsRightChild Ptr;
    if b : bool then
      p ← get_Parent Ptr;
      pp ← get_Parent p;
      if negb (pp =? p) then mret p else mret NULL
    else mret NULL).

(** ** Trees and positions

    A position is a subtree and the path above it, a list of frames: the node
    above with its balance and its other subtree.  [plug t k] is the whole tree;
    [cells W] are the records of a whole tree, whose root is its own parent. *)

Inductive tree := Leaf | Node (l : tree) (a b : Z) (r : tree).

Definition root (t : tree) : Z := match t with Leaf => NULL | Node _ a _ _ => a end.
Fixpoint inorder (t : tree) : list Z :=
  match t with Leaf => [] | Node l a _ r => inorder l ++ a :: inorder r end.
Fixpoint links_of (p : Z) (t : tree) : list (Z * RTL_BALANCED_LINKS) :=
  match t with
  | Leaf => []
  | Node l a b r => (a, mkLinks p (root l) (root r) b) :: links_of a l ++ links_of a r
  end.
Definition cells (W : tree) : list (Z * RTL_BALANCED_LINKS) := links_of (root W) W.

Inductive frame := CL (a b : Z) (r : tree) | CR (l : tree) (a b : Z).
Definition node_of (f : frame) : Z := match f with CL a _ _ => a | CR _ a _ => a end.
Definition other_of (f : frame) : tree := match f with CL _ _ r => r | CR l _ _ => l end.
Definition fill (f : frame) (t : tree) : tree :=
  match f with CL a b r => Node t a b r | CR l a b => Node l a b t end.
Fixpoint plug (t : tree) (k : list frame) : tree :=
  match k with [] => t | f :: k => plug (fill f t) k end.

Fixpoint before (k : list frame) : list Z :=
  match k with [] => [] | CL _ _ _ :: k => before k | CR l a _ :: k => before k ++ inorder l ++ [a] end.
Fixpoint after (k : list frame) : list Z :=
  match k with [] => [] | CL a _ r :: k => a :: inorder r ++ after k | CR _ _ _ :: k => after k end.

Definition parent_of (p : Z) (k : list frame) : Z := match k with [] => p | f :: _ => node_of f end.
Definition frame_cell (p x : Z) (f : frame) : Z * RTL_BALANCED_LINKS :=
  match f with
  | CL a b r => (a, mkLinks p x (root r) b)
  | CR l a b => (a, mkLinks p (root l) x b)
  end.
Fixpoint slinks (x : Z) (k : list frame) (p : Z) : list (Z * RTL_BALANCED_LINKS) :=
  match k with
  | [] => []
  | f :: k => frame_cell (parent_of p k) x f :: links_of (node_of f) (other_of f) ++ slinks (node_of f) k p
  end.
Definition on_right (k : list frame) : bool := match k with CR _ _ _ :: _ => true | _ => false end.
Definition on_left (k : list frame) : bool := match k with CL _ _ _ :: _ => true | _ => false end.

Lemma avl_inorder_plug t k : inorder (plug t k) = before k ++ inorder t ++ after k.
Proof.
  revert t; induction k as [|[a b r|l a b] k IH]; intros t; cbn [plug before after fill].
  - by rewrite app_nil_r.
  - rewrite IH. cbn [inorder]. by rewrite <- !app_assoc.
  - rewrite IH. cbn [inorder]. by rewrite <- !app_assoc.
Qed.

Fixpoint top (x : Z) (k : list frame) : Z :=
  match k with [] => x | f :: k => top (node_of f) k end.
Lemma avl_root_plug t k : root (plug t k) = top (root t) k.
Proof. revert t; induction k as [|[] k IH]; intros t; cbn; [done|by rewrite IH..]. Qed.

Lemma avl_plug_app t k k' : plug t (k ++ k') = plug (plug t k) k'.
Proof. revert t; induction k as [|f k IH]; intros t; [done|]. apply IH. Qed.

Lemma avl_links_plug t k p :
  links_of p (plug t k) ≡ₚ links_of (parent_of p k) t ++ slinks (root t) k p.
Proof.
  revert t; induction k as [|f k IH]; intros t; cbn [plug slinks].
  - by rewrite app_nil_r.
  - rewrite IH. destruct f; cbn; solve_Permutation.
Qed.

Lemma avl_links_keys p t : (links_of p t).*1 ≡ₚ inorder t.
Proof.
  revert p; induction t as [|l IHl a b r IHr]; intros p; cbn; [done|].
  rewrite fmap_app, IHl, IHr. apply Permutation_middle.
Qed.

(** Every node of a tree is at the end of some path. *)
Lemma avl_find_path x t : x ∈ inorder t -> exists l b r k, t = plug (Node l x b r) k.
Proof.
  assert (Hgen : forall k, x ∈ inorder t -> exists l b r k', plug t k = plug (Node l x b r) k').
  { induction t as [|l IHl a b r IHr]; intros k Hin; cbn in Hin; [by apply not_elem_of_nil in Hin|].
    apply elem_of_app in Hin as [Hin|Hin]; [exact (IHl (CL a b r :: k) Hin)|].
    apply elem_of_cons in Hin as [->|Hin]; [by exists l, b, r, k|exact (IHr (CR l a b :: k) Hin)]. }
  intros Hin. exact (Hgen [] Hin).
Qed.

Lemma avl_root_in t p : t <> Leaf -> root t ∈ (links_of p t).*1.
Proof. destruct t; [done|]. intros _. apply list_elem_of_here. Qed.
Lemma avl_root_ne t p x : x ∉ (links_of p t).*1 -> x <> NULL -> (root t =? x) = false.
Proof.
  intros Hx Hn. apply Z.eqb_neq. intros <-. destruct t; [done|]. apply Hx. by apply avl_root_in.
Qed.

(** ** Reading and writing at a position *)

Section Fields.
Context {B : Type} (pre : list (Z * RTL_BALANCED_LINKS)) (X : Z) (l : RTL_BALANCED_LINKS).
Context (s : B) (post : list (Z * RTL_BALANCED_LINKS)).
Hypothesis Hin : (X, l) ∈ pre.

Lemma g_Parent (k : Z -> BM B) :
  triple pre (k (Parent l)) s post -> triple pre (get_Parent X ≫= k) s post.
Proof. intros Ht. apply triple_assoc. by eapply triple_load. Qed.
Lemma g_LeftChild (k : Z -> BM B) :
  triple pre (k (LeftChild l)) s post -> triple pre (get_LeftChild X ≫= k) s post.
Proof. intros Ht. apply triple_assoc. by eapply triple_load. Qed.
Lemma g_RightChild (k : Z -> BM B) :
  triple pre (k (RightChild l)) s post -> triple pre (get_RightChild X ≫= k) s post.
Proof. intros Ht. apply triple_assoc. by eapply triple_load. Qed.
Lemma g_Balance (k : Z -> BM B) :
  triple pre (k (Balance l)) s post -> triple pre (get_Balance X ≫= k) s post.
Proof. intros Ht. apply triple_assoc. by eapply triple_load. Qed.

(** A child, if there is one, is given a new parent. *)
Lemma avl_r_fix R pre' q t c (k : unit -> BM B) :
  pre ≡ₚ links_of q t ++ R -> pre' ≡ₚ links_of X t ++ R -> c = root t ->
  triple pre' (k tt) s post ->
  triple pre ((if c =? NULL then mret tt else set_Parent c X) ≫= k) s post.
Proof using B.
  intros Hpre Hpre' -> Ht. destruct t as [|tl a b tr].
  - cbn. eapply triple_bind; [apply triple_ret|].
    eapply triple_perm; [|reflexivity|exact Ht]. by rewrite Hpre, Hpre'.
  - apply triple_pure. intros _ Hn. rewrite Hpre in Hn. cbn [root].
    destruct (Z.eqb_spec a NULL) as [->|_]; [exfalso; apply Hn, list_elem_of_here|].
    eapply triple_write; [exact Hpre|]. cbn. eapply triple_perm; [|reflexivity|exact Ht]. by rewrite Hpre'.
Qed.
End Fields.

(** [m_get] runs the read of a field, [m_fix q t] the change of the parent of the
    subtree [t] from [q]. *)
Ltac m_get :=
  first [eapply g_Parent | eapply g_LeftChild | eapply g_RightChild | eapply g_Balance]; [m_elem|];
  cbn [Parent LeftChild RightChild Balance].
Ltac m_fix q t :=
  lazymatch goal with
  | |- triple ?pre ((if _ then _ else set_Parent _ ?X) ≫= _) _ _ =>
      lazymatch pre with
      | context C [links_of q t] =>
          let pre' := context C [links_of X t] in
          let R := context C [@nil (Z * RTL_BALANCED_LINKS)] in
          eapply (avl_r_fix pre X _ _ R pre' q t); [solve_Permutation|solve_Permutation|reflexivity|]
      end
  end.

Lemma cells_open t k : cells (plug t k) ≡ₚ
  links_of (parent_of (root t) k) t ++ slinks (root t) k (top (root t) k).
Proof. unfold cells. rewrite avl_links_plug, avl_root_plug. by destruct k. Qed.

(** [pre] holds the records of a tree with the node [x] at the path [k]. *)
Section Position.
Context {B : Type} (l : tree) (x b : Z) (r : tree) (k : list frame).
Context (pre F : list (Z * RTL_BALANCED_LINKS)).
Hypothesis Hpre : pre ≡ₚ cells (plug (Node l x b r) k) ++ F.

Lemma avl_pos_node : (x, mkLinks (parent_of x k) (root l) (root r) b) ∈ pre.
Proof. rewrite Hpre, cells_open. cbn. m_elem. Qed.

Lemma avl_r_Parent (f : Z -> BM B) s post :
  triple pre (f (parent_of x k)) s post -> triple pre (get_Parent x ≫= f) s post.
Proof. intros Ht. apply triple_assoc. eapply triple_load; [exact avl_pos_node|done]. Qed.
Lemma avl_r_LeftChild (f : Z -> BM B) s post :
  triple pre (f (root l)) s post -> triple pre (get_LeftChild x ≫= f) s post.
Proof. intros Ht. apply triple_assoc. eapply triple_load; [exact avl_pos_node|done]. Qed.
Lemma avl_r_RightChild (f : Z -> BM B) s post :
  triple pre (f (root r)) s post -> triple pre (get_RightChild x ≫= f) s post.
Proof. intros Ht. apply triple_assoc. eapply triple_load; [exact avl_pos_node|done]. Qed.
Lemma r_Balance (f : Z -> BM B) s post :
  triple pre (f b) s post -> triple pre (get_Balance x ≫= f) s post.
Proof. intros Ht. apply triple_assoc. eapply triple_load; [exact avl_pos_node|done]. Qed.

(** The record of the parent, and how it tells the sides apart. *)
Lemma avl_pos_parent : NoDup pre.*1 -> NULL ∉ pre.*1 -> exists lp, (parent_of x k, lp) ∈ pre /\
  (LeftChild lp =? x) = on_left k /\ (RightChild lp =? x) = on_right k.
Proof using Hpre.
  intros Hnd Hn. pose proof avl_pos_node as Hx. rewrite Hpre, fmap_app, cells_open in Hnd, Hn.
  rewrite Hpre in Hx. setoid_rewrite Hpre. clear Hpre. cbn in Hnd, Hn. destruct k as [|f k'].
  - eexists. split; [exact Hx|]. cbn in *.
    split; [apply (avl_root_ne l x)|apply (avl_root_ne r x)]; m_distinct.
  - exists (snd (frame_cell (parent_of (node_of f) k') x f)). cbn in *. split.
    { unfold cells. rewrite avl_links_plug, avl_root_plug. destruct f, k'; cbn; m_elem. }
    assert (x <> NULL /\ x ∉ (links_of (node_of f) (other_of f)).*1) as (Hx0 & Hc) by (split; m_distinct).
    destruct f as [a b' c|c a b']; cbn in *; rewrite Z.eqb_refl; split; try done;
      by apply (avl_root_ne c a).
Qed.

Lemma avl_r_IsLeftChild (f : bool -> BM B) s post :
  triple pre (f (on_left k)) s post -> triple pre (RtlIsLeftChild x ≫= f) s post.
Proof using Hpre.
  intros Ht. apply triple_pure. intros Hnd Hn. destruct (avl_pos_parent Hnd Hn) as (lp & Hin & He & _).
  rewrite <- He in Ht. apply triple_assoc, triple_assoc. eapply triple_load; [exact avl_pos_node|].
  eapply triple_bind; [apply triple_ret|]. apply triple_assoc, triple_assoc. by eapply triple_load.
Qed.
Lemma avl_r_IsRightChild (f : bool -> BM B) s post :
  triple pre (f (on_right k)) s post -> triple pre (RtlIsRightChild x ≫= f) s post.
Proof using Hpre.
  intros Ht. apply triple_pure. intros Hnd Hn. destruct (avl_pos_parent Hnd Hn) as (lp & Hin & _ & He).
  rewrite <- He in Ht. apply triple_assoc, triple_assoc. eapply triple_load; [exact avl_pos_node|].
  eapply triple_bind; [apply triple_ret|]. apply triple_assoc, triple_assoc. by eapply triple_load.
Qed.

Lemma r_set_Balance b' pre' (f : unit -> BM B) s post :
  pre' ≡ₚ cells (plug (Node l x b' r) k) ++ F ->
  triple pre' (f tt) s post -> triple pre (set_Balance x b' ≫= f) s post.
Proof using Hpre.
  intros Hpre' Ht. rewrite cells_open in Hpre, Hpre'. cbn [links_of app] in Hpre, Hpre'.
  eapply triple_write; [exact Hpre|]. cbn. eapply triple_perm; [|reflexivity|exact Ht]. by rewrite Hpre'.
Qed.
End Position.

(** ** Promotion *)

(** The records around a promotion: the node, its parent and its grandparent. *)
Definition around (C : Z) (lC : RTL_BALANCED_LINKS) (P : Z) (lP : RTL_BALANCED_LINKS) (f : frame) (k : list frame)
    (rest : list (Z * RTL_BALANCED_LINKS)) :=
  (C, lC) :: (P, lP) :: frame_cell (parent_of (top (node_of f) k) k) P f ::
  rest ++ links_of (node_of f) (other_of f) ++ slinks (node_of f) k (top (node_of f) k).

(** The second half of PromoteNode. *)
Lemma t_attach C lC P lP f k rest post :
  post ≡ₚ (C, mkLinks (node_of f) (LeftChild lC) (RightChild lC) (Balance lC)) ::
    (P, mkLinks C (LeftChild lP) (RightChild lP) (Balance lP)) ::
    frame_cell (parent_of (top (node_of f) k) k) C f ::
    rest ++ links_of (node_of f) (other_of f) ++ slinks (node_of f) k (top (node_of f) k) ->
  triple (around C lC P lP f k rest)
    (set_Parent P C;;
     l ← get_LeftChild (node_of f);
     (if l =? P then set_LeftChild (node_of f) C
      else r ← get_RightChild (node_of f); assert (r =? P);; set_RightChild (node_of f) C);;
     set_Parent C (node_of f)) tt post.
Proof.
  intros Hpost. unfold around. apply triple_pure. intros Hnd Hn. m_write.
  destruct f as [G b c|c G b]; cbn [frame_cell node_of other_of] in *.
  - m_get. rewrite Z.eqb_refl. m_write. apply triple_tail. m_write. cbn.
    eapply triple_perm; [|reflexivity|apply triple_ret]. by rewrite Hpost.
  - m_get. rewrite (avl_root_ne c G P) by m_distinct. m_assoc. m_get. rewrite Z.eqb_refl. m_assoc.
    eapply triple_bind; [apply triple_ret|]. m_write. apply triple_tail. m_write. cbn.
    eapply triple_perm; [|reflexivity|apply triple_ret]. by rewrite Hpost.
Qed.

Section Promote.
Context (x y z : tree) (C bc P bp : Z) (f : frame) (k : list frame).

Lemma t_PromoteNode_left : triple (cells (plug (Node x C bc y) (CL P bp z :: f :: k))) (PromoteNode C) tt
  (cells (plug (Node x C bc (Node y P bp z)) (f :: k))).
Proof.
  eapply (triple_perm _ (around C (mkLinks P (root x) (root y) bc) P (mkLinks (node_of f) C (root z) bp) f k
    (links_of C x ++ links_of C y ++ links_of P z))); [|reflexivity|].
  { rewrite cells_open. unfold around. cbn. solve_Permutation. }
  unfold PromoteNode, around. m_get. m_get. m_get. rewrite Z.eqb_refl.
  m_assoc. m_get. m_assoc. m_write. m_assoc. m_get. m_assoc. m_fix C y. m_write.
  fold (around C (mkLinks P (root x) P bc) P (mkLinks (node_of f) (root y) (root z) bp) f k
    (links_of C x ++ links_of P y ++ links_of P z)).
  apply t_attach. cbn [LeftChild RightChild Balance]. rewrite cells_open. cbn. solve_Permutation.
Qed.

Lemma t_PromoteNode_right : triple (cells (plug (Node y C bc z) (CR x P bp :: f :: k))) (PromoteNode C) tt
  (cells (plug (Node (Node x P bp y) C bc z) (f :: k))).
Proof.
  eapply (triple_perm _ (around C (mkLinks P (root y) (root z) bc) P (mkLinks (node_of f) (root x) C bp) f k
    (links_of P x ++ links_of C y ++ links_of C z))); [|reflexivity|].
  { rewrite cells_open. unfold around. cbn. solve_Permutation. }
  apply triple_pure. intros Hnd Hn. unfold PromoteNode, around in *. m_get. m_get. m_get.
  rewrite (avl_root_ne x P C) by m_distinct. m_assoc. m_get. rewrite Z.eqb_refl.
  m_assoc. eapply triple_bind; [apply triple_ret|].
  m_assoc. m_get. m_assoc. m_write. m_assoc. m_get. m_assoc. m_fix C y. m_write.
  fold (around C (mkLinks P P (root z) bc) P (mkLinks (node_of f) (root x) (root y) bp) f k
    (links_of P x ++ links_of P y ++ links_of C z)).
  apply t_attach. cbn [LeftChild RightChild Balance]. rewrite cells_open. cbn. solve_Permutation.
Qed.
End Promote.

(** ** Rebalancing

    [rebalance t] is the tree RebalanceNode leaves in the place of [t], with the
    result of the routine; it is defined where the longer side has the nodes that
    are to be promoted. *)

Definition rebalance (t : tree) : option (bool * tree) :=
  match t with
  | Leaf => None
  | Node l Q a r =>
      if a =? 1 then
        match r with
        | Leaf => None
        | Node rl R b rr =>
            if b =? 1 then Some (false, Node (Node l Q 0 rl) R 0 rr)
            else if b =? -1 then
              match rl with
              | Leaf => None
              | Node pl P c pr => Some (false,
                  Node (Node l Q (if c =? 1 then -1 else 0) pl) P 0 (Node pr R (if c =? -1 then 1 else 0) rr))
              end
            else Some (true, Node (Node l Q 1 rl) R (-1) rr)
        end
      else if a =? -1 then
        match l with
        | Leaf => None
        | Node ll R b lr =>
            if b =? -1 then Some (false, Node ll R 0 (Node lr Q 0 r))
            else if b =? 1 then
              match lr with
              | Leaf => None
              | Node pl P c pr => Some (false,
                  Node (Node ll R (if c =? 1 then -1 else 0) pl) P 0 (Node pr Q (if c =? -1 then 1 else 0) r))
              end
            else Some (true, Node ll R 1 (Node lr Q (-1) r))
        end
      else None
  end.

(** [m_at rule l x b r k] reads a field of the node [x] at the path [k];
    [m_bal l x b r k v] writes its balance. *)
Ltac m_at rule l x b r k := eapply (rule _ l x b r k _ []); [by rewrite app_nil_r|].
Ltac m_opp := change (- (1)) with (-1); change (- (-1)) with 1.
Ltac m_bal l x b r k v :=
  eapply (fun H => r_set_Balance l x b r k _ [] H v (cells (plug (Node l x v r) k)));
  [by rewrite app_nil_r..|].

Section Rebalance.
Context (l m n r : tree) (Q R P c : Z) (f : frame) (k : list frame).

Lemma t_case1_right : triple (cells (plug (Node l Q 1 (Node m R 1 r)) (f :: k))) (RebalanceNode Q) false
  (cells (plug (Node (Node l Q 0 m) R 0 r) (f :: k))).
Proof.
  unfold RebalanceNode. m_at @r_Balance l Q 1 (Node m R 1 r) (f :: k). cbn [Z.eqb Pos.eqb].
  m_at @avl_r_RightChild l Q 1 (Node m R 1 r) (f :: k). cbn [root].
  m_at @r_Balance m R 1 r (CR l Q 1 :: f :: k). cbn [Z.eqb Pos.eqb].
  eapply triple_bind; [apply (t_PromoteNode_right l m r R 1 Q 1 f k)|].
  m_bal (Node l Q 1 m) R 1 r (f :: k) 0. m_bal l Q 1 m (CL R 0 r :: f :: k) 0. apply triple_ret.
Qed.

Lemma t_case1_left : triple (cells (plug (Node (Node l R (-1) m) Q (-1) r) (f :: k))) (RebalanceNode Q) false
  (cells (plug (Node l R 0 (Node m Q 0 r)) (f :: k))).
Proof.
  unfold RebalanceNode. m_at @r_Balance (Node l R (-1) m) Q (-1) r (f :: k). cbn [Z.eqb Pos.eqb].
  m_at @avl_r_LeftChild (Node l R (-1) m) Q (-1) r (f :: k). cbn [root].
  m_at @r_Balance l R (-1) m (CL Q (-1) r :: f :: k). cbn [Z.eqb Pos.eqb].
  eapply triple_bind; [apply (t_PromoteNode_left l m r R (-1) Q (-1) f k)|].
  m_bal l R (-1) (Node m Q (-1) r) (f :: k) 0. m_bal m Q (-1) r (CR l R 0 :: f :: k) 0. apply triple_ret.
Qed.

Lemma t_case2_right :
  triple (cells (plug (Node l Q 1 (Node (Node m P c n) R (-1) r)) (f :: k))) (RebalanceNode Q) false
  (cells (plug (Node (Node l Q (if c =? 1 then -1 else 0) m) P 0
                     (Node n R (if c =? -1 then 1 else 0) r)) (f :: k))).
Proof.
  unfold RebalanceNode. m_at @r_Balance l Q 1 (Node (Node m P c n) R (-1) r) (f :: k). cbn [Z.eqb Pos.eqb].
  m_at @avl_r_RightChild l Q 1 (Node (Node m P c n) R (-1) r) (f :: k). cbn [root].
  m_at @r_Balance (Node m P c n) R (-1) r (CR l Q 1 :: f :: k). m_opp. cbn [Z.eqb Pos.eqb].
  m_at @avl_r_LeftChild (Node m P c n) R (-1) r (CR l Q 1 :: f :: k). cbn [root].
  eapply triple_bind; [apply (t_PromoteNode_left m n r P c R (-1) (CR l Q 1) (f :: k))|].
  eapply triple_bind; [apply (t_PromoteNode_right l m (Node n R (-1) r) P c Q 1 f k)|].
  m_bal l Q 1 m (CL P c (Node n R (-1) r) :: f :: k) 0.
  m_bal n R (-1) r (CR (Node l Q 0 m) P c :: f :: k) 0.
  m_at @r_Balance (Node l Q 0 m) P c (Node n R 0 r) (f :: k). m_opp.
  destruct (Z.eqb_spec c 1) as [->|_]; [|destruct (Z.eqb_spec c (-1)) as [->|_]].
  - m_bal l Q 0 m (CL P 1 (Node n R 0 r) :: f :: k) (-1).
    m_bal (Node l Q (-1) m) P 1 (Node n R 0 r) (f :: k) 0. apply triple_ret.
  - m_bal n R 0 r (CR (Node l Q 0 m) P (-1) :: f :: k) 1.
    m_bal (Node l Q 0 m) P (-1) (Node n R 1 r) (f :: k) 0. apply triple_ret.
  - eapply triple_bind; [apply triple_ret|].
    m_bal (Node l Q 0 m) P c (Node n R 0 r) (f :: k) 0. apply triple_ret.
Qed.

Lemma t_case2_left :
  triple (cells (plug (Node (Node l R 1 (Node m P c n)) Q (-1) r) (f :: k))) (RebalanceNode Q) false
  (cells (plug (Node (Node l R (if c =? 1 then -1 else 0) m) P 0
                     (Node n Q (if c =? -1 then 1 else 0) r)) (f :: k))).
Proof.
  unfold RebalanceNode. m_at @r_Balance (Node l R 1 (Node m P c n)) Q (-1) r (f :: k). cbn [Z.eqb Pos.eqb].
  m_at @avl_r_LeftChild (Node l R 1 (Node m P c n)) Q (-1) r (f :: k). cbn [root].
  m_at @r_Balance l R 1 (Node m P c n) (CL Q (-1) r :: f :: k). m_opp. cbn [Z.eqb Pos.eqb].
  m_at @avl_r_RightChild l R 1 (Node m P c n) (CL Q (-1) r :: f :: k). cbn [root].
  eapply triple_bind; [apply (t_PromoteNode_right l m n P c R 1 (CL Q (-1) r) (f :: k))|].
  eapply triple_bind; [apply (t_PromoteNode_left (Node l R 1 m) n r P c Q (-1) f k)|].
  m_bal n Q (-1) r (CR (Node l R 1 m) P c :: f :: k) 0.
  m_bal l R 1 m (CL P c (Node n Q 0 r) :: f :: k) 0.
  m_at @r_Balance (Node l R 0 m) P c (Node n Q 0 r) (f :: k). m_opp.
  destruct (Z.eqb_spec c (-1)) as [->|_]; [|destruct (Z.eqb_spec c 1) as [->|_]].
  - m_bal n Q 0 r (CR (Node l R 0 m) P (-1) :: f :: k) 1.
    m_bal (Node l R 0 m) P (-1) (Node n Q 1 r) (f :: k) 0. apply triple_ret.
  - m_bal l R 0 m (CL P 1 (Node n Q 0 r) :: f :: k) (-1).
    m_bal (Node l R (-1) m) P 1 (Node n Q 0 r) (f :: k) 0. apply triple_ret.
  - eapply triple_bind; [apply triple_ret|].
    m_bal (Node l R 0 m) P c (Node n Q 0 r) (f :: k) 0. apply triple_ret.
Qed.

Lemma t_case3_right : c <> 1 -> c <> -1 ->
  triple (cells (plug (Node l Q 1 (Node m R c r)) (f :: k))) (RebalanceNode Q) true
  (cells (plug (Node (Node l Q 1 m) R (-1) r) (f :: k))).
Proof.
  intros H1%Z.eqb_neq H2%Z.eqb_neq. unfold RebalanceNode.
  m_at @r_Balance l Q 1 (Node m R c r) (f :: k). cbn [Z.eqb Pos.eqb].
  m_at @avl_r_RightChild l Q 1 (Node m R c r) (f :: k). cbn [root].
  m_at @r_Balance m R c r (CR l Q 1 :: f :: k). m_opp. rewrite H1, H2.
  eapply triple_bind; [apply (t_PromoteNode_right l m r R c Q 1 f k)|].
  m_bal (Node l Q 1 m) R c r (f :: k) (-1). apply triple_ret.
Qed.

Lemma t_case3_left : c <> 1 -> c <> -1 ->
  triple (cells (plug (Node (Node l R c m) Q (-1) r) (f :: k))) (RebalanceNode Q) true
  (cells (plug (Node l R 1 (Node m Q (-1) r)) (f :: k))).
Proof.
  intros H1%Z.eqb_neq H2%Z.eqb_neq. unfold RebalanceNode.
  m_at @r_Balance (Node l R c m) Q (-1) r (f :: k). cbn [Z.eqb Pos.eqb].
  m_at @avl_r_LeftChild (Node l R c m) Q (-1) r (f :: k). cbn [root].
  m_at @r_Balance l R c m (CL Q (-1) r :: f :: k). m_opp. rewrite H1, H2.
  eapply triple_bind; [apply (t_PromoteNode_left l m r R c Q (-1) f k)|].
  m_bal l R c (Node m Q (-1) r) (f :: k) 1. apply triple_ret.
Qed.
End Rebalance.

Lemma t_RebalanceNode t c t' k : rebalance t = Some (c, t') -> k <> [] ->
  triple (cells (plug t k)) (RebalanceNode (root t)) c (cells (plug t' k)).
Proof.
  intros Ht Hk. destruct k as [|f k]; [done|]. revert Ht. clear Hk.
  destruct t as [|l Q a r]; [done|]. cbn [rebalance root].
  destruct (Z.eqb_spec a 1) as [->|_]; [|destruct (Z.eqb_spec a (-1)) as [->|_]; [|done]].
  - destruct r as [|m R b r]; [done|].
    destruct (Z.eqb_spec b 1) as [->|H1]; [|destruct (Z.eqb_spec b (-1)) as [->|H2]].
    + intros [= <- <-]. apply t_case1_right.
    + destruct m as [|m P d n]; [done|]. intros [= <- <-]. apply t_case2_right.
    + intros [= <- <-]. by apply t_case3_right.
  - destruct l as [|l R b m]; [done|].
    destruct (Z.eqb_spec b (-1)) as [->|H1]; [|destruct (Z.eqb_spec b 1) as [->|H2]].
    + intros [= <- <-]. apply t_case1_left.
    + destruct m as [|m P d n]; [done|]. intros [= <- <-]. apply t_case2_left.
    + intros [= <- <-]. by apply t_case3_left.
Qed.

End Avl.
