(* ===== verification/RtlAvlTree.v ===== *)
(** * Balanced trees: insertion, deletion and neighbours

    Lemmas on the routines of [RtlAvl]: what a rebalance does to the heights, the
    loops of insertion and deletion, the exchange at the end of a deletion, and
    the searches for the neighbours of a node.  [fits k h] says that the frames of
    the path [k] are balanced when the subtree below it has the height [h]; [up k h]
    is then the height of the whole tree. *)

From S2P Require Import Prelude RtlHeap RtlAvl.
From stdpp Require Import gmap list_tactics.
#[local] Open Scope Z_scope.

Module AvlTree.
Import Avl.

(** ** Balanced trees *)

Fixpoint height (t : tree) : Z :=
  match t with Leaf => 0 | Node l _ _ r => 1 + Z.max (height l) (height r) end.
Definition balance (t : tree) : Z := match t with Leaf => 0 | Node _ _ b _ => b end.
Fixpoint avl (t : tree) : Prop :=
  match t with
  | Leaf => True
  | Node l _ b r => avl l /\ avl r /\ b = height r - height l /\ -1 <= b <= 1
  end.
(** The side a path continues on, the balance of a frame, and a new one. *)
Definition side (f : frame) : Z := match f with CL _ _ _ => -1 | CR _ _ _ => 1 end.
Definition bal_of (f : frame) : Z := match f with CL _ b _ => b | CR _ _ b => b end.
Definition with_bal (f : frame) (b : Z) : frame :=
  match f with CL a _ r => CL a b r | CR l a _ => CR l a b end.
Definition frame_fits (f : frame) (h : Z) : Prop :=
  avl (other_of f) /\ bal_of f = side f * (h - height (other_of f)) /\ -1 <= bal_of f <= 1.
Definition frame_up (f : frame) (h : Z) : Z := 1 + Z.max h (height (other_of f)).
Fixpoint fits (k : list frame) (h : Z) : Prop :=
  match k with [] => True | f :: k => frame_fits f h /\ fits k (frame_up f h) end.
Fixpoint up (k : list frame) (h : Z) : Z :=
  match k with [] => h | f :: k => up k (frame_up f h) end.

Lemma height_nonneg t : 0 <= height t.
Proof. induction t; cbn; lia. Qed.
Lemma height_zero t : height t = 0 -> t = Leaf.
Proof. destruct t; [done|]. cbn. pose proof (height_nonneg t1). pose proof (height_nonneg t2). lia. Qed.
Lemma height_pos t : 0 < height t -> exists l a b r, t = Node l a b r.
Proof. destruct t; cbn; [lia|]. intros _. by eexists _, _, _, _. Qed.

Lemma height_fill f t : height (fill f t) = frame_up f (height t).
Proof. unfold frame_up. destruct f; cbn; lia. Qed.
Lemma avl_fill f t : avl (fill f t) <-> avl t /\ frame_fits f (height t).
Proof. unfold frame_fits. destruct f; cbn; rewrite ?and_assoc; split; intros; destruct_and!; split_and!; try done; lia. Qed.
Lemma height_plug t k : height (plug t k) = up k (height t).
Proof. revert t; induction k as [|f k IH]; intros t; [done|]. cbn. by rewrite IH, height_fill. Qed.
Lemma avl_plug t k : avl (plug t k) <-> avl t /\ fits k (height t).
Proof. revert t; induction k as [|f k IH]; intros t; cbn; [tauto|]. rewrite IH, avl_fill, height_fill. tauto. Qed.

(** ** What a rebalance does *)

Ltac heights := repeat match goal with
  | t : tree |- _ => lazymatch goal with
      | _ : 0 <= height t |- _ => fail
      | _ => pose proof (height_nonneg t) end
  end.

(** Equality of two ways to write the order of the nodes. *)
Ltac in_order := cbn [inorder]; repeat (rewrite <- ?app_assoc; cbn [app]); done.

Section Rebalance.
Context (l r : tree) (x : Z).
Hypotheses (Hl : avl l) (Hr : avl r).

(** The result of rebalancing [t], whose longer side is [s]. *)
Definition rebalanced (t s : tree) : Prop := exists c t', rebalance t = Some (c, t') /\ avl t' /\
  inorder t' = inorder t /\ height t' = height s + (if c : bool then 1 else 0) /\
  (balance s <> 0 -> c = false) /\
  (c = false -> exists l1 b1 r1 f, t' = plug (Node l1 x b1 r1) [f]).

Lemma rebalance_left : height l = height r + 2 -> rebalanced (Node l x (-1) r) l.
Proof using Hl Hr.
  intros Hh. heights. destruct l as [|ll y b lr]; cbn in Hh; [lia|]. clear l. cbn in Hl.
  destruct Hl as (Hll & Hlr & Hb & Hb'). heights. unfold rebalanced. cbn [rebalance Z.eqb Pos.eqb balance].
  destruct (Z.eqb_spec b (-1)) as [->|Hn1]; [|destruct (Z.eqb_spec b 1) as [->|Hn2]].
  - eexists _, _. split; [done|]. cbn [avl height]. split_and!; try done; try lia.
    + in_order.
    + intros _. by exists lr, 0, r, (CR ll y 0).
  - destruct (height_pos lr) as (pl & p & c & pr & ->); [lia|]. cbn in Hlr, Hb, Hh.
    destruct Hlr as (Hpl & Hpr & Hc & Hc'). heights. eexists _, _. split; [done|].
    cbn [avl height].
    split_and!; try done; try (repeat case_match; lia); [in_order|].
    intros _. by exists pr, (if c =? -1 then 1 else 0), r, (CR (Node ll y (if c =? 1 then -1 else 0) pl) p 0).
  - eexists _, _. split; [done|]. cbn [avl height]. split_and!; try done; try lia. in_order.
Qed.

Lemma rebalance_right : height r = height l + 2 -> rebalanced (Node l x 1 r) r.
Proof using Hl Hr.
  intros Hh. heights. destruct r as [|rl y b rr]; cbn in Hh; [lia|]. clear r. cbn in Hr.
  destruct Hr as (Hrl & Hrr & Hb & Hb'). heights. unfold rebalanced. cbn [rebalance Z.eqb Pos.eqb balance].
  destruct (Z.eqb_spec b 1) as [->|Hn1]; [|destruct (Z.eqb_spec b (-1)) as [->|Hn2]].
  - eexists _, _. split; [done|]. cbn [avl height]. split_and!; try done; try lia.
    + in_order.
    + intros _. by exists l, 0, rl, (CL y 0 rr).
  - destruct (height_pos rl) as (pl & p & c & pr & ->); [lia|]. cbn in Hrl, Hb, Hh.
    destruct Hrl as (Hpl & Hpr & Hc & Hc'). heights. eexists _, _. split; [done|].
    cbn [avl height].
    split_and!; try done; try (repeat case_match; lia); [in_order|].
    intros _. by exists l, (if c =? 1 then -1 else 0), pl, (CL p 0 (Node pr y (if c =? -1 then 1 else 0) rr)).
  - eexists _, _. split; [done|]. cbn [avl height]. split_and!; try done; try lia. in_order.
Qed.
End Rebalance.

(** A frame whose longer side grew, or whose shorter side shrank. *)
Lemma rebalance_grown f t h : avl t -> frame_fits f h -> bal_of f = side f -> height t = h + 1 ->
  rebalanced (node_of f) (fill f t) t.
Proof.
  intros Ha (Ho & Hb & _) Hs Hh. destruct f as [a b r|l a b]; cbn in *; rewrite Hs in *.
  - apply rebalance_left; [done..|lia].
  - apply rebalance_right; [done..|lia].
Qed.
Lemma rebalance_shrunk f t h : avl t -> frame_fits f h -> bal_of f = - side f -> height t = h - 1 ->
  rebalanced (node_of f) (fill f t) (other_of f).
Proof.
  intros Ha (Ho & Hb & _) Hs Hh. destruct f as [a b r|l a b]; cbn in *; rewrite Hs in *.
  - apply rebalance_right; [done..|lia].
  - apply rebalance_left; [done..|lia].
Qed.



(** ** The record of the table

    [top_frame H b] is the frame of BalancedRoot, which is above every path. *)

Definition top_frame (H b : Z) : frame := CR Leaf H b.

Lemma plug_head t k H b : plug t (k ++ [top_frame H b]) = Node Leaf H b (plug t k).
Proof. by rewrite avl_plug_app. Qed.

(** Reading and writing at the node above a subtree. *)
Section Above.
Context {B : Type} (t : tree) (f : frame) (k : list frame) (F : list (Z * RTL_BALANCED_LINKS)).
Context (s : B) (post : list (Z * RTL_BALANCED_LINKS)).
Abbreviation pre := (cells (plug t (f :: k)) ++ F).

Lemma r_frame_Balance (m : Z -> BM B) :
  triple pre (m (bal_of f)) s post -> triple pre (get_Balance (node_of f) ≫= m) s post.
Proof.
  intros Ht. destruct f as [a b r|l a b].
  - by eapply (r_Balance t a b r k _ F).
  - by eapply (r_Balance l a b t k _ F).
Qed.
Lemma r_frame_Parent (m : Z -> BM B) :
  triple pre (m (parent_of (node_of f) k)) s post -> triple pre (get_Parent (node_of f) ≫= m) s post.
Proof.
  intros Ht. destruct f as [a b r|l a b].
  - by eapply (avl_r_Parent t a b r k _ F).
  - by eapply (avl_r_Parent l a b t k _ F).
Qed.
Lemma r_set_frame_Balance b' (m : unit -> BM B) :
  triple (cells (plug t (with_bal f b' :: k)) ++ F) (m tt) s post ->
  triple pre (set_Balance (node_of f) b' ≫= m) s post.
Proof.
  intros Ht. destruct f as [a b r|l a b].
  - by eapply (fun Hp => r_set_Balance t a b r k _ F Hp b').
  - by eapply (fun Hp => r_set_Balance l a b t k _ F Hp b').
Qed.
End Above.

Lemma r_root_IsLeftChild {B} t k F (m : bool -> BM B) s post : t <> Leaf ->
  triple (cells (plug t k) ++ F) (m (on_left k)) s post ->
  triple (cells (plug t k) ++ F) (RtlIsLeftChild (root t) ≫= m) s post.
Proof. intros Hne Ht. destruct t as [|l x b r]; [done|]. by eapply (avl_r_IsLeftChild l x b r k _ F). Qed.
Lemma r_root_IsRightChild {B} t k F (m : bool -> BM B) s post : t <> Leaf ->
  triple (cells (plug t k) ++ F) (m (on_right k)) s post ->
  triple (cells (plug t k) ++ F) (RtlIsRightChild (root t) ≫= m) s post.
Proof. intros Hne Ht. destruct t as [|l x b r]; [done|]. by eapply (avl_r_IsRightChild l x b r k _ F). Qed.

Lemma r_head_Balance {B} t k H b F (f : Z -> BM B) s post :
  triple (cells (plug t (k ++ [top_frame H b])) ++ F) (f b) s post ->
  triple (cells (plug t (k ++ [top_frame H b])) ++ F) (get_Balance H ≫= f) s post.
Proof. intros Ht. rewrite plug_head in *. by apply (r_frame_Balance (plug t k) (top_frame H b) []). Qed.
Lemma r_set_head_Balance {B} t k H b b' F (f : unit -> BM B) s post :
  triple (cells (plug t (k ++ [top_frame H b'])) ++ F) (f tt) s post ->
  triple (cells (plug t (k ++ [top_frame H b])) ++ F) (set_Balance H b' ≫= f) s post.
Proof. intros Ht. rewrite !plug_head in *. by apply (r_set_frame_Balance (plug t k) (top_frame H b) []). Qed.

Lemma parent_app p q k f : parent_of p (k ++ [f]) = parent_of q (k ++ [f]).
Proof. by destruct k. Qed.

Lemma app_singleton_ne {A} (k : list A) f : k ++ [f] <> [].
Proof. by destruct k. Qed.

(** ** Insertion *)

Section Insert.
Context (H D : Z).

(** What the loop leaves: [g] says whether the tree grew. *)
Definition inserted (t : tree) (k : list frame) (h : Z) (m : nat -> BM Z) : Prop := exists t' (g : bool),
  (forall fuel, (length k < fuel)%nat ->
    triple (cells (plug t (k ++ [top_frame H (-1)])) ++ []) (m fuel) (if g then u32 (D + 1) else D)
      (cells (Node Leaf H (if g then 0 else -1) t') ++ [])) /\
  avl t' /\ inorder t' = inorder (plug t k) /\ height t' = up k h + (if g then 1 else 0).

Lemma inserted_stop t k h t1 f : avl t1 -> fits k (frame_up f h) -> height t1 = frame_up f h ->
  inorder t1 = inorder (fill f t) ->
  forall m, (forall fuel, triple (cells (plug t ((f :: k) ++ [top_frame H (-1)])) ++ []) (m (S fuel)) D
    (cells (plug t1 (k ++ [top_frame H (-1)])) ++ [])) -> inserted t (f :: k) h m.
Proof using H D.
  intros Ha Hf Hh Hi m Ht. exists (plug t1 k), false. rewrite (plug_head t1) in Ht.
  split; [intros [|fuel] Hfuel; [lia|apply Ht]|].
  rewrite avl_plug, height_plug, Hh. split_and!; [done..| |cbn; lia].
  cbn [plug]. by rewrite !avl_inorder_plug, Hi.
Qed.

Lemma inorder_with_bal f b t : inorder (fill (with_bal f b) t) = inorder (fill f t).
Proof. by destruct f. Qed.

Lemma insert_loop_correct k : forall t h, t <> Leaf -> avl t -> height t = h + 1 -> fits k h ->
  (1 < height t -> balance t <> 0) ->
  inserted t k h (fun fuel => insert_loop fuel H (root t) (parent_of H (k ++ [top_frame H (-1)])) D).
Proof using H D.
  induction k as [|f k IH]; intros t h Hne Ha Hh Hf Hb.
  - exists t, true. split_and!; [intros [|fuel] Hfuel; [lia|]|done|done|exact Hh].
    apply r_root_IsLeftChild; [done|]. cbn [app parent_of on_left top_frame].
    apply r_frame_Balance. cbn [bal_of top_frame Z.eqb Pos.eqb negb]. apply r_set_frame_Balance.
    apply (r_head_Balance t []). apply triple_ret.
  - pose proof Hf as [Hff Hfk]. pose proof Hff as (Ho & Hbal & Hbd). cbn [app parent_of].
    pose proof (height_nonneg (other_of f)) as Hpos.
    assert (Ha' : (if on_left ((f :: k) ++ [top_frame H (-1)]) then -1 else 1) = side f) by (by destruct f).
    assert (Hs : side f = -1 \/ side f = 1) by (destruct f; auto).
    destruct (Z.eqb_spec (bal_of f) 0) as [Hz|Hz]; [|destruct (Z.eqb_spec (bal_of f) (side f)) as [He|He]].
    + destruct (IH (fill (with_bal f (side f)) t) (frame_up f h)) as (t' & g & Ht & E1 & E2 & E3).
      * by destruct f.
      * apply avl_fill. split; [done|]. rewrite Hh. unfold frame_fits. destruct f; cbn in *; split_and!; try done; lia.
      * rewrite height_fill, Hh. unfold frame_up. destruct f; cbn in *; lia.
      * done.
      * by destruct f.
      * exists t', g. split_and!; [intros [|fuel] Hfuel; [lia|]|done|by rewrite E2; cbn; rewrite !avl_inorder_plug, inorder_with_bal|done].
        apply r_root_IsLeftChild; [done|]. rewrite Ha'. apply r_frame_Balance. rewrite Hz. cbn [Z.eqb].
        apply r_set_frame_Balance.
        replace (node_of f) with (node_of (with_bal f (side f))) by (by destruct f).
        apply r_frame_Parent. rewrite (parent_app _ H).
        replace (node_of (with_bal f (side f))) with (root (fill (with_bal f (side f)) t)) by (by destruct f).
        apply Ht. cbn in Hfuel. lia.
    + destruct (rebalance_grown f t h Ha Hff He Hh) as (c & t1 & Hreb & E1 & E2 & E3 & E4 & _).
      assert (c = false) as -> by (apply E4, Hb; destruct Hs as [Hs|Hs]; rewrite ?Hs in *; lia).
      apply (inserted_stop t k h t1 f); [done..|unfold frame_up; destruct f; cbn in *; lia|done|]. intros fuel.
      apply r_root_IsLeftChild; [done|]. rewrite Ha'. apply r_frame_Balance.
      apply Z.eqb_neq in Hz. rewrite Hz, He, Z.eqb_refl. cbn [negb].
      eapply triple_bind; [|apply triple_ret]. replace (node_of f) with (root (fill f t)) by (by destruct f).
      apply triple_frame, (t_RebalanceNode _ _ _ _ Hreb), app_singleton_ne.
    + apply (inserted_stop t k h (fill (with_bal f 0) t) f).
      * apply avl_fill. split; [done|]. rewrite Hh. unfold frame_fits. destruct f; cbn in *; split_and!; try done; lia.
      * done.
      * rewrite height_fill, Hh. unfold frame_up. destruct f; cbn in *; lia.
      * apply inorder_with_bal.
      * intros fuel. apply r_root_IsLeftChild; [done|]. rewrite Ha'. apply r_frame_Balance.
        apply Z.eqb_neq in Hz, He. rewrite Hz, He. cbn [negb]. apply r_set_frame_Balance.
        apply (r_head_Balance t (with_bal f 0 :: k)). apply triple_ret.
Qed.
End Insert.

(** ** Deletion: the loop *)

Definition side_of (k : list frame) : Z := if on_right k then 1 else -1.

Section DeleteLoop.
Context (H D : Z) (F : list (Z * RTL_BALANCED_LINKS)).

(** What the loop leaves: [g] says whether the tree became less deep. *)
Definition deleted (t : tree) (k : list frame) (h : Z) (m : nat -> BM Z) : Prop := exists t' (g : bool),
  (forall fuel, (length k < fuel)%nat ->
    triple (cells (plug t (k ++ [top_frame H 0])) ++ F) (m fuel) (if g then u32 (D - 1) else D)
      (cells (Node Leaf H (if g then -1 else 0) t') ++ F)) /\
  avl t' /\ inorder t' = inorder (plug t k) /\ height t' = up k h - (if g then 1 else 0).

Lemma deleted_stop t k h t1 f : avl t1 -> fits k (frame_up f h) -> height t1 = frame_up f h ->
  inorder t1 = inorder (fill f t) ->
  forall m, (forall fuel, triple (cells (plug t ((f :: k) ++ [top_frame H 0])) ++ F) (m (S fuel)) D
    (cells (plug t1 (k ++ [top_frame H 0])) ++ F)) -> deleted t (f :: k) h m.
Proof using H D F.
  intros Ha Hf Hh Hi m Ht. exists (plug t1 k), false. rewrite (plug_head t1) in Ht.
  split; [intros [|fuel] Hfuel; [lia|apply Ht]|].
  rewrite avl_plug, height_plug, Hh. split_and!; [done..| |cbn; lia].
  cbn [plug]. by rewrite !avl_inorder_plug, Hi.
Qed.

(** The turn above goes on with the subtree [t1] in the place of [fill f t]. *)
Lemma deleted_next t k h t1 f m :
  deleted t1 k (frame_up f h)
    (fun fuel => delete_loop fuel H (parent_of H (k ++ [top_frame H 0])) (side_of (k ++ [top_frame H 0])) D) ->
  t1 <> Leaf -> inorder t1 = inorder (fill f t) ->
  (forall fuel s post, triple (cells (plug t1 (k ++ [top_frame H 0])) ++ F)
     (r ← RtlIsRightChild (root t1); p ← get_Parent (root t1);
      delete_loop fuel H p (if r : bool then 1 else -1) D) s post ->
    triple (cells (plug t ((f :: k) ++ [top_frame H 0])) ++ F) (m (S fuel)) s post) ->
  deleted t (f :: k) h m.
Proof using H D F.
  intros (t' & g & Ht & E1 & E2 & E3) Hne Hi Hm. exists t', g.
  split_and!; [intros [|fuel] Hfuel; cbn in Hfuel; [lia|]|done| |done].
  - apply Hm. apply r_root_IsRightChild; [done|]. destruct t1 as [|l x b r]; [done|].
    eapply (avl_r_Parent l x b r (k ++ [top_frame H 0]) _ F); [done|]. rewrite (parent_app x H). apply Ht. lia.
  - rewrite E2. cbn [plug]. by rewrite !avl_inorder_plug, Hi.
Qed.

Lemma delete_loop_correct k : forall t h, avl t -> height t = h - 1 -> fits k h ->
  deleted t k h (fun fuel => delete_loop fuel H (parent_of H (k ++ [top_frame H 0])) (side_of (k ++ [top_frame H 0])) D).
Proof using H D F.
  induction k as [|f k IH]; intros t h Ha Hh Hf.
  - exists t, true. split_and!; [intros [|fuel] Hfuel; [lia|]; cbn [delete_loop]|done|done|exact Hh].
    cbn [app parent_of side_of on_right top_frame]. apply r_frame_Balance. cbn [bal_of top_frame side_of on_right Z.eqb].
    apply r_set_frame_Balance. apply (r_head_Balance t []). apply triple_ret.
  - pose proof Hf as [Hff Hfk]. pose proof Hff as (Ho & Hbal & Hbd).
    pose proof (height_nonneg (other_of f)) as Hpos. pose proof (height_nonneg t) as Hpos'.
    assert (Hs : side_of ((f :: k) ++ [top_frame H 0]) = side f) by (by destruct f). rewrite Hs. cbn [app parent_of].
    assert (Hside : side f = -1 \/ side f = 1) by (destruct f; auto).
    destruct (Z.eqb_spec (bal_of f) (side f)) as [He|He]; [|destruct (Z.eqb_spec (bal_of f) 0) as [Hz|Hz]].
    + apply (deleted_next t k h (fill (with_bal f 0) t) f).
      * apply IH; [|rewrite height_fill, Hh; unfold frame_up; destruct f; cbn in *; lia|done].
        apply avl_fill. split; [done|]. rewrite Hh. unfold frame_fits. destruct f; cbn in *; split_and!; try done; lia.
      * by destruct f.
      * apply inorder_with_bal.
      * intros fuel s post Ht. cbn [delete_loop]. apply r_frame_Balance. rewrite He, Z.eqb_refl. apply r_set_frame_Balance.
        replace (node_of f) with (root (fill (with_bal f 0) t)) by (by destruct f). exact Ht.
    + apply (deleted_stop t k h (fill (with_bal f (- side f)) t) f).
      * apply avl_fill. split; [done|]. rewrite Hh. unfold frame_fits. destruct f; cbn in *; split_and!; try done; lia.
      * done.
      * rewrite height_fill, Hh. unfold frame_up. destruct f; cbn in *; lia.
      * apply inorder_with_bal.
      * intros fuel. cbn [delete_loop]. apply r_frame_Balance. apply Z.eqb_neq in He. rewrite Hz in *. rewrite He. cbn [Z.eqb].
        apply r_set_frame_Balance. apply (r_head_Balance t (with_bal f (- side f) :: k)). apply triple_ret.
    + destruct (rebalance_shrunk f t h Ha Hff) as (c & t1 & Hreb & E1 & E2 & E3 & _ & E5); [lia|done|].
      assert (Hrun : forall (s : Z) post (m : bool -> BM Z), triple (cells (plug t1 (k ++ [top_frame H 0])) ++ F) (m c) s post ->
        triple (cells (plug (fill f t) (k ++ [top_frame H 0])) ++ F) (RebalanceNode (node_of f) ≫= m) s post).
      { intros s post m Ht. eapply triple_bind; [|exact Ht].
        replace (node_of f) with (root (fill f t)) by (by destruct f).
        apply triple_frame, (t_RebalanceNode _ _ _ _ Hreb), app_singleton_ne. }
      apply Z.eqb_neq in He, Hz. destruct c.
      * apply (deleted_stop t k h t1 f); [done..|unfold frame_up; destruct f; cbn in *; lia|done|].
        intros fuel. cbn [delete_loop]. apply r_frame_Balance. rewrite He, Hz. apply Hrun. apply triple_ret.
      * destruct (E5 eq_refl) as (l1 & b1 & r1 & g & ->).
        apply (deleted_next t k h (plug (Node l1 (node_of f) b1 r1) [g]) f).
        -- apply IH; [done|rewrite E3; unfold frame_up; destruct f; cbn in *; lia|done].
        -- by destruct g.
        -- done.
        -- intros fuel s post Ht. cbn [delete_loop]. apply r_frame_Balance. rewrite He, Hz.
           apply Hrun.
           eapply (avl_r_Parent l1 (node_of f) b1 r1 (g :: k ++ [top_frame H 0]) _ F); [done|].
           by destruct g.
Qed.
End DeleteLoop.

(** ** Fuel, and which children there are *)

Definition is_leaf (t : tree) : bool := match t with Leaf => true | _ => false end.

Lemma avl_root_null t p : NULL ∉ (links_of p t).*1 -> (root t =? NULL) = is_leaf t.
Proof.
  destruct t; [done|]. intros Hn. apply Z.eqb_neq. intros E. apply Hn. rewrite <- E. by apply avl_root_in.
Qed.
Lemma null_children l x b r k F : NULL ∉ (cells (plug (Node l x b r) k) ++ F).*1 ->
  (root l =? NULL) = is_leaf l /\ (root r =? NULL) = is_leaf r.
Proof.
  rewrite fmap_app, cells_open. cbn. rewrite !fmap_app. intros Hn.
  split; apply (avl_root_null _ x); intros Hin; apply Hn; rewrite elem_of_cons, !elem_of_app; tauto.
Qed.

Lemma links_length p t : length (links_of p t) = length (inorder t).
Proof. rewrite <- (length_fmap fst). by rewrite avl_links_keys. Qed.
Lemma cells_length t k F :
  (length k + length (inorder t) <= length (cells (plug t k) ++ F))%nat.
Proof.
  unfold cells. rewrite length_app, links_length, avl_inorder_plug, !length_app.
  enough (length k <= length (before k) + length (after k))%nat by lia.
  induction k as [|[a b r|l a b] k IH]; cbn; rewrite ?length_app; cbn; lia.
Qed.

Lemma avl_triple_fuel {A} pre (f : nat -> BM A) s post n : (n <= length pre)%nat ->
  (forall m, (n < m)%nat -> triple pre (f m) s post) -> triple pre (with_fuel f) s post.
Proof. intros Hn Ht h Ho. pose proof (owns_length _ _ Ho). apply Ht; [lia|done]. Qed.

(** ** The ends of a subtree *)

Lemma avl_leftmost_correct t : t <> Leaf -> exists e b r ke, t = plug (Node Leaf e b r) ke /\ before ke = [] /\
  forall k F fuel, (length (inorder t) <= fuel)%nat ->
    triple (cells (plug t k) ++ F) (leftmost fuel (root t)) e (cells (plug t k) ++ F).
Proof.
  induction t as [|l IHl a b r _]; intros Hne; [done|]. destruct l as [|ll x bx lr].
  - exists a, b, r, []. split_and!; [done..|]. intros k F [|fuel] Hf; cbn in Hf; [lia|]. cbn [leftmost root].
    eapply (avl_r_LeftChild Leaf a b r k _ F); [done|]. apply triple_ret.
  - destruct (IHl ltac:(done)) as (e & be & re & ke & He & Hb & Ht).
    exists e, be, re, (ke ++ [CL a b r]). split_and!; [by rewrite avl_plug_app, <- He| |].
    + clear -Hb. induction ke as [|[] ke IH]; cbn in *; [done|by apply IH|].
      apply app_eq_nil in Hb as [_ Hb]. by apply app_eq_nil in Hb as [_ Hb].
    + intros k F [|fuel] Hf; cbn in Hf, Ht; repeat rewrite length_app in *; cbn in Hf, Ht; [lia|].
      apply triple_pure. intros _ Hn. destruct (null_children _ _ _ _ _ _ Hn) as [Hl _].
      cbn [leftmost root]. eapply (avl_r_LeftChild (Node ll x bx lr) a b r k _ F); [done|]. rewrite Hl.
      apply (Ht (CL a b r :: k)). rewrite ?length_app in *. cbn in *. lia.
Qed.

Lemma avl_rightmost_correct t : t <> Leaf -> exists e b l ke, t = plug (Node l e b Leaf) ke /\ after ke = [] /\
  forall k F fuel, (length (inorder t) <= fuel)%nat ->
    triple (cells (plug t k) ++ F) (rightmost fuel (root t)) e (cells (plug t k) ++ F).
Proof.
  induction t as [|l _ a b r IHr]; intros Hne; [done|]. destruct r as [|rl x bx rr].
  - exists a, b, l, []. split_and!; [done..|]. intros k F [|fuel] Hf; cbn in Hf; rewrite length_app in Hf; cbn in Hf; [lia|].
    cbn [rightmost root]. eapply (avl_r_RightChild l a b Leaf k _ F); [done|]. apply triple_ret.
  - destruct (IHr ltac:(done)) as (e & be & le & ke & He & Hb & Ht).
    exists e, be, le, (ke ++ [CR l a b]). split_and!; [by rewrite avl_plug_app, <- He| |].
    + clear -Hb. induction ke as [|[] ke IH]; cbn in *; [done|done|by apply IH].
    + intros k F [|fuel] Hf; cbn in Hf, Ht; repeat rewrite length_app in *; cbn in Hf, Ht; [lia|].
      apply triple_pure. intros _ Hn. destruct (null_children _ _ _ _ _ _ Hn) as [_ Hr].
      cbn [rightmost root]. eapply (avl_r_RightChild l a b (Node rl x bx rr) k _ F); [done|]. rewrite Hr.
      apply (Ht (CR l a b :: k)). rewrite ?length_app in *. cbn in *. lia.
Qed.

(** ** Deletion: unlinking and relinking *)

(** The node above gets another child. *)
Lemma r_set_child {B} z p x f c R (m : Z -> BM B) s post :
  triple (z :: frame_cell p c f :: R) (m (side f)) s post ->
  triple (z :: frame_cell p x f :: R)
    ((if on_left [f] then set_LeftChild (node_of f) c;; mret (-1)
      else set_RightChild (node_of f) c;; mret 1) ≫= m) s post.
Proof.
  intros Ht. destruct f; cbn [on_left frame_cell node_of] in *; m_assoc; m_write;
    (eapply triple_bind; [apply triple_ret|exact Ht]).
Qed.

Section Unlink.
Context (c : tree) (e : Z) (n : RTL_BALANCED_LINKS) (f : frame) (p : Z) (R : list (Z * RTL_BALANCED_LINKS)).
Hypothesis Hp : Parent n = node_of f.

(** The records, the node above pointing to [x] and the subtree to [q]. *)
Definition unlinking (x q : Z) :=
  (e, n) :: frame_cell p x f :: links_of q c ++ links_of (node_of f) (other_of f) ++ R.

Lemma r_unlinking_side {B} (m : bool -> BM B) s post :
  triple (unlinking e e) (m (on_left [f])) s post ->
  triple (unlinking e e) (RtlIsLeftChild e ≫= m) s post.
Proof using Hp.
  intros Ht. apply triple_pure. intros Hnd Hn. apply triple_assoc. unfold unlinking in *.
  m_get. rewrite Hp. m_assoc. destruct f as [a b r|l a b]; cbn [frame_cell node_of other_of on_left] in *; m_get.
  - rewrite Z.eqb_refl. eapply triple_bind; [apply triple_ret|exact Ht].
  - rewrite (avl_root_ne l a e) by m_distinct. eapply triple_bind; [apply triple_ret|exact Ht].
Qed.

Lemma t_unlinking : LeftChild n = NULL /\ RightChild n = root c \/ LeftChild n = root c /\ c <> Leaf ->
  triple (unlinking e e) (unlink e) (side f) (unlinking (root c) (node_of f)).
Proof using Hp.
  intros Hc. apply triple_pure. intros Hnd Hn.
  assert (HN : (root c =? NULL) = is_leaf c) by (apply (avl_root_null c e); unfold unlinking in *; m_distinct).
  assert (Hfix : triple (unlinking (root c) e)
    ((if root c =? NULL then mret tt else set_Parent (root c) (node_of f));; mret (side f)) (side f)
    (unlinking (root c) (node_of f))).
  { eapply (avl_r_fix _ (node_of f) _ _ ((e, n) :: frame_cell p (root c) f :: links_of (node_of f) (other_of f) ++ R)
      (unlinking (root c) (node_of f)) e c);
      [unfold unlinking; solve_Permutation..|done|apply triple_ret]. }
  unfold unlink. unfold unlinking at 1. m_get. fold (unlinking e e). destruct Hc as [[-> Hr]|[Hl Hne]].
  - cbn [NULL Z.eqb]. apply r_unlinking_side. unfold unlinking at 1. m_get. m_get. rewrite Hp, Hr.
    apply r_set_child. m_get. rewrite Hr. fold (unlinking (root c) e).
    destruct (root c =? NULL); [exact Hfix|]. m_assoc. unfold unlinking at 1. m_get. by rewrite Hp.
  - assert (Hnn : (root c =? NULL) = false) by (rewrite HN; by destruct c). rewrite Hl, Hnn in *.
    apply r_unlinking_side. unfold unlinking at 1. m_get. m_get. rewrite Hp, Hl.
    apply r_set_child. m_get. m_get. by rewrite Hp, Hl.
Qed.
End Unlink.

Lemma t_unlink_right e be c k : k <> [] ->
  triple (cells (plug (Node Leaf e be c) k)) (unlink e) (side_of k)
    (cells (plug c k) ++ [(e, mkLinks (parent_of e k) NULL (root c) be)]).
Proof.
  intros Hk. destruct k as [|f k]; [done|].
  replace (side_of (f :: k)) with (side f) by (by destruct f).
  eapply triple_perm; [| |apply (t_unlinking c e (mkLinks (node_of f) NULL (root c) be) f
    (parent_of (top (node_of f) k) k) (slinks (node_of f) k (top (node_of f) k))); [done|by left]];
    rewrite cells_open; unfold unlinking; cbn; solve_Permutation.
Qed.
Lemma t_unlink_left e be c k : k <> [] -> c <> Leaf ->
  triple (cells (plug (Node c e be Leaf) k)) (unlink e) (side_of k)
    (cells (plug c k) ++ [(e, mkLinks (parent_of e k) (root c) NULL be)]).
Proof.
  intros Hk Hc. destruct k as [|f k]; [done|].
  replace (side_of (f :: k)) with (side f) by (by destruct f).
  eapply triple_perm; [| |apply (t_unlinking c e (mkLinks (node_of f) (root c) NULL be) f
    (parent_of (top (node_of f) k) k) (slinks (node_of f) k (top (node_of f) k))); [done|by right]];
    rewrite cells_open; unfold unlinking; cbn; solve_Permutation.
Qed.

(** EasyDelete, at [e], takes the place of NodeToDelete, at [d]. *)
Lemma t_relink l d b r e j k : k <> [] ->
  triple (cells (plug (Node l d b r) k) ++ [(e, j)]) (relink e d) tt
    (cells (plug (Node l e b r) k) ++ [(d, mkLinks (parent_of d k) (root l) (root r) b)]).
Proof.
  intros Hk. destruct k as [|f k]; [done|]. set (n := mkLinks (node_of f) (root l) (root r) b).
  set (p := parent_of (top (node_of f) k) k). set (Q := slinks (node_of f) k (top (node_of f) k)).
  eapply (triple_perm _ ((d, n) :: (e, j) :: frame_cell p d f ::
      links_of d l ++ links_of d r ++ links_of (node_of f) (other_of f) ++ Q) _ _ _
    ((d, n) :: (e, n) :: frame_cell p e f ::
      links_of e l ++ links_of e r ++ links_of (node_of f) (other_of f) ++ Q)).
  1,2: rewrite cells_open; unfold n, Q, p; cbn; solve_Permutation.
  apply triple_pure. intros Hnd Hn. unfold relink. m_load. m_write.
  assert (Hs : forall m : unit -> BM unit,
    triple ((d, n) :: (e, n) :: frame_cell p e f ::
      links_of d l ++ links_of d r ++ links_of (node_of f) (other_of f) ++ Q) (m tt) tt
    ((d, n) :: (e, n) :: frame_cell p e f ::
      links_of e l ++ links_of e r ++ links_of (node_of f) (other_of f) ++ Q) ->
    triple ((d, n) :: (e, n) :: frame_cell p d f ::
      links_of d l ++ links_of d r ++ links_of (node_of f) (other_of f) ++ Q)
      (b0 ← RtlIsLeftChild d;
       (if b0 : bool then q ← get_Parent e; set_LeftChild q e
        else b1 ← RtlIsRightChild d; assert b1;; q ← get_Parent e; set_RightChild q e) ≫= m) tt
    ((d, n) :: (e, n) :: frame_cell p e f ::
      links_of e l ++ links_of e r ++ links_of (node_of f) (other_of f) ++ Q)).
  { intros m Ht. apply triple_assoc. m_get. m_assoc.
    destruct f as [a bf r'|l' a bf]; cbn [frame_cell node_of other_of] in *; m_get.
    - rewrite Z.eqb_refl. eapply triple_bind; [apply triple_ret|]. cbv iota. m_assoc. m_get. m_write. exact Ht.
    - rewrite (avl_root_ne l' a d) by m_distinct. eapply triple_bind; [apply triple_ret|]. cbv iota. m_assoc.
      apply triple_assoc. m_get. m_assoc. m_get. rewrite Z.eqb_refl. eapply triple_bind; [apply triple_ret|].
      cbv beta. m_assoc. eapply triple_bind; [apply triple_ret|]. m_assoc. m_get. m_write. exact Ht. }
  apply Hs. unfold fix_left, fix_right. m_assoc. m_get. m_fix d l. m_get. apply triple_tail. m_fix d r. apply triple_ret.
Qed.

(** ** DeleteNodeFromTree *)

(** [t] is the node [e] with at most the subtree [c]. *)
Inductive lone (e : Z) (c : tree) : tree -> Prop :=
| lone_right be : lone e c (Node Leaf e be c)
| lone_left be : c <> Leaf -> lone e c (Node c e be Leaf).

Lemma lone_facts e c t : lone e c t -> avl t ->
  avl c /\ height t = height c + 1 /\ exists u v, inorder t = u ++ e :: v /\ inorder c = u ++ v.
Proof.
  intros [be|be Hc]; cbn; intros (H1 & H2 & H3 & H4); heights; (split_and!; [done|lia|]).
  - by exists [], (inorder c).
  - exists (inorder c), []. by rewrite app_nil_r.
Qed.

(** Unlinking EasyDelete and rebalancing; [m] is what follows. *)
Lemma easy_delete H hb D e c t k : lone e c t -> avl c -> fits k (height c + 1) ->
  exists t' (g : bool) j, avl t' /\ inorder t' = inorder (plug c k) /\
    height t' = up k (height c + 1) - (if g then 1 else 0) /\
    forall B (m : Z -> BM B) s post,
    triple (cells (Node Leaf H (if g then -1 else 0) t') ++ [(e, j)]) (m (if g then u32 (D - 1) else D)) s post ->
    triple (cells (plug t (k ++ [top_frame H hb])))
      (a ← unlink e; set_Balance H 0;; P ← get_Parent e;
       d ← with_fuel (fun fuel => delete_loop fuel H P a D); m d) s post.
Proof.
  intros Hlone Ha Hf. set (K := k ++ [top_frame H hb]).
  assert (HK : K <> []) by apply app_singleton_ne.
  assert (exists j, Parent j = parent_of e K /\
    triple (cells (plug t K)) (unlink e) (side_of K) (cells (plug c K) ++ [(e, j)])) as (j & Hj & Hun).
  { destruct Hlone; eexists; split; [|by apply t_unlink_right| |by apply t_unlink_left]; done. }
  destruct (delete_loop_correct H D [(e, j)] k c (height c + 1) Ha ltac:(lia) Hf) as (t' & g & Ht & E1 & E2 & E3).
  exists t', g, j. split_and!; [done..|]. intros B m s post Hm.
  eapply triple_bind; [exact Hun|]. unfold K. apply r_set_head_Balance.
  eapply g_Parent; [m_elem|]. rewrite Hj.
  eapply triple_bind; [|exact Hm]. apply (avl_triple_fuel _ _ _ _ (length k)).
  { etransitivity; [|apply cells_length]. rewrite length_app. lia. }
  intros fuel Hfuel. replace (parent_of e K) with (parent_of H (k ++ [top_frame H 0])) by (unfold K; by destruct k).
  replace (side_of (k ++ [top_frame H hb])) with (side_of (k ++ [top_frame H 0])) by (by destruct k). by apply Ht.
Qed.

(** EasyDelete: NodeToDelete itself, or the neighbour at the bottom of a side. *)
Section Choose.
Context (l : tree) (d b : Z) (r : tree).
Abbreviation t := (Node l d b r).

(** What is left below NodeToDelete when EasyDelete, at [e], is gone: [u], which
    has NodeToDelete in the place of EasyDelete if they differ. *)
Definition easy_order (e : Z) (u : list Z) : Prop :=
  e = d /\ u = inorder l ++ inorder r \/
  exists v w, e ∈ inorder l ++ inorder r /\ u = v ++ d :: w /\ inorder l ++ inorder r = v ++ e :: w.

Lemma choose_run e : (forall k fuel, (length (inorder t) <= fuel)%nat ->
    triple (cells (plug t k) ++ []) (if is_leaf l || is_leaf r then mret d
      else if b >=? 0 then leftmost fuel (root r) else rightmost fuel (root l)) e (cells (plug t k) ++ [])) ->
  forall k, triple (cells (plug t k)) (choose_EasyDelete d) e (cells (plug t k)).
Proof using l d b r.
  intros Ht k. rewrite <- (app_nil_r (cells _)). apply (avl_triple_fuel _ _ _ _ (length (inorder t))).
  { etransitivity; [|apply cells_length]. lia. }
  intros fuel Hf. apply triple_pure. intros _ Hn. destruct (null_children _ _ _ _ _ _ Hn) as [Hl Hr].
  eapply (avl_r_LeftChild l d b r k _ []); [done|]. eapply (avl_r_RightChild l d b r k _ []); [done|].
  specialize (Ht k fuel ltac:(lia)). rewrite Hl, Hr. destruct (is_leaf l || is_leaf r); [done|].
  by eapply (r_Balance l d b r k _ []).
Qed.

Lemma choose_correct : exists e c te ke, lone e c te /\ plug te ke = t /\ easy_order e (inorder (plug c ke)) /\
  forall k, triple (cells (plug t k)) (choose_EasyDelete d) e (cells (plug t k)).
Proof using l d b r.
  destruct (is_leaf l || is_leaf r) eqn:El.
  - assert (exists c, lone d c t /\ inorder c = inorder l ++ inorder r) as (c & Hc & Hi).
    { destruct l as [|ll a1 b1 lr]; [exists r; split; [constructor|done]|].
      destruct r as [|]; [|done]. eexists. split; [by apply lone_left|]. by rewrite app_nil_r. }
    exists d, c, t, []. split_and!; [done..|by left|]. apply choose_run. intros. rewrite El. apply triple_ret.
  - apply orb_false_elim in El as [Hl Hr]. assert (l <> Leaf /\ r <> Leaf) as [Hl' Hr'] by (by destruct l, r).
    destruct (b >=? 0) eqn:Eb.
    + destruct (avl_leftmost_correct r Hr') as (e & be & re & ke & He & Hb & Ht).
      exists e, re, (Node Leaf e be re), (ke ++ [CR l d b]). split_and!.
      * constructor.
      * by rewrite avl_plug_app, <- He.
      * right. exists (inorder l), (inorder re ++ after ke).
        assert (Hi : inorder r = e :: inorder re ++ after ke) by (rewrite He, avl_inorder_plug, Hb; done).
        rewrite Hi. split_and!; [set_solver| |done]. rewrite avl_plug_app. cbn. by rewrite avl_inorder_plug, Hb.
      * apply choose_run. intros k fuel Hf. rewrite Hl, Hr, Eb. cbn [orb]. apply (Ht (CR l d b :: k)).
        cbn in Hf. rewrite length_app in Hf. cbn in Hf. lia.
    + destruct (avl_rightmost_correct l Hl') as (e & be & le & ke & He & Hb & Ht).
      assert (exists c te, lone e c te /\ te = Node le e be Leaf /\ inorder c = inorder le) as (c & te & Hlone & Hte & Hc).
      { destruct le as [|l1 x1 b1 r1]; [exists Leaf, (Node Leaf e be Leaf); split; [constructor|done]|].
        exists (Node l1 x1 b1 r1), (Node (Node l1 x1 b1 r1) e be Leaf). split; [by constructor|done]. }
      exists e, c, te, (ke ++ [CL d b r]). split_and!.
      * done.
      * by rewrite avl_plug_app, Hte, <- He.
      * right. exists (before ke ++ inorder le), (inorder r).
        assert (Hi : inorder l = before ke ++ inorder le ++ [e]) by (rewrite He, avl_inorder_plug, Hb; cbn; by rewrite app_nil_r).
        rewrite Hi. split_and!; [set_solver| |by rewrite <- !app_assoc].
        rewrite avl_plug_app. cbn. rewrite avl_inorder_plug, Hb, Hc. by rewrite <- !app_assoc.
      * apply choose_run. intros k fuel Hf. rewrite Hl, Hr, Eb. cbn [orb]. apply (Ht (CL d b r :: k)).
        cbn in Hf. rewrite length_app in Hf. cbn in Hf. lia.
Qed.
End Choose.

Lemma fits_app k k' h : fits (k ++ k') h <-> fits k h /\ fits k' (up k h).
Proof. revert h. induction k as [|f k IH]; intros h; cbn; [tauto|]. rewrite IH. tauto. Qed.
Lemma up_app k k' h : up (k ++ k') h = up k' (up k h).
Proof. revert h. induction k as [|f k IH]; intros h; [done|]. apply IH. Qed.

(** The node [d] of a balanced tree is deleted: the tree that is left is balanced,
    has the other nodes in the same order, and is less deep if DepthOfTree is. *)
Lemma DeleteNodeFromTree_correct H hb D l d b r k : let t := plug (Node l d b r) k in
  avl t -> NoDup (inorder t) ->
  exists t' (g : bool) j, avl t' /\ inorder t' = before k ++ (inorder l ++ inorder r) ++ after k /\
    height t' = height t - (if g then 1 else 0) /\
    triple (cells (Node Leaf H hb t)) (DeleteNodeFromTree H d D) (if g then u32 (D - 1) else D)
      (cells (Node Leaf H (if g then -1 else 0) t') ++ [(d, j)]).
Proof.
  intros t Ha Hnd. pose proof Ha as Ha'. unfold t in Ha'. apply avl_plug in Ha' as [Hat Hfk].
  destruct (choose_correct l d b r) as (e & c & te & ke & Hlone & Hte & Hord & Hch).
  rewrite <- Hte in Hat, Hfk. apply avl_plug in Hat as [Hate Hfke]. rewrite height_plug in Hfk.
  destruct (lone_facts _ _ _ Hlone Hate) as (Hc & Hhc & _). rewrite Hhc in *.
  destruct (easy_delete H hb D e c te (ke ++ k)) as (t' & g & j & E1 & E2 & E3 & Hrun); [done|done|by apply fits_app|].
  assert (Ht : t = plug te (ke ++ k)) by (by rewrite avl_plug_app, Hte).
  assert (Hstart : forall s post,
    triple (cells (Node Leaf H (if g then -1 else 0) t') ++ [(e, j)])
      ((if d =? e then mret tt else relink e d);; mret (if g then u32 (D - 1) else D)) s post ->
    triple (cells (Node Leaf H hb t)) (DeleteNodeFromTree H d D) s post).
  { intros s post Hm. unfold DeleteNodeFromTree. apply (triple_bind _ _ e (cells (Node Leaf H hb t))).
    - specialize (Hch (k ++ [top_frame H hb])). rewrite plug_head in Hch. exact Hch.
    - rewrite Ht, <- plug_head. apply Hrun. exact Hm. }
  assert (Hh : height t' = height t - (if g then 1 else 0)) by (rewrite E3, Ht, height_plug, Hhc; done).
  rewrite avl_plug_app, avl_inorder_plug in E2. destruct Hord as [[-> Hu]|(v & w & He & Hu & Hlr)].
  - exists t', g, j. rewrite Hu in E2. split_and!; [done..|]. apply Hstart. rewrite Z.eqb_refl.
    eapply triple_bind; [apply triple_ret|apply triple_ret].
  - rewrite Hu in E2.
    assert (d ∈ inorder t') as (l' & b' & r' & k' & ->)%avl_find_path by (rewrite E2; set_solver).
    exists (plug (Node l' e b' r') k'), g, (mkLinks (parent_of d (k' ++ [top_frame H (if g then -1 else 0)])) (root l') (root r') b').
    assert (Hp : inorder t ≡ₚ e :: (before k ++ v) ++ d :: w ++ after k).
    { unfold t. rewrite avl_inorder_plug. transitivity (d :: before k ++ (inorder l ++ inorder r) ++ after k);
        [cbn; solve_Permutation|rewrite Hlr; solve_Permutation]. }
    rewrite Hp in Hnd. apply NoDup_cons in Hnd as [Hde Hnd].
    assert (Hk : (before k ++ v) ++ d :: w ++ after k = (before k' ++ inorder l') ++ d :: inorder r' ++ after k').
    { rewrite avl_inorder_plug in E2. transitivity (before k ++ (v ++ d :: w) ++ after k); [in_order|].
      rewrite <- E2. in_order. }
    apply NoDup_split in Hk as [Hk1 Hk2]; [|done].
    split_and!.
    + apply avl_plug. apply avl_plug in E1. exact E1.
    + rewrite avl_inorder_plug, Hlr. cbn. rewrite <- !app_assoc. cbn. by rewrite app_assoc, <- Hk1, <- Hk2, <- !app_assoc.
    + rewrite height_plug in Hh |- *. exact Hh.
    + apply Hstart. destruct (Z.eqb_spec d e) as [->|_]; [set_solver|].
      eapply triple_bind; [|apply triple_ret]. rewrite <- !plug_head. apply t_relink, app_singleton_ne.
Qed.

(** ** Successors and predecessors *)

(** The climb stops at the first ancestor that is not on that side; what comes
    after, or before, it is unchanged. *)
Lemma avl_climb_right_correct k : forall l x b r, exists l' y b' r' k',
  plug (Node l' y b' r') k' = plug (Node l x b r) k /\ on_right k' = false /\ after k' = after k /\
  forall fuel, (length k < fuel)%nat ->
    triple (cells (plug (Node l x b r) k)) (climb_right fuel x) y (cells (plug (Node l x b r) k)).
Proof.
  induction k as [|[a b' c|c a b'] k IH]; intros l x b r.
  1,2: exists l, x, b, r; eexists; split_and!; [done..|]; intros [|fuel] Hf; [lia|]; cbn [climb_right];
    m_at @avl_r_IsRightChild l x b r (@nil frame) || m_at @avl_r_IsRightChild l x b r (CL a b' c :: k); apply triple_ret.
  destruct (IH c a b' (Node l x b r)) as (l' & y & b2 & r' & k' & Hp & Hs & Ha & Ht).
  exists l', y, b2, r', k'. split_and!; [done..|]. intros [|fuel] Hf; cbn in Hf; [lia|]. cbn [climb_right].
  m_at @avl_r_IsRightChild l x b r (CR c a b' :: k). cbn [on_right].
  m_at @avl_r_Parent l x b r (CR c a b' :: k). apply Ht. lia.
Qed.
Lemma avl_climb_left_correct T k : on_left T = false -> forall l x b r, exists l' y b' r' k',
  plug (Node l' y b' r') (k' ++ T) = plug (Node l x b r) (k ++ T) /\ on_left k' = false /\ before k' = before k /\
  forall fuel, (length k < fuel)%nat ->
    triple (cells (plug (Node l x b r) (k ++ T))) (climb_left fuel x) y (cells (plug (Node l x b r) (k ++ T))).
Proof.
  intros HT. induction k as [|[a b' c|c a b'] k IH]; intros l x b r.
  - exists l, x, b, r, []. split_and!; [done..|]; intros [|fuel] Hf; [lia|]; cbn [climb_left].
    m_at @avl_r_IsLeftChild l x b r T. rewrite HT. apply triple_ret.
  - destruct (IH (Node l x b r) a b' c) as (l' & y & b2 & r' & k' & Hp & Hs & Ha & Ht).
    exists l', y, b2, r', k'. split_and!; [done..|]. intros [|fuel] Hf; cbn in Hf; [lia|]. cbn [climb_left].
    m_at @avl_r_IsLeftChild l x b r (CL a b' c :: k ++ T). cbn [on_left].
    m_at @avl_r_Parent l x b r (CL a b' c :: k ++ T). apply Ht. lia.
  - exists l, x, b, r, (CR c a b' :: k). split_and!; [done..|]; intros [|fuel] Hf; [lia|]; cbn [climb_left].
    m_at @avl_r_IsLeftChild l x b r (CR c a b' :: k ++ T). apply triple_ret.
Qed.

Lemma parent_ne l x b r k : NoDup (cells (plug (Node l x b r) k)).*1 -> k <> [] -> parent_of x k <> x.
Proof.
  intros Hnd Hk. destruct k as [|f k]; [done|]. rewrite cells_open in Hnd. cbn in Hnd |- *.
  apply NoDup_cons in Hnd as [Hx _]. intros E. apply Hx. rewrite fmap_app, elem_of_app. right.
  destruct f; cbn in *; rewrite E; left.
Qed.

Lemma leftmost_hd t e b r ke : t = plug (Node Leaf e b r) ke -> before ke = [] -> forall u, hd NULL (inorder t ++ u) = e.
Proof. intros -> Hb u. by rewrite avl_inorder_plug, Hb. Qed.
Lemma rightmost_last t e b l ke : t = plug (Node l e b Leaf) ke -> after ke = [] -> forall u, List.last (u ++ inorder t) NULL = e.
Proof. intros -> Hb u. rewrite avl_inorder_plug, Hb. cbn. by rewrite app_nil_r, !app_assoc, last_last. Qed.

Lemma RealSuccessor_cells l x b r k : triple (cells (plug (Node l x b r) k)) (RealSuccessor x)
  (hd NULL (inorder r ++ after k)) (cells (plug (Node l x b r) k)).
Proof.
  apply (avl_triple_fuel _ _ _ _ (length k + length (inorder (Node l x b r)))).
  { rewrite <- (app_nil_r (cells _)). apply cells_length. }
  cbn [inorder]. rewrite length_app. cbn [length]. intros fuel Hf. apply triple_pure. intros _ Hn.
  rewrite <- (app_nil_r (cells _)) in Hn. destruct (null_children _ _ _ _ _ _ Hn) as [_ Hr].
  m_at @avl_r_RightChild l x b r k. rewrite Hr. destruct r as [|rl y by' rr]; cbn [is_leaf negb].
  - destruct (avl_climb_right_correct k l x b Leaf) as (l' & y & b' & r' & k' & Hp & Hs & Ha & Ht).
    eapply triple_bind; [apply Ht; lia|]. cbn [inorder app]. rewrite <- Ha, <- Hp.
    m_at @avl_r_IsLeftChild l' y b' r' k'. destruct k' as [|[a c t'|t' a c] k']; cbn [on_left on_right after hd] in *; try done.
    + m_at @avl_r_Parent l' y b' r' (@nil frame). cbn [parent_of]. rewrite Z.eqb_refl.
      eapply triple_bind; [apply triple_ret|apply triple_ret].
    + apply triple_tail. m_at @avl_r_Parent l' y b' r' (CL a c t' :: k'). apply triple_ret.
  - destruct (avl_leftmost_correct (Node rl y by' rr)) as (e & be & re & ke & He & Hb & Ht); [done|].
    rewrite (leftmost_hd _ _ _ _ _ He Hb). specialize (Ht (CR l x b :: k) []). rewrite app_nil_r in Ht.
    apply Ht. cbn in *. lia.
Qed.

Lemma RealPredecessor_cells l x b r k H hb : let W := plug (Node l x b r) (k ++ [top_frame H hb]) in
  triple (cells W) (RealPredecessor x) (List.last (before k ++ inorder l) NULL) (cells W).
Proof.
  intros W. unfold W. apply (avl_triple_fuel _ _ _ _ (length k + length (inorder (Node l x b r)))).
  { rewrite <- (app_nil_r (cells _)). etransitivity; [|apply cells_length]. rewrite length_app. lia. }
  cbn [inorder]. rewrite length_app. cbn [length]. intros fuel Hf. apply triple_pure. intros Hnd Hn.
  rewrite <- (app_nil_r (cells _)) in Hn. destruct (null_children _ _ _ _ _ _ Hn) as [Hl _].
  m_at @avl_r_LeftChild l x b r (k ++ [top_frame H hb]). rewrite Hl. destruct l as [|ll y by' lr]; cbn [is_leaf negb].
  - destruct (avl_climb_left_correct [top_frame H hb] k eq_refl Leaf x b r) as (l' & y & b' & r' & k' & Hp & Hs & Ha & Ht).
    eapply triple_bind; [apply Ht; lia|]. cbn [inorder]. rewrite app_nil_r, <- Ha. rewrite <- Hp in *.
    m_at @avl_r_IsRightChild l' y b' r' (k' ++ [top_frame H hb]).
    destruct k' as [|[a c t'|t' a c] k']; cbn [on_left on_right before app top_frame] in *; try done.
    + m_at @avl_r_Parent l' y b' r' [top_frame H hb]. cbn [parent_of top_frame node_of].
      m_at @avl_r_Parent Leaf H hb (Node l' y b' r') (@nil frame). cbn [parent_of]. rewrite Z.eqb_refl. apply triple_ret.
    + m_at @avl_r_Parent l' y b' r' (CR t' a c :: k' ++ [top_frame H hb]). cbn [parent_of node_of].
      m_at @avl_r_Parent t' a c (Node l' y b' r') (k' ++ [top_frame H hb]).
      assert (Hne : (parent_of a (k' ++ [top_frame H hb]) =? a) = false).
      { apply Z.eqb_neq, (parent_ne t' a c (Node l' y b' r')); [exact Hnd|apply app_singleton_ne]. }
      rewrite Hne. cbn [negb]. rewrite !app_assoc, last_last. apply triple_ret.
  - destruct (avl_rightmost_correct (Node ll y by' lr)) as (e & be & le & ke & He & Hb & Ht); [done|].
    rewrite (rightmost_last _ _ _ _ _ He Hb). specialize (Ht (CL x b r :: k ++ [top_frame H hb]) []). rewrite app_nil_r in Ht.
    apply Ht. cbn in *. lia.
Qed.

(** The successor of a node, without the header. *)
Lemma RealSuccessor_head l x b r k H hb : let W := plug (Node l x b r) (k ++ [top_frame H hb]) in
  triple (cells W) (RealSuccessor x) (hd NULL (inorder r ++ after k)) (cells W).
Proof.
  intros W. assert (Hk : after k = after (k ++ [top_frame H hb])).
  { clear. induction k as [|[] k IH]; cbn; [done|by rewrite IH|done]. }
  rewrite Hk. apply RealSuccessor_cells.
Qed.

End AvlTree.
