(* ===== verification/RtlAvlTable.v ===== *)
(** * Generic tables on balanced trees (rtl/avltable.c, the table)

    The second implementation of generic tables: the elements of a user in a
    balanced tree, ordered by the user's compare routine.  Module [AvlTable]
    translates the exported routines of src/ntoskrnl/rtl/avltable.c over the
    routines of [RtlAvl].  A node of the table is a TABLE_ENTRY_HEADER: balanced
    links and user data; the memory ([mem]) keeps the two kinds of record apart.
    The compare, allocate, free and match routines are parameters, and what the
    table relies on are the class [CompareOrder] of [RtlGenTable] and the classes
    [Allocator] and [Deallocator] below.  A failed ASSERT is a fault; the one that
    checks the size of the tree against its depth reads a table of 33 entries.  As
    in [RtlGenTable], the user data is a value that stands for the BufferSize bytes
    of the caller, and a block of the allocate routine has room for it.

    The specification is the dictionary of [RtlGenTable], a sorted association
    list, cut in two by the enumeration: [represents s done todo] says that the
    table holds the elements [done ++ todo], in this order, and that
    RtlEnumerateGenericTableAvl has passed those of [done]. *)

From Stdlib Require Import Sorted.
From S2P Require Import Prelude RtlHeap RtlGenTable RtlAvl RtlAvlTree.
From stdpp Require Import gmap list_tactics sets.
#[local] Open Scope Z_scope.

Module AvlTable.
Import Avl.
Import GenTable(RTL_GENERIC_COMPARE_RESULTS(..), TABLE_SEARCH_RESULT(..), MAXULONG).

(** [BalancedRoot] is the address of the record, [&Table->BalancedRoot]. *)
Record RTL_AVL_TABLE := mkTable {
  BalancedRoot : Z;
  OrderedPointer : Z;
  WhichOrderedElement : Z;
  NumberGenericTableElements : Z;
  DepthOfTree : Z;
  RestartKey : Z;
  DeleteCount : Z }.

(** The user data of a TABLE_ENTRY_HEADER (x86: three pointers, the balance and
    three bytes reserved, user data aligned to 8 bytes). *)
Definition UserDataOf (Node : Z) : Z := Node + 16.

Definition STATUS_SUCCESS : Z := 0.
Definition STATUS_NO_MATCH : Z := 0xC0000272.
Definition STATUS_NO_MORE_MATCHES : Z := 0xC0000273.

Definition BestCaseFill : list Z := [
  0;          1;          3;          7;          0xf;        0x1f;       0x3f;       0x7f;
  0xff;       0x1ff;      0x3ff;      0x7ff;      0xfff;      0x1fff;     0x3fff;     0x7fff;
  0xffff;     0x1ffff;    0x3ffff;    0x7ffff;    0xfffff;    0x1fffff;   0x3fffff;   0x7fffff;
  0xffffff;   0x1ffffff;  0x3ffffff;  0x7ffffff;  0xfffffff;  0x1fffffff; 0x3fffffff; 0x7fffffff;
  0xffffffff ].
Definition WorstCaseFill : list Z := [
  0;          1;          2;          4;          7;          12;         20;         33;
  54;         88;         143;        232;        376;        609;        986;        1596;
  2583;       4180;       6764;       10945;      17710;      28656;      46367;      75024;
  121392;     196417;     317810;     514228;     832039;     1346268;    2178308;    3524577;
  5702886 ].

Record mem (U : Type) := mkMem { Links : heap RTL_BALANCED_LINKS; Data : heap U }.
Arguments mkMem {U}. Arguments Links {U}. Arguments Data {U}.
Record state (U : Type) := mkState { Table : RTL_AVL_TABLE; Mem : mem U }.
Arguments mkState {U}. Arguments Table {U}. Arguments Mem {U}.

(** Routines on a table; [None] is a fault. *)
Definition TM (U A : Type) : Type := state U -> option (A * state U).
#[global] Instance TM_ret {U} : MRet (TM U) := fun A x s => Some (x, s).
#[global] Instance TM_bind {U} : MBind (TM U) :=
  fun A B k m s => match m s with Some (x, s') => k x s' | None => None end.

Section Routines.
Context {U : Type}.
Context (CompareRoutine : U -> U -> RTL_GENERIC_COMPARE_RESULTS).
Context (AllocateRoutine : mem U -> Z * mem U) (FreeRoutine : Z -> mem U -> mem U).
(** The value of a local variable that is not initialised. *)
Context (uninitialized : Z).

Definition on_links {A} (m : BM A) : TM U A := fun s =>
  match m (Links (Mem s)) with
  | Some (x, h) => Some (x, mkState (Table s) (mkMem h (Data (Mem s))))
  | None => None
  end.
Definition on_data {A} (m : M U A) : TM U A := fun s =>
  match m (Data (Mem s)) with
  | Some (x, h) => Some (x, mkState (Table s) (mkMem (Links (Mem s)) h))
  | None => None
  end.
Definition get_table : TM U RTL_AVL_TABLE := fun s => Some (Table s, s).
Definition modify_table (f : RTL_AVL_TABLE -> RTL_AVL_TABLE) : TM U unit :=
  fun s => Some (tt, mkState (f (Table s)) (Mem s)).
Definition tfault {A} : TM U A := fun _ => None.
Definition tassert (b : bool) : TM U unit := if b then mret tt else tfault.

Definition set_Ordered (p w : Z) : TM U unit := modify_table (fun t =>
  mkTable (BalancedRoot t) p w (NumberGenericTableElements t) (DepthOfTree t) (RestartKey t) (DeleteCount t)).
Definition set_Number (n : Z) : TM U unit := modify_table (fun t =>
  mkTable (BalancedRoot t) (OrderedPointer t) (WhichOrderedElement t) n (DepthOfTree t) (RestartKey t) (DeleteCount t)).
Definition set_Depth (d : Z) : TM U unit := modify_table (fun t =>
  mkTable (BalancedRoot t) (OrderedPointer t) (WhichOrderedElement t) (NumberGenericTableElements t) d (RestartKey t) (DeleteCount t)).
Definition set_RestartKey (k : Z) : TM U unit := modify_table (fun t =>
  mkTable (BalancedRoot t) (OrderedPointer t) (WhichOrderedElement t) (NumberGenericTableElements t) (DepthOfTree t) k (DeleteCount t)).
Definition set_DeleteCount (c : Z) : TM U unit := modify_table (fun t =>
  mkTable (BalancedRoot t) (OrderedPointer t) (WhichOrderedElement t) (NumberGenericTableElements t) (DepthOfTree t) (RestartKey t) c).

Definition allocate : TM U Z := fun s =>
  let '(p, m) := AllocateRoutine (Mem s) in Some (p, mkState (Table s) m).
Definition free (p : Z) : TM U unit := fun s => Some (tt, mkState (Table s) (FreeRoutine p (Mem s))).

(** ** The search *)

Definition RtlIsGenericTableEmptyAvl : TM U bool :=
  t ← get_table; mret (NumberGenericTableElements t =? 0).

Fixpoint find_loop (fuel : nat) (Buffer : U) (NodeToExamine NumberCompares : Z) : TM U (TABLE_SEARCH_RESULT * Z) :=
  match fuel with
  | O => tfault
  | S fuel =>
      d ← on_data (load (UserDataOf NodeToExamine));
      let Result := CompareRoutine Buffer d in
      let NumberCompares := u32 (NumberCompares + 1) in
      t ← get_table; tassert (NumberCompares <=? DepthOfTree t);;
      match Result with
      | GenericLessThan =>
          Child ← on_links (get_LeftChild NodeToExamine);
          if negb (Child =? NULL) then find_loop fuel Buffer Child NumberCompares
          else mret (TableInsertAsLeft, NodeToExamine)
      | GenericGreaterThan =>
          Child ← on_links (get_RightChild NodeToExamine);
          if negb (Child =? NULL) then find_loop fuel Buffer Child NumberCompares
          else mret (TableInsertAsRight, NodeToExamine)
      | GenericEqual => mret (TableFoundNode, NodeToExamine)
      end
  end.

(** One unit of fuel per record, and one more. *)
Definition with_nodes {A} (f : nat -> TM U A) : TM U A := fun s => f (S (size (Links (Mem s)))) s.

(** NodeOrParent is passed in and left alone when the tree is empty. *)
Definition FindNodeOrParent (Buffer : U) (NodeOrParent : Z) : TM U (TABLE_SEARCH_RESULT * Z) :=
  e ← RtlIsGenericTableEmptyAvl;
  if e : bool then mret (TableEmptyTree, NodeOrParent)
  else
    t ← get_table;
    NodeToExamine ← on_links (get_RightChild (BalancedRoot t));
    with_nodes (fun fuel => find_loop fuel Buffer NodeToExamine 0).

(** ** Initialisation, insertion, deletion, lookup *)

Definition RtlInitializeGenericTableAvl : TM U unit :=
  t ← get_table;
  modify_table (fun t => mkTable (BalancedRoot t) NULL 0 0 0 NULL 0);;
  on_links (modify (BalancedRoot t) (fun _ => mkLinks NULL NULL NULL 0));;
  on_links (set_Parent (BalancedRoot t) (BalancedRoot t)).

(** The ASSERT on size and depth; an index beyond the tables is a fault. *)
Definition check_fill : TM U unit :=
  t ← get_table;
  let n := NumberGenericTableElements t in
  match WorstCaseFill !! Z.to_nat (DepthOfTree t), BestCaseFill !! Z.to_nat (DepthOfTree t) with
  | Some w, Some b => tassert ((n >=? w) && (n <=? b))
  | _, _ => tfault
  end.

(** The result is the pointer to the user data and *NewElement. *)
Definition RtlInsertElementGenericTableFullAvl (Buffer : U) (NodeOrParent : Z)
    (SearchResult : TABLE_SEARCH_RESULT) : TM U (Z * bool) :=
  if decide (SearchResult <> TableFoundNode) then
    t ← get_table;
    tassert (negb (NumberGenericTableElements t =? MAXULONG - 1));;
    NodeToReturn ← allocate;
    if NodeToReturn =? NULL then mret (NULL, false)
    else
      on_links (modify NodeToReturn (fun _ => mkLinks NULL NULL NULL 0));;
      set_Number (u32 (NumberGenericTableElements t + 1));;
      (match SearchResult with
       | TableEmptyTree =>
           on_links (set_RightChild (BalancedRoot t) NodeToReturn);;
           on_links (set_Parent NodeToReturn (BalancedRoot t));;
           tassert (DepthOfTree t =? 0);;
           set_Depth 1
       | _ =>
           (match SearchResult with
            | TableInsertAsLeft => on_links (set_LeftChild NodeOrParent NodeToReturn)
            | _ => on_links (set_RightChild NodeOrParent NodeToReturn)
            end);;
           on_links (set_Parent NodeToReturn NodeOrParent);;
           on_links (set_Balance (BalancedRoot t) (-1));;
           d ← on_links (with_fuel (fun fuel =>
                 insert_loop fuel (BalancedRoot t) NodeToReturn NodeOrParent (DepthOfTree t)));
           set_Depth d
       end);;
      on_data (modify (UserDataOf NodeToReturn) (fun _ => Buffer));;
      check_fill;;
      mret (UserDataOf NodeToReturn, true)
  else
    check_fill;;
    mret (UserDataOf NodeOrParent, false).

Definition RtlInsertElementGenericTableAvl (Buffer : U) : TM U (Z * bool) :=
  '(Lookup, NodeOrParent) ← FindNodeOrParent Buffer uninitialized;
  RtlInsertElementGenericTableFullAvl Buffer NodeOrParent Lookup.

Definition RtlDeleteElementGenericTableAvl (Buffer : U) : TM U bool :=
  '(Lookup, NodeOrParent) ← FindNodeOrParent Buffer uninitialized;
  if decide (Lookup <> TableFoundNode) then mret false
  else
    t ← get_table;
    (if NodeOrParent =? RestartKey t then p ← on_links (RealPredecessor NodeOrParent); set_RestartKey p
     else mret tt);;
    set_DeleteCount (u32 (DeleteCount t + 1));;
    d ← on_links (DeleteNodeFromTree (BalancedRoot t) NodeOrParent (DepthOfTree t)); set_Depth d;;
    set_Number (u32 (NumberGenericTableElements t - 1));;
    set_Ordered NULL 0;;
    check_fill;;
    free NodeOrParent;;
    mret true.

(** The result is the pointer, *NodeOrParent and *SearchResult. *)
Definition RtlLookupElementGenericTableFullAvl (Buffer : U) (NodeOrParent : Z)
    : TM U (Z * Z * TABLE_SEARCH_RESULT) :=
  '(SearchResult, NodeOrParent) ← FindNodeOrParent Buffer NodeOrParent;
  if decide (SearchResult <> TableFoundNode) then mret (NULL, NodeOrParent, SearchResult)
  else mret (UserDataOf NodeOrParent, NodeOrParent, SearchResult).

Definition RtlLookupElementGenericTableAvl (Buffer : U) : TM U Z :=
  r ← RtlLookupElementGenericTableFullAvl Buffer uninitialized; mret (fst (fst r)).

(** ** Enumeration *)

(** The leftmost and the rightmost node of the tree. *)
Definition first_node : TM U Z :=
  t ← get_table; r ← on_links (get_RightChild (BalancedRoot t));
  on_links (with_fuel (fun fuel => leftmost fuel r)).
Definition last_node : TM U Z :=
  t ← get_table; r ← on_links (get_RightChild (BalancedRoot t));
  on_links (with_fuel (fun fuel => rightmost fuel r)).

(** The result is the pointer and the new *RestartKey. *)
Definition RtlEnumerateGenericTableWithoutSplayingAvl (RestartKey : Z) : TM U (Z * Z) :=
  e ← RtlIsGenericTableEmptyAvl;
  if e : bool then mret (NULL, RestartKey)
  else
    '(NodeToReturn, RestartKey) ←
      (if RestartKey =? NULL then
         NodeToReturn ← first_node;
         mret (NodeToReturn, NodeToReturn)
       else
         NodeToReturn ← on_links (RealSuccessor RestartKey);
         mret (NodeToReturn, if negb (NodeToReturn =? NULL) then NodeToReturn else RestartKey));
    mret (if negb (NodeToReturn =? NULL) then UserDataOf NodeToReturn else NULL, RestartKey).

Definition RtlEnumerateGenericTableAvl (Restart : bool) : TM U Z :=
  (if Restart then set_RestartKey NULL else mret tt);;
  t ← get_table;
  '(p, k) ← RtlEnumerateGenericTableWithoutSplayingAvl (RestartKey t);
  set_RestartKey k;;
  mret p.

(** [for (; n; n--) CurrentNode = RealSuccessor(CurrentNode);] and its mirror image *)
Fixpoint walk_forward (n : nat) (CurrentNode : Z) : BM Z :=
  match n with O => mret CurrentNode | S n => c ← RealSuccessor CurrentNode; walk_forward n c end.
Fixpoint walk_backward (n : nat) (CurrentNode : Z) : BM Z :=
  match n with O => mret CurrentNode | S n => c ← RealPredecessor CurrentNode; walk_backward n c end.

(** The distance to walk and the node to start from. *)
Definition walk_to (CurrentNode CurrentLocation NumberInTable I : Z) : TM U Z :=
  if CurrentLocation >? I then
    if I >=? CurrentLocation / 2
    then on_links (walk_backward (Z.to_nat (u32 (CurrentLocation - I))) CurrentNode)
    else CurrentNode ← first_node; on_links (walk_forward (Z.to_nat I) CurrentNode)
  else
    let ForwardDistance := u32 (I - CurrentLocation) in
    let BackwardDistance := u32 (NumberInTable - u32 (I + 1)) in
    if ForwardDistance <=? u32 (BackwardDistance + 1)
    then on_links (walk_forward (Z.to_nat ForwardDistance) CurrentNode)
    else CurrentNode ← last_node; on_links (walk_backward (Z.to_nat BackwardDistance) CurrentNode).

(** The counter of the loop from the first node is the parameter itself, which is
    0 when it ends; the location saved is then 0. *)
Definition location_saved (CurrentLocation I : Z) : Z :=
  if (CurrentLocation >? I) && negb (I >=? CurrentLocation / 2) then 0 else I.

Definition RtlGetElementGenericTableAvl (I : Z) : TM U Z :=
  t ← get_table;
  let NumberInTable := NumberGenericTableElements t in
  if (I =? MAXULONG) || (u32 (I + 1) >? NumberInTable) then mret NULL
  else
    '(CurrentNode, CurrentLocation) ←
      (if OrderedPointer t =? NULL then
         CurrentNode ← first_node;
         set_Ordered CurrentNode 0;;
         mret (CurrentNode, 0)
       else mret (OrderedPointer t, WhichOrderedElement t));
    if I =? CurrentLocation then mret (UserDataOf CurrentNode)
    else
      Node ← walk_to CurrentNode CurrentLocation NumberInTable I;
      set_Ordered Node (location_saved CurrentLocation I);;
      mret (UserDataOf Node).

Definition RtlNumberGenericTableElementsAvl : TM U Z :=
  t ← get_table; mret (NumberGenericTableElements t).

(** *** Enumeration with a match function

    A match function gives a status for the user data; the table and MatchData
    are the caller's. *)

Definition MatchAll (P1 : U) : Z := STATUS_SUCCESS.

(** [while ((NodeOrParent != NULL) && (Status == STATUS_NO_MATCH)) ...]; the
    result is NodeOrParent and Status. *)
Fixpoint match_loop (fuel : nat) (MatchFunction : U -> Z) (NodeOrParent : Z) : TM U (Z * Z) :=
  match fuel with
  | O => tfault
  | S fuel =>
      if NodeOrParent =? NULL then mret (NULL, uninitialized)
      else
        d ← on_data (load (UserDataOf NodeOrParent));
        let Status := MatchFunction d in
        if Status =? STATUS_NO_MATCH then
          n ← on_links (RealSuccessor NodeOrParent); match_loop fuel MatchFunction n
        else mret (NodeOrParent, Status)
  end.

(** The position by the key: NodeOrParent and NextFlag. *)
Definition position (Buffer : U) (NextFlag : bool) : TM U (Z * bool) :=
  '(Lookup, NodeOrParent) ← FindNodeOrParent Buffer NULL;
  if decide (Lookup <> TableFoundNode) then
    if decide (Lookup = TableInsertAsRight) then n ← on_links (RealSuccessor NodeOrParent); mret (n, false)
    else mret (NodeOrParent, false)
  else mret (NodeOrParent, NextFlag).

(** The result is the pointer, *RestartKey and *DeleteCount. *)
Definition RtlEnumerateGenericTableLikeADirectory (MatchFunction : option (U -> Z)) (NextFlag : bool)
    (RestartKey DeleteCount : Z) (Buffer : U) : TM U (Z * Z * Z) :=
  e ← RtlIsGenericTableEmptyAvl;
  if e : bool then mret (NULL, NULL, DeleteCount)
  else
    let MatchFunction := default MatchAll MatchFunction in
    t ← get_table;
    let NodeOrParent := if negb (DeleteCount =? AvlTable.DeleteCount t) then NULL else RestartKey in
    '(NodeOrParent, NextFlag) ←
      (if NodeOrParent =? NULL then position Buffer NextFlag else mret (NodeOrParent, NextFlag));
    NodeOrParent ←
      (if NextFlag : bool then
         tassert (negb (NodeOrParent =? NULL));; on_links (RealSuccessor NodeOrParent)
       else mret NodeOrParent);
    '(NodeOrParent, Status) ← with_nodes (fun fuel => match_loop fuel MatchFunction NodeOrParent);
    if negb (NodeOrParent =? NULL) then
      tassert ((Status =? STATUS_SUCCESS) || (Status =? STATUS_NO_MORE_MATCHES));;
      mret (if Status =? STATUS_SUCCESS then UserDataOf NodeOrParent else NULL, NodeOrParent, AvlTable.DeleteCount t)
    else mret (NULL, RestartKey, DeleteCount).

End Routines.

(** ** What the user's routines promise *)

(** Allocation leaves what is in use alone; a node it returns was not in use. *)
Class Allocator {U} (alloc : mem U -> Z * mem U) : Prop := {
  alloc_keep m p m' : alloc m = (p, m') -> Links m ⊆ Links m' /\ Data m ⊆ Data m';
  alloc_fresh m p m' : alloc m = (p, m') -> p <> NULL -> 0 < p /\
    Links m !! p = None /\ Data m !! UserDataOf p = None /\
    is_Some (Links m' !! p) /\ is_Some (Data m' !! UserDataOf p) }.

(** Freeing a node touches that node only. *)
Class Deallocator {U} (dealloc : Z -> mem U -> mem U) : Prop := {
  free_links p m a : a <> p -> Links (dealloc p m) !! a = Links m !! a;
  free_data p m a : a <> UserDataOf p -> Data (dealloc p m) !! a = Data m !! a }.

(** ** The size of a balanced tree

    [fewest n] is the number of nodes a balanced tree of height [n] has at least. *)

Import AvlTree.

Fixpoint fewest2 (n : nat) : Z * Z :=
  match n with O => (0, 1) | S n => let '(a, b) := fewest2 n in (b, 1 + b + a) end.
Definition fewest (n : nat) : Z := fst (fewest2 n).

Lemma fewest_step n : fewest (S (S n)) = 1 + fewest (S n) + fewest n.
Proof. unfold fewest. cbn. by destruct (fewest2 n). Qed.
Lemma fewest_nonneg n : 0 <= fewest n /\ 0 <= fewest (S n).
Proof. induction n as [|n [IH1 IH2]]; [done|]. split; [done|]. rewrite fewest_step. lia. Qed.
Lemma fewest_mono n m : (n <= m)%nat -> fewest n <= fewest m.
Proof.
  induction 1 as [|m _ IH]; [lia|]. etransitivity; [exact IH|]. destruct m as [|m]; [done|].
  rewrite fewest_step. destruct (fewest_nonneg m). lia.
Qed.

(** The tables of the ASSERT, with 33 entries each. *)
Lemma fill_tables n : (n <= 32)%nat -> WorstCaseFill !! n = Some (fewest n) /\ BestCaseFill !! n = Some (2 ^ Z.of_nat n - 1).
Proof.
  intros Hn. do 33 (destruct n as [|n]; [split; vm_compute; reflexivity|]). lia.
Qed.

Lemma avl_size t : avl t -> fewest (Z.to_nat (height t)) <= Z.of_nat (length (inorder t)) <= 2 ^ height t - 1.
Proof.
  induction t as [|l IHl a b r IHr]; [done|]. cbn [avl height inorder]. intros (Hl & Hr & Hb & Hb').
  specialize (IHl Hl). specialize (IHr Hr). rewrite length_app. cbn [length].
  pose proof (height_nonneg l). pose proof (height_nonneg r). split.
  - set (n := Z.to_nat (Z.max (height l) (height r))).
    replace (Z.to_nat (1 + Z.max (height l) (height r))) with (S n) by lia.
    assert (Hs : fewest (S n) <= 1 + fewest n + fewest (n - 1)).
    { destruct n as [|n]; [cbn; lia|]. rewrite fewest_step. replace (S n - 1)%nat with n by lia. lia. }
    assert (fewest n <= fewest (Z.to_nat (height l)) /\ fewest (n - 1) <= fewest (Z.to_nat (height r)) \/
            fewest n <= fewest (Z.to_nat (height r)) /\ fewest (n - 1) <= fewest (Z.to_nat (height l))) as [[]|[]]; [|lia..].
    destruct (Z.le_ge_cases (height l) (height r)); [right|left]; split; apply fewest_mono; lia.
  - rewrite Z.pow_add_r, Z.pow_1_r by lia.
    assert (2 ^ height l <= 2 ^ Z.max (height l) (height r)) by (apply Z.pow_le_mono_r; lia).
    assert (2 ^ height r <= 2 ^ Z.max (height l) (height r)) by (apply Z.pow_le_mono_r; lia). lia.
Qed.

(** The largest number of elements for which the depth is sure to be an index of
    the tables: a tree with 33 levels has at least one more. *)
Definition MaxElements : Z := 9227463.

Lemma avl_depth t : avl t -> Z.of_nat (length (inorder t)) <= MaxElements -> height t <= 32.
Proof.
  intros Ha Hlen. destruct (avl_size t Ha) as [Hs _]. destruct (Z.le_gt_cases (height t) 32) as [|Hgt]; [done|].
  assert (H33 : fewest 33 <= fewest (Z.to_nat (height t))) by (apply fewest_mono; lia).
  assert (fewest 33 = 9227464) by (vm_compute; reflexivity). unfold MaxElements in Hlen. lia.
Qed.

(** ** Tables in memory *)

Import GenTable(CompareOrder, cmp_opp, cmp_trans, cmp_eq, dict_find, dict_insert, dict_delete, above, below,
  dict_absent, dict_present, sorted, sorted_cut, above_rest, below_rest, equal_rest, fmap_split).

Section Represents.
Context {U : Type} (cmp : U -> U -> RTL_GENERIC_COMPARE_RESULTS).

Record tree_part (h : heap RTL_BALANCED_LINKS) (tab : RTL_AVL_TABLE) (E : list (Z * U)) (hb : Z) (t : tree) : Prop := {
  tp_in : owns (cells (Node Leaf (BalancedRoot tab) hb t)) h;
  tp_order : inorder t = E.*1;
  tp_avl : avl t;
  tp_depth : DepthOfTree tab = height t }.

Definition data_part (h : heap U) (E : list (Z * U)) : Prop :=
  Forall (fun e => 0 < fst e /\ h !! UserDataOf (fst e) = Some (snd e)) E.

(** The table holds the elements [E]. *)
Record holds (s : state U) (E : list (Z * U)) : Prop := mkHolds {
  rep_tree : exists hb t, tree_part (Links (Mem s)) (Table s) E hb t;
  rep_data : data_part (Data (Mem s)) E;
  rep_sorted : sorted cmp E;
  rep_number : NumberGenericTableElements (Table s) = Z.of_nat (length E);
  rep_bound : Z.of_nat (length E) <= MaxElements }.

(** The table holds [done ++ todo], and the enumeration is after [done]. *)
Definition represents (s : state U) (done todo : list (Z * U)) : Prop :=
  holds s (done ++ todo) /\ RestartKey (Table s) = List.last done.*1 NULL.

Lemma tree_size h tab E hb t : tree_part h tab E hb t -> length (inorder t) = length E.
Proof. intros [_ -> _ _]. by rewrite length_fmap. Qed.

Lemma holds_depth s E hb t : holds s E -> tree_part (Links (Mem s)) (Table s) E hb t -> 0 <= height t <= 32.
Proof.
  intros Hh Ht. pose proof (tree_size _ _ _ _ _ Ht) as Hs. split; [apply height_nonneg|].
  apply avl_depth; [apply Ht|]. rewrite Hs. apply Hh.
Qed.

(** The ASSERT on size and depth holds. *)
Lemma run_check_fill {B} s E (k : unit -> TM U B) : holds s E -> (check_fill ≫= k) s = k tt s.
Proof.
  intros Hh. destruct (rep_tree _ _ Hh) as (hb & t & Ht). pose proof (holds_depth _ _ _ _ Hh Ht) as Hd.
  destruct (avl_size t (tp_avl _ _ _ _ _ Ht)) as [H1 H2]. rewrite (tree_size _ _ _ _ _ Ht) in H1, H2.
  destruct (fill_tables (Z.to_nat (height t))) as [F1 F2]; [lia|].
  unfold check_fill, get_table, mbind, TM_bind. rewrite (tp_depth _ _ _ _ _ Ht), F1, F2, (rep_number _ _ Hh).
  rewrite Z2Nat.id by lia.
  assert ((Z.of_nat (length E) >=? fewest (Z.to_nat (height t))) && (Z.of_nat (length E) <=? 2 ^ height t - 1) = true) as ->; [|done].
  apply andb_true_intro. split; [rewrite Z.geb_leb|]; apply Z.leb_le; lia.
Qed.
End Represents.

(** ** Running routines of a part of the memory *)

Section Run.
Context {U : Type}.
Implicit Types s : state U.

Definition set_links (s : state U) (h : heap RTL_BALANCED_LINKS) : state U := mkState (Table s) (mkMem h (Data (Mem s))).

Lemma avl_run_links {A B} s (m : BM A) x h (k : A -> TM U B) :
  m (Links (Mem s)) = Some (x, h) -> (on_links m ≫= k) s = k x (set_links s h).
Proof. intros Hm. unfold mbind, TM_bind, on_links. by rewrite Hm. Qed.
Lemma avl_run_links_read {A B} s (m : BM A) x (k : A -> TM U B) :
  m (Links (Mem s)) = Some (x, Links (Mem s)) -> (on_links m ≫= k) s = k x s.
Proof. intros Hm. rewrite (avl_run_links _ _ _ _ _ Hm). by destruct s as [t []]. Qed.
Lemma avl_run_data_read {B} s a u (k : U -> TM U B) :
  a <> NULL -> Data (Mem s) !! a = Some u -> (on_data (load a) ≫= k) s = k u s.
Proof.
  intros Ha Hu. unfold mbind, TM_bind, on_data, load. apply Z.eqb_neq in Ha. rewrite Ha, Hu.
  by destruct s as [t []].
Qed.
Lemma avl_run_table {B} s (k : RTL_AVL_TABLE -> TM U B) : (get_table ≫= k) s = k (Table s) s.
Proof. done. Qed.
Lemma avl_run_ret {A B} s (x : A) (k : A -> TM U B) : (mret x ≫= k) s = k x s.
Proof. done. Qed.
Lemma run_assert {B} s b (k : unit -> TM U B) : b = true -> (tassert b ≫= k) s = k tt s.
Proof. by intros ->. Qed.
Lemma avl_run_step {A B} s (m : TM U A) x s' (k : A -> TM U B) : m s = Some (x, s') -> (m ≫= k) s = k x s'.
Proof. intros Hm. unfold mbind, TM_bind. by rewrite Hm. Qed.
Lemma avl_run_assoc {A B C} s (m : TM U A) (f : A -> TM U B) (k : B -> TM U C) :
  ((m ≫= f) ≫= k) s = (m ≫= fun x => f x ≫= k) s.
Proof. unfold mbind, TM_bind. by destruct (m s) as [[]|]. Qed.
Lemma run_modify {B} s f (k : unit -> TM U B) : (modify_table f ≫= k) s = k tt (mkState (f (Table s)) (Mem s)).
Proof. done. Qed.
End Run.

(** Reading a node of the tree. *)
Section Reading.
Context (h : heap RTL_BALANCED_LINKS) (H hb : Z) (l : tree) (x b : Z) (r : tree) (k : list frame).
Hypothesis Hin : owns (cells (Node Leaf H hb (plug (Node l x b r) k))) h.

Lemma read_triple {A} (m : BM A) s :
  triple (cells (plug (Node l x b r) (k ++ [top_frame H hb]))) m s (cells (plug (Node l x b r) (k ++ [top_frame H hb]))) ->
  m h = Some (s, h).
Proof using Hin. intros Ht. rewrite plug_head in Ht. by apply (triple_read _ _ _ _ Ht). Qed.

Lemma avl_read_left : get_LeftChild x h = Some (root l, h).
Proof. apply read_triple, triple_tail. m_at @avl_r_LeftChild l x b r (k ++ [top_frame H hb]). apply triple_ret. Qed.
Lemma avl_read_right : get_RightChild x h = Some (root r, h).
Proof. apply read_triple, triple_tail. m_at @avl_r_RightChild l x b r (k ++ [top_frame H hb]). apply triple_ret. Qed.
Lemma read_null : (root l =? NULL) = is_leaf l /\ (root r =? NULL) = is_leaf r.
Proof.
  apply (null_children l x b r (k ++ [top_frame H hb]) []). rewrite app_nil_r, plug_head. apply Hin.
Qed.
End Reading.

Lemma read_root h H hb t : owns (cells (Node Leaf H hb t)) h -> get_RightChild H h = Some (root t, h).
Proof.
  intros Hin. apply (triple_read (cells (Node Leaf H hb t))); [|done]. apply triple_tail.
  m_at @avl_r_RightChild Leaf H hb t (@nil frame). apply triple_ret.
Qed.

(** ** The search *)

Lemma up_length k h : h + Z.of_nat (length k) <= up k h.
Proof.
  revert h. induction k as [|f k IH]; intros h; cbn; [lia|]. specialize (IH (frame_up f h)).
  unfold frame_up in *. lia.
Qed.

Section Search.
Context {U : Type} (cmp : U -> U -> RTL_GENERIC_COMPARE_RESULTS) `{!CompareOrder cmp}.

(** The side of a node on which there is room. *)
Definition place (f : frame) : TABLE_SEARCH_RESULT :=
  match f with CL _ _ _ => TableInsertAsLeft | CR _ _ _ => TableInsertAsRight end.

(** What FindNodeOrParent found: the node, or the place where it belongs. *)
Inductive found (b : U) (E : list (Z * U)) (t : tree) : TABLE_SEARCH_RESULT -> Z -> Prop :=
| found_node E1 n u E2 : E = E1 ++ (n, u) :: E2 -> cmp b u = GenericEqual -> found b E t TableFoundNode n
| found_place f k E1 E2 : t = plug Leaf (f :: k) -> E = E1 ++ E2 ->
    E1.*1 = before (f :: k) -> E2.*1 = after (f :: k) ->
    Forall (below cmp b) E1 -> Forall (above cmp b) E2 -> found b E t (place f) (node_of f).

Lemma avl_find_loop_correct (s : state U) b E hb T : tree_part (Links (Mem s)) (Table s) E hb T ->
  data_part (Data (Mem s)) E -> sorted cmp E -> height T <= 32 ->
  forall t k fuel Eb Em Ea, t <> Leaf -> T = plug t k -> E = Eb ++ Em ++ Ea ->
    Eb.*1 = before k -> Em.*1 = inorder t -> Ea.*1 = after k ->
    Forall (below cmp b) Eb -> Forall (above cmp b) Ea -> (length Em <= fuel)%nat ->
    exists r x, find_loop cmp fuel b (root t) (Z.of_nat (length k)) s = Some ((r, x), s) /\ found b E T r x.
Proof.
  intros [Hin Hi Havl Hdepth] Hd Hs H32 t.
  induction t as [|l IHl x bx r IHr]; intros k fuel Eb Em Ea Ht HT HE Hb Hm Ha HB HA Hf; [done|].
  cbn [inorder] in Hm.
  destruct (fmap_split fst Em _ _ _ Hm) as (El & [x' u] & Er & -> & Hl & Hx & Hr). cbn in Hx. subst x'.
  destruct fuel as [|fuel]; [rewrite length_app in Hf; cbn in Hf; lia|].
  assert (Hxu : (x, u) ∈ E) by (rewrite HE; set_solver).
  red in Hd. rewrite Forall_forall in Hd. destruct (Hd _ Hxu) as [Hpos Hdat]. cbn in Hpos, Hdat.
  rewrite HT in Hin. destruct (read_null _ _ _ _ _ _ _ _ Hin) as [Hnl Hnr].
  assert (Hk : u32 (Z.of_nat (length k) + 1) = Z.of_nat (length k) + 1 /\ Z.of_nat (length k) + 1 <= height T).
  { pose proof (up_length k (height (Node l x bx r))) as Hup. rewrite <- height_plug, <- HT in Hup.
    cbn [height] in Hup. pose proof (height_nonneg l). split; [apply u32_small; lia|lia]. }
  destruct Hk as [Hk1 Hk2].
  cbn [find_loop root]. rewrite (avl_run_data_read _ _ u) by (try done; unfold UserDataOf, NULL; lia).
  rewrite avl_run_table, run_assert, Hk1 by (rewrite Hk1, Hdepth; by apply Z.leb_le).
  assert (HE' : E = (Eb ++ El) ++ (x, u) :: Er ++ Ea) by (by rewrite HE, <- !app_assoc).
  rewrite length_app in Hf. cbn [length] in Hf.
  replace (Z.of_nat (length k) + 1) with (Z.of_nat (S (length k))) by lia.
  destruct (cmp b u) eqn:Ecmp.
  - assert (HA' : Forall (above cmp b) ((x, u) :: Er ++ Ea)).
    { constructor; [exact Ecmp|]. rewrite HE' in Hs. eapply above_rest; [done|exact Hs|exact Ecmp]. }
    rewrite (avl_run_links_read _ _ (root l)) by (by eapply avl_read_left). rewrite Hnl. destruct l as [|ll y by' lr].
    + eexists _, x. split; [done|].
      assert (El = []) as -> by (by apply fmap_nil_inv in Hl).
      apply (found_place b E T (CL x bx r) k Eb ((x, u) :: Er ++ Ea)); try done.
      cbn. by rewrite fmap_app, Hr, Ha.
    + destruct (IHl (CL x bx r :: k) fuel Eb El ((x, u) :: Er ++ Ea)) as (q & z & Hq & Hz); try done; [| |lia|].
      * by rewrite HE, <- !app_assoc.
      * cbn. by rewrite fmap_app, Hr, Ha.
      * by exists q, z.
  - assert (HB' : Forall (below cmp b) (Eb ++ El ++ [(x, u)])).
    { rewrite app_assoc. apply Forall_app. split; [|by constructor; [exact Ecmp|]].
      rewrite HE' in Hs. eapply below_rest; [done|exact Hs|exact Ecmp]. }
    rewrite (avl_run_links_read _ _ (root r)) by (by eapply avl_read_right). rewrite Hnr. destruct r as [|rl y by' rr].
    + eexists _, x. split; [done|].
      assert (Er = []) as -> by (by apply fmap_nil_inv in Hr).
      apply (found_place b E T (CR l x bx) k (Eb ++ El ++ [(x, u)]) Ea); try done.
      * by rewrite HE, <- !app_assoc.
      * by rewrite !fmap_app, Hb, Hl.
    + destruct (IHr (CR l x bx :: k) fuel (Eb ++ El ++ [(x, u)]) Er Ea) as (q & z & Hq & Hz); try done; [| |lia|].
      * by rewrite HE, <- !app_assoc.
      * cbn. by rewrite !fmap_app, Hb, Hl.
      * by exists q, z.
  - eexists _, x. split; [done|]. by apply (found_node b E T (Eb ++ El) x u (Er ++ Ea)).
Qed.

Lemma avl_run_empty {B} (s : state U) E (k : bool -> TM U B) : holds cmp s E ->
  (RtlIsGenericTableEmptyAvl ≫= k) s = k (match E with [] => true | _ => false end) s.
Proof using U.
  intros Hh. unfold RtlIsGenericTableEmptyAvl, get_table, mbind, TM_bind, mret, TM_ret.
  rewrite (rep_number _ _ _ Hh). by destruct E.
Qed.

Lemma avl_find_correct (s : state U) b E n0 hb t : holds cmp s E -> tree_part (Links (Mem s)) (Table s) E hb t -> E <> [] ->
  exists r x, FindNodeOrParent cmp b n0 s = Some ((r, x), s) /\ found b E t r x.
Proof using Type*.
  intros Hh Ht HE. pose proof (holds_depth _ _ _ _ _ Hh Ht) as Hd. pose proof Ht as [Hin Hord _ _].
  assert (Hne : t <> Leaf) by (intros ->; cbn in Hord; symmetry in Hord; by apply fmap_nil_inv in Hord).
  unfold FindNodeOrParent. rewrite (avl_run_empty s E) by done. destruct E as [|e E0] eqn:EE; [done|]. rewrite <- EE in *.
  rewrite avl_run_table, (avl_run_links_read _ _ (root t)) by (by eapply read_root). unfold with_nodes.
  destruct (avl_find_loop_correct s b E hb t Ht (rep_data _ _ _ Hh) (rep_sorted _ _ _ Hh) ltac:(lia) t []
    (S (size (Links (Mem s)))) [] E []) as (r & x & Hr & Hf); try done.
  - by rewrite app_nil_r.
  - apply owns_length in Hin. unfold cells in Hin. rewrite links_length in Hin. cbn in Hin.
    rewrite (tree_size _ _ _ _ _ Ht) in Hin. lia.
  - by exists r, x.
Qed.

Lemma avl_find_empty (s : state U) b n0 : holds cmp s [] -> FindNodeOrParent cmp b n0 s = Some ((TableEmptyTree, n0), s).
Proof using U. intros Hh. unfold FindNodeOrParent. by rewrite (avl_run_empty s []). Qed.

(** The search as a case distinction for clients: the element is there, or not. *)
Lemma avl_find_cases (s : state U) b E n0 : holds cmp s E ->
  (exists E1 n u E2, E = E1 ++ (n, u) :: E2 /\ cmp b u = GenericEqual /\ dict_find cmp b E = Some n /\
     Forall (below cmp b) E1 /\ Forall (above cmp b) E2 /\
     FindNodeOrParent cmp b n0 s = Some ((TableFoundNode, n), s)) \/
  (dict_find cmp b E = None /\ dict_delete cmp b E = E /\
   exists r x, r <> TableFoundNode /\ FindNodeOrParent cmp b n0 s = Some ((r, x), s)).
Proof using Type*.
  intros Hh. destruct (decide (E = [])) as [->|Hne].
  - right. split_and!; [done..|]. exists TableEmptyTree, n0. split; [done|by apply avl_find_empty].
  - destruct (rep_tree _ _ _ Hh) as (hb & t & Ht).
    destruct (avl_find_correct s b E n0 hb t Hh Ht Hne) as (r & x & Hf & Hfound).
    destruct Hfound as [E1 n u E2 HE Hu|f k E1 E2 _ HE _ _ H1 H2].
    + left. pose proof (rep_sorted _ _ _ Hh) as Hs. rewrite HE in Hs.
      destruct (equal_rest cmp b E1 n u E2 Hs Hu) as [H1 H2].
      exists E1, n, u, E2. rewrite HE. split_and!; try done. by apply (dict_present cmp b E1 n u E2 0 H1 Hu).
    + right. destruct (dict_absent cmp b E1 E2 0 H1 H2) as (D1 & _ & D3). rewrite <- HE in *.
      split_and!; [done..|]. exists (place f), (node_of f). split; [by destruct f|done].
Qed.
End Search.

End AvlTable.
