(* ===== verification/RtlAvlTableOps.v ===== *)
(** * Generic tables on balanced trees: the operations implement a dictionary

    Each routine of [RtlAvlTable] against the dictionary that the enumeration cuts
    in two: insertion (new element, duplicate, failed allocation), deletion,
    lookup, the four enumerations.  The refinement theorem covers sequences of
    requests; a table of integers runs them. *)

From Stdlib Require Import Sorted.
From S2P Require Import Prelude RtlHeap RtlGenTable RtlGenTableOps RtlAvl RtlAvlTree RtlAvlTable.
From stdpp Require Import gmap list_tactics sets.
#[local] Open Scope Z_scope.

Module AvlTableOps.
Import Avl AvlTree.
Import GenTable(RTL_GENERIC_COMPARE_RESULTS(..), TABLE_SEARCH_RESULT(..), MAXULONG,
  CompareOrder, cmp_opp, cmp_trans, cmp_eq, dict_find, dict_insert, dict_delete, above, below,
  dict_absent, dict_present, sorted, sorted_cut, above_rest, below_rest, equal_rest, fmap_split).
Import GenTableOps(owns_fresh, sorted_insert, sorted_remove).
Import AvlTable.

(** ** Insertion into the tree *)

(** [*ptr = p] for the pointer of the node above that is NULL. *)
Definition set_child (f : frame) (p : Z) : BM unit :=
  match f with CL a _ _ => set_LeftChild a p | CR _ a _ => set_RightChild a p end.

Lemma t_attach_leaf f k p v {B} (m : unit -> BM B) s post :
  triple (cells (plug (Node Leaf p 0 Leaf) (f :: k)) ++ []) (m tt) s post ->
  triple ((p, v) :: cells (plug Leaf (f :: k)))
    (modify p (fun _ => mkLinks NULL NULL NULL 0);; set_child f p;; set_Parent p (node_of f) ≫= m) s post.
Proof.
  intros Ht.
  assert (Hp : (p, v) :: cells (plug Leaf (f :: k)) ≡ₚ
    (p, v) :: frame_cell (parent_of (top (node_of f) k) k) NULL f ::
      links_of (node_of f) (other_of f) ++ slinks (node_of f) k (top (node_of f) k)).
  { by rewrite cells_open. }
  eapply triple_perm; [exact Hp|reflexivity|]. m_write.
  assert (Hq : cells (plug (Node Leaf p 0 Leaf) (f :: k)) ++ [] ≡ₚ
    (p, mkLinks (node_of f) NULL NULL 0) :: frame_cell (parent_of (top (node_of f) k) k) p f ::
      links_of (node_of f) (other_of f) ++ slinks (node_of f) k (top (node_of f) k)).
  { by rewrite app_nil_r, cells_open. }
  destruct f as [a b r|l a b]; cbn [set_child frame_cell node_of] in *; m_write; m_write;
    (eapply triple_perm; [|reflexivity|exact Ht]); symmetry; exact Hq.
Qed.

Lemma bind_inv {V A B} (m : M V A) (k : A -> M V B) h r h' :
  (m ≫= k) h = Some (r, h') -> exists x h1, m h = Some (x, h1) /\ k x h1 = Some (r, h').
Proof. unfold mbind, M_bind. destruct (m h) as [[x h1]|]; [|done]. intros Hk. by exists x, h1. Qed.

(** The steps of an insertion on the links, up to the end of the loop. *)
Lemma avl_insert_links h H hb f k p v D : let t := plug Leaf (f :: k) in
  owns (cells (Node Leaf H hb t)) h -> avl t ->
  h !! p = Some v -> p ∉ H :: inorder t -> p <> NULL ->
  exists h1 h2 h3 h4 h5 t' (g : bool), modify p (fun _ => mkLinks NULL NULL NULL 0) h = Some (tt, h1) /\
    set_child f p h1 = Some (tt, h2) /\ set_Parent p (node_of f) h2 = Some (tt, h3) /\
    set_Balance H (-1) h3 = Some (tt, h4) /\
    with_fuel (fun fuel => insert_loop fuel H p (node_of f) D) h4 = Some (if g then u32 (D + 1) else D, h5) /\
    owns (cells (Node Leaf H (if g then 0 else -1) t')) h5 /\ avl t' /\
    inorder t' = before (f :: k) ++ p :: after (f :: k) /\ height t' = height t + (if g then 1 else 0).
Proof.
  intros t Hin Ha Hv Hp Hn. apply avl_plug in Ha as [_ Hf].
  destruct (insert_loop_correct H D (f :: k) (Node Leaf p 0 Leaf) 0) as (t' & g & Ht & E1 & E2 & E3);
    [done|done|done|done|cbn; lia|].
  assert (Hrun : triple ((p, v) :: cells (Node Leaf H hb t))
    (modify p (fun _ => mkLinks NULL NULL NULL 0);; set_child f p;; set_Parent p (node_of f);;
     set_Balance H (-1);; with_fuel (fun fuel => insert_loop fuel H p (node_of f) D))
    (if g then u32 (D + 1) else D) (cells (Node Leaf H (if g then 0 else -1) t') ++ [])).
  { unfold t. rewrite <- plug_head. apply (t_attach_leaf f (k ++ [top_frame H hb])).
    apply (r_set_head_Balance _ (f :: k)). apply (avl_triple_fuel _ _ _ _ (length (f :: k))).
    - etransitivity; [|apply cells_length]. rewrite length_app. lia.
    - intros fuel Hfuel. by apply Ht. }
  destruct (Hrun h) as (h5 & Hm & Ho & _).
  { apply owns_fresh; [done| |done|done]. unfold cells. rewrite avl_links_keys. cbn. exact Hp. }
  rewrite app_nil_r in Ho.
  apply bind_inv in Hm as ([] & h1 & M1 & Hm). apply bind_inv in Hm as ([] & h2 & M2 & Hm).
  apply bind_inv in Hm as ([] & h3 & M3 & Hm). apply bind_inv in Hm as ([] & h4 & M4 & Hm).
  exists h1, h2, h3, h4, h5, t', g. rewrite avl_inorder_plug in E2. split_and!; try done.
  rewrite E3. unfold t. by rewrite height_plug.
Qed.

Lemma insert_links_empty h H hb p v : owns (cells (Node Leaf H hb Leaf)) h ->
  h !! p = Some v -> p <> H -> p <> NULL ->
  exists h1 h2 h3, modify p (fun _ => mkLinks NULL NULL NULL 0) h = Some (tt, h1) /\
    set_RightChild H p h1 = Some (tt, h2) /\ set_Parent p H h2 = Some (tt, h3) /\
    owns (cells (Node Leaf H hb (Node Leaf p 0 Leaf))) h3.
Proof.
  intros Hin Hv Hp Hn.
  destruct (t_attach_leaf (top_frame H hb) [] p v mret tt (cells (Node Leaf H hb (Node Leaf p 0 Leaf)) ++ []))
    with (h := h) as (h3 & Hm & Ho & _); [apply triple_ret| |].
  { apply owns_fresh; [done| |done|done]. cbn. by rewrite list_elem_of_singleton. }
  rewrite app_nil_r in Ho. apply bind_inv in Hm as ([] & h1 & M1 & Hm). apply bind_inv in Hm as ([] & h2 & M2 & Hm).
  apply bind_inv in Hm as ([] & h3' & M3 & Hm). injection Hm as <-. by exists h1, h2, h3'.
Qed.

(** ** The operations *)

(** The pointer handed to the user. *)
Definition ptr (r : option Z) : Z := match r with Some n => UserDataOf n | None => NULL end.

(** The fields that insertion leaves alone. *)
Definition same_marks {U} (s s' : state U) : Prop :=
  RestartKey (Table s') = RestartKey (Table s) /\ DeleteCount (Table s') = DeleteCount (Table s) /\
  OrderedPointer (Table s') = OrderedPointer (Table s) /\ WhichOrderedElement (Table s') = WhichOrderedElement (Table s).

Section Insert.
Context {U : Type} (cmp : U -> U -> RTL_GENERIC_COMPARE_RESULTS) `{!CompareOrder cmp}.
Context (alloc : mem U -> Z * mem U) `{!Allocator alloc}.
Context (uninit : Z).
Implicit Types (s : state U) (E : list (Z * U)).

Lemma avl_run_alloc {B} s p m (k : Z -> TM U B) : alloc (Mem s) = (p, m) ->
  (allocate alloc ≫= k) s = k p (mkState (Table s) m).
Proof. intros Ha. unfold mbind, TM_bind, allocate. by rewrite Ha. Qed.

Lemma avl_run_data_write {B} s a v b (k : unit -> TM U B) : a <> NULL -> Data (Mem s) !! a = Some v ->
  (on_data (modify a (fun _ => b)) ≫= k) s = k tt (mkState (Table s) (mkMem (Links (Mem s)) (<[a := b]> (Data (Mem s))))).
Proof. intros Ha Hv. unfold mbind, TM_bind, on_data, modify. apply Z.eqb_neq in Ha. by rewrite Ha, Hv. Qed.

Lemma holds_weaken s E m : holds cmp s E -> Links (Mem s) ⊆ Links m -> Data (Mem s) ⊆ Data m ->
  holds cmp (mkState (Table s) m) E.
Proof.
  intros [(hb & t & [[T1 T2 T3] T4 T5 T6]) H2 H3 H4 H5] S1 S2. split; [..|done|done|done]; cbn.
  - exists hb, t. split; [split; [done..|]|done..]. intros a v Hin. eapply lookup_weaken; [by apply T3|done].
  - eapply Forall_impl; [exact H2|]. cbn. intros e [? Hl]. split; [done|]. by eapply lookup_weaken.
Qed.

(** A node that is not in use is not a node of the table. *)
Lemma avl_fresh_node s E hb t p : tree_part (Links (Mem s)) (Table s) E hb t -> Links (Mem s) !! p = None ->
  p ∉ BalancedRoot (Table s) :: inorder t.
Proof.
  intros [Ht _ _ _] Hp Hin. change (_ :: inorder t) with (inorder (Node Leaf (BalancedRoot (Table s)) hb t)) in Hin.
  rewrite <- (avl_links_keys (BalancedRoot (Table s))) in Hin. apply list_elem_of_fmap in Hin as ((a & v) & -> & Hv).
  apply (owns_lookup _ _ Ht) in Hv. cbn in Hp. congruence.
Qed.

Lemma avl_data_insert h E1 E2 p b : data_part h (E1 ++ E2) -> p ∉ (E1 ++ E2).*1 -> 0 < p ->
  data_part (<[UserDataOf p := b]> h) (E1 ++ (p, b) :: E2).
Proof.
  unfold data_part. intros Hd Hp Hpos.
  assert (Hk : Forall (fun e : Z * U => 0 < e.1 /\ (<[UserDataOf p:=b]> h) !! UserDataOf e.1 = Some e.2) (E1 ++ E2)).
  { apply Forall_forall. intros e He. rewrite Forall_forall in Hd. destruct (Hd e He) as [H1 H2].
    split; [done|]. rewrite lookup_insert_ne; [done|]. unfold UserDataOf. intros Hx.
    apply Hp. replace p with e.1 by lia. by apply list_elem_of_fmap_2. }
  apply Forall_app in Hk as [K1 K2]. apply Forall_app. split; [done|]. constructor; [|done].
  cbn. split; [done|]. apply lookup_insert_eq.
Qed.

(** The state after a successful insertion, before and after the copy of the
    user's buffer. *)
Definition linked (s : state U) (d : Z) (h : heap RTL_BALANCED_LINKS) (hd0 : heap U) : state U :=
  mkState (mkTable (BalancedRoot (Table s)) (OrderedPointer (Table s)) (WhichOrderedElement (Table s))
    (NumberGenericTableElements (Table s) + 1) d (RestartKey (Table s)) (DeleteCount (Table s))) (mkMem h hd0).
Definition inserted (s : state U) (p : Z) (b : U) (d : Z) (h : heap RTL_BALANCED_LINKS) (hd0 : heap U) : state U :=
  linked s d h (<[UserDataOf p := b]> hd0).

Lemma holds_inserted s E1 E2 p b m d h hb t : holds cmp s (E1 ++ E2) -> Data (Mem s) ⊆ Data m ->
  p ∉ (E1 ++ E2).*1 -> 0 < p -> Z.of_nat (length (E1 ++ E2)) < MaxElements ->
  Forall (below cmp b) E1 -> Forall (above cmp b) E2 ->
  owns (cells (Node Leaf (BalancedRoot (Table s)) hb t)) h -> avl t -> inorder t = (E1 ++ (p, b) :: E2).*1 -> d = height t ->
  holds cmp (inserted s p b d h (Data m)) (E1 ++ (p, b) :: E2).
Proof.
  intros Hh S2 Hp Hpos Hlen H1 H2 Ho Ha Hi Hd. split; cbn.
  - by exists hb, t.
  - apply avl_data_insert; [|done|done].
    eapply Forall_impl; [exact (rep_data _ _ _ Hh)|]. cbn. intros e [? Hx]. split; [done|]. by eapply lookup_weaken.
  - apply sorted_insert; [done|apply Hh|done|done].
  - rewrite (rep_number _ _ _ Hh), !length_app. cbn. lia.
  - rewrite !length_app in *. cbn. lia.
Qed.

(** The end of the insertion. *)
Lemma run_new_end b p s1 E' : holds cmp (mkState (Table s1) (mkMem (Links (Mem s1)) (<[UserDataOf p := b]> (Data (Mem s1))))) E' ->
  is_Some (Data (Mem s1) !! UserDataOf p) -> 0 < p ->
  (on_data (modify (UserDataOf p) (fun _ => b));; check_fill;; mret (UserDataOf p, true)) s1 =
  Some ((UserDataOf p, true), mkState (Table s1) (mkMem (Links (Mem s1)) (<[UserDataOf p := b]> (Data (Mem s1))))).
Proof using U.
  intros Hh1 [v Hv] Hpos. rewrite (avl_run_data_write _ _ v) by (try done; unfold UserDataOf, NULL; lia).
  by rewrite (run_check_fill _ _ _ _ Hh1).
Qed.
(** A new element, with a node [p] from the allocation routine. *)
Section New.
Context (s : state U) (E : list (Z * U)) (b : U) (p : Z) (m : mem U).
Hypotheses (Hh : holds cmp s E) (Hlen : Z.of_nat (length E) < MaxElements).
Hypotheses (Ha : alloc (Mem s) = (p, m)) (Hp : p <> NULL).

Lemma new_node : 0 < p /\ (p ∉ E.*1) /\ p <> BalancedRoot (Table s) /\ exists v d, Links m !! p = Some v /\ Data m !! UserDataOf p = Some d.
Proof using Type*.
  destruct (alloc_fresh _ _ _ Ha Hp) as (Hpos & F1 & F2 & [v Hv] & [d Hd]).
  destruct (rep_tree _ _ _ Hh) as (hb & t & Ht). pose proof (avl_fresh_node _ _ _ _ _ Ht F1) as Hfr.
  rewrite <- (tp_order _ _ _ _ _ Ht). apply not_elem_of_cons in Hfr as [Hr Hfr]. split_and!; [done..|by exists v, d].
Qed.

Lemma run_new_node h1 (f : RTL_AVL_TABLE -> Z -> TM U (Z * bool)) :
  modify p (fun _ => mkLinks NULL NULL NULL 0) (Links m) = Some (tt, h1) ->
  (t ← get_table; tassert (negb (NumberGenericTableElements t =? MAXULONG - 1));;
   NodeToReturn ← allocate alloc;
   if NodeToReturn =? NULL then mret (NULL, false)
   else on_links (modify NodeToReturn (fun _ => mkLinks NULL NULL NULL 0));; f t NodeToReturn) s =
  f (Table s) p (mkState (Table s) (mkMem h1 (Data m))).
Proof using Hh Hlen Ha Hp.
  intros Hm. rewrite avl_run_table, run_assert.
  - rewrite (avl_run_alloc _ p m) by done. apply Z.eqb_neq in Hp. rewrite Hp. by rewrite (avl_run_links _ _ tt h1).
  - rewrite (rep_number _ _ _ Hh). unfold MAXULONG, MaxElements in *. by rewrite (proj2 (Z.eqb_neq _ _)) by lia.
Qed.

Lemma number_succ : u32 (NumberGenericTableElements (Table s) + 1) = NumberGenericTableElements (Table s) + 1.
Proof using Hh Hlen. rewrite (rep_number _ _ _ Hh). apply u32_small. unfold MaxElements in *. lia. Qed.

Lemma new_weaken : exists hb t, tree_part (Links m) (Table s) E hb t.
Proof using Type*. destruct (alloc_keep _ _ _ Ha) as (S1 & S2). apply (rep_tree _ _ _ (holds_weaken s E m Hh S1 S2)). Qed.

Lemma Full_empty x : E = [] -> exists s',
  RtlInsertElementGenericTableFullAvl alloc b x TableEmptyTree s = Some ((UserDataOf p, true), s') /\
  holds cmp s' [(p, b)] /\ same_marks s s'.
Proof using Type*.
  intros HE. destruct new_node as (Hpos & HpE & Hpr & v & d & Hv & Hd). destruct new_weaken as (hb & t & [Hin Hord Havl Hdep]).
  assert (t = Leaf) as -> by (rewrite HE in Hord; destruct t as [|l]; [done|]; cbn in Hord; by destruct (inorder l)).
  destruct (insert_links_empty _ _ _ _ _ Hin Hv Hpr Hp) as (h1 & h2 & h3 & M1 & M2 & M3 & Ho).
  assert (Hh' : holds cmp (inserted s p b 1 h3 (Data m)) [(p, b)]).
  { apply (holds_inserted s [] [] p b m 1 h3 hb (Node Leaf p 0 Leaf)); try done.
    - pose proof Hh as Hh0. rewrite HE in Hh0. exact Hh0.
    - by apply (alloc_keep _ _ _ Ha).
    - cbn. apply not_elem_of_nil. }
  exists (inserted s p b 1 h3 (Data m)). split_and!; [|done|done].
  unfold RtlInsertElementGenericTableFullAvl. rewrite decide_True by done.
  refine (eq_trans (run_new_node h1 _ M1) _). rewrite number_succ. unfold set_Number, set_Depth.
  rewrite run_modify, avl_run_assoc, (avl_run_links _ _ tt h2) by exact M2. rewrite avl_run_assoc, (avl_run_links _ _ tt h3) by exact M3.
  rewrite avl_run_assoc, run_assert by (by rewrite Hdep). rewrite run_modify.
  by apply (run_new_end b p (linked s 1 h3 (Data m)) [(p, b)]).
Qed.

Lemma Full_place f k E1 E2 hb : tree_part (Links m) (Table s) E hb (plug Leaf (f :: k)) -> E = E1 ++ E2 ->
  E1.*1 = before (f :: k) -> E2.*1 = after (f :: k) -> Forall (below cmp b) E1 -> Forall (above cmp b) E2 ->
  exists s', RtlInsertElementGenericTableFullAvl alloc b (node_of f) (place f) s = Some ((UserDataOf p, true), s') /\
    holds cmp s' (E1 ++ (p, b) :: E2) /\ same_marks s s'.
Proof using Type*.
  intros [Hin Hord Havl Hdep] HE Hb Hf H1 H2. destruct new_node as (Hpos & HpE & Hpr & v & d & Hv & Hd).
  destruct (avl_insert_links _ _ _ f k p v (DepthOfTree (Table s)) Hin Havl Hv) as
    (h1 & h2 & h3 & h4 & h5 & t' & g & M1 & M2 & M3 & M4 & M5 & Ho & A1 & A2 & A3); [|done|].
  { rewrite Hord. set_solver. }
  assert (Hi : inorder t' = (E1 ++ (p, b) :: E2).*1) by (rewrite A2, fmap_app; cbn [fmap list_fmap fst]; by rewrite Hb, Hf).
  assert (Hdep' : (if g then u32 (DepthOfTree (Table s) + 1) else DepthOfTree (Table s)) = height t').
  { rewrite A3, Hdep. destruct g; [|lia]. apply u32_small. rewrite <- Hord in HpE.
    assert (height (plug Leaf (f :: k)) <= 32); [|pose proof (height_nonneg (plug Leaf (f :: k))); lia].
    apply avl_depth; [done|]. rewrite Hord, length_fmap. lia. }
  assert (Hh' : holds cmp (inserted s p b (height t') h5 (Data m)) (E1 ++ (p, b) :: E2)).
  { apply (holds_inserted s E1 E2 p b m (height t') h5 (if g then 0 else -1) t'); try done; rewrite <- ?HE; try done.
    by apply (alloc_keep _ _ _ Ha). }
  exists (inserted s p b (height t') h5 (Data m)). split_and!; [|done|done].
  unfold RtlInsertElementGenericTableFullAvl. rewrite decide_True by (by destruct f).
  refine (eq_trans (run_new_node h1 _ M1) _). rewrite number_succ. unfold set_Number, set_Depth.
  rewrite run_modify. set (s1 := mkState _ _).
  assert (Hc : forall B (q : unit -> TM U B), (match place f with TableInsertAsLeft => on_links (set_LeftChild (node_of f) p)
      | _ => on_links (set_RightChild (node_of f) p) end ≫= q) s1 = q tt (set_links s1 h2)).
  { intros B q. destruct f; apply avl_run_links; exact M2. }
  destruct (place f) eqn:Epl; [by destruct f|by destruct f|..];
    (rewrite avl_run_assoc, Hc, avl_run_assoc, (avl_run_links _ _ tt h3) by exact M3;
     rewrite avl_run_assoc, (avl_run_links _ _ tt h4) by exact M4;
     rewrite avl_run_assoc, (avl_run_links _ _ (height t') h5) by (rewrite <- Hdep'; exact M5); rewrite run_modify;
     by apply (run_new_end b p (linked s (height t') h5 (Data m)) (E1 ++ (p, b) :: E2))).
Qed.
End New.

(** A new element goes between the elements that are less and those that are
    greater. *)
Lemma avl_Insert_new_spec s E b p m : holds cmp s E -> dict_find cmp b E = None ->
  Z.of_nat (length E) < MaxElements -> alloc (Mem s) = (p, m) -> p <> NULL ->
  exists s' E1 E2, RtlInsertElementGenericTableAvl cmp alloc uninit b s = Some ((UserDataOf p, true), s') /\
    E = E1 ++ E2 /\ Forall (below cmp b) E1 /\ Forall (above cmp b) E2 /\
    holds cmp s' (E1 ++ (p, b) :: E2) /\ same_marks s s'.
Proof using Type*.
  intros Hh Hnone Hlen Ha Hp. unfold RtlInsertElementGenericTableAvl.
  destruct (decide (E = [])) as [->|Hne].
  - destruct (Full_empty s [] b p m Hh Hlen Ha Hp uninit eq_refl) as (s' & Hs & Hh' & Hm).
    exists s', [], []. split_and!; try done. by rewrite (avl_run_step _ _ _ _ _ (avl_find_empty cmp s b uninit Hh)).
  - destruct (alloc_keep _ _ _ Ha) as (S1 & S2).
    destruct (rep_tree _ _ _ Hh) as (hb & t & Ht).
    destruct (avl_find_correct cmp s b E uninit hb t Hh Ht Hne) as (r & x & Hf & Hfound).
    rewrite (avl_run_step _ _ _ _ _ Hf).
    destruct Hfound as [E1 n u E2 HE Hu|f k E1 E2 Hpl HE Hb Haf H1 H2].
    + pose proof (rep_sorted _ _ _ Hh) as Hs. rewrite HE in Hs. destruct (equal_rest cmp b E1 n u E2 Hs Hu) as [H1 _].
      by rewrite HE, (proj1 (dict_present cmp b E1 n u E2 0 H1 Hu)) in Hnone.
    + destruct (Full_place s E b p m Hh Hlen Ha Hp f k E1 E2 hb) as (s' & Hs & Hh' & Hm); try done.
      * destruct Ht as [[T1 T2 T3] T4 T5 T6]. rewrite Hpl in *. split; [split; [done..|]|done..].
        intros a v Hin. eapply lookup_weaken; [by apply T3|done].
      * by exists s', E1, E2.
Qed.

Lemma avl_Insert_found_spec s E b n : holds cmp s E -> dict_find cmp b E = Some n ->
  RtlInsertElementGenericTableAvl cmp alloc uninit b s = Some ((UserDataOf n, false), s).
Proof using Type*.
  intros Hh Hfd. destruct (avl_find_cases cmp s b E uninit Hh) as [(E1 & n' & u & E2 & _ & _ & Hd & _ & _ & Hf)|(Hd & _)];
    [|congruence].
  assert (n' = n) as -> by congruence. unfold RtlInsertElementGenericTableAvl. rewrite (avl_run_step _ _ _ _ _ Hf).
  unfold RtlInsertElementGenericTableFullAvl. rewrite decide_False by (intros H; by apply H).
  by rewrite (run_check_fill cmp s E).
Qed.

Lemma avl_Insert_full_spec s E b m : holds cmp s E -> dict_find cmp b E = None -> alloc (Mem s) = (NULL, m) ->
  RtlInsertElementGenericTableAvl cmp alloc uninit b s = Some ((NULL, false), mkState (Table s) m) /\
  holds cmp (mkState (Table s) m) E.
Proof using Type*.
  intros Hh Hnone Ha. destruct (alloc_keep _ _ _ Ha) as (S1 & S2). split; [|by apply holds_weaken].
  destruct (avl_find_cases cmp s b E uninit Hh) as [(E1 & n & u & E2 & _ & _ & Hd & _)|(_ & _ & r & x & Hr & Hf)]; [congruence|].
  unfold RtlInsertElementGenericTableAvl. rewrite (avl_run_step _ _ _ _ _ Hf).
  unfold RtlInsertElementGenericTableFullAvl. rewrite decide_True by done. rewrite avl_run_table, run_assert.
  - by rewrite (avl_run_alloc _ NULL m).
  - rewrite (rep_number _ _ _ Hh). pose proof (rep_bound _ _ _ Hh).
    unfold MAXULONG, MaxElements in *. by rewrite (proj2 (Z.eqb_neq _ _)) by lia.
Qed.

End Insert.

(** ** Deletion *)

Section TreePart.
Context {U : Type}.
Implicit Types (E : list (Z * U)).

Lemma tree_nodup h tab E hb t : tree_part h tab E hb t -> NoDup (BalancedRoot tab :: inorder t) /\ NULL ∉ BalancedRoot tab :: inorder t.
Proof.
  intros [[H1 H2 _] _ _ _]. unfold cells in *. by rewrite !avl_links_keys in H1, H2.
Qed.

(** The position of an element in the tree. *)
Lemma avl_locate h tab E hb t E1 n u E2 : tree_part h tab E hb t -> E = E1 ++ (n, u) :: E2 ->
  exists l b r k, t = plug (Node l n b r) k /\ before k ++ inorder l = E1.*1 /\ inorder r ++ after k = E2.*1.
Proof.
  intros Ht HE. destruct (tree_nodup _ _ _ _ _ Ht) as [Hnd _]. apply NoDup_cons in Hnd as [_ Hnd].
  pose proof (tp_order _ _ _ _ _ Ht) as Hord. rewrite HE, fmap_app in Hord. cbn in Hord.
  destruct (avl_find_path n t) as (l & b & r & k & Hp); [rewrite Hord; set_solver|].
  assert (Heq : E1.*1 ++ n :: E2.*1 = (before k ++ inorder l) ++ n :: inorder r ++ after k).
  { rewrite <- Hord, Hp, avl_inorder_plug. in_order. }
  rewrite Hord in Hnd. destruct (NoDup_split _ _ _ _ _ Hnd Heq) as [-> ->]. by exists l, b, r, k.
Qed.

(** DeleteNodeFromTree on the tree of a table. *)
Lemma delete_links h tab E hb t E1 n u E2 : tree_part h tab E hb t -> height t <= 32 -> E = E1 ++ (n, u) :: E2 ->
  exists h' hb' t', DeleteNodeFromTree (BalancedRoot tab) n (DepthOfTree tab) h = Some (height t', h') /\
    owns (cells (Node Leaf (BalancedRoot tab) hb' t')) h' /\ (n ∉ BalancedRoot tab :: inorder t') /\ avl t' /\ inorder t' = (E1 ++ E2).*1.
Proof.
  intros Ht H32 HE. destruct (avl_locate _ _ _ _ _ _ _ _ _ Ht HE) as (l & b & r & k & Hp & Hb & Ha).
  destruct (tree_nodup _ _ _ _ _ Ht) as [Hnd _]. apply NoDup_cons in Hnd as [_ Hnd].
  pose proof Ht as [Hin _ Havl Hdep]. rewrite Hp in *.
  destruct (DeleteNodeFromTree_correct (BalancedRoot tab) hb (DepthOfTree tab) l n b r k Havl Hnd)
    as (t' & g & j & A1 & A2 & A3 & Htr).
  destruct (Htr h Hin) as (h' & Hm & Ho & _).
  exists h', (if g then -1 else 0), t'. split_and!.
  - rewrite Hm. do 2 f_equal. rewrite Hdep, A3. destruct g; [|lia]. apply u32_small.
    pose proof (height_nonneg t'). lia.
  - by eapply owns_app_l.
  - destruct Ho as [Ho _ _]. rewrite fmap_app in Ho. apply NoDup_app in Ho as (_ & Ho & _).
    intros Hx. apply (Ho n); [|cbn; left]. unfold cells. by rewrite avl_links_keys.
  - done.
  - rewrite A2, fmap_app, <- Hb, <- Ha. in_order.
Qed.

Lemma pred_links h tab E hb t E1 n u E2 : tree_part h tab E hb t -> E = E1 ++ (n, u) :: E2 ->
  RealPredecessor n h = Some (List.last E1.*1 NULL, h).
Proof.
  intros Ht HE. destruct (avl_locate _ _ _ _ _ _ _ _ _ Ht HE) as (l & b & r & k & Hp & Hb & Ha).
  rewrite <- Hb. destruct Ht as [Hin _ _ _]. rewrite Hp in Hin.
  apply (read_triple h (BalancedRoot tab) hb l n b r k Hin), RealPredecessor_cells.
Qed.
Lemma succ_links h tab E hb t E1 n u E2 : tree_part h tab E hb t -> E = E1 ++ (n, u) :: E2 ->
  RealSuccessor n h = Some (hd NULL E2.*1, h).
Proof.
  intros Ht HE. destruct (avl_locate _ _ _ _ _ _ _ _ _ Ht HE) as (l & b & r & k & Hp & Hb & Ha).
  rewrite <- Ha. destruct Ht as [Hin _ _ _]. rewrite Hp in Hin.
  apply (read_triple h (BalancedRoot tab) hb l n b r k Hin), RealSuccessor_head.
Qed.

End TreePart.

Section Delete.
Context {U : Type} (cmp : U -> U -> RTL_GENERIC_COMPARE_RESULTS) `{!CompareOrder cmp}.
Context (dealloc : Z -> mem U -> mem U) `{!Deallocator dealloc}.
Context (uninit : Z).
Implicit Types (s : state U) (E : list (Z * U)).

(** The state after a deletion. *)
Definition deleted (s : state U) (n d restart : Z) (h : heap RTL_BALANCED_LINKS) : state U :=
  mkState (mkTable (BalancedRoot (Table s)) NULL 0 (NumberGenericTableElements (Table s) - 1) d restart
    (u32 (DeleteCount (Table s) + 1))) (dealloc n (mkMem h (Data (Mem s)))).

Lemma holds_deleted s E1 n u E2 restart h hb t : holds cmp s (E1 ++ (n, u) :: E2) ->
  owns (cells (Node Leaf (BalancedRoot (Table s)) hb t)) h -> n ∉ BalancedRoot (Table s) :: inorder t -> avl t ->
  inorder t = (E1 ++ E2).*1 ->
  holds cmp (mkState (Table (deleted s n (height t) restart h)) (mkMem h (Data (Mem s)))) (E1 ++ E2) /\
  holds cmp (deleted s n (height t) restart h) (E1 ++ E2).
Proof using Type*.
  intros Hh Ho Hn Ha Hi.
  assert (Hd : data_part (Data (Mem s)) (E1 ++ E2)).
  { pose proof (rep_data _ _ _ Hh) as Hd. apply Forall_app in Hd as [Hd1 Hd2]. apply Forall_cons in Hd2 as [_ Hd2].
    by apply Forall_app. }
  assert (Hs : sorted cmp (E1 ++ E2)) by (eapply (sorted_remove cmp E1 (n, u)), Hh).
  assert (Hl : length (E1 ++ (n, u) :: E2) = S (length (E1 ++ E2))) by (rewrite !length_app; cbn; lia).
  assert (Hnum : NumberGenericTableElements (Table s) - 1 = Z.of_nat (length (E1 ++ E2))).
  { rewrite (rep_number _ _ _ Hh), Hl. lia. }
  assert (Hb : Z.of_nat (length (E1 ++ E2)) <= MaxElements) by (pose proof (rep_bound _ _ _ Hh); lia).
  split; (split; cbn; [exists hb, t; split; [|done..]| |done..]); [exact Ho|exact Hd| |].
  - destruct Ho as [O1 O2 O3]. split; [done..|]. intros a v Hin. rewrite free_links; [by apply O3|].
    intros ->. apply Hn. change (_ :: inorder t) with (inorder (Node Leaf (BalancedRoot (Table s)) hb t)).
    rewrite <- (avl_links_keys (BalancedRoot (Table s))). apply list_elem_of_fmap. by exists (n, v).
  - apply Forall_forall. intros e He. red in Hd. rewrite Forall_forall in Hd. destruct (Hd e He) as [H1 H2].
    split; [done|]. rewrite free_data; [done|]. unfold UserDataOf. intros Hx. apply Hn. right. rewrite Hi.
    replace n with e.1 by lia. by apply list_elem_of_fmap_2.
Qed.

(** Deleting an element: the rest is kept, a restart key that is deleted moves to
    the element before. *)
Lemma Delete_found_spec s E b n : holds cmp s E -> dict_find cmp b E = Some n ->
  exists s' E1 u E2, RtlDeleteElementGenericTableAvl cmp dealloc uninit b s = Some (true, s') /\
    E = E1 ++ (n, u) :: E2 /\ cmp b u = GenericEqual /\ Forall (below cmp b) E1 /\ Forall (above cmp b) E2 /\
    holds cmp s' (E1 ++ E2) /\
    RestartKey (Table s') = (if n =? RestartKey (Table s) then List.last E1.*1 NULL else RestartKey (Table s)) /\
    DeleteCount (Table s') = u32 (DeleteCount (Table s) + 1) /\
    OrderedPointer (Table s') = NULL /\ WhichOrderedElement (Table s') = 0.
Proof using Type*.
  intros Hh Hfd. destruct (avl_find_cases cmp s b E uninit Hh) as [(E1 & n' & u & E2 & HE & Hu & Hd & H1 & H2 & Hf)|(Hd & _)];
    [|congruence].
  assert (n' = n) as -> by congruence.
  destruct (rep_tree _ _ _ Hh) as (hb & t & Ht). pose proof (holds_depth _ _ _ _ _ Hh Ht) as H32.
  destruct (delete_links _ _ _ _ _ _ _ _ _ Ht ltac:(lia) HE) as (h' & hb' & t' & Hm & Ho & Hn & Ha & Hi).
  set (key := if n =? RestartKey (Table s) then List.last E1.*1 NULL else RestartKey (Table s)).
  rewrite HE in Hh. destruct (holds_deleted s E1 n u E2 key h' hb' t' Hh Ho Hn Ha Hi) as [Hh1 Hh2].
  exists (deleted s n (height t') key h'), E1, u, E2. split_and!; try done.
  unfold RtlDeleteElementGenericTableAvl. rewrite (avl_run_step _ _ _ _ _ Hf), decide_False by (intros H; by apply H).
  rewrite avl_run_table.
  assert (Hkey : forall B (q : unit -> TM U B), ((if n =? RestartKey (Table s)
      then p ← on_links (RealPredecessor n); set_RestartKey p else mret tt) ≫= q) s = (set_RestartKey key ≫= q) s).
  { intros B q. unfold key. destruct (n =? RestartKey (Table s)).
    - rewrite avl_run_assoc. by rewrite (avl_run_links_read _ _ (List.last E1.*1 NULL)) by (by eapply pred_links).
    - unfold mbind, TM_bind, mret, TM_ret, set_RestartKey, modify_table. by destruct s as [[]]. }
  rewrite Hkey. unfold set_RestartKey, set_DeleteCount, set_Depth, set_Number, set_Ordered. rewrite !run_modify.
  rewrite (avl_run_links _ _ (height t') h') by exact Hm. rewrite !run_modify.
  assert (Hnum : 0 <= NumberGenericTableElements (Table s) - 1 < 2 ^ 32).
  { pose proof (rep_bound _ _ _ Hh). rewrite (rep_number _ _ _ Hh), length_app in *. cbn [length] in *.
    unfold MaxElements in *. lia. }
  rewrite (u32_small (NumberGenericTableElements (Table s) - 1)) by lia.
  by erewrite (run_check_fill cmp _ (E1 ++ E2)) by exact Hh1.
Qed.

Lemma Delete_absent_spec s E b : holds cmp s E -> dict_find cmp b E = None ->
  RtlDeleteElementGenericTableAvl cmp dealloc uninit b s = Some (false, s).
Proof using Type*.
  intros Hh Hfd. destruct (avl_find_cases cmp s b E uninit Hh) as [(E1 & n' & u & E2 & _ & _ & Hd & _)|(_ & _ & r & x & Hr & Hf)];
    [congruence|].
  unfold RtlDeleteElementGenericTableAvl. rewrite (avl_run_step _ _ _ _ _ Hf). by rewrite decide_True.
Qed.

Lemma avl_Lookup_spec s E b : holds cmp s E ->
  RtlLookupElementGenericTableAvl cmp uninit b s = Some (ptr (dict_find cmp b E), s).
Proof using CompareOrder0.
  intros Hh. unfold RtlLookupElementGenericTableAvl, RtlLookupElementGenericTableFullAvl.
  destruct (avl_find_cases cmp s b E uninit Hh) as [(E1 & n & u & E2 & _ & _ & Hd & _ & _ & Hf)|(Hd & _ & r & x & Hr & Hf)];
    rewrite Hd, avl_run_assoc, (avl_run_step _ _ _ _ _ Hf).
  - by rewrite decide_False by (intros H; by apply H).
  - by rewrite decide_True.
Qed.
End Delete.

(** ** Enumeration *)

Section Enumeration.
Context {U : Type} (cmp : U -> U -> RTL_GENERIC_COMPARE_RESULTS).
Implicit Types (s : state U) (E : list (Z * U)).

Lemma nonempty_tree h tab E hb t : tree_part h tab E hb t -> E <> [] -> t <> Leaf.
Proof using U. intros [_ Hord _ _] HE ->. cbn in Hord. symmetry in Hord. by apply fmap_nil_inv in Hord. Qed.

(** The ends of the tree, as far as the loops down from the root see them. *)
Lemma ends_links h tab E hb t : tree_part h tab E hb t -> E <> [] ->
  with_fuel (fun fuel => leftmost fuel (root t)) h = Some (hd NULL E.*1, h) /\
  with_fuel (fun fuel => rightmost fuel (root t)) h = Some (List.last E.*1 NULL, h).
Proof using U.
  intros Ht HE. pose proof (nonempty_tree _ _ _ _ _ Ht HE) as Hne. destruct Ht as [Hin Hord _ _]. rewrite <- Hord.
  assert (Hlen : (length (inorder t) <= length (cells (Node Leaf (BalancedRoot tab) hb t)))%nat).
  { unfold cells. rewrite links_length. cbn. lia. }
  destruct (avl_leftmost_correct t Hne) as (e & b & r & ke & He & Hb & Hl).
  destruct (avl_rightmost_correct t Hne) as (e' & b' & l & ke' & He' & Hb' & Hr).
  pose proof (leftmost_hd _ _ _ _ _ He Hb []) as Hhd. rewrite app_nil_r in Hhd.
  pose proof (rightmost_last _ _ _ _ _ He' Hb' []) as Hlast. cbn [app] in Hlast. rewrite Hhd, Hlast.
  split; (apply (triple_read (cells (Node Leaf (BalancedRoot tab) hb t))); [|done]);
    apply (avl_triple_fuel _ _ _ _ (length (inorder t))); [done| |done|]; intros fuel Hf.
  - specialize (Hl [top_frame (BalancedRoot tab) hb] [] fuel ltac:(lia)). by rewrite app_nil_r in Hl.
  - specialize (Hr [top_frame (BalancedRoot tab) hb] [] fuel ltac:(lia)). by rewrite app_nil_r in Hr.
Qed.

Lemma run_ends {B} s E (q : Z -> TM U B) : holds cmp s E -> E <> [] ->
  (first_node ≫= q) s = q (hd NULL E.*1) s /\ (last_node ≫= q) s = q (List.last E.*1 NULL) s.
Proof using Type*.
  intros Hh HE. destruct (rep_tree _ _ _ Hh) as (hb & t & Ht). destruct (ends_links _ _ _ _ _ Ht HE) as [H1 H2].
  pose proof (read_root _ _ _ _ (tp_in _ _ _ _ _ Ht)) as Hr.
  unfold first_node, last_node. rewrite !avl_run_assoc, !avl_run_table, !avl_run_assoc, !(avl_run_links_read _ _ _ _ Hr).
  by rewrite (avl_run_links_read _ _ _ _ H1), (avl_run_links_read _ _ _ _ H2).
Qed.

Lemma avl_node_pos s E n : holds cmp s E -> n ∈ E.*1 -> (n =? NULL) = false /\ (UserDataOf n =? NULL) = false.
Proof using U.
  intros Hh Hn. apply list_elem_of_fmap in Hn as (e & -> & He). pose proof (rep_data _ _ _ Hh) as Hd.
  red in Hd. rewrite Forall_forall in Hd. destruct (Hd e He) as [H _].
  split; apply Z.eqb_neq; unfold UserDataOf, NULL; lia.
Qed.

Lemma run_succ {B} s E E1 n u E2 (q : Z -> TM U B) : holds cmp s E -> E = E1 ++ (n, u) :: E2 ->
  (on_links (RealSuccessor n) ≫= q) s = q (hd NULL E2.*1) s.
Proof using U.
  intros Hh HE. destruct (rep_tree _ _ _ Hh) as (hb & t & Ht). apply avl_run_links_read. by eapply succ_links.
Qed.

Lemma ptr_hd s E E2 : holds cmp s E -> (forall n, n ∈ E2.*1 -> n ∈ E.*1) ->
  (if negb (hd NULL E2.*1 =? NULL) then UserDataOf (hd NULL E2.*1) else NULL) = ptr (head E2.*1) /\
  forall k, (if negb (hd NULL E2.*1 =? NULL) then hd NULL E2.*1 else k) = hd k E2.*1.
Proof using U.
  intros Hh Hin. destruct E2 as [|[n u] E2]; [done|]. cbn. by rewrite (proj1 (avl_node_pos s E n Hh (Hin n ltac:(left)))).
Qed.

Lemma WithoutSplaying_first s E : holds cmp s E ->
  RtlEnumerateGenericTableWithoutSplayingAvl NULL s = Some ((ptr (head E.*1), hd NULL E.*1), s).
Proof using Type*.
  intros Hh. unfold RtlEnumerateGenericTableWithoutSplayingAvl. rewrite (avl_run_empty cmp s E) by done.
  destruct E as [|e E0] eqn:HE; [done|]. rewrite <- HE in *. cbn [Z.eqb NULL]. rewrite avl_run_assoc.
  rewrite (proj1 (run_ends s E _ Hh ltac:(by rewrite HE))), avl_run_ret. unfold mret, TM_ret.
  by rewrite (proj1 (ptr_hd s E E Hh ltac:(done))).
Qed.
Lemma WithoutSplaying_next s E E1 n u E2 : holds cmp s E -> E = E1 ++ (n, u) :: E2 ->
  RtlEnumerateGenericTableWithoutSplayingAvl n s = Some ((ptr (head E2.*1), hd n E2.*1), s).
Proof using Type*.
  intros Hh HE. unfold RtlEnumerateGenericTableWithoutSplayingAvl. rewrite (avl_run_empty cmp s E) by done.
  assert (n ∈ E.*1) as Hn by (rewrite HE, fmap_app; cbn; set_solver).
  assert (match E with [] => true | _ => false end = false) as -> by (rewrite HE; by destruct E1).
  rewrite (proj1 (avl_node_pos s E n Hh Hn)), avl_run_assoc, (run_succ s E E1 n u E2), avl_run_ret by done. unfold mret, TM_ret.
  destruct (ptr_hd s E E2 Hh) as [-> ->]; [rewrite HE, fmap_app; cbn; set_solver|done].
Qed.

Lemma last_key_snoc (l : list (Z * U)) n u : List.last (l ++ [(n, u)]).*1 NULL = n.
Proof using U. rewrite fmap_app. apply last_last. Qed.

(** The restart key of the table: one step of the enumeration. *)
Lemma Enumerate_spec s done todo : represents cmp s done todo ->
  exists s', RtlEnumerateGenericTableAvl false s = Some (ptr (head todo.*1), s') /\
    represents cmp s' (done ++ take 1 todo) (drop 1 todo).
Proof using Type*.
  intros [Hh Hk]. set (key := match todo with [] => RestartKey (Table s) | e :: _ => fst e end).
  set (s' := mkState (mkTable (BalancedRoot (Table s)) (OrderedPointer (Table s)) (WhichOrderedElement (Table s))
    (NumberGenericTableElements (Table s)) (DepthOfTree (Table s)) key (DeleteCount (Table s))) (Mem s)).
  assert (Hstep : RtlEnumerateGenericTableWithoutSplayingAvl (RestartKey (Table s)) s = Some ((ptr (head todo.*1), key), s)).
  { rewrite Hk. destruct done as [|[n u] done0 _] using rev_ind.
    - cbn [fmap list_fmap List.last]. rewrite (WithoutSplaying_first s todo Hh). unfold key. destruct todo; cbn; [|done]. by rewrite Hk.
    - rewrite last_key_snoc. rewrite (WithoutSplaying_next s _ done0 n u todo Hh) by (by rewrite <- app_assoc).
      unfold key. rewrite Hk, last_key_snoc. by destruct todo. }
  exists s'. split.
  - unfold RtlEnumerateGenericTableAvl. rewrite avl_run_ret, avl_run_table, (avl_run_step _ _ _ _ _ Hstep). done.
  - split; [|].
    + rewrite <- app_assoc, take_drop. destruct Hh as [(hb & t & [T1 T2 T3 T4]) H2 H3 H4 H5].
      split; [|done..]. exists hb, t. by split.
    + cbn. unfold key. destruct todo as [|[n u] todo]; cbn; [by rewrite app_nil_r|]. by rewrite last_key_snoc.
Qed.
End Enumeration.

(** ** The i-th element *)

Section Element.
Context {U : Type} (cmp : U -> U -> RTL_GENERIC_COMPARE_RESULTS).
Implicit Types (s : state U) (E : list (Z * U)).

Lemma node_split E i n : E.*1 !! i = Some n -> exists E1 u E2, E = E1 ++ (n, u) :: E2 /\ length E1 = i.
Proof using U.
  intros Hi. rewrite list_lookup_fmap in Hi. destruct (E !! i) as [[n' u]|] eqn:He; [|done]. cbn in Hi. simplify_eq.
  exists (take i E), u, (drop (S i) E). split; [by rewrite take_drop_middle|].
  rewrite length_take. apply lookup_lt_Some in He. lia.
Qed.

Section Walk.
Context (h : heap RTL_BALANCED_LINKS) (tab : RTL_AVL_TABLE) (E : list (Z * U)) (hb : Z) (t : tree).
Hypothesis Ht : tree_part h tab E hb t.

Lemma walk_forward_spec n : forall i a b, E.*1 !! i = Some a -> E.*1 !! (i + n)%nat = Some b ->
  walk_forward n a h = Some (b, h).
Proof using Ht.
  induction n as [|n IH]; intros i a b Ha Hb; cbn [walk_forward].
  - rewrite Nat.add_0_r in Hb. by simplify_eq.
  - destruct (node_split E i a Ha) as (E1 & u & E2 & HE & Hlen). unfold mbind, M_bind.
    rewrite (succ_links _ _ _ _ _ _ _ _ _ Ht HE). apply (IH (S i)); [|by rewrite <- Nat.add_succ_comm in Hb].
    assert (is_Some (E.*1 !! S i)) as [c Hc] by (apply lookup_lt_is_Some; apply lookup_lt_Some in Hb; lia).
    rewrite Hc. rewrite HE, fmap_app in Hc. cbn in Hc. rewrite lookup_app_r in Hc by (rewrite length_fmap; lia).
    rewrite length_fmap, Hlen in Hc. replace (S i - i)%nat with 1%nat in Hc by lia. cbn in Hc.
    by destruct E2 as [|[m v] E2]; cbn in *; simplify_eq.
Qed.

Lemma walk_backward_spec n : forall i a b, E.*1 !! (i + n)%nat = Some a -> E.*1 !! i = Some b ->
  walk_backward n a h = Some (b, h).
Proof using Ht.
  induction n as [|n IH]; intros i a b Ha Hb; cbn [walk_backward].
  - rewrite Nat.add_0_r in Ha. by simplify_eq.
  - destruct (node_split E _ a Ha) as (E1 & u & E2 & HE & Hlen). unfold mbind, M_bind.
    rewrite (pred_links _ _ _ _ _ _ _ _ _ Ht HE). apply (IH i); [|done].
    destruct E1 as [|[m v] E1 _] using rev_ind; [cbn in Hlen; lia|]. rewrite last_key_snoc.
    rewrite length_app in Hlen. cbn in Hlen. rewrite HE, <- app_assoc, fmap_app.
    rewrite lookup_app_r by (rewrite length_fmap; lia). rewrite length_fmap.
    by replace (i + n - length E1)%nat with 0%nat by lia.
Qed.
End Walk.

(** OrderedPointer is the element WhichOrderedElement says, or NULL. *)
Definition ordered_ok (s : state U) (E : list (Z * U)) : Prop := OrderedPointer (Table s) = NULL \/
  0 <= WhichOrderedElement (Table s) /\ E.*1 !! Z.to_nat (WhichOrderedElement (Table s)) = Some (OrderedPointer (Table s)).

Lemma hd_lookup (E : list (Z * U)) : E <> [] -> E.*1 !! 0%nat = Some (hd NULL E.*1).
Proof using U. by destruct E. Qed.
Lemma last_lookup (E : list (Z * U)) : E <> [] -> E.*1 !! (length E - 1)%nat = Some (List.last E.*1 NULL).
Proof using U.
  intros HE. destruct E as [|[n u] E _] using rev_ind; [done|]. rewrite last_key_snoc, fmap_app, length_app. cbn.
  rewrite lookup_app_r by (rewrite length_fmap; lia). rewrite length_fmap.
  by replace (length E + 1 - 1 - length E)%nat with 0%nat by lia.
Qed.

Lemma run_walk_to {B} s E c loc Idx n (q : Z -> TM U B) : holds cmp s E -> 0 <= loc ->
  E.*1 !! Z.to_nat loc = Some c -> 0 <= Idx -> E.*1 !! Z.to_nat Idx = Some n ->
  (walk_to c loc (Z.of_nat (length E)) Idx ≫= q) s = q n s.
Proof using Type*.
  intros Hh Hl0 Hc Hi0 Hn. destruct (rep_tree _ _ _ Hh) as (hb & t & Ht).
  pose proof (lookup_lt_Some _ _ _ Hc) as Lc. pose proof (lookup_lt_Some _ _ _ Hn) as Ln. rewrite length_fmap in Lc, Ln.
  pose proof (rep_bound _ _ _ Hh) as Hbound. unfold MaxElements in Hbound.
  assert (HE : E <> []) by (intros ->; cbn in Ln; lia).
  unfold walk_to. destruct (Z.gtb_spec loc Idx) as [Hgt|Hle].
  - rewrite u32_small by lia. destruct (Idx >=? loc / 2).
    + rewrite (avl_run_links_read _ _ n); [done|].
      apply (walk_backward_spec _ _ _ _ _ Ht _ (Z.to_nat Idx)); [|done].
      by replace (Z.to_nat Idx + Z.to_nat (loc - Idx))%nat with (Z.to_nat loc) by lia.
    + rewrite avl_run_assoc, (proj1 (run_ends cmp s E _ Hh HE)). rewrite (avl_run_links_read _ _ n); [done|].
      apply (walk_forward_spec _ _ _ _ _ Ht _ 0); [by apply hd_lookup|done].
  - rewrite (u32_small (Idx - loc)), (u32_small (Idx + 1)), (u32_small (Z.of_nat (length E) - (Idx + 1))) by lia.
    destruct (Idx - loc <=? _).
    + rewrite (avl_run_links_read _ _ n); [done|].
      apply (walk_forward_spec _ _ _ _ _ Ht _ (Z.to_nat loc)); [done|].
      by replace (Z.to_nat loc + Z.to_nat (Idx - loc))%nat with (Z.to_nat Idx) by lia.
    + rewrite avl_run_assoc, (proj2 (run_ends cmp s E _ Hh HE)). rewrite (avl_run_links_read _ _ n); [done|].
      apply (walk_backward_spec _ _ _ _ _ Ht _ (Z.to_nat Idx)); [|done].
      replace (Z.to_nat Idx + Z.to_nat (Z.of_nat (length E) - (Idx + 1)))%nat with (length E - 1)%nat by lia.
      by apply last_lookup.
Qed.

(** The walk starts over from the first element, with a counter that it loses. *)
Definition starts_over (s : state U) (Idx : Z) : Prop := OrderedPointer (Table s) <> NULL /\
  0 < Idx /\ Idx < WhichOrderedElement (Table s) / 2.

Definition move_ordered (s : state U) (p w : Z) : state U :=
  mkState (mkTable (BalancedRoot (Table s)) p w (NumberGenericTableElements (Table s)) (DepthOfTree (Table s))
    (RestartKey (Table s)) (DeleteCount (Table s))) (Mem s).
Lemma holds_ordered s E p w : holds cmp s E -> holds cmp (move_ordered s p w) E.
Proof using U. intros [(hb & t & [T1 T2 T3 T4]) H2 H3 H4 H5]. split; [|done..]. exists hb, t. by split. Qed.

Lemma avl_Get_spec s E Idx : holds cmp s E -> ordered_ok s E -> 0 <= Idx <= MAXULONG ->
  exists p w, RtlGetElementGenericTableAvl Idx s = Some (ptr (E.*1 !! Z.to_nat Idx), move_ordered s p w) /\
    (~ starts_over s Idx -> ordered_ok (move_ordered s p w) E).
Proof using Type*.
  intros Hh Hok HI. pose proof (rep_bound _ _ _ Hh) as Hbound. unfold MaxElements, MAXULONG in *.
  assert (Hid : s = move_ordered s (OrderedPointer (Table s)) (WhichOrderedElement (Table s))) by (by destruct s as [[]]).
  unfold RtlGetElementGenericTableAvl. rewrite avl_run_table, (rep_number _ _ _ Hh).
  destruct (E.*1 !! Z.to_nat Idx) as [n|] eqn:Hn; cycle 1.
  { apply lookup_ge_None in Hn. rewrite length_fmap in Hn.
    assert ((Idx =? MAXULONG) || (u32 (Idx + 1) >? Z.of_nat (length E)) = true) as ->.
    { unfold MAXULONG. destruct (Z.eqb_spec Idx 4294967295); [done|]. rewrite u32_small by lia. cbn. apply Z.gtb_lt. lia. }
    exists (OrderedPointer (Table s)), (WhichOrderedElement (Table s)). by rewrite <- Hid. }
  pose proof (lookup_lt_Some _ _ _ Hn) as Ln. rewrite length_fmap in Ln.
  assert ((Idx =? MAXULONG) || (u32 (Idx + 1) >? Z.of_nat (length E)) = false) as ->.
  { unfold MAXULONG. rewrite (proj2 (Z.eqb_neq _ _)) by lia. rewrite u32_small by lia. cbn. rewrite Z.gtb_ltb. apply Z.ltb_ge. lia. }
  assert (HE : E <> []) by (intros ->; cbn in Ln; lia).
  assert (exists c loc s0, s0 = move_ordered s c loc /\ 0 <= loc /\ E.*1 !! Z.to_nat loc = Some c /\
    (~ starts_over s Idx -> ~ (loc > Idx /\ 0 < Idx < loc / 2)) /\
    forall B (q : Z * Z -> TM U B), ((if OrderedPointer (Table s) =? NULL then
      CurrentNode ← first_node; set_Ordered CurrentNode 0;; mret (CurrentNode, 0)
      else mret (OrderedPointer (Table s), WhichOrderedElement (Table s))) ≫= q) s = q (c, loc) s0)
    as (c & loc & s0 & -> & Hl0 & Hc & Hst & Hrun).
  { destruct (Z.eqb_spec (OrderedPointer (Table s)) NULL) as [Hz|Hz].
    - exists (hd NULL E.*1), 0, (move_ordered s (hd NULL E.*1) 0). split_and!; [done|done|by apply hd_lookup|lia|].
      intros B q. by rewrite avl_run_assoc, (proj1 (run_ends cmp s E _ Hh HE)).
    - destruct Hok as [Hok|[Hok1 Hok2]]; [done|].
      exists (OrderedPointer (Table s)), (WhichOrderedElement (Table s)), s. split_and!; [done..| |done].
      intros Hs [H1 H2]. apply Hs. by split. }
  rewrite Hrun. destruct (Z.eqb_spec Idx loc) as [->|Hne].
  - exists c, loc. assert (n = c) as -> by congruence. split; [done|]. intros _. right. by split.
  - exists n, (location_saved loc Idx). split.
    + by rewrite (run_walk_to (move_ordered s c loc) E c loc Idx n) by (try done; try lia; by apply holds_ordered).
    + intros Hs. right. cbn. unfold location_saved.
      destruct (Z.gtb_spec loc Idx), (Z.geb_spec Idx (loc / 2)); cbn [andb negb]; try (by split; [lia|]).
      destruct (Z.eq_dec Idx 0) as [->|]; [done|]. exfalso. apply (Hst Hs). lia.
Qed.
End Element.

(** ** Enumeration like a directory *)

Section Directory.
Context {U : Type} (cmp : U -> U -> RTL_GENERIC_COMPARE_RESULTS) `{!CompareOrder cmp}.
Context (uninit : Z).
Implicit Types (s : state U) (E : list (Z * U)).

(** The elements after a key, the key itself included unless [strict]. *)
Definition rest_from (strict : bool) (b : U) (E : list (Z * U)) : list (Z * U) :=
  List.filter (fun e => match cmp b (snd e) with
    | GenericLessThan => true | GenericEqual => negb strict | GenericGreaterThan => false end) E.
(** The first element the match function does not pass over. *)
Fixpoint first_match (mf : U -> Z) (E : list (Z * U)) : option (Z * U) :=
  match E with
  | [] => None
  | e :: E => if mf (snd e) =? STATUS_NO_MATCH then first_match mf E else Some e
  end.

Lemma rest_below strict b E : Forall (below cmp b) E -> rest_from strict b E = [].
Proof using U. unfold rest_from. induction 1 as [|e E He _ IH]; [done|]. cbn. red in He. by rewrite He. Qed.
Lemma rest_above strict b E : Forall (above cmp b) E -> rest_from strict b E = E.
Proof using U. unfold rest_from. induction 1 as [|e E He _ IH]; [done|]. cbn. red in He. by rewrite He, IH. Qed.
Lemma rest_absent strict b E1 E2 : Forall (below cmp b) E1 -> Forall (above cmp b) E2 ->
  rest_from strict b (E1 ++ E2) = E2.
Proof using U.
  intros H1 H2. unfold rest_from. rewrite List.filter_app. fold (rest_from strict b E1) (rest_from strict b E2).
  by rewrite rest_below, rest_above.
Qed.
Lemma rest_present strict b E1 n u E2 : Forall (below cmp b) E1 -> cmp b u = GenericEqual -> Forall (above cmp b) E2 ->
  rest_from strict b (E1 ++ (n, u) :: E2) = if strict then E2 else (n, u) :: E2.
Proof using U.
  intros H1 Hu H2. unfold rest_from. rewrite List.filter_app. cbn [List.filter snd]. rewrite Hu.
  fold (rest_from strict b E1) (rest_from strict b E2). rewrite rest_below, rest_above by done. by destruct strict.
Qed.

Lemma match_loop_spec s E mf Er : holds cmp s E -> forall Ed fuel, E = Ed ++ Er -> (length Er < fuel)%nat ->
  match_loop uninit fuel mf (hd NULL Er.*1) s =
    Some (match first_match mf Er with Some (n, u) => (n, mf u) | None => (NULL, uninit) end, s).
Proof using Type*.
  intros Hh. induction Er as [|[n u] Er IH]; intros Ed [|fuel] HE Hf; cbn in Hf; try lia; cbn [match_loop].
  - done.
  - cbn [hd fmap list_fmap fst first_match snd].
    assert (Hn : n ∈ E.*1) by (rewrite HE, fmap_app; cbn; set_solver).
    destruct (avl_node_pos cmp s E n Hh Hn) as [-> Hud]. apply Z.eqb_neq in Hud.
    assert (Hdat : Data (Mem s) !! UserDataOf n = Some u).
    { pose proof (rep_data _ _ _ Hh) as Hd. red in Hd. rewrite HE, Forall_app, Forall_cons in Hd. apply Hd. }
    rewrite (avl_run_data_read _ _ u) by done. destruct (mf u =? STATUS_NO_MATCH); [|done].
    rewrite (run_succ cmp s E Ed n u Er) by done.
    apply (IH (Ed ++ [(n, u)])); [by rewrite <- app_assoc|lia].
Qed.

(** The position by the key. *)
Lemma position_spec s E b (next : bool) : holds cmp s E -> E <> [] ->
  exists x (next' : bool), position cmp b next s = Some ((x, next'), s) /\
    (if next' then exists E1 u E2, E = E1 ++ (x, u) :: E2 /\ rest_from next b E = E2
     else exists Ed, x = hd NULL (rest_from next b E).*1 /\ E = Ed ++ rest_from next b E).
Proof using Type*.
  intros Hh HE0. destruct (rep_tree _ _ _ Hh) as (hb & t & Ht).
  destruct (avl_find_correct cmp s b E NULL hb t Hh Ht HE0) as (r & x & Hf & Hfound).
  unfold position. rewrite (avl_run_step _ _ _ _ _ Hf).
  destruct Hfound as [E1 n u E2 HE Hu|f k E1 E2 Hpl HE Hb Ha H1 H2].
  - rewrite decide_False by (intros H; by apply H). exists n, next. split; [done|].
    pose proof (rep_sorted _ _ _ Hh) as Hs. rewrite HE in Hs. destruct (equal_rest cmp b E1 n u E2 Hs Hu) as [H1 H2].
    rewrite HE, (rest_present next b E1 n u E2) by done. destruct next; [by exists E1, u, E2|by exists E1].
  - rewrite decide_True by (by destruct f). exists (hd NULL E2.*1), false.
    split; [|rewrite HE, (rest_absent next b E1 E2) by done; by exists E1].
    destruct f as [a c r|l a c]; cbn [place node_of before after] in *.
    + rewrite decide_False by done. by rewrite Ha.
    + rewrite decide_True by done. destruct E1 as [|[n u] E1 _] using rev_ind.
      { cbn in Hb. by destruct (before k), (inorder l). }
      rewrite fmap_app in Hb. cbn in Hb. rewrite app_assoc in Hb. apply app_inj_tail in Hb as [_ <-].
      by rewrite (run_succ cmp s E E1 n u E2) by (try done; by rewrite HE, <- app_assoc).
Qed.

(** What the routine returns when [Er] are the elements from its position on:
    the pointer, *RestartKey and *DeleteCount. *)
Definition directory_answer (mf : U -> Z) (Er : list (Z * U)) (key count now : Z) : Z * Z * Z :=
  match first_match mf Er with
  | Some (n, u) => (if mf u =? STATUS_SUCCESS then UserDataOf n else NULL, n, now)
  | None => (NULL, key, count)
  end.

Definition valid_match (mf : U -> Z) : Prop :=
  forall u, mf u = STATUS_SUCCESS \/ mf u = STATUS_NO_MATCH \/ mf u = STATUS_NO_MORE_MATCHES.

Lemma first_match_status mf Er n u : valid_match mf -> first_match mf Er = Some (n, u) ->
  (mf u =? STATUS_SUCCESS) || (mf u =? STATUS_NO_MORE_MATCHES) = true.
Proof using U.
  intros Hv. induction Er as [|[m v] Er IH]; [done|]. cbn. destruct (Z.eqb_spec (mf v) STATUS_NO_MATCH) as [|Hne]; [done|].
  intros [= -> ->]. by destruct (Hv u) as [->|[Hx| ->]].
Qed.
Lemma first_match_in mf Er n u : first_match mf Er = Some (n, u) -> n ∈ Er.*1.
Proof using U.
  induction Er as [|[m v] Er IH]; [done|]. cbn. destruct (mf v =? STATUS_NO_MATCH).
  - intros H. right. by apply IH.
  - intros [= -> ->]. left.
Qed.

(** From the position on: the match loop and the results. *)
Lemma run_matches s E mf Ed Er key count : holds cmp s E -> E = Ed ++ Er -> valid_match mf ->
  ('(NodeOrParent, Status) ← with_nodes (fun fuel => match_loop uninit fuel mf (hd NULL Er.*1));
   if negb (NodeOrParent =? NULL) then
     tassert ((Status =? STATUS_SUCCESS) || (Status =? STATUS_NO_MORE_MATCHES));;
     mret (if Status =? STATUS_SUCCESS then UserDataOf NodeOrParent else NULL, NodeOrParent, DeleteCount (Table s))
   else mret (NULL, key, count)) s =
  Some (directory_answer mf Er key count (DeleteCount (Table s)), s).
Proof using Type*.
  intros Hh HE Hv.
  assert (Hm : with_nodes (fun fuel => match_loop uninit fuel mf (hd NULL Er.*1)) s =
    Some (match first_match mf Er with Some (n, u) => (n, mf u) | None => (NULL, uninit) end, s)).
  { apply (match_loop_spec s E mf Er Hh Ed); [done|]. destruct (rep_tree _ _ _ Hh) as (hb & t & Ht).
    pose proof (owns_length _ _ (tp_in _ _ _ _ _ Ht)) as Hlen. unfold cells in Hlen. rewrite links_length in Hlen.
    cbn in Hlen. rewrite (tree_size _ _ _ _ _ Ht), HE, length_app in Hlen. lia. }
  rewrite (avl_run_step _ _ _ _ _ Hm). unfold directory_answer. destruct (first_match mf Er) as [[n u]|] eqn:Ef; [|done].
  assert (Hn : n ∈ E.*1).
  { rewrite HE, fmap_app, elem_of_app. right. by eapply first_match_in. }
  rewrite (proj1 (avl_node_pos cmp s E n Hh Hn)). cbn [negb].
  by rewrite run_assert by (by eapply first_match_status).
Qed.

(** The key of the buffer is the one the restart key points to, if that is used. *)
Definition resumes (s : state U) (E : list (Z * U)) (key count : Z) (b : U) : Prop :=
  key <> NULL -> count = DeleteCount (Table s) -> exists u, (key, u) ∈ E /\ cmp b u = GenericEqual.

Lemma Directory_spec s E mf next key count b : holds cmp s E -> E <> [] -> valid_match (default MatchAll mf) ->
  resumes s E key count b ->
  RtlEnumerateGenericTableLikeADirectory cmp uninit mf next key count b s =
    Some (directory_answer (default MatchAll mf) (rest_from next b E) key count (DeleteCount (Table s)), s).
Proof using Type*.
  intros Hh HE Hv Hres. unfold RtlEnumerateGenericTableLikeADirectory. rewrite (avl_run_empty cmp s E) by done.
  destruct E as [|e0 E0] eqn:EE; [done|]. rewrite <- EE in *. clear EE e0 E0. rewrite avl_run_table.
  assert (Hend : forall Ed Er, E = Ed ++ Er -> Er = rest_from next b E -> forall x (nx : bool),
    (if nx then exists E1 u, E = E1 ++ (x, u) :: Er else x = hd NULL Er.*1) ->
    (NodeOrParent ← (if nx then tassert (negb (x =? NULL));; on_links (RealSuccessor x) else mret x);
     '(NodeOrParent, Status) ← with_nodes (fun fuel => match_loop uninit fuel (default MatchAll mf) NodeOrParent);
     if negb (NodeOrParent =? NULL) then
       tassert ((Status =? STATUS_SUCCESS) || (Status =? STATUS_NO_MORE_MATCHES));;
       mret (if Status =? STATUS_SUCCESS then UserDataOf NodeOrParent else NULL, NodeOrParent, DeleteCount (Table s))
     else mret (NULL, key, count)) s =
    Some (directory_answer (default MatchAll mf) (rest_from next b E) key count (DeleteCount (Table s)), s)).
  { intros Ed Er HEd Hr x nx Hx. rewrite <- Hr. destruct nx.
    - destruct Hx as (E1 & u & Hx). assert (Hxn : x ∈ E.*1) by (rewrite Hx, fmap_app; cbn; set_solver).
      rewrite avl_run_assoc, run_assert by (by rewrite (proj1 (avl_node_pos cmp s E x Hh Hxn))).
      rewrite (run_succ cmp s E E1 x u Er) by done. by apply (run_matches s E _ Ed).
    - rewrite avl_run_ret, Hx. by apply (run_matches s E _ Ed). }
  set (node := if negb (count =? DeleteCount (Table s)) then NULL else key).
  destruct (Z.eqb_spec node NULL) as [_|Hnode].
  - destruct (position_spec s E b next Hh HE) as (x & nx & Hp & Hx). rewrite (avl_run_step _ _ _ _ _ Hp). destruct nx.
    + destruct Hx as (E1 & u & E2 & HE2 & Hr). apply (Hend (E1 ++ [(x, u)]) E2) with (nx := true); [by rewrite <- app_assoc|done|by exists E1, u].
    + destruct Hx as (Ed & Hx & HEd). by apply (Hend Ed (rest_from next b E)) with (nx := false).
  - unfold node in *. destruct (Z.eqb_spec count (DeleteCount (Table s))) as [Hc|]; [|done]. cbn [negb] in *.
    destruct (Hres Hnode Hc) as (u & Hin & Hu). apply list_elem_of_split in Hin as (E1 & E2 & HE2).
    pose proof (rep_sorted _ _ _ Hh) as Hs. rewrite HE2 in Hs. destruct (equal_rest cmp b E1 key u E2 Hs Hu) as [H1 H2].
    pose proof (rest_present next b E1 key u E2 H1 Hu H2) as Hr. rewrite <- HE2 in Hr. rewrite avl_run_ret. destruct next.
    + apply (Hend (E1 ++ [(key, u)]) E2) with (nx := true); [by rewrite <- app_assoc|done|by exists E1, u].
    + by apply (Hend E1 ((key, u) :: E2)) with (nx := false).
Qed.
End Directory.

End AvlTableOps.
