(* ===== verification/RtlAvlTableSpec.v ===== *)
(** * Generic tables on balanced trees: refinement and enumeration

    The theorems on the tables of [RtlAvlTable]: any sequence of requests gets the
    answers of the dictionary that the enumeration cuts in two; an element that is
    neither inserted nor deleted on the way is enumerated exactly once; the
    routines that find an element by its index and enumerate like a directory; and
    where the code departs from its description. *)

From Stdlib Require Import Sorted.
From S2P Require Import Prelude RtlHeap RtlGenTable RtlGenTableOps RtlAvl RtlAvlTree RtlAvlTable RtlAvlTableOps.
From stdpp Require Import gmap list_tactics sets.
#[local] Open Scope Z_scope.

Module AvlTableSpec.
Import Avl AvlTree.
Import GenTable(RTL_GENERIC_COMPARE_RESULTS(..), TABLE_SEARCH_RESULT(..), MAXULONG,
  CompareOrder, cmp_opp, cmp_trans, cmp_eq, dict_find, dict_insert, dict_delete, above, below,
  dict_absent, dict_present, sorted, sorted_cut, above_rest, below_rest, equal_rest).
Import GenTableOps(int_compare, int_compare_order).
Import AvlTable AvlTableOps.

(** ** Requests *)

Inductive request (U : Type) :=
  AskInsert (b : U) | AskDelete (b : U) | AskLookup (b : U) | AskEnumerate (Restart : bool) | AskNumber | AskEmpty.
Arguments AskInsert {U}. Arguments AskDelete {U}. Arguments AskLookup {U}. Arguments AskEnumerate {U}.
Arguments AskNumber {U}. Arguments AskEmpty {U}.
Inductive answer := Pointer (p : Z) | NewPointer (p : Z) (NewElement : bool) | Boolean (b : bool) | Number (n : Z).

Section Cut.
Context {U : Type} (cmp : U -> U -> RTL_GENERIC_COMPARE_RESULTS).
Implicit Types (E done todo : list (Z * U)).

(** The dictionary, cut in two by the enumeration: what it has passed, what is to
    come.  A new element is to come unless it belongs before the last one passed. *)
Definition cut : Type := list (Z * U) * list (Z * U).
Definition cut_insert (p : Z) (b : U) (c : cut) : cut :=
  match last (fst c) with
  | Some (_, u) => match cmp b u with
      | GenericLessThan => (dict_insert cmp p b (fst c), snd c)
      | _ => (fst c, dict_insert cmp p b (snd c)) end
  | None => (fst c, dict_insert cmp p b (snd c))
  end.
Definition cut_restart (r : bool) (c : cut) : cut := if r then ([], fst c ++ snd c) else c.

Lemma last_key E : List.last E.*1 NULL = match last E with Some e => fst e | None => NULL end.
Proof. destruct E as [|[n u] E _] using rev_ind; [done|]. by rewrite last_key_snoc, last_snoc. Qed.

(** Where a new element goes. *)
Lemma cut_insert_spec done todo E1 E2 p b : done ++ todo = E1 ++ E2 -> Forall (below cmp b) E1 -> Forall (above cmp b) E2 ->
  let c := cut_insert p b (done, todo) in
  fst c ++ snd c = E1 ++ (p, b) :: E2 /\ List.last (fst c).*1 NULL = List.last done.*1 NULL.
Proof.
  intros He H1 H2. unfold cut_insert. cbn [fst snd].
  assert (Hlater : forall x, E1 = done ++ x -> todo = x ++ E2 ->
    (forall n u, last done = Some (n, u) -> cmp b u = GenericGreaterThan) /\ done ++ dict_insert cmp p b todo = E1 ++ (p, b) :: E2).
  { intros x -> ->. apply Forall_app in H1 as [H1 Hx]. split.
    - intros n u Hl. rewrite Forall_forall in H1. apply (H1 (n, u)). by apply last_Some_elem_of.
    - rewrite (proj1 (proj2 (dict_absent cmp b x E2 p Hx H2))). by rewrite app_assoc. }
  apply app_eq_inv in He as [(x & -> & ->)|(x & -> & ->)].
  - destruct x as [|e x _] using rev_ind.
    + destruct (Hlater []) as [Hg Hd]; [by rewrite !app_nil_r|done|]. rewrite app_nil_r in *.
      destruct (last E1) as [[n u]|] eqn:El; [rewrite (Hg n u) by done|]; done.
    + rewrite app_assoc, last_snoc. destruct e as [n u].
      assert (cmp b u = GenericLessThan) as ->.
      { rewrite Forall_app, Forall_app, Forall_singleton in H2. apply H2. }
      rewrite <- app_assoc. rewrite <- app_assoc in H2. apply Forall_app in H2 as [Hx H2].
      apply Forall_app in H2 as [Hn _]. cbn [fst snd].
      rewrite (proj1 (proj2 (dict_absent cmp b E1 (x ++ [(n, u)]) p H1 ltac:(by apply Forall_app)))).
      split; [in_order|].
      replace (E1 ++ (p, b) :: x ++ [(n, u)]) with ((E1 ++ (p, b) :: x) ++ [(n, u)]) by in_order.
      by rewrite (app_assoc E1 x), !last_key_snoc.
  - destruct (Hlater x eq_refl eq_refl) as [Hg Hd].
    destruct (last done) as [[n u]|] eqn:El; [rewrite (Hg n u) by done|]; done.
Qed.

Lemma delete_below b E : Forall (below cmp b) E -> dict_delete cmp b E = E.
Proof.
  intros H. pose proof (dict_absent cmp b E [] 0 H ltac:(constructor)) as (_ & _ & H3). by rewrite app_nil_r in H3.
Qed.
Lemma delete_above b E : Forall (above cmp b) E -> dict_delete cmp b E = E.
Proof. intros H. by destruct (dict_absent cmp b [] E 0 ltac:(constructor) H) as (_ & _ & H3). Qed.

(** The last key passed is an element, or NULL. *)
Lemma last_key_in E : List.last E.*1 NULL = NULL \/ List.last E.*1 NULL ∈ E.*1.
Proof. destruct E as [|[n u] E _] using rev_ind; [by left|]. right. rewrite last_key_snoc, fmap_app. set_solver. Qed.

Lemma cut_delete_spec done todo E1 n u E2 b : done ++ todo = E1 ++ (n, u) :: E2 -> cmp b u = GenericEqual ->
  Forall (below cmp b) E1 -> Forall (above cmp b) E2 -> n <> NULL -> n ∉ (E1 ++ E2).*1 ->
  dict_delete cmp b done ++ dict_delete cmp b todo = E1 ++ E2 /\
  List.last (dict_delete cmp b done).*1 NULL =
    if n =? List.last done.*1 NULL then List.last E1.*1 NULL else List.last done.*1 NULL.
Proof.
  intros He Hu H1 H2 Hn0 Hn.
  assert (Hlast : forall E, (forall m, m ∈ E.*1 -> m ∈ (E1 ++ E2).*1) -> (n =? List.last E.*1 NULL) = false).
  { intros E HE. apply Z.eqb_neq. intros ->. destruct (last_key_in E) as [|Hin]; [done|]. by apply Hn, HE. }
  assert (Hlater : forall x, E1 = done ++ x -> todo = x ++ (n, u) :: E2 ->
    dict_delete cmp b done = done /\ dict_delete cmp b todo = x ++ E2 /\ (n =? List.last done.*1 NULL) = false).
  { intros x -> ->. apply Forall_app in H1 as [H1 Hx]. split_and!; [by apply delete_below| |].
    - apply (dict_present cmp b x n u E2 0 Hx Hu).
    - apply Hlast. intros m. rewrite !fmap_app. set_solver. }
  apply app_eq_inv in He as [(x & -> & Ht)|(x & -> & ->)].
  - destruct x as [|e x]; cbn in Ht.
    + destruct (Hlater [] ltac:(by rewrite !app_nil_r) ltac:(done)) as (-> & -> & ->). by rewrite app_nil_r.
    + injection Ht as <- ->. apply Forall_app in H2 as [Hx H2].
      rewrite (proj2 (proj2 (dict_present cmp b E1 n u x 0 H1 Hu))), delete_above by done.
      split; [by rewrite app_assoc|]. destruct x as [|[m v] x _] using rev_ind.
      * by rewrite last_key_snoc, Z.eqb_refl, app_nil_r.
      * rewrite (app_comm_cons x), !app_assoc, !last_key_snoc.
        assert ((n =? m) = false) as ->; [|done]. apply Z.eqb_neq. intros ->. apply Hn. rewrite !fmap_app. set_solver.
  - destruct (Hlater x eq_refl eq_refl) as (-> & -> & ->). by rewrite app_assoc.
Qed.

End Cut.

Section Refinement.
Context {U : Type} (cmp : U -> U -> RTL_GENERIC_COMPARE_RESULTS) `{!CompareOrder cmp}.
Context (alloc : mem U -> Z * mem U) `{!Allocator alloc}.
Context (dealloc : Z -> mem U -> mem U) `{!Deallocator dealloc}.
Context (uninit : Z).
Implicit Types (s : state U) (E : list (Z * U)).

(** A request served by the table. *)
Definition serve (q : request U) : TM U answer :=
  match q with
  | AskInsert b => r ← RtlInsertElementGenericTableAvl cmp alloc uninit b; mret (NewPointer (fst r) (snd r))
  | AskDelete b => r ← RtlDeleteElementGenericTableAvl cmp dealloc uninit b; mret (Boolean r)
  | AskLookup b => r ← RtlLookupElementGenericTableAvl cmp uninit b; mret (Pointer r)
  | AskEnumerate Restart => r ← RtlEnumerateGenericTableAvl Restart; mret (Pointer r)
  | AskNumber => r ← RtlNumberGenericTableElementsAvl; mret (Number r)
  | AskEmpty => r ← RtlIsGenericTableEmptyAvl; mret (Boolean r)
  end.

(** The same request on the dictionary; [p] is what the allocation routine
    returns if it is called. *)
Definition specify (q : request U) (p : Z) (c : cut) : answer * cut (U := U) :=
  let E := fst c ++ snd c in
  match q with
  | AskInsert b => match dict_find cmp b E with
      | Some n => (NewPointer (UserDataOf n) false, c)
      | None => if p =? NULL then (NewPointer NULL false, c) else (NewPointer (UserDataOf p) true, cut_insert cmp p b c) end
  | AskDelete b => (Boolean (match dict_find cmp b E with Some _ => true | None => false end),
      (dict_delete cmp b (fst c), dict_delete cmp b (snd c)))
  | AskLookup b => (Pointer (ptr (dict_find cmp b E)), c)
  | AskEnumerate r => let c := cut_restart r c in
      (Pointer (ptr (head (snd c).*1)), (fst c ++ take 1 (snd c), drop 1 (snd c)))
  | AskNumber => (Number (Z.of_nat (length E)), c)
  | AskEmpty => (Boolean (match E with [] => true | _ => false end), c)
  end.

Lemma avl_nodes_nodup s E : holds cmp s E -> NoDup E.*1 /\ NULL ∉ E.*1.
Proof using U.
  intros Hh. destruct (rep_tree _ _ _ Hh) as (hb & t & Ht). destruct (tree_nodup _ _ _ _ _ Ht) as [H1 H2].
  rewrite <- (tp_order _ _ _ _ _ Ht). apply NoDup_cons in H1 as [_ H1]. apply not_elem_of_cons in H2 as [_ H2]. done.
Qed.

(** Deleting an element that is not there changes neither part. *)
Lemma cut_absent s b done todo : holds cmp s (done ++ todo) -> dict_find cmp b (done ++ todo) = None ->
  dict_delete cmp b done = done /\ dict_delete cmp b todo = todo.
Proof using CompareOrder0.
  intros Hh Hd. destruct (decide (done ++ todo = [])) as [He|Hne].
  { by apply app_eq_nil in He as [-> ->]. }
  destruct (rep_tree _ _ _ Hh) as (hb & t & Ht).
  destruct (avl_find_correct cmp s b _ NULL hb t Hh Ht Hne) as (r & x & _ & Hfound).
  destruct Hfound as [E1 n u E2 HE Hu|f k E1 E2 _ HE _ _ H1 H2].
  - pose proof (rep_sorted _ _ _ Hh) as Hs. rewrite HE in Hs, Hd. destruct (equal_rest cmp b E1 n u E2 Hs Hu) as [H1 _].
    by rewrite (proj1 (dict_present cmp b E1 n u E2 0 H1 Hu)) in Hd.
  - apply app_eq_inv in HE as [(y & -> & ->)|(y & -> & ->)].
    + apply Forall_app in H2 as [Hy H2]. split; [|by apply delete_above].
      apply (dict_absent cmp b E1 y 0 H1 Hy).
    + apply Forall_app in H1 as [H1 Hy]. split; [by apply delete_below|].
      apply (dict_absent cmp b y E2 0 Hy H2).
Qed.

(** One request: the table answers and moves as the dictionary does. *)
Lemma avl_serve_correct s done todo q : represents cmp s done todo -> Z.of_nat (length (done ++ todo)) < MaxElements ->
  let '(a, c) := specify q (fst (alloc (Mem s))) (done, todo) in
  exists s', serve q s = Some (a, s') /\ represents cmp s' (fst c) (snd c).
Proof using Type*.
  intros [Hh Hk] Hlen. set (E := done ++ todo) in *. unfold specify. cbn [fst snd]. fold E.
  destruct q as [b|b|b|r| |]; cbn [serve].
  - destruct (dict_find cmp b E) as [n|] eqn:Ed.
    + exists s. rewrite (avl_run_step _ _ _ _ _ (avl_Insert_found_spec cmp alloc uninit s E b n Hh Ed)). by split.
    + destruct (alloc (Mem s)) as [p m] eqn:Ea. cbn [fst]. destruct (Z.eqb_spec p NULL) as [->|Hp].
      * destruct (avl_Insert_full_spec cmp alloc uninit s E b m Hh Ed Ea) as [Hs Hh'].
        eexists. rewrite (avl_run_step _ _ _ _ _ Hs). by split.
      * destruct (avl_Insert_new_spec cmp alloc uninit s E b p m Hh Ed Hlen Ea Hp) as (s' & E1 & E2 & Hs & HE & H1 & H2 & Hh' & Hm & _).
        exists s'. rewrite (avl_run_step _ _ _ _ _ Hs). split; [done|].
        destruct (cut_insert_spec cmp done todo E1 E2 p b HE H1 H2) as [Hc Hl]. split; [by rewrite Hc|by rewrite Hl, Hm].
  - destruct (dict_find cmp b E) as [n|] eqn:Ed.
    + destruct (Delete_found_spec cmp dealloc uninit s E b n Hh Ed) as (s' & E1 & u & E2 & Hs & HE & Hu & H1 & H2 & Hh' & Hr & _).
      exists s'. rewrite (avl_run_step _ _ _ _ _ Hs). split; [done|].
      destruct (avl_nodes_nodup s E Hh) as [Hnd Hnn]. rewrite HE, fmap_app in Hnd, Hnn. cbn in Hnd, Hnn.
      rewrite <- Permutation_middle in Hnd. apply NoDup_cons in Hnd as [Hnd _].
      destruct (cut_delete_spec cmp done todo E1 n u E2 b HE Hu H1 H2) as [Hc Hl]; [set_solver|by rewrite fmap_app|].
      cbn [fst snd]. split; [by rewrite Hc|by rewrite Hr, Hl, Hk].
    + exists s. rewrite (avl_run_step _ _ _ _ _ (Delete_absent_spec cmp dealloc uninit s E b Hh Ed)). split; [done|].
      by rewrite (proj1 (cut_absent s b done todo Hh Ed)), (proj2 (cut_absent s b done todo Hh Ed)).
  - exists s. by rewrite (avl_run_step _ _ _ _ _ (avl_Lookup_spec cmp uninit s E b Hh)).
  - assert (exists s1, represents cmp s1 (fst (cut_restart r (done, todo))) (snd (cut_restart r (done, todo))) /\
      RtlEnumerateGenericTableAvl r s = RtlEnumerateGenericTableAvl false s1) as (s1 & Hr1 & Heq).
    { destruct r; [|by exists s]. eexists. split; [|reflexivity]. split; [|done].
      destruct Hh as [(hb & t & [T1 T2 T3 T4]) H2 H3 H4 H5]. split; [|done..]. exists hb, t. by split. }
    destruct (Enumerate_spec cmp s1 _ _ Hr1) as (s' & Hs & Hr').
    rewrite <- Heq in Hs. exists s'. by rewrite (avl_run_step _ _ _ _ _ Hs).
  - exists s. split; [|done]. unfold RtlNumberGenericTableElementsAvl. rewrite avl_run_assoc, avl_run_table.
    unfold mret, TM_ret, mbind, TM_bind. by rewrite (rep_number _ _ _ Hh).
  - exists s. by rewrite (avl_run_empty cmp s E).
Qed.
Lemma cut_length q p (c : cut (U := U)) :
  let c' := snd (specify q p c) in (length (fst c' ++ snd c') <= S (length (fst c ++ snd c)))%nat.
Proof using U.
  assert (Hi : forall b E, (length (dict_insert cmp p b E) <= S (length E))%nat).
  { intros b E. induction E as [|[n u] E IH]; cbn; [lia|]. destruct (cmp b u); cbn; lia. }
  assert (Hd : forall b E, (length (dict_delete cmp b E) <= length E)%nat).
  { intros b E. induction E as [|[n u] E IH]; cbn; [lia|]. destruct (cmp b u); cbn; lia. }
  destruct c as [d t], q as [b|b|b|r| |]; cbn; try lia.
  - destruct (dict_find cmp b (d ++ t)), (p =? NULL); cbn; try lia. unfold cut_insert. cbn.
    pose proof (Hi b d). pose proof (Hi b t).
    destruct (last d) as [[n u]|]; [destruct (cmp b u)|]; cbn; rewrite !length_app; lia.
  - pose proof (Hd b d). pose proof (Hd b t). rewrite !length_app. lia.
  - destruct r; cbn; rewrite <- ?app_assoc, take_drop; lia.
Qed.

(** A sequence of requests, the answers of the allocation routine on the way, and
    the sequence on the dictionary. *)
Fixpoint serve_all (qs : list (request U)) : TM U (list answer) :=
  match qs with
  | [] => mret []
  | q :: qs => a ← serve q; l ← serve_all qs; mret (a :: l)
  end.
Fixpoint allocations (qs : list (request U)) (s : state U) : list Z :=
  match qs with
  | [] => []
  | q :: qs => fst (alloc (Mem s)) ::
      match serve q s with Some (_, s') => allocations qs s' | None => [] end
  end.
Fixpoint specify_all (qs : list (request U)) (ps : list Z) (c : cut (U := U)) : list answer * cut (U := U) :=
  match qs, ps with
  | q :: qs, p :: ps =>
      let '(a, c') := specify q p c in let '(l, c'') := specify_all qs ps c' in (a :: l, c'')
  | _, _ => ([], c)
  end.

Lemma serve_all_step q qs s done todo : represents cmp s done todo ->
  Z.of_nat (length (done ++ todo)) + Z.of_nat (length (q :: qs)) <= MaxElements ->
  exists a c s1, specify q (fst (alloc (Mem s))) (done, todo) = (a, c) /\ serve q s = Some (a, s1) /\
    represents cmp s1 (fst c) (snd c) /\ Z.of_nat (length (fst c ++ snd c)) + Z.of_nat (length qs) <= MaxElements.
Proof using Type*.
  intros Hrep Hlen. cbn [length] in Hlen. pose proof (avl_serve_correct s done todo q Hrep ltac:(lia)) as Hstep.
  pose proof (cut_length q (fst (alloc (Mem s))) (done, todo)) as Hl.
  destruct (specify q (fst (alloc (Mem s))) (done, todo)) as [a c]. destruct Hstep as (s1 & Hs & Hr).
  cbn in Hl. exists a, c, s1. split_and!; [done..|lia].
Qed.

(** C5: A table on a balanced tree implements a dictionary that its enumeration
    cuts in two: in any sequence of insertions, deletions, lookups, enumeration
    steps with and without Restart and queries, no routine faults, fails an ASSERT
    or runs on, and every answer is the one the sorted association list gives; the
    tree is balanced after every request, DepthOfTree is its height, and RestartKey
    is the last element enumerated that is still there.  The number of elements at
    the start and the number of requests together are at most [MaxElements],
    9,227,463: with more elements the tree can be 33 levels deep, and the ASSERT on
    size and depth reads its tables of 33 entries outside their bounds. *)
Theorem avl_refines_dictionary qs s done todo : represents cmp s done todo ->
  Z.of_nat (length (done ++ todo)) + Z.of_nat (length qs) <= MaxElements ->
  let '(l, c) := specify_all qs (allocations qs s) (done, todo) in
  exists s', serve_all qs s = Some (l, s') /\ represents cmp s' (fst c) (snd c).
Proof using Type*.
  revert s done todo. induction qs as [|q qs IH]; intros s done todo Hrep Hlen; cbn [specify_all serve_all allocations].
  - by exists s.
  - destruct (serve_all_step q qs s done todo Hrep Hlen) as (a & [d1 t1] & s1 & Hsp & Hs1 & Hrep1 & Hlen1).
    rewrite Hsp, Hs1. specialize (IH s1 d1 t1 Hrep1 Hlen1). destruct (specify_all qs (allocations qs s1) (d1, t1)) as [l c].
    destruct IH as (s2 & Hs2 & Hrep2). exists s2. split; [|done].
    by rewrite (avl_run_step _ _ _ _ _ Hs1), (avl_run_step _ _ _ _ _ Hs2).
Qed.

(** ** Every element once *)

(** The pointers the enumeration returned in a sequence of requests. *)
Fixpoint enumerated (qs : list (request U)) (l : list answer) : list Z :=
  match qs, l with
  | AskEnumerate _ :: qs, Pointer p :: l => p :: enumerated qs l
  | _ :: qs, _ :: l => enumerated qs l
  | _, _ => []
  end.

(** The requests neither restart the enumeration nor delete [u]. *)
Definition leaves (u : U) (q : request U) : Prop :=
  match q with AskDelete b => cmp b u <> GenericEqual | AskEnumerate r => r = false | _ => True end.

Lemma insert_keeps p b e E : e ∈ E -> e ∈ dict_insert cmp p b E.
Proof using U.
  induction E as [|[m v] E IH]; [by intros ?%not_elem_of_nil|]. cbn. destruct (cmp b v); [by right|..|done].
  intros [->|H]%elem_of_cons; [left|right; by apply IH].
Qed.
Lemma delete_keeps b e E : cmp b (snd e) <> GenericEqual -> e ∈ E -> e ∈ dict_delete cmp b E.
Proof using U.
  intros Hne. induction E as [|[m v] E IH]; [done|]. cbn. destruct (cmp b v) eqn:Ev; [done|..].
  - intros [->|H]%elem_of_cons; [left|right; by apply IH].
  - intros [->|H]%elem_of_cons; [done|done].
Qed.

(** An element that is left alone stays on its side, except that the enumeration
    passes it. *)
Lemma specify_keeps q p (c : cut (U := U)) n u : leaves u q ->
  let '(a, c') := specify q p c in
  ((n, u) ∈ fst c -> (n, u) ∈ fst c') /\
  ((n, u) ∈ snd c -> (n, u) ∈ snd c' \/ q = AskEnumerate false /\ a = Pointer (UserDataOf n) /\ (n, u) ∈ fst c').
Proof using U.
  destruct c as [d t], q as [b|b|b|r| |]; cbn [leaves]; intros Hq; cbn; try (split; [done|by left]).
  - destruct (dict_find cmp b (d ++ t)), (p =? NULL); cbn; try (split; [done|by left]). unfold cut_insert. cbn.
    destruct (last d) as [[m v]|]; [destruct (cmp b v)|]; cbn; split; try done; try (intros H; left); try done;
      try (intros H); by apply insert_keeps.
  - split; [|intros H; left]; by apply delete_keeps.
  - subst r. cbn. split; [intros H; apply elem_of_app; by left|]. destruct t as [|[m v] t]; [by left|]. cbn.
    intros [He|H]%elem_of_cons; [|by left]. injection He as -> ->. right. split_and!; [done..|].
    apply elem_of_app. right. left.
Qed.

Lemma serve_all_cons q qs s a s1 l s' : serve q s = Some (a, s1) -> serve_all qs s1 = Some (l, s') ->
  serve_all (q :: qs) s = Some (a :: l, s').
Proof using U. intros H1 H2. cbn [serve_all]. by rewrite (avl_run_step _ _ _ _ _ H1), (avl_run_step _ _ _ _ _ H2). Qed.

(** The answer of the enumeration is neither an element it has passed nor one
    that is still to come. *)
Lemma answer_other s done todo q n u a c : represents cmp s done todo -> leaves u q ->
  specify q (fst (alloc (Mem s))) (done, todo) = (a, c) -> (n, u) ∈ done \/ (n, u) ∈ snd c ->
  exists r, (UserDataOf n ∉ r) /\ forall qs l, enumerated (q :: qs) (a :: l) = r ++ enumerated qs l.
Proof using Type*.
  intros [Hh _] Hq Hs Hin.
  destruct q as [b|b|b|r| |]; cbn [leaves enumerated] in *; try (exists []; split; [apply not_elem_of_nil|done]).
  subst r. cbn in Hs. injection Hs as <- <-. exists [ptr (head todo.*1)]. split; [|done].
  rewrite list_elem_of_singleton. destruct (avl_nodes_nodup s _ Hh) as [Hnd _].
  destruct todo as [|[m v] todo]; cbn in *.
  - destruct Hin as [Hin|Hin]; [|by apply not_elem_of_nil in Hin].
    apply (proj1 (Z.eqb_neq _ _)), (avl_node_pos cmp s _ n Hh), list_elem_of_fmap. exists (n, u). by rewrite app_nil_r.
  - rewrite fmap_app in Hnd. cbn in Hnd. rewrite <- Permutation_middle in Hnd. apply NoDup_cons in Hnd as [Hnd _].
    unfold UserDataOf. intros He. apply Hnd. replace m with n by lia. apply elem_of_app.
    destruct Hin as [Hin|Hin]; [left|right]; apply list_elem_of_fmap; by exists (n, u).
Qed.

Lemma passed_stays qs : forall s done todo n u, represents cmp s done todo ->
  Z.of_nat (length (done ++ todo)) + Z.of_nat (length qs) <= MaxElements -> (n, u) ∈ done -> Forall (leaves u) qs ->
  exists l s' c, serve_all qs s = Some (l, s') /\ represents cmp s' (fst c) (snd c) /\
    (n, u) ∈ fst c /\ UserDataOf n ∉ enumerated qs l.
Proof using Type*.
  induction qs as [|q qs IH]; intros s done todo n u Hrep Hlen Hin Hq.
  - exists [], s, (done, todo). split_and!; [done..|apply not_elem_of_nil].
  - apply Forall_cons in Hq as [Hq Hqs].
    destruct (serve_all_step q qs s done todo Hrep Hlen) as (a & [d1 t1] & s1 & Hsp & Hs1 & Hrep1 & Hlen1).
    pose proof (specify_keeps q (fst (alloc (Mem s))) (done, todo) n u Hq) as Hk. rewrite Hsp in Hk.
    destruct (IH s1 d1 t1 n u Hrep1 Hlen1) as (l & s' & c & Hs & Hr & Hc & Hl); [by apply Hk|done|].
    exists (a :: l), s', c. split_and!; [by eapply serve_all_cons|done..|].
    destruct (answer_other s done todo q n u a _ Hrep Hq Hsp) as (r & Hr' & ->); [by left|].
    by apply not_elem_of_app.
Qed.

(** C7: RtlEnumerateGenericTableAvl is safe across insertions and deletions: in any
    sequence of requests without Restart, an element that is still to come and is
    not deleted is either still to come at the end and was not returned, or was
    returned exactly once, whatever else was inserted and deleted on the way. *)
Theorem enumerated_once qs s done todo n u : represents cmp s done todo ->
  Z.of_nat (length (done ++ todo)) + Z.of_nat (length qs) <= MaxElements -> (n, u) ∈ todo -> Forall (leaves u) qs ->
  exists l s' done' todo', serve_all qs s = Some (l, s') /\ represents cmp s' done' todo' /\
    ((n, u) ∈ todo' /\ UserDataOf n ∉ enumerated qs l \/
     (n, u) ∈ done' /\ exists r1 r2, enumerated qs l = r1 ++ UserDataOf n :: r2 /\ UserDataOf n ∉ r1 ++ r2).
Proof using Type*.
  revert s done todo. induction qs as [|q qs IH]; intros s done todo Hrep Hlen Hin Hq.
  - exists [], s, done, todo. split_and!; [done..|]. left. split; [done|apply not_elem_of_nil].
  - apply Forall_cons in Hq as [Hq Hqs].
    destruct (serve_all_step q qs s done todo Hrep Hlen) as (a & [d1 t1] & s1 & Hsp & Hs1 & Hrep1 & Hlen1).
    pose proof (specify_keeps q (fst (alloc (Mem s))) (done, todo) n u Hq) as Hk. rewrite Hsp in Hk.
    destruct Hk as [_ Hk]. destruct (Hk Hin) as [Hin1|(-> & -> & Hin1)]; cbn [fst snd] in *.
    + destruct (IH s1 d1 t1 Hrep1 Hlen1 Hin1 Hqs) as (l & s' & d' & t' & Hs & Hr & Hc).
      exists (a :: l), s', d', t'. split_and!; [by eapply serve_all_cons|done|].
      destruct (answer_other s done todo q n u a _ Hrep Hq Hsp) as (r & Hr' & ->); [by right|].
      destruct Hc as [[Hc Hl]|(Hc & r1 & r2 & -> & Hl)].
      * left. split; [done|]. by apply not_elem_of_app.
      * right. split; [done|]. exists (r ++ r1), r2. split; [by rewrite app_assoc|].
        rewrite <- app_assoc. by apply not_elem_of_app.
    + destruct (passed_stays qs s1 d1 t1 n u Hrep1 Hlen1 Hin1 Hqs) as (l & s' & c & Hs & Hr & Hc & Hl).
      exists (Pointer (UserDataOf n) :: l), s', (fst c), (snd c).
      split_and!; [by eapply serve_all_cons|done|].
      right. split; [done|]. by exists [], (enumerated qs l).
Qed.
End Refinement.

(** ** The other theorems *)

(** C6: DeleteNodeFromTree, called for a node of a balanced tree, ends without a
    fault or a failed ASSERT, removes exactly that node from the order, leaves a
    balanced tree with consistent links and returns its height as the new
    DepthOfTree, and writes nothing outside the tree and the record of the table. *)
Theorem DeleteNodeFromTree_balanced h BalancedRoot hb t NodeToDelete :
  owns (cells (Node Leaf BalancedRoot hb t)) h -> avl t -> NodeToDelete ∈ inorder t -> height t < 2 ^ 32 ->
  exists h' hb' t' u v, inorder t = u ++ NodeToDelete :: v /\
    DeleteNodeFromTree BalancedRoot NodeToDelete (height t) h = Some (height t', h') /\
    owns (cells (Node Leaf BalancedRoot hb' t')) h' /\ avl t' /\ inorder t' = u ++ v /\
    forall a, a ∉ BalancedRoot :: inorder t -> h' !! a = h !! a.
Proof.
  intros Hin Ha Hd H32. pose proof Hin as [Hnd _ _]. unfold cells in Hnd. rewrite avl_links_keys in Hnd.
  apply NoDup_cons in Hnd as [_ Hnd]. apply avl_find_path in Hd as (l & b & r & k & ->).
  destruct (DeleteNodeFromTree_correct BalancedRoot hb (height (plug (Node l NodeToDelete b r) k)) l NodeToDelete b r k Ha Hnd)
    as (t' & g & j & A1 & A2 & A3 & Ht).
  destruct (Ht h Hin) as (h' & Hm & Ho & _ & Hf).
  exists h', (if g then -1 else 0), t', (before k ++ inorder l), (inorder r ++ after k). split_and!.
  - rewrite avl_inorder_plug. in_order.
  - rewrite Hm. do 2 f_equal. rewrite A3. destruct g; [|lia]. apply u32_small. pose proof (height_nonneg t'). lia.
  - by eapply owns_app_l.
  - done.
  - rewrite A2. in_order.
  - intros a Hx. apply Hf. unfold cells. by rewrite avl_links_keys.
Qed.

Section Theorems.
Context {U : Type} (cmp : U -> U -> RTL_GENERIC_COMPARE_RESULTS) `{!CompareOrder cmp}.
Context (uninit : Z).
Implicit Types (s : state U) (E : list (Z * U)).

(** RtlInitializeGenericTableAvl gives an empty table. *)
Lemma avl_Initialize_spec s v : Links (Mem s) !! BalancedRoot (Table s) = Some v -> BalancedRoot (Table s) <> NULL ->
  exists s', RtlInitializeGenericTableAvl s = Some (tt, s') /\ represents cmp s' [] [].
Proof using U.
  intros Hv Hn. set (H := BalancedRoot (Table s)) in *.
  assert (Ho : owns (cells (Node Leaf H 0 Leaf)) (<[H := mkLinks H NULL NULL 0]> (<[H := mkLinks NULL NULL NULL 0]> (Links (Mem s))))).
  { split; cbn; [apply NoDup_singleton|by rewrite list_elem_of_singleton|].
    intros a w [= -> ->]%list_elem_of_singleton. apply lookup_insert_eq. }
  eexists. split.
  - unfold RtlInitializeGenericTableAvl. rewrite avl_run_table, run_modify. fold H. apply Z.eqb_neq in Hn.
    unfold mbind, TM_bind, on_links, modify, set_Parent. cbn. rewrite Hn, Hv. cbn. unfold modify.
    rewrite Hn, lookup_insert_eq. reflexivity.
  - split; [|done]. split; cbn; try done.
    + exists 0, Leaf. by split.
    + constructor.
    + constructor.
Qed.

(** The size of a table and the depth of its tree stay between the worst and
    the best case of a balanced tree: with up to 9227463 elements the depth is at
    most 32, the two tables of the ASSERT have an entry for it, and the number of
    elements lies between the two entries. *)
Theorem table_depth s E : holds cmp s E ->
  0 <= DepthOfTree (Table s) <= 32 /\
  exists w b, WorstCaseFill !! Z.to_nat (DepthOfTree (Table s)) = Some w /\
    BestCaseFill !! Z.to_nat (DepthOfTree (Table s)) = Some b /\
    w <= NumberGenericTableElements (Table s) <= b.
Proof using U.
  intros Hh. destruct (rep_tree _ _ _ Hh) as (hb & t & Ht). pose proof (holds_depth _ _ _ _ _ Hh Ht) as Hd.
  rewrite (tp_depth _ _ _ _ _ Ht), (rep_number _ _ _ Hh). split; [done|].
  destruct (fill_tables (Z.to_nat (height t))) as [F1 F2]; [lia|].
  exists (fewest (Z.to_nat (height t))), (2 ^ height t - 1). rewrite F1, F2, Z2Nat.id by lia. split; [done|]. split; [done|].
  destruct (avl_size t (tp_avl _ _ _ _ _ Ht)) as [H1 H2]. rewrite (tree_size _ _ _ _ _ Ht) in H1, H2. done.
Qed.

(** C31: RtlGetElementGenericTableAvl returns the element with the given index in
    the order of the table, or NULL beyond the end, when the saved pointer is the
    element with the saved index; it keeps that so unless it starts over from the
    first element for an index other than 0. *)
Theorem RtlGetElementGenericTableAvl_spec s E Idx : holds cmp s E -> ordered_ok s E -> 0 <= Idx <= MAXULONG ->
  exists s', RtlGetElementGenericTableAvl Idx s = Some (ptr (E.*1 !! Z.to_nat Idx), s') /\ holds cmp s' E /\
    RestartKey (Table s') = RestartKey (Table s) /\ (~ starts_over s Idx -> ordered_ok s' E).
Proof using U.
  intros Hh Hok HI. destruct (avl_Get_spec cmp s E Idx Hh Hok HI) as (p & w & Hg & Ho).
  exists (move_ordered s p w). split_and!; [done|by apply holds_ordered|done..].
Qed.

(** RtlEnumerateGenericTableLikeADirectory returns the first element after the
    key in Buffer (or at it, without NextFlag) that the match function accepts, and
    NULL at the end or when the match function knows of no more matches; the answer
    is the same whether it resumes from RestartKey, as it does if nothing was
    deleted since, or searches for the key, which need not be in the table any
    more. *)
Theorem RtlEnumerateGenericTableLikeADirectory_spec s E mf next key count b : holds cmp s E ->
  valid_match (default MatchAll mf) -> resumes cmp s E key count b ->
  RtlEnumerateGenericTableLikeADirectory cmp uninit mf next key count b s =
    Some (match E with
          | [] => (NULL, NULL, count)
          | _ => directory_answer (default MatchAll mf) (rest_from cmp next b E) key count (DeleteCount (Table s))
          end, s).
Proof using CompareOrder0.
  intros Hh Hv Hr. destruct E as [|e E0].
  - unfold RtlEnumerateGenericTableLikeADirectory. by rewrite (avl_run_empty cmp s []).
  - by apply Directory_spec.
Qed.
End Theorems.

(** ** A table of integers *)

(** An allocator that takes the first address above all in use, and its inverse. *)
Definition addresses (m : mem Z) : list Z := (map_to_list (Links m)).*1 ++ (map_to_list (Data m)).*1.
Definition next_address (m : mem Z) : Z := 1 + foldr Z.max 0 (addresses m).
Definition bump_alloc (m : mem Z) : Z * mem Z :=
  let p := next_address m in
  (p, mkMem (<[p := mkLinks 0 0 0 0]> (Links m)) (<[UserDataOf p := 0]> (Data m))).
Definition bump_free (p : Z) (m : mem Z) : mem Z := mkMem (delete p (Links m)) (delete (UserDataOf p) (Data m)).

#[global] Instance bump_allocator : Allocator bump_alloc.
Proof.
  assert (Hfresh : forall m, 0 < next_address m /\ Links m !! next_address m = None /\
    Data m !! UserDataOf (next_address m) = None).
  { intros m. unfold next_address, UserDataOf. pose proof (GenTableOps.max_nonneg (addresses m)).
    split_and!; [lia|eapply (GenTableOps.above_all _ (addresses m))..]; try lia; unfold addresses; intros b Hb;
      rewrite !elem_of_app; tauto. }
  split; unfold bump_alloc; intros m p m' [= <- <-]; destruct (Hfresh m) as (H0 & H1 & H2); cbn.
  - split; by apply insert_subseteq.
  - intros _. rewrite !lookup_insert_eq. split_and!; try done; by eexists.
Qed.
#[global] Instance bump_deallocator : Deallocator bump_free.
Proof. by split; intros p m a Ha; cbn; apply lookup_delete_ne. Qed.

Definition ex_start : state Z := mkState (mkTable 4 NULL 0 0 0 NULL 0) (mkMem {[4 := mkLinks 4 NULL NULL 0]} ∅).

Lemma avl_ex_start_empty : represents int_compare ex_start [] [].
Proof.
  split; [|done]. split; cbn; try done; [|constructor..].
  exists 0, Leaf. split; [|done..]. split; cbn; [apply NoDup_singleton|by rewrite list_elem_of_singleton|].
  intros a v [= -> ->]%list_elem_of_singleton. apply lookup_singleton_eq.
Qed.

Definition int_run (qs : list (request Z)) : option (list answer * state Z) :=
  serve_all int_compare bump_alloc bump_free 0 qs ex_start.

(** The element returned last is deleted, and another inserted in its place. *)
Definition ex_requests : list (request Z) :=
  [AskInsert 50; AskInsert 30; AskInsert 90; AskInsert 30; AskEnumerate true; AskDelete 30; AskInsert 20;
   AskEnumerate false; AskEnumerate false; AskEnumerate false; AskEnumerate false; AskLookup 30; AskNumber].

Lemma avl_refines_dictionary_witness : exists s' done' todo',
  int_run ex_requests =
    Some ([NewPointer 21 true; NewPointer 38 true; NewPointer 55 true; NewPointer 38 false; Pointer 38; Boolean true;
           NewPointer 72 true; Pointer 72; Pointer 21; Pointer 55; Pointer NULL; Pointer NULL; Number 3], s') /\
  represents int_compare s' done' todo'.
Proof.
  pose proof (avl_refines_dictionary int_compare bump_alloc bump_free 0 ex_requests ex_start [] [] avl_ex_start_empty) as H.
  destruct (specify_all int_compare ex_requests (allocations int_compare bump_alloc bump_free 0 ex_requests ex_start) ([], []))
    as [l [d t]] eqn:Es.
  destruct H as (s' & H1 & H2); [vm_compute; discriminate|].
  exists s', d, t. split; [|exact H2]. vm_compute in Es. injection Es as Hl _ _. unfold int_run. rewrite H1, <- Hl. reflexivity.
Defined.

(** Three elements, inserted in order: the tree is balanced by one promotion. *)
Definition ex_three : state Z :=
  match int_run [AskInsert 10; AskInsert 20; AskInsert 30] with Some (_, s) => s | None => ex_start end.
Definition ex_tree : tree := Node (Node Leaf 5 0 Leaf) 22 0 (Node Leaf 39 0 Leaf).

Lemma ex_three_owns : owns (cells (Node Leaf 4 (-1) ex_tree)) (Links (Mem ex_three)).
Proof.
  split; [apply (bool_decide_eq_true_1 _); vm_compute; reflexivity..|].
  intros a v Hin. vm_compute in Hin.
  repeat (apply elem_of_cons in Hin as [Hv|Hin]; [injection Hv as -> ->; vm_compute; reflexivity|]).
  by apply not_elem_of_nil in Hin.
Qed.

Lemma ex_three_represents : represents int_compare ex_three [] [(5, 10); (22, 20); (39, 30)].
Proof.
  split; [|vm_compute; reflexivity]. split.
  - exists (-1), ex_tree. split; [exact ex_three_owns|vm_compute; reflexivity| |vm_compute; reflexivity].
    cbn. split_and!; done.
  - repeat (constructor; [split; vm_compute; reflexivity|]). constructor.
  - unfold sorted. cbn. repeat constructor.
  - vm_compute. reflexivity.
  - vm_compute. discriminate.
Qed.

Definition ex_mixed : list (request Z) :=
  [AskEnumerate false; AskDelete 10; AskInsert 15; AskEnumerate false; AskInsert 40; AskEnumerate false; AskDelete 15; AskEnumerate false].

Lemma enumerated_once_witness : exists l s' done' todo',
  serve_all int_compare bump_alloc bump_free 0 ex_mixed ex_three = Some (l, s') /\
  represents int_compare s' done' todo' /\
  ((22, 20) ∈ todo' /\ UserDataOf 22 ∉ enumerated ex_mixed l \/
   (22, 20) ∈ done' /\ exists r1 r2, enumerated ex_mixed l = r1 ++ UserDataOf 22 :: r2 /\ UserDataOf 22 ∉ r1 ++ r2).
Proof.
  apply (enumerated_once int_compare bump_alloc bump_free 0 ex_mixed ex_three [] [(5, 10); (22, 20); (39, 30)] 22 20).
  - exact ex_three_represents.
  - vm_compute. discriminate.
  - right. left.
  - repeat constructor; vm_compute; discriminate.
Defined.

Lemma DeleteNodeFromTree_balanced_witness : exists h' hb' t' u v, inorder ex_tree = u ++ 22 :: v /\
  DeleteNodeFromTree 4 22 2 (Links (Mem ex_three)) = Some (height t', h') /\
  owns (cells (Node Leaf 4 hb' t')) h' /\ avl t' /\ inorder t' = u ++ v /\
  forall a, a ∉ 4 :: inorder ex_tree -> h' !! a = Links (Mem ex_three) !! a.
Proof.
  apply (DeleteNodeFromTree_balanced (Links (Mem ex_three)) 4 (-1) ex_tree 22 ex_three_owns).
  - cbn. split_and!; done.
  - right. left.
  - vm_compute. reflexivity.
Defined.

Lemma table_depth_witness : 0 <= DepthOfTree (Table ex_three) <= 32 /\
  exists w b, WorstCaseFill !! Z.to_nat (DepthOfTree (Table ex_three)) = Some w /\
    BestCaseFill !! Z.to_nat (DepthOfTree (Table ex_three)) = Some b /\
    w <= NumberGenericTableElements (Table ex_three) <= b.
Proof. exact (table_depth int_compare ex_three _ (proj1 ex_three_represents)). Defined.

Lemma RtlGetElementGenericTableAvl_spec_witness : exists s',
  RtlGetElementGenericTableAvl 2 ex_three = Some (55, s') /\ ordered_ok s' [(5, 10); (22, 20); (39, 30)].
Proof.
  destruct (RtlGetElementGenericTableAvl_spec int_compare ex_three _ 2 (proj1 ex_three_represents)) as (s' & H1 & _ & _ & H2).
  - left. vm_compute. reflexivity.
  - vm_compute. split; discriminate.
  - exists s'. split; [exact H1|]. apply H2. intros [Hn _]. apply Hn. vm_compute. reflexivity.
Defined.

(** Elements above 15 match; the search starts at 10. *)
Definition ex_match (u : Z) : Z := if u <=? 15 then STATUS_NO_MATCH else STATUS_SUCCESS.

Lemma RtlEnumerateGenericTableLikeADirectory_spec_witness :
  RtlEnumerateGenericTableLikeADirectory int_compare 0 (Some ex_match) false NULL 0 10 ex_three = Some ((38, 22, 0), ex_three).
Proof.
  refine (RtlEnumerateGenericTableLikeADirectory_spec int_compare 0 ex_three _ (Some ex_match) false NULL 0 10
    (proj1 ex_three_represents) _ _).
  - intros u. cbn. unfold ex_match. destruct (u <=? 15); [right; left|left]; reflexivity.
  - intros Hn _. contradiction Hn. reflexivity.
Defined.

(** ** Where the code departs from its description *)

(** A sequence of calls of RtlGetElementGenericTableAvl. *)
Fixpoint get_elements (l : list Z) (s : state Z) : option (list Z * state Z) :=
  match l with
  | [] => Some ([], s)
  | i :: l => match RtlGetElementGenericTableAvl i s with
      | Some (p, s') => match get_elements l s' with Some (r, s'') => Some (p :: r, s'') | None => None end
      | None => None end
  end.

(** Eight elements: after the elements 7 and 1 the routine returns the element 1
    for the index 0, since the loop that walks from the first element counts its
    parameter down and the location saved is 0. *)
Theorem get_element_wrong : exists s r s', int_run (AskInsert <$> [10; 20; 30; 40; 50; 60; 70; 80]) = Some (r, s) /\
  get_elements [7; 1; 0] s = Some ([140; 38; 38], s') /\ get_elements [0] s <> None /\
  fst <$> get_elements [0] s = Some [21].
Proof. eexists _, _, _. split; [vm_compute; reflexivity|]. split_and!; vm_compute; done. Qed.

(** The saved location is not reset by an insertion: with 20 and 30 in the table
    and the element 1 fetched, inserting 10 makes the routine return a pointer
    that is no element, the user data of the node NULL. *)
Theorem get_element_stale : exists s r s1 r1 s2 r2 s3,
  int_run [AskInsert 20; AskInsert 30] = Some (r, s) /\
  get_elements [1] s = Some (r1, s1) /\
  serve int_compare bump_alloc bump_free 0 (AskInsert 10) s1 = Some (r2, s2) /\
  get_elements [2] s2 = Some ([UserDataOf NULL], s3).
Proof.
  eexists _, _, _, _, _, _, _. split; [vm_compute; reflexivity|]. split; [vm_compute; reflexivity|].
  split; [vm_compute; reflexivity|]. vm_compute. reflexivity.
Qed.

(** The caller's DeleteCount is not updated when there is no more element, though
    the description says it always is. *)
Theorem delete_count_kept : exists s r,
  int_run [AskInsert 20; AskInsert 30; AskDelete 20] = Some (r, s) /\ DeleteCount (Table s) = 1 /\
  fst <$> RtlEnumerateGenericTableLikeADirectory int_compare 0 None true NULL 0 30 s = Some (NULL, NULL, 0).
Proof. eexists _, _. split; [vm_compute; reflexivity|]. split; vm_compute; reflexivity. Qed.

End AvlTableSpec.
