(* ===== verification/RtlAcl.v ===== *)
(** * Access control lists (rtl/acledit.c)

    An ACL is a header of eight bytes and its entries (ACEs) one behind the other,
    in a buffer of AclSize bytes; every entry says its own size.  Module [Acl]
    translates the routines of src/ntoskrnl/rtl/acledit.c on the bytes: a memory is
    the list of bytes from the address [Acl] on, pointers into it are offsets, and
    an access outside the list is a fault ([None]), which RtlValidAcl and
    RtlValidSid catch and the others do not.  The list of ACEs handed to RtlAddAce,
    SIDs and GUIDs are memories of their own. *)

From S2P Require Import Prelude.

Module Acl.

(** ** Memory *)

(** Little-endian numbers. *)
Fixpoint le_bytes (n : nat) (v : Z) : list Z :=
  match n with O => [] | S n => v mod 256 :: le_bytes n (v / 256) end.
Definition le (bs : list Z) : Z := foldr (fun b v => b + 256 * v) 0 bs.

Definition read (m : list Z) (o n : Z) : option (list Z) :=
  if (0 <=? o) && (o + n <=? Z.of_nat (length m)) then Some (take (Z.to_nat n) (drop (Z.to_nat o) m)) else None.
Definition write (m : list Z) (o : Z) (bs : list Z) : option (list Z) :=
  if (0 <=? o) && (o + Z.of_nat (length bs) <=? Z.of_nat (length m))
  then Some (take (Z.to_nat o) m ++ bs ++ drop (Z.to_nat o + length bs) m) else None.

Definition UCHAR_at (m : list Z) (o : Z) : option Z := le <$> read m o 1.
Definition USHORT_at (m : list Z) (o : Z) : option Z := le <$> read m o 2.
Definition ULONG_at (m : list Z) (o : Z) : option Z := le <$> read m o 4.
Definition set_UCHAR (m : list Z) (o v : Z) : option (list Z) := write m o (le_bytes 1 v).
Definition set_USHORT (m : list Z) (o v : Z) : option (list Z) := write m o (le_bytes 2 v).
Definition set_ULONG (m : list Z) (o v : Z) : option (list Z) := write m o (le_bytes 4 v).

(** ** Constants and layout *)

Definition STATUS_SUCCESS : Z := 0.
Definition STATUS_INVALID_INFO_CLASS : Z := 0xC0000003.
Definition STATUS_INVALID_PARAMETER : Z := 0xC000000D.
Definition STATUS_BUFFER_TOO_SMALL : Z := 0xC0000023.
Definition STATUS_REVISION_MISMATCH : Z := 0xC0000059.
Definition STATUS_INVALID_ACL : Z := 0xC0000077.
Definition STATUS_INVALID_SID : Z := 0xC0000078.
Definition STATUS_ALLOTTED_SPACE_EXCEEDED : Z := 0xC0000099.

Definition MAX_USTRING : Z := 2 * (0xffff / 2).
Definition MIN_ACL_REVISION : Z := 2.
Definition ACL_REVISION3 : Z := 3.
Definition ACL_REVISION4 : Z := 4.
Definition MAX_ACL_REVISION : Z := ACL_REVISION4.
Definition SID_REVISION : Z := 1.
Definition SID_MAX_SUB_AUTHORITIES : Z := 15.

Definition ACCESS_MIN_MS_ACE_TYPE : Z := 0.
Definition ACCESS_ALLOWED_ACE_TYPE : Z := 0.
Definition ACCESS_DENIED_ACE_TYPE : Z := 1.
Definition SYSTEM_AUDIT_ACE_TYPE : Z := 2.
Definition ACCESS_MAX_MS_V2_ACE_TYPE : Z := 3.
Definition ACCESS_ALLOWED_COMPOUND_ACE_TYPE : Z := 4.
Definition ACCESS_MAX_MS_V3_ACE_TYPE : Z := 4.
Definition ACCESS_MIN_MS_OBJECT_ACE_TYPE : Z := 5.
Definition ACCESS_ALLOWED_OBJECT_ACE_TYPE : Z := 5.
Definition ACCESS_DENIED_OBJECT_ACE_TYPE : Z := 6.
Definition SYSTEM_AUDIT_OBJECT_ACE_TYPE : Z := 7.
Definition ACCESS_MAX_MS_OBJECT_ACE_TYPE : Z := 8.

Definition VALID_INHERIT_FLAGS : Z := 0x1F.
Definition SUCCESSFUL_ACCESS_ACE_FLAG : Z := 0x40.
Definition FAILED_ACCESS_ACE_FLAG : Z := 0x80.
Definition COMPOUND_ACE_IMPERSONATION : Z := 1.
Definition ACE_OBJECT_TYPE_PRESENT : Z := 1.
Definition ACE_INHERITED_OBJECT_TYPE_PRESENT : Z := 2.

Definition sizeof_ACL : Z := 8.
Definition sizeof_ACE_HEADER : Z := 4.
Definition sizeof_SID : Z := 12.
Definition sizeof_GUID : Z := 16.
Definition sizeof_KNOWN_ACE : Z := 12.
Definition sizeof_KNOWN_COMPOUND_ACE : Z := 16.
Definition sizeof_KNOWN_OBJECT_ACE : Z := 16.

(** The fields of an ACL, at the start of its memory. *)
Definition AclRevision (m : list Z) : option Z := UCHAR_at m 0.
Definition AclSize (m : list Z) : option Z := USHORT_at m 2.
Definition AceCount (m : list Z) : option Z := USHORT_at m 4.

(** The fields of an ACE. *)
Definition AceType (m : list Z) (Ace : Z) : option Z := UCHAR_at m Ace.
Definition AceSize (m : list Z) (Ace : Z) : option Z := USHORT_at m (Ace + 2).

Definition FirstAce : Z := sizeof_ACL.
Definition NextAce (m : list Z) (Ace : Z) : option Z := s ← AceSize m Ace; Some (Ace + s).

Definition WordAligned (p : Z) : bool := Z.land (p + 1) (-2) =? p.
Definition LongAligned (p : Z) : bool := Z.land (p + 3) (-4) =? p.
Definition ValidAclRevision (r : Z) : bool := (r >=? MIN_ACL_REVISION) && (r <=? MAX_ACL_REVISION).
Definition IsKnownAceType (t : Z) : bool := (t >=? ACCESS_MIN_MS_ACE_TYPE) && (t <=? ACCESS_MAX_MS_V2_ACE_TYPE).
Definition IsCompoundAceType (t : Z) : bool := t =? ACCESS_ALLOWED_COMPOUND_ACE_TYPE.
Definition IsObjectAceType (t : Z) : bool :=
  (t >=? ACCESS_MIN_MS_OBJECT_ACE_TYPE) && (t <=? ACCESS_MAX_MS_OBJECT_ACE_TYPE).

(** ** SIDs *)

Definition SeLengthSid (m : list Z) (Sid : Z) : option Z := c ← UCHAR_at m (Sid + 1); Some (8 + 4 * c).

(** A pointer to a SID is NULL or a memory that begins with it. *)
Definition RtlValidSid (Sid : option (list Z)) : bool :=
  match Sid with
  | None => false
  | Some Isid =>
      default false
        (r ← UCHAR_at Isid 0;
         if Z.land r 0x0f =? SID_REVISION then c ← UCHAR_at Isid 1; Some (c <=? SID_MAX_SUB_AUTHORITIES)
         else Some false)
  end.

(** The status is not used by the callers. *)
Definition RtlCopySid (DestinationSidLength : Z) (m : list Z) (DestinationSid : Z) (SourceSid : list Z)
    : option (list Z) :=
  SidLength ← SeLengthSid SourceSid 0;
  if SidLength >? DestinationSidLength then Some m
  else bs ← read SourceSid 0 SidLength; write m DestinationSid bs.

(** ** Creation and validation *)

Definition RtlCreateAcl (m : list Z) (AclLength Revision : Z) : option (Z * list Z) :=
  if AclLength <? sizeof_ACL then Some (STATUS_BUFFER_TOO_SMALL, m)
  else if (Revision <? MIN_ACL_REVISION) || (Revision >? MAX_ACL_REVISION) then Some (STATUS_INVALID_PARAMETER, m)
  else if AclLength >? MAX_USTRING then Some (STATUS_INVALID_PARAMETER, m)
  else
    m ← set_UCHAR m 0 (u8 Revision);
    m ← set_UCHAR m 1 0;
    m ← set_USHORT m 2 (u16 (Z.land AclLength 0xfffc));
    m ← set_USHORT m 4 0;
    m ← set_USHORT m 6 0;
    Some (STATUS_SUCCESS, m).

(** The SID at [Sid] has the right revision and number of sub-authorities and ends
    within the ACE, with [before] bytes in front of it and [behind] after it. *)
Definition valid_sid (m : list Z) (Sid Size before behind : Z) : option bool :=
  r ← UCHAR_at m Sid; c ← UCHAR_at m (Sid + 1); l ← SeLengthSid m Sid;
  Some (negb (negb (r =? SID_REVISION) || (c >? SID_MAX_SUB_AUTHORITIES) || (Size <? before + l + behind))).

Definition valid_known (m : list Z) (Ace Size : Z) : option bool :=
  if negb (LongAligned Size) || (Size <? sizeof_KNOWN_ACE - 4 + sizeof_SID - 4) then Some false
  else valid_sid m (Ace + 8) Size (sizeof_KNOWN_ACE - 4) 0.

Definition valid_compound (m : list Z) (Revision Ace Size : Z) : option bool :=
  if (Revision <? ACL_REVISION3) || negb (LongAligned Size) || (Size <? sizeof_KNOWN_COMPOUND_ACE - 4 + sizeof_SID)
  then Some false
  else
    t ← USHORT_at m (Ace + 8);
    if negb (t =? COMPOUND_ACE_IMPERSONATION) then Some false
    else
      let Sid := Ace + 12 in
      v ← valid_sid m Sid Size (sizeof_KNOWN_COMPOUND_ACE - 4) sizeof_SID;
      if negb v then Some false
      else
        l ← SeLengthSid m Sid;
        valid_sid m (Sid + l) Size (sizeof_KNOWN_COMPOUND_ACE - 4 + l) 0.

Definition RtlObjectAceObjectTypePresent (m : list Z) (Ace : Z) : option bool :=
  f ← ULONG_at m (Ace + 8); Some (negb (Z.land f ACE_OBJECT_TYPE_PRESENT =? 0)).
Definition RtlObjectAceInheritedObjectTypePresent (m : list Z) (Ace : Z) : option bool :=
  f ← ULONG_at m (Ace + 8); Some (negb (Z.land f ACE_INHERITED_OBJECT_TYPE_PRESENT =? 0)).
Definition RtlObjectAceSid (m : list Z) (Ace : Z) : option Z :=
  o ← RtlObjectAceObjectTypePresent m Ace; i ← RtlObjectAceInheritedObjectTypePresent m Ace;
  Some (Ace + 12 + (if o : bool then sizeof_GUID else 0) + (if i : bool then sizeof_GUID else 0)).

Definition valid_object (m : list Z) (Revision Ace Size : Z) : option bool :=
  if (Revision <? ACL_REVISION4) || negb (LongAligned Size) || (Size <? sizeof_KNOWN_OBJECT_ACE - 4) then Some false
  else
    o ← RtlObjectAceObjectTypePresent m Ace; i ← RtlObjectAceInheritedObjectTypePresent m Ace;
    let GuidSize := (if o : bool then sizeof_GUID else 0) + (if i : bool then sizeof_GUID else 0) in
    if Size <? sizeof_KNOWN_OBJECT_ACE - 4 + GuidSize + sizeof_SID then Some false
    else Sid ← RtlObjectAceSid m Ace; valid_sid m Sid Size (sizeof_KNOWN_OBJECT_ACE - 4 + GuidSize) 0.

(** What RtlValidAcl asks of the ACE beyond its size. *)
Definition valid_ace (m : list Z) (Revision Ace Size : Z) : option bool :=
  t ← AceType m Ace;
  if IsKnownAceType t then valid_known m Ace Size
  else if IsCompoundAceType t then valid_compound m Revision Ace Size
  else if IsObjectAceType t then valid_object m Revision Ace Size
  else Some true.

Section Validation.
(** The address of the ACL. *)
Variable Acl : Z.

Fixpoint valid_aces (m : list Z) (Revision Size : Z) (n : nat) (Ace : Z) : option bool :=
  match n with
  | O => Some true
  | S n =>
      if Ace + sizeof_ACE_HEADER >? Size then Some false
      else
        s ← AceSize m Ace;
        if negb (WordAligned (Acl + Ace + 2)) || (s <? sizeof_ACE_HEADER) || (Ace + s >? Size) then Some false
        else
          v ← valid_ace m Revision Ace s;
          if negb v then Some false else Ace ← NextAce m Ace; valid_aces m Revision Size n Ace
  end.

Definition RtlValidAcl (m : list Z) : bool :=
  default false
    (r ← AclRevision m; s ← AclSize m;
     if negb (ValidAclRevision r) || negb (WordAligned (Acl + 2)) || (s <? sizeof_ACL) then Some false
     else n ← AceCount m; valid_aces m r s (Z.to_nat n) FirstAce).

End Validation.

(** ** The first free byte *)

(** The result is the offset behind the last ACE, or [None] for FALSE. *)
Fixpoint free_loop (m : list Z) (Size : Z) (n : nat) (Ace : Z) : option (option Z) :=
  match n with
  | O => Some (Some Ace)
  | S n =>
      if Ace + sizeof_ACE_HEADER >? Size then Some None
      else
        s ← AceSize m Ace;
        if (s <? sizeof_ACE_HEADER) || (Ace + s >? Size) then Some None
        else Ace ← NextAce m Ace; free_loop m Size n Ace
  end.

(** The result is the BOOLEAN and *FirstFree, [None] for NULL. *)
Definition RtlFirstFreeAce (m : list Z) : option (bool * option Z) :=
  n ← AceCount m; s ← AclSize m;
  e ← free_loop m s (Z.to_nat n) FirstAce;
  Some (match e with
        | None => (false, None)
        | Some Ace => (true, if Ace <=? s then Some Ace else None)
        end).

(** [!RtlValidAcl(Acl) || !RtlFirstFreeAce(Acl, &FirstFree)]: [None] when the
    condition holds, else FirstFree. *)
Definition find_free (Acl : Z) (m : list Z) : option (option (option Z)) :=
  if negb (RtlValidAcl Acl m) then Some None
  else '(b, FirstFree) ← RtlFirstFreeAce m; Some (if b : bool then Some FirstFree else None).

(** There is no room for [n] bytes. *)
Definition no_room (FirstFree : option Z) (n Size : Z) : bool :=
  match FirstFree with None => true | Some f => f + n >? Size end.

(** ** Queries *)

Inductive ACL_INFORMATION :=
  | ACL_REVISION_INFORMATION (AclRevision : Z)
  | ACL_SIZE_INFORMATION (AceCount AclBytesInUse AclBytesFree : Z).

Definition AclRevisionInformation : Z := 1.
Definition AclSizeInformation : Z := 2.

(** The result is the status and what is written to AclInformation. *)
Definition RtlQueryInformationAcl (m : list Z) (AclInformationLength AclInformationClass : Z)
    : option (Z * option ACL_INFORMATION) :=
  r ← AclRevision m;
  if negb (ValidAclRevision r) then Some (STATUS_INVALID_PARAMETER, None)
  else if AclInformationClass =? AclRevisionInformation then
    if AclInformationLength <? 4 then Some (STATUS_BUFFER_TOO_SMALL, None)
    else Some (STATUS_SUCCESS, Some (ACL_REVISION_INFORMATION r))
  else if AclInformationClass =? AclSizeInformation then
    if AclInformationLength <? 12 then Some (STATUS_BUFFER_TOO_SMALL, None)
    else
      '(b, FirstFree) ← RtlFirstFreeAce m;
      if negb b then Some (STATUS_INVALID_PARAMETER, None)
      else
        n ← AceCount m; s ← AclSize m;
        Some (STATUS_SUCCESS, Some (match FirstFree with
                                    | None => ACL_SIZE_INFORMATION n s 0
                                    | Some f => ACL_SIZE_INFORMATION n (u32 f) (u32 (s - u32 f))
                                    end))
  else Some (STATUS_INVALID_INFO_CLASS, None).

(** [Revision] is AclInformation->AclRevision. *)
Definition RtlSetInformationAcl (m : list Z) (Revision AclInformationLength AclInformationClass : Z)
    : option (Z * list Z) :=
  r ← AclRevision m;
  if negb (ValidAclRevision r) then Some (STATUS_INVALID_PARAMETER, m)
  else if AclInformationClass =? AclRevisionInformation then
    if AclInformationLength <? 4 then Some (STATUS_BUFFER_TOO_SMALL, m)
    else if (Revision <? r) || (Revision >? MAX_ACL_REVISION) then Some (STATUS_INVALID_PARAMETER, m)
    else m ← set_UCHAR m 0 (u8 Revision); Some (STATUS_SUCCESS, m)
  else Some (STATUS_INVALID_INFO_CLASS, m).

Fixpoint get_loop (m : list Z) (Size : Z) (n : nat) (Ace : Z) : option (bool * Z) :=
  match n with
  | O => Some (true, Ace)
  | S n =>
      if Ace + sizeof_ACE_HEADER >? Size then Some (false, Ace)
      else Ace ← NextAce m Ace; get_loop m Size n Ace
  end.

(** [Present] says that the third argument is not NULL; the result is the status
    and what *Ace is set to. *)
Definition RtlGetAce (m : list Z) (AceIndex : Z) (Present : bool) : option (Z * option Z) :=
  r ← AclRevision m; n ← AceCount m;
  if negb (ValidAclRevision r) || (AceIndex >=? n) || negb Present then Some (STATUS_INVALID_PARAMETER, None)
  else
    s ← AclSize m;
    '(b, Ace) ← get_loop m s (Z.to_nat AceIndex) FirstAce;
    if negb b || (Ace + sizeof_ACE_HEADER >? s) then Some (STATUS_INVALID_PARAMETER, Some Ace)
    else Some (STATUS_SUCCESS, Some Ace).

(** ** Moving bytes *)

(** [for (i = n - 1; i >= 0; i--) To[i + FromSize] = To[i]] *)
Fixpoint move_up (m : list Z) (To FromSize : Z) (n : nat) : option (list Z) :=
  match n with
  | O => Some m
  | S i =>
      b ← UCHAR_at m (To + Z.of_nat i);
      m ← set_UCHAR m (To + u32 (Z.of_nat i + FromSize)) b;
      move_up m To FromSize i
  end.

(** [for (; i < FromSize; i++) To[i] = From[i]], [n] turns left. *)
Fixpoint copy_in (m From : list Z) (To : Z) (i : Z) (n : nat) : option (list Z) :=
  match n with
  | O => Some m
  | S n => b ← UCHAR_at From i; m ← set_UCHAR m (To + i) b; copy_in m From To (i + 1) n
  end.

Definition RtlpAddData (From : list Z) (FromSize : Z) (m : list Z) (To ToSize : Z) : option (list Z) :=
  m ← move_up m To FromSize (Z.to_nat (s32 ToSize));
  copy_in m From To 0 (Z.to_nat FromSize).

(** [for (i = RemoveSize; i < TotalSize; i++) Data[i - RemoveSize] = Data[i]] *)
Fixpoint move_down (m : list Z) (Data RemoveSize i : Z) (n : nat) : option (list Z) :=
  match n with
  | O => Some m
  | S n =>
      b ← UCHAR_at m (Data + i);
      m ← set_UCHAR m (Data + u32 (i - RemoveSize)) b;
      move_down m Data RemoveSize (i + 1) n
  end.

Fixpoint clear (m : list Z) (Data i : Z) (n : nat) : option (list Z) :=
  match n with
  | O => Some m
  | S n => m ← set_UCHAR m (Data + i) 0; clear m Data (i + 1) n
  end.

Definition RtlpDeleteData (m : list Z) (Data RemoveSize TotalSize : Z) : option (list Z) :=
  m ← move_down m Data RemoveSize RemoveSize (Z.to_nat (TotalSize - RemoveSize));
  let i := u32 (TotalSize - RemoveSize) in
  clear m Data i (Z.to_nat (TotalSize - i)).

(** ** Adding and deleting *)

Section Editing.
Variable Acl : Z.

(** The ACEs of AceList; [Some None] is the early return.  The result is Ace and
    NewAceCount. *)
Fixpoint list_loop (fuel : nat) (AceList : list Z) (AceRevision AceListLength Ace NewAceCount : Z)
    : option (option (Z * Z)) :=
  match fuel with
  | O => None
  | S fuel =>
      if Ace <? AceListLength then
        s ← AceSize AceList Ace;
        if (s <? sizeof_ACE_HEADER) || (Ace + s >? AceListLength) then Some None
        else
          t ← AceType AceList Ace;
          if (t >? ACCESS_MAX_MS_V2_ACE_TYPE) && (t <=? ACCESS_MAX_MS_V3_ACE_TYPE) && (AceRevision <? ACL_REVISION3)
          then Some None
          else if (t >? ACCESS_MAX_MS_V3_ACE_TYPE) && (AceRevision <? ACL_REVISION4) then Some None
          else Ace ← NextAce AceList Ace; list_loop fuel AceList AceRevision AceListLength Ace (u32 (NewAceCount + 1))
      else Some (Some (Ace, NewAceCount))
  end.

Fixpoint skip_aces (m : list Z) (n : nat) (Ace : Z) : option Z :=
  match n with O => Some Ace | S n => Ace ← NextAce m Ace; skip_aces m n Ace end.

Definition RtlAddAce (m : list Z) (AceRevision StartingAceIndex : Z) (AceList : list Z) (AceListLength : Z)
    : option (Z * list Z) :=
  f ← find_free Acl m;
  match f with
  | None => Some (STATUS_INVALID_PARAMETER, m)
  | Some FirstFree =>
      r ← AclRevision m; Size ← AclSize m; n ← AceCount m;
      let NewRevision := if u8 AceRevision >? r then u8 AceRevision else r in
      l ← list_loop (S (Z.to_nat AceListLength)) AceList AceRevision AceListLength 0 0;
      match l with
      | None => Some (STATUS_INVALID_PARAMETER, m)
      | Some (Ace, NewAceCount) =>
          if negb (Ace =? AceListLength) then Some (STATUS_INVALID_PARAMETER, m)
          else
            match FirstFree with
            | None => Some (STATUS_BUFFER_TOO_SMALL, m)
            | Some f =>
                if f + AceListLength >? Size then Some (STATUS_BUFFER_TOO_SMALL, m)
                else
                  AcePosition ← skip_aces m (Z.to_nat (Z.min StartingAceIndex n)) FirstAce;
                  m ← RtlpAddData AceList AceListLength m AcePosition (u32 (f - AcePosition));
                  n ← AceCount m;
                  m ← set_USHORT m 4 (u16 (n + NewAceCount));
                  m ← set_UCHAR m 0 NewRevision;
                  Some (STATUS_SUCCESS, m)
            end
      end
  end.

Definition RtlDeleteAce (m : list Z) (AceIndex : Z) : option (Z * list Z) :=
  if negb (RtlValidAcl Acl m) then Some (STATUS_INVALID_PARAMETER, m)
  else
    n ← AceCount m;
    if AceIndex >=? n then Some (STATUS_INVALID_PARAMETER, m)
    else
      '(b, FirstFree) ← RtlFirstFreeAce m;
      if negb b then Some (STATUS_INVALID_PARAMETER, m)
      else
        Ace ← skip_aces m (Z.to_nat AceIndex) FirstAce;
        s ← AceSize m Ace;
        f ← FirstFree;
        m ← RtlpDeleteData m Ace s (u32 (f - Ace));
        n ← AceCount m;
        m ← set_USHORT m 4 (u16 (n - 1));
        Some (STATUS_SUCCESS, m).

(** [Acl->AclRevision > (UCHAR)AceRevision ? Acl->AclRevision : (UCHAR)AceRevision] *)
Definition new_revision (r AceRevision : Z) : Z := if r >? u8 AceRevision then r else u8 AceRevision.

(** [Acl->AceCount++; Acl->AclRevision = NewRevision] *)
Definition count_ace (m : list Z) (NewRevision : Z) : option (list Z) :=
  n ← AceCount m; m ← set_USHORT m 4 (u16 (n + 1)); set_UCHAR m 0 NewRevision.

Definition RtlAddCompoundAce (m : list Z) (AceRevision CompoundAceType AccessMask : Z)
    (ServerSid ClientSid : option (list Z)) : option (Z * list Z) :=
  if negb (RtlValidSid ServerSid) || negb (RtlValidSid ClientSid) then Some (STATUS_INVALID_SID, m)
  else
    r ← AclRevision m;
    if (r >? ACL_REVISION4) || (AceRevision <? ACL_REVISION3) || (AceRevision >? ACL_REVISION4)
    then Some (STATUS_REVISION_MISMATCH, m)
    else
      f ← find_free Acl m;
      match f with
      | None => Some (STATUS_INVALID_ACL, m)
      | Some FirstFree =>
          Server ← ServerSid; Client ← ClientSid;
          c ← SeLengthSid Client 0; s ← SeLengthSid Server 0;
          let Size := u16 (sizeof_KNOWN_COMPOUND_ACE - 4 + c + s) in
          a ← AclSize m;
          if no_room FirstFree Size a then Some (STATUS_ALLOTTED_SPACE_EXCEEDED, m)
          else
            GrantAce ← FirstFree;
            m ← set_UCHAR m (GrantAce + 1) 0;
            m ← set_UCHAR m GrantAce ACCESS_ALLOWED_COMPOUND_ACE_TYPE;
            m ← set_USHORT m (GrantAce + 2) Size;
            m ← set_ULONG m (GrantAce + 4) AccessMask;
            m ← set_USHORT m (GrantAce + 8) CompoundAceType;
            m ← RtlCopySid s m (GrantAce + 12) Server;
            m ← RtlCopySid c m (GrantAce + 12 + s) Client;
            m ← count_ace m (new_revision r AceRevision);
            Some (STATUS_SUCCESS, m)
      end.

(** The flags that are neither inheritance flags nor, in an audit ACE, audit flags. *)
Definition bad_flags (AceFlags : Z) (audit : bool) : bool :=
  let TestedAceFlags := Z.ldiff AceFlags VALID_INHERIT_FLAGS in
  negb (TestedAceFlags =? 0) &&
  negb ((if audit then Z.ldiff TestedAceFlags (Z.lor SUCCESSFUL_ACCESS_ACE_FLAG FAILED_ACCESS_ACE_FLAG)
         else TestedAceFlags) =? 0).

Definition RtlpAddKnownAce (m : list Z) (AceRevision AceFlags AccessMask : Z) (Sid : option (list Z)) (NewType : Z)
    : option (Z * list Z) :=
  if negb (RtlValidSid Sid) then Some (STATUS_INVALID_SID, m)
  else
    r ← AclRevision m;
    if (r >? ACL_REVISION4) || (AceRevision >? ACL_REVISION4) then Some (STATUS_REVISION_MISMATCH, m)
    else if bad_flags AceFlags (NewType =? SYSTEM_AUDIT_ACE_TYPE) then Some (STATUS_INVALID_PARAMETER, m)
    else
      f ← find_free Acl m;
      match f with
      | None => Some (STATUS_INVALID_ACL, m)
      | Some FirstFree =>
          Sid ← Sid; s ← SeLengthSid Sid 0;
          let Size := u16 (sizeof_ACE_HEADER + 4 + s) in
          a ← AclSize m;
          if no_room FirstFree Size a then Some (STATUS_ALLOTTED_SPACE_EXCEEDED, m)
          else
            GrantAce ← FirstFree;
            m ← set_UCHAR m (GrantAce + 1) (u8 AceFlags);
            m ← set_UCHAR m GrantAce NewType;
            m ← set_USHORT m (GrantAce + 2) Size;
            m ← set_ULONG m (GrantAce + 4) AccessMask;
            m ← RtlCopySid s m (GrantAce + 8) Sid;
            m ← count_ace m (new_revision r AceRevision);
            Some (STATUS_SUCCESS, m)
      end.

(** [RtlCopyMemory(Where, Guid, sizeof(GUID)); Where += sizeof(GUID)], if Guid is
    not NULL. *)
Definition copy_guid (m : list Z) (Where : Z) (Guid : option (list Z)) : option (list Z * Z) :=
  match Guid with
  | None => Some (m, Where)
  | Some g => bs ← read g 0 sizeof_GUID; m ← write m Where bs; Some (m, Where + sizeof_GUID)
  end.

Definition guid_flags (ObjectTypeGuid InheritedObjectTypeGuid : option (list Z)) : Z :=
  Z.lor (match ObjectTypeGuid with Some _ => ACE_OBJECT_TYPE_PRESENT | None => 0 end)
        (match InheritedObjectTypeGuid with Some _ => ACE_INHERITED_OBJECT_TYPE_PRESENT | None => 0 end).

(** [if (Guid != NULL) AceSize += sizeof(GUID)] *)
Definition add_guid (Size : Z) (Guid : option (list Z)) : Z :=
  match Guid with Some _ => u16 (Size + sizeof_GUID) | None => Size end.

Definition RtlpAddKnownObjectAce (m : list Z) (AceRevision AceFlags AccessMask : Z)
    (ObjectTypeGuid InheritedObjectTypeGuid Sid : option (list Z)) (NewType : Z) : option (Z * list Z) :=
  if negb (RtlValidSid Sid) then Some (STATUS_INVALID_SID, m)
  else
    r ← AclRevision m;
    if (r >? ACL_REVISION4) || negb (AceRevision =? ACL_REVISION4) then Some (STATUS_REVISION_MISMATCH, m)
    else if bad_flags AceFlags ((NewType =? SYSTEM_AUDIT_ACE_TYPE) || (NewType =? SYSTEM_AUDIT_OBJECT_ACE_TYPE))
    then Some (STATUS_INVALID_PARAMETER, m)
    else
      f ← find_free Acl m;
      match f with
      | None => Some (STATUS_INVALID_ACL, m)
      | Some FirstFree =>
          Sid ← Sid; SidSize ← SeLengthSid Sid 0;
          let Size := u16 (sizeof_ACE_HEADER + 4 + 4 + SidSize) in
          let Size := add_guid (add_guid Size ObjectTypeGuid) InheritedObjectTypeGuid in
          a ← AclSize m;
          if no_room FirstFree Size a then Some (STATUS_ALLOTTED_SPACE_EXCEEDED, m)
          else
            GrantAce ← FirstFree;
            m ← set_UCHAR m (GrantAce + 1) (u8 AceFlags);
            m ← set_UCHAR m GrantAce NewType;
            m ← set_USHORT m (GrantAce + 2) Size;
            m ← set_ULONG m (GrantAce + 4) AccessMask;
            m ← set_ULONG m (GrantAce + 8) (guid_flags ObjectTypeGuid InheritedObjectTypeGuid);
            '(m, Where) ← copy_guid m (GrantAce + 12) ObjectTypeGuid;
            '(m, Where) ← copy_guid m Where InheritedObjectTypeGuid;
            m ← RtlCopySid SidSize m Where Sid;
            m ← count_ace m (new_revision r AceRevision);
            Some (STATUS_SUCCESS, m)
      end.

Definition RtlAddAccessAllowedAce (m : list Z) (AceRevision AccessMask : Z) (Sid : option (list Z)) :=
  RtlpAddKnownAce m AceRevision 0 AccessMask Sid ACCESS_ALLOWED_ACE_TYPE.
Definition RtlAddAccessAllowedAceEx (m : list Z) (AceRevision AceFlags AccessMask : Z) (Sid : option (list Z)) :=
  RtlpAddKnownAce m AceRevision AceFlags AccessMask Sid ACCESS_ALLOWED_ACE_TYPE.
Definition RtlAddAccessDeniedAce (m : list Z) (AceRevision AccessMask : Z) (Sid : option (list Z)) :=
  RtlpAddKnownAce m AceRevision 0 AccessMask Sid ACCESS_DENIED_ACE_TYPE.
Definition RtlAddAccessDeniedAceEx (m : list Z) (AceRevision AceFlags AccessMask : Z) (Sid : option (list Z)) :=
  RtlpAddKnownAce m AceRevision AceFlags AccessMask Sid ACCESS_DENIED_ACE_TYPE.

Definition audit_flags (AceFlags : Z) (AuditSuccess AuditFailure : bool) : Z :=
  let AceFlags := if AuditSuccess then Z.lor AceFlags SUCCESSFUL_ACCESS_ACE_FLAG else AceFlags in
  if AuditFailure then Z.lor AceFlags FAILED_ACCESS_ACE_FLAG else AceFlags.

Definition RtlAddAuditAccessAce (m : list Z) (AceRevision AccessMask : Z) (Sid : option (list Z))
    (AuditSuccess AuditFailure : bool) :=
  RtlpAddKnownAce m AceRevision (audit_flags 0 AuditSuccess AuditFailure) AccessMask Sid SYSTEM_AUDIT_ACE_TYPE.
Definition RtlAddAuditAccessAceEx (m : list Z) (AceRevision AceFlags AccessMask : Z) (Sid : option (list Z))
    (AuditSuccess AuditFailure : bool) :=
  RtlpAddKnownAce m AceRevision (audit_flags AceFlags AuditSuccess AuditFailure) AccessMask Sid SYSTEM_AUDIT_ACE_TYPE.

(** The body of the three routines for object ACEs. *)
Definition add_object_ace (m : list Z) (AceRevision AceFlags AccessMask : Z)
    (ObjectTypeGuid InheritedObjectTypeGuid Sid : option (list Z)) (KnownType ObjectType : Z) :=
  match ObjectTypeGuid, InheritedObjectTypeGuid with
  | None, None => RtlpAddKnownAce m AceRevision AceFlags AccessMask Sid KnownType
  | _, _ => RtlpAddKnownObjectAce m AceRevision AceFlags AccessMask ObjectTypeGuid InheritedObjectTypeGuid Sid ObjectType
  end.

Definition RtlAddAccessAllowedObjectAce (m : list Z) (AceRevision AceFlags AccessMask : Z)
    (ObjectTypeGuid InheritedObjectTypeGuid Sid : option (list Z)) :=
  add_object_ace m AceRevision AceFlags AccessMask ObjectTypeGuid InheritedObjectTypeGuid Sid
    ACCESS_ALLOWED_ACE_TYPE ACCESS_ALLOWED_OBJECT_ACE_TYPE.
Definition RtlAddAccessDeniedObjectAce (m : list Z) (AceRevision AceFlags AccessMask : Z)
    (ObjectTypeGuid InheritedObjectTypeGuid Sid : option (list Z)) :=
  add_object_ace m AceRevision AceFlags AccessMask ObjectTypeGuid InheritedObjectTypeGuid Sid
    ACCESS_DENIED_ACE_TYPE ACCESS_DENIED_OBJECT_ACE_TYPE.
Definition RtlAddAuditAccessObjectAce (m : list Z) (AceRevision AceFlags AccessMask : Z)
    (ObjectTypeGuid InheritedObjectTypeGuid Sid : option (list Z)) (AuditSuccess AuditFailure : bool) :=
  add_object_ace m AceRevision (audit_flags AceFlags AuditSuccess AuditFailure) AccessMask
    ObjectTypeGuid InheritedObjectTypeGuid Sid SYSTEM_AUDIT_ACE_TYPE SYSTEM_AUDIT_OBJECT_ACE_TYPE.

End Editing.

End Acl.
