(* ===== verification/RtlAclLayout.v ===== *)
(** * Access control lists: layout

    What the bytes of an ACL mean.  [is_acl] says that a memory is a header, the
    entries one behind the other, free bytes and bytes that do not belong to the
    ACL; an entry is right ([ace_ok]) when it says its own size and has the contents
    of its type ([ace_form]), which are spelt out field by field, without reference to
    the code that checks them.  The lemmas say what the walks over the entries read,
    RtlValidAcl among them, and how writes change the parts. *)

From S2P Require Import Prelude RtlAcl.

Module AclLayout.

Import Acl.

Abbreviation len l := (Z.of_nat (length l)).

(** ** Memory *)

Lemma le_le_bytes n v : le (le_bytes n v) = v mod 256 ^ Z.of_nat n.
Proof.
  revert v. induction n as [|n IH]; intros v; [by rewrite Z.mod_1_r|].
  cbn [le_bytes]. change (le (?x :: ?l)) with (x + 256 * le l). rewrite IH.
  rewrite Nat2Z.inj_succ, Z.pow_succ_r by lia.
  rewrite (Z.rem_mul_r v 256) by (try apply Z.pow_nonzero; lia). lia.
Qed.

Lemma le_bytes_length n v : length (le_bytes n v) = n.
Proof. revert v. induction n as [|n IH]; intros v; cbn; [|rewrite IH]; done. Qed.

Lemma le_bytes_small n v : 0 <= v < 256 ^ Z.of_nat n -> le (le_bytes n v) = v.
Proof. intros H. rewrite le_le_bytes. by apply Z.mod_small. Qed.

Lemma le16 v : 0 <= v < 65536 -> le [v mod 256; v / 256 mod 256] = v.
Proof. intros H. apply (le_bytes_small 2). done. Qed.

Lemma le_bytes_le bs : Forall (fun b => 0 <= b < 256) bs -> le_bytes (length bs) (le bs) = bs.
Proof.
  induction 1 as [|b bs Hb _ IH]; [done|]. cbn [length le_bytes]. change (le (b :: bs)) with (b + 256 * le bs).
  replace ((b + 256 * le bs) / 256) with (le bs) by zdiv. rewrite IH. f_equal. zdiv.
Qed.

(** [bs] written at [o]. *)
Definition upd (a : list Z) (o : nat) (bs : list Z) : list Z := take o a ++ bs ++ drop (o + length bs) a.

Lemma read_in pre a post o n : 0 <= o -> 0 <= n -> o + n <= len a ->
  read (pre ++ a ++ post) (len pre + o) n = read a o n.
Proof.
  intros Ho Hn H. unfold read. rewrite !length_app.
  destruct (Z.leb_spec 0 (len pre + o)), (Z.leb_spec 0 o); try lia. cbn [andb].
  destruct (Z.leb_spec (len pre + o + n) (Z.of_nat (length pre + (length a + length post)))),
    (Z.leb_spec (o + n) (len a)); try lia. f_equal.
  rewrite drop_app_ge by lia. replace (Z.to_nat (len pre + o) - length pre)%nat with (Z.to_nat o) by lia.
  rewrite drop_app_le by lia. apply take_app_le. rewrite length_drop. lia.
Qed.

Lemma read_head a post o n : 0 <= o -> 0 <= n -> o + n <= len a -> read (a ++ post) o n = read a o n.
Proof. apply (read_in []). Qed.

Lemma write_in pre a post o bs : 0 <= o -> o + len bs <= len a ->
  write (pre ++ a ++ post) (len pre + o) bs = Some (pre ++ upd a (Z.to_nat o) bs ++ post).
Proof.
  intros Ho H. unfold write, upd. rewrite !length_app.
  destruct (Z.leb_spec 0 (len pre + o)); [|lia].
  destruct (Z.leb_spec (len pre + o + len bs) (Z.of_nat (length pre + (length a + length post)))); [|lia].
  cbn [andb]. f_equal.
  replace (Z.to_nat (len pre + o)) with (length pre + Z.to_nat o)%nat by lia.
  rewrite take_app_add, <- Nat.add_assoc, drop_app_add, take_app_le, drop_app_le by lia. by rewrite <- !app_assoc.
Qed.

Lemma write_head a post o bs : 0 <= o -> o + len bs <= len a ->
  write (a ++ post) o bs = Some (upd a (Z.to_nat o) bs ++ post).
Proof. apply (write_in []). Qed.

Lemma upd_length a o bs : (o + length bs <= length a)%nat -> length (upd a o bs) = length a.
Proof. intros. unfold upd. rewrite !length_app, length_take, length_drop. lia. Qed.

Lemma UCHAR_in pre a post o : 0 <= o -> o + 1 <= len a -> UCHAR_at (pre ++ a ++ post) (len pre + o) = UCHAR_at a o.
Proof. intros. unfold UCHAR_at. rewrite read_in by lia. done. Qed.
Lemma USHORT_in pre a post o : 0 <= o -> o + 2 <= len a -> USHORT_at (pre ++ a ++ post) (len pre + o) = USHORT_at a o.
Proof. intros. unfold USHORT_at. rewrite read_in by lia. done. Qed.
Lemma ULONG_in pre a post o : 0 <= o -> o + 4 <= len a -> ULONG_at (pre ++ a ++ post) (len pre + o) = ULONG_at a o.
Proof. intros. unfold ULONG_at. rewrite read_in by lia. done. Qed.

(** A byte can be read where the memory reaches. *)
Lemma UCHAR_some m o : 0 <= o < len m -> UCHAR_at m o = m !! Z.to_nat o.
Proof.
  intros H. unfold UCHAR_at, read. destruct (Z.leb_spec 0 o); [|lia]. destruct (Z.leb_spec (o + 1) (len m)); [|lia].
  cbn [andb fmap option_fmap option_map]. destruct (lookup_lt_is_Some_2 m (Z.to_nat o) ltac:(lia)) as [b Hb].
  rewrite Hb, (drop_S _ _ _ Hb). change (Some (b + 256 * 0) = Some b). f_equal. lia.
Qed.

(** ** Alignment *)

Lemma WordAligned_even p : WordAligned p = Z.even p.
Proof.
  unfold WordAligned. change (-2) with (Z.lnot (Z.ones 1)). rewrite <- Z.ldiff_land, Z.ldiff_ones_r by lia.
  rewrite Z.shiftl_mul_pow2, Z.shiftr_div_pow2 by lia. change (2 ^ 1) with 2. rewrite Zeven_mod.
  destruct (Z.eqb_spec ((p + 1) / 2 * 2) p), (Z.eqb_spec (p mod 2) 0); zdiv || done.
Qed.

Lemma LongAligned_mod p : LongAligned p = (p mod 4 =? 0).
Proof.
  unfold LongAligned. change (-4) with (Z.lnot (Z.ones 2)). rewrite <- Z.ldiff_land, Z.ldiff_ones_r by lia.
  rewrite Z.shiftl_mul_pow2, Z.shiftr_div_pow2 by lia. change (2 ^ 2) with 4.
  destruct (Z.eqb_spec ((p + 3) / 4 * 4) p), (Z.eqb_spec (p mod 4) 0); zdiv || done.
Qed.

(** ** Entries *)

Abbreviation bytes := (Forall (fun b => 0 <= b < 256)).

Lemma UCHAR_byte m o b : bytes m -> UCHAR_at m o = Some b -> 0 <= b < 256.
Proof.
  intros Hm Hb. assert (0 <= o < len m) as Ho.
  { unfold UCHAR_at, read in Hb. destruct (Z.leb_spec 0 o), (Z.leb_spec (o + 1) (len m)); cbn in Hb; try done. lia. }
  rewrite UCHAR_some in Hb by done. by apply (proj1 (Forall_lookup _ _) Hm _ _ Hb).
Qed.

Lemma valid_sid_bound a o s before behind : bytes a -> valid_sid a o s before behind = Some true ->
  exists l, SeLengthSid a o = Some l /\ 8 <= l /\ before + l + behind <= s.
Proof.
  intros Ha. unfold valid_sid, SeLengthSid. destruct (UCHAR_at a o); [|done].
  destruct (UCHAR_at a (o + 1)) as [c|] eqn:Ec; [|done]. apply UCHAR_byte in Ec; [|done]. cbn [mbind option_bind].
  intros [= H%negb_true_iff]. apply orb_false_iff in H as [_ H%Z.ltb_ge]. eexists. split; [done|]. lia.
Qed.

Section Walks.
Variables (pre post : list Z).

(** The entry [a] in its place. *)
Lemma AceSize_in a : 4 <= len a -> AceSize (pre ++ a ++ post) (len pre) = USHORT_at a 2.
Proof. intros H. unfold AceSize. apply USHORT_in; lia. Qed.

Lemma NextAce_in a : 4 <= len a -> USHORT_at a 2 = Some (len a) ->
  NextAce (pre ++ a ++ post) (len pre) = Some (len (pre ++ a)).
Proof. intros H Hs. unfold NextAce. rewrite AceSize_in, Hs by done. cbn. f_equal. rewrite length_app. lia. Qed.

Lemma AceType_in a : 1 <= len a -> AceType (pre ++ a ++ post) (len pre) = AceType a 0.
Proof. intros H. unfold AceType. rewrite <- (Z.add_0_r (len pre)). apply UCHAR_in; lia. Qed.

Lemma SeLengthSid_in a o : 0 <= o -> o + 2 <= len a ->
  SeLengthSid (pre ++ a ++ post) (len pre + o) = SeLengthSid a o.
Proof. intros. unfold SeLengthSid. rewrite <- Z.add_assoc, UCHAR_in by lia. done. Qed.

Lemma valid_sid_in a o s before behind : 0 <= o -> o + 2 <= len a ->
  valid_sid (pre ++ a ++ post) (len pre + o) s before behind = valid_sid a o s before behind.
Proof.
  intros. unfold valid_sid. rewrite SeLengthSid_in, <- Z.add_assoc, !UCHAR_in by lia. done.
Qed.

Lemma object_flags_in a : 12 <= len a ->
  RtlObjectAceObjectTypePresent (pre ++ a ++ post) (len pre) = RtlObjectAceObjectTypePresent a 0 /\
  RtlObjectAceInheritedObjectTypePresent (pre ++ a ++ post) (len pre) = RtlObjectAceInheritedObjectTypePresent a 0.
Proof.
  intros H. unfold RtlObjectAceObjectTypePresent, RtlObjectAceInheritedObjectTypePresent.
  rewrite !ULONG_in by lia. done.
Qed.

Lemma valid_compound_in Revision a : 4 <= len a -> bytes a ->
  valid_compound (pre ++ a ++ post) Revision (len pre) (len a) = valid_compound a Revision 0 (len a).
Proof.
  intros H Hb. unfold valid_compound. destruct (_ || _ || _) eqn:E; [done|]. apply orb_false_iff in E as [_ E%Z.ltb_ge].
  unfold sizeof_KNOWN_COMPOUND_ACE, sizeof_SID in *. rewrite USHORT_in by lia. change (0 + 8) with 8.
  destruct (USHORT_at a 8) as [t'|]; [|done]. cbn [mbind option_bind]. destruct (negb _); [done|].
  rewrite valid_sid_in, SeLengthSid_in by lia. change (0 + 12) with 12.
  destruct (valid_sid a 12 _ _ _) as [[]|] eqn:Ev; try done. apply valid_sid_bound in Ev as (l & El & Hl); [|done..].
  rewrite El. cbn [mbind option_bind negb]. rewrite <- (Z.add_assoc (len pre)). apply valid_sid_in; lia.
Qed.

Lemma valid_object_in Revision a : 4 <= len a ->
  valid_object (pre ++ a ++ post) Revision (len pre) (len a) = valid_object a Revision 0 (len a).
Proof.
  intros H. unfold valid_object. destruct (_ || _ || _) eqn:E; [done|]. apply orb_false_iff in E as [_ E%Z.ltb_ge].
  unfold RtlObjectAceSid, sizeof_KNOWN_OBJECT_ACE, sizeof_SID, sizeof_GUID in *.
  destruct (object_flags_in a) as [-> ->]; [lia|].
  destruct (RtlObjectAceObjectTypePresent a 0) as [o|]; [|done].
  destruct (RtlObjectAceInheritedObjectTypePresent a 0) as [i|]; [|done]. cbn [mbind option_bind].
  destruct (Z.ltb_spec (len a) (16 - 4 + ((if o then 16 else 0) + (if i then 16 else 0)) + 12)); [done|].
  rewrite <- !(Z.add_assoc (len pre)). apply valid_sid_in; destruct o, i; lia.
Qed.

(** What the validation of an entry reads lies in the entry. *)
Lemma valid_ace_in Revision a : 4 <= len a -> bytes a ->
  valid_ace (pre ++ a ++ post) Revision (len pre) (len a) = valid_ace a Revision 0 (len a).
Proof.
  intros H Hb. unfold valid_ace. rewrite AceType_in by lia. destruct (AceType a 0) as [t|]; [|done]. cbn [mbind option_bind].
  rewrite valid_compound_in, valid_object_in by done.
  destruct (IsKnownAceType t); [|done].
  unfold valid_known. destruct (negb _ || _) eqn:E; [done|]. apply orb_false_iff in E as [_ E%Z.ltb_ge].
  unfold sizeof_KNOWN_ACE, sizeof_SID in E. apply valid_sid_in; lia.
Qed.

End Walks.

(** *** The contents of an entry *)

(** The bytes of a SID: revision 1, the number of sub-authorities, at most 15, six bytes
    of authority, and four bytes for each sub-authority. *)
Definition sid_form (s : list Z) : Prop :=
  exists n rest, s = 1 :: n :: rest /\ 0 <= n <= 15 /\ len rest = 6 + 4 * n.

(** The contents of an entry, in an ACL of the given revision.  After type, flags and
    size:
    - types 0 to 3: an access mask and a SID;
    - type 4 (compound), from revision 3 on: a mask, the compound type 1, two
      reserved bytes, the SID of the server and that of the client, with room for one
      sub-authority in the latter;
    - types 5 to 8 (object), from revision 4 on: a mask, the flags, a GUID for each of
      the two lowest bits that is set, and a SID, with room for one sub-authority;
    - any other type: anything.
    Bytes may follow, to a multiple of four in the first three cases. *)
Inductive ace_form (Revision : Z) : list Z -> Prop :=
  | known_form t f s0 s1 mask sid more :
      0 <= t <= 3 -> len mask = 4 -> sid_form sid -> len (mask ++ sid ++ more) mod 4 = 0 ->
      ace_form Revision ([t; f; s0; s1] ++ mask ++ sid ++ more)
  | compound_form f s0 s1 mask reserved server client more :
      3 <= Revision -> len mask = 4 -> len reserved = 2 -> sid_form server -> sid_form client ->
      12 <= len (client ++ more) -> len (server ++ client ++ more) mod 4 = 0 ->
      ace_form Revision ([4; f; s0; s1] ++ mask ++ [1; 0] ++ reserved ++ server ++ client ++ more)
  | object_form t f s0 s1 mask flags guids sid more :
      4 <= Revision -> 5 <= t <= 8 -> len mask = 4 -> len flags = 4 ->
      len guids = (if Z.testbit (le flags) 0 then 16 else 0) + (if Z.testbit (le flags) 1 then 16 else 0) ->
      sid_form sid -> 12 <= len (sid ++ more) -> len (guids ++ sid ++ more) mod 4 = 0 ->
      ace_form Revision ([t; f; s0; s1] ++ mask ++ flags ++ guids ++ sid ++ more)
  | other_form t f s0 s1 more : 9 <= t -> ace_form Revision ([t; f; s0; s1] ++ more).

Lemma bytes_split_at (n : nat) (l : list Z) : (n <= length l)%nat -> exists a b, l = a ++ b /\ length a = n.
Proof. intros H. exists (take n l), (drop n l). rewrite take_drop, length_take. split; [done|lia]. Qed.

(** A SID at the end of [pre], with [behind] bytes after it. *)
Lemma valid_sid_form pre r size before behind : bytes r -> 2 <= len r -> 0 <= behind -> size - before = len r ->
  valid_sid (pre ++ r) (len pre) size before behind = Some true <->
  exists sid more, r = sid ++ more /\ sid_form sid /\ behind <= len more.
Proof.
  intros Hb H2 Hbeh Hs. destruct r as [|x [|c r]]; [cbn in H2; lia..|].
  do 2 apply Forall_cons_1 in Hb as [? Hb].
  unfold valid_sid, SeLengthSid.
  assert (forall o y, 0 <= o < 2 -> (x :: c :: r) !! Z.to_nat o = Some y -> UCHAR_at (pre ++ x :: c :: r) (len pre + o) = Some y) as Hat.
  { intros o y Ho Hy. rewrite <- (app_nil_r (x :: c :: r)), UCHAR_in by (cbn [length]; lia). by rewrite UCHAR_some by (cbn [length]; lia). }
  rewrite <- (Z.add_0_r (len pre)) at 1. rewrite (Hat 0 x), (Hat 1 c) by (done || lia). cbn [mbind option_bind].
  unfold SID_REVISION, SID_MAX_SUB_AUTHORITIES. cbn [length] in Hs. split.
  - intros [= Hv%negb_true_iff]. apply orb_false_iff in Hv as [[Hr Hn]%orb_false_iff Hl%Z.ltb_ge].
    apply negb_false_iff, Z.eqb_eq in Hr as ->. rewrite Z.gtb_ltb in Hn. apply Z.ltb_ge in Hn.
    destruct (bytes_split_at (Z.to_nat (6 + 4 * c)) r) as (a & more & -> & Ha); [lia|]. rewrite length_app in Hs.
    exists (1 :: c :: a), more. split; [done|]. split; [exists c, a; split; [done|lia]|lia].
  - intros (sid & more & E & (n & rest & -> & Hn & Hl) & Hm). injection E as -> -> ->. rewrite length_app in Hs.
    f_equal. apply negb_true_iff, orb_false_iff. split; [apply orb_false_iff; split; [done|lia]|lia].
Qed.

Lemma land_testbit f k : 0 <= k -> negb (Z.land f (2 ^ k) =? 0) = Z.testbit f k.
Proof.
  intros Hk. destruct (Z.testbit f k) eqn:E.
  - apply negb_true_iff, Z.eqb_neq. intros H. apply (f_equal (fun x => Z.testbit x k)) in H.
    by rewrite Z.land_spec, E, Z.pow2_bits_true, Z.bits_0 in H.
  - apply negb_false_iff, Z.eqb_eq, Z.bits_inj'. intros b Hb. rewrite Z.land_spec, Z.bits_0, Z.pow2_bits_eqb by done.
    destruct (Z.eqb_spec k b) as [<-|]; [by rewrite E|apply andb_false_r].
Qed.

Lemma valid_known_form h mask r : length h = 4%nat -> len mask = 4 -> bytes r ->
  valid_known (h ++ mask ++ r) 0 (len (h ++ mask ++ r)) = Some true <->
  len (mask ++ r) mod 4 = 0 /\ exists sid more, r = sid ++ more /\ sid_form sid.
Proof.
  intros Hh Hm Hb. unfold valid_known. rewrite LongAligned_mod.
  assert (len (h ++ mask ++ r) = 8 + len r /\ len (mask ++ r) = 4 + len r) as [-> ->] by (rewrite !length_app; lia).
  unfold sizeof_KNOWN_ACE, sizeof_SID.
  assert ((8 + len r) mod 4 = 0 <-> (4 + len r) mod 4 = 0) as Hmod by zdiv.
  destruct (Z.eqb_spec ((8 + len r) mod 4) 0) as [H4|H4]; cbn [negb orb].
  2: { split; [done|]. intros [? _]. tauto. }
  destruct (Z.ltb_spec (8 + len r) (12 - 4 + 12 - 4)) as [Hl|Hl].
  { split; [done|]. intros (_ & sid & more & -> & n & rest & -> & Hn & Hr). rewrite length_app in Hl. cbn [length] in Hl. lia. }
  rewrite (app_assoc h mask r). replace (0 + 8) with (len (h ++ mask)) by (rewrite length_app; lia).
  rewrite valid_sid_form by (done || lia). split.
  - intros (sid & more & H). split; [tauto|]. exists sid, more. tauto.
  - intros (_ & sid & more & H). exists sid, more. split; [tauto|]. split; [tauto|lia].
Qed.

Lemma sid_form_len s : sid_form s -> 8 <= len s /\ len s mod 4 = 0.
Proof. intros (n & rest & -> & Hn & Hr). cbn [length]. split; [lia|zdiv]. Qed.

Lemma SeLengthSid_form pre sid more : sid_form sid -> SeLengthSid (pre ++ sid ++ more) (len pre) = Some (len sid).
Proof.
  intros Hs. pose proof (sid_form_len sid Hs). rewrite <- (Z.add_0_r (len pre)), SeLengthSid_in by lia.
  destruct Hs as (n & rest & -> & Hn & Hr). unfold SeLengthSid. rewrite UCHAR_some by (cbn [length]; lia).
  transitivity (Some (8 + 4 * n)); [done|]. f_equal. cbn [length]. lia.
Qed.

(** The two SIDs of a compound entry. *)
Lemma valid_sids_form p r size : bytes r -> len p = 12 -> size = 12 + len r -> 12 <= len r ->
  (v ← valid_sid (p ++ r) 12 size 12 12;
   if negb v then Some false
   else l ← SeLengthSid (p ++ r) 12; valid_sid (p ++ r) (12 + l) size (12 + l) 0) = Some true <->
  exists server client more, r = server ++ client ++ more /\ sid_form server /\ sid_form client /\ 12 <= len (client ++ more).
Proof.
  intros Hb Hp -> H12. pose proof (valid_sid_form p r (12 + len r) 12 12 Hb ltac:(lia) ltac:(lia) ltac:(lia)) as H1. rewrite Hp in H1.
  assert (forall server r', r = server ++ r' -> sid_form server -> 12 <= len r' ->
    (l ← SeLengthSid (p ++ r) 12; valid_sid (p ++ r) (12 + l) (12 + len r) (12 + l) 0) = Some true <->
    exists client more, r' = client ++ more /\ sid_form client) as H2.
  { intros server r' -> Hs H12'. pose proof (SeLengthSid_form p server r' Hs) as El. rewrite Hp in El. rewrite El. cbn [mbind option_bind].
    apply Forall_app in Hb as [_ Hb]. rewrite app_assoc, !length_app. replace (12 + len server) with (len (p ++ server)) by (rewrite length_app; lia).
    rewrite valid_sid_form; [|done|lia|lia|rewrite length_app; lia]. split; intros (client & more & H); exists client, more; [tauto|].
    split; [tauto|]. split; [tauto|lia]. }
  split.
  - destruct (valid_sid (p ++ r) 12 _ 12 12) as [[]|]; [|done..]. cbn [mbind option_bind negb]. intros Hv.
    destruct (proj1 H1 eq_refl) as (server & r' & E & Hs & Hr). apply (H2 server r' E Hs Hr) in Hv as (client & more & -> & Hc).
    by exists server, client, more.
  - intros (server & client & more & E & Hs & Hc & Hm). rewrite (proj2 H1) by (by exists server, (client ++ more)).
    cbn [mbind option_bind negb]. apply (H2 server (client ++ more) E Hs Hm). by exists client, more.
Qed.

Lemma valid_compound_form Revision h mask r : length h = 4%nat -> len mask = 4 -> bytes r ->
  valid_compound (h ++ mask ++ r) Revision 0 (len (h ++ mask ++ r)) = Some true <->
  3 <= Revision /\ exists reserved server client more, r = [1; 0] ++ reserved ++ server ++ client ++ more /\
    len reserved = 2 /\ sid_form server /\ sid_form client /\ 12 <= len (client ++ more) /\
    len (server ++ client ++ more) mod 4 = 0.
Proof.
  intros Hh Hm Hb. unfold valid_compound. rewrite LongAligned_mod.
  assert (len (h ++ mask ++ r) = 8 + len r) as -> by (rewrite !length_app; lia).
  unfold ACL_REVISION3, sizeof_KNOWN_COMPOUND_ACE, sizeof_SID, COMPOUND_ACE_IMPERSONATION.
  destruct (Z.ltb_spec Revision 3) as [H3|H3]; cbn [orb]; [split; [done|]; intros [? _]; lia|].
  destruct (Z.ltb_spec (8 + len r) (16 - 4 + 12)) as [Hl|Hl].
  { rewrite orb_true_r. split; [done|]. intros (_ & rs & sv & cl & more & -> & Hrs & Hs & _ & H12 & _).
    apply sid_form_len in Hs. rewrite !length_app in *. cbn [length] in Hl. lia. }
  rewrite orb_false_r. destruct r as [|b0 [|b1 [|r0 [|r1 r]]]]; try (cbn [length] in Hl; lia).
  do 4 apply Forall_cons_1 in Hb as [? Hb]. cbn [length] in Hl |- *.
  set (size := 8 + Z.of_nat (S (S (S (S (length r)))))). assert (size = 12 + len r) as Hsz by lia. clearbody size.
  assert (size mod 4 = len r mod 4) as -> by (rewrite Hsz; zdiv).
  assert (USHORT_at (h ++ mask ++ b0 :: b1 :: r0 :: r1 :: r) (0 + 8) = Some (b0 + 256 * (b1 + 256 * 0))) as ->.
  { unfold USHORT_at. rewrite (app_assoc h). replace (0 + 8) with (len (h ++ mask) + 0) by (rewrite length_app; lia).
    change (b0 :: b1 :: r0 :: r1 :: r) with ([b0; b1] ++ r0 :: r1 :: r). by rewrite read_in by (cbn [length]; lia). }
  cbn [mbind option_bind]. set (p := h ++ mask ++ [b0; b1; r0; r1]).
  assert (len p = 12) as Hp by (unfold p; rewrite !length_app; cbn [length]; lia).
  replace (h ++ mask ++ b0 :: b1 :: r0 :: r1 :: r) with (p ++ r) by (unfold p; by rewrite <- !app_assoc).
  change (0 + 12) with 12. change (16 - 4) with 12.
  pose proof (valid_sids_form p r size Hb Hp Hsz ltac:(lia)) as Hv. split.
  - destruct (Z.eqb_spec (len r mod 4) 0) as [H4|H4]; cbn [negb]; [|done].
    destruct (Z.eqb_spec (b0 + 256 * (b1 + 256 * 0)) 1) as [Ht|Ht]; cbn [negb]; [|done].
    assert (b0 = 1 /\ b1 = 0) as [-> ->] by lia. intros (sv & cl & more & -> & Hs)%Hv. split; [lia|].
    exists [r0; r1], sv, cl, more. split; [done|]. split; [done|]. tauto.
  - intros (_ & rs & sv & cl & more & E & Hrs & Hs & Hc & H12 & H4). destruct rs as [|? [|? [|]]]; try (cbn [length] in Hrs; lia).
    cbn in E. injection E as -> -> _ _ ->. rewrite (proj2 (Z.eqb_eq _ _) H4). cbn [negb Z.eqb]. apply Hv. by exists sv, cl, more.
Qed.

Lemma valid_object_form Revision h mask r : length h = 4%nat -> len mask = 4 -> bytes r ->
  valid_object (h ++ mask ++ r) Revision 0 (len (h ++ mask ++ r)) = Some true <->
  4 <= Revision /\ exists flags guids sid more, r = flags ++ guids ++ sid ++ more /\ len flags = 4 /\
    len guids = (if Z.testbit (le flags) 0 then 16 else 0) + (if Z.testbit (le flags) 1 then 16 else 0) /\
    sid_form sid /\ 12 <= len (sid ++ more) /\ len (guids ++ sid ++ more) mod 4 = 0.
Proof.
  intros Hh Hm Hb. unfold valid_object. rewrite LongAligned_mod.
  assert (len (h ++ mask ++ r) = 8 + len r) as -> by (rewrite !length_app; lia).
  unfold ACL_REVISION4, sizeof_KNOWN_OBJECT_ACE, sizeof_SID, sizeof_GUID.
  destruct (Z.ltb_spec Revision 4) as [H4|H4]; cbn [orb]; [split; [done|]; intros [? _]; lia|].
  destruct (Z.ltb_spec (8 + len r) (16 - 4)) as [Hl|Hl].
  { rewrite orb_true_r. split; [done|]. intros (_ & fl & gs & sid & more & -> & Hf & _). rewrite !length_app in Hl. lia. }
  rewrite orb_false_r. destruct (bytes_split_at 4 r) as (fl & r' & -> & Hf); [lia|]. apply Forall_app in Hb as [_ Hb].
  assert (ULONG_at (h ++ mask ++ fl ++ r') (0 + 8) = Some (le fl)) as Hu.
  { unfold ULONG_at. rewrite (app_assoc h). replace (0 + 8) with (len (h ++ mask) + 0) by (rewrite length_app; lia).
    rewrite read_in by lia. do 4 (destruct fl as [|? fl]; [done|]). by destruct fl. }
  unfold RtlObjectAceSid, RtlObjectAceObjectTypePresent, RtlObjectAceInheritedObjectTypePresent. rewrite Hu. cbn [mbind option_bind].
  change ACE_OBJECT_TYPE_PRESENT with (2 ^ 0). change ACE_INHERITED_OBJECT_TYPE_PRESENT with (2 ^ 1). rewrite !land_testbit by lia.
  unfold sizeof_GUID. set (g := (if Z.testbit (le fl) 0 then 16 else 0) + (if Z.testbit (le fl) 1 then 16 else 0)).
  assert (g mod 4 = 0 /\ 0 <= g) as [Hg Hg0] by (unfold g; destruct (Z.testbit _ 0), (Z.testbit _ 1); split; done || lia).
  replace (0 + 12 + (if Z.testbit (le fl) 0 then 16 else 0) + (if Z.testbit (le fl) 1 then 16 else 0)) with (12 + g) by (unfold g; lia).
  rewrite length_app. replace (8 + Z.of_nat (length fl + length r')) with (12 + len r') by lia. split.
  - destruct (Z.eqb_spec ((12 + len r') mod 4) 0) as [H4'|]; cbn [negb]; [|done].
    destruct (Z.ltb_spec (12 + len r') (16 - 4 + g + 12)) as [|Hl']; [done|].
    destruct (bytes_split_at (Z.to_nat g) r') as (gs & r & -> & Hgs); [lia|]. apply Forall_app in Hb as [_ Hb]. rewrite length_app in *.
    intros Hv. split; [lia|]. rewrite !app_assoc in Hv. replace (12 + g) with (len (((h ++ mask) ++ fl) ++ gs)) in Hv by (rewrite !length_app; lia).
    apply valid_sid_form in Hv as (sid & more & -> & Hs & _); [|done|lia..]. exists fl, gs, sid, more. rewrite ?length_app in *.
    split; [done|]. split; [lia|]. split; [lia|]. split; [done|]. split; [lia|]. zdiv.
  - intros (_ & fl' & gs & sid & more & E & Hf' & Hgs & Hs & H12 & Hmod). apply app_inj_1 in E as [<- ->]; [|lia]. fold g in Hgs.
    rewrite !length_app in *. apply Forall_app in Hb as [_ Hb].
    destruct (Z.eqb_spec ((12 + Z.of_nat (length gs + (length sid + length more))) mod 4) 0) as [|Hne]; [|exfalso; apply Hne; zdiv]. cbn [negb].
    destruct (Z.ltb_spec (12 + Z.of_nat (length gs + (length sid + length more))) (16 - 4 + g + 12)); [lia|].
    rewrite (app_assoc h), (app_assoc (h ++ mask)), (app_assoc ((h ++ mask) ++ fl)).
    replace (12 + g) with (len (((h ++ mask) ++ fl) ++ gs)) by (rewrite !length_app; lia).
    apply valid_sid_form; [done|rewrite length_app; lia|lia|rewrite length_app; lia|]. exists sid, more. split; [done|]. split; [done|lia].
Qed.

(** An entry that has contents has a mask. *)
Lemma valid_mask Revision h a : length h = 4%nat ->
  valid_known (h ++ a) 0 (len (h ++ a)) = Some true \/ valid_compound (h ++ a) Revision 0 (len (h ++ a)) = Some true \/
  valid_object (h ++ a) Revision 0 (len (h ++ a)) = Some true ->
  exists mask r, a = mask ++ r /\ length mask = 4%nat.
Proof.
  intros Hh Hv. apply (bytes_split_at 4). destruct (Nat.ltb_spec (length a) 4) as [Hs|]; [exfalso|done].
  assert (len (h ++ a) < 8) as Hl by (rewrite length_app; lia). revert Hl Hv.
  unfold valid_known, valid_compound, valid_object, sizeof_KNOWN_ACE, sizeof_SID, sizeof_KNOWN_COMPOUND_ACE, sizeof_KNOWN_OBJECT_ACE.
  intros Hl. destruct (Z.ltb_spec (len (h ++ a)) (12 - 4 + 12 - 4)), (Z.ltb_spec (len (h ++ a)) (16 - 4 + 12)),
    (Z.ltb_spec (len (h ++ a)) (16 - 4)); try lia. rewrite !orb_true_r. by intros [|[|]].
Qed.

(** What RtlValidAcl asks of an entry by itself is that it has the form of its type. *)
Lemma valid_ace_form Revision a : bytes a -> 4 <= len a ->
  valid_ace a Revision 0 (len a) = Some true <-> ace_form Revision a.
Proof.
  intros Hb H4. destruct a as [|t [|f [|s0 [|s1 a]]]]; try (cbn [length] in H4; lia). clear H4.
  do 4 apply Forall_cons_1 in Hb as [? Hb]. change (t :: f :: s0 :: s1 :: a) with ([t; f; s0; s1] ++ a).
  unfold valid_ace. assert (AceType ([t; f; s0; s1] ++ a) 0 = Some t) as -> by (unfold AceType; by rewrite UCHAR_some by (cbn [length app]; lia)).
  cbn [mbind option_bind].
  unfold IsKnownAceType, IsCompoundAceType, IsObjectAceType, ACCESS_MIN_MS_OBJECT_ACE_TYPE, ACCESS_MAX_MS_OBJECT_ACE_TYPE,
      ACCESS_MIN_MS_ACE_TYPE, ACCESS_MAX_MS_V2_ACE_TYPE, ACCESS_ALLOWED_COMPOUND_ACE_TYPE.
  pose proof (valid_mask Revision [t; f; s0; s1] a eq_refl) as Hmask.
  destruct (Z.geb_spec t 0); [|lia]. destruct (Z.leb_spec t 3); cbn [andb].
  { split.
    - intros Hv. destruct Hmask as (mask & r & -> & Hm); [by eauto|]. apply Forall_app in Hb as [_ Hb].
      apply valid_known_form in Hv as (Hmod & sid & more & -> & Hs); [|done|lia|done]. apply known_form; done || lia.
    - intros Hf. inversion Hf; subst; try lia. apply Forall_app in Hb as [_ Hb]. apply valid_known_form; [done..|].
      split; [done|]. by eexists _, _. }
  destruct (Z.eqb_spec t 4) as [->|].
  { split.
    - intros Hv. destruct Hmask as (mask & r & -> & Hm); [by eauto|]. apply Forall_app in Hb as [_ Hb].
      apply valid_compound_form in Hv as (HR & rs & sv & cl & more & -> & Hr & Hs & Hc & H12 & Hmod); [|done|lia|done].
      apply compound_form; done || lia.
    - intros Hf. inversion Hf; subst; try lia. apply Forall_app in Hb as [_ Hb]. apply valid_compound_form; [done..|].
      split; [done|]. by eexists _, _, _, _. }
  destruct (Z.geb_spec t 5); [|lia]. destruct (Z.leb_spec t 8); cbn [andb].
  { split.
    - intros Hv. destruct Hmask as (mask & r & -> & Hm); [by eauto|]. apply Forall_app in Hb as [_ Hb].
      apply valid_object_form in Hv as (HR & fl & gs & sid & more & -> & Hfl & Hg & Hs & H12 & Hmod); [|done|lia|done].
      apply object_form; done || lia.
    - intros Hf. inversion Hf; subst; try lia. apply Forall_app in Hb as [_ Hb]. apply valid_object_form; [done..|].
      split; [done|]. by eexists _, _, _, _. }
  split; [intros _; apply other_form; lia|done].
Qed.

(** An entry by itself: it says its size, and has the contents of its type. *)
Record ace_ok (Revision : Z) (a : list Z) : Prop := mkAceOk {
  ace_bytes : bytes a;
  ace_least : 4 <= len a;
  ace_size : USHORT_at a 2 = Some (len a);
  ace_content : ace_form Revision a }.

Lemma ace_valid Revision a : ace_ok Revision a -> valid_ace a Revision 0 (len a) = Some true.
Proof. intros [Hb H4 _ Hf]. by apply valid_ace_form. Qed.

(** ** Lists of entries *)

Section Lists.
Variable Acl : Z.

(** Every entry begins at an even address. *)
Fixpoint aligned (o : Z) (aces : list (list Z)) : Prop :=
  match aces with [] => True | a :: aces => Z.even (Acl + o) = true /\ aligned (o + len a) aces end.

Lemma even_aligned o aces : Z.even (Acl + o) = true -> Forall (fun a => Z.even (len a) = true) aces -> aligned o aces.
Proof.
  intros Ho Ha. revert o Ho. induction Ha as [|a aces Ha _ IH]; intros o Ho; [done|]. split; [done|]. apply IH.
  by rewrite Z.add_assoc, Z.even_add, Ho, Ha.
Qed.

Lemma concat_cons_mem pre a (aces : list (list Z)) post :
  pre ++ concat (a :: aces) ++ post = (pre ++ a) ++ concat aces ++ post.
Proof. cbn. by rewrite <- !app_assoc. Qed.

Lemma skip_aces_in pre aces post n : Forall (fun a => 4 <= len a /\ USHORT_at a 2 = Some (len a)) aces ->
  (n <= length aces)%nat ->
  skip_aces (pre ++ concat aces ++ post) n (len pre) = Some (len (pre ++ concat (take n aces))).
Proof.
  intros Ha. revert pre n. induction Ha as [|a aces [H4 Hs] _ IH]; intros pre n Hn.
  - destruct n; [|cbn in Hn; lia]. cbn. by rewrite app_nil_r.
  - destruct n as [|n]; cbn [skip_aces take].
    + by rewrite app_nil_r.
    + rewrite concat_cons_mem, <- app_assoc, NextAce_in by done. cbn [mbind option_bind].
      rewrite app_assoc, IH by (cbn in Hn; lia). by rewrite concat_cons, <- app_assoc.
Qed.

Lemma free_loop_in pre aces post Size : Forall (fun a => 4 <= len a /\ USHORT_at a 2 = Some (len a)) aces ->
  len (pre ++ concat aces) <= Size ->
  free_loop (pre ++ concat aces ++ post) Size (length aces) (len pre) = Some (Some (len (pre ++ concat aces))).
Proof.
  intros Ha. revert pre. induction Ha as [|a aces [H4 Hs] _ IH]; intros pre Hn; cbn [free_loop length].
  - by rewrite app_nil_r.
  - rewrite concat_cons, !length_app in Hn. rewrite concat_cons_mem, <- app_assoc, NextAce_in, AceSize_in, Hs by done.
    cbn [mbind option_bind]. destruct (Z.gtb_spec (len pre + sizeof_ACE_HEADER) Size); [unfold sizeof_ACE_HEADER in *; lia|].
    destruct (Z.ltb_spec (len a) sizeof_ACE_HEADER); [unfold sizeof_ACE_HEADER in *; lia|].
    destruct (Z.gtb_spec (len pre + len a) Size); [lia|]. cbn [orb].
    rewrite app_assoc, IH by (rewrite !length_app; lia). by rewrite concat_cons, <- app_assoc.
Qed.

Lemma get_loop_in pre aces post Size n : Forall (fun a => 4 <= len a /\ USHORT_at a 2 = Some (len a)) aces ->
  len (pre ++ concat aces) <= Size -> (n <= length aces)%nat ->
  get_loop (pre ++ concat aces ++ post) Size n (len pre) = Some (true, len (pre ++ concat (take n aces))).
Proof.
  intros Ha. revert pre n. induction Ha as [|a aces [H4 Hs] _ IH]; intros pre n Hsz Hn.
  - destruct n; [|cbn in Hn; lia]. cbn. by rewrite app_nil_r.
  - rewrite concat_cons, !length_app in Hsz. destruct n as [|n]; cbn [get_loop take]; [by rewrite app_nil_r|].
    destruct (Z.gtb_spec (len pre + sizeof_ACE_HEADER) Size); [unfold sizeof_ACE_HEADER in *; lia|].
    rewrite concat_cons_mem, <- app_assoc, NextAce_in by done. cbn [mbind option_bind].
    rewrite app_assoc, IH by (rewrite ?length_app; cbn in Hn; lia). by rewrite concat_cons, <- app_assoc.
Qed.

Lemma aces_shape Revision aces : Forall (ace_ok Revision) aces ->
  Forall (fun a => 4 <= len a /\ USHORT_at a 2 = Some (len a)) aces.
Proof. apply Forall_impl. by intros a []. Qed.

(** RtlValidAcl accepts right entries ... *)
Lemma valid_aces_ok Revision pre aces post Size : Forall (ace_ok Revision) aces -> aligned (len pre) aces ->
  len (pre ++ concat aces) <= Size ->
  valid_aces Acl (pre ++ concat aces ++ post) Revision Size (length aces) (len pre) = Some true.
Proof.
  intros Ha. revert pre. induction Ha as [|a aces Hok _ IH]; intros pre Hal Hn; cbn [valid_aces length]; [done|].
  pose proof (ace_valid _ _ Hok) as Hv. destruct Hok as [Hb H4 Hs _].
  destruct Hal as [He Hal]. rewrite concat_cons, !length_app in Hn.
  rewrite concat_cons_mem, <- app_assoc, NextAce_in, AceSize_in, Hs by done. cbn [mbind option_bind].
  rewrite valid_ace_in, Hv by done. cbn [mbind option_bind negb]. rewrite WordAligned_even, Z.even_add, He. cbn [Bool.eqb negb orb].
  destruct (Z.gtb_spec (len pre + sizeof_ACE_HEADER) Size); [unfold sizeof_ACE_HEADER in *; lia|].
  destruct (Z.ltb_spec (len a) sizeof_ACE_HEADER); [unfold sizeof_ACE_HEADER in *; lia|].
  destruct (Z.gtb_spec (len pre + len a) Size); [lia|]. cbn [orb]. rewrite app_assoc. apply IH.
  - by rewrite length_app, Nat2Z.inj_add.
  - rewrite !length_app. lia.
Qed.

(** ... and nothing else. *)
Lemma valid_aces_inv Revision pre body post n : bytes body ->
  valid_aces Acl (pre ++ body ++ post) Revision (len (pre ++ body)) n (len pre) = Some true ->
  exists aces room, body = concat aces ++ room /\ length aces = n /\ Forall (ace_ok Revision) aces /\ aligned (len pre) aces.
Proof.
  revert pre body. induction n as [|n IH]; intros pre body Hb; cbn [valid_aces].
  { intros _. by exists [], body. }
  destruct (Z.gtb_spec (len pre + sizeof_ACE_HEADER) (len (pre ++ body))) as [|H4]; [done|].
  unfold sizeof_ACE_HEADER in H4. rewrite length_app in *.
  destruct (AceSize (pre ++ body ++ post) (len pre)) as [s|] eqn:Es; [|done]. cbn [mbind option_bind].
  destruct (negb _ || _ || _) eqn:E; [done|]. apply orb_false_iff in E as [[Ew Ex]%orb_false_iff Ey].
  apply negb_false_iff in Ew. apply Z.ltb_ge in Ex. rewrite Z.gtb_ltb in Ey. apply Z.ltb_ge in Ey. unfold sizeof_ACE_HEADER in *.
  rewrite AceSize_in in Es by lia.
  set (a := take (Z.to_nat s) body). set (rest := drop (Z.to_nat s) body).
  assert (body = a ++ rest) as Hbody by (symmetry; apply take_drop). assert (len a = s) as Hs by (subst a; rewrite length_take; lia).
  rewrite Hbody in Hb, Es |- *. apply Forall_app in Hb as [Ha Hr].
  unfold USHORT_at in Es. rewrite read_head in Es by lia. fold (USHORT_at a 2) in Es.
  rewrite <- (app_assoc a), <- Hs, valid_ace_in by (done || lia).
  destruct (valid_ace a Revision 0 (len a)) as [[]|] eqn:Ev; [|done..]. cbn [mbind option_bind negb].
  rewrite NextAce_in by (rewrite ?Es, ?Hs; done || lia). cbn [mbind option_bind].
  rewrite app_assoc. intros Hv. edestruct (IH (pre ++ a) rest) as (aces & room & Hrest & Hl & Hok & Hal); [done| |].
  { rewrite <- Hv. f_equal. rewrite !length_app. lia. }
  exists (a :: aces), room. rewrite Hrest, concat_cons, <- app_assoc. split; [done|]. split; [cbn; lia|]. split.
  - constructor; [|done]. constructor; [done|lia|by rewrite Es, Hs|apply valid_ace_form; done || lia].
  - rewrite WordAligned_even, Z.even_add in Ew. split; [by destruct (Z.even (Acl + len pre))|].
    by rewrite length_app, Nat2Z.inj_add in Hal.
Qed.

(** ** The whole list *)

(** Revision, entries, and the number of free bytes. *)
Record acl := mkAcl { Rev : Z; Aces : list (list Z); Free : Z }.

Definition total (A : acl) : Z := sizeof_ACL + len (concat (Aces A)) + Free A.

Definition header (r s1 size count s2 : Z) : list Z :=
  [r; s1] ++ le_bytes 2 size ++ le_bytes 2 count ++ le_bytes 2 s2.

(** [m] is the ACL [A], with the bytes [behind] after it. *)
Record is_acl (m : list Z) (A : acl) (behind : list Z) : Prop := mkIsAcl {
  acl_mem : exists s1 s2 room, len room = Free A /\ bytes room /\
    m = header (Rev A) s1 (total A) (len (Aces A)) s2 ++ concat (Aces A) ++ room ++ behind;
  acl_rev : MIN_ACL_REVISION <= Rev A <= MAX_ACL_REVISION;
  acl_total : total A < 65536;
  acl_addr : Z.even Acl = true;
  acl_aces : Forall (ace_ok (Rev A)) (Aces A);
  acl_aligned : aligned sizeof_ACL (Aces A) }.

Lemma concat_least Revision aces : Forall (ace_ok Revision) aces -> 4 * len aces <= len (concat aces).
Proof.
  induction 1 as [|a aces [_ H4 _ _] _ IH]; [done|]. rewrite concat_cons, length_app. cbn [length]. lia.
Qed.

Section Header.
Context {m A behind} (Hm : is_acl m A behind).

Lemma acl_bounds : 0 <= Free A /\ sizeof_ACL <= total A < 65536 /\ 4 * len (Aces A) <= len (concat (Aces A)) /\
  0 <= len (Aces A) < 65536.
Proof using Hm.
  destruct Hm as [(s1 & s2 & room & Hr & HB & _) _ Ht _ Ha _]. apply concat_least in Ha. unfold total, sizeof_ACL in *. lia.
Qed.

Lemma run_AclRevision : AclRevision m = Some (Rev A).
Proof using Hm.
  destruct Hm as [(s1 & s2 & room & Hr & HB & ->) _ _ _ _ _]. unfold AclRevision, UCHAR_at.
  rewrite read_head by (cbn; lia). change (Some (Rev A + 256 * 0) = Some (Rev A)). f_equal. lia.
Qed.

Lemma run_AclSize : AclSize m = Some (total A).
Proof using Hm.
  pose proof acl_bounds as (_ & Hb & _). unfold sizeof_ACL in Hb.
  destruct Hm as [(s1 & s2 & room & Hr & HB & ->) _ _ _ _ _]. unfold AclSize, USHORT_at.
  rewrite read_head by (cbn; lia). change (read _ 2 2) with (Some [total A mod 256; total A / 256 mod 256]).
  cbn [fmap option_fmap option_map]. by rewrite le16 by lia.
Qed.

Lemma run_AceCount : AceCount m = Some (len (Aces A)).
Proof using Hm.
  pose proof acl_bounds as (_ & _ & _ & Hb).
  destruct Hm as [(s1 & s2 & room & Hr & HB & ->) _ _ _ _ _]. unfold AceCount, USHORT_at.
  rewrite read_head by (cbn; lia). change (read _ 4 2) with (Some [len (Aces A) mod 256; len (Aces A) / 256 mod 256]).
  cbn [fmap option_fmap option_map]. by rewrite le16 by lia.
Qed.

Lemma run_valid : RtlValidAcl Acl m = true.
Proof using Hm.
  unfold RtlValidAcl. rewrite run_AclRevision, run_AclSize, run_AceCount. cbn [mbind option_bind].
  pose proof acl_bounds as (Hf & Hb & _). destruct Hm as [(s1 & s2 & room & Hr & HB & ->) Hv _ He Ha Hal].
  unfold ValidAclRevision. destruct (Z.geb_spec (Rev A) MIN_ACL_REVISION); [|lia].
  destruct (Z.leb_spec (Rev A) MAX_ACL_REVISION); [|lia].
  destruct (Z.ltb_spec (total A) sizeof_ACL); [lia|]. rewrite WordAligned_even, Z.even_add, He. cbn [negb orb andb Bool.eqb Z.even].
  rewrite Nat2Z.id. change FirstAce with (len (header (Rev A) s1 (total A) (len (Aces A)) s2)).
  rewrite valid_aces_ok; [done|done|done|]. rewrite length_app. unfold total. cbn [length header app le_bytes].
  unfold sizeof_ACL. lia.
Qed.

Lemma run_free : RtlFirstFreeAce m = Some (true, Some (sizeof_ACL + len (concat (Aces A)))).
Proof using Hm.
  unfold RtlFirstFreeAce. rewrite run_AclSize, run_AceCount. cbn [mbind option_bind]. rewrite Nat2Z.id.
  pose proof acl_bounds as (Hf & Hb & _). destruct Hm as [(s1 & s2 & room & Hr & HB & ->) _ _ _ Ha _].
  apply aces_shape in Ha. change FirstAce with (len (header (Rev A) s1 (total A) (len (Aces A)) s2)).
  rewrite free_loop_in by (rewrite ?length_app; unfold total, sizeof_ACL; cbn [length header app le_bytes]; done || lia).
  cbn [mbind option_bind]. rewrite length_app. cbn [length header app le_bytes]. unfold total.
  destruct (Z.leb_spec (Z.of_nat (8 + length (concat (Aces A)))) (sizeof_ACL + len (concat (Aces A)) + Free A));
    unfold sizeof_ACL in *; [repeat f_equal; lia|lia].
Qed.

Lemma run_find_free : find_free Acl m = Some (Some (Some (sizeof_ACL + len (concat (Aces A))))).
Proof using Hm. unfold find_free. by rewrite run_valid, run_free. Qed.

End Header.

(** RtlValidAcl accepts exactly the memories that hold an ACL. *)
Lemma valid_inv m : bytes m -> 8 <= len m -> (forall s, AclSize m = Some s -> s <= len m) -> RtlValidAcl Acl m = true ->
  exists A behind, is_acl m A behind.
Proof.
  intros Hb H8 Hs. do 8 (destruct m as [|? m]; [cbn in H8; lia|]).
  rename z into r, z0 into s1, z1 into x, z2 into y, z3 into c, z4 into d, z5 into e, z6 into f.
  do 8 (apply Forall_cons_1 in Hb as [? Hb]). set (size := le [x; y]). set (count := le [c; d]).
  assert (forall a b, 0 <= a < 256 -> 0 <= b < 256 -> le_bytes 2 (le [a; b]) = [a; b]) as Hle.
  { intros a b Ha Hb'. apply (le_bytes_le [a; b]). apply Forall_cons_2, Forall_cons_2, Forall_nil_2; done. }
  assert (0 <= size < 65536) as Hsz by (unfold size, le; cbn; lia). assert (0 <= count) as Hc by (unfold count, le; cbn; lia).
  change (r :: s1 :: x :: y :: c :: d :: e :: f :: m) with ([r; s1; x; y; c; d; e; f] ++ m) in *.
  assert (AclRevision ([r; s1; x; y; c; d; e; f] ++ m) = Some (le [r])) as Er'.
  { unfold AclRevision, UCHAR_at. by rewrite read_head by (cbn; lia). }
  assert (AclSize ([r; s1; x; y; c; d; e; f] ++ m) = Some size) as Es'.
  { unfold AclSize, USHORT_at. by rewrite read_head by (cbn; lia). }
  assert (AceCount ([r; s1; x; y; c; d; e; f] ++ m) = Some count) as Ec'.
  { unfold AceCount, USHORT_at. by rewrite read_head by (cbn; lia). }
  specialize (Hs size Es'). rewrite length_app in Hs. cbn [length] in Hs. unfold RtlValidAcl.
  rewrite Er', Es', Ec'. cbn [mbind option_bind]. replace (le [r]) with r by (unfold le; cbn; lia).
  destruct (_ || _ || _) eqn:E; [done|]. apply orb_false_iff in E as [[Er Ew]%orb_false_iff El%Z.ltb_ge].
  apply negb_false_iff, andb_true_iff in Er as [Er1 Er2]. apply Z.geb_le in Er1. apply Z.leb_le in Er2. apply negb_false_iff in Ew. rewrite WordAligned_even, Z.even_add in Ew.
  unfold sizeof_ACL in El.
  set (body := take (Z.to_nat (size - 8)) m). set (behind := drop (Z.to_nat (size - 8)) m).
  assert (len body = size - 8) as Hbody by (unfold body; rewrite length_take; lia).
  assert (m = body ++ behind) as Hm by (symmetry; apply take_drop). clearbody body behind.
  destruct (valid_aces _ _ _ _ _ _) as [[]|] eqn:Ev; try done. intros _.
  assert (bytes body) as HbB by (rewrite Hm in Hb; by apply Forall_app in Hb as [? _]).
  destruct (valid_aces_inv r [r; s1; x; y; c; d; e; f] body behind (Z.to_nat count)) as (aces & room & Hbd & Hl & Hok & Hal).
  { done. }
  { rewrite <- Ev. rewrite Hm. f_equal. rewrite length_app. cbn [length]. lia. }
  rewrite Hbd in HbB. apply Forall_app in HbB as [_ HbB].
  assert (len (concat aces) + len room = size - 8) as Ht by (rewrite <- Hbody, Hbd, length_app; lia).
  assert (total (mkAcl r aces (len room)) = size) as Htot by (unfold total, sizeof_ACL; cbn [Aces Free]; lia).
  exists (mkAcl r aces (len room)), behind. split; rewrite ?Htot; cbn [Rev Aces Free]; [|lia|lia| |done|done].
  - exists s1, (le [e; f]), room. split; [done|]. split; [done|]. replace (len aces) with count by lia.
    unfold header, size, count. rewrite !Hle by done. by rewrite Hm, Hbd, <- app_assoc.
  - by destruct (Z.even Acl).
Qed.

End Lists.
End AclLayout.
