(* ===== verification/RtlAclOps.v ===== *)
(** * Access control lists: the routines

    What each routine of rtl/acledit.c does to a memory that holds an ACL
    ([AclLayout.is_acl]): the loops that move bytes, the entries the routines
    write, and the ACL each of them leaves. *)

From S2P Require Import Prelude RtlAcl RtlAclLayout.

Module AclOps.

Import Acl AclLayout.

(** ** Moving bytes *)

Lemma acl_set_byte_in pre x post v : 0 <= v < 256 -> set_UCHAR (pre ++ x :: post) (len pre) v = Some (pre ++ v :: post).
Proof.
  intros Hv. unfold set_UCHAR. rewrite <- (Z.add_0_r (len pre)).
  change (x :: post) with ([x] ++ post). rewrite write_in by (cbn; lia). cbn. by rewrite Z.mod_small.
Qed.

Lemma acl_get_byte_in pre x post : UCHAR_at (pre ++ x :: post) (len pre) = Some x.
Proof. rewrite UCHAR_some by (rewrite length_app; cbn; lia). by rewrite Nat2Z.id, list_lookup_middle. Qed.

Lemma move_up_spec k n pre y post : length y = (n + k)%nat -> Z.of_nat (n + k) < 2 ^ 32 -> bytes y ->
  move_up (pre ++ y ++ post) (len pre) (Z.of_nat k) n = Some (pre ++ take k y ++ take n y ++ post).
Proof.
  revert y post. induction n as [|n IH]; intros y post Hy H32 Hb; cbn [move_up].
  { by rewrite take_ge by lia. }
  destruct (lookup_lt_is_Some_2 y n ltac:(lia)) as [b Hn]. pose proof (proj1 (Forall_lookup _ _) Hb _ _ Hn) as Hr.
  rewrite UCHAR_in, UCHAR_some, Nat2Z.id, Hn by lia. cbn [mbind option_bind].
  unfold set_UCHAR. rewrite u32_small by lia. rewrite write_in by (cbn; lia). cbn [mbind option_bind].
  replace (Z.to_nat (Z.of_nat n + Z.of_nat k)) with (n + k)%nat by lia. unfold upd. cbn [length le_bytes].
  rewrite drop_ge, app_nil_r, <- app_assoc by lia. cbn [app]. rewrite Z.mod_small by done. rewrite IH.
  - rewrite !take_take, !Nat.min_l by lia. by rewrite (take_S_r _ _ _ Hn), <- !app_assoc.
  - rewrite length_take. lia.
  - lia.
  - by apply Forall_take.
Qed.

Lemma copy_in_spec F1 F2 F3 To pre y post : length y = length F2 -> To + len F1 = len pre -> bytes F2 ->
  copy_in (pre ++ y ++ post) (F1 ++ F2 ++ F3) To (len F1) (length F2) = Some (pre ++ F2 ++ post).
Proof.
  revert F1 pre y. induction F2 as [|b F2 IH]; intros F1 pre y Hy Ho Hb; cbn [length copy_in]; [by destruct y|].
  destruct y as [|x y]; [done|]. apply Forall_cons_1 in Hb as [Hr Hb]. cbn [app]. rewrite acl_get_byte_in. cbn [mbind option_bind].
  rewrite Ho, acl_set_byte_in by done. cbn [mbind option_bind].
  specialize (IH (F1 ++ [b]) (pre ++ [b]) y). rewrite <- !app_assoc, !length_app in IH. cbn [app length] in IH.
  rewrite Nat2Z.inj_add in IH. apply IH; [by injection Hy|lia|done].
Qed.

Lemma RtlpAddData_spec F G pre x gap post : length gap = length F -> bytes F -> bytes x -> bytes gap ->
  len x + len F < 2 ^ 31 ->
  RtlpAddData (F ++ G) (len F) (pre ++ x ++ gap ++ post) (len pre) (len x) = Some (pre ++ F ++ x ++ post).
Proof.
  intros Hg Hf Hx Hgap H31. unfold RtlpAddData. rewrite s32_small by lia. rewrite !Nat2Z.id.
  rewrite (app_assoc x), move_up_spec by (rewrite ?length_app; lia || by apply Forall_app_2). cbn [mbind option_bind].
  rewrite (take_app_le x gap (length x)), (take_ge x) by lia.
  apply (copy_in_spec [] F G (len pre) pre); [rewrite length_take, length_app; lia|cbn; lia|done].
Qed.

Lemma move_down_spec x R Data i pre hole post : len hole = R -> 0 < R -> Data + i = len pre + R -> R <= i -> i + len x < 2 ^ 32 ->
  bytes x -> exists hole', length hole' = length hole /\
    move_down (pre ++ hole ++ x ++ post) Data R i (length x) = Some (pre ++ x ++ hole' ++ post).
Proof.
  revert i pre hole. induction x as [|b x IH]; intros i pre hole Hh HR Hi Hi2 H32 Hb; cbn [length move_down].
  { by exists hole. }
  apply Forall_cons_1 in Hb as [Hr Hb]. cbn [length] in H32. destruct hole as [|h hole]; [cbn in Hh; lia|].
  replace (Data + i) with (len (pre ++ h :: hole)) by (rewrite length_app, Nat2Z.inj_add, Hh; lia).
  rewrite (app_assoc pre (h :: hole)). cbn [app]. rewrite acl_get_byte_in. cbn [mbind option_bind].
  rewrite u32_small by lia. replace (Data + (i - R)) with (len pre) by lia.
  rewrite <- app_assoc. cbn [app]. rewrite acl_set_byte_in by done. cbn [mbind option_bind].
  destruct (IH (i + 1) (pre ++ [b]) (hole ++ [b])) as (hole' & Hl & He).
  - rewrite length_app. cbn in Hh |- *. lia.
  - done.
  - rewrite length_app. cbn. lia.
  - lia.
  - lia.
  - done.
  - exists hole'. split; [rewrite Hl, length_app; cbn; lia|]. rewrite <- !app_assoc in He. cbn [app] in He. done.
Qed.

Lemma clear_spec y Data i pre post : Data + i = len pre ->
  clear (pre ++ y ++ post) Data i (length y) = Some (pre ++ replicate (length y) 0 ++ post).
Proof.
  revert i pre. induction y as [|x y IH]; intros i pre Hi; cbn [length clear]; [done|].
  cbn [app]. rewrite Hi, acl_set_byte_in by lia. cbn [mbind option_bind].
  specialize (IH (i + 1) (pre ++ [0])). rewrite <- !app_assoc in IH. apply IH. rewrite length_app. cbn. lia.
Qed.

Lemma RtlpDeleteData_spec pre rem x post : 0 < len rem -> len rem + len x < 2 ^ 32 -> bytes x ->
  RtlpDeleteData (pre ++ rem ++ x ++ post) (len pre) (len rem) (len rem + len x) =
    Some (pre ++ x ++ replicate (length rem) 0 ++ post).
Proof.
  intros Hr H32 Hb. unfold RtlpDeleteData. replace (len rem + len x - len rem) with (len x) by lia. rewrite Nat2Z.id.
  destruct (move_down_spec x (len rem) (len pre) (len rem) pre rem post) as (hole & Hl & ->); [done..|lia|done|].
  cbn [mbind option_bind]. rewrite u32_small by lia. rewrite <- Hl.
  replace (Z.to_nat (len hole + len x - len x)) with (length hole) by lia.
  rewrite !(app_assoc pre x). apply clear_spec. rewrite length_app. lia.
Qed.

Lemma write_here pre old rest bs : length old = length bs ->
  write (pre ++ old ++ rest) (len pre) bs = Some (pre ++ bs ++ rest).
Proof.
  intros Ho. rewrite <- (Z.add_0_r (len pre)), write_in by lia. unfold upd. cbn. by rewrite drop_ge, app_nil_r by lia.
Qed.

Lemma split_len {T} (l : list T) (a b : nat) : length l = (a + b)%nat -> exists x y, l = x ++ y /\ length x = a /\ length y = b.
Proof. intros H. exists (take a l), (drop a l). rewrite take_drop, length_take, length_drop. split; [done|lia]. Qed.

(** ** SIDs *)

(** [sid] are the bytes of a SID that RtlValidAcl accepts. *)
Record is_sid (sid : list Z) : Prop := mkIsSid {
  sid_shape : exists c rest, sid = SID_REVISION :: c :: rest /\ 0 <= c <= SID_MAX_SUB_AUTHORITIES /\ len sid = 8 + 4 * c;
  sid_bytes : bytes sid }.

Section Sid.
Context {sid} (Hs : is_sid sid).

Lemma sid_least : 8 <= len sid <= 68.
Proof using Hs. destruct Hs as [(c & rest & _ & Hc & ->) _]. unfold SID_MAX_SUB_AUTHORITIES in Hc. lia. Qed.

Lemma sid_aligned : len sid mod 4 = 0.
Proof using Hs. destruct Hs as [(c & rest & _ & _ & ->) _]. zdiv. Qed.

Lemma run_SeLengthSid : SeLengthSid sid 0 = Some (len sid).
Proof using Hs.
  destruct Hs as [(c & rest & -> & Hc & Hl) _]. rewrite Hl. unfold SeLengthSid.
  rewrite UCHAR_some by (cbn [length]; lia). done.
Qed.

Lemma run_valid_sid : RtlValidSid (Some sid) = true.
Proof using Hs.
  destruct Hs as [(c & rest & -> & Hc & Hl) _]. unfold RtlValidSid.
  rewrite !UCHAR_some by (cbn [length]; lia). cbn. unfold SID_MAX_SUB_AUTHORITIES in *. apply Z.leb_le; lia.
Qed.

Lemma run_copy_sid pre old post : length old = length sid ->
  RtlCopySid (len sid) (pre ++ old ++ post) (len pre) sid = Some (pre ++ sid ++ post).
Proof using Hs.
  intros Ho. unfold RtlCopySid. rewrite run_SeLengthSid. cbn [mbind option_bind].
  destruct (Z.gtb_spec (len sid) (len sid)); [lia|].
  assert (read sid 0 (len sid) = Some sid) as ->.
  { unfold read. destruct (Z.leb_spec (0 + len sid) (len sid)); [|lia]. cbn. by rewrite Nat2Z.id, take_ge. }
  cbn [mbind option_bind]. by apply write_here.
Qed.

(** In an entry, with enough bytes before it. *)
Lemma valid_sid_ok pre post s before behind : before + len sid + behind <= s ->
  valid_sid (pre ++ sid ++ post) (len pre) s before behind = Some true.
Proof using Hs.
  intros Hl. rewrite <- (Z.add_0_r (len pre)). rewrite valid_sid_in by (pose proof sid_least; lia).
  unfold valid_sid. rewrite run_SeLengthSid. destruct Hs as [(c & rest & E & Hc & Hl') _].
  assert (len sid = 8 + 4 * c) by done. rewrite E in *. rewrite !UCHAR_some by (cbn [length] in *; lia). cbn [mbind option_bind].
  change (Some (negb (negb (SID_REVISION =? SID_REVISION) || (c >? SID_MAX_SUB_AUTHORITIES) || (s <? before + len (SID_REVISION :: c :: rest) + behind))) = Some true).
  destruct (Z.gtb_spec c SID_MAX_SUB_AUTHORITIES); [lia|]. destruct (Z.ltb_spec s (before + len (SID_REVISION :: c :: rest) + behind)); [lia|done].
Qed.

End Sid.

(** ** The entries the routines write *)

Definition ace_header (t f s : Z) : list Z := le_bytes 1 t ++ le_bytes 1 f ++ le_bytes 2 s.

(** An entry of the type [t] with the flags [f]. *)
Definition ace (t f : Z) (body : list Z) : list Z := ace_header t f (4 + len body) ++ body.

Definition known_ace (t f mask : Z) (sid : list Z) : list Z := ace t f (le_bytes 4 mask ++ sid).

Definition object_ace (t f mask : Z) (guid1 guid2 : option (list Z)) (sid : list Z) : list Z :=
  ace t f (le_bytes 4 mask ++ le_bytes 4 (guid_flags guid1 guid2) ++ (default [] guid1 ++ default [] guid2) ++ sid).

(** The two bytes after the type are not written. *)
Definition compound_ace (t mask : Z) (reserved server client : list Z) : list Z :=
  ace ACCESS_ALLOWED_COMPOUND_ACE_TYPE 0 (le_bytes 4 mask ++ (le_bytes 2 t ++ reserved) ++ server ++ client).

Lemma le_bytes_bytes n v : bytes (le_bytes n v).
Proof. revert v. induction n as [|n IH]; intros v; cbn; [constructor|]. constructor; [zdiv|apply IH]. Qed.

Lemma ace_len t f body : len (ace t f body) = 4 + len body.
Proof. unfold ace, ace_header. rewrite !length_app, !le_bytes_length. lia. Qed.

Lemma ace_AceType t f body : 0 <= t < 256 -> AceType (ace t f body) 0 = Some t.
Proof.
  intros Ht. unfold AceType, UCHAR_at, ace. rewrite read_head by (cbn; lia).
  change (Some (t mod 256 + 256 * 0) = Some t). rewrite Z.mod_small by done. f_equal. lia.
Qed.

(** An entry is right when its contents are. *)
Lemma ace_ok_intro r t f body : bytes body -> 4 + len body < 65536 ->
  valid_ace (ace t f body) r 0 (4 + len body) = Some true -> ace_ok r (ace t f body).
Proof.
  intros Hb Hl Hv. assert (bytes (ace t f body)) as Ha.
  { unfold ace, ace_header. repeat apply Forall_app_2; try apply le_bytes_bytes. done. }
  split; rewrite ?ace_len; [done|lia| |apply valid_ace_form; [done|rewrite ace_len; lia|by rewrite ace_len]].
  - unfold USHORT_at, ace. rewrite read_head by (cbn; lia).
    change (read _ 2 2) with (Some (le_bytes 2 (4 + len body))). cbn [fmap option_fmap option_map]. f_equal.
    apply le_bytes_small. lia.
Qed.

(** A SID in an entry. *)
Lemma ace_sid t f body1 sid body2 o s before behind : is_sid sid -> o = 4 + len body1 -> before + len sid + behind <= s ->
  valid_sid (ace t f (body1 ++ sid ++ body2)) o s before behind = Some true.
Proof.
  intros Hs -> Hl. unfold ace. rewrite app_assoc. replace (4 + len body1) with (len (ace_header t f (4 + len (body1 ++ sid ++ body2)) ++ body1)).
  - by apply valid_sid_ok.
  - rewrite length_app. cbn [length ace_header le_bytes app]. lia.
Qed.

Lemma known_ok r t f mask sid : is_sid sid -> 0 <= t <= ACCESS_MAX_MS_V2_ACE_TYPE -> ace_ok r (known_ace t f mask sid).
Proof.
  intros Hs Ht. pose proof (sid_least Hs) as Hl. pose proof (sid_aligned Hs) as Ha. unfold ACCESS_MAX_MS_V2_ACE_TYPE in Ht.
  assert (len (le_bytes 4 mask ++ sid) = 4 + len sid) as Hlen by (rewrite length_app; cbn [length le_bytes]; lia).
  apply ace_ok_intro; rewrite ?Hlen; [|lia|].
  - apply Forall_app_2; [apply le_bytes_bytes|apply Hs].
  - unfold valid_ace. rewrite ace_AceType by lia. cbn [mbind option_bind].
    unfold IsKnownAceType, ACCESS_MIN_MS_ACE_TYPE, ACCESS_MAX_MS_V2_ACE_TYPE.
    destruct (Z.geb_spec t 0); [|lia]. destruct (Z.leb_spec t 3); [|lia]. cbn [andb]. unfold valid_known.
    rewrite LongAligned_mod. destruct (Z.eqb_spec ((4 + (4 + len sid)) mod 4) 0); [|zdiv]. cbn [negb orb].
    unfold sizeof_KNOWN_ACE, sizeof_SID. destruct (Z.ltb_spec (4 + (4 + len sid)) (12 - 4 + 12 - 4)); [lia|].
    rewrite <- (app_nil_r sid) at 1. apply ace_sid; [done|done|lia].
Qed.

Definition guid_ok (g : option (list Z)) : Prop := match g with None => True | Some g => len g = 16 /\ bytes g end.

Lemma guid_flags_cases g1 g2 :
  negb (Z.land (guid_flags g1 g2) ACE_OBJECT_TYPE_PRESENT =? 0) = bool_decide (is_Some g1) /\
  negb (Z.land (guid_flags g1 g2) ACE_INHERITED_OBJECT_TYPE_PRESENT =? 0) = bool_decide (is_Some g2) /\
  0 <= guid_flags g1 g2 <= 3.
Proof. destruct g1, g2; (split; [done|split; [done|by vm_compute]]). Qed.

Lemma object_ok t f mask g1 g2 sid : is_sid sid -> guid_ok g1 -> guid_ok g2 -> 12 <= len sid ->
  ACCESS_MIN_MS_OBJECT_ACE_TYPE <= t <= ACCESS_MAX_MS_OBJECT_ACE_TYPE ->
  ace_ok ACL_REVISION4 (object_ace t f mask g1 g2 sid).
Proof.
  intros Hs H1 H2 H12 Ht. pose proof (sid_least Hs) as Hl. pose proof (sid_aligned Hs) as Ha.
  unfold ACCESS_MIN_MS_OBJECT_ACE_TYPE, ACCESS_MAX_MS_OBJECT_ACE_TYPE in Ht.
  unfold object_ace. set (G := default [] g1 ++ default [] g2).
  assert (len G = (if bool_decide (is_Some g1) then 16 else 0) + (if bool_decide (is_Some g2) then 16 else 0)) as HG.
  { unfold G. rewrite length_app. destruct g1, g2; cbn in *; lia. }
  assert (bytes G) as HbG. { unfold G. apply Forall_app_2; [destruct g1|destruct g2]; cbn in *; (apply Forall_nil_2 || tauto). }
  destruct (guid_flags_cases g1 g2) as (F1 & F2 & F3). clearbody G.
  assert (0 <= len G <= 32) by (rewrite HG; repeat case_bool_decide; lia).
  set (body := le_bytes 4 mask ++ le_bytes 4 (guid_flags g1 g2) ++ G ++ sid).
  assert (len body = 8 + len G + len sid) as Hlen by (unfold body; rewrite !length_app; cbn [length le_bytes]; lia).
  apply ace_ok_intro; rewrite ?Hlen; [|lia|].
  - unfold body. repeat apply Forall_app_2; try apply le_bytes_bytes; [done|apply Hs].
  - assert (ULONG_at (ace t f body) (0 + 8) = Some (guid_flags g1 g2)) as Hf.
    { unfold ULONG_at, ace, body. rewrite !app_assoc, <- (app_assoc _ G sid). rewrite read_head by (cbn; lia).
      change (read _ (0 + 8) 4) with (Some (le_bytes 4 (guid_flags g1 g2))). cbn [fmap option_fmap option_map]. f_equal.
      apply le_bytes_small. lia. }
    unfold valid_ace. rewrite ace_AceType by lia. cbn [mbind option_bind].
    unfold IsKnownAceType, IsCompoundAceType, IsObjectAceType, ACCESS_MIN_MS_OBJECT_ACE_TYPE, ACCESS_MAX_MS_OBJECT_ACE_TYPE,
      ACCESS_MIN_MS_ACE_TYPE, ACCESS_MAX_MS_V2_ACE_TYPE, ACCESS_ALLOWED_COMPOUND_ACE_TYPE.
    destruct (Z.geb_spec t 0), (Z.leb_spec t 3), (Z.eqb_spec t 4), (Z.geb_spec t 5), (Z.leb_spec t 8); try lia. cbn [andb].
    unfold valid_object, RtlObjectAceSid, RtlObjectAceObjectTypePresent, RtlObjectAceInheritedObjectTypePresent. rewrite Hf.
    cbn [mbind option_bind]. rewrite F1, F2.
    rewrite LongAligned_mod. destruct (Z.eqb_spec ((4 + (8 + len G + len sid)) mod 4) 0) as [|Hm].
    2: { exfalso. apply Hm. rewrite HG. repeat case_bool_decide; zdiv. }
    unfold ACL_REVISION4, sizeof_KNOWN_OBJECT_ACE, sizeof_SID, sizeof_GUID. 
    change (4 <? 4) with false. cbn [negb orb].
    destruct (Z.ltb_spec (4 + (8 + len G + len sid)) (16 - 4)); [lia|]. rewrite <- HG.
    destruct (Z.ltb_spec (4 + (8 + len G + len sid)) (16 - 4 + len G + 12)); [lia|].
    rewrite <- (Z.add_assoc (0 + 12)), <- HG. unfold body. rewrite (app_assoc _ G sid), (app_assoc _ _ sid), <- (app_nil_r sid) at 1.
    apply ace_sid; [done|rewrite !length_app; cbn [length le_bytes]; lia|lia].
Qed.

Lemma ace_SeLengthSid t f body1 sid body2 o : is_sid sid -> o = 4 + len body1 ->
  SeLengthSid (ace t f (body1 ++ sid ++ body2)) o = Some (len sid).
Proof.
  intros Hs ->. unfold ace. rewrite app_assoc.
  replace (4 + len body1) with (len (ace_header t f (4 + len (body1 ++ sid ++ body2)) ++ body1) + 0).
  - rewrite SeLengthSid_in by (pose proof (sid_least Hs); lia). by apply run_SeLengthSid.
  - rewrite length_app. cbn [length ace_header le_bytes app]. lia.
Qed.

Lemma compound_ok r mask reserved server client : is_sid server -> is_sid client -> 12 <= len client ->
  len reserved = 2 -> bytes reserved -> ACL_REVISION3 <= r ->
  ace_ok r (compound_ace COMPOUND_ACE_IMPERSONATION mask reserved server client).
Proof.
  intros Hs Hc H12 Hr Hb H3. pose proof (sid_least Hs) as Hl. pose proof (sid_aligned Hs) as Ha.
  pose proof (sid_least Hc) as Hl'. pose proof (sid_aligned Hc) as Ha'. unfold compound_ace.
  set (front := le_bytes 4 mask ++ le_bytes 2 COMPOUND_ACE_IMPERSONATION ++ reserved).
  assert (len front = 8) as Hfr by (unfold front; rewrite !length_app; cbn [length le_bytes]; lia).
  rewrite (app_assoc (le_bytes 4 mask)). fold front.
  assert (len (front ++ server ++ client) = 8 + len server + len client) as Hlen by (rewrite !length_app; lia).
  apply ace_ok_intro; rewrite ?Hlen; [|lia|].
  - unfold front. repeat apply Forall_app_2; try apply le_bytes_bytes; [done|apply Hs|apply Hc].
  - unfold valid_ace. rewrite ace_AceType by (unfold ACCESS_ALLOWED_COMPOUND_ACE_TYPE; lia). cbn [mbind option_bind].
    change (IsKnownAceType _) with false. change (IsCompoundAceType _) with true. cbn iota. unfold valid_compound.
    destruct (Z.ltb_spec r ACL_REVISION3); [lia|]. rewrite LongAligned_mod.
    destruct (Z.eqb_spec ((4 + (8 + len server + len client)) mod 4) 0); [|zdiv]. cbn [negb orb].
    unfold sizeof_KNOWN_COMPOUND_ACE, sizeof_SID. destruct (Z.ltb_spec (4 + (8 + len server + len client)) (16 - 4 + 12)); [lia|].
    assert (USHORT_at (ace ACCESS_ALLOWED_COMPOUND_ACE_TYPE 0 (front ++ server ++ client)) (0 + 8) = Some COMPOUND_ACE_IMPERSONATION) as ->.
    { unfold USHORT_at, ace. change (0 + 8) with (len (ace_header ACCESS_ALLOWED_COMPOUND_ACE_TYPE 0 (4 + len (front ++ server ++ client))) + 4).
      rewrite read_in by lia. unfold front. rewrite (app_assoc (le_bytes 4 mask)), read_head by (cbn; lia). done. }
    cbn [mbind option_bind negb Z.eqb]. rewrite Z.eqb_refl. cbn [negb].
    rewrite ace_sid by (done || lia). rewrite ace_SeLengthSid by (done || lia). cbn [mbind option_bind negb].
    rewrite (app_assoc front), <- (app_nil_r client) at 1. apply ace_sid; [done|rewrite length_app; lia|lia].
Qed.

(** Raising the revision of the ACL keeps its entries right. *)
Lemma ace_ok_mono r r' a : r <= r' -> ace_ok r a -> ace_ok r' a.
Proof.
  intros H [Hb H4 Hs Hf]. split; [done..|]. destruct Hf; constructor; done || lia.
Qed.

(** ** Writing an entry *)

Ltac in_place := first [lia | by vm_compute].

Lemma write_front {B} pre (old : list Z) rest t f s mask (k : list Z -> option B) : length old = 8%nat ->
  (m ← set_UCHAR (pre ++ old ++ rest) (len pre + 1) f;
   m ← set_UCHAR m (len pre) t;
   m ← set_USHORT m (len pre + 2) s;
   m ← set_ULONG m (len pre + 4) mask; k m) = k (pre ++ (ace_header t f s ++ le_bytes 4 mask) ++ rest).
Proof.
  intros Ho. do 8 (destruct old as [|? old]; [done|]). destruct old; [|done].
  unfold set_UCHAR, set_USHORT, set_ULONG.
  rewrite write_in by in_place. cbn [mbind option_bind]. rewrite <- (Z.add_0_r (len pre)) at 1.
  do 3 (rewrite write_in by in_place; cbn [mbind option_bind]). done.
Qed.

Lemma write_count r s1 sz c s2 rest c' :
  set_USHORT (header r s1 sz c s2 ++ rest) 4 c' = Some (header r s1 sz c' s2 ++ rest).
Proof. unfold set_USHORT. by rewrite write_head by in_place. Qed.

Lemma write_rev r s1 sz c s2 rest r' : 0 <= r' < 256 ->
  set_UCHAR (header r s1 sz c s2 ++ rest) 0 r' = Some (header r' s1 sz c s2 ++ rest).
Proof. intros H. rewrite <- (Z.mod_small r' 256) at 2 by done. unfold set_UCHAR. by rewrite write_head by in_place. Qed.

Lemma read_count r s1 sz c s2 rest : 0 <= c < 65536 -> AceCount (header r s1 sz c s2 ++ rest) = Some c.
Proof.
  intros Hc. unfold AceCount, USHORT_at. rewrite read_head by in_place.
  change (Some (le [c mod 256; c / 256 mod 256]) = Some c). by rewrite le16.
Qed.

Section Room.
Variable Acl : Z.

Definition even_size (a : list Z) : Prop := Z.even (len a) = true.

(** The place of a new entry of [n] bytes, and the ACL when it is written. *)
Lemma room_for m A behind n : is_acl Acl m A behind -> 0 <= n <= Free A ->
  exists pre old rest, m = pre ++ old ++ rest /\ len pre = sizeof_ACL + len (concat (Aces A)) /\ len old = n /\ bytes old /\
    forall a r', len a = n -> Rev A <= r' <= MAX_ACL_REVISION -> ace_ok r' a -> Forall even_size (Aces A ++ [a]) ->
      exists m', count_ace (pre ++ a ++ rest) r' = Some m' /\
        is_acl Acl m' (mkAcl r' (Aces A ++ [a]) (Free A - n)) behind.
Proof.
  intros Hm Hn. pose proof (acl_bounds Acl Hm) as (_ & _ & Hc & Hcnt). pose proof (run_AceCount Acl Hm) as Hrun.
  destruct Hm as [(s1 & s2 & room & Hr & HB & Em) Hv Ht He Ha Hal].
  exists (header (Rev A) s1 (total A) (len (Aces A)) s2 ++ concat (Aces A)), (take (Z.to_nat n) room), (drop (Z.to_nat n) room ++ behind).
  split; [|split; [|split; [|split; [by apply Forall_take|]]]].
  - rewrite Em, <- !app_assoc. do 2 f_equal. by rewrite (app_assoc (take _ _)), take_drop.
  - rewrite length_app. cbn [length header app le_bytes]. unfold sizeof_ACL. lia.
  - rewrite length_take. lia.
  - intros a r' Hla Hr' Hok Hev. unfold count_ace, MAX_ACL_REVISION, ACL_REVISION4, MIN_ACL_REVISION in *.
    assert (total (mkAcl r' (Aces A ++ [a]) (Free A - n)) = total A) as Htot.
    { unfold total. cbn [Aces Free]. rewrite concat_app, length_app. cbn [concat]. rewrite app_nil_r. lia. }
    rewrite <- !app_assoc.
    assert (AceCount (header (Rev A) s1 (total A) (len (Aces A)) s2 ++ concat (Aces A) ++ a ++ drop (Z.to_nat n) room ++ behind)
      = Some (len (Aces A))) as ->.
    { rewrite <- Hrun, Em. unfold AceCount, USHORT_at. rewrite !read_head by (cbn; lia). done. }
    cbn [mbind option_bind]. rewrite write_count. cbn [mbind option_bind]. rewrite write_rev by lia. eexists. split; [done|]. split; rewrite ?Htot; cbn [Rev Aces Free].
    + exists s1, s2, (drop (Z.to_nat n) room). split; [rewrite length_drop; lia|]. split; [by apply Forall_drop|].
      rewrite concat_app, length_app. cbn [concat length]. rewrite app_nil_r, <- !app_assoc. f_equal. f_equal.
      unfold uwrap. rewrite Z.mod_small; [lia|]. change (2 ^ 16) with 65536. unfold total, sizeof_ACL in Ht. pose proof (ace_least _ _ Hok). lia.
    + unfold MAX_ACL_REVISION, ACL_REVISION4, MIN_ACL_REVISION. lia.
    + done.
    + done.
    + apply Forall_app_2; [|by constructor]. eapply Forall_impl; [|exact Ha]. intros x. apply ace_ok_mono. lia.
    + apply even_aligned; [|done]. by rewrite Z.even_add, He.
Qed.

(** ** Adding one entry *)

(** What a routine that returns a status and the memory does: the status and the
    ACL of [spec], and no change when it fails. *)
Definition does (m behind : list Z) (r : option (Z * list Z)) (spec : Z * acl) : Prop :=
  exists m', r = Some (fst spec, m') /\ is_acl Acl m' (snd spec) behind /\ Forall even_size (Aces (snd spec)) /\
    (fst spec <> STATUS_SUCCESS -> m' = m).

Lemma does_fail m A behind st : is_acl Acl m A behind -> Forall even_size (Aces A) ->
  does m behind (Some (st, m)) (st, A).
Proof. intros. by exists m. Qed.

(** An entry at the end, if there is room for it. *)
Definition append (A : acl) (r' : Z) (a : list Z) : Z * acl :=
  if len a >? Free A then (STATUS_ALLOTTED_SPACE_EXCEEDED, A)
  else (STATUS_SUCCESS, mkAcl r' (Aces A ++ [a]) (Free A - len a)).

Lemma bad_flags_spec f audit : bad_flags f audit = negb (Z.ldiff f (if audit then 0xDF else 0x1F) =? 0).
Proof.
  unfold bad_flags. destruct audit; [|by destruct (_ =? 0)].
  change 0xDF with (Z.lor VALID_INHERIT_FLAGS (Z.lor SUCCESSFUL_ACCESS_ACE_FLAG FAILED_ACCESS_ACE_FLAG)).
  assert (forall a b c, Z.ldiff (Z.ldiff a b) c = Z.ldiff a (Z.lor b c)) as ->.
  { intros a b c. apply Z.bits_inj'. intros n _. rewrite !Z.ldiff_spec, Z.lor_spec.
    by destruct (Z.testbit a n), (Z.testbit b n). }
  destruct (Z.eqb_spec (Z.ldiff f VALID_INHERIT_FLAGS) 0) as [E|]; [|done]. cbn [negb andb].
  destruct (Z.eqb_spec (Z.ldiff f (Z.lor VALID_INHERIT_FLAGS (Z.lor SUCCESSFUL_ACCESS_ACE_FLAG FAILED_ACCESS_ACE_FLAG))) 0) as [|Hn]; [done|].
  exfalso. apply Hn. apply Z.bits_inj'. intros n Hn'. apply (f_equal (fun z => Z.testbit z n)) in E. revert E.
  rewrite !Z.ldiff_spec, Z.lor_spec, Z.bits_0. by destruct (Z.testbit f n), (Z.testbit VALID_INHERIT_FLAGS n).
Qed.

Definition spec_known (A : acl) (AceRevision AceFlags AccessMask : Z) (Sid : option (list Z)) (NewType : Z) : Z * acl :=
  match Sid with
  | Some sid =>
      if negb (RtlValidSid Sid) then (STATUS_INVALID_SID, A)
      else if AceRevision >? ACL_REVISION4 then (STATUS_REVISION_MISMATCH, A)
      else if negb (Z.ldiff AceFlags (if NewType =? SYSTEM_AUDIT_ACE_TYPE then 0xDF else 0x1F) =? 0)
           then (STATUS_INVALID_PARAMETER, A)
      else append A (Z.max (Rev A) AceRevision) (known_ace NewType (u8 AceFlags) AccessMask sid)
  | None => (STATUS_INVALID_SID, A)
  end.

(** A SID the routines refuse, or one that RtlValidAcl accepts in an entry. *)
Definition sid_arg (Sid : option (list Z)) : Prop :=
  match Sid with Some sid => RtlValidSid Sid = true -> is_sid sid | None => True end.

Lemma new_revision_max r a : 0 <= a <= 4 -> new_revision r a = Z.max r a.
Proof.
  intros H. unfold new_revision, uwrap. rewrite Z.mod_small by (change (2 ^ 8) with 256; lia).
  destruct (Z.gtb_spec r a); lia.
Qed.

Section Adding.
Context {m A behind} (Hm : is_acl Acl m A behind) (Hev : Forall even_size (Aces A)).

Lemma rev_small : (Rev A >? ACL_REVISION4) = false.
Proof using Hm. destruct (acl_rev _ _ _ _ Hm) as [_ H]. destruct (Z.gtb_spec (Rev A) ACL_REVISION4); [|done]. unfold MAX_ACL_REVISION in H. lia. Qed.

Lemma no_room_spec n : no_room (Some (sizeof_ACL + len (concat (Aces A)))) n (total A) = (n >? Free A).
Proof. 
  unfold no_room, total. destruct (Z.gtb_spec n (Free A)), (Z.gtb_spec (sizeof_ACL + len (concat (Aces A)) + n)
    (sizeof_ACL + len (concat (Aces A)) + Free A)); lia || done.
Qed.

(** The end of all routines that add one entry of [n] bytes; the entry may keep
    bytes that were there ([old]). *)
Lemma does_append n (a : list Z -> list Z) r' (k : list Z -> Z -> option (Z * list Z)) : 0 <= n -> Rev A <= r' <= MAX_ACL_REVISION ->
  (forall old, len old = n -> bytes old -> len (a old) = n /\ ace_ok r' (a old) /\ even_size (a old)) ->
  (forall pre old rest, len old = n ->
     k (pre ++ old ++ rest) (len pre) = (m ← count_ace (pre ++ a old ++ rest) r'; Some (STATUS_SUCCESS, m))) ->
  exists old, len old = n /\ bytes old /\
  does m behind (if no_room (Some (sizeof_ACL + len (concat (Aces A)))) n (total A)
                 then Some (STATUS_ALLOTTED_SPACE_EXCEEDED, m)
                 else k m (sizeof_ACL + len (concat (Aces A))))
    (append A r' (a old)).
Proof using Hm Hev.
  intros Hn Hr Hok Hk. rewrite no_room_spec. unfold append. destruct (Z.gtb_spec n (Free A)).
  - exists (replicate (Z.to_nat n) 0). assert (len (replicate (Z.to_nat n) 0) = n) as Hl by (rewrite length_replicate; lia).
    assert (bytes (replicate (Z.to_nat n) 0)) as Hb by (apply Forall_replicate; lia). split; [done|]. split; [done|].
    destruct (Hok _ Hl Hb) as (-> & _). destruct (Z.gtb_spec n (Free A)); [by apply does_fail|lia].
  - destruct (room_for m A behind n Hm) as (pre & old & rest & Em & Hpre & Hold & Hb & Hfill); [lia|].
    exists old. split; [done|]. split; [done|]. destruct (Hok old Hold Hb) as (Hl & Ho & He).
    rewrite Hl. destruct (Z.gtb_spec n (Free A)); [lia|].
    destruct (Hfill (a old) r') as (m' & Hc & Hm'); [done..|by apply Forall_app_2; [|constructor]|].
    exists m'. rewrite <- Hpre, Em, Hk, Hc by done. cbn [mbind option_bind fst snd Aces]. split; [done|].
    split; [done|]. split; [by apply Forall_app_2; [|constructor]|done].
Qed.

Lemma AddKnown_spec AceRevision AceFlags AccessMask Sid NewType : sid_arg Sid -> 0 <= AceRevision ->
  0 <= NewType <= ACCESS_MAX_MS_V2_ACE_TYPE ->
  does m behind (RtlpAddKnownAce Acl m AceRevision AceFlags AccessMask Sid NewType)
    (spec_known A AceRevision AceFlags AccessMask Sid NewType).
Proof using Hm Hev.
  intros Hsid Hr0 Ht. unfold RtlpAddKnownAce, spec_known. destruct Sid as [sid|]; [|by apply does_fail].
  destruct (RtlValidSid (Some sid)) eqn:Ev; [|by apply does_fail]. specialize (Hsid Ev). cbn [negb].
  rewrite (run_AclRevision Acl Hm). cbn [mbind option_bind]. rewrite rev_small. cbn [orb].
  destruct (Z.gtb_spec AceRevision ACL_REVISION4) as [|Hr4]; [by apply does_fail|]. unfold ACL_REVISION4 in Hr4.
  rewrite bad_flags_spec. destruct (negb _); [by apply does_fail|].
  rewrite (run_find_free Acl Hm), (run_SeLengthSid Hsid), (run_AclSize Acl Hm). cbn [mbind option_bind].
  pose proof (sid_least Hsid) as Hl. pose proof (sid_aligned Hsid) as Ha.
  assert (len (known_ace NewType (u8 AceFlags) AccessMask sid) = 8 + len sid) as Hla.
  { unfold known_ace. rewrite ace_len, length_app, le_bytes_length. lia. }
  assert (u16 (sizeof_ACE_HEADER + 4 + len sid) = len (known_ace NewType (u8 AceFlags) AccessMask sid)) as ->.
  { rewrite Hla. unfold sizeof_ACE_HEADER, uwrap. apply Z.mod_small. change (2 ^ 16) with 65536. lia. }
  rewrite new_revision_max by lia. destruct (acl_rev _ _ _ _ Hm) as [_ Hr]. unfold MAX_ACL_REVISION, ACL_REVISION4 in Hr.
  edestruct (does_append (len (known_ace NewType (u8 AceFlags) AccessMask sid))
    (fun _ => known_ace NewType (u8 AceFlags) AccessMask sid) (Z.max (Rev A) AceRevision) (fun m GrantAce =>
    m ← set_UCHAR m (GrantAce + 1) (u8 AceFlags); m ← set_UCHAR m GrantAce NewType;
    m ← set_USHORT m (GrantAce + 2) (len (known_ace NewType (u8 AceFlags) AccessMask sid));
    m ← set_ULONG m (GrantAce + 4) AccessMask; m ← RtlCopySid (len sid) m (GrantAce + 8) sid;
    m ← count_ace m (Z.max (Rev A) AceRevision); Some (STATUS_SUCCESS, m))) as (old & _ & _ & H); [..|exact H].
  - lia.
  - unfold MAX_ACL_REVISION, ACL_REVISION4. lia.
  - intros _ _ _. split; [done|]. split; [by apply known_ok|]. unfold even_size. rewrite Hla, Zeven_mod. apply Z.eqb_eq. zdiv.
  - intros pre old rest Ho. rewrite <- (take_drop 8 old), <- !app_assoc. rewrite write_front by (rewrite length_take; lia).
    rewrite app_assoc.
    replace (len pre + 8) with (len (pre ++ ace_header NewType (u8 AceFlags) (len (known_ace NewType (u8 AceFlags) AccessMask sid)) ++ le_bytes 4 AccessMask))
      by (rewrite length_app; cbn [length ace_header le_bytes app]; lia).
    rewrite (run_copy_sid Hsid) by (rewrite length_drop; lia). cbn [mbind option_bind].
    rewrite Hla. unfold known_ace, ace. rewrite length_app, le_bytes_length, <- !app_assoc. do 4 f_equal. f_equal. lia.
Qed.

Lemma copy_guid_spec pre old rest g : guid_ok g -> length old = length (default [] g) ->
  copy_guid (pre ++ old ++ rest) (len pre) g = Some (pre ++ default [] g ++ rest, len (pre ++ default [] g)).
Proof.
  intros Hg Ho. destruct g as [g|]; cbn in *; [|by destruct old; [rewrite app_nil_r|]]. destruct Hg as [Hg _].
  assert (read g 0 sizeof_GUID = Some g) as ->.
  { unfold read, sizeof_GUID. rewrite Hg. change (Some (take 16 g) = Some g). by rewrite take_ge by lia. }
  cbn [mbind option_bind]. rewrite write_here by done. cbn [mbind option_bind]. rewrite length_app. do 2 f_equal.
  unfold sizeof_GUID. lia.
Qed.

Lemma add_guid_len s g : guid_ok g -> 0 <= s < 65000 -> add_guid s g = s + len (default [] g).
Proof.
  intros Hg Hs. destruct g as [g|]; [|cbn; lia]. destruct Hg as [Hg _].
  change (u16 (s + 16) = s + len g). rewrite Hg. apply u16_small. lia.
Qed.

Definition spec_object (A : acl) (AceRevision AceFlags AccessMask : Z) (Guid1 Guid2 Sid : option (list Z)) (NewType : Z) : Z * acl :=
  match Sid with
  | Some sid =>
      if negb (RtlValidSid Sid) then (STATUS_INVALID_SID, A)
      else if negb (AceRevision =? ACL_REVISION4) then (STATUS_REVISION_MISMATCH, A)
      else if negb (Z.ldiff AceFlags (if (NewType =? SYSTEM_AUDIT_ACE_TYPE) || (NewType =? SYSTEM_AUDIT_OBJECT_ACE_TYPE)
                                      then 0xDF else 0x1F) =? 0) then (STATUS_INVALID_PARAMETER, A)
      else append A ACL_REVISION4 (object_ace NewType (u8 AceFlags) AccessMask Guid1 Guid2 sid)
  | None => (STATUS_INVALID_SID, A)
  end.

(** In an object ACE RtlValidAcl asks for at least one sub-authority. *)
Definition long_sid (Sid : option (list Z)) : Prop := match Sid with Some sid => 12 <= len sid | None => True end.

Lemma AddObject_spec AceRevision AceFlags AccessMask Guid1 Guid2 Sid NewType :
  sid_arg Sid -> long_sid Sid -> guid_ok Guid1 -> guid_ok Guid2 ->
  ACCESS_MIN_MS_OBJECT_ACE_TYPE <= NewType <= ACCESS_MAX_MS_OBJECT_ACE_TYPE ->
  does m behind (RtlpAddKnownObjectAce Acl m AceRevision AceFlags AccessMask Guid1 Guid2 Sid NewType)
    (spec_object A AceRevision AceFlags AccessMask Guid1 Guid2 Sid NewType).
Proof using Hm Hev.
  intros Hsid H12 Hg1 Hg2 Ht. unfold RtlpAddKnownObjectAce, spec_object. destruct Sid as [sid|]; [|by apply does_fail].
  destruct (RtlValidSid (Some sid)) eqn:Ev; [|by apply does_fail]. specialize (Hsid Ev). cbn [negb]. cbn [long_sid] in H12.
  rewrite (run_AclRevision Acl Hm). cbn [mbind option_bind]. rewrite rev_small. cbn [orb].
  destruct (Z.eqb_spec AceRevision ACL_REVISION4) as [->|]; [|by apply does_fail]. cbn [negb].
  rewrite bad_flags_spec. destruct (negb _); [by apply does_fail|].
  rewrite (run_find_free Acl Hm), (run_SeLengthSid Hsid), (run_AclSize Acl Hm). cbn [mbind option_bind].
  pose proof (sid_least Hsid) as Hl. pose proof (sid_aligned Hsid) as Ha.
  set (l1 := len (default [] Guid1)). set (l2 := len (default [] Guid2)).
  assert (l1 = 0 \/ l1 = 16) as Hl1 by (subst l1; destruct Guid1; [right; apply Hg1|by left]).
  assert (l2 = 0 \/ l2 = 16) as Hl2 by (subst l2; destruct Guid2; [right; apply Hg2|by left]).
  set (a := object_ace NewType (u8 AceFlags) AccessMask Guid1 Guid2 sid).
  assert (len a = 12 + l1 + l2 + len sid) as Hla.
  { unfold a, object_ace. rewrite ace_len, !length_app, !le_bytes_length. lia. }
  assert (add_guid (add_guid (u16 (sizeof_ACE_HEADER + 4 + 4 + len sid)) Guid1) Guid2 = len a) as ->.
  { rewrite Hla. unfold sizeof_ACE_HEADER. rewrite u16_small by lia. rewrite !add_guid_len by (rewrite ?add_guid_len by (done || lia); done || lia). lia. }
  rewrite new_revision_max by (unfold ACL_REVISION4; lia). destruct (acl_rev _ _ _ _ Hm) as [_ Hr]. unfold MAX_ACL_REVISION in Hr.
  rewrite Z.max_r by done.
  edestruct (does_append (len a) (fun _ => a) ACL_REVISION4 (fun m GrantAce =>
    m ← set_UCHAR m (GrantAce + 1) (u8 AceFlags); m ← set_UCHAR m GrantAce NewType;
    m ← set_USHORT m (GrantAce + 2) (len a);
    m ← set_ULONG m (GrantAce + 4) AccessMask;
    m ← set_ULONG m (GrantAce + 8) (guid_flags Guid1 Guid2);
    '(m, Where) ← copy_guid m (GrantAce + 12) Guid1; '(m, Where) ← copy_guid m Where Guid2;
    m ← RtlCopySid (len sid) m Where sid;
    m ← count_ace m ACL_REVISION4; Some (STATUS_SUCCESS, m))) as (old & _ & _ & H); [..|exact H].
  - lia.
  - done.
  - intros _ _ _. split; [done|]. split; [by apply object_ok|]. unfold even_size. rewrite Hla, Zeven_mod. apply Z.eqb_eq. zdiv.
  - intros pre old rest Ho.
    destruct (split_len old 8 (4 + (length (default [] Guid1) + (length (default [] Guid2) + length sid)))) as (o1 & o2 & -> & Ho1 & Ho2); [lia|].
    destruct (split_len o2 _ _ Ho2) as (o3 & o4 & -> & Ho3 & Ho4). destruct (split_len o4 _ _ Ho4) as (o5 & o6 & -> & Ho5 & Ho6).
    destruct (split_len o6 _ _ Ho6) as (o7 & o8 & -> & Ho7 & Ho8). rewrite <- !app_assoc, write_front by done.
    set (front := ace_header NewType (u8 AceFlags) (len a) ++ le_bytes 4 AccessMask).
    replace (len pre + 8) with (len (pre ++ front)) by (rewrite length_app; unfold front; cbn [length ace_header le_bytes app]; lia).
    replace (len pre + 12) with (len ((pre ++ front) ++ le_bytes 4 (guid_flags Guid1 Guid2)))
      by (rewrite !length_app; unfold front; cbn [length ace_header le_bytes app]; lia).
    rewrite app_assoc. unfold set_ULONG at 1. rewrite write_here by done. cbn [mbind option_bind].
    rewrite (app_assoc (pre ++ front)), copy_guid_spec by done. cbn [mbind option_bind].
    rewrite (app_assoc ((pre ++ front) ++ _)), copy_guid_spec by done. cbn [mbind option_bind].
    rewrite (app_assoc (((pre ++ front) ++ _) ++ _)), (run_copy_sid Hsid) by done. cbn [mbind option_bind].
    rewrite <- !app_assoc. subst a. unfold front, object_ace, ace at 2. rewrite ace_len, <- !app_assoc. done.
Qed.

Definition spec_compound (A : acl) (AceRevision CompoundAceType AccessMask : Z) (Server Client : option (list Z)) (reserved : list Z) : Z * acl :=
  match Server, Client with
  | Some server, Some client =>
      if negb (RtlValidSid Server) || negb (RtlValidSid Client) then (STATUS_INVALID_SID, A)
      else if (AceRevision <? ACL_REVISION3) || (AceRevision >? ACL_REVISION4) then (STATUS_REVISION_MISMATCH, A)
      else append A (Z.max (Rev A) AceRevision) (compound_ace CompoundAceType AccessMask reserved server client)
  | _, _ => (STATUS_INVALID_SID, A)
  end.

(** The two bytes that are not written are what was there. *)
Lemma AddCompound_spec AceRevision AccessMask Server Client : sid_arg Server -> sid_arg Client -> long_sid Client ->
  exists reserved, len reserved = 2 /\ bytes reserved /\
  does m behind (RtlAddCompoundAce Acl m AceRevision COMPOUND_ACE_IMPERSONATION AccessMask Server Client)
    (spec_compound A AceRevision COMPOUND_ACE_IMPERSONATION AccessMask Server Client reserved).
Proof using Hm Hev.
  intros Hs Hc H12. unfold RtlAddCompoundAce, spec_compound.
  assert (forall st, exists reserved : list Z, len reserved = 2 /\ bytes reserved /\ does m behind (Some (st, m)) (st, A)) as Hfail.
  { intros st. exists [0; 0]. split; [done|]. split; [by repeat (apply Forall_cons_2; [lia|])|]. by apply does_fail. }
  destruct Server as [server|]; [|apply Hfail]. destruct Client as [client|]; [|cbn [RtlValidSid negb]; rewrite orb_true_r; apply Hfail].
  destruct (RtlValidSid (Some server)) eqn:Ev; [|apply Hfail]. destruct (RtlValidSid (Some client)) eqn:Ev'; [|apply Hfail].
  specialize (Hs Ev). specialize (Hc Ev'). cbn [negb orb long_sid] in *.
  rewrite (run_AclRevision Acl Hm). cbn [mbind option_bind]. rewrite rev_small. cbn [orb].
  destruct (Z.ltb_spec AceRevision ACL_REVISION3) as [|Hr3]; [apply Hfail|].
  destruct (Z.gtb_spec AceRevision ACL_REVISION4) as [|Hr4]; [apply Hfail|]. unfold ACL_REVISION3, ACL_REVISION4 in Hr3, Hr4. cbn [orb].
  rewrite (run_find_free Acl Hm), (run_SeLengthSid Hs), (run_SeLengthSid Hc), (run_AclSize Acl Hm). cbn [mbind option_bind].
  pose proof (sid_least Hs) as Hl. pose proof (sid_aligned Hs) as Ha. pose proof (sid_least Hc) as Hl'. pose proof (sid_aligned Hc) as Ha'.
  set (n := 12 + len server + len client).
  assert (u16 (sizeof_KNOWN_COMPOUND_ACE - 4 + len client + len server) = n) as ->.
  { unfold sizeof_KNOWN_COMPOUND_ACE, n. rewrite u16_small by lia. lia. }
  rewrite new_revision_max by lia. destruct (acl_rev _ _ _ _ Hm) as [_ Hr]. unfold MAX_ACL_REVISION, ACL_REVISION4 in Hr.
  set (a := fun old : list Z => compound_ace COMPOUND_ACE_IMPERSONATION AccessMask (take 2 (drop 10 old)) server client).
  assert (forall old, len old = n -> len (a old) = n) as Hla.
  { intros old Ho. unfold a, compound_ace. rewrite ace_len, !length_app, !le_bytes_length, length_take, length_drop. lia. }
  edestruct (does_append n a (Z.max (Rev A) AceRevision) (fun m GrantAce =>
    m ← set_UCHAR m (GrantAce + 1) 0; m ← set_UCHAR m GrantAce ACCESS_ALLOWED_COMPOUND_ACE_TYPE;
    m ← set_USHORT m (GrantAce + 2) n; m ← set_ULONG m (GrantAce + 4) AccessMask;
    m ← set_USHORT m (GrantAce + 8) COMPOUND_ACE_IMPERSONATION;
    m ← RtlCopySid (len server) m (GrantAce + 12) server;
    m ← RtlCopySid (len client) m (GrantAce + 12 + len server) client;
    m ← count_ace m (Z.max (Rev A) AceRevision); Some (STATUS_SUCCESS, m))) as (old & Ho & Hb & H); [| | | |exists (take 2 (drop 10 old))].
  - lia.
  - unfold MAX_ACL_REVISION, ACL_REVISION4. lia.
  - intros old Ho Hb. split; [by apply Hla|]. split.
    + unfold a. apply compound_ok; [exact Hs|exact Hc|exact H12|rewrite length_take, length_drop; lia| |unfold ACL_REVISION3; lia].
      by apply Forall_take, Forall_drop.
    + unfold even_size. rewrite Hla, Zeven_mod by done. apply Z.eqb_eq. unfold n. zdiv.
  - intros pre old rest Ho.
    destruct (split_len old 8 (2 + (2 + (length server + length client)))) as (o1 & o2 & -> & Ho1 & Ho2); [lia|].
    destruct (split_len o2 _ _ Ho2) as (o3 & o4 & -> & Ho3 & Ho4). destruct (split_len o4 _ _ Ho4) as (o5 & o6 & -> & Ho5 & Ho6).
    destruct (split_len o6 _ _ Ho6) as (o7 & o8 & -> & Ho7 & Ho8). rewrite <- !app_assoc, write_front by done.
    set (front := ace_header ACCESS_ALLOWED_COMPOUND_ACE_TYPE 0 n ++ le_bytes 4 AccessMask).
    assert (len front = 8) as Hf by done.
    replace (len pre + 8) with (len (pre ++ front)) by (rewrite length_app; lia).
    set (type := le_bytes 2 COMPOUND_ACE_IMPERSONATION). assert (len type = 2) as Hty by done.
    replace (len pre + 12) with (len (((pre ++ front) ++ type) ++ o5)) by (rewrite !length_app; lia).
    replace (len (((pre ++ front) ++ type) ++ o5) + len server) with (len ((((pre ++ front) ++ type) ++ o5) ++ server)) by (rewrite !length_app; lia).
    rewrite app_assoc. unfold set_USHORT at 1. fold type. rewrite write_here by done. cbn [mbind option_bind].
    rewrite (app_assoc (pre ++ front)), (app_assoc ((pre ++ front) ++ type)), (run_copy_sid Hs) by done. cbn [mbind option_bind].
    rewrite (app_assoc (((pre ++ front) ++ type) ++ o5)), (run_copy_sid Hc) by done. cbn [mbind option_bind].
    rewrite <- !app_assoc. unfold a, compound_ace, ace. fold type.
    replace (take 2 (drop 10 (o1 ++ o3 ++ o5 ++ o7 ++ o8))) with o5.
    2: { rewrite app_assoc, drop_app_length', take_app_length' by (rewrite ?length_app; lia). done. }
    assert (4 + len (le_bytes 4 AccessMask ++ (type ++ o5) ++ server ++ client) = n) as ->
      by (rewrite !length_app, le_bytes_length; unfold n; lia).
    unfold front. rewrite <- !app_assoc. done.
  - split; [rewrite length_take, length_drop; lia|]. split; [by apply Forall_take, Forall_drop|exact H].
Qed.

(** ** Deleting *)

Definition spec_delete (A : acl) (i : Z) : Z * acl :=
  match Aces A !! Z.to_nat i with
  | Some a => (STATUS_SUCCESS, mkAcl (Rev A) (delete (Z.to_nat i) (Aces A)) (Free A + len a))
  | None => (STATUS_INVALID_PARAMETER, A)
  end.

Lemma concat_bytes r aces : Forall (ace_ok r) aces -> bytes (concat aces).
Proof. induction 1 as [|a aces [Hb _ _ _] _ IH]; [constructor|]. cbn. by apply Forall_app_2. Qed.

(** A change of the entries that keeps the header but for count and revision. *)
Lemma does_change s1 s2 A' room' :
  total A' = total A -> Rev A <= Rev A' <= MAX_ACL_REVISION -> len room' = Free A' -> bytes room' ->
  Forall (ace_ok (Rev A')) (Aces A') -> Forall even_size (Aces A') ->
  does m behind (Some (STATUS_SUCCESS, header (Rev A') s1 (total A) (len (Aces A')) s2 ++ concat (Aces A') ++ room' ++ behind))
    (STATUS_SUCCESS, A').
Proof using Hm Hev.
  intros Ht Hr Hl Hb Ha He. destruct Hm as [_ Hv Ht' Hadr _ _]. unfold MAX_ACL_REVISION, ACL_REVISION4, MIN_ACL_REVISION in *.
  eexists. split; [done|]. split; [|split; [done|done]]. cbn [snd].
  split; rewrite ?Ht; [|unfold MIN_ACL_REVISION, MAX_ACL_REVISION, ACL_REVISION4; lia|done..|].
  - by exists s1, s2, room'.
  - apply even_aligned; [|done]. by rewrite Z.even_add, Hadr.
Qed.

Lemma acl_Delete_spec i : 0 <= i -> does m behind (RtlDeleteAce Acl m i) (spec_delete A i).
Proof using Hm Hev.
  intros Hi. pose proof (acl_bounds Acl Hm) as (Hf & Ht & Hc & Hn). unfold RtlDeleteAce, spec_delete.
  rewrite (run_valid Acl Hm), (run_AceCount Acl Hm). cbn [negb mbind option_bind].
  destruct (Aces A !! Z.to_nat i) as [a|] eqn:Ea.
  2: { apply lookup_ge_None in Ea. destruct (Z.geb_spec i (len (Aces A))); [by apply does_fail|lia]. }
  pose proof (lookup_lt_Some _ _ _ Ea). destruct (Z.geb_spec i (len (Aces A))); [lia|].
  rewrite (run_free Acl Hm). cbn [mbind option_bind negb]. pose proof Hm as [(s1 & s2 & room & Hr & HB & Em) Hv Ht' _ Ha _].
  pose proof (take_drop_middle _ _ _ Ea) as E. set (u := take (Z.to_nat i) (Aces A)) in *. set (v := drop (S (Z.to_nat i)) (Aces A)) in *.
  set (h := header (Rev A) s1 (total A) (len (Aces A)) s2) in *. assert (len h = sizeof_ACL) as Hh by done.
  assert (ace_ok (Rev A) a /\ Forall (ace_ok (Rev A)) (u ++ v) /\ bytes (concat v)) as (Hoa & Hov & Hbv).
  { rewrite <- E in Ha. apply Forall_app in Ha as [Hou Ha]. apply Forall_cons_1 in Ha as [? Hov].
    split; [done|]. split; [by apply Forall_app_2|by apply (concat_bytes (Rev A))]. }
  assert (concat (Aces A) = concat u ++ a ++ concat v) as Ec by (rewrite <- E, concat_app; done).
  assert (m = (h ++ concat u) ++ a ++ concat v ++ room ++ behind) as Em' by (rewrite Em, Ec, <- !app_assoc; done).
  assert (skip_aces m (Z.to_nat i) FirstAce = Some (len (h ++ concat u))) as ->.
  { rewrite Em. apply skip_aces_in; [by apply (aces_shape (Rev A))|lia]. }
  cbn [mbind option_bind]. pose proof (ace_least _ _ Hoa). rewrite Em', AceSize_in, (ace_size _ _ Hoa) by done. cbn [mbind option_bind].
  unfold total in Ht'. rewrite Ec, !length_app in Ht'.
  replace (u32 (sizeof_ACL + len (concat (Aces A)) - len (h ++ concat u))) with (len a + len (concat v)).
  2: { rewrite Ec, !length_app. unfold sizeof_ACL in *. rewrite u32_small; lia. }
  rewrite RtlpDeleteData_spec by (done || unfold sizeof_ACL in *; lia). cbn [mbind option_bind]. rewrite <- Em', <- (app_assoc h).
  unfold h. rewrite read_count by lia. cbn [mbind option_bind]. rewrite write_count. cbn [mbind option_bind].
  assert (delete (Z.to_nat i) (Aces A) = u ++ v) as Ed by apply delete_take_drop.
  assert (len (u ++ v) = len (Aces A) - 1) as Hl by (rewrite <- E, !length_app; cbn [length]; lia).
  rewrite u16_small, Ed, <- Hl by lia.
  rewrite (app_assoc (concat u)), <- concat_app, (app_assoc (replicate _ 0)).
  apply (does_change s1 s2 (mkAcl (Rev A) (u ++ v) (Free A + len a))); cbn [Rev Aces Free].
  - unfold total. cbn [Aces Free]. rewrite Ec, concat_app, !length_app. lia.
  - unfold MAX_ACL_REVISION, MIN_ACL_REVISION in *. lia.
  - rewrite length_app, length_replicate. lia.
  - apply Forall_app_2; [apply Forall_replicate; lia|done].
  - done.
  - rewrite <- Ed. by apply Forall_delete.
Qed.

(** ** Adding a list of entries *)

(** The types RtlAddAce takes for a revision. *)
Definition type_allowed (AceRevision : Z) (a : list Z) : bool :=
  match AceType a 0 with
  | Some t =>
      negb ((t >? ACCESS_MAX_MS_V2_ACE_TYPE) && (t <=? ACCESS_MAX_MS_V3_ACE_TYPE) && (AceRevision <? ACL_REVISION3)) &&
      negb ((t >? ACCESS_MAX_MS_V3_ACE_TYPE) && (AceRevision <? ACL_REVISION4))
  | None => false
  end.

Lemma list_loop_spec AceRevision G L news fuel pre c : Forall (fun a => 4 <= len a /\ USHORT_at a 2 = Some (len a)) news ->
  L = len (pre ++ concat news) -> (length news < fuel)%nat -> 0 <= c -> c + len news < 2 ^ 32 ->
  list_loop fuel (pre ++ concat news ++ G) AceRevision L (len pre) c =
    Some (if forallb (type_allowed AceRevision) news then Some (L, c + len news) else None).
Proof.
  intros Ha. revert fuel pre c. induction Ha as [|a news [H4 Hs] _ IH]; intros fuel pre c HL Hfuel Hc H32;
    (destruct fuel as [|fuel]; [cbn in Hfuel; lia|]); cbn [list_loop forallb length] in *.
  - rewrite app_nil_r in HL. subst L. destruct (Z.ltb_spec (len pre) (len pre)); [lia|]. do 3 f_equal. lia.
  - rewrite concat_cons, !length_app in HL. destruct (Z.ltb_spec (len pre) L); [|lia].
    rewrite concat_cons_mem, <- app_assoc, AceSize_in, Hs, AceType_in, NextAce_in by (done || lia). cbn [mbind option_bind].
    unfold type_allowed at 1. unfold sizeof_ACE_HEADER. destruct (Z.ltb_spec (len a) 4); [lia|].
    destruct (Z.gtb_spec (len pre + len a) L); [lia|]. cbn [orb].
    assert (exists t, AceType a 0 = Some t) as [t ->].
    { unfold AceType. rewrite UCHAR_some by lia. apply (lookup_lt_is_Some_2 a). lia. }
    cbn [mbind option_bind]. destruct (_ && _ && _); [done|]. destruct (_ && _); [done|]. cbn [negb andb].
    rewrite u32_small, app_assoc, IH by (rewrite ?length_app; lia). destruct (forallb _ news); [|done]. do 3 f_equal. lia.
Qed.

Definition spec_add (A : acl) (AceRevision StartingAceIndex : Z) (news : list (list Z)) : Z * acl :=
  if negb (forallb (type_allowed AceRevision) news) then (STATUS_INVALID_PARAMETER, A)
  else if len (concat news) >? Free A then (STATUS_BUFFER_TOO_SMALL, A)
  else
    let k := Z.to_nat (Z.min StartingAceIndex (len (Aces A))) in
    (STATUS_SUCCESS, mkAcl (Z.max (Rev A) AceRevision) (take k (Aces A) ++ news ++ drop k (Aces A)) (Free A - len (concat news))).

Lemma AddAce_spec AceRevision StartingAceIndex news G : 0 <= AceRevision <= MAX_ACL_REVISION -> 0 <= StartingAceIndex ->
  Forall (ace_ok AceRevision) news -> Forall even_size news -> len (concat news) < 2 ^ 31 ->
  does m behind (RtlAddAce Acl m AceRevision StartingAceIndex (concat news ++ G) (len (concat news)))
    (spec_add A AceRevision StartingAceIndex news).
Proof using Hm Hev.
  intros Hrev Hi Hok Hen H31. pose proof (acl_bounds Acl Hm) as (Hf & Ht & Hc & Hn). unfold RtlAddAce, spec_add.
  unfold MAX_ACL_REVISION, ACL_REVISION4 in Hrev.
  rewrite (run_find_free Acl Hm), (run_AclRevision Acl Hm), (run_AclSize Acl Hm), (run_AceCount Acl Hm). cbn [mbind option_bind].
  pose proof (concat_least _ _ Hok) as Hcl.
  pose proof (list_loop_spec AceRevision G (len (concat news)) news (S (Z.to_nat (len (concat news)))) [] 0) as Hloop.
  change (Z.of_nat (@length Z [])) with 0 in Hloop. cbn [app] in Hloop. rewrite Hloop by (lia || done || by apply (aces_shape AceRevision)). clear Hloop. cbn [mbind option_bind].
  destruct (forallb _ news); [|by apply does_fail]. cbn [negb]. rewrite Z.eqb_refl. cbn [negb].
  pose proof (no_room_spec (len (concat news))) as Hnr. cbn [no_room] in Hnr. rewrite Hnr.
  destruct (Z.gtb_spec (len (concat news)) (Free A)) as [|Hfit]; [by apply does_fail|].
  pose proof Hm as [(s1 & s2 & room & Hr & HB & Em) Hv Ht' _ Ha _]. set (k := Z.to_nat (Z.min StartingAceIndex (len (Aces A)))).
  assert (k <= length (Aces A))%nat as Hk by lia. set (u := take k (Aces A)). set (v := drop k (Aces A)).
  assert (Aces A = u ++ v) as E by (symmetry; apply take_drop).
  assert (concat (Aces A) = concat u ++ concat v) as Ec by (by rewrite E, concat_app).
  destruct (split_len room (length (concat news)) (Z.to_nat (Free A) - length (concat news))) as (gap & room' & -> & Hgap & Hroom); [lia|].
  apply Forall_app in HB as [HBg HBr].
  set (h := header (Rev A) s1 (total A) (len (Aces A)) s2) in *. assert (len h = sizeof_ACL) as Hh by done.
  assert (skip_aces m k FirstAce = Some (len (h ++ concat u))) as ->.
  { rewrite Em. apply skip_aces_in; [by apply (aces_shape (Rev A))|done]. }
  cbn [mbind option_bind]. unfold total in Ht'. rewrite Ec, !length_app in Ht'.
  replace (u32 (sizeof_ACL + len (concat (Aces A)) - len (h ++ concat u))) with (len (concat v)).
  2: { rewrite Ec, !length_app. unfold sizeof_ACL in *. rewrite u32_small; lia. }
  assert (m = (h ++ concat u) ++ concat v ++ gap ++ room' ++ behind) as Em' by (rewrite Em, Ec, <- !app_assoc; done).
  rewrite Em' at 2. rewrite RtlpAddData_spec.
  2: done. 2: by apply (concat_bytes AceRevision). 2: by apply (concat_bytes (Rev A)), Forall_drop. 2: done.
  2: unfold sizeof_ACL in *; lia.
  cbn [mbind option_bind]. rewrite <- (app_assoc h). unfold h. rewrite read_count by lia. cbn [mbind option_bind].
  rewrite write_count. cbn [mbind option_bind].
  assert (len (Aces A) = len u + len v) as Hlen by (rewrite E, length_app; lia).
  rewrite u16_small by (unfold sizeof_ACL in *; lia). unfold MAX_ACL_REVISION, MIN_ACL_REVISION, ACL_REVISION4 in *.
  replace (if u8 AceRevision >? Rev A then u8 AceRevision else Rev A) with (Z.max (Rev A) AceRevision).
  2: { unfold uwrap. rewrite Z.mod_small by (change (2 ^ 8) with 256; lia). destruct (Z.gtb_spec AceRevision (Rev A)); lia. }
  rewrite write_rev by lia. cbn [mbind option_bind].
  set (A' := mkAcl (Z.max (Rev A) AceRevision) (u ++ news ++ v) (Free A - len (concat news))).
  replace (len (Aces A) + (0 + len news)) with (len (Aces A')) by (cbn [A' Aces]; rewrite !length_app; lia).
  assert (concat u ++ concat news ++ concat v ++ room' ++ behind = concat (Aces A') ++ room' ++ behind) as ->
    by (cbn [A' Aces]; rewrite !concat_app, <- !app_assoc; done).
  apply (does_change s1 s2 A' room'); cbn [A' Rev Aces Free]; [| |lia|done| |].
  - unfold total, A'. cbn [Aces Free]. rewrite Ec, !concat_app, !length_app. lia.
  - unfold MAX_ACL_REVISION, ACL_REVISION4. lia.
  - assert (forall r l, r <= Z.max (Rev A) AceRevision -> Forall (ace_ok r) l -> Forall (ace_ok (Z.max (Rev A) AceRevision)) l) as Hup.
    { intros r l Hle. apply Forall_impl. intros x. by apply ace_ok_mono. }
    apply Forall_app_2; [|apply Forall_app_2]; [apply (Hup (Rev A))|apply (Hup AceRevision)|apply (Hup (Rev A))]; try lia;
      [by apply Forall_take|done|by apply Forall_drop].
  - apply Forall_app_2; [by apply Forall_take|apply Forall_app_2; [done|by apply Forall_drop]].
Qed.

(** ** Queries *)

Lemma rev_valid : ValidAclRevision (Rev A) = true.
Proof using Hm.
  destruct (acl_rev _ _ _ _ Hm). unfold ValidAclRevision. destruct (Z.geb_spec (Rev A) MIN_ACL_REVISION); [|lia].
  by destruct (Z.leb_spec (Rev A) MAX_ACL_REVISION); [|lia].
Qed.

Lemma acl_Get_spec i : 0 <= i -> RtlGetAce m i true =
  Some (match Aces A !! Z.to_nat i with
        | Some _ => (STATUS_SUCCESS, Some (sizeof_ACL + len (concat (take (Z.to_nat i) (Aces A)))))
        | None => (STATUS_INVALID_PARAMETER, None)
        end).
Proof using Hm.
  intros Hi. pose proof (acl_bounds Acl Hm) as (Hf & Ht & _ & _). unfold RtlGetAce.
  rewrite (run_AclRevision Acl Hm), (run_AceCount Acl Hm), (run_AclSize Acl Hm). cbn [mbind option_bind].
  rewrite rev_valid. cbn [negb orb]. destruct (Aces A !! Z.to_nat i) as [a|] eqn:Ea.
  2: { apply lookup_ge_None in Ea. destruct (Z.geb_spec i (len (Aces A))); [done|lia]. }
  pose proof (lookup_lt_Some _ _ _ Ea). destruct (Z.geb_spec i (len (Aces A))); [lia|]. cbn [orb].
  destruct Hm as [(s1 & s2 & room & Hr & _ & ->) _ _ _ Ha _].
  set (h := header (Rev A) s1 (total A) (len (Aces A)) s2) in *. assert (len h = sizeof_ACL) as Hh by done.
  assert (len (concat (Aces A)) = len (concat (take (Z.to_nat i) (Aces A))) + len a + len (concat (drop (S (Z.to_nat i)) (Aces A)))) as Hl.
  { rewrite <- (take_drop_middle _ _ _ Ea) at 1. rewrite concat_app, concat_cons, !length_app. lia. }
  pose proof (ace_least _ _ (proj1 (Forall_lookup _ _) Ha _ _ Ea)) as H4. change FirstAce with (len h).
  rewrite get_loop_in; [|by apply (aces_shape (Rev A))|rewrite length_app, Nat2Z.inj_add, Hh; unfold total; lia|lia].
  cbn [mbind option_bind negb orb]. rewrite length_app, Nat2Z.inj_add, Hh. unfold total, sizeof_ACE_HEADER in *.
  destruct (Z.gtb_spec (sizeof_ACL + len (concat (take (Z.to_nat i) (Aces A))) + 4) (sizeof_ACL + len (concat (Aces A)) + Free A)); [lia|done].
Qed.

Lemma Query_spec L c : RtlQueryInformationAcl m L c =
  Some (if c =? AclRevisionInformation then
          if L <? 4 then (STATUS_BUFFER_TOO_SMALL, None) else (STATUS_SUCCESS, Some (ACL_REVISION_INFORMATION (Rev A)))
        else if c =? AclSizeInformation then
          if L <? 12 then (STATUS_BUFFER_TOO_SMALL, None)
          else (STATUS_SUCCESS, Some (ACL_SIZE_INFORMATION (len (Aces A)) (sizeof_ACL + len (concat (Aces A))) (Free A)))
        else (STATUS_INVALID_INFO_CLASS, None)).
Proof using Hm.
  pose proof (acl_bounds Acl Hm) as (Hf & Ht & _ & _). unfold RtlQueryInformationAcl.
  rewrite (run_AclRevision Acl Hm), (run_AceCount Acl Hm), (run_AclSize Acl Hm), (run_free Acl Hm). cbn [mbind option_bind].
  rewrite rev_valid. cbn [negb]. destruct (c =? AclRevisionInformation); [by destruct (L <? 4)|].
  destruct (c =? AclSizeInformation); [|done]. destruct (L <? 12); [done|]. unfold total, sizeof_ACL in *.
  rewrite !u32_small by lia. do 4 f_equal. lia.
Qed.

Definition spec_set (A : acl) (r L c : Z) : Z * acl :=
  if c =? AclRevisionInformation then
    if L <? 4 then (STATUS_BUFFER_TOO_SMALL, A)
    else if (r <? Rev A) || (r >? MAX_ACL_REVISION) then (STATUS_INVALID_PARAMETER, A)
    else (STATUS_SUCCESS, mkAcl r (Aces A) (Free A))
  else (STATUS_INVALID_INFO_CLASS, A).

Lemma Set_spec r L c : does m behind (RtlSetInformationAcl m r L c) (spec_set A r L c).
Proof using Hm Hev.
  unfold RtlSetInformationAcl, spec_set. rewrite (run_AclRevision Acl Hm). cbn [mbind option_bind]. rewrite rev_valid. cbn [negb].
  destruct (c =? AclRevisionInformation); [|by apply does_fail]. destruct (L <? 4); [by apply does_fail|].
  destruct (_ || _) eqn:E; [by apply does_fail|]. apply orb_false_iff in E as [E1%Z.ltb_ge E2]. rewrite Z.gtb_ltb in E2.
  apply Z.ltb_ge in E2. pose proof Hm as [(s1 & s2 & room & Hr & HB & Em) Hv _ _ Ha _].
  unfold MIN_ACL_REVISION, MAX_ACL_REVISION, ACL_REVISION4 in *. rewrite Em at 2.
  rewrite u8_small, write_rev by lia. cbn [mbind option_bind].
  apply (does_change s1 s2 (mkAcl r (Aces A) (Free A)) room); cbn [Rev Aces Free]; [done| |done|done| |done].
  - unfold MAX_ACL_REVISION, ACL_REVISION4. lia.
  - eapply Forall_impl; [|exact Ha]. intros x. by apply ace_ok_mono.
Qed.

End Adding.

(** ** Creation *)

Lemma Create_spec m L r : bytes m -> sizeof_ACL <= L <= len m -> L <= MAX_USTRING ->
  MIN_ACL_REVISION <= r <= MAX_ACL_REVISION -> Z.even Acl = true ->
  exists m', RtlCreateAcl m L r = Some (STATUS_SUCCESS, m') /\
    is_acl Acl m' (mkAcl r [] (4 * (L / 4) - sizeof_ACL)) (drop (Z.to_nat (4 * (L / 4))) m).
Proof.
  intros Hb HL Hmax Hr He. unfold RtlCreateAcl, sizeof_ACL, MAX_USTRING, MIN_ACL_REVISION, MAX_ACL_REVISION, ACL_REVISION4 in *.
  change (2 * (65535 / 2)) with 65534 in *.
  destruct (Z.ltb_spec L 8); [lia|]. destruct (Z.ltb_spec r 2), (Z.gtb_spec r 4); try lia. cbn [orb].
  destruct (Z.gtb_spec L 65534); [lia|].
  assert (Z.land L 0xfffc = 4 * (L / 4)) as ->.
  { change 0xfffc with (Z.ldiff (Z.ones 16) (Z.ones 2)). rewrite Z.ldiff_land, Z.land_assoc, Z.land_ones, <- Z.ldiff_land by lia.
    rewrite Z.mod_small by lia. rewrite Z.ldiff_ones_r, Z.shiftl_mul_pow2, Z.shiftr_div_pow2 by lia. change (2 ^ 2) with 4. lia. }
  assert (exists old rest, m = old ++ rest /\ length old = 8%nat) as (old & rest & -> & Ho).
  { exists (take 8 m), (drop 8 m). rewrite take_drop, length_take. split; [done|lia]. }
  do 8 (destruct old as [|? old]; [done|]). destruct old; [|done]. rewrite u8_small, u16_small by zdiv.
  unfold set_UCHAR, set_USHORT. do 5 (rewrite write_head by in_place; cbn [mbind option_bind]).
  eexists. split; [done|]. set (A := mkAcl r [] (4 * (L / 4) - 8)). assert (total A = 4 * (L / 4)) as Ht by (unfold total, sizeof_ACL; cbn; lia).
  apply Forall_app in Hb as [_ Hb]. rewrite length_app in HL. cbn [length] in HL.
  split; rewrite ?Ht; [|done|zdiv|done|constructor|done].
  exists 0, 0, (take (Z.to_nat (4 * (L / 4) - 8)) rest). split; [|split].
  - rewrite length_take. cbn [A Free]. zdiv.
  - by apply Forall_take.
  - rewrite drop_app_ge by (cbn [length]; zdiv). cbn [length A Rev Aces concat app].
    replace (Z.to_nat (4 * (L / 4)) - 8)%nat with (Z.to_nat (4 * (L / 4) - 8)) by lia. rewrite take_drop.
    rewrite <- (Z.mod_small r 256) at 2 by lia. done.
Qed.

End Room.

End AclOps.
