(* ===== verification/RtlAclSpec.v ===== *)
(** * Access control lists: the theorems

    Module [AclSpec] puts the routines of rtl/acledit.c together: RtlValidAcl
    accepts exactly the memories that hold an ACL, and any sequence of edits on a
    valid ACL does what the same edits do to a list of entries with a bound on its
    size, and leaves a valid ACL.  The requests that keep the ACL valid are named
    by [good]; the theorems at the end show that the routines accept others, after
    which the ACL is not valid any more. *)

From S2P Require Import Prelude RtlAcl RtlAclLayout RtlAclOps.

Module AclSpec.

Import Acl AclLayout AclOps.

(** ** Edits *)

Inductive request :=
  | AskAdd (AceRevision StartingAceIndex : Z) (news : list (list Z))
  | AskAllowed (AceRevision AccessMask : Z) (Sid : option (list Z))
  | AskAllowedEx (AceRevision AceFlags AccessMask : Z) (Sid : option (list Z))
  | AskDenied (AceRevision AccessMask : Z) (Sid : option (list Z))
  | AskDeniedEx (AceRevision AceFlags AccessMask : Z) (Sid : option (list Z))
  | AskAudit (AceRevision AccessMask : Z) (Sid : option (list Z)) (AuditSuccess AuditFailure : bool)
  | AskAuditEx (AceRevision AceFlags AccessMask : Z) (Sid : option (list Z)) (AuditSuccess AuditFailure : bool)
  | AskAllowedObject (AceRevision AceFlags AccessMask : Z) (Guid1 Guid2 Sid : option (list Z))
  | AskDeniedObject (AceRevision AceFlags AccessMask : Z) (Guid1 Guid2 Sid : option (list Z))
  | AskAuditObject (AceRevision AceFlags AccessMask : Z) (Guid1 Guid2 Sid : option (list Z)) (AuditSuccess AuditFailure : bool)
  | AskCompound (AceRevision AccessMask : Z) (Server Client : option (list Z))
  | AskDelete (AceIndex : Z)
  | AskRevision (Revision : Z).

Section Editing.
Variable Acl : Z.

Definition serve (q : request) (m : list Z) : option (Z * list Z) :=
  match q with
  | AskAdd r i news => RtlAddAce Acl m r i (concat news) (len (concat news))
  | AskAllowed r mask sid => RtlAddAccessAllowedAce Acl m r mask sid
  | AskAllowedEx r f mask sid => RtlAddAccessAllowedAceEx Acl m r f mask sid
  | AskDenied r mask sid => RtlAddAccessDeniedAce Acl m r mask sid
  | AskDeniedEx r f mask sid => RtlAddAccessDeniedAceEx Acl m r f mask sid
  | AskAudit r mask sid s e => RtlAddAuditAccessAce Acl m r mask sid s e
  | AskAuditEx r f mask sid s e => RtlAddAuditAccessAceEx Acl m r f mask sid s e
  | AskAllowedObject r f mask g1 g2 sid => RtlAddAccessAllowedObjectAce Acl m r f mask g1 g2 sid
  | AskDeniedObject r f mask g1 g2 sid => RtlAddAccessDeniedObjectAce Acl m r f mask g1 g2 sid
  | AskAuditObject r f mask g1 g2 sid s e => RtlAddAuditAccessObjectAce Acl m r f mask g1 g2 sid s e
  | AskCompound r mask server client => RtlAddCompoundAce Acl m r COMPOUND_ACE_IMPERSONATION mask server client
  | AskDelete i => RtlDeleteAce Acl m i
  | AskRevision r => RtlSetInformationAcl m r 4 AclRevisionInformation
  end.

(** An object entry without GUIDs is an ordinary one. *)
Definition spec_object_or_known (A : acl) (r f mask : Z) (g1 g2 sid : option (list Z)) (known object : Z) : Z * acl :=
  match g1, g2 with
  | None, None => spec_known A r f mask sid known
  | _, _ => spec_object A r f mask g1 g2 sid object
  end.

(** The status and the list of entries each request leads to. *)
Definition specify (q : request) (A : acl) (p : Z * acl) : Prop :=
  match q with
  | AskAdd r i news => p = spec_add A r i news
  | AskAllowed r mask sid => p = spec_known A r 0 mask sid ACCESS_ALLOWED_ACE_TYPE
  | AskAllowedEx r f mask sid => p = spec_known A r f mask sid ACCESS_ALLOWED_ACE_TYPE
  | AskDenied r mask sid => p = spec_known A r 0 mask sid ACCESS_DENIED_ACE_TYPE
  | AskDeniedEx r f mask sid => p = spec_known A r f mask sid ACCESS_DENIED_ACE_TYPE
  | AskAudit r mask sid s e => p = spec_known A r (audit_flags 0 s e) mask sid SYSTEM_AUDIT_ACE_TYPE
  | AskAuditEx r f mask sid s e => p = spec_known A r (audit_flags f s e) mask sid SYSTEM_AUDIT_ACE_TYPE
  | AskAllowedObject r f mask g1 g2 sid =>
      p = spec_object_or_known A r f mask g1 g2 sid ACCESS_ALLOWED_ACE_TYPE ACCESS_ALLOWED_OBJECT_ACE_TYPE
  | AskDeniedObject r f mask g1 g2 sid =>
      p = spec_object_or_known A r f mask g1 g2 sid ACCESS_DENIED_ACE_TYPE ACCESS_DENIED_OBJECT_ACE_TYPE
  | AskAuditObject r f mask g1 g2 sid s e =>
      p = spec_object_or_known A r (audit_flags f s e) mask g1 g2 sid SYSTEM_AUDIT_ACE_TYPE SYSTEM_AUDIT_OBJECT_ACE_TYPE
  | AskCompound r mask server client => exists reserved, len reserved = 2 /\
      p = spec_compound A r COMPOUND_ACE_IMPERSONATION mask server client reserved
  | AskDelete i => p = spec_delete A i
  | AskRevision r => p = spec_set A r 4 AclRevisionInformation
  end.

(** The requests after which the ACL is valid: entries handed to RtlAddAce are
    right for the revision and of even size, SIDs have the current revision, and
    the SID of an object entry and the client SID of a compound one have a
    sub-authority. *)
Definition object_arg (r : Z) (g1 g2 sid : option (list Z)) : Prop :=
  0 <= r /\ sid_arg sid /\ long_sid sid /\ guid_ok g1 /\ guid_ok g2.

Definition good (q : request) : Prop :=
  match q with
  | AskAdd r i news => 0 <= r <= MAX_ACL_REVISION /\ 0 <= i /\ Forall (ace_ok r) news /\ Forall even_size news /\
      len (concat news) < 2 ^ 31
  | AskAllowed r _ sid | AskAllowedEx r _ _ sid | AskDenied r _ sid | AskDeniedEx r _ _ sid
  | AskAudit r _ sid _ _ | AskAuditEx r _ _ sid _ _ => 0 <= r /\ sid_arg sid
  | AskAllowedObject r _ _ g1 g2 sid | AskDeniedObject r _ _ g1 g2 sid
  | AskAuditObject r _ _ g1 g2 sid _ _ => object_arg r g1 g2 sid
  | AskCompound _ _ server client => sid_arg server /\ sid_arg client /\ long_sid client
  | AskDelete i => 0 <= i
  | AskRevision _ => True
  end.

Lemma object_correct m A behind r f mask g1 g2 sid known object : is_acl Acl m A behind -> Forall even_size (Aces A) ->
  object_arg r g1 g2 sid -> 0 <= known <= ACCESS_MAX_MS_V2_ACE_TYPE ->
  ACCESS_MIN_MS_OBJECT_ACE_TYPE <= object <= ACCESS_MAX_MS_OBJECT_ACE_TYPE ->
  does Acl m behind (add_object_ace Acl m r f mask g1 g2 sid known object)
    (spec_object_or_known A r f mask g1 g2 sid known object).
Proof.
  intros Hm He (Hr & Hs & Hl & H1 & H2) Hk Ho. unfold add_object_ace, spec_object_or_known.
  destruct g1; [by apply AddObject_spec|]. destruct g2; [by apply AddObject_spec|by apply AddKnown_spec].
Qed.

Lemma acl_serve_correct q m A behind : is_acl Acl m A behind -> Forall even_size (Aces A) -> good q ->
  exists p, specify q A p /\ does Acl m behind (serve q m) p.
Proof.
  intros Hm He Hq. destruct q; cbn [serve specify good] in *.
  - destruct Hq as (? & ? & ? & ? & ?). eexists. split; [done|]. rewrite <- (app_nil_r (concat news)) at 1. by apply AddAce_spec.
  - destruct Hq. eexists. split; [done|]. by apply AddKnown_spec.
  - destruct Hq. eexists. split; [done|]. by apply AddKnown_spec.
  - destruct Hq. eexists. split; [done|]. by apply AddKnown_spec.
  - destruct Hq. eexists. split; [done|]. by apply AddKnown_spec.
  - destruct Hq. eexists. split; [done|]. by apply AddKnown_spec.
  - destruct Hq. eexists. split; [done|]. by apply AddKnown_spec.
  - eexists. split; [done|]. by apply object_correct.
  - eexists. split; [done|]. by apply object_correct.
  - eexists. split; [done|]. by apply object_correct.
  - destruct Hq as (? & ? & ?).
    destruct (AddCompound_spec Acl Hm He AceRevision AccessMask Server Client) as (res & Hl & _ & Hd); [done..|].
    eexists. split; [by exists res|done].
  - eexists. split; [done|]. by apply acl_Delete_spec.
  - eexists. split; [done|]. by apply Set_spec.
Qed.

Fixpoint serve_all (qs : list request) (m : list Z) : option (list Z * list Z) :=
  match qs with
  | [] => Some ([], m)
  | q :: qs => '(st, m) ← serve q m; '(sts, m) ← serve_all qs m; Some (st :: sts, m)
  end.

Fixpoint specify_all (qs : list request) (A : acl) (sts : list Z) (A' : acl) : Prop :=
  match qs, sts with
  | [], [] => A' = A
  | q :: qs, st :: sts => exists A1, specify q A (st, A1) /\ specify_all qs A1 sts A'
  | _, _ => False
  end.

(** C9: The editing routines implement a list of entries of bounded size: in any
    sequence of [good] additions of every kind, deletions and changes of the revision on
    a valid ACL whose entries have even sizes, no routine faults, every status is the one the list gives, the
    entries in memory are those of the list in its order, each as its routine
    encodes it, nothing behind the AclSize bytes is written, and RtlValidAcl
    accepts the result; a size query reports the bytes in use and free.  [good] requests
    pass RtlAddAce well-formed entries of even size (fewer than 2^31 bytes) and a known
    revision, RtlAddCompoundAce the type COMPOUND_ACE_IMPERSONATION, and the other
    routines SIDs of revision 1 that have a sub-authority where RtlValidAcl asks for
    one. *)
Theorem acl_refines_list qs m A behind : is_acl Acl m A behind -> Forall even_size (Aces A) -> Forall good qs ->
  exists sts m' A', serve_all qs m = Some (sts, m') /\ specify_all qs A sts A' /\ is_acl Acl m' A' behind /\
    RtlValidAcl Acl m' = true /\
    RtlQueryInformationAcl m' 12 AclSizeInformation =
      Some (STATUS_SUCCESS, Some (ACL_SIZE_INFORMATION (len (Aces A')) (sizeof_ACL + len (concat (Aces A'))) (Free A'))).
Proof.
  intros Hm He Hq. revert m A Hm He. induction Hq as [|q qs Hq _ IH]; intros m A Hm He.
  - exists [], m, A. split; [done|]. split; [done|]. split; [done|]. split; [by apply (run_valid Acl Hm)|]. apply (Query_spec Acl Hm).
  - destruct (acl_serve_correct q m A behind Hm He Hq) as ([st A1] & Hsp & m1 & Hs & Hm1 & He1 & _).
    destruct (IH m1 A1 Hm1 He1) as (sts & m' & A' & Hs' & Hsp' & H). exists (st :: sts), m', A'.
    cbn [serve_all specify_all]. rewrite Hs. cbn [mbind option_bind fst]. rewrite Hs'. split; [done|]. split; [by exists A1|done].
Qed.

(** C32: RtlValidAcl decides the layout: it returns TRUE exactly when the AclSize
    bytes are a header of a known revision, AceCount entries one behind the other,
    each at an even address, saying its own size and with the contents of its type
    ([ace_form]: masks, GUIDs and SIDs, spelt out field by field), and free bytes.  The
    memory is taken to reach to the end of the header and of the AclSize bytes. *)
Theorem RtlValidAcl_iff m : bytes m -> 8 <= len m -> (forall s, AclSize m = Some s -> s <= len m) ->
  RtlValidAcl Acl m = true <-> exists A behind, is_acl Acl m A behind.
Proof.
  intros Hb H8 Hs. split; [by apply valid_inv|]. intros (A & behind & Hm). apply (run_valid Acl Hm).
Qed.

(** The bytes of an entry. *)
Lemma read_entry m A behind i a : is_acl Acl m A behind -> Aces A !! i = Some a ->
  read m (sizeof_ACL + len (concat (take i (Aces A)))) (len a) = Some a.
Proof.
  intros Hm Ha. destruct (acl_mem _ _ _ _ Hm) as (s1 & s2 & room & _ & _ & ->).
  set (h := header (Rev A) s1 (total A) (len (Aces A)) s2). assert (len h = sizeof_ACL) as Hh by done.
  rewrite <- (take_drop_middle _ _ _ Ha) at 1. rewrite concat_app, concat_cons, <- !app_assoc, (app_assoc h).
  replace (sizeof_ACL + len (concat (take i (Aces A)))) with (len (h ++ concat (take i (Aces A))) + 0)
    by (rewrite length_app, Nat2Z.inj_add, Hh; lia).
  rewrite read_in by lia. unfold read. cbn [Z.leb Z.compare andb]. rewrite Z.add_0_l, Z.leb_refl. by rewrite Nat2Z.id, take_ge.
Qed.

(** RtlGetAce returns the address of the entry with the given index, counted
    from the first, and STATUS_INVALID_PARAMETER beyond the last; RtlDeleteAce
    removes exactly that entry, and afterwards the index finds the next one. *)
Theorem get_after_delete m A behind i a : is_acl Acl m A behind -> Forall even_size (Aces A) -> 0 <= i ->
  Aces A !! Z.to_nat i = Some a ->
  exists m' o, RtlGetAce m i true = Some (STATUS_SUCCESS, Some o) /\ read m o (len a) = Some a /\
    RtlDeleteAce Acl m i = Some (STATUS_SUCCESS, m') /\
    forall b, Aces A !! S (Z.to_nat i) = Some b ->
      RtlGetAce m' i true = Some (STATUS_SUCCESS, Some o) /\ read m' o (len b) = Some b.
Proof.
  intros Hm He Hi Ha. destruct (acl_Delete_spec Acl Hm He i Hi) as (m' & Hd & Hm' & _ & _). unfold spec_delete in Hd, Hm'.
  rewrite Ha in Hd, Hm'. cbn [fst snd] in Hd, Hm'.
  exists m', (sizeof_ACL + len (concat (take (Z.to_nat i) (Aces A)))). rewrite (acl_Get_spec Acl Hm) by done. rewrite Ha.
  split; [done|]. split; [by apply (read_entry m A behind)|]. split; [done|]. intros b Hb.
  assert (delete (Z.to_nat i) (Aces A) !! Z.to_nat i = Some b) as Hb' by (rewrite list_lookup_delete_ge by lia; done).
  rewrite (acl_Get_spec Acl Hm') by done. cbn [Aces]. rewrite Hb'.
  assert (take (Z.to_nat i) (delete (Z.to_nat i) (Aces A)) = take (Z.to_nat i) (Aces A)) as Et.
  { rewrite delete_take_drop. pose proof (lookup_lt_Some _ _ _ Ha). rewrite take_app_le, take_take, Nat.min_id by (rewrite length_take; lia). done. }
  rewrite Et. split; [done|]. rewrite <- Et. apply (read_entry m' _ behind _ _ Hm'). done.
Qed.

End Editing.

(** ** Examples *)

Definition ex_sid : list Z := [1; 1; 0; 0; 0; 0; 0; 5; 18; 0; 0; 0].
Definition ex_acl : list Z := [2; 0; 200; 0; 0; 0; 0; 0] ++ replicate 192 0.
Definition ex_guid : list Z := replicate 16 7.

Lemma bytes_check l : forallb (fun b => (0 <=? b) && (b <? 256)) l = true -> bytes l.
Proof.
  induction l as [|b l IH]; [constructor|]. cbn. intros [Hb Hl]%andb_true_iff. constructor; [lia|by apply IH].
Qed.

(** The ACL that RtlCreateAcl makes of 200 bytes. *)
Example ex_created : RtlCreateAcl (replicate 200 0) 200 2 = Some (STATUS_SUCCESS, ex_acl).
Proof. by vm_compute. Qed.

Lemma ex_is_acl : is_acl 4096 ex_acl (mkAcl 2 [] 192) [].
Proof.
  split; [|by vm_compute|by vm_compute|done|constructor|done]. exists 0, 0, (replicate 192 0).
  split; [done|]. split; [by apply Forall_replicate|done].
Qed.

Lemma ex_is_sid : is_sid ex_sid.
Proof.
  split; [exists 1, [0; 0; 0; 0; 0; 5; 18; 0; 0; 0]; by vm_compute|]. by apply bytes_check.
Qed.

Definition ex_requests : list request :=
  [AskAllowed 2 0x1ff (Some ex_sid); AskDeniedObject 4 0 1 (Some ex_guid) None (Some ex_sid);
   AskCompound 3 7 (Some ex_sid) (Some ex_sid); AskAdd 2 0 [known_ace 1 0 2 ex_sid];
   AskDelete 1; AskDelete 7; AskAuditEx 2 0 1 None true false; AskRevision 4].

Lemma ex_good : Forall good ex_requests.
Proof.
  assert (sid_arg (Some ex_sid)) by (intros _; apply ex_is_sid). assert (long_sid (Some ex_sid)) by by vm_compute.
  repeat apply Forall_cons_2; try apply Forall_nil_2; cbn [good]; unfold object_arg; try done.
  - split; [lia|]. split; [done|]. split; [done|]. split; [|done]. split; [done|by apply Forall_replicate].
  - split; [by vm_compute|]. split; [lia|]. split; [|split; [by apply Forall_cons_2|by vm_compute]].
    apply Forall_cons_2; [|done]. apply known_ok; [apply ex_is_sid|by vm_compute].
Qed.

Lemma acl_refines_list_witness : exists sts m' A', serve_all 4096 ex_requests ex_acl = Some (sts, m') /\
  specify_all ex_requests (mkAcl 2 [] 192) sts A' /\ is_acl 4096 m' A' [] /\ RtlValidAcl 4096 m' = true /\
  RtlQueryInformationAcl m' 12 AclSizeInformation =
    Some (STATUS_SUCCESS, Some (ACL_SIZE_INFORMATION (len (Aces A')) (sizeof_ACL + len (concat (Aces A'))) (Free A'))).
Proof. exact (acl_refines_list 4096 ex_requests ex_acl (mkAcl 2 [] 192) [] ex_is_acl (Forall_nil_2 _) ex_good). Defined.

(** The statuses of the example. *)
Example ex_statuses : fst <$> serve_all 4096 ex_requests ex_acl = Some
  [STATUS_SUCCESS; STATUS_SUCCESS; STATUS_SUCCESS; STATUS_SUCCESS; STATUS_SUCCESS; STATUS_INVALID_PARAMETER;
   STATUS_INVALID_SID; STATUS_SUCCESS].
Proof. by vm_compute. Qed.

Lemma RtlValidAcl_iff_witness : bytes ex_acl /\ (RtlValidAcl 4096 ex_acl = true <-> exists A behind, is_acl 4096 ex_acl A behind).
Proof.
  assert (bytes ex_acl) as Hb by by apply bytes_check. split; [exact Hb|]. apply (RtlValidAcl_iff 4096 ex_acl Hb).
  - by vm_compute.
  - intros s [= <-]. by vm_compute.
Defined.

Definition ex_two : acl := mkAcl 2 [known_ace 0 0 1 ex_sid; known_ace 1 0 2 ex_sid] 0.
Definition ex_two_mem : list Z := [2; 0; 48; 0; 2; 0; 0; 0] ++ concat (Aces ex_two).

Lemma ex_two_is_acl : is_acl 4096 ex_two_mem ex_two [].
Proof.
  split; [|by vm_compute|by vm_compute|done| |by vm_compute].
  - exists 0, 0, []. split; [done|]. split; [constructor|by vm_compute].
  - repeat apply Forall_cons_2; try apply Forall_nil_2; (apply known_ok; [apply ex_is_sid|by vm_compute]).
Qed.

Lemma get_after_delete_witness : exists m' o, RtlGetAce ex_two_mem 0 true = Some (STATUS_SUCCESS, Some o) /\
  read ex_two_mem o 20 = Some (known_ace 0 0 1 ex_sid) /\ RtlDeleteAce 4096 ex_two_mem 0 = Some (STATUS_SUCCESS, m') /\
  forall b, Aces ex_two !! 1%nat = Some b -> RtlGetAce m' 0 true = Some (STATUS_SUCCESS, Some o) /\ read m' o (len b) = Some b.
Proof.
  apply (get_after_delete 4096 ex_two_mem ex_two [] 0 (known_ace 0 0 1 ex_sid) ex_two_is_acl); [|lia|done].
  by repeat apply Forall_cons_2.
Defined.

(** ** Edits that succeed and leave an ACL that is not valid *)

(** The routine returns STATUS_SUCCESS, and RtlValidAcl refuses the result. *)
Definition breaks (r : option (Z * list Z)) : Prop :=
  exists m', r = Some (STATUS_SUCCESS, m') /\ RtlValidAcl 4096 m' = false.

(** RtlAddAce looks at the size and the type of the entries in AceList only: an
    access-allowed entry of four bytes, without mask and SID, is accepted. *)
Theorem unchecked_entry : RtlValidAcl 4096 ex_acl = true /\ breaks (RtlAddAce 4096 ex_acl 2 0 [0; 0; 4; 0] 4).
Proof. split; [by vm_compute|]. eexists. split; by vm_compute. Qed.

(** RtlAddAce puts any AceRevision into the ACL, which no routine accepts then. *)
Theorem unchecked_revision : breaks (RtlAddAce 4096 ex_acl 5 0 [] 0).
Proof. eexists. split; by vm_compute. Qed.

(** An entry of odd size and unknown type is accepted, and the next entry then
    begins at an odd address. *)
Theorem odd_entry : exists m, RtlAddAce 4096 ex_acl 4 0 [9; 0; 5; 0; 0] 5 = Some (STATUS_SUCCESS, m) /\
  RtlValidAcl 4096 m = true /\ breaks (RtlAddAccessAllowedAce 4096 m 2 1 (Some ex_sid)).
Proof. eexists. split; [by vm_compute|]. split; [by vm_compute|]. eexists. split; by vm_compute. Qed.

(** RtlValidSid looks at the low four bits of the revision only, RtlValidAcl at all. *)
Theorem sid_revision_bits : breaks (RtlAddAccessAllowedAce 4096 ex_acl 2 1 (Some (0x11 :: tail ex_sid))).
Proof. eexists. split; by vm_compute. Qed.

(** A SID without sub-authorities is valid by itself and in an ordinary entry, but
    RtlValidAcl refuses it in an object entry and as the client of a compound one. *)
Theorem short_sid : let sid := Some [1; 0; 0; 0; 0; 0; 0; 5] in
  RtlValidSid sid = true /\ breaks (RtlAddAccessAllowedObjectAce 4096 ex_acl 4 0 1 (Some ex_guid) None sid) /\
  breaks (RtlAddCompoundAce 4096 ex_acl 3 COMPOUND_ACE_IMPERSONATION 7 (Some ex_sid) sid).
Proof. split; [done|]. split; (eexists; split; by vm_compute). Qed.

(** RtlAddCompoundAce accepts compound types other than COMPOUND_ACE_IMPERSONATION. *)
Theorem unchecked_compound_type : breaks (RtlAddCompoundAce 4096 ex_acl 3 2 7 (Some ex_sid) (Some ex_sid)).
Proof. eexists. split; by vm_compute. Qed.

(** With less than a header left in AceList, RtlAddAce reads an AceSize behind its
    end. *)
Theorem list_overread : RtlAddAce 4096 ex_acl 2 0 [0; 0; 4; 0; 0] 5 = None.
Proof. by vm_compute. Qed.

End AclSpec.
