(* ===== verification/FsRtlNameLang.v ===== *)
(** * The language of name expressions (fsrtl/name.c)

    [matches] is the reference definition: which names an expression with [*],
    [?], DOS_STAR, DOS_QM and DOS_DOT denotes, by recursion on the expression.  The
    rest relates it to one turn of the automaton of FsRtlIsNameInExpressionPrivate:
    [targets] are the states a state leads to over a character, [targets_accept] and
    [targets_end] say that following them decides [matches], [cover] that the
    sources the code skips lead to nothing new. *)

From S2P Require Import Prelude FsRtlName.
From stdpp Require Import sets.
#[local] Open Scope Z_scope.

Module NameLang.
Import Name.

(** ** The language of an expression *)

Section Language.
(** How a character of the name is compared: upcased, or as it is. *)
Context (up : Z -> Z).

Definition only_qm (e : list Z) : bool := forallb (fun x => x =? DOS_QM) e.
Definition is_nil (s : list Z) : bool := match s with [] => true | _ => false end.

(** DOS_STAR takes characters up to and including the last dot.  DOS_QM takes a
    character other than a dot, nothing at a dot or at the end; at a dot that ends
    the name, a run of DOS_QMs that ends the expression takes the dot. *)
Fixpoint matches (e s : list Z) {struct e} : bool :=
  match e with
  | [] => is_nil s
  | x :: e' =>
      if x =? ch_star then
        (fix star s := matches e' s || match s with [] => false | _ :: s' => star s' end) s
      else if x =? DOS_STAR then
        (fix star s := matches e' s ||
           match s with
           | [] => false
           | c :: s' => if (c =? ch_dot) && negb (has_dot s') then matches e' s' else star s'
           end) s
      else if x =? DOS_QM then
        match s with
        | [] => matches e' []
        | c :: s' => if c =? ch_dot then matches e' s || (is_nil s' && only_qm e') else matches e' s'
        end
      else
        match s with
        | [] => (x =? DOS_DOT) && matches e' []
        | c :: s' => ((x =? DOS_DOT) && (c =? ch_dot) || (x =? ch_qm) || (x =? up c)) && matches e' s'
        end
  end.

Lemma matches_star e c s : matches (ch_star :: e) (c :: s) = matches e (c :: s) || matches (ch_star :: e) s.
Proof. done. Qed.
Lemma matches_dstar e c s : matches (DOS_STAR :: e) (c :: s) = matches e (c :: s) ||
  if (c =? ch_dot) && negb (has_dot s) then matches e s else matches (DOS_STAR :: e) s.
Proof. done. Qed.
Lemma matches_under x e s : x = ch_star \/ x = DOS_STAR -> matches e s = true -> matches (x :: e) s = true.
Proof. intros [->| ->] H; destruct s; cbn in *; by rewrite H. Qed.
End Language.

Lemma exists_cons {A} (P : A -> Prop) w l : (exists v, v ∈ w :: l /\ P v) <-> P w \/ exists v, v ∈ l /\ P v.
Proof.
  split.
  - intros (v & [->|Hv]%elem_of_cons & Ha); [by left|right; by exists v].
  - intros [Ha|(v & Hv & Ha)]; [exists w; split; [left|done]|exists v; split; [by right|done]].
Qed.
Lemma exists_nil {A} (P : A -> Prop) : (exists v, v ∈ ([] : list A) /\ P v) <-> False.
Proof. split; [|done]. intros (v & Hv & _). by apply elem_of_nil in Hv. Qed.

(** ** One step of the automaton *)

(** What an expression character does with a character of the name, or at its end. *)
Inductive action := Loop | Leave | Pass | Take | Stop.

(** The position a state stands for. *)
Definition pos (v : Z) : Z := (v + 1) / 4.
Lemma pos_4 k : pos (4 * k) = k.
Proof. unfold pos. zdiv. Qed.
Lemma pos_43 k : pos (4 * k + 3) = k + 1.
Proof. unfold pos. zdiv. Qed.
Lemma pos_bounds v : 4 * pos v - 1 <= v <= 4 * pos v + 2.
Proof. unfold pos. zdiv. Qed.

Section Tail.
Context (Expression : list Z).
Definition n : Z := Z.of_nat (length Expression).
Definition tail_from (k : Z) : list Z := drop (Z.to_nat k) Expression.

Lemma tail_cons x e k : x :: e = tail_from k -> 0 <= k ->
  Expression !! Z.to_nat k = Some x /\ e = tail_from (k + 1) /\ k < n.
Proof.
  intros He Hk. unfold tail_from in *.
  pose proof (lookup_drop Expression (Z.to_nat k) 0) as Hl. rewrite <- He, Nat.add_0_r in Hl. cbn in Hl.
  split_and!; [done| |].
  - replace (Z.to_nat (k + 1)) with (Z.to_nat k + 1)%nat by lia. rewrite <- drop_drop, <- He. done.
  - symmetry in Hl. apply lookup_lt_Some in Hl. unfold n. lia.
Qed.
Lemma tail_nil k : [] = tail_from k -> 0 <= k <= n -> k = n.
Proof.
  intros He Hk. symmetry in He. apply drop_nil_inv in He. unfold n in *. lia.
Qed.

End Tail.

Section Step.
Context (Expression : list Z) (IgnoreCase : bool) (UpcaseTable : Z -> Z).
Abbreviation tail_from := (tail_from Expression).
Abbreviation n := (n Expression).
Definition upc (c : Z) : Z := if IgnoreCase then UpcaseTable c else c.
Context (fin : bool) (c : Z) (rest : list Z).

Definition act (x : Z) : action :=
  if x =? ch_star then Loop
  else if x =? DOS_STAR then
    if fin || negb (c =? ch_dot) || (negb fin && (c =? ch_dot) && has_dot rest) then Loop else Leave
  else if x =? DOS_QM then if fin || (c =? ch_dot) then Pass else Take
  else if (x =? DOS_DOT) && fin then Pass
  else if (x =? DOS_DOT) && (c =? ch_dot) then Take
  else if fin then Stop
  else if x =? ch_qm then Take
  else if x =? upc c then Take else Stop.

(** The states a position leads to; the position [n] is the end. *)
Fixpoint targets (e : list Z) (k : Z) : list Z :=
  match e with
  | [] => [4 * k]
  | x :: e => match act x with
      | Loop => 4 * k :: (4 * k + 3) :: targets e (k + 1)
      | Leave => (4 * k + 3) :: targets e (k + 1)
      | Pass => targets e (k + 1)
      | Take => [4 * (k + 1)]
      | Stop => []
      end
  end.
Definition sources_of (k : Z) : list Z :=
  match drop (Z.to_nat k) Expression with [] => [] | e => targets e k end.

Lemma targets_ge e k v : v ∈ targets e k -> 4 * k <= v.
Proof.
  revert k; induction e as [|x e IH]; intros k; cbn [targets].
  - intros ->%list_elem_of_singleton. lia.
  - destruct (act x); intros Hv.
    + apply elem_of_cons in Hv as [->|Hv]; [lia|]. apply elem_of_cons in Hv as [->|Hv]; [lia|]. apply IH in Hv. lia.
    + apply elem_of_cons in Hv as [->|Hv]; [lia|]. apply IH in Hv. lia.
    + apply IH in Hv. lia.
    + apply list_elem_of_singleton in Hv. lia.
    + by apply elem_of_nil in Hv.
Qed.

(** In increasing order. *)
Fixpoint ascending (l : list Z) : Prop :=
  match l with [] => True | v :: l => (forall w, w ∈ l -> v <= w) /\ ascending l end.

Lemma ascending_app l1 l2 : ascending l1 -> ascending l2 -> (forall v w, v ∈ l1 -> w ∈ l2 -> v <= w) ->
  ascending (l1 ++ l2).
Proof.
  induction l1 as [|v l1 IH]; intros H1 H2 H; [done|]. destruct H1 as [Hv H1]. cbn. split.
  - intros w [Hw|Hw]%elem_of_app; [by apply Hv|]. apply H; [left|done].
  - apply IH; [done..|]. intros a b Ha Hb. apply H; [by right|done].
Qed.

Lemma targets_ascending e k : ascending (targets e k).
Proof.
  revert k; induction e as [|x e IH]; intros k; cbn [targets].
  - split; [|done]. intros w Hw. by apply elem_of_nil in Hw.
  - assert (Ht : forall w, w ∈ targets e (k + 1) -> 4 * k + 4 <= w) by (intros w Hw; apply targets_ge in Hw; lia).
    destruct (act x); cbn [ascending]; split_and?; try done; try apply IH.
    + intros w [->|Hw]%elem_of_cons; [lia|]. apply Ht in Hw. lia.
    + intros w Hw. apply Ht in Hw. lia.
    + intros w Hw. apply Ht in Hw. lia.
    + intros w Hw. by apply elem_of_nil in Hw.
Qed.

Lemma ascending_last l v d : ascending l -> v ∈ l -> last l = Some d -> v <= d.
Proof.
  induction l as [|w l IH]; intros Ha Hv Hl; [by apply elem_of_nil in Hv|]. destruct Ha as [Hw Ha].
  destruct l as [|w2 l]; [apply list_elem_of_singleton in Hv; cbn in Hl; simplify_eq; lia|].
  apply elem_of_cons in Hv as [->|Hv]; [|by apply IH].
  apply Hw. rewrite last_cons in Hl. destruct (last (w2 :: l)) eqn:E; [|by apply last_None in E]. simplify_eq.
  rewrite last_lookup in E. by eapply list_elem_of_lookup_2.
Qed.

(** *** Acceptance *)


(** States that occur: a position, or the place behind a star. *)
Definition star_at (i : Z) : Prop := exists x, Expression !! Z.to_nat i = Some x /\ (x = ch_star \/ x = DOS_STAR).
Definition state_ok (v : Z) : Prop :=
  (exists k, v = 4 * k /\ 0 <= k <= n) \/ (exists i, v = 4 * i + 3 /\ 0 <= i < n /\ star_at i).

Lemma act_star x : (act x = Loop \/ act x = Leave) <-> (x = ch_star \/ x = DOS_STAR).
Proof.
  unfold act. split.
  - intros H. destruct (Z.eqb_spec x ch_star); [by left|]. destruct (Z.eqb_spec x DOS_STAR); [by right|].
    exfalso. revert H. btest; by intros [|].
  - intros [->| ->]; [by left|]. cbn. destruct (_ || _); [by left|by right].
Qed.

(** Every source that is skipped is covered by the one before it. *)
Lemma cover e k1 v d : e = tail_from k1 -> 0 <= k1 -> d ∈ targets e k1 -> state_ok v -> v < d -> k1 <= pos v ->
  forall w, w ∈ sources_of (pos v) -> w ∈ targets e k1.
Proof.
  intros He Hk Hd Hv Hlt Hp. pose proof (pos_bounds v) as Hpos.
  revert k1 d He Hk Hd Hlt Hp. induction e as [|x e IH]; intros k1 d He Hk Hd Hlt Hp w Hw.
  - assert (length Expression <= Z.to_nat k1)%nat by (by apply drop_nil_inv).
    unfold sources_of in Hw. rewrite drop_ge in Hw by lia. by apply elem_of_nil in Hw.
  - assert (Hx : Expression !! Z.to_nat k1 = Some x).
    { pose proof (lookup_drop Expression (Z.to_nat k1) 0) as Hl. fold (tail_from k1) in Hl. rewrite <- He in Hl. cbn in Hl.
      by rewrite Nat.add_0_r in Hl. }
    assert (He' : e = tail_from (k1 + 1)).
    { unfold tail_from in *. replace (Z.to_nat (k1 + 1)) with (Z.to_nat k1 + 1)%nat by lia.
      rewrite <- drop_drop, <- He. done. }
    destruct (Z.eq_dec (pos v) k1) as [Heq|Hne].
    { unfold sources_of in Hw. rewrite Heq in Hw. fold (tail_from k1) in Hw. by rewrite <- He in Hw. }
    assert (Hcont : d ∈ targets e (k1 + 1) -> w ∈ targets e (k1 + 1)).
    { intros Hd'. by apply (IH (k1 + 1) d He' ltac:(lia) Hd' Hlt ltac:(lia)). }
    cbn [targets] in Hd |- *. destruct (act x) eqn:Ea.
    + apply elem_of_cons in Hd as [->|Hd]; [lia|]. apply elem_of_cons in Hd as [->|Hd]; [lia|].
      right. right. by apply Hcont.
    + apply elem_of_cons in Hd as [->|Hd]; [lia|]. right. by apply Hcont.
    + by apply Hcont.
    + apply list_elem_of_singleton in Hd. exfalso.
      assert (v = 4 * k1 + 3) as -> by lia. destruct Hv as [(k & Hv & _)|(i & Hv & _ & (y & Hy & Hs))]; [lia|].
      assert (i = k1) as -> by lia. simplify_eq. apply act_star in Hs as [Hs|Hs]; congruence.
    + by apply elem_of_nil in Hd.
Qed.

Lemma targets_ok e k v : e = tail_from k -> 0 <= k <= n -> v ∈ targets e k -> state_ok v.
Proof.
  revert k; induction e as [|x e IH]; intros k He Hk; cbn [targets].
  - intros ->%list_elem_of_singleton. left. by exists k.
  - destruct (tail_cons _ _ _ _ He ltac:(lia)) as (Hx & He' & Hlt).
    assert (Hrec : v ∈ targets e (k + 1) -> state_ok v) by (apply IH; [done|lia]).
    assert (H4 : state_ok (4 * k)) by (left; exists k; lia).
    assert (H3 : act x = Loop \/ act x = Leave -> state_ok (4 * k + 3)).
    { intros Ha. right. exists k. split_and!; [done|lia|lia|]. exists x. split; [done|]. by apply act_star. }
    destruct (act x) eqn:Ea; intros Hv.
    + apply elem_of_cons in Hv as [->|Hv]; [done|]. apply elem_of_cons in Hv as [->|Hv]; [apply H3; by left|auto].
    + apply elem_of_cons in Hv as [->|Hv]; [apply H3; by right|auto].
    + auto.
    + apply list_elem_of_singleton in Hv as ->. left. exists (k + 1). lia.
    + by apply elem_of_nil in Hv.
Qed.
End Step.

(** ** What a turn means for the language *)

Section Accept.
Context (Expression : list Z) (IgnoreCase : bool) (UpcaseTable : Z -> Z).
Abbreviation up := (upc IgnoreCase UpcaseTable).
Abbreviation tail_from := (tail_from Expression).
Abbreviation n := (n Expression).

Definition accepts (v : Z) (s : list Z) : Prop := matches up (tail_from (pos v)) s = true.

Lemma only_qm_dot e : only_qm e = true -> e <> [] -> matches up e [ch_dot] = true.
Proof.
  destruct e as [|x e]; [done|]. cbn [only_qm forallb]. intros [Hx He]%andb_true_iff _.
  apply Z.eqb_eq in Hx as ->. cbn. fold (only_qm e) in He. rewrite He. by rewrite orb_true_r.
Qed.

(** The states a position leads to accept the rest of the name exactly when the
    position accepts the name with the character. *)
Lemma targets_accept c rest e k : e = tail_from k -> 0 <= k <= n ->
  ((exists v, v ∈ targets IgnoreCase UpcaseTable false c rest e k /\ accepts v rest) <->
   (matches up e (c :: rest) = true \/ (e = [] /\ rest = []))).
Proof.
  revert k. induction e as [|x e IH]; intros k He Hk; cbn [targets].
  - pose proof (tail_nil _ _ He Hk) as ->. split.
    + intros (v & ->%list_elem_of_singleton & Ha). right. split; [done|].
      unfold accepts in Ha. rewrite pos_4, <- He in Ha. by destruct rest.
    + intros [H|[_ ->]]; [done|]. exists (4 * n). split; [left|]. unfold accepts. by rewrite pos_4, <- He.
  - destruct (tail_cons _ _ _ _ He ltac:(lia)) as (_ & He' & Hlt). specialize (IH (k + 1) He' ltac:(lia)).
    assert (H4 : accepts (4 * k) rest <-> matches up (x :: e) rest = true) by (unfold accepts; by rewrite pos_4, <- He).
    assert (H3 : accepts (4 * k + 3) rest <-> matches up e rest = true) by (unfold accepts; by rewrite pos_43, <- He').
    assert (H1 : accepts (4 * (k + 1)) rest <-> matches up e rest = true) by (unfold accepts; by rewrite pos_4, <- He').
    assert (Hne : (x :: e = [] /\ rest = []) <-> False) by (split; [by intros [? _]|done]). rewrite Hne.
    assert (Hend : x = ch_star \/ x = DOS_STAR -> e = [] /\ rest = [] -> matches up (x :: e) rest = true).
    { intros Hx [-> ->]. by apply matches_under. }
    assert (Hund : x = ch_star \/ x = DOS_STAR -> matches up e rest = true -> matches up (x :: e) rest = true).
    { intros Hx. by apply matches_under. }
    unfold act. destruct (Z.eqb_spec x ch_star) as [Hx|N1].
    { rewrite !exists_cons, IH, H4, H3. rewrite Hx in *. rewrite matches_star, orb_true_iff. tauto. }
    destruct (Z.eqb_spec x DOS_STAR) as [Hx|N2].
    { rewrite Hx in *. rewrite matches_dstar, orb_true_iff. cbn [negb orb].
      destruct (c =? ch_dot) eqn:Ec; cbn [negb orb andb]; [destruct (has_dot rest) eqn:Ed; cbn [negb]|];
        rewrite !exists_cons, IH, ?H4, H3; [tauto| |tauto].
      split; [|tauto]. intros [H|[H|[-> ->]]]; auto. }
    assert (Hlit : (x =? ch_star) = false /\ (x =? DOS_STAR) = false) by (split; by apply Z.eqb_neq).
    destruct Hlit as [L1 L2]. cbn [matches]. rewrite L1, L2. destruct (x =? DOS_QM) eqn:L3.
    { cbn [orb]. destruct (Z.eqb_spec c ch_dot) as [->|Ec].
      - rewrite IH, orb_true_iff, andb_true_iff. pose proof (only_qm_dot e) as Hq. split.
        + intros [H|[-> ->]]; [tauto|]. left. by right.
        + intros [[H|[H1' H2']]|[]]; [tauto|]. destruct rest; [|done].
          destruct e; [by right|left]. by apply Hq.
      - rewrite exists_cons, exists_nil, H1. tauto. }
    rewrite andb_false_r. cbn [andb orb]. destruct (x =? DOS_DOT) eqn:L4; cbn [andb orb].
    { destruct (c =? ch_dot) eqn:Ec; cbn [orb andb]; [rewrite exists_cons, exists_nil, H1; tauto|].
      apply Z.eqb_eq in L4 as ->. cbn [Z.eqb]. change (DOS_DOT =? ch_qm) with false. cbn [orb].
      destruct (DOS_DOT =? up c); cbn [andb]; rewrite ?exists_cons, exists_nil, ?H1; intuition congruence. }
    destruct (x =? ch_qm); cbn [orb andb]; [rewrite exists_cons, exists_nil, H1; tauto|].
    destruct (x =? up c); cbn [andb]; rewrite ?exists_cons, exists_nil, ?H1; intuition congruence.
Qed.

(** At the end of the name, the end of the expression is reached exactly when the
    position accepts the empty name. *)
Lemma targets_end c rest e k : e = tail_from k -> 0 <= k <= n ->
  4 * n ∈ targets IgnoreCase UpcaseTable true c rest e k <-> matches up e [] = true.
Proof.
  revert k. induction e as [|x e IH]; intros k He Hk; cbn [targets].
  - pose proof (tail_nil _ _ He Hk) as ->. split; [done|intros _; left].
  - destruct (tail_cons _ _ _ _ He ltac:(lia)) as (_ & He' & Hlt). specialize (IH (k + 1) He' ltac:(lia)).
    unfold act. destruct (Z.eqb_spec x ch_star) as [->|N1].
    { rewrite !elem_of_cons, IH. cbn. rewrite orb_false_r. split; [|tauto]. intros [?|[?|?]]; [lia|lia|done]. }
    destruct (Z.eqb_spec x DOS_STAR) as [->|N2].
    { cbn [orb]. rewrite !elem_of_cons, IH. cbn. rewrite orb_false_r. split; [|tauto]. intros [?|[?|?]]; [lia|lia|done]. }
    assert (Hlit : (x =? ch_star) = false /\ (x =? DOS_STAR) = false) by (split; by apply Z.eqb_neq).
    destruct Hlit as [L1 L2]. cbn [matches]. rewrite L1, L2. destruct (x =? DOS_QM); [done|].
    destruct (x =? DOS_DOT); cbn [andb]; [done|]. split; [|done]. intros Hv. by apply elem_of_nil in Hv.
Qed.
End Accept.

End NameLang.
