(* ===== verification/FsRtlNameMatch.v ===== *)
(** * Matching names against expressions (fsrtl/name.c)

    The routines of FsRtlName.v are what they should be: the loops of
    FsRtlIsNameInExpressionPrivate stay within their buffers and compute the states
    of FsRtlNameLang.v ([chain_spec], [skip_spec], [sources_spec], [over_name_spec]),
    the special cases for [*] and [*X] agree with the general one, and
    FsRtlIsNameInExpression decides [matches].  Comparison, dissection and the scan
    for wild cards have their specifications here too, followed by the points at
    which the code and its comments differ. *)

From S2P Require Import Prelude FsRtlName FsRtlNameLang.
From stdpp Require Import sets.
#[local] Open Scope Z_scope.

Module NameMatch.
Import Name NameLang.

(** ** The loops *)

Ltac in_nil := repeat intros ?; match goal with H : _ ∈ [] |- _ => by apply elem_of_nil in H end.

Section Loops.
Context (Expression : list Z) (IgnoreCase : bool) (UpcaseTable : Z -> Z).
Abbreviation tail_from := (tail_from Expression).
Abbreviation n := (n Expression).
(** Offsets and states fit their USHORTs, and the expression is upcased. *)
Hypothesis Hlen : 4 * n < 65536.
Hypothesis Hup : IgnoreCase = true -> Forall (fun x => ~ (97 <= x <= 122)) Expression.
(** There is memory for the larger buffers, or the expression is too short to need it. *)
Context (PoolOk : bool).
Hypothesis Hpool : PoolOk = true \/ n < 8.

Section Turn.
Context (fin : bool) (c : Z) (rest : list Z).
Abbreviation targets := (targets IgnoreCase UpcaseTable fin c rest).
Abbreviation act := (act IgnoreCase UpcaseTable fin c rest).
Abbreviation sources_of := (sources_of Expression IgnoreCase UpcaseTable fin c rest).
Abbreviation state_ok := (state_ok Expression).

Lemma targets_length e k : Z.of_nat (length (targets e k)) <= 2 * Z.of_nat (length e) + 1.
Proof.
  revert k; induction e as [|x e IH]; intros k; cbn; [lia|]. specialize (IH (k + 1)).
  destruct (act x); cbn; lia.
Qed.

(** The places of the array used up to a source that comes later. *)
Lemma targets_count e k s : (forall w, w ∈ targets e k -> w <= s) -> k <= pos s -> pos s < k + Z.of_nat (length e) ->
  2 * k + Z.of_nat (length (targets e k)) <= 2 * pos s.
Proof.
  pose proof (pos_bounds s) as Hs.
  revert k; induction e as [|x e IH]; intros k Hle Hk Hn; cbn [targets length] in *; [lia|].
  assert (Htail : (forall w, w ∈ targets e (k + 1) -> w <= s) ->
    2 * k + Z.of_nat (length (targets e (k + 1))) <= 2 * pos s /\
    (k + 1 <= pos s -> 2 * (k + 1) + Z.of_nat (length (targets e (k + 1))) <= 2 * pos s)).
  { intros Hw. split; [|intros Hk1; apply IH; [done|done|lia]].
    destruct (Z.eq_dec (pos s) k) as [Hp|Hp]; [|pose proof (IH (k + 1) Hw ltac:(lia) ltac:(lia)); lia].
    destruct (targets e (k + 1)) as [|w l] eqn:Et; [cbn; lia|].
    assert (4 * (k + 1) <= w) by (eapply targets_ge; rewrite Et; left). specialize (Hw w ltac:(left)). lia. }
  destruct (act x); cbn [length].
  - pose proof (Hle (4 * k + 3) ltac:(right; left)).
    destruct (Htail ltac:(intros w Hw; apply Hle; right; by right)) as [_ H1]. specialize (H1 ltac:(lia)). lia.
  - pose proof (Hle (4 * k + 3) ltac:(left)).
    destruct (Htail ltac:(intros w Hw; apply Hle; by right)) as [_ H1]. specialize (H1 ltac:(lia)). lia.
  - by apply Htail.
  - pose proof (Hle (4 * (k + 1)) ltac:(left)). lia.
  - cbn. lia.
Qed.

(** A push succeeds when there is room. *)
Lemma push_ok v b : DestCount b < capacity Expression b -> 0 <= v < 65536 ->
  push Expression v b = Ok (mkBuf (CurrentMatches b ++ [v]) (AuxBuffer b)).
Proof.
  intros Hb Hv. unfold push. apply Z.ltb_lt in Hb. rewrite Hb.
  assert (u16 v = v) as -> by (apply uwrap_small; lia). done.
Qed.

(** Room in the array: the stack array is left before it is full. *)
Definition room (k : Z) (b : matches_buf) : Prop :=
  DestCount b <= 2 * k /\ (AuxBuffer b = false -> DestCount b <= MATCHES_ARRAY_SIZE).

Lemma grow_ok k b : room k b -> 0 <= k < n -> exists b', grow Expression PoolOk b = Ok b' /\
  CurrentMatches b' = CurrentMatches b /\ (AuxBuffer b' = false -> DestCount b < MATCHES_ARRAY_SIZE - 2).
Proof.
  intros [H1 H2] Hk. unfold grow, MATCHES_ARRAY_SIZE in *. change (16 - 2) with 14.
  destruct (Z.geb_spec (DestCount b) 14) as [Hge|Hlt]; cbn [andb].
  - destruct (AuxBuffer b) eqn:Ea; cbn [negb andb].
    + exists b. split_and!; [done|done|congruence].
    + assert (PoolOk = true) as -> by (destruct Hpool; [done|lia]). cbn [negb].
      destruct (Z.ltb_spec (2 * (Z.of_nat (length Expression) + 1)) 16); [unfold NameLang.n in Hk; lia|].
      eexists. split_and!; [done|done|done].
  - exists b. split_and!; [done|done|]. intros _. lia.
Qed.

Lemma chain_spec e : forall k fuel off len b, e = tail_from k -> 0 <= k <= n -> 0 <= off < 2 * n -> off + len = 2 * k ->
  (length e < fuel)%nat -> room k b -> (e = [] -> AuxBuffer b = false -> DestCount b < MATCHES_ARRAY_SIZE) ->
  exists aux', chain Expression IgnoreCase UpcaseTable PoolOk fin c rest fuel off len b =
      Ok (mkBuf (CurrentMatches b ++ targets e k) aux') /\
    (aux' = false -> Z.of_nat (length (CurrentMatches b ++ targets e k)) <= MATCHES_ARRAY_SIZE).
Proof.
  assert (HEL : ExpressionLength Expression = 2 * n) by done.
  assert (HMS : MaxState Expression = 4 * n).
  { unfold MaxState. rewrite HEL. rewrite uwrap_small; unfold NameLang.n in *; lia. }
  induction e as [|x e IH]; intros k [|fuel] off len b He Hk Hoff Hol Hf Hroom Hlast; cbn [length] in Hf; try lia;
    cbn [chain]; rewrite HEL; (destruct (Z.eqb_spec off (2 * n)) as [|_]; [lia|]);
    rewrite Hol; (assert (u16 (2 * k) = 2 * k) as -> by (apply uwrap_small; lia)).
  - pose proof (tail_nil _ _ He Hk) as ->. rewrite Z.eqb_refl, HMS.
    destruct Hroom as [R1 R2]. specialize (Hlast eq_refl).
    rewrite push_ok; [|unfold capacity; destruct (AuxBuffer b); unfold NameLang.n in *; [lia|by apply Hlast]|unfold NameLang.n in *; lia].
    exists (AuxBuffer b). split; [done|]. intros Ha. specialize (Hlast Ha). rewrite length_app. unfold DestCount in *. cbn. lia.
  - destruct (tail_cons _ _ _ _ He ltac:(lia)) as (Hx & He' & Hlt).
    destruct (Z.eqb_spec (2 * k) (2 * n)) as [|_]; [lia|].
    replace (2 * k / 2) with k by (symmetry; rewrite Z.mul_comm; apply Z.div_mul; lia). rewrite Hx. cbn [of_option mbind res_bind].
    assert (Hcase : IgnoreCase && (97 <=? x) && (x <=? 122) = false).
    { destruct IgnoreCase eqn:EI; [|done]. specialize (Hup eq_refl). rewrite Forall_forall in Hup.
      specialize (Hup x ltac:(by eapply list_elem_of_lookup_2)). cbn. lia. }
    rewrite Hcase. destruct (grow_ok k b Hroom ltac:(lia)) as (b1 & Hg & Hcm & Haux). rewrite Hg. cbn [of_option mbind res_bind].
    assert (Hdc : DestCount b1 = DestCount b) by (unfold DestCount; by rewrite Hcm).
    assert (HS : u16 (2 * k * 2) = 4 * k) by (rewrite uwrap_small; lia). rewrite HS.
    assert (HS4 : u16 (4 * k + 4) = 4 * (k + 1)) by (rewrite uwrap_small; lia). rewrite HS4.
    assert (Hcap : DestCount b + 2 <= capacity Expression b1 /\ (AuxBuffer b1 = false -> DestCount b + 2 < MATCHES_ARRAY_SIZE)).
    { destruct Hroom as [R1 _]. unfold capacity, MATCHES_ARRAY_SIZE in *. destruct (AuxBuffer b1); unfold NameLang.n in *.
      - split; [lia|done].
      - specialize (Haux eq_refl). lia. }
    destruct Hcap as [Hc1 Hc2]. destruct Hroom as [R1 R2].
    assert (Hp1 : forall v, 0 <= v < 65536 -> push Expression v b1 = Ok (mkBuf (CurrentMatches b ++ [v]) (AuxBuffer b1))).
    { intros v Hv. rewrite push_ok; [by rewrite Hcm|lia|done]. }
    assert (Hp2 : forall u v, 0 <= v < 65536 -> push Expression v (mkBuf (CurrentMatches b ++ [u]) (AuxBuffer b1)) =
      Ok (mkBuf (CurrentMatches b ++ [u; v]) (AuxBuffer b1))).
    { intros u v Hv. rewrite push_ok; [cbn; by rewrite <- app_assoc| |done].
      unfold DestCount, capacity in *. cbn in *. rewrite length_app. cbn. lia. }
    assert (Hrec : forall added, (length added <= 2)%nat -> exists aux',
      chain Expression IgnoreCase UpcaseTable PoolOk fin c rest fuel (2 * k) 2 (mkBuf (CurrentMatches b ++ added) (AuxBuffer b1)) =
        Ok (mkBuf (CurrentMatches b ++ added ++ targets e (k + 1)) aux') /\
      (aux' = false -> Z.of_nat (length (CurrentMatches b ++ added ++ targets e (k + 1))) <= MATCHES_ARRAY_SIZE)).
    { intros added Ha. unfold DestCount in *.
      destruct (IH (k + 1) fuel (2 * k) 2 (mkBuf (CurrentMatches b ++ added) (AuxBuffer b1))) as (aux' & Hch & Hax);
        try done; try lia.
      - split; unfold DestCount; cbn [CurrentMatches AuxBuffer]; rewrite length_app; [lia|].
        intros Hax. specialize (Hc2 Hax). lia.
      - intros _. cbn [AuxBuffer]. unfold DestCount. cbn [CurrentMatches]. intros Hax. specialize (Hc2 Hax). rewrite length_app. lia.
      - exists aux'. cbn [CurrentMatches] in Hch, Hax. rewrite <- app_assoc in Hch, Hax. done. }
    assert (Hdone : forall added, (length added <= 2)%nat ->
      AuxBuffer b1 = false -> Z.of_nat (length (CurrentMatches b ++ added)) <= MATCHES_ARRAY_SIZE).
    { intros added Ha Hax. specialize (Hc2 Hax). unfold DestCount in *. rewrite length_app. lia. }
    cbn [NameLang.targets]. unfold NameLang.act.
    destruct (x =? ch_star) eqn:E1.
    { rewrite Hp1 by lia. cbn [of_option mbind res_bind]. rewrite Hp2 by lia. cbn [of_option mbind res_bind].
      exact (Hrec [4 * k; 4 * k + 3] ltac:(cbn; lia)). }
    destruct (x =? DOS_STAR) eqn:E2.
    { destruct (fin || negb (c =? ch_dot) || (negb fin && (c =? ch_dot) && has_dot rest)).
      - rewrite Hp1 by lia. cbn [of_option mbind res_bind]. rewrite Hp2 by lia. cbn [of_option mbind res_bind].
        exact (Hrec [4 * k; 4 * k + 3] ltac:(cbn; lia)).
      - rewrite Hp1 by lia. cbn [of_option mbind res_bind]. exact (Hrec [4 * k + 3] ltac:(cbn; lia)). }
    assert (Hb1 : b1 = mkBuf (CurrentMatches b ++ []) (AuxBuffer b1)).
    { rewrite app_nil_r, <- Hcm. by destruct b1. }
    assert (Htake : exists aux', push Expression (4 * (k + 1)) b1 = Ok (mkBuf (CurrentMatches b ++ [4 * (k + 1)]) aux') /\
      (aux' = false -> Z.of_nat (length (CurrentMatches b ++ [4 * (k + 1)])) <= MATCHES_ARRAY_SIZE)).
    { exists (AuxBuffer b1). split; [by apply Hp1; lia|]. apply Hdone. cbn. lia. }
    assert (Hstop : exists aux', Ok b1 = Ok (mkBuf (CurrentMatches b ++ []) aux') /\
      (aux' = false -> Z.of_nat (length (CurrentMatches b ++ [])) <= MATCHES_ARRAY_SIZE)).
    { exists (AuxBuffer b1). split; [by f_equal|]. apply Hdone. cbn. lia. }
    destruct (x =? DOS_QM) eqn:E3.
    { destruct (fin || (c =? ch_dot)); [|exact Htake]. rewrite Hb1. exact (Hrec [] ltac:(cbn; lia)). }
    destruct ((x =? DOS_DOT) && fin) eqn:E4; [rewrite Hb1; exact (Hrec [] ltac:(cbn; lia))|].
    destruct ((x =? DOS_DOT) && (c =? ch_dot)) eqn:E5; [exact Htake|].
    destruct fin; [exact Hstop|]. destruct (x =? ch_qm); [exact Htake|].
    unfold upc. destruct (x =? (if IgnoreCase then UpcaseTable c else c)); [exact Htake|exact Hstop].
Qed.

Lemma drop_below_spec d src : ascending src ->
  exists dropped, src = dropped ++ drop_below d src /\ (forall v, v ∈ dropped -> v < d) /\
    (forall v, v ∈ drop_below d src -> d <= v).
Proof.
  induction src as [|v src IH]; intros Ha; cbn [drop_below].
  - exists []. split_and!; [done|..]; intros v Hv; by apply elem_of_nil in Hv.
  - destruct Ha as [Hv Ha]. destruct (Z.ltb_spec v d).
    + destruct (IH Ha) as (dr & Hs & H1 & H2). exists (v :: dr). split_and!; [cbn; by f_equal| |done].
      intros w [->|Hw]%elem_of_cons; [done|by apply H1].
    + exists []. split_and!; [done|intros w Hw; by apply elem_of_nil in Hw|].
      intros w [->|Hw]%elem_of_cons; [done|]. specialize (Hv w Hw). lia.
Qed.

Lemma ascending_suffix l1 l2 : ascending (l1 ++ l2) -> ascending l2.
Proof. induction l1 as [|v l1 IH]; [done|]. intros [_ H]. by apply IH. Qed.

Lemma skip_spec added : forall p src, ascending src ->
  let '(p', src') := skip p added src in
  exists dropped, src = dropped ++ src' /\
    (forall v, v ∈ dropped -> exists d, d ∈ added /\ v < d) /\
    (forall v d, v ∈ src' -> d ∈ added -> d <= v) /\
    (src' <> [] -> p' = (p + length added)%nat).
Proof.
  induction added as [|d added IH]; intros p src Ha.
  - assert (Hs : skip p [] src = (p, src)) by (by destruct src). rewrite Hs. exists [].
    split_and!; [done|in_nil|in_nil|intros _; cbn; lia].
  - destruct src as [|s src]; cbn [skip].
    { exists []. split_and!; [done|in_nil|in_nil|done]. }
    destruct (drop_below_spec d (s :: src) Ha) as (dr & Hs & H1 & H2).
    assert (Ha' : ascending (drop_below d (s :: src))) by (rewrite Hs in Ha; by eapply ascending_suffix).
    specialize (IH (S p) _ Ha'). destruct (skip (S p) added (drop_below d (s :: src))) as [p' src'].
    destruct IH as (dr2 & Hs2 & D1 & D2 & D3). exists (dr ++ dr2). split_and!.
    + by rewrite <- app_assoc, <- Hs2.
    + intros v [Hv|Hv]%elem_of_app; [exists d; split; [left|by apply H1]|].
      destruct (D1 v Hv) as (d' & Hd' & Hlt). exists d'. split; [by right|done].
    + intros v d' Hv [->|Hd']%elem_of_cons; [|by apply D2]. apply H2. rewrite Hs2. apply elem_of_app. by right.
    + intros Hne. rewrite (D3 Hne). cbn. lia.
Qed.

(** A star at the end of the expression is followed by the final state. *)
Lemma targets_final e k : e = tail_from k -> 0 <= k <= n -> 4 * n - 1 ∈ targets e k -> 4 * n ∈ targets e k.
Proof.
  revert k; induction e as [|x e IH]; intros k He Hk; cbn [NameLang.targets].
  - intros Hv%list_elem_of_singleton. lia.
  - destruct (tail_cons _ _ _ _ He ltac:(lia)) as (_ & He' & Hlt). specialize (IH (k + 1) He' ltac:(lia)).
    assert (Hn : 4 * n - 1 = 4 * k + 3 -> 4 * n ∈ targets e (k + 1)).
    { intros Hk1. assert (k + 1 = n) as Hk2 by lia. rewrite Hk2 in He' |- *.
      assert (e = []) as -> by (rewrite He'; unfold NameLang.tail_from, NameLang.n; by rewrite Nat2Z.id, drop_all). left. }
    destruct (act x); intros Hv.
    + right. right. apply elem_of_cons in Hv as [Hv|Hv]; [lia|]. apply elem_of_cons in Hv as [Hv|Hv]; auto.
    + right. apply elem_of_cons in Hv as [Hv|Hv]; auto.
    + auto.
    + apply list_elem_of_singleton in Hv. lia.
    + by apply elem_of_nil in Hv.
Qed.

(** The fields of an entry: its position, and the offset it starts at. *)
Lemma state_offset v : state_ok v -> u16 ((v + 1) / 2) = 2 * pos v /\ 0 <= pos v <= n.
Proof.
  intros [(k & -> & Hk)|(i & -> & Hi & _)].
  - rewrite pos_4. replace ((4 * k + 1) / 2) with (2 * k) by zdiv. split; [apply uwrap_small; lia|lia].
  - rewrite pos_43. replace ((4 * i + 3 + 1) / 2) with (2 * (i + 1)) by zdiv. split; [apply uwrap_small; lia|lia].
Qed.

Lemma pos_mono v w : v <= w -> pos v <= pos w.
Proof. intros H. unfold pos. apply Z.div_le_mono; lia. Qed.

Lemma tail_length k : 0 <= k <= n -> Z.of_nat (length (tail_from k)) = n - k.
Proof. intros Hk. unfold NameLang.tail_from, NameLang.n in *. rewrite length_drop. lia. Qed.

(** What one source adds. *)
Lemma source_spec v b : state_ok v -> (pos v < n -> DestCount b <= 2 * pos v) ->
  (AuxBuffer b = false -> DestCount b <= MATCHES_ARRAY_SIZE) ->
  exists aux', chain Expression IgnoreCase UpcaseTable PoolOk fin c rest (S (length Expression)) (u16 ((v + 1) / 2)) 0 b =
      Ok (mkBuf (CurrentMatches b ++ sources_of (pos v)) aux') /\
    (aux' = false -> Z.of_nat (length (CurrentMatches b ++ sources_of (pos v))) <= MATCHES_ARRAY_SIZE).
Proof.
  intros Hv Hcount Haux. destruct (state_offset v Hv) as [-> Hp].
  assert (HEL : ExpressionLength Expression = 2 * n) by done.
  destruct (Z.eq_dec (pos v) n) as [He|Hne].
  - assert (Hnil : sources_of (pos v) = []).
    { unfold NameLang.sources_of. rewrite He. unfold NameLang.n. by rewrite Nat2Z.id, drop_all. }
    rewrite Hnil, app_nil_r. exists (AuxBuffer b). cbn [chain]. rewrite HEL, He, Z.eqb_refl.
    split; [by destruct b|]. exact Haux.
  - assert (Hts : sources_of (pos v) = targets (tail_from (pos v)) (pos v)).
    { unfold NameLang.sources_of. fold (tail_from (pos v)). pose proof (tail_length (pos v) Hp).
      destruct (tail_from (pos v)); [cbn in *; lia|done]. }
    rewrite Hts. apply chain_spec; [done|lia|lia|lia| |split; [apply Hcount; lia|done]|].
    + pose proof (tail_length (pos v) Hp). unfold NameLang.n in *. lia.
    + intros Hnil. pose proof (tail_length (pos v) Hp). rewrite Hnil in *. cbn in *. lia.
Qed.

Lemma sources_of_ge k w : 0 <= k <= n -> w ∈ sources_of k -> 4 * k <= w.
Proof.
  unfold NameLang.sources_of. intros _ Hw. destruct (drop _ _); [by apply elem_of_nil in Hw|]. by eapply targets_ge.
Qed.
Lemma sources_of_ascending k : ascending (sources_of k).
Proof. unfold NameLang.sources_of. destruct (drop _ _); [done|]. apply targets_ascending. Qed.
Lemma sources_of_ok k w : 0 <= k <= n -> w ∈ sources_of k -> state_ok w.
Proof.
  unfold NameLang.sources_of. intros Hk Hw. destruct (drop (Z.to_nat k) Expression) eqn:E; [by apply elem_of_nil in Hw|].
  eapply targets_ok; [|exact Hk|exact Hw]. by rewrite <- E.
Qed.

(** The entries so far, seen from the sources still to come. *)
Definition so_far (b : matches_buf) (src : list Z) : Prop :=
  ascending (CurrentMatches b) /\ (forall w, w ∈ CurrentMatches b -> state_ok w) /\
  (forall w s, w ∈ CurrentMatches b -> s ∈ src -> w <= s) /\
  (forall s, s ∈ src -> pos s < n -> DestCount b <= 2 * pos s) /\
  (AuxBuffer b = false -> DestCount b <= MATCHES_ARRAY_SIZE).

Lemma sources_spec fuel : forall src p b, (length src <= fuel)%nat -> ascending src ->
  (forall s, s ∈ src -> state_ok s) -> so_far b src -> (src <> [] -> p = length (CurrentMatches b)) ->
  exists b', sources Expression IgnoreCase UpcaseTable PoolOk fin c rest fuel src p b = Ok b' /\
    ascending (CurrentMatches b') /\ (forall w, w ∈ CurrentMatches b' -> state_ok w) /\
    (forall w, w ∈ CurrentMatches b' <-> w ∈ CurrentMatches b \/ exists s, s ∈ src /\ w ∈ sources_of (pos s)).
Proof.
  induction fuel as [|fuel IH]; intros [|v src] p b Hf Hasc Hok (A1 & A2 & A3 & A4 & A5) Hp; cbn [length] in Hf; try lia.
  1,2: exists b; cbn [sources]; split_and!; [done..|]; intros w; rewrite exists_nil; tauto.
  cbn [sources]. pose proof (Hok v ltac:(left)) as Hv. destruct (state_offset v Hv) as [_ Hpv].
  destruct (source_spec v b Hv) as (aux' & Hch & Hax); [apply A4; left|done|].
  rewrite Hch. cbn [of_option mbind res_bind CurrentMatches]. specialize (Hp ltac:(done)). subst p.
  rewrite drop_app_length. destruct Hasc as [Hvle Hasc].
  pose proof (skip_spec (sources_of (pos v)) (length (CurrentMatches b)) src Hasc) as Hskip.
  destruct (skip (length (CurrentMatches b)) (sources_of (pos v)) src) as [p' src'].
  destruct Hskip as (dr & Hsrc & D1 & D2 & D3).
  pose proof (pos_bounds v) as Hvb.
  assert (Hge : forall w, w ∈ sources_of (pos v) -> v <= w).
  { intros w Hw. apply sources_of_ge in Hw; [|lia].
    destruct Hv as [(k & -> & _)|(i & -> & _)]; [rewrite pos_4 in *|rewrite pos_43 in *]; lia. }
  destruct (IH src' p' (mkBuf (CurrentMatches b ++ sources_of (pos v)) aux')) as (b' & Hb' & B1 & B2 & B3).
  - rewrite Hsrc, length_app in Hf. lia.
  - rewrite Hsrc in Hasc. by eapply ascending_suffix.
  - intros s Hs. apply Hok. right. rewrite Hsrc. apply elem_of_app. by right.
  - split_and!; cbn [CurrentMatches AuxBuffer].
    + apply ascending_app; [done|apply sources_of_ascending|]. intros w1 w2 Hw1 Hw2.
      specialize (A3 w1 v Hw1 ltac:(left)). specialize (Hge w2 Hw2). lia.
    + intros w [Hw|Hw]%elem_of_app; [by apply A2|]. by eapply sources_of_ok.
    + intros w s [Hw|Hw]%elem_of_app Hs; [|by apply D2]. apply A3; [done|]. right. rewrite Hsrc. apply elem_of_app. by right.
    + intros s Hs Hps. unfold DestCount. cbn [CurrentMatches]. rewrite length_app.
      assert (Hvs : v <= s) by (apply Hvle; rewrite Hsrc; apply elem_of_app; by right).
      pose proof (pos_mono _ _ Hvs). specialize (A4 v ltac:(left) ltac:(lia)). unfold DestCount in A4.
      assert (Hcnt : 2 * pos v + Z.of_nat (length (sources_of (pos v))) <= 2 * pos s); [|lia].
      assert (Hts : sources_of (pos v) = targets (tail_from (pos v)) (pos v)).
      { unfold NameLang.sources_of. fold (tail_from (pos v)). pose proof (tail_length (pos v) Hpv).
        destruct (tail_from (pos v)); [cbn in *; lia|done]. }
      rewrite Hts. apply targets_count; [|done|rewrite tail_length by lia; lia].
      intros w Hw. apply D2; [done|]. by rewrite Hts.
    + exact Hax.
  - intros Hne. rewrite (D3 Hne). cbn [CurrentMatches]. by rewrite length_app.
  - exists b'. split_and!; [done..|]. intros w. rewrite B3. cbn [CurrentMatches]. rewrite elem_of_app.
    rewrite (exists_cons (fun s => w ∈ sources_of (pos s)) v src). rewrite Hsrc.
    setoid_rewrite elem_of_app. split.
    { intros [[Hw|Hw]|(s & Hs & Hw)]; [by left|right; by left|]. right. right. exists s. split; [by right|done]. }
    intros [Hw|[Hw|(s & [Hs|Hs] & Hw)]]; [by do 2 left|left; by right| |right; by exists s].
    left. right. destruct (D1 s Hs) as (d & Hd & Hlt).
    assert (Hvs : v <= s) by (apply Hvle; rewrite Hsrc; apply elem_of_app; by left).
    assert (Hoks : state_ok s) by (apply Hok; right; rewrite Hsrc; apply elem_of_app; by left).
    unfold NameLang.sources_of in Hd |- *. destruct (drop (Z.to_nat (pos v)) Expression) as [|x e] eqn:Edr; [by apply elem_of_nil in Hd|].
    eapply (cover Expression IgnoreCase UpcaseTable fin c rest (x :: e) (pos v) s d); try done.
    * lia.
    * by apply pos_mono.
Qed.
End Turn.

(** *** The whole name *)

Abbreviation up := (upc IgnoreCase UpcaseTable).

Lemma state_accepts_end v : state_ok Expression v -> pos v = n -> forall s, accepts Expression IgnoreCase UpcaseTable v s -> s = [].
Proof.
  intros _ Hp s Ha. unfold accepts, NameLang.tail_from in Ha. rewrite Hp in Ha. unfold NameLang.n in Ha.
  rewrite Nat2Z.id, drop_all in Ha. by destruct s.
Qed.

Lemma turn_accept c rest v : state_ok Expression v ->
  (accepts Expression IgnoreCase UpcaseTable v (c :: rest) <->
   exists w, w ∈ sources_of Expression IgnoreCase UpcaseTable false c rest (pos v) /\ accepts Expression IgnoreCase UpcaseTable w rest).
Proof.
  intros Hv. destruct (state_offset v Hv) as [_ Hp]. unfold accepts at 1. unfold sources_of. fold (tail_from (pos v)).
  pose proof (targets_accept Expression IgnoreCase UpcaseTable c rest (tail_from (pos v)) (pos v) eq_refl Hp) as Ht.
  destruct (tail_from (pos v)) as [|x e] eqn:Et.
  - split; [done|]. intros (w & Hw & _). by apply elem_of_nil in Hw.
  - rewrite Ht. split; [tauto|]. by intros [H|[? _]].
Qed.

Lemma last_some (l : list Z) : l <> [] -> exists d, last l = Some d /\ d ∈ l.
Proof.
  intros Hl. destruct (last l) as [d|] eqn:E; [|by apply last_None in E]. exists d. split; [done|].
  rewrite last_lookup in E. by eapply list_elem_of_lookup_2.
Qed.

(** The last entry is the final state exactly when the final state is among them. *)
Lemma last_final l d : ascending l -> (forall w, w ∈ l -> state_ok Expression w) -> last l = Some d ->
  ((d =? MaxState Expression) = true <-> 4 * n ∈ l).
Proof.
  intros Ha Hok Hl.
  assert (HMS : MaxState Expression = 4 * n).
  { unfold MaxState. change (ExpressionLength Expression) with (2 * n). rewrite uwrap_small; unfold NameLang.n in *; lia. }
  rewrite HMS, Z.eqb_eq. assert (Hd : d ∈ l) by (rewrite last_lookup in Hl; by eapply list_elem_of_lookup_2).
  split; [by intros <-|]. intros Hin. pose proof (ascending_last l (4 * n) d Ha Hin Hl).
  destruct (Hok d Hd) as [(k & -> & Hk)|(i & -> & Hi & _)]; lia.
Qed.

Lemma over_name_spec Rest : forall c0 Prev aux, Prev <> [] -> ascending Prev -> (forall v, v ∈ Prev -> state_ok Expression v) ->
  (4 * n - 1 ∈ Prev -> 4 * n ∈ Prev) ->
  exists r, over_name Expression IgnoreCase UpcaseTable PoolOk c0 Rest Prev aux = Ok r /\
    (r = true <-> exists v, v ∈ Prev /\ accepts Expression IgnoreCase UpcaseTable v Rest).
Proof.
  induction Rest as [|c Rest IH]; intros c0 Prev aux Hne Hasc Hok Hfin; cbn [over_name].
  - destruct (last_some Prev Hne) as (d & Hd & Hdin). unfold last_match. rewrite Hd. cbn [of_option mbind res_bind].
    pose proof (last_final Prev d Hasc Hok Hd) as Hlf.
    destruct (d =? MaxState Expression) eqn:Ed.
    + exists true. split; [done|]. split; [intros _|done]. exists (4 * n). split; [by apply Hlf|].
      unfold accepts. rewrite pos_4. unfold NameLang.tail_from, NameLang.n. by rewrite Nat2Z.id, drop_all.
    + assert (Hnot : 4 * n ∉ Prev) by (intros H; apply Hlf in H; congruence).
      destruct (sources_spec true c0 [] (length Prev) Prev 0 (mkBuf [] aux)) as (b & Hb & B1 & B2 & B3); try done.
      { split_and!; cbn; try done; try in_nil.
        intros s Hs Hps. destruct (state_offset s (Hok s Hs)) as [_ Hp]. unfold DestCount. cbn. lia. }
      rewrite Hb. cbn [of_option mbind res_bind].
      assert (Hiff : 4 * n ∈ CurrentMatches b <-> exists v, v ∈ Prev /\ accepts Expression IgnoreCase UpcaseTable v []).
      { rewrite B3. cbn [CurrentMatches]. split.
        - intros [Hw|(v & Hv & Hw)]; [by apply elem_of_nil in Hw|]. exists v. split; [done|].
          destruct (state_offset v (Hok v Hv)) as [_ Hp]. unfold accepts. unfold sources_of in Hw. fold (tail_from (pos v)) in Hw.
          destruct (tail_from (pos v)) as [|x e] eqn:Et; [by apply elem_of_nil in Hw|]. rewrite <- Et in Hw |- *.
          by apply (targets_end Expression IgnoreCase UpcaseTable c0 [] (tail_from (pos v)) (pos v)) in Hw.
        - intros (v & Hv & Ha). right. exists v. split; [done|].
          destruct (state_offset v (Hok v Hv)) as [_ Hp]. unfold sources_of. fold (tail_from (pos v)).
          destruct (tail_from (pos v)) as [|x e] eqn:Et.
          + exfalso. assert (Hpn : pos v = n) by (apply (tail_nil Expression); [by rewrite Et|done]).
            pose proof (pos_bounds v). destruct (Hok v Hv) as [(k & -> & Hk)|(i & -> & Hi & _)].
            * rewrite pos_4 in Hpn. subst k. done.
            * rewrite pos_43 in Hpn. apply Hnot, Hfin. by replace (4 * n - 1) with (4 * i + 3) by lia.
          + rewrite <- Et. apply targets_end; [done|done|]. exact Ha. }
      destruct (CurrentMatches b) as [|w l] eqn:Ecm.
      * exists false. split; [done|]. rewrite <- Hiff. split; [done|]. intros H. by apply elem_of_nil in H.
      * rewrite <- Ecm in *. destruct (last_some (CurrentMatches b)) as (d2 & Hd2 & _); [by rewrite Ecm|].
        rewrite Hd2. cbn [of_option mbind res_bind]. exists (d2 =? MaxState Expression). split; [done|].
        rewrite (last_final _ d2 B1 B2 Hd2). exact Hiff.
  - destruct (sources_spec false c Rest (length Prev) Prev 0 (mkBuf [] aux)) as (b & Hb & B1 & B2 & B3); try done.
    { split_and!; cbn; try done; try in_nil.
      intros s Hs Hps. destruct (state_offset s (Hok s Hs)) as [_ Hp]. unfold DestCount. cbn. lia. }
    rewrite Hb. cbn [of_option mbind res_bind].
    assert (Hiff : (exists w, w ∈ CurrentMatches b /\ accepts Expression IgnoreCase UpcaseTable w Rest) <->
      exists v, v ∈ Prev /\ accepts Expression IgnoreCase UpcaseTable v (c :: Rest)).
    { split.
      - intros (w & Hw & Ha). apply B3 in Hw as [Hw|(v & Hv & Hw)]; [by apply elem_of_nil in Hw|].
        exists v. split; [done|]. apply turn_accept; [by apply Hok|]. by exists w.
      - intros (v & Hv & Ha). apply turn_accept in Ha as (w & Hw & Ha); [|by apply Hok].
        exists w. split; [|done]. apply B3. right. by exists v. }
    destruct (CurrentMatches b) as [|w l] eqn:Ecm.
    + exists false. split; [done|]. split; [done|]. intros H. apply Hiff in H as (w & Hw & _). by apply elem_of_nil in Hw.
    + rewrite <- Ecm. destruct (IH c (CurrentMatches b) (AuxBuffer b)) as (r & Hr & Hri); [by rewrite Ecm|by rewrite Ecm|by rewrite Ecm| |].
      2: { exists r. split; [done|]. rewrite Hri, Ecm. exact Hiff. }
      rewrite Ecm.
      intros Hin. apply B3 in Hin as [Hin|(v & Hv & Hin)]; [by apply elem_of_nil in Hin|].
      apply B3. right. exists v. split; [done|].
      destruct (state_offset v (Hok v Hv)) as [_ Hp]. unfold sources_of in *. fold (tail_from (pos v)) in *.
      destruct (tail_from (pos v)) as [|x e] eqn:Et; [by apply elem_of_nil in Hin|]. rewrite <- Et in *.
      by apply targets_final.
Qed.
End Loops.

(** ** The special cases *)

Lemma wild_iff x : FsRtlIsUnicodeCharacterWild x = true <->
  x = ch_star \/ x = ch_qm \/ x = DOS_STAR \/ x = DOS_QM \/ x = DOS_DOT.
Proof.
  unfold FsRtlIsUnicodeCharacterWild, wild_flag, ch_star, ch_qm, DOS_STAR, DOS_QM, DOS_DOT.
  destruct (Z.geb_spec x 64); lia.
Qed.

(** Without a backslash, all characters are looked at. *)
Lemma no_wild_cards X : ch_backslash ∉ X -> FsRtlDoesNameContainWildCards X = false ->
  Forall (fun x => FsRtlIsUnicodeCharacterWild x = false) X.
Proof.
  unfold FsRtlDoesNameContainWildCards. intros Hb Hw.
  assert (Hgen : forall l, ch_backslash ∉ l -> wild_scan l = false ->
    Forall (fun x => FsRtlIsUnicodeCharacterWild x = false) l).
  { induction l as [|x l IH]; intros Hl Hs; [constructor|]. apply not_elem_of_cons in Hl as [Hx Hl].
    cbn in Hs. destruct (Z.eqb_spec x ch_backslash); [congruence|].
    destruct (FsRtlIsUnicodeCharacterWild x) eqn:E; [done|]. constructor; [done|]. by apply IH. }
  rewrite <- (rev_involutive X). apply Forall_rev. apply Hgen; [|done].
  intros Hin. apply Hb. apply list_elem_of_In, in_rev. by apply list_elem_of_In in Hin.
Qed.

Section Special.
Context (up : Z -> Z).

Lemma matches_literal X s : Forall (fun x => FsRtlIsUnicodeCharacterWild x = false) X ->
  matches up X s = true <-> X = map up s.
Proof.
  intros Hw. revert s. induction Hw as [|x X Hx Hw IH]; intros s; [by destruct s|].
  assert (Hnot : ~ (x = ch_star \/ x = ch_qm \/ x = DOS_STAR \/ x = DOS_QM \/ x = DOS_DOT)).
  { rewrite <- wild_iff. congruence. }
  cbn [matches]. destruct (Z.eqb_spec x ch_star); [tauto|]. destruct (Z.eqb_spec x DOS_STAR); [tauto|].
  destruct (Z.eqb_spec x DOS_QM); [tauto|]. destruct (Z.eqb_spec x DOS_DOT); [tauto|].
  destruct s as [|c s]; [cbn [map andb]; split; discriminate|]. destruct (Z.eqb_spec x ch_qm); [tauto|]. cbn [andb orb map].
  rewrite andb_true_iff, IH, Z.eqb_eq. split; [by intros [-> ->]|intros [= -> ->]; done].
Qed.

Lemma matches_star_suffix X s : matches up (ch_star :: X) s = true <->
  exists j, (j <= length s)%nat /\ matches up X (drop j s) = true.
Proof.
  induction s as [|c s IH].
  - cbn. rewrite orb_false_r. split; [intros H; by exists 0%nat|intros (j & Hj & H)].
    by rewrite drop_nil in H.
  - rewrite matches_star, orb_true_iff, IH. split.
    + intros [H|(j & Hj & H)]; [exists 0%nat; split; [lia|done]|]. exists (S j). cbn. split; [lia|done].
    + intros ([|j] & Hj & H); [by left|right]. exists j. cbn in Hj. split; [lia|done].
Qed.

(** An expression [*X] without further wild cards compares the end of the name. *)
Lemma star_literal X s : Forall (fun x => FsRtlIsUnicodeCharacterWild x = false) X ->
  matches up (ch_star :: X) s = true <->
  (length X <= length s)%nat /\ X = map up (drop (length s - length X) s).
Proof.
  intros Hw. rewrite matches_star_suffix. split.
  - intros (j & Hj & H). apply matches_literal in H; [|done]. subst X. rewrite length_map, length_drop.
    split; [lia|]. do 2 f_equal. lia.
  - intros [Hl HX]. exists (length s - length X)%nat. split; [lia|]. by apply matches_literal.
Qed.
End Special.

Lemma compare_upcased_spec T X s : length X = length s -> Forall (fun x => T x = x) X ->
  compare_upcased T s X = Ok (bool_decide (X = map T s)).
Proof.
  intros Hl Hf. revert s Hl. induction Hf as [|x X Hx Hf IH]; intros [|c s] Hl; try done.
  cbn [compare_upcased map]. rewrite Hx, Z.eqb_refl. cbn [negb].
  destruct (Z.eqb_spec (T c) x) as [->|Hne]; cbn [negb].
  - rewrite IH by (cbn in Hl; lia). f_equal. apply bool_decide_ext. split; [by intros ->|by intros [= ->]].
  - rewrite bool_decide_eq_false_2; [done|]. intros [= ? _]. congruence.
Qed.

(** ** The routine decides the language *)

Section Correct.
Context (Expression : list Z) (IgnoreCase : bool) (UpcaseTable : Z -> Z).
Hypothesis Hlen : Z.of_nat (length Expression) < 16384.
Hypothesis Hup : IgnoreCase = true -> Forall (fun x => UpcaseTable x = x /\ ~ (97 <= x <= 122)) Expression.
Hypothesis Hbs : ch_backslash ∉ Expression.
Context (PoolOk : bool).
Hypothesis Hpool : PoolOk = true \/ Z.of_nat (length Expression) < 8.

Lemma Private_spec Name : Expression <> [] -> Name <> [] ->
  FsRtlIsNameInExpressionPrivate Expression IgnoreCase UpcaseTable PoolOk Name =
  Ok (matches (upc IgnoreCase UpcaseTable) Expression Name).
Proof.
  intros HE HN. destruct Name as [|c Name]; [done|]. set (s := c :: Name) in *.
  destruct Expression as [|E0 X] eqn:EE; [done|].
  assert (HUp2 : IgnoreCase = true -> Forall (fun x => UpcaseTable x = x) X).
  { intros Hi. specialize (Hup Hi). apply Forall_cons in Hup as [_ Hup2]. eapply Forall_impl; [exact Hup2|]. by intros x [? _]. }
  assert (HUp3 : IgnoreCase = true -> Forall (fun x => ~ (97 <= x <= 122)) (E0 :: X)).
  { intros Hi. eapply Forall_impl; [exact (Hup Hi)|]. by intros x [_ ?]. }
  change (FsRtlIsNameInExpressionPrivate (E0 :: X) IgnoreCase UpcaseTable PoolOk s) with
    (if (ExpressionLength (E0 :: X) =? 2) && (E0 =? ch_star) then Ok true
     else if (E0 =? ch_star) && negb (FsRtlDoesNameContainWildCards X) then
       if Nat.ltb (length s) (length X) then Ok false
       else if negb IgnoreCase then Ok (equal_memory X (drop (length s - length X) s))
            else compare_upcased UpcaseTable (drop (length s - length X) s) X
     else over_name (E0 :: X) IgnoreCase UpcaseTable PoolOk 0 s [0] false).
  destruct ((ExpressionLength (E0 :: X) =? 2) && (E0 =? ch_star)) eqn:E1.
  { apply andb_true_iff in E1 as [H1 H2]. apply Z.eqb_eq in H2 as ->.
    assert (X = []) as -> by (destruct X; [done|]; apply Z.eqb_eq in H1; unfold ExpressionLength in H1; cbn [length] in H1; lia).
    f_equal. symmetry. apply matches_star_suffix. exists (length s). by rewrite drop_all. }
  destruct ((E0 =? ch_star) && negb (FsRtlDoesNameContainWildCards X)) eqn:E2.
  { apply andb_true_iff in E2 as [H1 H2]. apply Z.eqb_eq in H1 as ->. apply negb_true_iff in H2.
    assert (HX : Forall (fun x => FsRtlIsUnicodeCharacterWild x = false) X).
    { apply no_wild_cards; [|done]. intros Hin. apply Hbs. by right. }
    pose proof (star_literal (upc IgnoreCase UpcaseTable) X s HX) as Hsl.
    set (T := drop (length s - length X) s) in *.
    destruct (Nat.ltb_spec (length s) (length X)).
    { f_equal. symmetry. apply not_true_iff_false. rewrite Hsl. lia. }
    assert (HT : length X = length T) by (unfold T; rewrite length_drop; lia).
    assert (Hm : matches (upc IgnoreCase UpcaseTable) (ch_star :: X) s = bool_decide (X = map (upc IgnoreCase UpcaseTable) T)).
    { apply eq_true_iff_eq. rewrite Hsl, bool_decide_eq_true. split; [by intros []|done]. }
    rewrite Hm. unfold upc. destruct IgnoreCase eqn:EI; cbn [negb].
    - apply compare_upcased_spec; [done|by apply HUp2].
    - unfold equal_memory. by rewrite map_id. }
  destruct (over_name_spec (E0 :: X) IgnoreCase UpcaseTable) with (PoolOk := PoolOk) (Rest := s) (c0 := 0) (Prev := [0]) (aux := false)
    as (r & Hr & Hri).
  - unfold n. lia.
  - exact HUp3.
  - destruct Hpool as [HP|HP]; [by left|right; exact HP].
  - done.
  - split; [in_nil|done].
  - intros v ->%list_elem_of_singleton. left. exists 0. unfold n. lia.
  - intros Hin%list_elem_of_singleton. unfold n in Hin. cbn [length] in Hin. lia.
  - rewrite Hr. f_equal. apply eq_true_iff_eq. rewrite Hri. split.
    + intros (v & ->%list_elem_of_singleton & Ha). exact Ha.
    + intros Hm. exists 0. split; [left|]. exact Hm.
Qed.
End Correct.

(** What a name and an expression give: an empty name is in the empty expression
    only, whatever the wild cards of the expression. *)
Definition in_expression (up : Z -> Z) (Expression Name : list Z) : bool :=
  match Name with [] => is_nil Expression | _ => matches up Expression Name end.

Lemma Private_in_expression Expression IgnoreCase UpcaseTable PoolOk Name : PoolOk = true \/ Z.of_nat (length Expression) < 8 -> Z.of_nat (length Expression) < 16384 ->
  (IgnoreCase = true -> Forall (fun x => UpcaseTable x = x /\ ~ (97 <= x <= 122)) Expression) ->
  ch_backslash ∉ Expression ->
  FsRtlIsNameInExpressionPrivate Expression IgnoreCase UpcaseTable PoolOk Name =
  Ok (in_expression (upc IgnoreCase UpcaseTable) Expression Name).
Proof.
  intros Hp Hl Hu Hb. destruct Name as [|c s]; [by destruct Expression|].
  destruct Expression as [|x X]; [done|]. by apply Private_spec.
Qed.

(** ** Without memory for the larger buffers *)

(** The same as with memory, or the exception. *)
Definition agrees {A} (x y : res A) : Prop := x = y \/ x = Raised STATUS_INSUFFICIENT_RESOURCES.

Lemma agrees_bind {A B} (x y : res A) (f g : A -> res B) : agrees x y -> (forall a, agrees (f a) (g a)) ->
  agrees (x ≫= f) (y ≫= g).
Proof. intros [->| ->] H; [|by right]. destruct y; [apply H|by left..]. Qed.

Section NoMemory.
Context (Expression : list Z) (IgnoreCase : bool) (UpcaseTable : Z -> Z).

Lemma grow_agrees b : agrees (grow Expression false b) (grow Expression true b).
Proof. unfold grow. destruct (_ && _); [by right|by left]. Qed.

Lemma chain_agrees fin c rest fuel off l b :
  agrees (chain Expression IgnoreCase UpcaseTable false fin c rest fuel off l b)
         (chain Expression IgnoreCase UpcaseTable true fin c rest fuel off l b).
Proof.
  revert off l b. induction fuel as [|fuel IH]; intros off l b; [by left|]. cbn [chain].
  destruct (_ =? _); [by left|]. destruct (_ =? _); [by left|].
  apply agrees_bind; [by left|]. intros x. destruct (_ && _ && _); [by left|].
  apply agrees_bind; [apply grow_agrees|]. intros b1.
  repeat match goal with
    | |- agrees (if ?b then _ else _) _ => destruct b
    | |- agrees (_ ≫= _) _ => apply agrees_bind; [by left|intros ?]
    | |- agrees (chain _ _ _ _ _ _ _ _ _ _ _) _ => apply IH
    | |- _ => by left
    end.
Qed.

Lemma sources_agrees fin c rest fuel src p b :
  agrees (sources Expression IgnoreCase UpcaseTable false fin c rest fuel src p b)
         (sources Expression IgnoreCase UpcaseTable true fin c rest fuel src p b).
Proof.
  revert src p b. induction fuel as [|fuel IH]; intros [|v src] p b; try by left. cbn [sources].
  apply agrees_bind; [apply chain_agrees|]. intros b1. destruct (skip _ _ _). apply IH.
Qed.

Lemma over_name_agrees Rest c Prev aux :
  agrees (over_name Expression IgnoreCase UpcaseTable false c Rest Prev aux)
         (over_name Expression IgnoreCase UpcaseTable true c Rest Prev aux).
Proof.
  revert c Prev aux. induction Rest as [|c' Rest IH]; intros c Prev aux; cbn [over_name].
  - apply agrees_bind; [by left|]. intros d. destruct (_ =? _); [by left|].
    apply agrees_bind; [apply sources_agrees|]. intros b. by left.
  - apply agrees_bind; [apply sources_agrees|]. intros b. destruct (CurrentMatches b); [by left|]. apply IH.
Qed.

Lemma Private_agrees Name :
  agrees (FsRtlIsNameInExpressionPrivate Expression IgnoreCase UpcaseTable false Name)
         (FsRtlIsNameInExpressionPrivate Expression IgnoreCase UpcaseTable true Name).
Proof.
  unfold FsRtlIsNameInExpressionPrivate. destruct Name as [|c s]; [by left|]. destruct Expression as [|E0 X] eqn:E; [by left|].
  rewrite <- E. destruct (_ && _); [by left|]. destruct (_ && _); [by left|]. apply over_name_agrees.
Qed.
End NoMemory.

(** C28: For an expression of fewer than 16384 characters without a backslash, which is
    already upcased when a table is given to ignore case with, FsRtlIsNameInExpression
    returns, stays within its buffers and decides whether the name is in the language of
    the expression: with the characters as they are, or upcased by the table given, or
    upcased by the table of the system, in which case it raises STATUS_NO_MEMORY when
    the upcased copy cannot be allocated.  With eight and more characters it may need
    larger buffers from the pool, and raises STATUS_INSUFFICIENT_RESOURCES, and nothing
    else, when there is no memory for them.  The language ([matches]) is that of the
    code: a DOS_QM that ends the expression takes a final dot.  An empty name is in the
    empty expression only. *)
Theorem FsRtlIsNameInExpression_spec table Allocated PoolOk Expression Name IgnoreCase UpcaseTable :
  Z.of_nat (length Expression) < 16384 -> ch_backslash ∉ Expression ->
  (forall T, IgnoreCase = true -> UpcaseTable = Some T ->
    Forall (fun x => T x = x /\ ~ (97 <= x <= 122)) Expression) ->
  let answer := match IgnoreCase, UpcaseTable, Allocated with
                | true, None, false => Raises STATUS_NO_MEMORY
                | true, None, true => Returns (in_expression id Expression (map (NLS_UPCASE table) Name))
                | true, Some T, _ => Returns (in_expression T Expression Name)
                | false, _, _ => Returns (in_expression id Expression Name)
                end in
  let result := FsRtlIsNameInExpression table Allocated PoolOk Expression Name IgnoreCase UpcaseTable in
  (PoolOk = true \/ Z.of_nat (length Expression) < 8 -> result = Some answer) /\
  (result = Some answer \/ result = Some (Raises STATUS_INSUFFICIENT_RESOURCES)).
Proof.
  intros Hl Hb Hu answer result.
  assert (forall P, P = true \/ Z.of_nat (length Expression) < 8 ->
    FsRtlIsNameInExpression table Allocated P Expression Name IgnoreCase UpcaseTable = Some answer) as Hok.
  { intros P HP. unfold answer, FsRtlIsNameInExpression, RtlUpcaseUnicodeString.
    destruct IgnoreCase, UpcaseTable as [T|], Allocated; try done; cbn [negb];
      rewrite Private_in_expression; try done; intros _; by apply Hu. }
  split; [apply Hok|]. destruct PoolOk; [left; apply Hok; by left|].
  assert (result = FsRtlIsNameInExpression table Allocated true Expression Name IgnoreCase UpcaseTable \/
    result = Some (Raises STATUS_INSUFFICIENT_RESOURCES)) as [E|E]; [|left; rewrite E; apply Hok; by left|by right].
  unfold result, FsRtlIsNameInExpression, RtlUpcaseUnicodeString.
  destruct IgnoreCase, UpcaseTable as [T|], Allocated; cbn [negb];
    match goal with
    | |- outcome_of (FsRtlIsNameInExpressionPrivate ?E ?I ?U _ ?N) = _ \/ _ =>
        destruct (Private_agrees E I U N) as [->| ->]; [left; reflexivity|right; reflexivity]
    | |- _ => left; reflexivity
    end.
Qed.

Lemma FsRtlIsNameInExpression_spec_witness :
  FsRtlIsNameInExpression id true false [97; 42; 46; 63; 34] [97; 98; 46; 99; 46; 100] false None = Some (Returns true) /\
  FsRtlIsNameInExpression id true true [42; 46; 67; 42] [97; 46; 99] true
    (Some (fun x => if (97 <=? x) && (x <=? 122) then x - 32 else x)) = Some (Returns true).
Proof.
  split.
  - destruct (FsRtlIsNameInExpression_spec id true false [97; 42; 46; 63; 34] [97; 98; 46; 99; 46; 100] false None) as [E _];
      [cbn; lia|apply (bool_decide_unpack _); vm_compute; exact I|done|]. cbv zeta in E.
    rewrite E by (right; cbn; lia). reflexivity.
  - set (T := fun x => if (97 <=? x) && (x <=? 122) then x - 32 else x).
    destruct (FsRtlIsNameInExpression_spec id true true [42; 46; 67; 42] [97; 46; 99] true (Some T)) as [E _];
      [cbn; lia|apply (bool_decide_unpack _); vm_compute; exact I| |].
    { intros T' _ [= <-]. repeat constructor; lia. }
    cbv zeta in E. rewrite E by (by left). reflexivity.
Defined.

(** Nine stars are enough to need them. *)
Example no_memory_raises :
  FsRtlIsNameInExpression id true false (repeat ch_star 9) [97; 97] false None = Some (Raises STATUS_INSUFFICIENT_RESOURCES).
Proof. reflexivity. Qed.

(** ** The other routines *)

Lemma wild_scan_iff l : wild_scan l = true <->
  exists pre x post, l = pre ++ x :: post /\ FsRtlIsUnicodeCharacterWild x = true /\ ch_backslash ∉ pre.
Proof.
  induction l as [|p l IH]; cbn [wild_scan].
  { split; [done|]. by intros ([|] & x & post & ? & _). }
  destruct (Z.eqb_spec p ch_backslash) as [->|Hp].
  { split; [done|]. intros ([|y pre] & x & post & [= <- ->] & Hx & Hn); [done|]. set_solver. }
  destruct (FsRtlIsUnicodeCharacterWild p) eqn:Ew.
  { split; [|done]. intros _. exists [], p, l. split_and!; [done..|]. apply not_elem_of_nil. }
  rewrite IH. split.
  - intros (pre & x & post & -> & Hx & Hn). exists (p :: pre), x, post. split_and!; [done..|set_solver].
  - intros ([|y pre] & x & post & [= <- ->] & Hx & Hn); [congruence|].
    exists pre, x, post. split_and!; [done..|set_solver].
Qed.

(** A name contains wild cards when its last component does. *)
Theorem FsRtlDoesNameContainWildCards_spec Name : FsRtlDoesNameContainWildCards Name = true <->
  exists pre x post, Name = pre ++ x :: post /\ FsRtlIsUnicodeCharacterWild x = true /\ ch_backslash ∉ post.
Proof.
  unfold FsRtlDoesNameContainWildCards. rewrite wild_scan_iff. split.
  - intros (pre & x & post & H & Hx & Hn). exists (rev post), x, (rev pre). split_and!; [|done|].
    + rewrite <- (rev_involutive Name), H, rev_app_distr. cbn. by rewrite <- app_assoc.
    + intros Hin. apply Hn, list_elem_of_In, in_rev. by apply list_elem_of_In in Hin.
  - intros (pre & x & post & -> & Hx & Hn). exists (rev post), x, (rev pre). split_and!; [|done|].
    + rewrite rev_app_distr. cbn. by rewrite <- app_assoc.
    + intros Hin. apply Hn, list_elem_of_In, in_rev. by apply list_elem_of_In in Hin.
Qed.

Lemma equal_upcased_iff T A B : length A = length B -> equal_upcased T A B = bool_decide (map T A = map T B).
Proof.
  revert B; induction A as [|a A IH]; intros [|b B] H; try done. cbn [equal_upcased map].
  rewrite IH by (cbn in H; lia). destruct (Z.eqb_spec (T a) (T b)) as [->|Hne]; cbn [negb].
  - apply bool_decide_ext. split; [by intros ->|by intros [= ->]].
  - rewrite bool_decide_eq_false_2; [done|congruence].
Qed.

(** Two names are equal exactly when they have the same characters, upcased by the
    table given or else by that of the system when case is ignored; the routine raises
    STATUS_NO_MEMORY when it has to upcase names of equal length and cannot. *)
Theorem FsRtlAreNamesEqual_spec table AllocatedA AllocatedB A B IgnoreCase UpcaseTable :
  FsRtlAreNamesEqual table AllocatedA AllocatedB A B IgnoreCase UpcaseTable =
  match IgnoreCase, UpcaseTable, AllocatedA && AllocatedB with
  | true, None, false => if decide (length A = length B) then Raises STATUS_NO_MEMORY else Returns false
  | true, None, true => Returns (bool_decide (map (NLS_UPCASE table) A = map (NLS_UPCASE table) B))
  | true, Some T, _ => Returns (bool_decide (map T A = map T B))
  | false, _, _ => Returns (bool_decide (A = B))
  end.
Proof.
  assert (Hmap : forall T : Z -> Z, length A <> length B -> bool_decide (map T A = map T B) = false).
  { intros T Hne. apply bool_decide_eq_false_2. intros H. apply (f_equal length) in H. rewrite !length_map in H. done. }
  unfold FsRtlAreNamesEqual, RtlUpcaseUnicodeString, equal_memory.
  destruct (Nat.eqb_spec (length A) (length B)) as [He|Hne]; cbn [negb].
  - destruct IgnoreCase, UpcaseTable as [T|], AllocatedA, AllocatedB; cbn; try done;
      solve [by rewrite decide_True|by rewrite equal_upcased_iff].
  - assert (A <> B) by congruence.
    destruct IgnoreCase, UpcaseTable as [T|], (AllocatedA && AllocatedB); rewrite ?Hmap, ?decide_False, ?bool_decide_eq_false_2; done.
Qed.

Lemma first_part_spec Path : let '(F, R) := first_part Path in
  Path = F ++ R /\ ch_backslash ∉ F /\ (R = [] \/ exists R', R = ch_backslash :: R').
Proof.
  induction Path as [|c Path IH]; cbn [first_part].
  { split_and!; [done|apply not_elem_of_nil|by left]. }
  destruct (Z.eqb_spec c ch_backslash) as [->|Hc]; cbn [negb].
  { split_and!; [done|apply not_elem_of_nil|right; by exists Path]. }
  destruct (first_part Path) as [F R]. destruct IH as (-> & HF & HR). split_and!; [done| |done].
  apply not_elem_of_cons. split; congruence.
Qed.

(** FsRtlDissectName splits a path into a leading backslash or nothing, the first
    name, which has no backslash, a separator, and the remaining name; the remaining
    name of a non-empty path is shorter, so that dissecting a path step by step ends. *)
Theorem FsRtlDissectName_spec Path FirstName RemainingName : FsRtlDissectName Path = (FirstName, RemainingName) ->
  ch_backslash ∉ FirstName /\ (Path <> [] -> length RemainingName < length Path)%nat /\
  exists lead sep, Path = lead ++ FirstName ++ sep ++ RemainingName /\
    lead = (if bool_decide (head Path = Some ch_backslash) then [ch_backslash] else []) /\
    (sep = [ch_backslash] \/ sep = [] /\ RemainingName = []).
Proof.
  destruct Path as [|c rest]; cbn [FsRtlDissectName].
  { intros [= <- <-]. split_and!; [apply not_elem_of_nil|done|]. exists [], []. split_and!; [done..|by right]. }
  set (P := if c =? ch_backslash then rest else c :: rest). set (lead := if c =? ch_backslash then [ch_backslash] else []).
  assert (HP : c :: rest = lead ++ P) by (unfold lead, P; destruct (Z.eqb_spec c ch_backslash); subst; done).
  assert (Hlead : lead = (if bool_decide (head (c :: rest) = Some ch_backslash) then [ch_backslash] else [])).
  { unfold lead. cbn. destruct (Z.eqb_spec c ch_backslash) as [->|].
    - by rewrite bool_decide_eq_true_2.
    - rewrite bool_decide_eq_false_2; congruence. }
  pose proof (first_part_spec P) as HF. destruct (first_part P) as [F R].
  destruct HF as (Heq & HnF & HR). intros [= <- <-].
  destruct HR as [->|(R' & ->)]; (split_and!; [done|intros _|exists lead]).
  - cbn. lia.
  - exists []. rewrite HP, Heq at 1. rewrite !app_nil_r. split_and!; [done..|by right].
  - rewrite HP, Heq. rewrite !length_app. cbn. lia.
  - exists [ch_backslash]. rewrite HP, Heq at 1. split_and!; [done..|by left].
Qed.
Lemma FsRtlDissectName_spec_witness : (length [99] < length [92; 97; 98; 92; 99])%nat /\ ch_backslash ∉ [97; 98].
Proof.
  destruct (FsRtlDissectName_spec [92; 97; 98; 92; 99] [97; 98] [99] eq_refl) as (H & Hl & _).
  split; [apply Hl; discriminate|exact H].
Defined.

(** ** Where the code and its description differ *)

(** At a dot that ends the name a DOS_QM takes the dot, although the description
    lets it match any character except a dot or, at the end or before a dot, nothing. *)
Theorem dos_qm_takes_final_dot :
  FsRtlIsNameInExpression id true true [97; DOS_QM] [97; ch_dot] false None = Some (Returns true) /\
  FsRtlIsNameInExpression id true true [97; DOS_QM] [97; ch_dot; 98] false None = Some (Returns false).
Proof. split; reflexivity. Qed.

(** The scan for wild cards stops at a backslash, so that the short comparison is
    used for an expression that has wild cards before one. *)
Theorem backslash_hides_wild_cards :
  FsRtlDoesNameContainWildCards [ch_qm; ch_backslash; 97] = false /\
  FsRtlIsNameInExpression id true true [ch_star; ch_qm; ch_backslash; 97] [98; 99; ch_backslash; 97] false None = Some (Returns false) /\
  FsRtlIsNameInExpression id true true [ch_star; ch_qm; ch_backslash; 97; ch_qm] [98; 99; ch_backslash; 97; 97] false None = Some (Returns true).
Proof. split_and!; reflexivity. Qed.

(** The entries of CurrentMatches are not without duplicates. *)
Theorem duplicate_matches :
  sources [ch_star; ch_qm; ch_star] false id true false 97 [97] 3 [0; 3; 8] 0 (mkBuf [] false) =
    Ok (mkBuf [0; 3; 8; 8; 11; 12] false).
Proof. reflexivity. Qed.

(** MaxState is sixteen bits wide: with 16385 characters it is 4, the state after
    the first character, and a name of one character is found in an expression
    without wild cards that is 16385 characters long. *)
Theorem MaxState_overflow : let Expression := 97 :: replicate (Z.to_nat 16384) 98 in
  MaxState Expression = 4 /\
  FsRtlIsNameInExpression id true true Expression [97] false None = Some (Returns true) /\
  matches id Expression [97] = false.
Proof. split_and!; vm_compute; reflexivity. Qed.

End NameMatch.
