(* ===== verification/FsRtlMcb.v ===== *)
(** * Map control blocks (fsrtl/largemcb.c): the routines

    A map control block (MCB) keeps the retrieval mapping of a file: which sector
    of the volume (Lbn) holds a sector of the file (Vbn).  Module [Mcb] translates
    all routines of src/ntoskrnl/fsrtl/largemcb.c: the base package, the large
    package that wraps it in a guarded mutex, and the small package on top.

    The state is the BASE_MCB with its buffer of mapping pairs, and the number of
    requests made so far to the pool.  An access outside the buffer, an access
    after the buffer was freed and a free that does not match the allocation are
    faults.  ULONG values are [Z] modulo 2^32, LONGLONG values [Z] modulo 2^64 with
    sign.  The pool is the parameter [answer]: its answer to the n-th request for
    so many bytes, either no memory, which raises STATUS_INSUFFICIENT_RESOURCES, or
    a buffer with arbitrary contents.  An exception carries the state at the point
    it was raised.  The ASSERTs, compiled only in checked builds, are left out, and a
    value that several tests of a chain of conditions read is read once, before
    them. *)

From S2P Require Import Prelude.
#[local] Open Scope Z_scope.

Module Mcb.

(** ** Data *)

(** (LBN)-1, the Lbn of a hole. *)
Definition UNUSED_LBN : Z := 0xffffffff.
Definition INITIAL_MAXIMUM_PAIR_COUNT : Z := 15.
Definition SIZEOF_MAPPING : Z := 8.
Definition PagedPool : Z := 1.
Definition STATUS_INSUFFICIENT_RESOURCES : Z := 0xC000009A.

Record MAPPING := mkMapping { NextVbn : Z; Lbn : Z }.

(** Where a buffer of mapping pairs comes from: FsRtlFirstMappingLookasideList, or
    the pool. *)
Inductive origin := FirstMapping | PoolMapping.
Record buffer := mkBuffer { from : origin; slots : list MAPPING }.

(** [Mapping] is [None] when the MCB has no buffer (not initialised, or freed). *)
Record BASE_MCB := mkBase {
  MaximumPairCount : Z;
  PairCount : Z;
  PoolType : Z;
  Mapping : option buffer
}.

(** The mutex is modelled by whether it is held. *)
Record LARGE_MCB := mkLarge { GuardedMutex : bool; BaseMcb : BASE_MCB }.

(** ** Effects

    A routine takes a state to a result, an exception with the state it leaves, a
    fault, a wait that never ends, or the loss of its fuel. *)

Record state := mkState { mcb : BASE_MCB; calls : nat }.
Record lstate := mkLState { large : LARGE_MCB; lcalls : nat }.

Inductive outcome (S A : Type) :=
  | Ok (a : A) (s : S)
  | Raise (Status : Z) (s : S)
  | Fault
  | Blocked
  | NoFuel.
Arguments Ok {S A}. Arguments Raise {S A}. Arguments Fault {S A}.
Arguments Blocked {S A}. Arguments NoFuel {S A}.

Definition M (A : Type) : Type := state -> outcome state A.
Definition LM (A : Type) : Type := lstate -> outcome lstate A.
Definition ret {A} (a : A) : M A := fun s => Ok a s.
Definition bind {A B} (m : M A) (k : A -> M B) : M B := fun s =>
  match m s with
  | Ok a s' => k a s'
  | Raise e s' => Raise e s'
  | Fault => Fault
  | Blocked => Blocked
  | NoFuel => NoFuel
  end.
#[local] Notation "'let!' x ':=' m 'in' k" := (bind m (fun x => k)) (at level 10, x pattern, m at level 100, k at level 200).
#[local] Notation "m ';;' k" := (bind m (fun _ => k)) (at level 100, right associativity).

Definition get : M BASE_MCB := fun s => Ok (mcb s) s.
Definition put (b : BASE_MCB) : M unit := fun s => Ok tt (mkState b (calls s)).
Definition fault {A} : M A := fun _ => Fault.

Definition set_PairCount (n : Z) : M unit :=
  let! b := get in put (mkBase (MaximumPairCount b) n (PoolType b) (Mapping b)).
Definition set_Mapping (m : option buffer) : M unit :=
  let! b := get in put (mkBase (MaximumPairCount b) (PairCount b) (PoolType b) m).
Definition set_MaximumPairCount (n : Z) : M unit :=
  let! b := get in put (mkBase n (PairCount b) (PoolType b) (Mapping b)).
Definition set_PoolType (t : Z) : M unit :=
  let! b := get in put (mkBase (MaximumPairCount b) (PairCount b) t (Mapping b)).

(** *** The buffer *)

Definition the_buffer : M buffer :=
  let! b := get in match Mapping b with Some m => ret m | None => fault end.
Definition rd (i : Z) : M MAPPING :=
  let! m := the_buffer in
  match slots m !! Z.to_nat i with
  | Some e => if 0 <=? i then ret e else fault
  | None => fault
  end.
Definition wr (i : Z) (e : MAPPING) : M unit :=
  let! _ := rd i in
  let! m := the_buffer in
  set_Mapping (Some (mkBuffer (from m) (<[Z.to_nat i := e]> (slots m)))).
Definition wr_NextVbn (i v : Z) : M unit := let! e := rd i in wr i (mkMapping v (Lbn e)).
Definition wr_Lbn (i v : Z) : M unit := let! e := rd i in wr i (mkMapping (NextVbn e) v).

(** RtlMoveMemory of [n] slots within the buffer; the two areas may overlap. *)
Definition RtlMoveMemory (dst src n : Z) : M unit :=
  let! m := the_buffer in
  let len := Z.of_nat (length (slots m)) in
  if (0 <=? dst) && (0 <=? src) && (0 <=? n) && (dst + n <=? len) && (src + n <=? len) then
    let moved := take (Z.to_nat n) (drop (Z.to_nat src) (slots m)) in
    set_Mapping (Some (mkBuffer (from m)
      (take (Z.to_nat dst) (slots m) ++ moved ++ drop (Z.to_nat (dst + n)) (slots m))))
  else fault.

(** RtlCopyMemory of the first [n] slots of the old buffer over those of the new. *)
Definition RtlCopyMemory (new old : buffer) (n : Z) : M buffer :=
  if (0 <=? n) && (n <=? Z.of_nat (length (slots new))) && (n <=? Z.of_nat (length (slots old))) then
    ret (mkBuffer (from new) (take (Z.to_nat n) (slots old) ++ drop (Z.to_nat n) (slots new)))
  else fault.

(** Freeing a buffer the way it was allocated. *)
Definition FsRtlFreeFirstMapping (m : buffer) : M unit :=
  match from m with FirstMapping => ret tt | PoolMapping => fault end.
Definition ExFreePool (m : buffer) : M unit :=
  match from m with PoolMapping => ret tt | FirstMapping => fault end.

Section Pool.
(** The answer of the pool to its n-th request, for so many bytes. *)
Context (answer : nat -> Z -> option (Z -> MAPPING)).

Definition allocate_mapping (o : origin) (bytes : Z) : M buffer := fun s =>
  let s' := mkState (mcb s) (S (calls s)) in
  match answer (calls s) bytes with
  | Some contents => Ok (mkBuffer o (map contents (zrange (Z.to_nat (bytes / SIZEOF_MAPPING))))) s'
  | None => Raise STATUS_INSUFFICIENT_RESOURCES s'
  end.
Definition FsRtlAllocateFirstMapping : M buffer :=
  allocate_mapping FirstMapping (SIZEOF_MAPPING * INITIAL_MAXIMUM_PAIR_COUNT).
Definition FsRtlpAllocatePool (bytes : Z) : M buffer := allocate_mapping PoolMapping bytes.

(** try { Mapping = ... } except (EXCEPTION_EXECUTE_HANDLER) { Mapping = NULL; } *)
Definition try_allocate (m : M buffer) : M (option buffer) := fun s =>
  match m s with
  | Ok b s' => Ok (Some b) s'
  | Raise _ s' => Ok None s'
  | Fault => Fault
  | Blocked => Blocked
  | NoFuel => NoFuel
  end.

(** ** The macros *)

Definition StartingVbn (i : Z) : M Z :=
  if i =? 0 then ret 0 else let! e := rd (u32 (i - 1)) in ret (NextVbn e).
Definition EndingVbn (i : Z) : M Z := let! e := rd i in ret (u32 (NextVbn e - 1)).
Definition PreviousEndingVbn (i : Z) : M Z :=
  if i =? 0 then ret 0xffffffff else EndingVbn (u32 (i - 1)).
Definition NextStartingVbn (i : Z) : M Z :=
  let! b := get in if i >=? PairCount b then ret 0 else StartingVbn (u32 (i + 1)).
Definition StartingLbn (i : Z) : M Z := let! e := rd i in ret (Lbn e).
Definition EndingLbn (i : Z) : M Z :=
  let! l := StartingLbn i in
  if l =? UNUSED_LBN then ret UNUSED_LBN
  else let! e := rd i in let! s := StartingVbn i in ret (u32 (Lbn e + NextVbn e - s - 1)).
Definition PreviousEndingLbn (i : Z) : M Z :=
  if i =? 0 then ret UNUSED_LBN else EndingLbn (u32 (i - 1)).
Definition NextStartingLbn (i : Z) : M Z :=
  let! b := get in
  if i >=? u32 (PairCount b - 1) then ret UNUSED_LBN else StartingLbn (u32 (i + 1)).
Definition SectorsWithinRun (i : Z) : M Z :=
  let! e := EndingVbn i in let! s := StartingVbn i in ret (u32 (e - s + 1)).

(** ** Searching and making room *)

(** One turn of the binary search halves the interval; an interval of LONGs is
    empty after 33 turns. *)
Fixpoint index_loop (fuel : nat) (Vbn MinIndex MaxIndex : Z) : M (bool * Z) :=
  match fuel with
  | O => fun _ => NoFuel
  | S fuel =>
      if MinIndex <=? MaxIndex then
        let MidIndex := Z.quot (s32 (MaxIndex + MinIndex)) 2 in
        let! start := StartingVbn MidIndex in
        if Vbn <? start then index_loop fuel Vbn MinIndex (s32 (MidIndex - 1))
        else
          let! ending := EndingVbn MidIndex in
          if Vbn >? ending then index_loop fuel Vbn (s32 (MidIndex + 1)) MaxIndex
          else ret (true, MidIndex)
      else let! b := get in ret (false, PairCount b)
  end.
Definition FsRtlFindLargeIndex (Vbn : Z) : M (bool * Z) :=
  let! b := get in index_loop 34 Vbn 0 (s32 (u32 (PairCount b - 1))).

Definition FsRtlAddLargeEntry (WhereToAddIndex AmountToAdd : Z) : M unit :=
  let! b := get in
  (if u32 (PairCount b + AmountToAdd) >? MaximumPairCount b then
     let NewMax := if MaximumPairCount b <? 2048 then u32 (MaximumPairCount b * 2)
                   else u32 (MaximumPairCount b + 2048) in
     let! new := FsRtlpAllocatePool (u32 (SIZEOF_MAPPING * NewMax)) in
     let! old := the_buffer in
     let! new := RtlCopyMemory new old (PairCount b) in
     (if (PoolType b =? PagedPool) && (MaximumPairCount b =? INITIAL_MAXIMUM_PAIR_COUNT)
      then FsRtlFreeFirstMapping old else ExFreePool old) ;;
     set_Mapping (Some new) ;;
     set_MaximumPairCount NewMax
   else ret tt) ;;
  (if WhereToAddIndex <? PairCount b
   then RtlMoveMemory (u32 (WhereToAddIndex + AmountToAdd)) WhereToAddIndex (u32 (PairCount b - WhereToAddIndex))
   else ret tt) ;;
  set_PairCount (u32 (PairCount b + AmountToAdd)).

Definition FsRtlRemoveLargeEntry (WhereToRemoveIndex AmountToRemove : Z) : M unit :=
  let! b := get in
  (if u32 (WhereToRemoveIndex + AmountToRemove) <? PairCount b
   then RtlMoveMemory WhereToRemoveIndex (u32 (WhereToRemoveIndex + AmountToRemove))
          (u32 (PairCount b - u32 (WhereToRemoveIndex + AmountToRemove)))
   else ret tt) ;;
  set_PairCount (u32 (PairCount b - AmountToRemove)).

(** ** The base package *)

Definition FsRtlInitializeBaseMcb (Pool : Z) : M unit :=
  set_PairCount 0 ;;
  set_PoolType Pool ;;
  let! m := (if Pool =? PagedPool then FsRtlAllocateFirstMapping
             else FsRtlpAllocatePool (SIZEOF_MAPPING * INITIAL_MAXIMUM_PAIR_COUNT)) in
  set_Mapping (Some m) ;;
  set_MaximumPairCount INITIAL_MAXIMUM_PAIR_COUNT.

Definition FsRtlUninitializeBaseMcb : M unit :=
  let! b := get in
  let! m := the_buffer in
  (if (PoolType b =? PagedPool) && (MaximumPairCount b =? INITIAL_MAXIMUM_PAIR_COUNT)
   then FsRtlFreeFirstMapping m else ExFreePool m) ;;
  set_Mapping None.

(** The second half of FsRtlTruncateBaseMcb: give back most of a large buffer. *)
Definition shrink : M unit :=
  let! b := get in
  if (PairCount b <? MaximumPairCount b / 4) && (MaximumPairCount b >? INITIAL_MAXIMUM_PAIR_COUNT) then
    let NewMax := u32 (PairCount b * 2) in
    let NewMax := if NewMax <? INITIAL_MAXIMUM_PAIR_COUNT then INITIAL_MAXIMUM_PAIR_COUNT else NewMax in
    let! new := try_allocate
      (if (NewMax =? INITIAL_MAXIMUM_PAIR_COUNT) && (PoolType b =? PagedPool)
       then FsRtlAllocateFirstMapping else FsRtlpAllocatePool (u32 (SIZEOF_MAPPING * NewMax))) in
    match new with
    | Some new =>
        let! old := the_buffer in
        let! new := RtlCopyMemory new old (PairCount b) in
        ExFreePool old ;;
        set_Mapping (Some new) ;;
        set_MaximumPairCount NewMax
    | None => ret tt
    end
  else ret tt.

Definition FsRtlTruncateBaseMcb (LargeVbn : Z) : M unit :=
  let Vbn := u32 LargeVbn in
  let! b := get in
  (if Vbn =? 0 then set_PairCount 0
   else if PairCount b >? 0 then
     let! (found, Index) := FsRtlFindLargeIndex (u32 (Vbn - 1)) in
     if found then
       let! l := StartingLbn Index in
       if l =? UNUSED_LBN then set_PairCount Index
       else
         set_PairCount (u32 (Index + 1)) ;;
         let! n := NextStartingVbn Index in
         if n >? Vbn then wr_NextVbn Index Vbn else ret tt
     else ret tt
   else ret tt) ;;
  shrink.

Definition FsRtlResetBaseMcb : M unit := set_PairCount 0.

(** *** FsRtlAddBaseMcbEntry *)

(** The overlap with a run that is already mapped: an early result, or the part of
    the request that is left. *)
Definition trim_request (Vbn L SectorCount : Z) : M (bool + Z * Z * Z) :=
  let! (found, Index) := FsRtlFindLargeIndex Vbn in
  if found then
    let EndVbn := u32 (Vbn + SectorCount - 1) in
    let! l := StartingLbn Index in
    if negb (l =? UNUSED_LBN) then
      let! s := StartingVbn Index in
      if negb (L =? u32 (l + (Vbn - s))) then ret (inl false)
      else
        let! e := EndingVbn Index in
        if EndVbn <=? e then ret (inl true)
        else
          let! v := NextStartingVbn Index in
          let! el := EndingLbn Index in
          ret (inr (v, u32 (el + 1), u32 (EndVbn - v + 1)))
    else
      let! (found', EndIndex) := FsRtlFindLargeIndex EndVbn in
      if found' && (Index =? u32 (EndIndex - 1)) then
        let! l' := StartingLbn EndIndex in
        let! s' := StartingVbn EndIndex in
        if negb (l' =? u32 (L + (s' - Vbn))) then ret (inl false)
        else ret (inr (Vbn, L, u32 (s' - Vbn)))
      else ret (inr (Vbn, L, SectorCount))
  else ret (inr (Vbn, L, SectorCount)).

(** The new run goes after the last one. *)
Definition append_run (Index Vbn L SectorCount : Z) : M bool :=
  let! pv := PreviousEndingVbn Index in
  let! pl := PreviousEndingLbn Index in
  if negb (Index =? 0) && (u32 (pv + 1) =? Vbn) && (u32 (pl + 1) =? L) then
    let! b := get in
    let! e := rd (u32 (PairCount b - 1)) in
    wr_NextVbn (u32 (PairCount b - 1)) (u32 (NextVbn e + SectorCount)) ;;
    ret true
  else if (Vbn =? 0) || (u32 (pv + 1) =? Vbn) then
    FsRtlAddLargeEntry Index 1 ;;
    wr_Lbn Index L ;;
    wr_NextVbn Index (u32 (Vbn + SectorCount)) ;;
    ret true
  else
    FsRtlAddLargeEntry Index 2 ;;
    wr_Lbn Index UNUSED_LBN ;;
    wr_NextVbn Index Vbn ;;
    wr_Lbn (u32 (Index + 1)) L ;;
    wr_NextVbn (u32 (Index + 1)) (u32 (Vbn + SectorCount)) ;;
    ret true.

(** The new run has the exact extent of a hole. *)
Definition fill_whole_hole (Index L SectorCount : Z) : M bool :=
  let! pl := PreviousEndingLbn Index in
  let! nl := NextStartingLbn Index in
  if (u32 (pl + 1) =? L) && (nl =? u32 (L + SectorCount)) then
    let! e := rd (u32 (Index + 1)) in
    wr_NextVbn (u32 (Index - 1)) (NextVbn e) ;;
    FsRtlRemoveLargeEntry Index 2 ;;
    ret true
  else if nl =? u32 (L + SectorCount) then
    wr_Lbn (u32 (Index + 1)) L ;;
    FsRtlRemoveLargeEntry Index 1 ;;
    ret true
  else if u32 (pl + 1) =? L then
    let! e := rd Index in
    wr_NextVbn (u32 (Index - 1)) (NextVbn e) ;;
    FsRtlRemoveLargeEntry Index 1 ;;
    ret true
  else
    wr_Lbn Index L ;;
    ret true.

(** The new run starts at the start of the hole and leaves a hole at its rear, or
    ends at the end of the hole and leaves one at its front. *)
Definition fill_front (Index Vbn L SectorCount : Z) : M bool :=
  let! pl := PreviousEndingLbn Index in
  if u32 (pl + 1) =? L then
    let! e := rd (u32 (Index - 1)) in
    wr_NextVbn (u32 (Index - 1)) (u32 (NextVbn e + SectorCount)) ;;
    ret true
  else
    FsRtlAddLargeEntry Index 1 ;;
    wr_Lbn Index L ;;
    wr_NextVbn Index (u32 (Vbn + SectorCount)) ;;
    ret true.
Definition fill_rear (Index Vbn L SectorCount : Z) : M bool :=
  let! nl := NextStartingLbn Index in
  if nl =? u32 (L + SectorCount) then
    wr_NextVbn Index Vbn ;;
    wr_Lbn (u32 (Index + 1)) L ;;
    ret true
  else
    FsRtlAddLargeEntry Index 1 ;;
    wr_Lbn Index UNUSED_LBN ;;
    wr_NextVbn Index Vbn ;;
    wr_Lbn (u32 (Index + 1)) L ;;
    ret true.

(** The new run starts in the entry [Index]; it is added when that is a hole with
    room for it. *)
Definition fill_hole (Index Vbn L SectorCount : Z) : M bool :=
  let LastVbn := u32 (Vbn + SectorCount - 1) in
  let! l := StartingLbn Index in
  let! s := StartingVbn Index in
  let! e := EndingVbn Index in
  if (l =? UNUSED_LBN) && (s <=? Vbn) && (LastVbn <=? e) then
    if (s <? Vbn) && (LastVbn <? e) then
      FsRtlAddLargeEntry Index 2 ;;
      wr_Lbn Index UNUSED_LBN ;;
      wr_NextVbn Index Vbn ;;
      wr_Lbn (u32 (Index + 1)) L ;;
      wr_NextVbn (u32 (Index + 1)) (u32 (Vbn + SectorCount)) ;;
      ret true
    else if (s =? Vbn) && (LastVbn <? e) then fill_front Index Vbn L SectorCount
    else if (s <? Vbn) && (LastVbn =? e) then fill_rear Index Vbn L SectorCount
    else fill_whole_hole Index L SectorCount
  else ret false.

(** ((Index = PairCount) == 0) || (PreviousEndingVbn + 1 <= Vbn) ||
    !FsRtlFindLargeIndex(Mcb, Vbn, &Index): whether the run goes at the end, and
    the index. *)
Definition at_the_end (Vbn : Z) : M (bool * Z) :=
  let! b := get in
  if PairCount b =? 0 then ret (true, PairCount b)
  else
    let! pv := PreviousEndingVbn (PairCount b) in
    if u32 (pv + 1) <=? Vbn then ret (true, PairCount b)
    else let! (found, Index) := FsRtlFindLargeIndex Vbn in ret (negb found, Index).

(** What is left of the request goes at the end or into a hole. *)
Definition place_run (Vbn L SectorCount : Z) : M bool :=
  let! (at_end, Index) := at_the_end Vbn in
  if at_end then append_run Index Vbn L SectorCount else fill_hole Index Vbn L SectorCount.

Definition FsRtlAddBaseMcbEntry (LargeVbn LargeLbn LargeSectorCount : Z) : M bool :=
  let! t := trim_request (u32 LargeVbn) (u32 LargeLbn) (u32 LargeSectorCount) in
  match t with
  | inl Result => ret Result
  | inr (Vbn, L, SectorCount) => place_run Vbn L SectorCount
  end.

(** *** FsRtlRemoveBaseMcbEntry *)

(** The run [Index] is removed entirely. *)
Definition remove_entire (Index : Z) : M unit :=
  let! l := StartingLbn Index in
  let! b := get in
  if l =? UNUSED_LBN then ret tt
  else if Index =? u32 (PairCount b - 1) then
    let! pl := PreviousEndingLbn Index in
    if negb (pl =? UNUSED_LBN) || (Index =? 0) then FsRtlRemoveLargeEntry Index 1
    else FsRtlRemoveLargeEntry (u32 (Index - 1)) 2
  else
    let! pl := PreviousEndingLbn Index in
    let! nl := NextStartingLbn Index in
    if (negb (pl =? UNUSED_LBN) || (Index =? 0)) && negb (nl =? UNUSED_LBN) then wr_Lbn Index UNUSED_LBN
    else if (negb (pl =? UNUSED_LBN) || (Index =? 0)) && (nl =? UNUSED_LBN) then
      FsRtlRemoveLargeEntry Index 1
    else if (pl =? UNUSED_LBN) && negb (nl =? UNUSED_LBN) then
      wr_Lbn Index UNUSED_LBN ;;
      FsRtlRemoveLargeEntry (u32 (Index - 1)) 1
    else FsRtlRemoveLargeEntry (u32 (Index - 1)) 2.

(** Its first part is removed. *)
Definition remove_first_part (Index Vbn SectorCount : Z) : M unit :=
  let! l := StartingLbn Index in
  if l =? UNUSED_LBN then ret tt
  else
    let! pl := PreviousEndingLbn Index in
    if negb (pl =? UNUSED_LBN) || (Index =? 0) then
      FsRtlAddLargeEntry Index 1 ;;
      wr_Lbn Index UNUSED_LBN ;;
      wr_NextVbn Index (u32 (u32 Vbn + u32 SectorCount)) ;;
      let! e := rd (u32 (Index + 1)) in
      wr_Lbn (u32 (Index + 1)) (u32 (Lbn e + u32 SectorCount))
    else
      let! p := rd (u32 (Index - 1)) in
      wr_NextVbn (u32 (Index - 1)) (u32 (NextVbn p + u32 SectorCount)) ;;
      let! e := rd Index in
      wr_Lbn Index (u32 (Lbn e + u32 SectorCount)).

(** Its last part is removed. *)
Definition remove_last_part (Index AmountToRemove : Z) : M unit :=
  let! l := StartingLbn Index in
  let! b := get in
  if l =? UNUSED_LBN then ret tt
  else
    let! nl := NextStartingLbn Index in
    if (Index =? u32 (PairCount b - 1)) || (nl =? UNUSED_LBN) then
      let! e := rd Index in
      wr_NextVbn Index (u32 (NextVbn e - AmountToRemove))
    else
      FsRtlAddLargeEntry (u32 (Index + 1)) 1 ;;
      wr_Lbn (u32 (Index + 1)) UNUSED_LBN ;;
      let! e := rd Index in
      wr_NextVbn (u32 (Index + 1)) (NextVbn e) ;;
      let! e := rd Index in
      wr_NextVbn Index (u32 (NextVbn e - AmountToRemove)).

(** Its middle is removed. *)
Definition remove_middle (Index Vbn SectorCount : Z) : M unit :=
  let! l := StartingLbn Index in
  if l =? UNUSED_LBN then ret tt
  else
    FsRtlAddLargeEntry Index 2 ;;
    let! e := rd (u32 (Index + 2)) in
    wr_Lbn Index (Lbn e) ;;
    wr_NextVbn Index (u32 Vbn) ;;
    wr_Lbn (u32 (Index + 1)) UNUSED_LBN ;;
    wr_NextVbn (u32 (Index + 1)) (u32 (u32 Vbn + u32 SectorCount)) ;;
    let! e := rd (u32 (Index + 2)) in
    let! n0 := SectorsWithinRun Index in
    let! n1 := SectorsWithinRun (u32 (Index + 1)) in
    wr_Lbn (u32 (Index + 2)) (u32 (Lbn e + (n0 + n1))).

(** One turn of the loop, with what is left to remove.  StartingVbn and EndingVbn
    are compared with Vbn and SectorCount as LONGLONGs. *)
Definition remove_turn (Index Vbn SectorCount : Z) : M (Z * Z) :=
  let! s := StartingVbn Index in
  let! e := EndingVbn Index in
  if (s =? Vbn) && (e <? s64 (Vbn + SectorCount)) then
    let! i := SectorsWithinRun Index in
    remove_entire Index ;;
    ret (s64 (Vbn + i), s64 (SectorCount - i))
  else if s =? Vbn then
    remove_first_part Index Vbn SectorCount ;;
    ret (s64 (Vbn + SectorCount), 0)
  else if e <? s64 (Vbn + SectorCount) then
    let AmountToRemove := u32 (e - u32 Vbn + 1) in
    remove_last_part Index AmountToRemove ;;
    ret (s64 (Vbn + AmountToRemove), s64 (SectorCount - AmountToRemove))
  else
    remove_middle Index Vbn SectorCount ;;
    ret (s64 (Vbn + SectorCount), 0).

Fixpoint remove_loop (fuel : nat) (Vbn SectorCount : Z) : M unit :=
  match fuel with
  | O => fun _ => NoFuel
  | S fuel =>
      if SectorCount >? 0 then
        let! (found, Index) := FsRtlFindLargeIndex (u32 Vbn) in
        if found then
          let! (Vbn', SectorCount') := remove_turn Index Vbn SectorCount in
          remove_loop fuel Vbn' SectorCount'
        else ret tt
      else ret tt
  end.

(** A turn ends the loop or leaves one entry fewer beyond Vbn, so that the number
    of pairs bounds the turns. *)
Definition FsRtlRemoveBaseMcbEntry (Vbn SectorCount : Z) : M unit :=
  let! b := get in
  let loop := remove_loop (2 + Z.to_nat (PairCount b)) Vbn SectorCount in
  if (Vbn =? 0) && (PairCount b >? 0) then
    let! e := rd (u32 (PairCount b - 1)) in
    if SectorCount >=? NextVbn e then set_PairCount 0 else loop
  else loop.

(** *** Queries *)

(** What FsRtlLookupBaseMcbEntry stores through those of its pointers that are
    present. *)
Record lookup_result := mkLookup {
  LargeLbn : Z; LargeSectorCount : Z; LargeStartingLbn : Z; LargeCountFromStartingLbn : Z; RunIndex : Z
}.

Definition FsRtlLookupBaseMcbEntry (LargeVbn : Z) : M (option lookup_result) :=
  let Vbn := u32 LargeVbn in
  let! (found, LocalIndex) := FsRtlFindLargeIndex Vbn in
  if found then
    let! l := StartingLbn LocalIndex in
    let! s := StartingVbn LocalIndex in
    let! e := EndingVbn LocalIndex in
    ret (Some (mkLookup
      (if l =? UNUSED_LBN then -1 else u32 (l + (Vbn - s)))
      (u32 (e - Vbn + 1))
      (if l =? UNUSED_LBN then -1 else l)
      (u32 (e - s + 1))
      LocalIndex))
  else ret None.

(** The last Vbn and its Lbn. *)
Definition FsRtlLookupLastBaseMcbEntry : M (option (Z * Z)) :=
  let! b := get in
  if PairCount b >? 0 then
    let! l := EndingLbn (u32 (PairCount b - 1)) in
    let! v := EndingVbn (u32 (PairCount b - 1)) in
    ret (Some (v, l))
  else ret None.

(** HighPart = (LowPart == UNUSED_LBN ? UNUSED_LBN : 0), read as a LONGLONG. *)
Definition extend (LowPart : Z) : Z := if LowPart =? UNUSED_LBN then -1 else LowPart.

(** The caller's LargeVbn, LargeLbn and Index are read and written in place: the
    high parts are set whether there is a mapping or not. *)
Definition FsRtlLookupLastBaseMcbEntryAndIndex (LargeVbn0 LargeLbn0 Index0 : Z) : M (bool * Z * Z * Z) :=
  let! b := get in
  if PairCount b >? 0 then
    let! l := EndingLbn (u32 (PairCount b - 1)) in
    let! v := EndingVbn (u32 (PairCount b - 1)) in
    ret (true, extend v, extend l, u32 (PairCount b - 1))
  else ret (false, extend (u32 LargeVbn0), extend (u32 LargeLbn0), Index0).

Definition FsRtlNumberOfRunsInBaseMcb : M Z := let! b := get in ret (PairCount b).

(** Vbn, Lbn and SectorCount of a run. *)
Definition FsRtlGetNextBaseMcbEntry (Run : Z) : M (option (Z * Z * Z)) :=
  let! b := get in
  if Run <? PairCount b then
    let! v := StartingVbn Run in
    let! l := StartingLbn Run in
    let! n := SectorsWithinRun Run in
    ret (Some (extend v, extend l, n))
  else ret None.

(** *** FsRtlSplitBaseMcb *)

(** for (i = Index; i < PairCount; i += 1) Mapping[i].NextVbn += Amount *)
Fixpoint shift_pairs (fuel : nat) (i Amount : Z) : M unit :=
  match fuel with
  | O => fun _ => NoFuel
  | S fuel =>
      let! b := get in
      if i <? PairCount b then
        let! e := rd i in
        wr_NextVbn i (u32 (NextVbn e + Amount)) ;;
        shift_pairs fuel (u32 (i + 1)) Amount
      else ret tt
  end.

(** The room for the hole at [Vbn], and the index the shift starts from. *)
Definition open_hole (Index Vbn Amount : Z) : M Z :=
  let! l := StartingLbn Index in
  let! s := StartingVbn Index in
  let! pl := PreviousEndingLbn Index in
  if l =? UNUSED_LBN then ret Index
  else if (s =? Vbn) && negb (Index =? 0) && (pl =? UNUSED_LBN) then ret (u32 (Index - 1))
  else if s =? Vbn then
    FsRtlAddLargeEntry Index 1 ;;
    wr_Lbn Index UNUSED_LBN ;;
    wr_NextVbn Index (u32 (Vbn + Amount)) ;;
    ret (u32 (Index + 1))
  else
    FsRtlAddLargeEntry Index 2 ;;
    let! e := rd (u32 (Index + 2)) in
    wr_Lbn Index (Lbn e) ;;
    wr_NextVbn Index Vbn ;;
    wr_Lbn (u32 (Index + 1)) UNUSED_LBN ;;
    wr_NextVbn (u32 (Index + 1)) (u32 (Vbn + Amount)) ;;
    let! e := rd (u32 (Index + 2)) in
    let! s1 := StartingVbn (u32 (Index + 1)) in
    let! s0 := StartingVbn Index in
    wr_Lbn (u32 (Index + 2)) (u32 (Lbn e + s1 - s0)) ;;
    ret (u32 (Index + 2)).

Definition FsRtlSplitBaseMcb (LargeVbn LargeAmount : Z) : M bool :=
  let Vbn := u32 LargeVbn in
  let Amount := u32 LargeAmount in
  let! (found, Index) := FsRtlFindLargeIndex Vbn in
  if found then
    let! i := open_hole Index Vbn Amount in
    let! b := get in
    shift_pairs (S (Z.to_nat (PairCount b))) i Amount ;;
    ret true
  else ret false.

(** ** The large package: the base package under the mutex

    The mutex is not recursive: acquiring it while it is held waits for ever.  Most
    routines release it after the call, so that an exception leaves it held; three
    release it in a finally clause. *)

Definition run_base {A} (on_raise : bool) (m : M A) : LM A := fun s =>
  match m (mkState (BaseMcb (large s)) (lcalls s)) with
  | Ok a s' => Ok a (mkLState (mkLarge (GuardedMutex (large s)) (mcb s')) (calls s'))
  | Raise e s' => Raise e (mkLState (mkLarge on_raise (mcb s')) (calls s'))
  | Fault => Fault
  | Blocked => Blocked
  | NoFuel => NoFuel
  end.
(** KeAcquireGuardedMutex; m; KeReleaseGuardedMutex *)
Definition locked {A} (m : M A) : LM A := fun s =>
  if GuardedMutex (large s) then Blocked else run_base true m s.
(** KeAcquireGuardedMutex; try { m } finally { KeReleaseGuardedMutex } *)
Definition locked_finally {A} (m : M A) : LM A := fun s =>
  if GuardedMutex (large s) then Blocked else run_base false m s.

Definition FsRtlInitializeLargeMcb (Pool : Z) : LM unit := fun s =>
  run_base false (FsRtlInitializeBaseMcb Pool) (mkLState (mkLarge false (BaseMcb (large s))) (lcalls s)).
Definition FsRtlUninitializeLargeMcb : LM unit := fun s =>
  run_base (GuardedMutex (large s)) FsRtlUninitializeBaseMcb s.
Definition FsRtlTruncateLargeMcb (LargeVbn : Z) : LM unit := locked (FsRtlTruncateBaseMcb LargeVbn).
Definition FsRtlResetLargeMcb (SelfSynchronized : bool) : LM unit := fun s =>
  if SelfSynchronized then run_base (GuardedMutex (large s)) (set_PairCount 0) s
  else locked (set_PairCount 0) s.
Definition FsRtlAddLargeMcbEntry (LargeVbn LargeLbn LargeSectorCount : Z) : LM bool :=
  locked (FsRtlAddBaseMcbEntry LargeVbn LargeLbn LargeSectorCount).
Definition FsRtlRemoveLargeMcbEntry (LargeVbn LargeSectorCount : Z) : LM unit :=
  locked (FsRtlRemoveBaseMcbEntry (u32 LargeVbn) (u32 LargeSectorCount)).
Definition FsRtlLookupLargeMcbEntry (LargeVbn : Z) : LM (option lookup_result) :=
  locked (FsRtlLookupBaseMcbEntry LargeVbn).
Definition FsRtlLookupLastLargeMcbEntry : LM (option (Z * Z)) := locked_finally FsRtlLookupLastBaseMcbEntry.
Definition FsRtlLookupLastLargeMcbEntryAndIndex (LargeVbn0 LargeLbn0 Index0 : Z) : LM (bool * Z * Z * Z) :=
  locked_finally (FsRtlLookupLastBaseMcbEntryAndIndex LargeVbn0 LargeLbn0 Index0).
Definition FsRtlNumberOfRunsInLargeMcb : LM Z := locked FsRtlNumberOfRunsInBaseMcb.
Definition FsRtlGetNextLargeMcbEntry (Run : Z) : LM (option (Z * Z * Z)) :=
  locked (FsRtlGetNextBaseMcbEntry Run).
Definition FsRtlSplitLargeMcb (LargeVbn LargeAmount : Z) : LM bool :=
  locked_finally (FsRtlSplitBaseMcb LargeVbn LargeAmount).

(** ** The small package

    Vbns, Lbns and counts are ULONGs, and the Lbn of a hole is reported as 0. *)

Definition lmap {A B} (f : A -> B) (m : LM A) : LM B := fun s =>
  match m s with
  | Ok a s' => Ok (f a) s'
  | Raise e s' => Raise e s'
  | Fault => Fault
  | Blocked => Blocked
  | NoFuel => NoFuel
  end.
(** ((ULONG)LiLbn) == -1 ? 0 : ((ULONG)LiLbn) *)
Definition small_lbn (LiLbn : Z) : Z := if u32 LiLbn =? UNUSED_LBN then 0 else u32 LiLbn.

Definition FsRtlInitializeMcb (Pool : Z) : LM unit := FsRtlInitializeLargeMcb Pool.
Definition FsRtlUninitializeMcb : LM unit := FsRtlUninitializeLargeMcb.
Definition FsRtlTruncateMcb (Vbn : Z) : LM unit := FsRtlTruncateLargeMcb Vbn.
Definition FsRtlAddMcbEntry (Vbn L SectorCount : Z) : LM bool := FsRtlAddLargeMcbEntry Vbn L SectorCount.
Definition FsRtlRemoveMcbEntry (Vbn SectorCount : Z) : LM unit := FsRtlRemoveLargeMcbEntry Vbn SectorCount.
(** Lbn, SectorCount and Index *)
Definition FsRtlLookupMcbEntry (Vbn : Z) : LM (option (Z * Z * Z)) :=
  lmap (option_map (fun r => (small_lbn (LargeLbn r), u32 (LargeSectorCount r), RunIndex r)))
    (FsRtlLookupLargeMcbEntry Vbn).
Definition FsRtlLookupLastMcbEntry : LM (option (Z * Z)) :=
  lmap (option_map (fun r => (u32 (fst r), small_lbn (snd r)))) FsRtlLookupLastLargeMcbEntry.
Definition FsRtlNumberOfRunsInMcb : LM Z := FsRtlNumberOfRunsInLargeMcb.
Definition FsRtlGetNextMcbEntry (Run : Z) : LM (option (Z * Z * Z)) :=
  lmap (option_map (fun '(v, l, n) => (u32 v, small_lbn l, u32 n))) (FsRtlGetNextLargeMcbEntry Run).

End Pool.
End Mcb.
