(* ===== verification/FsRtlMcbRuns.v ===== *)
(** * Map control blocks: run lists and what they map

    Module [McbRuns] is the theory of the list of mapping pairs an MCB holds.  Its
    meaning [sector_map] is a partial function from Vbn to Lbn.  The invariant
    [wf_runs] says that the runs follow each other without empty ones, that no two
    holes are adjacent, that two adjacent runs whose Lbns follow on are one run,
    and that the last pair is not a hole.  Under it the list is determined by its
    meaning ([runs_canonical]): it is the shortest list of runs, whatever the order
    in which the mappings were added.  The abstract operations are functions on
    the partial functions. *)

From S2P Require Import Prelude FsRtlMcb.
#[local] Open Scope Z_scope.

Module McbRuns.
Import Mcb.

Definition hole (m : MAPPING) : bool := Lbn m =? UNUSED_LBN.

(** What comes before a pair: the start of the file, a hole, or a run with the Lbn
    that would continue it. *)
Inductive run_kind := KStart | KHole | KRun (next : Z).

Definition kind_after (s : Z) (m : MAPPING) : run_kind :=
  if hole m then KHole else KRun (Lbn m + (NextVbn m - s)).

(** The Vbn after the pairs, the kind of the last one, and the invariant between
    them, for pairs that start at Vbn [s] after something of kind [p]. *)
Fixpoint endv (s : Z) (l : list MAPPING) : Z :=
  match l with [] => s | m :: l => endv (NextVbn m) l end.
Fixpoint last_kind (s : Z) (p : run_kind) (l : list MAPPING) : run_kind :=
  match l with [] => p | m :: l => last_kind (NextVbn m) (kind_after s m) l end.
Definition pair_ok (s : Z) (p : run_kind) (m : MAPPING) : Prop :=
  s < NextVbn m < 2 ^ 32 /\
  if hole m then p <> KHole
  else 0 < Lbn m /\ Lbn m + (NextVbn m - s) <= UNUSED_LBN /\ p <> KRun (Lbn m).
Fixpoint runs_chain (s : Z) (p : run_kind) (l : list MAPPING) : Prop :=
  match l with
  | [] => True
  | m :: l => pair_ok s p m /\ runs_chain (NextVbn m) (kind_after s m) l
  end.
Definition wf_runs (l : list MAPPING) : Prop := runs_chain 0 KStart l /\ last_kind 0 KStart l <> KHole.

(** The Lbn of [x], for pairs that start at [s <= x]. *)
Fixpoint den (s : Z) (l : list MAPPING) (x : Z) : option Z :=
  match l with
  | [] => None
  | m :: l =>
      if x <? NextVbn m then if hole m then None else Some (Lbn m + (x - s))
      else den (NextVbn m) l x
  end.
Definition sector_map (l : list MAPPING) (x : Z) : option Z := if x <? 0 then None else den 0 l x.

(** ** The abstract operations *)

Definition fmap_eq (f g : Z -> option Z) : Prop := forall x, f x = g x.
#[global] Instance fmap_eq_equivalence : Equivalence fmap_eq.
Proof. split; [by intros f x|by intros f g H x|intros f g h H H' x; by rewrite H]. Qed.

(** The mapping of [n] sectors from [v] to [b]; sectors outside keep theirs. *)
Definition f_add (v b n : Z) (f : Z -> option Z) (x : Z) : option Z :=
  if (v <=? x) && (x <? v + n) then Some (b + (x - v)) else f x.
Definition f_remove (v n : Z) (f : Z -> option Z) (x : Z) : option Z :=
  if (v <=? x) && (x <? v + n) then None else f x.
Definition f_truncate (v : Z) (f : Z -> option Z) (x : Z) : option Z := if x <? v then f x else None.
Definition f_split (v n : Z) (f : Z -> option Z) (x : Z) : option Z :=
  if x <? v then f x else if x <? v + n then None else f (x - n).

#[global] Instance f_add_proper v b n : Proper (fmap_eq ==> fmap_eq) (f_add v b n).
Proof. intros f g H x. unfold f_add. by rewrite H. Qed.
#[global] Instance f_remove_proper v n : Proper (fmap_eq ==> fmap_eq) (f_remove v n).
Proof. intros f g H x. unfold f_remove. by rewrite H. Qed.
#[global] Instance f_truncate_proper v : Proper (fmap_eq ==> fmap_eq) (f_truncate v).
Proof. intros f g H x. unfold f_truncate. by rewrite H. Qed.
#[global] Instance f_split_proper v n : Proper (fmap_eq ==> fmap_eq) (f_split v n).
Proof. intros f g H x. unfold f_split. by rewrite !H. Qed.

(** The request [v, v + n) -> [b, b + n) agrees with [f] on [a, c). *)
Definition agrees (f : Z -> option Z) (v b a c : Z) : Prop := forall x, a <= x < c -> f x = Some (b + (x - v)).
Definition unmapped (f : Z -> option Z) (a c : Z) : Prop := forall x, a <= x < c -> f x = None.
(** A request is taken when its sectors are unmapped but for a prefix, or a suffix,
    that is mapped already as requested. *)
Definition acceptable (f : Z -> option Z) (v b n : Z) : Prop :=
  exists k, v <= k <= v + n /\
    (agrees f v b v k /\ unmapped f k (v + n) \/ unmapped f v k /\ agrees f v b k (v + n)).
(** Some sector from [v] on is mapped. *)
Definition mapped_from (f : Z -> option Z) (v : Z) : Prop := exists x, v <= x /\ f x <> None.

(** ** Lists of runs *)

Lemma runs_chain_app s p l1 l2 :
  runs_chain s p (l1 ++ l2) <-> runs_chain s p l1 /\ runs_chain (endv s l1) (last_kind s p l1) l2.
Proof.
  revert s p. induction l1 as [|m l1 IH]; intros s p; cbn; [tauto|]. rewrite IH. tauto.
Qed.
Lemma endv_app s l1 l2 : endv s (l1 ++ l2) = endv (endv s l1) l2.
Proof. revert s. induction l1 as [|m l1 IH]; intros s; cbn; auto. Qed.
Lemma last_kind_app s p l1 l2 : last_kind s p (l1 ++ l2) = last_kind (endv s l1) (last_kind s p l1) l2.
Proof. revert s p. induction l1 as [|m l1 IH]; intros s p; cbn; auto. Qed.
Lemma runs_chain_endv s p l : runs_chain s p l -> s <= endv s l.
Proof.
  revert s p. induction l as [|m l IH]; intros s p; cbn; [lia|].
  intros [[H _] Hl]. apply IH in Hl. lia.
Qed.
Lemma runs_chain_endv_max s p l : runs_chain s p l -> s < 2 ^ 32 -> endv s l < 2 ^ 32.
Proof.
  revert s p. induction l as [|m l IH]; intros s p; cbn [runs_chain endv]; [lia|].
  intros [[H _] Hl] _. eapply IH; [exact Hl|lia].
Qed.
Lemma den_app s p l1 l2 x : runs_chain s p l1 -> s <= x ->
  den s (l1 ++ l2) x = if x <? endv s l1 then den s l1 x else den (endv s l1) l2 x.
Proof.
  revert s p. induction l1 as [|m l1 IH]; intros s p Hc Hx; cbn.
  - by rewrite (proj2 (Z.ltb_ge x s)) by lia.
  - destruct Hc as [Hm Hl]. pose proof (runs_chain_endv _ _ _ Hl).
    destruct (x <? NextVbn m) eqn:E.
    + by rewrite (proj2 (Z.ltb_lt x (endv (NextVbn m) l1))) by lia.
    + apply (IH (NextVbn m) (kind_after s m)); [done|lia].
Qed.
(** Beyond the last pair nothing is mapped. *)
Lemma den_beyond s p l x : runs_chain s p l -> s <= x -> endv s l <= x -> den s l x = None.
Proof.
  revert s p. induction l as [|m l IH]; intros s p Hc Hx He; cbn; [done|].
  destruct Hc as [Hm Hl]. pose proof (runs_chain_endv _ _ _ Hl). cbn in He.
  rewrite (proj2 (Z.ltb_ge x (NextVbn m))) by lia. eapply IH; eauto; lia.
Qed.
(** The kind before a pair matters for that pair only. *)
Lemma runs_chain_kind s p p' m l : runs_chain s p (m :: l) -> pair_ok s p' m -> runs_chain s p' (m :: l).
Proof. cbn. tauto. Qed.
Lemma last_kind_cons s p p' m l : last_kind s p (m :: l) = last_kind s p' (m :: l).
Proof. done. Qed.
(** The Lbns that are mapped are neither 0 nor -1. *)
Lemma den_range s p l x b : runs_chain s p l -> s <= x -> den s l x = Some b -> 0 < b < UNUSED_LBN.
Proof.
  revert s p. induction l as [|m l IH]; intros s p Hc Hx; cbn; [done|].
  destruct Hc as [[Hm Hb] Hl]. unfold hole in *. destruct (x <? NextVbn m) eqn:E.
  - destruct (Lbn m =? UNUSED_LBN); [done|]. intros [= <-]. lia.
  - eapply IH; eauto; lia.
Qed.
(** The sector before the end is mapped when the last pair is a run. *)
Lemma den_last s p l e : runs_chain s p l -> last_kind s p l = KRun e -> l <> [] ->
  den s l (endv s l - 1) = Some (e - 1).
Proof.
  revert s p. induction l as [|m l IH]; intros s p Hc Hk Hl; [done|].
  destruct Hc as [Hm Hc]. cbn [endv last_kind] in *. destruct l as [|m' l].
  - cbn in *. destruct Hm as [Hm _]. rewrite (proj2 (Z.ltb_lt _ _)) by lia.
    unfold kind_after in Hk. destruct (hole m); [done|]. injection Hk as <-. f_equal. lia.
  - pose proof (IH _ _ Hc Hk ltac:(done)) as H. cbn [den]. cbn in Hc. destruct Hc as [[Hm' _] Hc].
    pose proof (runs_chain_endv _ _ _ Hc). cbn [endv] in *.
    rewrite (proj2 (Z.ltb_ge _ (NextVbn m))) by lia. exact H.
Qed.
Lemma nonempty_mapped s p l : runs_chain s p l -> last_kind s p l <> KHole -> l <> [] ->
  exists x, s <= x < endv s l /\ den s l x <> None.
Proof.
  intros Hc Hk Hl. exists (endv s l - 1).
  assert (s < endv s l).
  { destruct l as [|m l]; [done|]. destruct Hc as [[Hm _] Hc]. apply runs_chain_endv in Hc. cbn. lia. }
  split; [lia|]. destruct (last_kind s p l) as [| |e] eqn:E; [|done|].
  - exfalso. clear Hk. revert s p Hc E H. induction l as [|m l IH]; intros s p Hc E H; [done|].
    destruct Hc as [Hm Hc]. cbn in E. destruct l as [|m' l].
    + cbn in E. unfold kind_after in E. by destruct (hole m).
    + eapply (IH ltac:(done) _ _ Hc E). destruct Hc as [[Hm' _] Hc]. apply runs_chain_endv in Hc. cbn. lia.
  - by rewrite (den_last _ _ _ _ Hc E Hl).
Qed.

(** ** The list is determined by its meaning *)

(** The entry after a pair does not continue it. *)
Lemma no_continuation s p m l : pair_ok s p m -> runs_chain (NextVbn m) (kind_after s m) l ->
  last_kind s p (m :: l) <> KHole ->
  den (NextVbn m) l (NextVbn m) <> if hole m then None else Some (Lbn m + (NextVbn m - s)).
Proof.
  intros Hm Hc Hk. destruct l as [|m' l]; cbn in *.
  - unfold kind_after in Hk. by destruct (hole m).
  - destruct Hc as [[Hm' Hb] _]. rewrite (proj2 (Z.ltb_lt _ _)) by lia.
    unfold kind_after in Hb. destruct (hole m), (hole m'); try done.
    intros [= H]. apply (proj2 (proj2 Hb)). f_equal. lia.
Qed.
Lemma den_head s p m l x : runs_chain s p (m :: l) -> s <= x < NextVbn m ->
  den s (m :: l) x = if hole m then None else Some (Lbn m + (x - s)).
Proof. intros _ Hx. cbn. by rewrite (proj2 (Z.ltb_lt _ _)) by lia. Qed.
(** If two lists mean the same, the first pair of one does not end before that of
    the other. *)
Lemma head_not_shorter s p m m' l l' :
  runs_chain s p (m :: l) -> runs_chain s p (m' :: l') ->
  last_kind s p (m :: l) <> KHole ->
  (forall x, s <= x -> den s (m :: l) x = den s (m' :: l') x) -> NextVbn m' <= NextVbn m.
Proof.
  intros H H' Hk He. destruct (Z.le_gt_cases (NextVbn m') (NextVbn m)) as [|Hlt]; [done|exfalso].
  pose proof H as [Hm Hc]. pose proof (no_continuation _ _ _ _ Hm Hc Hk) as Hn. apply Hn.
  pose proof Hm as [Hs _]. pose proof (He (NextVbn m) ltac:(lia)) as E1. pose proof (He s ltac:(lia)) as E0.
  rewrite (den_head s p m' l' (NextVbn m) H' ltac:(lia)) in E1.
  rewrite (den_head s p m l s H ltac:(lia)), (den_head s p m' l' s H' ltac:(lia)) in E0.
  cbn [den] in E1. rewrite Z.ltb_irrefl in E1. rewrite E1.
  destruct (hole m), (hole m'); try done. injection E0 as E0. f_equal. lia.
Qed.

Lemma runs_chain_canonical s p l l' :
  runs_chain s p l -> runs_chain s p l' -> last_kind s p l <> KHole -> last_kind s p l' <> KHole ->
  (forall x, s <= x -> den s l x = den s l' x) -> l = l'.
Proof.
  revert s p l'. induction l as [|m l IH]; intros s p l' H H' Hk Hk' He.
  - destruct l' as [|m' l']; [done|exfalso].
    destruct (nonempty_mapped _ _ _ H' Hk' ltac:(done)) as (x & Hx & Hd).
    apply Hd. rewrite <- He by lia. done.
  - destruct l' as [|m' l'].
    { exfalso. destruct (nonempty_mapped _ _ _ H Hk ltac:(done)) as (x & Hx & Hd).
      apply Hd. rewrite He by lia. done. }
    pose proof (head_not_shorter _ _ _ _ _ _ H H' Hk He) as L1.
    pose proof (head_not_shorter _ _ _ _ _ _ H' H Hk' ltac:(intros; symmetry; auto)) as L2.
    assert (EN : NextVbn m = NextVbn m') by lia.
    pose proof H as [Hm Hc]. pose proof H' as [Hm' Hc']. pose proof Hm as [Hs _]. pose proof Hm' as [Hs' _].
    pose proof (He s ltac:(lia)) as E0.
    rewrite (den_head s p m l s H ltac:(lia)), (den_head s p m' l' s H' ltac:(lia)) in E0.
    assert (EL : Lbn m = Lbn m').
    { unfold hole in E0. destruct (Lbn m =? UNUSED_LBN) eqn:A, (Lbn m' =? UNUSED_LBN) eqn:B; try done;
        [|injection E0; lia]. lia. }
    assert (m = m') as <- by (destruct m, m'; cbn in *; congruence).
    f_equal. eapply (IH (NextVbn m) (kind_after s m)); eauto. intros x Hx.
    pose proof (He x ltac:(lia)) as E. cbn [den] in E.
    by rewrite (proj2 (Z.ltb_ge x (NextVbn m))) in E by lia.
Qed.

Lemma runs_canonical l l' : wf_runs l -> wf_runs l' -> fmap_eq (sector_map l) (sector_map l') -> l = l'.
Proof.
  intros [H Hk] [H' Hk'] He. apply (runs_chain_canonical 0 KStart); try done.
  intros x Hx. specialize (He x). unfold sector_map in He. by rewrite (proj2 (Z.ltb_ge x 0)) in He by lia.
Qed.

End McbRuns.
