(* ===== verification/FsRtlMcbExec.v ===== *)
(** * Map control blocks: executing the routines

    Module [McbExec] relates a state to the list of pairs it holds ([holds]) and
    gives a rule for each primitive the routines are built from: reading and
    writing a pair, the macros, making room, removing pairs, and the binary
    search.  The rules have the form of weakest preconditions on [spec], which
    says what a routine returns and what it leaves when it raises, and excludes
    faults, endless waits and running out of fuel.  The tactics [rd_step] and
    [wr_step] apply them. *)

From S2P Require Import Prelude FsRtlMcb FsRtlMcbRuns.
#[local] Open Scope Z_scope.

Module McbExec.
Import Mcb McbRuns.

(** The state holds the pairs [l]: they are the first of the buffer, which is as
    long as the MCB says and came from the lookaside list exactly when the MCB will
    give it back there.  A buffer fits in half of the address space. *)
Definition holds (s : state) (l : list MAPPING) : Prop :=
  exists junk o,
    Mapping (mcb s) = Some (mkBuffer o (l ++ junk)) /\
    PairCount (mcb s) = Z.of_nat (length l) /\
    MaximumPairCount (mcb s) = Z.of_nat (length (l ++ junk)) /\
    INITIAL_MAXIMUM_PAIR_COUNT <= MaximumPairCount (mcb s) <= 2 ^ 28 /\
    (o = FirstMapping <->
     PoolType (mcb s) = PagedPool /\ MaximumPairCount (mcb s) = INITIAL_MAXIMUM_PAIR_COUNT).

(** ** Outcomes *)

Definition spec {A} (o : outcome state A) (Q : A -> state -> Prop) (R : state -> Prop) : Prop :=
  match o with
  | Ok a s => Q a s
  | Raise e s => e = STATUS_INSUFFICIENT_RESOURCES /\ R s
  | Fault | Blocked | NoFuel => False
  end.

Lemma spec_ret {A} (a : A) s (Q : A -> state -> Prop) R : Q a s -> spec (ret a s) Q R.
Proof. done. Qed.
Lemma spec_bind {A B} (m : M A) (k : A -> M B) s Q R :
  spec (m s) (fun a s' => spec (k a s') Q R) R -> spec (bind m k s) Q R.
Proof. unfold bind. by destruct (m s). Qed.
(** A routine in tail position. *)
Lemma spec_tail {A} (m : M A) s Q R : spec (bind m ret s) Q R -> spec (m s) Q R.
Proof. unfold bind. by destruct (m s). Qed.
Lemma spec_weaken {A} (o : outcome state A) (Q Q' : A -> state -> Prop) (R R' : state -> Prop) :
  spec o Q R -> (forall a s, Q a s -> Q' a s) -> (forall s, R s -> R' s) -> spec o Q' R'.
Proof. destruct o; cbn; auto. intros [-> H] _ HR. auto. Qed.
(** A step that only reads. *)
Lemma bind_ok {A B} (m : M A) (k : A -> M B) s a s' : m s = Ok a s' -> bind m k s = k a s'.
Proof. unfold bind. by intros ->. Qed.
Lemma bind_assoc {A B C} (m : M A) (k : A -> M B) (h : B -> M C) s :
  bind (bind m k) h s = bind m (fun a => bind (k a) h) s.
Proof. unfold bind. by destruct (m s). Qed.

(** ** Reading *)

Section Reading.
Context (s : state) (pre rest : list MAPPING) (H : holds s (pre ++ rest)).

Lemma holds_length : Z.of_nat (length pre) + Z.of_nat (length rest) <= 2 ^ 28.
Proof using H. destruct H as (junk & o & _ & _ & HM & HB & _). rewrite !length_app in HM. lia. Qed.
Lemma holds_count : PairCount (mcb s) = Z.of_nat (length pre) + Z.of_nat (length rest).
Proof using H. destruct H as (junk & o & _ & HP & _). rewrite HP, length_app. lia. Qed.

Lemma rd_ok i k m : i = Z.of_nat (length pre) + Z.of_nat k -> rest !! k = Some m -> rd i s = Ok m s.
Proof using H.
  intros -> Hk. destruct H as (junk & o & HM & _). unfold rd, the_buffer.
  erewrite bind_ok; [|unfold bind; cbn; rewrite HM; done]. cbn [slots].
  replace (Z.to_nat _) with (length pre + k)%nat by lia.
  assert (Hl : ((pre ++ rest) ++ junk) !! (length pre + k)%nat = Some m).
  { apply lookup_app_l_Some. rewrite lookup_app_r by lia.
    by replace (length pre + k - length pre)%nat with k by lia. }
  rewrite Hl. rewrite (proj2 (Z.leb_le 0 _)) by lia. done.
Qed.
End Reading.

(** The Vbn at which the pair [k] of [rest], after [pre], starts. *)
Definition startv (pre rest : list MAPPING) (k : nat) : Z := endv (endv 0 pre) (take k rest).

Section Macros.
Context (s : state) (pre rest : list MAPPING) (H : holds s (pre ++ rest)).
Context (i : Z) (k : nat) (Hi : i = Z.of_nat (length pre) + Z.of_nat k).

Lemma StartingVbn_ok : (k <= length rest)%nat -> StartingVbn i s = Ok (startv pre rest k) s.
Proof using H Hi.
  intros Hk. pose proof (holds_length _ _ _ H). unfold StartingVbn, startv. destruct (Z.eqb_spec i 0) as [E|E].
  - assert (length pre = 0%nat /\ k = 0%nat) as [Hp ->] by lia. apply nil_length_inv in Hp as ->. done.
  - destruct (Nat.eq_dec k 0%nat) as [->|Hk0].
    + cbn [take endv]. destruct pre as [|q pre' _] using rev_ind; [cbn in *; lia|].
      rewrite <- app_assoc in H. rewrite length_app in Hi, H0. cbn in Hi, H0.
      rewrite (bind_ok _ _ s q s).
      2: { apply (rd_ok _ _ _ H _ 0%nat); [|done]. wrap. lia. }
      rewrite endv_app. done.
    + destruct k as [|k']; [lia|]. destruct (lookup_lt_is_Some_2 rest k' ltac:(lia)) as [m Hm].
      rewrite (bind_ok _ _ s m s).
      2: { apply (rd_ok _ _ _ H _ k'); [|done]. wrap. lia. }
      rewrite (take_S_r _ _ _ Hm), endv_app. done.
Qed.

Context (m : MAPPING) (Hm : rest !! k = Some m).

Lemma StartingLbn_ok : StartingLbn i s = Ok (Lbn m) s.
Proof using H Hi Hm. unfold StartingLbn. by rewrite (bind_ok _ _ s m s) by (by eapply rd_ok). Qed.
Lemma EndingVbn_u : EndingVbn i s = Ok (u32 (NextVbn m - 1)) s.
Proof using H Hi Hm. unfold EndingVbn. by rewrite (bind_ok _ _ s m s) by (by eapply rd_ok). Qed.
Lemma EndingVbn_ok : 0 < NextVbn m < 2 ^ 32 -> EndingVbn i s = Ok (NextVbn m - 1) s.
Proof using H Hi Hm. intros Hr. rewrite EndingVbn_u. by wrap. Qed.
Lemma index_lt : (k < length rest)%nat.
Proof using Hm. by eapply lookup_lt_Some. Qed.
Lemma NextStartingVbn_ok : NextStartingVbn i s = Ok (NextVbn m) s.
Proof using H Hi Hm.
  pose proof (holds_length _ _ _ H). pose proof index_lt. unfold NextStartingVbn. unfold bind, get.
  rewrite (holds_count _ _ _ H). rewrite (Z.geb_leb i), (proj2 (Z.leb_gt _ _)) by lia.
  unfold StartingVbn. wrap. rewrite (proj2 (Z.eqb_neq _ _)) by lia.
  rewrite (bind_ok _ _ s m s); [done|]. apply (rd_ok _ _ _ H _ k); [|done]. wrap. lia.
Qed.
Lemma SectorsWithinRun_ok : 0 <= startv pre rest k <= NextVbn m -> 0 < NextVbn m < 2 ^ 32 ->
  SectorsWithinRun i s = Ok (NextVbn m - startv pre rest k) s.
Proof using H Hi Hm.
  pose proof index_lt. intros H1 H2. unfold SectorsWithinRun.
  rewrite (bind_ok _ _ s _ s (EndingVbn_ok H2)), (bind_ok _ _ s _ s (StartingVbn_ok ltac:(lia))).
  unfold ret. do 2 f_equal. wrap. lia.
Qed.
Lemma EndingLbn_ok :
  0 <= startv pre rest k < NextVbn m -> NextVbn m < 2 ^ 32 ->
  (hole m = false -> 0 <= Lbn m /\ Lbn m + (NextVbn m - startv pre rest k) <= UNUSED_LBN) ->
  EndingLbn i s = Ok (if hole m then UNUSED_LBN else Lbn m + (NextVbn m - startv pre rest k) - 1) s.
Proof using H Hi Hm.
  pose proof index_lt. intros H1 H2 H3. unfold EndingLbn. rewrite (bind_ok _ _ s _ s StartingLbn_ok).
  fold (hole m). destruct (hole m); [done|]. destruct H3 as [H3 H4]; [done|].
  rewrite (bind_ok _ _ s _ s (rd_ok _ _ _ H _ _ _ Hi Hm)), (bind_ok _ _ s _ s (StartingVbn_ok ltac:(lia))).
  unfold ret. do 2 f_equal. unfold UNUSED_LBN in *. wrap. lia.
Qed.
Lemma NextStartingLbn_ok :
  NextStartingLbn i s = Ok (match rest !! S k with Some q => Lbn q | None => UNUSED_LBN end) s.
Proof using H Hi Hm.
  pose proof (holds_length _ _ _ H). pose proof index_lt. unfold NextStartingLbn, get.
  unfold bind at 1. rewrite (holds_count _ _ _ H). wrap. rewrite Z.geb_leb.
  destruct (rest !! S k) as [q|] eqn:E.
  - apply lookup_lt_Some in E as E'. rewrite (proj2 (Z.leb_gt _ _)) by lia. unfold StartingLbn.
    rewrite (bind_ok _ _ s q s); [done|]. apply (rd_ok _ _ _ H _ (S k)); [|done]. wrap. lia.
  - apply lookup_ge_None in E. rewrite (proj2 (Z.leb_le _ _)) by lia. done.
Qed.
End Macros.

(** The Lbn before a pair, as PreviousEndingLbn reports it. *)
Definition prev_lbn (p : run_kind) : Z := match p with KRun e => e - 1 | _ => UNUSED_LBN end.

Section Previous.
Context (s : state) (pre rest : list MAPPING) (H : holds s (pre ++ rest)) (Hc : runs_chain 0 KStart pre).
Context (i : Z) (Hi : i = Z.of_nat (length pre)).

Lemma PreviousEndingVbn_ok : PreviousEndingVbn i s = Ok (u32 (endv 0 pre - 1)) s.
Proof using H Hi.
  clear Hc. pose proof (holds_length _ _ _ H). unfold PreviousEndingVbn. destruct pre as [|q pre' _] using rev_ind.
  - by subst i.
  - rewrite length_app in Hi, H0. cbn in Hi, H0. rewrite (proj2 (Z.eqb_neq _ _)) by lia.
    rewrite <- app_assoc in H. rewrite (EndingVbn_u _ _ _ H (u32 (i - 1)) 0%nat ltac:(wrap; lia) q eq_refl).
    by rewrite endv_app.
Qed.
Lemma PreviousEndingLbn_ok : PreviousEndingLbn i s = Ok (prev_lbn (last_kind 0 KStart pre)) s.
Proof using H Hi Hc.
  pose proof (holds_length _ _ _ H). unfold PreviousEndingLbn. destruct pre as [|q pre' _] using rev_ind.
  - by subst i.
  - rewrite length_app in Hi, H0. cbn in Hi, H0. rewrite (proj2 (Z.eqb_neq _ _)) by lia.
    rewrite <- app_assoc in H. apply runs_chain_app in Hc as [Hc Hq]. destruct Hq as [[Hq Hb] _].
    pose proof (runs_chain_endv _ _ _ Hc).
    rewrite (EndingLbn_ok _ _ _ H (u32 (i - 1)) 0%nat ltac:(wrap; lia) q eq_refl).
    + rewrite last_kind_app. cbn. unfold kind_after. by destruct (hole q).
    + cbn. lia.
    + lia.
    + intros E. rewrite E in Hb. cbn. lia.
Qed.
End Previous.

(** ** Writing *)

Lemma holds_set s s' l l' junk o :
  holds s l -> Mapping (mcb s) = Some (mkBuffer o (l ++ junk)) ->
  length l' = length l ->
  mcb s' = mkBase (MaximumPairCount (mcb s)) (PairCount (mcb s)) (PoolType (mcb s)) (Some (mkBuffer o (l' ++ junk))) ->
  holds s' l'.
Proof.
  intros (junk' & o' & HM & HP & HX & HB & Ho) HM' Hl Hs. rewrite HM in HM'. injection HM' as -> E.
  apply app_inv_head in E as ->. exists junk, o. rewrite Hs. cbn.
  rewrite HP, HX, !length_app, Hl. rewrite HX, !length_app in HB, Ho. done.
Qed.

Lemma wr_ok s pre rest i k m e : holds s (pre ++ rest) -> i = Z.of_nat (length pre) + Z.of_nat k ->
  rest !! k = Some m -> exists s', wr i e s = Ok tt s' /\ holds s' (pre ++ <[k := e]> rest).
Proof.
  intros H Hi Hk. pose proof H as (junk & o & HM & HP & HX & HB & Ho). unfold wr.
  rewrite (bind_ok _ _ s m s) by (by eapply rd_ok).
  erewrite bind_ok; [|unfold the_buffer, bind; cbn; rewrite HM; done].
  unfold set_Mapping, bind, get, put. eexists. split; [done|].
  eapply (holds_set s _ (pre ++ rest)); [done|done| |cbn; repeat f_equal].
  - by rewrite !length_app, length_insert.
  - subst i. replace (Z.to_nat _) with (length pre + k)%nat by lia. apply lookup_lt_Some in Hk.
    rewrite insert_app_l by (rewrite length_app; lia). by rewrite insert_app_r.
Qed.

Section WriteRules.
Context {A : Type} (K : unit -> M A) (s : state) (pre rest : list MAPPING) (i : Z) (k : nat) (m : MAPPING).
Context (Q : A -> state -> Prop) (R : state -> Prop).
Context (H : holds s (pre ++ rest)) (Hi : i = Z.of_nat (length pre) + Z.of_nat k) (Hk : rest !! k = Some m).

Lemma spec_wr_NextVbn v :
  (forall s', holds s' (pre ++ <[k := mkMapping v (Lbn m)]> rest) -> spec (K tt s') Q R) ->
  spec (bind (wr_NextVbn i v) K s) Q R.
Proof using H Hi Hk.
  intros HK. unfold wr_NextVbn. rewrite bind_assoc. rewrite (bind_ok _ _ s m s) by (by eapply rd_ok).
  destruct (wr_ok _ _ _ _ _ _ (mkMapping v (Lbn m)) H Hi Hk) as (s' & E & H').
  rewrite (bind_ok _ _ s _ _ E). by apply HK.
Qed.
Lemma spec_wr_Lbn v :
  (forall s', holds s' (pre ++ <[k := mkMapping (NextVbn m) v]> rest) -> spec (K tt s') Q R) ->
  spec (bind (wr_Lbn i v) K s) Q R.
Proof using H Hi Hk.
  intros HK. unfold wr_Lbn. rewrite bind_assoc. rewrite (bind_ok _ _ s m s) by (by eapply rd_ok).
  destruct (wr_ok _ _ _ _ _ _ (mkMapping (NextVbn m) v) H Hi Hk) as (s' & E & H').
  rewrite (bind_ok _ _ s _ _ E). by apply HK.
Qed.
End WriteRules.

(** ** Moving pairs *)

(** The state with another buffer. *)
Definition with_slots (s : state) (o : origin) (l : list MAPPING) : state :=
  mkState (mkBase (MaximumPairCount (mcb s)) (PairCount (mcb s)) (PoolType (mcb s)) (Some (mkBuffer o l))) (calls s).

Lemma with_slots_id s o l : Mapping (mcb s) = Some (mkBuffer o l) -> s = with_slots s o l.
Proof. destruct s as [[? ? ? ?] ?]; cbn. by intros ->. Qed.

Lemma move_ok s o l dst src n :
  Mapping (mcb s) = Some (mkBuffer o l) -> (dst + n <= length l)%nat -> (src + n <= length l)%nat ->
  RtlMoveMemory (Z.of_nat dst) (Z.of_nat src) (Z.of_nat n) s =
  Ok tt (with_slots s o (take dst l ++ take n (drop src l) ++ drop (dst + n) l)).
Proof.
  intros HM Hd Hs. unfold RtlMoveMemory.
  erewrite bind_ok; [|unfold the_buffer, bind; cbn; rewrite HM; done]. cbn [slots from].
  rewrite !(proj2 (Z.leb_le _ _)) by lia. cbn [andb]. unfold set_Mapping, bind, get, put, with_slots. cbn.
  by replace (Z.to_nat (Z.of_nat dst + Z.of_nat n)) with (dst + n)%nat by lia; rewrite !Nat2Z.id.
Qed.

Lemma holds_truncated s l l' n :
  holds s (l ++ l') -> n = Z.of_nat (length l) -> exists s', set_PairCount n s = Ok tt s' /\ holds s' l.
Proof.
  intros (junk & o & HM & HP & HX & HB & Ho) ->. unfold set_PairCount, bind, get, put.
  eexists. split; [done|]. exists (l' ++ junk), o. cbn. rewrite app_assoc. rewrite HM. done.
Qed.

Lemma RemoveLargeEntry_ok s pre del post :
  holds s (pre ++ del ++ post) ->
  exists s', FsRtlRemoveLargeEntry (Z.of_nat (length pre)) (Z.of_nat (length del)) s = Ok tt s' /\ holds s' (pre ++ post).
Proof.
  intros H. pose proof (holds_length _ _ _ H) as HL. pose proof (holds_count _ _ _ H) as HP.
  pose proof H as (junk & o & HM & _ & HX & HB & Ho).
  rewrite length_app in HL, HP. unfold FsRtlRemoveLargeEntry. erewrite bind_ok by done. rewrite HP. wrap.
  set (c := (if _ <? _ then _ else _) : M unit).
  assert (exists junk', c s = Ok tt (with_slots s o ((pre ++ post) ++ junk')) /\
    length junk' = (length del + length junk)%nat) as (junk' & Hc & Hj).
  { unfold c. destruct post as [|q post].
    - cbn [length]. rewrite (proj2 (Z.ltb_ge _ _)) by lia. exists (del ++ junk). rewrite length_app. split; [|done].
      unfold ret. f_equal. rewrite app_nil_r in HM. rewrite app_nil_r, app_assoc. by apply with_slots_id.
    - rewrite (proj2 (Z.ltb_lt _ _)) by (cbn [length]; lia). wrap. exists (drop (length (q :: post)) (del ++ (q :: post) ++ junk)).
      rewrite length_drop, !length_app. split; [|lia].
      replace (Z.of_nat (length pre) + Z.of_nat (length del + length (q :: post)) - (Z.of_nat (length pre) + Z.of_nat (length del)))
        with (Z.of_nat (length (q :: post))) by lia.
      rewrite <- Nat2Z.inj_add. rewrite (move_ok _ _ _ _ _ _ HM) by (rewrite !length_app; lia).
      do 2 f_equal. rewrite <- !app_assoc. by rewrite take_app_length, !drop_app_add, drop_app_length, take_app_length. }
  rewrite (bind_ok _ _ _ _ _ Hc). unfold set_PairCount, bind, get, put. eexists. split; [done|].
  exists junk', o. cbn. rewrite !length_app in *. rewrite Hj. split_and!; try done; try lia.
Qed.

Lemma spec_RemoveLargeEntry {A} (K : unit -> M A) s pre del post i n Q R :
  holds s (pre ++ del ++ post) -> i = Z.of_nat (length pre) -> n = Z.of_nat (length del) ->
  (forall s', holds s' (pre ++ post) -> spec (K tt s') Q R) ->
  spec (bind (FsRtlRemoveLargeEntry i n) K s) Q R.
Proof.
  intros H -> -> HK. destruct (RemoveLargeEntry_ok _ _ _ _ H) as (s' & E & H').
  rewrite (bind_ok _ _ _ _ _ E). by apply HK.
Qed.

(** The pairs slide up to leave [n] slots at the index. *)
Lemma slide_ok s o pre post junk n i :
  Mapping (mcb s) = Some (mkBuffer o ((pre ++ post) ++ junk)) -> (n <= length junk)%nat ->
  i = Z.of_nat (length pre) -> Z.of_nat (length pre + length post + length junk) < 2 ^ 32 ->
  exists g junk',
    (if i <? Z.of_nat (length (pre ++ post))
     then RtlMoveMemory (u32 (i + Z.of_nat n)) i (u32 (Z.of_nat (length (pre ++ post)) - i)) else ret tt) s =
      Ok tt (with_slots s o ((pre ++ g ++ post) ++ junk')) /\
    length g = n /\ length junk = (n + length junk')%nat.
Proof.
  intros HM Hn -> HL. rewrite length_app in *. destruct post as [|q post].
  - cbn [length]. rewrite (proj2 (Z.ltb_ge _ _)) by lia. exists (take n junk), (drop n junk).
    rewrite length_take, length_drop, app_nil_r. split_and!; [|lia|lia].
    unfold ret. f_equal. rewrite app_nil_r in HM. rewrite <- app_assoc, take_drop. by apply with_slots_id.
  - set (l := q :: post) in *. assert (0 < length l)%nat by (unfold l; cbn; lia).
    rewrite (proj2 (Z.ltb_lt _ _)) by lia.
    exists (take n (l ++ junk)), (drop n junk). rewrite length_take, length_drop, length_app. split_and!; [|lia|lia].
    wrap. rewrite <- Nat2Z.inj_add. replace (Z.of_nat (length pre + length l) - Z.of_nat (length pre)) with (Z.of_nat (length l)) by lia.
    rewrite (move_ok _ _ _ _ _ _ HM) by (rewrite !length_app; lia). do 2 f_equal.
    rewrite <- !app_assoc. rewrite take_app_add, drop_app_length, take_app_length, <- app_assoc. do 3 f_equal.
    replace (length pre + n + length l)%nat with (length pre + (length l + n))%nat by lia.
    by rewrite !drop_app_add.
Qed.

(** ** Making room *)

Section Room.
Context (answer : nat -> Z -> option (Z -> MAPPING)).
(** A pool allocation is not larger than half of the 32-bit address space. *)
Hypothesis pool_bound : forall n bytes, answer n bytes <> None -> bytes <= 2 ^ 31.

(** Copying the pairs into a new buffer. *)
Lemma copy_ok s o o' l junk new : (length l <= length new)%nat ->
  RtlCopyMemory (mkBuffer o' new) (mkBuffer o (l ++ junk)) (Z.of_nat (length l)) s =
  Ok (mkBuffer o' (l ++ drop (length l) new)) s.
Proof.
  intros Hl. unfold RtlCopyMemory. cbn [slots from]. rewrite length_app.
  rewrite !(proj2 (Z.leb_le _ _)) by lia. cbn [andb]. by rewrite Nat2Z.id, take_app_length.
Qed.
Lemma allocate_mapping_ok o n s : 0 <= n -> SIZEOF_MAPPING * n < 2 ^ 32 ->
  (exists new, allocate_mapping answer o (SIZEOF_MAPPING * n) s = Ok (mkBuffer o new) (mkState (mcb s) (S (calls s))) /\
     Z.of_nat (length new) = n /\ n <= 2 ^ 28) \/
  allocate_mapping answer o (SIZEOF_MAPPING * n) s = Raise STATUS_INSUFFICIENT_RESOURCES (mkState (mcb s) (S (calls s))).
Proof using pool_bound.
  intros Hn Hb. unfold allocate_mapping. pose proof (pool_bound (calls s) (SIZEOF_MAPPING * n)) as HP.
  destruct (answer _ _) as [f|]; [left|by right]. eexists. split; [done|].
  specialize (HP ltac:(done)). unfold SIZEOF_MAPPING in *.
  rewrite length_map. unfold zrange. rewrite length_map, length_seq.
  replace (8 * n / 8) with n by (rewrite Z.mul_comm, Z.div_mul; lia). lia.
Qed.

Definition grow_buffer (k : Z) (b : BASE_MCB) : M unit :=
  if u32 (PairCount b + k) >? MaximumPairCount b then
    let NewMax := if MaximumPairCount b <? 2048 then u32 (MaximumPairCount b * 2)
                  else u32 (MaximumPairCount b + 2048) in
    bind (FsRtlpAllocatePool answer (u32 (SIZEOF_MAPPING * NewMax))) (fun new =>
    bind the_buffer (fun old =>
    bind (RtlCopyMemory new old (PairCount b)) (fun new =>
    bind (if (PoolType b =? PagedPool) && (MaximumPairCount b =? INITIAL_MAXIMUM_PAIR_COUNT)
          then FsRtlFreeFirstMapping old else ExFreePool old) (fun _ =>
    bind (set_Mapping (Some new)) (fun _ => set_MaximumPairCount NewMax)))))
  else ret tt.

Lemma free_ok o P X : (o = FirstMapping <-> P = PagedPool /\ X = INITIAL_MAXIMUM_PAIR_COUNT) ->
  forall l s, (if (P =? PagedPool) && (X =? INITIAL_MAXIMUM_PAIR_COUNT)
   then FsRtlFreeFirstMapping (mkBuffer o l) else ExFreePool (mkBuffer o l)) s = Ok tt s.
Proof.
  intros Ho l s. destruct ((P =? PagedPool) && (X =? INITIAL_MAXIMUM_PAIR_COUNT)) eqn:E.
  - assert (o = FirstMapping) as ->; [|done]. apply Ho. lia.
  - destruct o; [exfalso|done]. destruct (proj1 Ho eq_refl). lia.
Qed.

(** The old buffer goes back where it came from, and the new one is recorded. *)
Lemma replace_ok s l junk o o' new NewMax :
  holds s l -> Mapping (mcb s) = Some (mkBuffer o (l ++ junk)) ->
  Z.of_nat (length new) = NewMax -> INITIAL_MAXIMUM_PAIR_COUNT <= NewMax <= 2 ^ 28 -> (length l <= length new)%nat ->
  (o' = FirstMapping <-> PoolType (mcb s) = PagedPool /\ NewMax = INITIAL_MAXIMUM_PAIR_COUNT) ->
  exists s', bind (set_Mapping (Some (mkBuffer o' (l ++ drop (length l) new)))) (fun _ => set_MaximumPairCount NewMax) s =
    Ok tt s' /\ holds s' l /\ MaximumPairCount (mcb s') = NewMax.
Proof.
  intros (junk' & o1 & HM' & HP & HX & HB & Ho) HM Hn HN Hl Ho'.
  eexists. split; [done|]. split; [|done]. exists (drop (length l) new), o'. cbn.
  rewrite HP, length_app, length_drop. split_and!; [done|done|lia|lia|lia|done].
Qed.

Lemma grow_buffer_ok s l k : holds s l -> 1 <= k <= 2 ->
  (exists s', grow_buffer k (mcb s) s = Ok tt s' /\ holds s' l /\ Z.of_nat (length l) + k <= MaximumPairCount (mcb s')) \/
  exists s', grow_buffer k (mcb s) s = Raise STATUS_INSUFFICIENT_RESOURCES s' /\ holds s' l.
Proof using pool_bound.
  intros H Hk. pose proof H as (junk & o & HM & HP & HX & HB & Ho). unfold grow_buffer.
  unfold INITIAL_MAXIMUM_PAIR_COUNT in HB. rewrite length_app in HX. rewrite HP. wrap. rewrite Z.gtb_ltb.
  destruct (Z.ltb_spec (MaximumPairCount (mcb s)) (Z.of_nat (length l) + k)) as [Hgt|Hle].
  2: { left. exists s. split; [done|]. split; [done|lia]. }
  set (N := if _ <? 2048 then _ else _).
  assert (HN : MaximumPairCount (mcb s) + 2 <= N <= 2 ^ 28 + 2048).
  { unfold N. destruct (Z.ltb_spec (MaximumPairCount (mcb s)) 2048); wrap; lia. }
  rewrite (u32_small (SIZEOF_MAPPING * N)) by (unfold SIZEOF_MAPPING; lia).
  destruct (allocate_mapping_ok PoolMapping N s) as [(new & E & Hn & HN')|E]; [lia|unfold SIZEOF_MAPPING; lia| |].
  - left. unfold FsRtlpAllocatePool. rewrite (bind_ok _ _ _ _ _ E). set (s1 := mkState _ _) in *.
    assert (H1 : holds s1 l) by exact H.
    erewrite bind_ok; [|unfold the_buffer, bind, s1; cbn; rewrite HM; done].
    rewrite (bind_ok _ _ _ _ _ (copy_ok s1 o PoolMapping l junk new ltac:(lia))).
    rewrite (bind_ok _ _ _ _ _ (free_ok _ _ _ Ho (l ++ junk) s1)).
    destruct (replace_ok s1 l junk o PoolMapping new N H1 HM Hn) as (s' & E' & H' & HX').
    + unfold INITIAL_MAXIMUM_PAIR_COUNT. lia.
    + lia.
    + unfold INITIAL_MAXIMUM_PAIR_COUNT. split; [done|]. lia.
    + exists s'. split; [done|]. split; [done|]. lia.
  - right. exists (mkState (mcb s) (S (calls s))). split; [|exact H].
    unfold FsRtlpAllocatePool, bind at 1. by rewrite E.
Qed.

Lemma spec_AddLargeEntry {A} (K : unit -> M A) s pre post i (n : nat) Q R :
  holds s (pre ++ post) -> i = Z.of_nat (length pre) -> (1 <= n <= 2)%nat ->
  (forall s' g, length g = n -> holds s' (pre ++ g ++ post) -> spec (K tt s') Q R) ->
  (forall s', holds s' (pre ++ post) -> R s') ->
  spec (bind (FsRtlAddLargeEntry answer i (Z.of_nat n)) K s) Q R.
Proof using pool_bound.
  intros H -> Hn HK HR. apply spec_bind. unfold FsRtlAddLargeEntry. erewrite bind_ok by done.
  pose proof (holds_length _ _ _ H) as HL. pose proof (holds_count _ _ _ H) as HP.
  fold (grow_buffer (Z.of_nat n) (mcb s)). apply spec_bind.
  destruct (grow_buffer_ok s _ (Z.of_nat n) H ltac:(lia)) as [(s1 & -> & H1 & HX)|(s1 & -> & H1)].
  2: { cbn. auto. }
  cbn [spec]. pose proof H1 as (junk & o & HM & HP1 & HX1 & HB & Ho).
  rewrite HX1, !length_app in HX. rewrite HX1, !length_app in HB. rewrite HP, <- Nat2Z.inj_add, <- length_app.
  destruct (slide_ok s1 o pre post junk n (Z.of_nat (length pre)) HM ltac:(lia) eq_refl ltac:(lia))
    as (g & junk' & E & Hg & Hj).
  apply spec_bind. rewrite E. cbn [spec]. apply (HK _ g Hg). exists junk', o. cbn.
  rewrite !length_app in *. wrap. rewrite Hg. split_and!; try done; try lia. 
Qed.
End Room.

(** ** The binary search *)

Section Find.
Context (s : state) (l : list MAPPING) (H : holds s l) (p : run_kind) (Hc : runs_chain 0 p l).

(** The Vbn at which pair [i] starts, increasing in [i]. *)
Definition vbn (l : list MAPPING) (i : nat) : Z := endv 0 (take i l).

Lemma vbn_step i m : l !! i = Some m -> vbn l (S i) = NextVbn m.
Proof. intros Hm. unfold vbn. by rewrite (take_S_r _ _ _ Hm), endv_app. Qed.
Lemma vbn_range i m : l !! i = Some m -> 0 <= vbn l i < NextVbn m /\ NextVbn m < 2 ^ 32.
Proof using Hc.
  intros Hm. rewrite <- (take_drop_middle l i m Hm) in Hc. apply runs_chain_app in Hc as [H1 [[H2 _] _]].
  pose proof (runs_chain_endv _ _ _ H1). unfold vbn. lia.
Qed.
Lemma vbn_start i : (i < length l)%nat -> StartingVbn (Z.of_nat i) s = Ok (vbn l i) s.
Proof using H. intros Hi. apply (StartingVbn_ok s [] l H (Z.of_nat i) i); [done|lia]. Qed.
Lemma vbn_end i : (i < length l)%nat -> EndingVbn (Z.of_nat i) s = Ok (vbn l (S i) - 1) s.
Proof using H Hc.
  intros Hi. destruct (lookup_lt_is_Some_2 l i Hi) as [m Hm]. rewrite (vbn_step _ _ Hm).
  apply (EndingVbn_ok s [] l H (Z.of_nat i) i); [done|done|]. pose proof (vbn_range _ _ Hm). lia.
Qed.

(** The pair that contains [v], or the end. *)
Definition located (v : Z) (r : bool * Z) : Prop :=
  (exists pre m post, l = pre ++ m :: post /\ endv 0 pre <= v < NextVbn m /\ r = (true, Z.of_nat (length pre))) \/
  endv 0 l <= v /\ r = (false, Z.of_nat (length l)).

Lemma index_loop_ok fuel v (lo hi : nat) : 0 <= v ->
  (lo <= hi <= length l)%nat -> Z.of_nat (hi - lo) < 2 ^ (Z.of_nat fuel) ->
  vbn l lo <= v -> (v < vbn l hi \/ hi = length l) ->
  exists r, index_loop (S fuel) v (Z.of_nat lo) (Z.of_nat hi - 1) s = Ok r s /\ located v r.
Proof using H Hc.
  intros Hv. pose proof (holds_length s [] l H) as HL. cbn [length] in HL.
  revert lo hi. induction fuel as [|fuel IH]; intros lo hi Hb Hf Hlo Hhi.
  - assert (hi = lo) as -> by (cbn in Hf; lia). cbn [index_loop].
    rewrite (proj2 (Z.leb_gt _ _)) by lia. assert (lo = length l) as -> by (destruct Hhi; lia).
    exists (false, Z.of_nat (length l)). split; [unfold bind, get; by rewrite (holds_count s [] l H)|].
    right. split; [|done]. unfold vbn in Hlo. by rewrite firstn_all in Hlo.
  - remember (S fuel) as fuel' eqn:Ef. cbn [index_loop].
    destruct (Z.leb_spec (Z.of_nat lo) (Z.of_nat hi - 1)) as [Hle|Hgt].
    2: { assert (hi = lo) as -> by lia. assert (lo = length l) as -> by (destruct Hhi; lia).
      exists (false, Z.of_nat (length l)). split; [unfold bind, get; by rewrite (holds_count s [] l H)|].
      right. split; [|done]. unfold vbn in Hlo. by rewrite firstn_all in Hlo. }
    wrap. rewrite Z.quot_div_nonneg by lia.
    set (mid := Z.to_nat ((Z.of_nat hi - 1 + Z.of_nat lo) / 2)).
    assert (Hmid : (lo <= mid < hi)%nat) by (unfold mid; zdiv).
    replace ((Z.of_nat hi - 1 + Z.of_nat lo) / 2) with (Z.of_nat mid) by (unfold mid; zdiv).
    rewrite Ef, Nat2Z.inj_succ, Z.pow_succ_r in Hf by lia. subst fuel'.
    rewrite (bind_ok _ _ _ _ _ (vbn_start mid ltac:(lia))).
    destruct (Z.ltb_spec v (vbn l mid)) as [Hm|Hm].
    + wrap. apply IH; [lia| |done|by left]. assert (Z.of_nat mid * 2 <= Z.of_nat hi - 1 + Z.of_nat lo) by (unfold mid; zdiv). lia.
    + rewrite (bind_ok _ _ _ _ _ (vbn_end mid ltac:(lia))). rewrite Z.gtb_ltb.
      destruct (Z.ltb_spec (vbn l (S mid) - 1) v) as [Hm'|Hm'].
      * wrap. replace (Z.of_nat mid + 1) with (Z.of_nat (S mid)) by lia.
        apply IH; [lia| |lia|done]. assert (Z.of_nat hi - 1 + Z.of_nat lo < Z.of_nat mid * 2 + 2) by (unfold mid; zdiv). lia.
      * exists (true, Z.of_nat mid). split; [done|]. left.
        destruct (lookup_lt_is_Some_2 l mid ltac:(lia)) as [m Hmm].
        exists (take mid l), m, (drop (S mid) l). rewrite (vbn_step _ _ Hmm) in Hm'.
        rewrite length_take, Nat.min_l by lia. split; [by rewrite take_drop_middle|]. split; [|done].
        unfold vbn in Hm. lia.
Qed.

Lemma find_ok v : 0 <= v -> exists r, FsRtlFindLargeIndex v s = Ok r s /\ located v r.
Proof using H Hc.
  intros Hv. unfold FsRtlFindLargeIndex. erewrite bind_ok by done. pose proof (holds_length s [] l H) as HL.
  rewrite (holds_count s [] l H). cbn [length] in *. rewrite Z.add_0_l.
  destruct (index_loop_ok 33 v 0 (length l) Hv) as (r & E & Hr); [lia|lia|done|by right|].
  exists r. split; [|done]. rewrite <- E. f_equal. destruct (Nat.eq_dec (length l) 0%nat) as [->|]; [done|].
  wrap. done.
Qed.
End Find.

(** The search in a program. *)
Lemma spec_find {A} (K : bool * Z -> M A) s l v Q R : holds s l -> wf_runs l -> 0 <= v ->
  (forall pre m post, l = pre ++ m :: post -> endv 0 pre <= v < NextVbn m ->
     spec (K (true, Z.of_nat (length pre)) s) Q R) ->
  (endv 0 l <= v -> spec (K (false, Z.of_nat (length l)) s) Q R) ->
  spec (bind (FsRtlFindLargeIndex v) K s) Q R.
Proof.
  intros H [Hc _] Hv H1 H2. destruct (find_ok s l H _ Hc v Hv) as (r & E & Hr).
  rewrite (bind_ok _ _ _ _ _ E). destruct Hr as [(pre & m & post & El & Hm & ->)|[He ->]]; eauto.
Qed.

(** ** Tactics *)

(** An index is the length of the pairs before, plus a literal. *)
Ltac idx := rewrite ?length_app; cbn [length]; wrap; lia.

(** [rd_at H k] executes a read of the pair [k] after those before it in
    [H : holds s (pre ++ rest)]. *)
Ltac rd_at H k :=
  lazymatch goal with
  | |- spec (bind (rd ?i) _ ?s) _ _ =>
      erewrite (bind_ok (rd i) _ s) by (eapply (rd_ok _ _ _ H i k); [idx|reflexivity])
  | |- spec (bind (StartingLbn ?i) _ ?s) _ _ =>
      erewrite (bind_ok (StartingLbn i) _ s) by (eapply (StartingLbn_ok _ _ _ H i k); [idx|reflexivity])
  | |- spec (bind (StartingVbn ?i) _ ?s) _ _ =>
      erewrite (bind_ok (StartingVbn i) _ s) by (eapply (StartingVbn_ok _ _ _ H i k); [idx|cbn; lia])
  | |- spec (bind (EndingVbn ?i) _ ?s) _ _ =>
      erewrite (bind_ok (EndingVbn i) _ s) by (eapply (EndingVbn_ok _ _ _ H i k); [idx|reflexivity|cbn; lia])
  | |- spec (bind (NextStartingVbn ?i) _ ?s) _ _ =>
      erewrite (bind_ok (NextStartingVbn i) _ s) by (eapply (NextStartingVbn_ok _ _ _ H i k); [idx|reflexivity])
  | |- spec (bind (NextStartingLbn ?i) _ ?s) _ _ =>
      erewrite (bind_ok (NextStartingLbn i) _ s) by (eapply (NextStartingLbn_ok _ _ _ H i k); [idx|reflexivity])
  | |- spec (bind (SectorsWithinRun ?i) _ ?s) _ _ =>
      erewrite (bind_ok (SectorsWithinRun i) _ s)
        by (eapply (SectorsWithinRun_ok _ _ _ H i k); [idx|reflexivity|cbn; lia|cbn; lia])
  | |- spec (bind (wr_NextVbn ?i ?v) _ ?s) _ _ =>
      eapply (spec_wr_NextVbn _ _ _ _ i k); [exact H|idx|reflexivity|]; cbn [insert list_insert Lbn];
      let s' := fresh "s" in let H' := fresh "H" in intros s' H'
  | |- spec (bind (wr_Lbn ?i ?v) _ ?s) _ _ =>
      eapply (spec_wr_Lbn _ _ _ _ i k); [exact H|idx|reflexivity|]; cbn [insert list_insert NextVbn];
      let s' := fresh "s" in let H' := fresh "H" in intros s' H'
  end.
Ltac step :=
  match goal with
  | H : holds ?s _ |- spec (bind _ _ ?s) _ _ => first [rd_at H 0%nat | rd_at H 1%nat | rd_at H 2%nat]
  end; cbn [NextVbn Lbn].
Ltac steps := repeat step.


(** Removing the pairs [del] after [pre]. *)
Ltac remove_entry pre del :=
  eapply (spec_RemoveLargeEntry _ _ pre del);
  [rewrite <- ?app_assoc; cbn [app]; eassumption|idx|reflexivity|];
  let s' := fresh "s" in let H' := fresh "H" in intros s' H'; rewrite <- ?app_assoc in H'; cbn [app] in H'.

(** ** Changing the pairs from an index on *)

(** The state holds well-formed pairs that mean [f]. *)
Definition means (f : Z -> option Z) (s : state) : Prop :=
  exists l, holds s l /\ wf_runs l /\ fmap_eq (sector_map l) f.

(** A transformer that leaves what is below [e] alone and above depends on nothing
    below. *)
Definition above (e : Z) (F : (Z -> option Z) -> Z -> option Z) : Prop :=
  (forall g x, x < e -> F g x = g x) /\
  (forall g g' x, e <= x -> (forall y, e <= y -> g y = g' y) -> F g x = F g' x).

Lemma above_add e v b n : e <= v -> above e (f_add v b n).
Proof.
  intros He. split.
  - intros g x Hx. unfold f_add. by rewrite (proj2 (Z.leb_gt v x)) by lia.
  - intros g g' x Hx Hg. unfold f_add. by rewrite Hg.
Qed.

Lemma sector_map_app pre l x : runs_chain 0 KStart pre ->
  sector_map (pre ++ l) x = if x <? endv 0 pre then sector_map pre x else den (endv 0 pre) l x.
Proof.
  intros Hc. pose proof (runs_chain_endv _ _ _ Hc). unfold sector_map. destruct (Z.ltb_spec x 0).
  - by rewrite (proj2 (Z.ltb_lt x _)) by lia.
  - by apply (den_app 0 KStart).
Qed.

(** Replacing the pairs after [pre]. *)
Lemma replaced_runs F pre old new :
  above (endv 0 pre) F -> wf_runs (pre ++ old) ->
  runs_chain (endv 0 pre) (last_kind 0 KStart pre) new ->
  last_kind (endv 0 pre) (last_kind 0 KStart pre) new <> KHole ->
  (forall x, endv 0 pre <= x -> den (endv 0 pre) new x = F (den (endv 0 pre) old) x) ->
  wf_runs (pre ++ new) /\ fmap_eq (sector_map (pre ++ new)) (F (sector_map (pre ++ old))).
Proof.
  intros [F1 F2] [Hc Hk] Hn Hl Hx. apply runs_chain_app in Hc as [Hc Hc']. split.
  - split; [by apply runs_chain_app|by rewrite last_kind_app].
  - intros x. rewrite sector_map_app by done. destruct (Z.ltb_spec x (endv 0 pre)) as [H|H].
    + rewrite F1 by done. rewrite sector_map_app by done. by rewrite (proj2 (Z.ltb_lt x _)) by lia.
    + rewrite Hx by done. apply F2; [done|]. intros y Hy. rewrite sector_map_app by done.
      by rewrite (proj2 (Z.ltb_ge y _)) by lia.
Qed.

Lemma replace_runs F s pre old new :
  above (endv 0 pre) F -> wf_runs (pre ++ old) -> holds s (pre ++ new) ->
  runs_chain (endv 0 pre) (last_kind 0 KStart pre) new ->
  last_kind (endv 0 pre) (last_kind 0 KStart pre) new <> KHole ->
  (forall x, endv 0 pre <= x -> den (endv 0 pre) new x = F (den (endv 0 pre) old) x) ->
  means (F (sector_map (pre ++ old))) s.
Proof. intros. exists (pre ++ new). split; [done|]. by apply replaced_runs. Qed.

Lemma means_ext f g s : fmap_eq f g -> means f s -> means g s.
Proof. intros E (l & H1 & H2 & H3). exists l. split; [done|]. split; [done|]. by etransitivity. Qed.
Lemma means_same f s l : holds s l -> wf_runs l -> fmap_eq (sector_map l) f -> means f s.
Proof. by exists l. Qed.

(** An addition of at least one sector that has room in the Vbns and Lbns; the Lbn 0 is
    illegal by the description of FsRtlAddBaseMcbEntry. *)
Definition request (v b n : Z) : Prop :=
  0 <= v /\ 0 < n /\ v + n < 2 ^ 32 /\ 0 < b /\ b + n <= UNUSED_LBN.

(** Tests against UNUSED_LBN and the like that the context decides. *)
Ltac tests :=
  unfold UNUSED_LBN in *; rewrite ?Z.eqb_refl in *;
  repeat match goal with H : _ /\ _ |- _ => destruct H end;
  repeat match goal with
  | |- context [?a =? ?b] => first [rewrite (proj2 (Z.eqb_neq a b)) by lia | rewrite (proj2 (Z.eqb_eq a b)) by lia]
  end.
(** Goals about the meaning of explicit pairs, by cases. *)
Ltac den_cases :=
  intros ? ?; cbn [den]; unfold f_add, f_remove, f_truncate, f_split, hole in *; cbn [Lbn NextVbn] in *; tests;
  repeat (match goal with
  | |- context [if ?b then _ else _] =>
      lazymatch b with context [if _ then _ else _] => fail | _ => let E := fresh "E" in destruct b eqn:E end
  end; try (exfalso; lia)); try done; try (f_equal; lia).
(** Goals about the invariant of explicit pairs. *)
Ltac runs_chain_cases :=
  cbn [runs_chain last_kind endv]; unfold pair_ok, kind_after, hole in *; cbn [Lbn NextVbn] in *; tests;
  cbn [Lbn NextVbn] in *; split_and?; try done; try lia; try (intros [= ?]; lia);
  try match goal with
  | Hp : runs_chain ?a (KRun ?e) ?l |- runs_chain ?a' (KRun ?e') ?l =>
      replace a' with a by lia; replace e' with e by lia; exact Hp
  | Hp : last_kind ?a (KRun ?e) ?l <> _ |- last_kind ?a' (KRun ?e') ?l <> _ =>
      replace a' with a by lia; replace e' with e by lia; exact Hp
  end.
(** Executing the reservation of [n] slots. *)
Ltac add_entry n :=
  change n with (Z.of_nat (Z.to_nat n)); eapply spec_AddLargeEntry;
  [eassumption|eassumption|idx|cbn; lia| |];
  [let g := fresh "g" in let g' := fresh "g" in let Hg := fresh "Hg" in
   intros ? [|g [|g' [|]]] Hg ?; try discriminate Hg; cbn [app] in *|].

Lemma last_kind_run l e : runs_chain 0 KStart l -> last_kind 0 KStart l = KRun e ->
  l <> [] /\ 0 < e <= UNUSED_LBN.
Proof.
  intros Hc E. destruct l as [|q l _] using rev_ind; [done|]. apply runs_chain_app in Hc as [Hc [[Hq Hb] _]].
  rewrite last_kind_app in E. cbn in E. unfold kind_after in E. destruct (hole q); [done|].
  injection E as <-. split; [by destruct l|]. lia.
Qed.

(** The test whether the Lbns continue the run before. *)
Lemma continues pre b : runs_chain 0 KStart pre -> last_kind 0 KStart pre <> KHole -> 0 < b ->
  u32 (prev_lbn (last_kind 0 KStart pre) + 1) = b ->
  exists pre' r, pre = pre' ++ [r] /\ runs_chain 0 KStart pre' /\ 0 <= endv 0 pre' < NextVbn r /\
    0 < Lbn r /\ Lbn r <> UNUSED_LBN /\ Lbn r + (NextVbn r - endv 0 pre') = b /\ b <= UNUSED_LBN /\
    last_kind 0 KStart pre' <> KRun (Lbn r) /\ endv 0 pre = NextVbn r.
Proof.
  intros Hc Hk Hb E. destruct (last_kind 0 KStart pre) as [| |e] eqn:Ek; [vm_compute in E; lia|done|].
  destruct (last_kind_run _ _ Hc Ek) as [Hl Hr]. cbn in E. unfold UNUSED_LBN in *. rewrite u32_small in E by lia.
  destruct pre as [|r pre' _] using rev_ind; [done|]. exists pre', r.
  apply runs_chain_app in Hc as [Hc [[Hr1 Hr2] _]]. pose proof (runs_chain_endv _ _ _ Hc).
  rewrite last_kind_app in Ek. cbn in Ek. unfold kind_after in Ek. rewrite endv_app. cbn.
  destruct (hole r) eqn:Er; [done|]. injection Ek as Ek. unfold hole, UNUSED_LBN in *. split_and!; try done; try lia; tauto.
Qed.
Lemma not_continues pre b : runs_chain 0 KStart pre ->
  u32 (prev_lbn (last_kind 0 KStart pre) + 1) <> b -> last_kind 0 KStart pre <> KRun b.
Proof.
  intros Hc E Ek. destruct (last_kind_run _ _ Hc Ek) as [Hl Hr]. rewrite Ek in E. cbn in E.
  unfold UNUSED_LBN in *. rewrite u32_small in E by lia. lia.
Qed.

(** ** Where a Vbn is *)

Lemma vbn_mono p l i j : runs_chain 0 p l -> (i <= j)%nat -> vbn l i <= vbn l j.
Proof.
  intros Hc Hij. unfold vbn. rewrite <- (take_drop j l) in Hc. apply runs_chain_app in Hc as [Hc _].
  rewrite <- (take_drop i (take j l)) in Hc |- *. rewrite take_take, Nat.min_l in Hc |- * by lia.
  apply runs_chain_app in Hc as [Hc Hd]. apply runs_chain_endv in Hd. by rewrite endv_app.
Qed.
Lemma located_unique l pre m post pre' m' post' v : wf_runs l ->
  l = pre ++ m :: post -> endv 0 pre <= v < NextVbn m ->
  l = pre' ++ m' :: post' -> endv 0 pre' <= v < NextVbn m' -> length pre = length pre'.
Proof.
  intros [Hc _] E Hv E' Hv'.
  assert (Hx : forall pre m post, l = pre ++ m :: post -> vbn l (length pre) = endv 0 pre /\ vbn l (S (length pre)) = NextVbn m).
  { intros p1 m1 q1 ->. unfold vbn. rewrite take_app_length.
    rewrite (take_S_r _ _ m1) by (rewrite lookup_app_r by lia; by rewrite Nat.sub_diag).
    by rewrite take_app_length, endv_app. }
  destruct (Hx _ _ _ E) as [A1 A2], (Hx _ _ _ E') as [B1 B2].
  destruct (Nat.lt_trichotomy (length pre) (length pre')) as [L|[L|L]]; [|done|].
  - pose proof (vbn_mono _ _ (S (length pre)) (length pre') Hc ltac:(lia)). lia.
  - pose proof (vbn_mono _ _ (S (length pre')) (length pre) Hc ltac:(lia)). lia.
Qed.
Lemma find_at s pre m post v : holds s (pre ++ m :: post) -> wf_runs (pre ++ m :: post) ->
  0 <= v -> endv 0 pre <= v < NextVbn m ->
  FsRtlFindLargeIndex v s = Ok (true, Z.of_nat (length pre)) s.
Proof.
  intros H Hwf Hv0 Hv. destruct (find_ok s _ H _ (proj1 Hwf) v Hv0) as (r & -> & [(pre' & m' & post' & E & Hv' & ->)|[He ->]]).
  - by rewrite (located_unique _ _ _ _ _ _ _ v Hwf eq_refl Hv E Hv').
  - exfalso. destruct Hwf as [Hc _]. apply runs_chain_app in Hc as [_ [_ Hc]]. apply runs_chain_endv in Hc.
    rewrite endv_app in He. cbn in He. lia.
Qed.
Lemma find_end s l v : holds s l -> wf_runs l -> 0 <= v -> endv 0 l <= v ->
  FsRtlFindLargeIndex v s = Ok (false, Z.of_nat (length l)) s.
Proof.
  intros H Hwf Hv0 He. destruct (find_ok s _ H _ (proj1 Hwf) v Hv0) as (r & -> & [(pre' & m' & post' & -> & Hv' & ->)|[_ ->]]); [|done].
  exfalso. destruct Hwf as [Hc _]. apply runs_chain_app in Hc as [_ [_ Hc]]. apply runs_chain_endv in Hc.
  rewrite endv_app in He. cbn in He. lia.
Qed.
(** Every Vbn is in a pair or at the end. *)
Lemma locate_vbn l v : wf_runs l -> 0 <= v ->
  (exists pre m post, l = pre ++ m :: post /\ endv 0 pre <= v < NextVbn m) \/ endv 0 l <= v.
Proof.
  intros _. assert (G : forall s l, s <= v -> (exists pre m post, l = pre ++ m :: post /\ endv s pre <= v < NextVbn m) \/ endv s l <= v).
  { clear l. intros s l. revert s. induction l as [|m l IH]; intros s Hs; [by right|].
    destruct (Z.lt_ge_cases v (NextVbn m)) as [L|L]; [left; exists [], m, l; cbn; split; [done|lia]|].
    destruct (IH (NextVbn m) L) as [(pre & m' & post & -> & Hv)|He]; [left; by exists (m :: pre), m', post|by right]. }
  intros Hv. by apply G.
Qed.

(** The meaning at a pair and after it. *)
Lemma map_at pre m post x : wf_runs (pre ++ m :: post) -> endv 0 pre <= x < NextVbn m ->
  sector_map (pre ++ m :: post) x = if hole m then None else Some (Lbn m + (x - endv 0 pre)).
Proof.
  intros [Hc _] Hx. apply runs_chain_app in Hc as [Hc _]. rewrite sector_map_app by done.
  rewrite (proj2 (Z.ltb_ge _ _)) by lia. cbn. by rewrite (proj2 (Z.ltb_lt _ _)) by lia.
Qed.
Lemma map_after pre m post x : wf_runs (pre ++ m :: post) -> NextVbn m <= x ->
  sector_map (pre ++ m :: post) x = den (NextVbn m) post x.
Proof.
  intros [Hc _] Hx. apply runs_chain_app in Hc as [Hc [[Hm _] _]]. rewrite sector_map_app by done.
  rewrite (proj2 (Z.ltb_ge _ _)) by lia. cbn. by rewrite (proj2 (Z.ltb_ge _ _)) by lia.
Qed.
Lemma map_beyond l x : wf_runs l -> endv 0 l <= x -> sector_map l x = None.
Proof.
  intros [Hc _] Hx. unfold sector_map. destruct (Z.ltb_spec x 0); [done|]. eapply den_beyond; [done|lia|lia].
Qed.

End McbExec.
