(* ===== verification/FsRtlMcbAdd.v ===== *)
(** * Map control blocks: adding a run

    Module [McbAdd] proves FsRtlAddBaseMcbEntry ([FsRtlAddBaseMcbEntry_ok]): it
    takes exactly the requests that are [acceptable], in which case the mapping
    becomes the one extended with the request and the runs stay in their canonical
    form, and otherwise, or when memory is exhausted, it changes nothing. *)

From S2P Require Import Prelude FsRtlMcb FsRtlMcbRuns FsRtlMcbExec.
#[local] Open Scope Z_scope.

Module McbAdd.
Import Mcb McbRuns McbExec.

Section Add.
Context (answer : nat -> Z -> option (Z -> MAPPING)).
Hypothesis pool_bound : forall n bytes, answer n bytes <> None -> bytes <= 2 ^ 31.

Lemma append_run_ok s l v b n : holds s l -> wf_runs l -> request v b n -> endv 0 l <= v ->
  spec (append_run answer (Z.of_nat (length l)) v b n s)
    (fun r s' => r = true /\ means (f_add v b n (sector_map l)) s') (fun s' => holds s' l).
Proof using pool_bound.
  intros H Hwf (Hv & Hn & Hvn & Hb & Hbn) He. pose proof Hwf as [Hc Hk]. 
  assert (H0 : holds s (l ++ [])) by (by rewrite app_nil_r).
  pose proof (holds_length _ _ _ H0) as HL.
  pose proof (runs_chain_endv _ _ _ Hc). pose proof (runs_chain_endv_max _ _ _ Hc ltac:(lia)).
  unfold append_run. rewrite (bind_ok _ _ _ _ _ (PreviousEndingVbn_ok _ _ _ H0 _ eq_refl)).
  rewrite (bind_ok _ _ _ _ _ (PreviousEndingLbn_ok _ _ _ H0 Hc _ eq_refl)).
  rewrite u32_add_l. replace (endv 0 l - 1 + 1) with (endv 0 l) by lia. rewrite (u32_small (endv 0 l)) by lia.
  pose proof (above_add (endv 0 l) v b n He) as HF. unfold UNUSED_LBN in *.
  destruct (negb _ && _ && _) eqn:E1; [|destruct ((v =? 0) || _) eqn:E2].
  - destruct l as [|q l' _] using rev_ind; [done|].
    erewrite bind_ok by done. rewrite (holds_count _ _ _ H0), length_app. cbn [length].
    rewrite <- app_assoc in H0. cbn [app] in H0. rewrite length_app in HL; cbn in HL.
    rewrite endv_app in *. cbn [endv] in *. pose proof Hc as Hc'. apply runs_chain_app in Hc' as [Hc' [Hq _]].
    steps. apply spec_ret. split; [done|]. pose proof (runs_chain_endv _ _ _ Hc').
    rewrite last_kind_app in Hk, E1. cbn in Hk, E1. unfold kind_after in Hk, E1. destruct Hq as [Hq Hqb].
    unfold hole, UNUSED_LBN in *. destruct (Lbn q =? 4294967295) eqn:Eq; [done|]. cbn in E1. rewrite (u32_small (NextVbn q + n)) in * by lia.
    rewrite (u32_small (_ + 1)) in E1 by lia.
    apply (replace_runs _ _ l' [q] [mkMapping (NextVbn q + n) (Lbn q)]); try done.
    + apply above_add. lia.
    + runs_chain_cases.
    + runs_chain_cases.
    + den_cases.
  - assert (Hp : last_kind 0 KStart l <> KRun b).
    { intros E. rewrite E in E1. destruct (last_kind_run _ _ Hc E) as [Hl Hr]. destruct l as [|q l]; [done|].
      unfold UNUSED_LBN in *. cbn [prev_lbn length] in *. rewrite (u32_small (b - 1 + 1)) in E1 by lia. assert (endv 0 (q :: l) = v) by lia. rewrite (proj2 (Z.eqb_neq (Z.of_nat _) 0)) in E1 by lia. cbn [negb andb] in E1. lia. }
    change 1 with (Z.of_nat 1). eapply spec_AddLargeEntry; [exact pool_bound|exact H0|done|lia| |intros s' Hs'; by rewrite app_nil_r in Hs'].
    intros s1 [|g [|]] Hg Hs; try done. cbn [app] in Hs. steps. apply spec_ret. split; [done|].
    rewrite <- (app_nil_r l) at 1.
    eapply (replace_runs _ _ l []); [exact HF|by rewrite app_nil_r|done|..]; rewrite ?(u32_small (v + n)) by lia.
    + runs_chain_cases.
    + runs_chain_cases.
    + den_cases.
  - change 2 with (Z.of_nat 2). eapply spec_AddLargeEntry; [exact pool_bound|exact H0|done|lia| |intros s' Hs'; by rewrite app_nil_r in Hs'].
    intros s1 [|g [|g' [|]]] Hg Hs; try done. cbn [app] in Hs. steps. apply spec_ret. split; [done|].
    rewrite <- (app_nil_r l) at 1.
    eapply (replace_runs _ _ l []); [exact HF|by rewrite app_nil_r|done|..]; rewrite ?(u32_small (v + n)) by lia.
    + runs_chain_cases.
    + runs_chain_cases.
    + den_cases.
Qed.

(** A request inside a hole. *)
Section Fill.
Context (s : state) (pre : list MAPPING) (m q : MAPPING) (post : list MAPPING) (v b n : Z).
Context (H : holds s (pre ++ m :: q :: post)) (Hwf : wf_runs (pre ++ m :: q :: post)).
Context (Hr : request v b n) (Hm : Lbn m = UNUSED_LBN) (Hv : endv 0 pre <= v) (Hvn : v + n <= NextVbn m).

(** The facts the invariant gives on the neighbours of the hole. *)
Lemma hole_facts :
  runs_chain 0 KStart pre /\ 0 <= endv 0 pre < NextVbn m /\ last_kind 0 KStart pre <> KHole /\
  NextVbn m < NextVbn q < 2 ^ 32 /\ Lbn q <> UNUSED_LBN /\ 0 < Lbn q /\ Lbn q + (NextVbn q - NextVbn m) <= UNUSED_LBN /\
  runs_chain (NextVbn q) (KRun (Lbn q + (NextVbn q - NextVbn m))) post /\
  last_kind (NextVbn q) (KRun (Lbn q + (NextVbn q - NextVbn m))) post <> KHole /\
  Z.of_nat (length pre) + Z.of_nat (S (S (length post))) <= 2 ^ 28.
Proof using H Hwf Hm.
  destruct Hwf as [Hc Hk]. apply runs_chain_app in Hc as [Hc [[H1 H2] [[H3 H4] H5]]]. rewrite last_kind_app in Hk.
  pose proof (runs_chain_endv _ _ _ Hc). cbn [last_kind] in Hk. pose proof (holds_length _ _ _ H).
  assert (hole m = true) as Em by (unfold hole; lia). unfold kind_after in *. rewrite Em in *.
  destruct (hole q) eqn:Eq; [done|]. unfold hole in Eq. cbn [length] in *. split_and!; try done; lia.
Qed.

Lemma fill_rear_ok : v + n = NextVbn m -> endv 0 pre < v ->
  spec (fill_rear answer (Z.of_nat (length pre)) v b n s)
    (fun r s' => r = true /\ means (f_add v b n (sector_map (pre ++ m :: q :: post))) s')
    (fun s' => holds s' (pre ++ m :: q :: post)).
Proof using H Hwf Hr Hm Hv Hvn pool_bound.
  destruct hole_facts as (Hc & He & Hk & Hq & Hql & Hq0 & Hqb & Hp & Hpk & HL). destruct Hr as (_ & Hn & Hvn' & Hb & Hbn).
  intros Hend Hst. pose proof (above_add (endv 0 pre) v b n Hv) as HF. unfold UNUSED_LBN in *.
  unfold fill_rear. step. cbn [lookup list_lookup]. rewrite (u32_small (b + n)) by lia.
  destruct (Lbn q =? b + n) eqn:E.
  - steps. apply spec_ret. split; [done|]. eapply (replace_runs _ _ pre _ _ HF); [done|done|..].
    + runs_chain_cases.
    + runs_chain_cases.
    + den_cases.
  - add_entry 1; [|done]. steps. apply spec_ret. split; [done|]. eapply (replace_runs _ _ pre _ _ HF); [done|done|..].
    + runs_chain_cases.
    + runs_chain_cases.
    + den_cases.
Qed.

Lemma fill_front_ok : v = endv 0 pre -> v + n < NextVbn m ->
  spec (fill_front answer (Z.of_nat (length pre)) v b n s)
    (fun r s' => r = true /\ means (f_add v b n (sector_map (pre ++ m :: q :: post))) s')
    (fun s' => holds s' (pre ++ m :: q :: post)).
Proof using H Hwf Hr Hm Hv Hvn pool_bound.
  destruct hole_facts as (Hc & He & Hk & Hq & Hql & Hq0 & Hqb & Hp & Hpk & HL). destruct Hr as (_ & Hn & Hvn' & Hb & Hbn).
  intros Hst Hend. pose proof (above_add (endv 0 pre) v b n Hv) as HF.
  unfold fill_front. rewrite (bind_ok _ _ _ _ _ (PreviousEndingLbn_ok _ _ _ H Hc _ eq_refl)).
  destruct (u32 (_ + 1) =? b) eqn:E.
  - apply Z.eqb_eq in E. destruct (continues _ _ Hc Hk Hb E) as (pre' & r & -> & Hc' & He' & Hr0 & Hrl & Hrb & Hb' & Hk' & Er).
    pose proof H as H'. rewrite <- app_assoc in H', Hwf |- *. cbn [app] in H', Hwf |- *. rewrite length_app in *. cbn [length] in *.
    unfold UNUSED_LBN in *. steps. apply spec_ret. split; [done|]. rewrite (u32_small (NextVbn r + n)) in * by lia.
    eapply (replace_runs _ _ pre'); [apply above_add; lia|done|done|..].
    + runs_chain_cases.
    + runs_chain_cases.
    + den_cases.
  - apply Z.eqb_neq, not_continues in E; [|done]. unfold UNUSED_LBN in *.
    add_entry 1; [|done]. steps. apply spec_ret. split; [done|]. rewrite (u32_small (v + n)) in * by lia.
    eapply (replace_runs _ _ pre _ _ HF); [done|done|..].
    + runs_chain_cases.
    + runs_chain_cases.
    + den_cases.
Qed.

Lemma fill_whole_ok : v = endv 0 pre -> v + n = NextVbn m ->
  spec (fill_whole_hole (Z.of_nat (length pre)) b n s)
    (fun r s' => r = true /\ means (f_add v b n (sector_map (pre ++ m :: q :: post))) s')
    (fun s' => holds s' (pre ++ m :: q :: post)).
Proof using H Hwf Hr Hm Hv Hvn.
  destruct hole_facts as (Hc & He & Hk & Hq & Hql & Hq0 & Hqb & Hp & Hpk & HL). destruct Hr as (_ & Hn & Hvn' & Hb & Hbn).
  intros Hst Hend. pose proof (above_add (endv 0 pre) v b n Hv) as HF.
  unfold fill_whole_hole. rewrite (bind_ok _ _ _ _ _ (PreviousEndingLbn_ok _ _ _ H Hc _ eq_refl)).
  step. cbn [lookup list_lookup]. rewrite (u32_small (b + n)) by (unfold UNUSED_LBN in *; lia).
  destruct (Z.eqb_spec (u32 (prev_lbn (last_kind 0 KStart pre) + 1)) b) as [E|E];
    destruct (Z.eqb_spec (Lbn q) (b + n)) as [E'|E']; cbn [andb].
  - destruct (continues _ _ Hc Hk Hb E) as (pre' & r & -> & Hc' & He' & Hr0 & Hrl & Hrb & Hb' & Hk' & Er).
    pose proof H as H'. rewrite <- app_assoc in H', Hwf |- *. cbn [app] in H', Hwf |- *. rewrite length_app in *. cbn [length] in *.
    unfold UNUSED_LBN in *. steps.
    remove_entry (pre' ++ [mkMapping (NextVbn q) (Lbn r)]) [m; q]. apply spec_ret. split; [done|].
    eapply (replace_runs _ _ pre'); [apply above_add; lia|done|eassumption|..].
    + runs_chain_cases.
    + runs_chain_cases.
    + den_cases.
  - destruct (continues _ _ Hc Hk Hb E) as (pre' & r & -> & Hc' & He' & Hr0 & Hrl & Hrb & Hb' & Hk' & Er).
    pose proof H as H'. rewrite <- app_assoc in H', Hwf |- *. cbn [app] in H', Hwf |- *. rewrite length_app in *. cbn [length] in *.
    unfold UNUSED_LBN in *. steps.
    remove_entry (pre' ++ [mkMapping (NextVbn m) (Lbn r)]) [m]. apply spec_ret. split; [done|].
    eapply (replace_runs _ _ pre'); [apply above_add; lia|done|eassumption|..].
    + runs_chain_cases.
    + runs_chain_cases.
    + den_cases.
  - apply not_continues in E; [|done]. unfold UNUSED_LBN in *. steps.
    remove_entry pre [m]. apply spec_ret. split; [done|]. eapply (replace_runs _ _ pre _ _ HF); [done|eassumption|..].
    + runs_chain_cases.
    + runs_chain_cases.
    + den_cases.
  - apply not_continues in E; [|done]. unfold UNUSED_LBN in *. steps. apply spec_ret. split; [done|].
    eapply (replace_runs _ _ pre _ _ HF); [done|eassumption|..].
    + runs_chain_cases.
    + runs_chain_cases.
    + den_cases.
Qed.

Lemma fill_hole_ok :
  spec (fill_hole answer (Z.of_nat (length pre)) v b n s)
    (fun r s' => r = true /\ means (f_add v b n (sector_map (pre ++ m :: q :: post))) s')
    (fun s' => holds s' (pre ++ m :: q :: post)).
Proof using H Hwf Hr Hm Hv Hvn pool_bound.
  destruct hole_facts as (Hc & He & Hk & Hq & Hql & Hq0 & Hqb & Hp & Hpk & HL). pose proof Hr as (_ & Hn & Hvn' & Hb & Hbn).
  pose proof (above_add (endv 0 pre) v b n Hv) as HF. unfold fill_hole. steps.
  unfold startv. cbn [take endv]. rewrite (u32_small (v + n - 1)) by lia. rewrite Hm, Z.eqb_refl.
  rewrite !(proj2 (Z.leb_le _ _)) by lia. cbn [andb].
  destruct ((endv 0 pre <? v) && (v + n - 1 <? NextVbn m - 1)) eqn:E1.
  { unfold UNUSED_LBN in *. add_entry 2; [|done]. steps. apply spec_ret. split; [done|].
    rewrite (u32_small (v + n)) in * by lia. eapply (replace_runs _ _ pre _ _ HF); [done|eassumption|..].
    - runs_chain_cases.
    - runs_chain_cases.
    - den_cases. }
  destruct ((endv 0 pre =? v) && (v + n - 1 <? NextVbn m - 1)) eqn:E2; [apply fill_front_ok; lia|].
  destruct ((endv 0 pre <? v) && (v + n - 1 =? NextVbn m - 1)) eqn:E3; [apply fill_rear_ok; lia|].
  apply fill_whole_ok; lia.
Qed.
End Fill.

(** *** Which requests are taken *)

Lemma conflict f v b n x c : v <= x < v + n -> f x = Some c -> c <> b + (x - v) -> ~ acceptable f v b n.
Proof.
  intros Hx Hf Hc (k & Hk & [[Ha Hu]|[Hu Ha]]); destruct (Z.lt_ge_cases x k).
  - rewrite (Ha x) in Hf by lia. congruence.
  - rewrite (Hu x) in Hf by lia. done.
  - rewrite (Hu x) in Hf by lia. done.
  - rewrite (Ha x) in Hf by lia. congruence.
Qed.
Lemma gap_between f v b n x1 x2 x3 : v <= x1 < x2 -> x2 < x3 < v + n ->
  f x1 <> None -> f x2 = None -> f x3 <> None -> ~ acceptable f v b n.
Proof.
  intros H1 H3 E1 E2 E3 (k & Hk & [[Ha Hu]|[Hu Ha]]).
  - destruct (Z.lt_ge_cases x3 k); [|by apply E3, Hu; lia]. rewrite (Ha x2) in E2 by lia. done.
  - destruct (Z.lt_ge_cases x1 k); [by apply E1, Hu; lia|]. rewrite (Ha x2) in E2 by lia. done.
Qed.
Lemma island f v b n x1 x2 x3 : v <= x1 < x2 -> x2 < x3 < v + n ->
  f x1 = None -> f x2 <> None -> f x3 = None -> ~ acceptable f v b n.
Proof.
  intros H1 H3 E1 E2 E3 (k & Hk & [[Ha Hu]|[Hu Ha]]).
  - destruct (Z.lt_ge_cases x1 k); [by rewrite (Ha x1) in E1 by lia|]. apply E2, Hu. lia.
  - destruct (Z.lt_ge_cases x3 k); [|by rewrite (Ha x3) in E3 by lia]. apply E2, Hu. lia.
Qed.

(** *** The last steps of FsRtlAddBaseMcbEntry *)

Lemma at_the_end_at s pre m post v : holds s (pre ++ m :: post) -> wf_runs (pre ++ m :: post) ->
  0 <= v -> endv 0 pre <= v < NextVbn m -> at_the_end v s = Ok (false, Z.of_nat (length pre)) s.
Proof.
  intros H Hwf Hv0 Hv. unfold at_the_end. erewrite bind_ok by done. pose proof (holds_count _ _ _ H) as HP.
  cbn [length] in HP. rewrite (proj2 (Z.eqb_neq _ _)) by lia.
  assert (H0 : holds s ((pre ++ m :: post) ++ [])) by (by rewrite app_nil_r).
  rewrite (bind_ok _ _ _ _ _ (PreviousEndingVbn_ok _ _ _ H0 (PairCount (mcb s)) ltac:(rewrite HP; idx))).
  pose proof Hwf as [Hc _]. pose proof (runs_chain_endv_max _ _ _ Hc ltac:(lia)).
  apply runs_chain_app in Hc as [_ [_ Hc]]. apply runs_chain_endv in Hc. rewrite endv_app in *. cbn [endv] in *.
  rewrite u32_add_l, Z.sub_add, u32_small by lia. rewrite (proj2 (Z.leb_gt _ _)) by lia.
  rewrite (bind_ok _ _ _ _ _ (find_at _ _ _ _ _ H Hwf Hv0 Hv)). done.
Qed.
Lemma at_the_end_end s l v : holds s l -> wf_runs l -> 0 <= v -> endv 0 l <= v ->
  at_the_end v s = Ok (true, Z.of_nat (length l)) s.
Proof.
  intros H Hwf Hv0 Hv. unfold at_the_end. erewrite bind_ok by done.
  assert (H0 : holds s (l ++ [])) by (by rewrite app_nil_r). pose proof (holds_count _ _ _ H0) as HP. cbn [length] in HP.
  replace (Z.of_nat (length l)) with (PairCount (mcb s)) by lia.
  destruct (_ =? 0); [done|].
  rewrite (bind_ok _ _ _ _ _ (PreviousEndingVbn_ok _ _ _ H0 (PairCount (mcb s)) ltac:(lia))).
  pose proof Hwf as [Hc _]. pose proof (runs_chain_endv_max _ _ _ Hc ltac:(lia)). apply runs_chain_endv in Hc.
  rewrite u32_add_l, Z.sub_add, u32_small by lia. by rewrite (proj2 (Z.leb_le _ _)) by lia.
Qed.
(** The pair does not have room. *)
Lemma fill_hole_no s pre m post v b n : holds s (pre ++ m :: post) -> wf_runs (pre ++ m :: post) ->
  request v b n -> endv 0 pre <= v < NextVbn m -> (hole m = false \/ NextVbn m < v + n) ->
  fill_hole answer (Z.of_nat (length pre)) v b n s = Ok false s.
Proof.
  intros H Hwf (_ & Hn & Hvn & _) Hv Hno. pose proof Hwf as [Hc _]. apply runs_chain_app in Hc as [Hc [[Hm _] _]].
  pose proof (runs_chain_endv _ _ _ Hc). pose proof (holds_length _ _ _ H). unfold fill_hole.
  erewrite (bind_ok (StartingLbn _)) by (eapply (StartingLbn_ok _ _ _ H _ 0%nat); [idx|done]).
  erewrite (bind_ok (StartingVbn _)) by (eapply (StartingVbn_ok _ _ _ H _ 0%nat); [idx|cbn; lia]).
  erewrite (bind_ok (EndingVbn _)) by (eapply (EndingVbn_ok _ _ _ H _ 0%nat); [idx|done|lia]).
  rewrite (u32_small (v + n - 1)) by lia. fold (hole m).
  destruct Hno as [->|Hlt]; [done|]. rewrite (proj2 (Z.leb_gt (v + n - 1) _)) by lia. by rewrite andb_false_r.
Qed.

Lemma place_end_ok s l v b n : holds s l -> wf_runs l -> request v b n -> endv 0 l <= v ->
  spec (place_run answer v b n s)
    (fun r s' => r = true /\ means (f_add v b n (sector_map l)) s') (fun s' => holds s' l).
Proof using pool_bound.
  intros H Hwf Hr He. unfold place_run.
  rewrite (bind_ok _ _ _ _ _ (at_the_end_end s l v H Hwf (proj1 Hr) He)). by apply append_run_ok.
Qed.
Lemma place_hole_ok s pre m q post v b n : holds s (pre ++ m :: q :: post) -> wf_runs (pre ++ m :: q :: post) ->
  request v b n -> Lbn m = UNUSED_LBN -> endv 0 pre <= v -> v + n <= NextVbn m ->
  spec (place_run answer v b n s)
    (fun r s' => r = true /\ means (f_add v b n (sector_map (pre ++ m :: q :: post))) s')
    (fun s' => holds s' (pre ++ m :: q :: post)).
Proof using pool_bound.
  intros H Hwf Hr Hm Hv Hvn. pose proof Hr as (Hv0 & Hn & _). unfold place_run.
  rewrite (bind_ok _ _ _ _ _ (at_the_end_at s pre m (q :: post) v H Hwf Hv0 ltac:(lia))). by apply fill_hole_ok.
Qed.
Lemma place_no s pre m post v b n : holds s (pre ++ m :: post) -> wf_runs (pre ++ m :: post) ->
  request v b n -> endv 0 pre <= v < NextVbn m -> (hole m = false \/ NextVbn m < v + n) ->
  place_run answer v b n s = Ok false s.
Proof.
  intros H Hwf Hr Hv Hno. unfold place_run.
  rewrite (bind_ok _ _ _ _ _ (at_the_end_at s pre m post v H Hwf (proj1 Hr) Hv)). by apply fill_hole_no with m post.
Qed.

(** *** The overlap with what is mapped *)

Lemma trim_end s l v b n : holds s l -> wf_runs l -> request v b n -> endv 0 l <= v ->
  trim_request v b n s = Ok (inr (v, b, n)) s.
Proof.
  intros H Hwf Hr He. unfold trim_request. by rewrite (bind_ok _ _ _ _ _ (find_end s l v H Hwf (proj1 Hr) He)).
Qed.
Lemma trim_run s pre m post v b n : holds s (pre ++ m :: post) -> wf_runs (pre ++ m :: post) ->
  request v b n -> hole m = false -> endv 0 pre <= v < NextVbn m ->
  trim_request v b n s =
  Ok (if negb (b =? Lbn m + (v - endv 0 pre)) then inl false
      else if v + n <=? NextVbn m then inl true
      else inr (NextVbn m, b + (NextVbn m - v), v + n - NextVbn m)) s.
Proof.
  intros H Hwf (Hv0 & Hn & Hvn & Hb & Hbn) Em Hv. unfold trim_request.
  rewrite (bind_ok _ _ _ _ _ (find_at s pre m post v H Hwf Hv0 Hv)).
  pose proof Hwf as [Hc _]. apply runs_chain_app in Hc as [Hc [[Hm Hmb] _]]. rewrite Em in Hmb.
  pose proof (runs_chain_endv _ _ _ Hc). pose proof (holds_length _ _ _ H). unfold UNUSED_LBN in *.
  erewrite (bind_ok (StartingLbn _)) by (eapply (StartingLbn_ok _ _ _ H _ 0%nat); [idx|done]).
  unfold hole, UNUSED_LBN in Em. change UNUSED_LBN with 4294967295. rewrite Em. cbn [negb].
  erewrite (bind_ok (StartingVbn _)) by (eapply (StartingVbn_ok _ _ _ H _ 0%nat); [idx|cbn; lia]).
  unfold startv. cbn [take endv]. rewrite (u32_small (Lbn m + _)) by lia.
  destruct (b =? Lbn m + (v - endv 0 pre)) eqn:E; [cbn [negb]|done].
  erewrite (bind_ok (EndingVbn _)) by (eapply (EndingVbn_ok _ _ _ H _ 0%nat); [idx|done|lia]).
  rewrite (u32_small (v + n - 1)) by lia.
  replace (v + n - 1 <=? NextVbn m - 1) with (v + n <=? NextVbn m) by lia. destruct (Z.leb_spec (v + n) (NextVbn m)); [done|].
  erewrite (bind_ok (NextStartingVbn _)) by (eapply (NextStartingVbn_ok _ _ _ H _ 0%nat); [idx|done]).
  erewrite (bind_ok (EndingLbn _)).
  2: { eapply (EndingLbn_ok _ _ _ H _ 0%nat); [idx|done|cbn; lia|lia|]. intros _. cbn. unfold UNUSED_LBN. lia. }
  unfold startv, hole. change UNUSED_LBN with 4294967295. rewrite Em. cbn [take endv]. unfold ret. wrap. do 4 f_equal; lia.
Qed.
Lemma trim_hole s pre m q post v b n : holds s (pre ++ m :: q :: post) -> wf_runs (pre ++ m :: q :: post) ->
  request v b n -> Lbn m = UNUSED_LBN -> endv 0 pre <= v < NextVbn m ->
  trim_request v b n s =
  Ok (if (NextVbn m <? v + n) && (v + n <=? NextVbn q) then
        if negb (Lbn q =? b + (NextVbn m - v)) then inl false else inr (v, b, NextVbn m - v)
      else inr (v, b, n)) s.
Proof.
  intros H Hwf (Hv0 & Hn & Hvn & Hb & Hbn) Em Hv. unfold trim_request.
  rewrite (bind_ok _ _ _ _ _ (find_at s pre m (q :: post) v H Hwf Hv0 Hv)).
  destruct (hole_facts s pre m q post H Hwf Em) as (Hc & He & Hk & Hq & Hql & Hq0 & Hqb & Hp & Hpk & HL).
  erewrite (bind_ok (StartingLbn _)) by (eapply (StartingLbn_ok _ _ _ H _ 0%nat); [idx|done]).
  rewrite Em, Z.eqb_refl. cbn [negb]. rewrite (u32_small (v + n - 1)) by lia.
  assert (H' : holds s ((pre ++ [m]) ++ q :: post)) by (by rewrite <- app_assoc).
  assert (Hwf' : wf_runs ((pre ++ [m]) ++ q :: post)) by (by rewrite <- app_assoc).
  assert (Ee : endv 0 (pre ++ [m]) = NextVbn m) by (by rewrite endv_app).
  destruct (Z.ltb_spec (NextVbn m) (v + n)) as [L1|L1]; cbn [andb].
  2: { rewrite (bind_ok _ _ _ _ _ (find_at s pre m (q :: post) (v + n - 1) H Hwf ltac:(lia) ltac:(lia))). cbn [andb].
    destruct (Z.eqb_spec (Z.of_nat (length pre)) (u32 (Z.of_nat (length pre) - 1))) as [E|E]; [exfalso|done].
    destruct (length pre); [by vm_compute in E|]. rewrite u32_small in E by lia. lia. }
  destruct (Z.leb_spec (v + n) (NextVbn q)) as [L2|L2].
  - rewrite (bind_ok _ _ _ _ _ (find_at s (pre ++ [m]) q post (v + n - 1) H' Hwf' ltac:(lia) ltac:(lia))).
    rewrite length_app. cbn [length andb]. rewrite (u32_small (Z.of_nat (length pre + 1) - 1)) by lia.
    rewrite (proj2 (Z.eqb_eq _ _)) by lia.
    erewrite (bind_ok (StartingLbn _)) by (eapply (StartingLbn_ok _ _ _ H _ 1%nat); [idx|done]).
    erewrite (bind_ok (StartingVbn _)) by (eapply (StartingVbn_ok _ _ _ H _ 1%nat); [idx|cbn; lia]).
    unfold startv. cbn [take endv]. unfold UNUSED_LBN in *. rewrite (u32_small (b + _)), (u32_small (NextVbn m - v)) by lia.
    by destruct (negb _).
  - destruct (find_ok s _ H _ (proj1 Hwf) (v + n - 1) ltac:(lia)) as (r & E & Hl). rewrite (bind_ok _ _ _ _ _ E).
    destruct Hl as [(pre' & m' & post' & El & Hv' & ->)|[_ ->]]; [|done]. cbn [andb].
    destruct (Z.eqb_spec (Z.of_nat (length pre)) (u32 (Z.of_nat (length pre') - 1))) as [E2|E2]; [exfalso|done].
    pose proof H as H2. rewrite El in H2. pose proof (holds_length _ _ _ H2).
    assert (length pre' = length (pre ++ [m])) as E3.
    { rewrite length_app. cbn. destruct (length pre'); [change (u32 (Z.of_nat 0 - 1)) with 4294967295 in E2; lia|]. rewrite u32_small in E2 by lia. lia. }
    rewrite (app_assoc pre [m] (q :: post) : pre ++ m :: q :: post = _) in El.
    apply app_inj_1 in El as [_ El]; [|done]. injection El as <- _. lia.
Qed.

(** *** FsRtlAddBaseMcbEntry *)

Definition add_result (l : list MAPPING) (v b n : Z) (r : bool) (s' : state) : Prop :=
  if r then acceptable (sector_map l) v b n /\ means (f_add v b n (sector_map l)) s'
  else ~ acceptable (sector_map l) v b n /\ holds s' l.

(** The part that is mapped already can be left out. *)
Lemma add_prefix f v b n k : v <= k <= v + n -> agrees f v b v k ->
  fmap_eq (f_add k (b + (k - v)) (v + n - k) f) (f_add v b n f).
Proof.
  intros Hk Ha x. unfold f_add. destruct (Z.lt_ge_cases x k), (Z.le_gt_cases v x).
  - rewrite (proj2 (Z.leb_gt k x)) by lia. rewrite (proj2 (Z.leb_le v x)), (proj2 (Z.ltb_lt x (v + n))) by lia.
    cbn. by rewrite (Ha x) by lia.
  - by rewrite (proj2 (Z.leb_gt k x)), (proj2 (Z.leb_gt v x)) by lia.
  - rewrite (proj2 (Z.leb_le v x)), (proj2 (Z.leb_le k x)) by lia. replace (k + (v + n - k)) with (v + n) by lia.
    destruct (x <? v + n); [cbn; f_equal; lia|done].
  - lia.
Qed.
Lemma add_suffix f v b n k : v <= k <= v + n -> agrees f v b k (v + n) ->
  fmap_eq (f_add v b (k - v) f) (f_add v b n f).
Proof.
  intros Hk Ha x. unfold f_add. replace (v + (k - v)) with k by lia.
  destruct (Z.leb_spec v x); [cbn|done]. destruct (Z.ltb_spec x k), (Z.ltb_spec x (v + n)); try done; try lia.
  apply Ha. lia.
Qed.
Lemma run_place s s0 l l' v b n v' b' n' :
  fmap_eq (f_add v' b' n' (sector_map l')) (f_add v b n (sector_map l)) -> acceptable (sector_map l) v b n ->
  (forall s', holds s' l' -> holds s' l) -> s = s0 ->
  spec (place_run answer v' b' n' s0)
    (fun r s' => r = true /\ means (f_add v' b' n' (sector_map l')) s') (fun s' => holds s' l') ->
  spec (place_run answer v' b' n' s) (add_result l v b n) (fun s' => holds s' l).
Proof.
  intros E Ha Hl -> Hs. eapply spec_weaken; [exact Hs| |done]. intros r s' [-> Hm]. cbn. split; [done|].
  by eapply means_ext.
Qed.

Section Take.
Context (s : state) (v b n : Z) (Hr : request v b n).

Lemma add_at_end l : holds s l -> wf_runs l -> endv 0 l <= v ->
  spec (FsRtlAddBaseMcbEntry answer v b n s) (add_result l v b n) (fun s' => holds s' l).
Proof using Hr pool_bound.
  intros H Hwf He. pose proof Hr as (Hv0 & Hn & Hvn & Hb & Hbn). unfold FsRtlAddBaseMcbEntry, UNUSED_LBN in *.
  rewrite !u32_small by lia. rewrite (bind_ok _ _ _ _ _ (trim_end s l v b n H Hwf Hr He)).
  eapply (run_place _ _ l l); [done| |done|done|by apply place_end_ok].
  exists v. split; [lia|]. left. split; [intros x Hx; lia|]. intros x Hx. apply map_beyond; [done|lia].
Qed.

Lemma add_at_run pre m post : holds s (pre ++ m :: post) -> wf_runs (pre ++ m :: post) -> hole m = false ->
  endv 0 pre <= v < NextVbn m ->
  spec (FsRtlAddBaseMcbEntry answer v b n s) (add_result (pre ++ m :: post) v b n) (fun s' => holds s' (pre ++ m :: post)).
Proof using Hr pool_bound.
  intros H Hwf Em Hv. pose proof Hr as (Hv0 & Hn & Hvn & Hb & Hbn). unfold FsRtlAddBaseMcbEntry, UNUSED_LBN in *.
  rewrite !u32_small by lia. rewrite (bind_ok _ _ _ _ _ (trim_run s pre m post v b n H Hwf Hr Em Hv)).
  assert (Hat : forall x, endv 0 pre <= x < NextVbn m -> sector_map (pre ++ m :: post) x = Some (Lbn m + (x - endv 0 pre))).
  { intros x Hx. rewrite map_at by done. by rewrite Em. }
  destruct (Z.eqb_spec b (Lbn m + (v - endv 0 pre))) as [Eb|Eb]; cbn [negb].
  2: { apply spec_ret. cbn. split; [|done]. eapply (conflict _ _ _ _ v); [lia|apply Hat; lia|lia]. }
  destruct (Z.leb_spec (v + n) (NextVbn m)) as [L|L].
  { apply spec_ret. cbn. assert (Ha : agrees (sector_map (pre ++ m :: post)) v b v (v + n)).
    { intros x Hx. rewrite Hat by lia. f_equal. lia. }
    split; [exists (v + n); split; [lia|]; left; split; [done|intros x Hx; lia]|].
    exists (pre ++ m :: post). split; [done|]. split; [done|]. intros x. unfold f_add.
    destruct ((v <=? x) && (x <? v + n)) eqn:E; [|done]. rewrite Ha by lia. done. }
  assert (Ha : agrees (sector_map (pre ++ m :: post)) v b v (NextVbn m)).
  { intros x Hx. rewrite Hat by lia. f_equal. lia. }
  assert (Hr' : request (NextVbn m) (b + (NextVbn m - v)) (v + n - NextVbn m)) by (unfold request, UNUSED_LBN; lia).
  pose proof (add_prefix _ v b n (NextVbn m) ltac:(lia) Ha) as Hext.
  destruct post as [|q post].
  { eapply (run_place _ _ _ (pre ++ [m])); [exact Hext| |done|done|apply place_end_ok; try done; rewrite endv_app; cbn; lia].
    exists (NextVbn m). split; [lia|]. left. split; [done|]. intros x Hx. rewrite map_after by (done || lia). done. }
  assert (El : pre ++ m :: q :: post = (pre ++ [m]) ++ q :: post) by (by rewrite <- app_assoc).
  assert (Ee : endv 0 (pre ++ [m]) = NextVbn m) by (by rewrite endv_app).
  pose proof Hwf as [Hc Hk]. apply runs_chain_app in Hc as [Hc [[Hm1 _] [[Hq Hqb] Hc']]].
  rewrite last_kind_app in Hk. cbn in Hk.
  assert (Hqat : forall x, NextVbn m <= x < NextVbn q -> sector_map (pre ++ m :: q :: post) x =
    if hole q then None else Some (Lbn q + (x - NextVbn m))).
  { intros x Hx. rewrite El in Hwf |- *. rewrite map_at by (done || lia). by rewrite Ee. }
  destruct (hole q) eqn:Eq.
  2: { rewrite El in H, Hwf. rewrite (place_no s (pre ++ [m]) q post); [|done|done|done|lia|by left]. cbn. rewrite El. split; [|done].
    rewrite <- El. eapply (conflict _ _ _ _ (NextVbn m)); [lia|apply Hqat; lia|].
    intros E. unfold kind_after in Hqb. rewrite Em in Hqb. apply (proj2 (proj2 Hqb)). f_equal. lia. }
  destruct post as [|q' post]; [unfold kind_after in Hk; by rewrite Eq in Hk|].
  destruct (Z.le_gt_cases (v + n) (NextVbn q)) as [Lq|Lq].
  - eapply (run_place _ _ _ (pre ++ m :: q :: q' :: post)); [exact Hext| |done|done|].
    { exists (NextVbn m). split; [lia|]. left. split; [done|]. intros x Hx. apply Hqat. lia. }
    rewrite El in H, Hwf |- *. apply place_hole_ok; try done; try lia. unfold hole in Eq. lia.
  - rewrite El in H, Hwf. rewrite (place_no s (pre ++ [m]) q (q' :: post)); [|done|done|done|lia|right; lia]. cbn. rewrite El. split; [|done].
    rewrite <- El. eapply (gap_between _ _ _ _ v (NextVbn m) (NextVbn q)); [lia|lia| | |].
    + by rewrite Hat by lia.
    + apply Hqat. lia.
    + rewrite El. rewrite map_after by (done || lia). cbn in Hc'. destruct Hc' as [[Hq' Hqb'] _].
      cbn. rewrite (proj2 (Z.ltb_lt _ _)) by lia. unfold kind_after in Hqb'. rewrite Eq in Hqb'. by destruct (hole q').
Qed.

Lemma add_at_hole pre m q post : holds s (pre ++ m :: q :: post) -> wf_runs (pre ++ m :: q :: post) -> Lbn m = UNUSED_LBN ->
  endv 0 pre <= v < NextVbn m ->
  spec (FsRtlAddBaseMcbEntry answer v b n s) (add_result (pre ++ m :: q :: post) v b n) (fun s' => holds s' (pre ++ m :: q :: post)).
Proof using Hr pool_bound.
  intros H Hwf Em Hv. pose proof Hr as (Hv0 & Hn & Hvn & Hb & Hbn). unfold FsRtlAddBaseMcbEntry, UNUSED_LBN in *.
  rewrite !u32_small by lia. rewrite (bind_ok _ _ _ _ _ (trim_hole s pre m q post v b n H Hwf Hr Em Hv)).
  destruct (hole_facts s pre m q post H Hwf Em) as (Hc & He & Hk & Hq & Hql & Hq0 & Hqb & Hp & Hpk & HL).
  assert (El : pre ++ m :: q :: post = (pre ++ [m]) ++ q :: post) by (by rewrite <- app_assoc).
  assert (Hwf' : wf_runs ((pre ++ [m]) ++ q :: post)) by (by rewrite <- app_assoc).
  assert (Ee : endv 0 (pre ++ [m]) = NextVbn m) by (by rewrite endv_app).
  assert (Hat : forall x, endv 0 pre <= x < NextVbn m -> sector_map (pre ++ m :: q :: post) x = None).
  { intros x Hx. rewrite map_at by done. unfold hole. by rewrite Em. }
  assert (Hqat : forall x, NextVbn m <= x < NextVbn q -> sector_map (pre ++ m :: q :: post) x = Some (Lbn q + (x - NextVbn m))).
  { intros x Hx. rewrite El. rewrite map_at by (done || lia). unfold hole. rewrite Ee. by rewrite (proj2 (Z.eqb_neq _ _)) by done. }
  destruct (Z.ltb_spec (NextVbn m) (v + n)) as [L1|L1]; cbn [andb].
  2: { eapply (run_place _ _ _ (pre ++ m :: q :: post)); [done| |done|done|apply place_hole_ok; try done; lia].
    exists (v + n). split; [lia|]. right. split; [intros x Hx; apply Hat; lia|intros x Hx; lia]. }
  destruct (Z.leb_spec (v + n) (NextVbn q)) as [L2|L2].
  - destruct (Z.eqb_spec (Lbn q) (b + (NextVbn m - v))) as [Eb|Eb]; cbn [negb].
    + assert (Ha : agrees (sector_map (pre ++ m :: q :: post)) v b (NextVbn m) (v + n)).
      { intros x Hx. rewrite Hqat by lia. f_equal. lia. }
      eapply (run_place _ _ _ (pre ++ m :: q :: post)); [apply add_suffix; [lia|exact Ha]| |done|done|].
      { exists (NextVbn m). split; [lia|]. right. split; [intros x Hx; apply Hat; lia|done]. }
      apply place_hole_ok; try done; try lia. unfold request, UNUSED_LBN. lia.
    + apply spec_ret. cbn. split; [|done]. eapply (conflict _ _ _ _ (NextVbn m)); [lia|apply Hqat; lia|lia].
  - rewrite (place_no s pre m (q :: post)); [|done|done|done|lia|right; lia]. cbn. split; [|done].
    destruct (Z.eq_dec (Lbn q) (b + (NextVbn m - v))) as [Eb|Eb].
    2: { eapply (conflict _ _ _ _ (NextVbn m)); [lia|apply Hqat; lia|lia]. }
    assert (Hn' : sector_map (pre ++ m :: q :: post) (NextVbn q) <> Some (b + (NextVbn q - v))).
    { rewrite El, map_after by (done || lia).
      pose proof (no_continuation (NextVbn m) KHole q post) as Hnc. unfold pair_ok, kind_after, hole, UNUSED_LBN in Hnc.
      rewrite (proj2 (Z.eqb_neq _ _)) in Hnc by done. cbn [last_kind] in Hnc. unfold kind_after, hole, UNUSED_LBN in Hnc.
      rewrite (proj2 (Z.eqb_neq _ _)) in Hnc by done. intros E. apply Hnc; [split; [lia|split_and!; try lia; done]|done|done|].
      rewrite E. f_equal. lia. }
    destruct (sector_map (pre ++ m :: q :: post) (NextVbn q)) as [c|] eqn:Ec.
    + eapply (conflict _ _ _ _ (NextVbn q)); [lia|exact Ec|]. congruence.
    + eapply (island _ _ _ _ v (NextVbn m) (NextVbn q)); [lia|lia|apply Hat; lia| |done]. by rewrite Hqat by lia.
Qed.

Lemma FsRtlAddBaseMcbEntry_ok l : holds s l -> wf_runs l ->
  spec (FsRtlAddBaseMcbEntry answer v b n s) (add_result l v b n) (fun s' => holds s' l).
Proof using Hr pool_bound.
  intros H Hwf. destruct (locate_vbn l v Hwf (proj1 Hr)) as [(pre & m & post & -> & Hv)|He]; [|by apply add_at_end].
  destruct (hole m) eqn:Em; [|by apply add_at_run]. destruct post as [|q post].
  - destruct Hwf as [_ Hk]. rewrite last_kind_app in Hk. cbn in Hk. unfold kind_after in Hk. by rewrite Em in Hk.
  - apply add_at_hole; try done. unfold hole in Em. lia.
Qed.
End Take.
End Add.
End McbAdd.
