(* ===== verification/FsRtlMcbRemove.v ===== *)
(** * Map control blocks: removing runs

    Module [McbRemove] proves FsRtlRemoveBaseMcbEntry
    ([FsRtlRemoveBaseMcbEntry_ok]): the sectors of the range are unmapped and no
    others, the runs stay canonical, the loop ends within its fuel, and when
    memory is exhausted a front part of the range has been removed. *)

From S2P Require Import Prelude FsRtlMcb FsRtlMcbRuns FsRtlMcbExec.
#[local] Open Scope Z_scope.

Module McbRemove.
Import Mcb McbRuns McbExec.

Lemma above_remove e v n : e <= v -> above e (f_remove v n).
Proof.
  intros He. split.
  - intros g x Hx. unfold f_remove. by rewrite (proj2 (Z.leb_gt v x)) by lia.
  - intros g g' x Hx Hg. unfold f_remove. by rewrite Hg.
Qed.

(** What a turn leaves: the sectors up to [v'] removed, and no more than [k] pairs
    beyond [v'] unless the loop ends. *)
Definition turned (l : list MAPPING) (k : nat) (v v' n' : Z) (s' : state) : Prop :=
  exists l', holds s' l' /\ wf_runs l' /\ fmap_eq (sector_map l') (f_remove v (v' - v) (sector_map l)) /\
    (n' = 0 \/ exists P Q, l' = P ++ Q /\ endv 0 P <= v' /\ (length Q <= k)%nat).

(** The test whether the pair before is a hole. *)
Lemma prev_hole_test pre : runs_chain 0 KStart pre ->
  negb (prev_lbn (last_kind 0 KStart pre) =? UNUSED_LBN) || (Z.of_nat (length pre) =? 0) =
  match last_kind 0 KStart pre with KHole => false | _ => true end.
Proof.
  intros Hc. destruct (last_kind 0 KStart pre) as [| |e] eqn:E; cbn [prev_lbn]; rewrite ?Z.eqb_refl; cbn [negb orb].
  - destruct pre as [|q pre _] using rev_ind; [done|]. rewrite last_kind_app in E. cbn in E.
    unfold kind_after in E. by destruct (hole q).
  - destruct pre; [done|]. cbn. done.
  - destruct (last_kind_run _ _ Hc E) as [_ He]. by rewrite (proj2 (Z.eqb_neq _ _)) by lia.
Qed.
Lemma prev_cases pre : runs_chain 0 KStart pre ->
  last_kind 0 KStart pre = KHole /\ (prev_lbn (last_kind 0 KStart pre) =? UNUSED_LBN) = true /\
    negb (prev_lbn (last_kind 0 KStart pre) =? UNUSED_LBN) || (Z.of_nat (length pre) =? 0) = false \/
  last_kind 0 KStart pre <> KHole /\
    negb (prev_lbn (last_kind 0 KStart pre) =? UNUSED_LBN) || (Z.of_nat (length pre) =? 0) = true.
Proof. intros Hc. rewrite (prev_hole_test pre Hc). destruct (last_kind 0 KStart pre); auto. Qed.
Lemma prev_hole pre : runs_chain 0 KStart pre -> last_kind 0 KStart pre = KHole ->
  exists pre' h, pre = pre' ++ [h] /\ runs_chain 0 KStart pre' /\ 0 <= endv 0 pre' < NextVbn h /\ NextVbn h < 2 ^ 32 /\
    Lbn h = UNUSED_LBN /\ last_kind 0 KStart pre' <> KHole /\ endv 0 pre = NextVbn h.
Proof.
  intros Hc Hk. destruct pre as [|h pre' _] using rev_ind; [done|]. exists pre', h.
  apply runs_chain_app in Hc as [Hc [[Hh Hb] _]]. pose proof (runs_chain_endv _ _ _ Hc). rewrite last_kind_app in Hk. cbn in Hk.
  unfold kind_after in Hk. rewrite endv_app. cbn. destruct (hole h) eqn:E; [|done]. unfold hole in E.
  split_and!; try done; lia.
Qed.

(** The rest of a turn from the new pairs. *)
Lemma turn_new l k base old new P Q v v' n' s' : wf_runs l -> l = base ++ old -> endv 0 base <= v -> v <= v' ->
  holds s' (base ++ new) ->
  runs_chain (endv 0 base) (last_kind 0 KStart base) new ->
  last_kind (endv 0 base) (last_kind 0 KStart base) new <> KHole ->
  (forall x, endv 0 base <= x -> den (endv 0 base) new x = f_remove v (v' - v) (den (endv 0 base) old) x) ->
  (n' = 0 \/ base ++ new = P ++ Q /\ endv 0 P <= v' /\ (length Q <= k)%nat) ->
  turned l k v v' n' s'.
Proof.
  intros Hwf -> He Hv' Hs Hc Hk Hd HPQ.
  destruct (replaced_runs _ _ _ _ (above_remove _ v (v' - v) He) Hwf Hc Hk Hd) as [H1 H2].
  exists (base ++ new). split; [done|]. split; [done|]. split; [done|].
  destruct HPQ as [-> | HPQ]; [by left|]. right. by exists P, Q.
Qed.

(** The conditions of [turn_new] on explicit pairs. *)
Ltac turn_side :=
  lazymatch goal with
  | |- wf_runs _ => assumption
  | |- _ = _ ++ _ => first [eassumption|rewrite <- ?app_assoc; reflexivity]
  | |- _ <= _ => cbn [NextVbn]; lia
  | |- holds _ _ => first [eassumption|rewrite app_nil_r; eassumption]
  | |- runs_chain _ _ _ => runs_chain_cases
  | |- last_kind _ _ _ <> _ => runs_chain_cases
  | |- _ \/ _ =>
      first [left; lia
            |right; split_and!;
             [rewrite <- ?app_assoc, ?app_nil_r; reflexivity|rewrite ?endv_app; cbn [endv NextVbn]; lia|cbn [length]; lia]]
  | |- forall _, _ => den_cases
  end.

Section Remove.
Context (answer : nat -> Z -> option (Z -> MAPPING)).
Hypothesis pool_bound : forall n bytes, answer n bytes <> None -> bytes <= 2 ^ 31.

Lemma turn_facts s pre m post : holds s (pre ++ m :: post) -> wf_runs (pre ++ m :: post) ->
  runs_chain 0 KStart pre /\ 0 <= endv 0 pre < NextVbn m /\ NextVbn m < 2 ^ 32 /\
  (if hole m then last_kind 0 KStart pre <> KHole
   else 0 < Lbn m /\ Lbn m + (NextVbn m - endv 0 pre) <= UNUSED_LBN /\ last_kind 0 KStart pre <> KRun (Lbn m)) /\
  runs_chain (NextVbn m) (kind_after (endv 0 pre) m) post /\
  last_kind (NextVbn m) (kind_after (endv 0 pre) m) post <> KHole /\
  Z.of_nat (length pre) + Z.of_nat (S (length post)) <= 2 ^ 28.
Proof.
  intros H Hwf. destruct Hwf as [Hc Hk]. apply runs_chain_app in Hc as [Hc [[H1 H2] H3]]. rewrite last_kind_app in Hk.
  pose proof (runs_chain_endv _ _ _ Hc). pose proof (holds_length _ _ _ H). cbn [length last_kind] in *.
  split_and!; try done; lia.
Qed.

(** A hole is left as it is. *)
Lemma turn_hole s pre m post v v' n' : holds s (pre ++ m :: post) -> wf_runs (pre ++ m :: post) ->
  endv 0 pre <= v < NextVbn m -> hole m = true -> v <= v' <= NextVbn m -> (n' = 0 \/ v' = NextVbn m) ->
  turned (pre ++ m :: post) (length post) v v' n' s.
Proof.
  intros H Hwf Hv Em Hv' Hn'. exists (pre ++ m :: post). split; [done|]. split; [done|]. split.
  - intros x. unfold f_remove. destruct ((v <=? x) && (x <? v + (v' - v))) eqn:E; [|done].
    rewrite map_at by (done || lia). by rewrite Em.
  - destruct Hn' as [-> | ->]; [by left|right]. exists (pre ++ [m]), post. rewrite <- app_assoc, endv_app. cbn. split_and!; [done|lia|lia].
Qed.

Lemma remove_entire_ok s pre m post v n : holds s (pre ++ m :: post) -> wf_runs (pre ++ m :: post) ->
  v = endv 0 pre ->
  spec (remove_entire (Z.of_nat (length pre)) s)
    (fun _ s' => turned (pre ++ m :: post) (length post) v (NextVbn m) (v + n - NextVbn m) s')
    (fun s' => holds s' (pre ++ m :: post)).
Proof.
  intros H Hwf Ev. destruct (turn_facts _ _ _ _ H Hwf) as (Hc & He & Hm & Hmb & Hp & Hpk & HL).
  unfold remove_entire. step. erewrite bind_ok by done. fold (hole m). destruct (hole m) eqn:Em.
  { apply spec_ret. apply turn_hole; try done; [lia|lia|by right]. }
  rewrite (holds_count _ _ _ H). cbn [length]. unfold kind_after in Hp, Hpk. rewrite Em in Hp, Hpk. unfold hole in Em.
  rewrite (u32_small (_ + _ - 1)) by lia. unfold UNUSED_LBN in *.
  destruct (prev_cases _ Hc) as [(Ek & Et & Ep)|(Ek & Ep)]; unfold UNUSED_LBN in *.
  - destruct (prev_hole _ Hc Ek) as (pre' & h & Epre & Hc' & He' & Hh & Hhl & Hk' & Eh).
    assert (Hl : Z.of_nat (length pre) = Z.of_nat (length pre') + 1) by (rewrite Epre, length_app; cbn; lia).
    assert (H' : holds s (pre' ++ h :: m :: post)) by (rewrite Epre, <- app_assoc in H; exact H).
    assert (El : pre ++ m :: post = pre' ++ h :: m :: post) by (by rewrite Epre, <- app_assoc).
    unfold UNUSED_LBN in *.
    destruct post as [|q post'].
    + cbn [length]. rewrite (proj2 (Z.eqb_eq _ _)) by lia.
      rewrite (bind_ok _ _ _ _ _ (PreviousEndingLbn_ok _ _ _ H Hc _ eq_refl)). rewrite Ep. apply spec_tail. 
      remove_entry pre' [h; m]. apply spec_ret.
      eapply (turn_new _ _ pre' [h; m] [] pre' []); turn_side.
    + cbn [length]. rewrite (proj2 (Z.eqb_neq _ _)) by lia.
      rewrite (bind_ok _ _ _ _ _ (PreviousEndingLbn_ok _ _ _ H Hc _ eq_refl)). step. cbn [lookup list_lookup].
      rewrite Ep, Et. cbn [andb]. cbn [runs_chain last_kind] in Hp, Hpk. destruct Hp as [[Hq Hqb] Hp].
      unfold kind_after, hole, UNUSED_LBN in *. destruct (Lbn q =? 4294967295) eqn:Eq; cbn [negb]; apply spec_tail.
      * remove_entry pre' [h; m]. apply spec_ret.
        eapply (turn_new _ _ pre' (h :: m :: q :: post') (q :: post') pre' (q :: post')); turn_side.
      * rewrite bind_assoc. step. 
        remove_entry pre' [h]. apply spec_ret.
        eapply (turn_new _ _ pre' (h :: m :: q :: post') _ (pre' ++ [mkMapping (NextVbn m) 4294967295]) (q :: post')); turn_side.
  - destruct post as [|q post'].
    + cbn [length]. rewrite (proj2 (Z.eqb_eq _ _)) by lia.
      rewrite (bind_ok _ _ _ _ _ (PreviousEndingLbn_ok _ _ _ H Hc _ eq_refl)). rewrite Ep. apply spec_tail.
      remove_entry pre [m]. apply spec_ret. eapply (turn_new _ _ pre [m] [] pre []); turn_side.
    + cbn [length]. rewrite (proj2 (Z.eqb_neq _ _)) by lia.
      rewrite (bind_ok _ _ _ _ _ (PreviousEndingLbn_ok _ _ _ H Hc _ eq_refl)). step. cbn [lookup list_lookup].
      rewrite Ep. cbn [andb]. cbn [runs_chain last_kind] in Hp, Hpk. destruct Hp as [[Hq Hqb] Hp].
      unfold kind_after, hole, UNUSED_LBN in *. destruct (Lbn q =? 4294967295) eqn:Eq; cbn [negb]; apply spec_tail.
      * remove_entry pre [m]. apply spec_ret.
        eapply (turn_new _ _ pre (m :: q :: post') (q :: post') pre (q :: post')); turn_side.
      * step. apply spec_ret.
        eapply (turn_new _ _ pre (m :: q :: post') _ (pre ++ [mkMapping (NextVbn m) 4294967295]) (q :: post')); turn_side.
Qed.

Lemma remove_first_part_ok s pre m post v n : holds s (pre ++ m :: post) -> wf_runs (pre ++ m :: post) ->
  v = endv 0 pre -> 0 < n -> v + n < NextVbn m ->
  spec (remove_first_part answer (Z.of_nat (length pre)) v n s)
    (fun _ s' => turned (pre ++ m :: post) (length post) v (v + n) 0 s') (fun s' => holds s' (pre ++ m :: post)).
Proof using pool_bound.
  intros H Hwf Ev Hn Hvn. destruct (turn_facts _ _ _ _ H Hwf) as (Hc & He & Hm & Hmb & Hp & Hpk & HL).
  unfold remove_first_part. step. fold (hole m). destruct (hole m) eqn:Em.
  { apply spec_ret. apply turn_hole; try done; [lia|lia|by left]. }
  unfold kind_after in Hp, Hpk. rewrite Em in Hp, Hpk. unfold hole, UNUSED_LBN in Em, Hmb.
  rewrite (bind_ok _ _ _ _ _ (PreviousEndingLbn_ok _ _ _ H Hc _ eq_refl)).
  rewrite (u32_small v), (u32_small n), (u32_small (v + n)) by lia.
  destruct (prev_cases _ Hc) as [(Ek & Et & Ep)|(Ek & Ep)]; rewrite Ep; clear Ep.
  - destruct (prev_hole _ Hc Ek) as (pre' & h & Epre & Hc' & He' & Hh & Hhl & Hk' & Eh).
    assert (Hl : Z.of_nat (length pre) = Z.of_nat (length pre') + 1) by (rewrite Epre, length_app; cbn; lia).
    assert (H' : holds s (pre' ++ h :: m :: post)) by (rewrite Epre, <- app_assoc in H; exact H).
    assert (El : pre ++ m :: post = pre' ++ h :: m :: post) by (by rewrite Epre, <- app_assoc).
    clear H. unfold UNUSED_LBN in *. steps. apply spec_tail. step. apply spec_ret. rewrite (u32_small (NextVbn h + n)), (u32_small (Lbn m + n)) in * by lia.
    eapply (turn_new _ _ pre' (h :: m :: post) _ [] []); turn_side.
  - unfold UNUSED_LBN in *. add_entry 1; [|done]. steps. apply spec_tail. step. apply spec_ret.
    rewrite (u32_small (Lbn m + n)) in * by lia.
    eapply (turn_new _ _ pre (m :: post) _ [] []); turn_side.
Qed.

Lemma remove_last_part_ok s pre m post v n : holds s (pre ++ m :: post) -> wf_runs (pre ++ m :: post) ->
  endv 0 pre < v < NextVbn m -> NextVbn m <= v + n ->
  spec (remove_last_part answer (Z.of_nat (length pre)) (NextVbn m - v) s)
    (fun _ s' => turned (pre ++ m :: post) (length post) v (NextVbn m) (v + n - NextVbn m) s')
    (fun s' => holds s' (pre ++ m :: post)).
Proof using pool_bound.
  intros H Hwf Hv Hvn. destruct (turn_facts _ _ _ _ H Hwf) as (Hc & He & Hm & Hmb & Hp & Hpk & HL).
  unfold remove_last_part. step. erewrite bind_ok by done. fold (hole m). destruct (hole m) eqn:Em.
  { apply spec_ret. apply turn_hole; try done; [lia|lia|by right]. }
  rewrite (holds_count _ _ _ H). cbn [length]. rewrite (u32_small (_ + _ - 1)) by lia.
  unfold kind_after in Hp, Hpk. rewrite Em in Hp, Hpk. unfold hole, UNUSED_LBN in Em, Hmb. step. cbn [lookup list_lookup].
  destruct post as [|q post'].
  - cbn [length]. rewrite (proj2 (Z.eqb_eq (Z.of_nat (length pre)) _)) by lia. cbn [orb].
    step. apply spec_tail. step. apply spec_ret. rewrite (u32_small (NextVbn m - _)) in * by lia.
    eapply (turn_new _ _ pre [m] _ (pre ++ [mkMapping (NextVbn m - (NextVbn m - v)) (Lbn m)]) []); turn_side.
  - cbn [length lookup list_lookup]. rewrite (proj2 (Z.eqb_neq (Z.of_nat (length pre)) _)) by lia. cbn [orb].
    cbn [runs_chain last_kind] in Hp, Hpk. destruct Hp as [[Hq Hqb] Hp]. unfold hole, UNUSED_LBN in *.
    unfold kind_after, hole, UNUSED_LBN in *. destruct (Lbn q =? 4294967295) eqn:Eq; cbn [Z.eqb].
    + step. apply spec_tail. step. apply spec_ret. rewrite (u32_small (NextVbn m - _)) in * by lia.
      eapply (turn_new _ _ pre (m :: q :: post') _ (pre ++ [mkMapping (NextVbn m - (NextVbn m - v)) (Lbn m)]) (q :: post')); turn_side.
    + assert (H' : holds s ((pre ++ [m]) ++ q :: post')) by (by rewrite <- app_assoc).
      change 1 with (Z.of_nat 1) at 2. eapply spec_AddLargeEntry; [exact pool_bound|exact H'|idx|lia| |].
      2: { intros s1 H1. by rewrite <- app_assoc in H1. }
      intros s1 [|g [|]] Hg H1; try done. rewrite <- app_assoc in H1. cbn [app] in H1.
      steps. apply spec_tail. step. apply spec_ret. rewrite (u32_small (NextVbn m - _)) in * by lia.
      eapply (turn_new _ _ pre (m :: q :: post') _
        (pre ++ [mkMapping (NextVbn m - (NextVbn m - v)) (Lbn m); mkMapping (NextVbn m) 4294967295]) (q :: post')); turn_side.
Qed.

Lemma remove_middle_ok s pre m post v n : holds s (pre ++ m :: post) -> wf_runs (pre ++ m :: post) ->
  endv 0 pre < v -> 0 < n -> v + n < NextVbn m ->
  spec (remove_middle answer (Z.of_nat (length pre)) v n s)
    (fun _ s' => turned (pre ++ m :: post) (length post) v (v + n) 0 s') (fun s' => holds s' (pre ++ m :: post)).
Proof using pool_bound.
  intros H Hwf Hv Hn Hvn. destruct (turn_facts _ _ _ _ H Hwf) as (Hc & He & Hm & Hmb & Hp & Hpk & HL).
  unfold remove_middle. step. fold (hole m). destruct (hole m) eqn:Em.
  { apply spec_ret. apply turn_hole; try done; [lia|lia|by left]. }
  unfold kind_after in Hp, Hpk. rewrite Em in Hp, Hpk. unfold hole, UNUSED_LBN in Em, Hmb.
  rewrite (u32_small v), (u32_small n), (u32_small (v + n)) by lia. unfold UNUSED_LBN in *.
  add_entry 2; [|done]. steps. unfold startv. cbn [take endv NextVbn].
  rewrite (u32_small (Lbn m + _)) by lia. apply spec_tail. step. apply spec_ret.
  eapply (turn_new _ _ pre (m :: post) _ [] []); turn_side.
Qed.

Lemma remove_turn_ok s pre m post v n : holds s (pre ++ m :: post) -> wf_runs (pre ++ m :: post) ->
  endv 0 pre <= v < NextVbn m -> 0 < n < 2 ^ 62 ->
  spec (remove_turn answer (Z.of_nat (length pre)) v n s)
    (fun r s' => let '(v', n') := r in v <= v' <= v + n /\ v' <= NextVbn m /\ n' = v + n - v' /\
       turned (pre ++ m :: post) (length post) v v' n' s')
    (fun s' => holds s' (pre ++ m :: post)).
Proof using pool_bound.
  intros H Hwf Hv Hn. destruct (turn_facts _ _ _ _ H Hwf) as (Hc & He & Hm & Hmb & Hp & Hpk & HL).
  unfold remove_turn. steps. unfold startv. cbn [take endv]. rewrite (s64_small (v + n)) by lia.
  destruct ((endv 0 pre =? v) && (NextVbn m - 1 <? v + n)) eqn:E1.
  { step. unfold startv. cbn [take endv]. apply spec_bind. eapply spec_weaken; [apply (remove_entire_ok s pre m post v n); [done|done|]| |done].
    - lia.
    - intros [] s' Ht. apply spec_ret. wrap. replace (v + (NextVbn m - endv 0 pre)) with (NextVbn m) by lia.
      split_and!; [lia|lia|lia|lia|]. by replace (n - (NextVbn m - endv 0 pre)) with (v + n - NextVbn m) by lia. }
  destruct (endv 0 pre =? v) eqn:E2.
  { apply spec_bind. eapply spec_weaken; [apply (remove_first_part_ok s pre m post v n); [done|done| | |]| |done]; [lia|lia|lia|].
    intros [] s' Ht. apply spec_ret. split_and!; [lia|lia|lia|lia|done]. }
  destruct (NextVbn m - 1 <? v + n) eqn:E3.
  { rewrite (u32_small v), (u32_small (_ + 1)) by lia. replace (NextVbn m - 1 - v + 1) with (NextVbn m - v) by lia.
    apply spec_bind. eapply spec_weaken; [apply (remove_last_part_ok s pre m post v n); [done|done| |]| |done]; [lia|lia|].
    intros [] s' Ht. apply spec_ret. wrap. replace (v + (NextVbn m - v)) with (NextVbn m) by lia.
    split_and!; [lia|lia|lia|lia|]. by replace (n - (NextVbn m - v)) with (v + n - NextVbn m) by lia. }
  apply spec_bind. eapply spec_weaken; [apply (remove_middle_ok s pre m post v n); [done|done| | |]| |done]; [lia|lia|lia|].
  intros [] s' Ht. apply spec_ret. split_and!; [lia|lia|lia|lia|done].
Qed.

(** *** The loop *)

Lemma remove_nothing f v : fmap_eq (f_remove v 0 f) f.
Proof. intros x. unfold f_remove. destruct ((v <=? x) && (x <? v + 0)) eqn:E; [lia|done]. Qed.
Lemma remove_compose f v k n : 0 <= k <= n -> fmap_eq (f_remove (v + k) (n - k) (f_remove v k f)) (f_remove v n f).
Proof.
  intros Hk x. unfold f_remove. destruct (Z.leb_spec v x), (Z.leb_spec (v + k) x), (Z.ltb_spec x (v + k)), (Z.ltb_spec x (v + n)),
    (Z.ltb_spec x (v + k + (n - k))); cbn; try done; lia.
Qed.
Lemma remove_beyond l v n : wf_runs l -> endv 0 l <= v -> fmap_eq (sector_map l) (f_remove v n (sector_map l)).
Proof.
  intros Hwf He x. unfold f_remove. destruct ((v <=? x) && (x <? v + n)) eqn:E; [|done]. apply map_beyond; [done|lia].
Qed.
(** A pair that contains [v] comes after the pairs that end before [v]. *)
Lemma located_after l P Q pre m post v : wf_runs l -> l = P ++ Q -> endv 0 P <= v ->
  l = pre ++ m :: post -> v < NextVbn m -> (length post < length Q)%nat.
Proof.
  intros [Hc _] E1 HP E2 Hv. destruct (Nat.le_gt_cases (length P) (length pre)) as [L|L].
  - apply (f_equal length) in E1. apply (f_equal length) in E2. rewrite length_app in E1, E2. cbn in E2. lia.
  - exfalso. pose proof (vbn_mono _ _ (S (length pre)) (length P) Hc ltac:(lia)) as Hm.
    unfold vbn in Hm. rewrite E1 in Hm at 2. rewrite take_app_length in Hm.
    assert (Hl : l !! length pre = Some m) by (rewrite E2, lookup_app_r by lia; by rewrite Nat.sub_diag).
    rewrite (take_S_r _ _ _ Hl), endv_app in Hm. cbn in Hm. lia.
Qed.
Lemma remove_loop_zero fuel v s : (0 < fuel)%nat -> remove_loop answer fuel v 0 s = Ok tt s.
Proof. by destruct fuel; [lia|]. Qed.

Lemma remove_loop_ok fuel s l P Q v n : holds s l -> wf_runs l -> l = P ++ Q -> endv 0 P <= v ->
  (length Q < fuel)%nat -> 0 <= v < 2 ^ 32 -> 0 <= n < 2 ^ 62 ->
  spec (remove_loop answer fuel v n s) (fun _ s' => means (f_remove v n (sector_map l)) s')
    (fun s' => exists k, 0 <= k <= n /\ means (f_remove v k (sector_map l)) s').
Proof using pool_bound.
  revert s l P Q v n. induction fuel as [|fuel IH]; intros s l P Q v n H Hwf El HP Hf Hv Hn; [lia|].
  cbn [remove_loop]. rewrite Z.gtb_ltb. destruct (Z.ltb_spec 0 n) as [Hn0|Hn0].
  2: { apply spec_ret. assert (n = 0) as -> by lia. exists l. split; [done|]. split; [done|]. by rewrite remove_nothing. }
  rewrite (u32_small v) by lia. apply (spec_find _ s l); [done|done|lia| |].
  2: { intros He. apply spec_ret. exists l. split; [done|]. split; [done|]. by apply remove_beyond. }
  intros pre m post E Hm. assert (Hlt : (length post < length Q)%nat) by (eapply located_after; eauto; lia).
  apply spec_bind. rewrite E in H, Hwf. assert (HX : NextVbn m < 2 ^ 32) by (destruct (turn_facts _ _ _ _ H Hwf); tauto).
  eapply spec_weaken; [apply remove_turn_ok; [exact H|exact Hwf|lia|lia]| |].
  2: { intros s' Hs'. exists 0. split; [lia|]. exists (pre ++ m :: post). split; [done|]. split; [done|]. rewrite E. by rewrite remove_nothing. }
  intros [v' n'] s' (Hv' & Hvm & -> & l' & Hs' & Hwf' & Ef & HPQ). rewrite <- E in Ef.
  assert (exists k, v' = v + k) as [k ->] by (exists (v' - v); lia).
  replace (v + k - v) with k in * by lia. replace (v + n - (v + k)) with (n - k) in * by lia.
  destruct HPQ as [E0|(P' & Q' & El' & HP' & HQ')].
  - rewrite E0, remove_loop_zero by lia. cbn. exists l'. split; [done|]. split; [done|]. by replace n with k by lia.
  - eapply spec_weaken; [eapply (IH s' l' P' Q'); try done; lia| |].
    + intros [] s2 Hs2. eapply means_ext; [|exact Hs2]. rewrite Ef. apply remove_compose. lia.
    + intros s2 (j & Hj & Hs2). exists (k + j). split; [lia|]. eapply means_ext; [|exact Hs2]. rewrite Ef.
      replace j with (k + j - k) by lia. rewrite remove_compose by lia. by replace (k + j - k) with j by lia.
Qed.

Lemma FsRtlRemoveBaseMcbEntry_ok s l v n : holds s l -> wf_runs l -> 0 <= v < 2 ^ 32 -> 0 <= n < 2 ^ 62 ->
  spec (FsRtlRemoveBaseMcbEntry answer v n s) (fun _ s' => means (f_remove v n (sector_map l)) s')
    (fun s' => exists k, 0 <= k <= n /\ means (f_remove v k (sector_map l)) s').
Proof using pool_bound.
  intros H Hwf Hv Hn. unfold FsRtlRemoveBaseMcbEntry. erewrite bind_ok by done. pose proof (holds_count s [] l H) as HP.
  cbn [length] in HP. assert (HP' : PairCount (mcb s) = Z.of_nat (length l)) by lia.
  assert (Hloop : spec (remove_loop answer (2 + Z.to_nat (PairCount (mcb s))) v n s)
    (fun _ s' => means (f_remove v n (sector_map l)) s')
    (fun s' => exists k, 0 <= k <= n /\ means (f_remove v k (sector_map l)) s')).
  { apply (remove_loop_ok _ s l [] l); try done; [cbn; lia|lia]. }
  destruct ((v =? 0) && (PairCount (mcb s) >? 0)) eqn:E; [|exact Hloop].
  destruct l as [|q l' _] using rev_ind; [cbn [length] in HP'; lia|].
  rewrite length_app in HP'. cbn [length] in HP'. pose proof (holds_length _ _ _ H).
  rewrite HP' in Hloop |- *. step. rewrite Z.geb_leb. destruct (Z.leb_spec (NextVbn q) n) as [L|L]; [|exact Hloop].
  destruct (holds_truncated s [] _ 0 H eq_refl) as (s' & Es & Hs'). rewrite Es. cbn.
  exists []. split; [done|]. split; [done|]. intros x. unfold f_remove. cbn. unfold sector_map at 1. cbn.
  destruct (Z.ltb_spec x 0) as [Lx|Lx].
  - rewrite (proj2 (Z.leb_gt v x)) by lia. cbn. unfold sector_map. by rewrite (proj2 (Z.ltb_lt x 0)) by lia.
  - destruct ((v <=? x) && (x <? v + n)) eqn:E2; [done|]. rewrite map_beyond; [done|done|]. rewrite endv_app. cbn. lia.
Qed.
End Remove.
End McbRemove.
