(* ===== verification/FsRtlMcbOps.v ===== *)
(** * Map control blocks: truncating, splitting, initialising

    Module [McbOps] proves FsRtlTruncateBaseMcb, which never fails,
    FsRtlSplitBaseMcb, and the routines that set up and tear down an MCB. *)

From S2P Require Import Prelude FsRtlMcb FsRtlMcbRuns FsRtlMcbExec FsRtlMcbRemove.
#[local] Open Scope Z_scope.

Module McbOps.
Import Mcb McbRuns McbExec McbRemove.

Lemma above_truncate e v : e <= v -> above e (f_truncate v).
Proof.
  intros He. split.
  - intros g x Hx. unfold f_truncate. by rewrite (proj2 (Z.ltb_lt x v)) by lia.
  - intros g g' x Hx Hg. unfold f_truncate. by rewrite Hg.
Qed.
Lemma above_split e v n : e <= v -> 0 <= n -> above e (f_split v n).
Proof.
  intros He Hn. split.
  - intros g x Hx. unfold f_split. by rewrite (proj2 (Z.ltb_lt x v)) by lia.
  - intros g g' x Hx Hg. unfold f_split. destruct (Z.ltb_spec x v), (Z.ltb_spec x (v + n)); auto. apply Hg. lia.
Qed.

Section Ops.
Context (answer : nat -> Z -> option (Z -> MAPPING)).
Hypothesis pool_bound : forall n bytes, answer n bytes <> None -> bytes <= 2 ^ 31.

(** ** Truncating *)

Lemma shrink_ok s l : holds s l -> exists s', shrink answer s = Ok tt s' /\ holds s' l.
Proof using pool_bound.
  intros H. pose proof H as (junk & o & HM & HP & HX & HB & Ho). unfold shrink. erewrite bind_ok by done.
  unfold INITIAL_MAXIMUM_PAIR_COUNT in *. rewrite HP. rewrite length_app in HX.
  destruct ((Z.of_nat (length l) <? MaximumPairCount (mcb s) / 4) && (MaximumPairCount (mcb s) >? 15)) eqn:E.
  2: { by exists s. }
  assert (o = PoolMapping) as -> by (destruct o; [destruct (proj1 Ho eq_refl); lia|done]).
  rewrite (u32_small (_ * 2)) by lia. set (N := if _ <? 15 then 15 else _).
  assert (HN : 15 <= N <= 2 ^ 28 /\ Z.of_nat (length l) <= N /\ (N = 15 \/ 16 <= N)).
  { unfold N. destruct (Z.ltb_spec (Z.of_nat (length l) * 2) 15); [zdiv|]. split_and!; try zdiv. }
  set (o' := if (N =? 15) && (PoolType (mcb s) =? PagedPool) then FirstMapping else PoolMapping).
  assert (Ea : (if (N =? 15) && (PoolType (mcb s) =? PagedPool) then FsRtlAllocateFirstMapping answer
      else FsRtlpAllocatePool answer (u32 (SIZEOF_MAPPING * N))) = allocate_mapping answer o' (SIZEOF_MAPPING * N)).
  { rewrite (u32_small (SIZEOF_MAPPING * N)) by (unfold SIZEOF_MAPPING; lia).
    unfold o'. destruct ((N =? 15) && _) eqn:E2; [|done]. unfold FsRtlAllocateFirstMapping, INITIAL_MAXIMUM_PAIR_COUNT.
    by replace N with 15 by lia. }
  rewrite Ea. unfold try_allocate, bind at 1.
  destruct (allocate_mapping_ok answer pool_bound o' N s) as [(new & -> & Hn & _)| ->]; [lia|unfold SIZEOF_MAPPING; lia| |].
  2: { exists (mkState (mcb s) (S (calls s))). split; [done|exact H]. }
  set (s1 := mkState _ _). assert (H1 : holds s1 l) by exact H.
  erewrite bind_ok; [|unfold the_buffer, bind, s1; cbn; rewrite HM; done].
  rewrite (bind_ok _ _ _ _ _ (copy_ok s1 PoolMapping o' l junk new ltac:(lia))).
  erewrite bind_ok; [|done].
  destruct (replace_ok s1 l junk PoolMapping o' new N H1 HM Hn) as (s' & E' & H' & _); [unfold INITIAL_MAXIMUM_PAIR_COUNT; lia|lia| |].
  - unfold o', INITIAL_MAXIMUM_PAIR_COUNT, s1. cbn.
    destruct ((N =? 15) && (PoolType (mcb s) =? PagedPool)) eqn:E2; split; try done; try lia.
  - by exists s'.
Qed.

Lemma truncate_beyond l v : wf_runs l -> endv 0 l <= v -> fmap_eq (sector_map l) (f_truncate v (sector_map l)).
Proof. intros Hwf He x. unfold f_truncate. destruct (Z.ltb_spec x v); [done|]. apply map_beyond; [done|lia]. Qed.

Lemma spec_shrink s f R : means f s -> spec (shrink answer s) (fun _ s' => means f s') R.
Proof using pool_bound.
  intros (l & H & Hwf & E). destruct (shrink_ok s l H) as (s' & -> & H'). by exists l.
Qed.

Lemma FsRtlTruncateBaseMcb_ok s l v : holds s l -> wf_runs l -> 0 <= v < 2 ^ 32 ->
  spec (FsRtlTruncateBaseMcb answer v s) (fun _ s' => means (f_truncate v (sector_map l)) s') (fun _ => False).
Proof using pool_bound.
  intros H Hwf Hv. unfold FsRtlTruncateBaseMcb. rewrite (u32_small v) by lia. erewrite bind_ok by done.
  apply spec_bind. apply (spec_weaken _ (fun _ s' => means (f_truncate v (sector_map l)) s') _ (fun _ => False)); [| |done].
  2: { intros [] s' Hs'. by apply spec_shrink. }
  destruct (Z.eqb_spec v 0) as [-> |Hv0].
  { destruct (holds_truncated s [] l 0 H eq_refl) as (s' & -> & Hs'). cbn. exists []. split; [done|]. split; [done|].
    intros x. unfold f_truncate, sector_map. cbn. by destruct (x <? 0). }
  rewrite (holds_count s [] l H). cbn [length]. rewrite Z.gtb_ltb.
  destruct (Z.ltb_spec 0 (Z.of_nat 0 + Z.of_nat (length l))) as [Hl|Hl].
  2: { apply spec_ret. exists l. split; [done|]. split; [done|]. apply truncate_beyond; [done|]. destruct l; [cbn; lia|cbn [length] in Hl; lia]. }
  rewrite (u32_small (v - 1)) by lia. apply (spec_find _ s l); [done|done|lia| |].
  2: { intros He. apply spec_ret. exists l. split; [done|]. split; [done|]. apply truncate_beyond; [done|lia]. }
  intros pre m post -> Hm. destruct (turn_facts _ _ _ _ H Hwf) as (Hc & He & Hmx & Hmb & Hp & Hpk & HL).
  step. fold (hole m). destruct (hole m) eqn:Em.
  - destruct (holds_truncated s pre _ _ H eq_refl) as (s' & -> & Hs'). cbn.
    rewrite <- (app_nil_r pre) in Hs'. eapply (replace_runs _ _ pre _ []); [by apply above_truncate; lia|done|done|done|done|].
    intros x Hx. cbn. unfold f_truncate. rewrite Em. destruct (Z.ltb_spec x v), (Z.ltb_spec x (NextVbn m)); try done; lia.
  - assert (H2 : holds s ((pre ++ [m]) ++ post)) by (by rewrite <- app_assoc).
    destruct (holds_truncated s _ _ (u32 (Z.of_nat (length pre) + 1)) H2 ltac:(idx)) as (s' & Es & Hs').
    rewrite (bind_ok _ _ _ _ _ Es). clear H2. step. unfold kind_after, hole, UNUSED_LBN in *. rewrite Em in Hp, Hpk. rewrite Z.gtb_ltb.
    destruct (Z.ltb_spec v (NextVbn m)) as [L|L].
    + apply spec_tail. step. apply spec_ret. eapply (replace_runs _ _ pre (m :: post)); [apply above_truncate; lia|done|eassumption|..].
      * runs_chain_cases.
      * runs_chain_cases.
      * den_cases.
    + apply spec_ret. assert (v = NextVbn m) as -> by lia.
      eapply (replace_runs _ _ pre (m :: post) [m]); [apply above_truncate; lia|done|eassumption|..].
      * runs_chain_cases.
      * runs_chain_cases.
      * den_cases.
Qed.

(** ** Splitting *)

Definition shift (a : Z) : list MAPPING -> list MAPPING := map (fun m => mkMapping (NextVbn m + a) (Lbn m)).

Lemma endv_shift a s l : endv (s + a) (shift a l) = endv s l + a.
Proof. revert s. induction l as [|m l IH]; intros s; cbn; auto. Qed.
Lemma kind_after_shift a s m : kind_after (s + a) (mkMapping (NextVbn m + a) (Lbn m)) = kind_after s m.
Proof. unfold kind_after, hole. cbn. by replace (NextVbn m + a - (s + a)) with (NextVbn m - s) by lia. Qed.
Lemma last_kind_shift a s p l : last_kind (s + a) p (shift a l) = last_kind s p l.
Proof.
  revert s p. induction l as [|m l IH]; intros s p; [done|]. cbn [shift map last_kind].
  rewrite kind_after_shift. apply IH.
Qed.
Lemma runs_chain_shift a s p l : 0 <= a -> runs_chain s p l -> endv s l + a < 2 ^ 32 -> runs_chain (s + a) p (shift a l).
Proof.
  intros Ha. revert s p. induction l as [|m l IH]; intros s p Hc He; [done|]. cbn [shift map runs_chain].
  destruct Hc as [[Hm Hb] Hc]. cbn [endv] in He. pose proof (runs_chain_endv _ _ _ Hc). split.
  - unfold pair_ok, hole in *. cbn [NextVbn Lbn]. split; [lia|]. destruct (Lbn m =? UNUSED_LBN); [done|]. 
    destruct Hb as (H1 & H2 & H3). split_and!; [lia|lia|done].
  - rewrite kind_after_shift. by apply IH.
Qed.
Lemma den_shift a s l x : den (s + a) (shift a l) x = den s l (x - a).
Proof.
  revert s. induction l as [|m l IH]; intros s; [done|]. cbn [shift map den]. unfold hole. cbn [NextVbn Lbn].
  replace (x <? NextVbn m + a) with (x - a <? NextVbn m) by lia. rewrite <- IH.
  by replace (x - (s + a)) with (x - a - s) by lia.
Qed.
Lemma runs_chain_bound s p l : runs_chain s p l -> Forall (fun m => s < NextVbn m <= endv s l) l.
Proof.
  revert s p. induction l as [|m l IH]; intros s p Hc; [done|]. destruct Hc as [[Hm _] Hc].
  pose proof (runs_chain_endv _ _ _ Hc). constructor; [cbn; lia|]. eapply List.Forall_impl; [|by eapply IH]. cbn. intros q Hq. lia.
Qed.

(** The loop adds [a] to the pairs from the index on. *)
Lemma shift_pairs_ok fuel s pre rest a : holds s (pre ++ rest) -> (length rest < fuel)%nat ->
  Forall (fun m => 0 <= NextVbn m + a < 2 ^ 32) rest ->
  exists s', shift_pairs fuel (Z.of_nat (length pre)) a s = Ok tt s' /\ holds s' (pre ++ shift a rest).
Proof.
  revert s pre rest. induction fuel as [|fuel IH]; intros s pre rest H Hf Hr; [lia|].
  pose proof (holds_length _ _ _ H) as HL. cbn [shift_pairs]. erewrite bind_ok by done. rewrite (holds_count _ _ _ H).
  destruct rest as [|m rest].
  - cbn [length]. rewrite (proj2 (Z.ltb_ge _ _)) by lia. by exists s.
  - cbn [length] in *. rewrite (proj2 (Z.ltb_lt _ _)) by lia. apply List.Forall_cons_iff in Hr as [Hm Hr].
    erewrite (bind_ok (rd _)) by (eapply (rd_ok _ _ _ H _ 0%nat); [lia|done]). unfold wr_NextVbn. rewrite bind_assoc.
    erewrite (bind_ok (rd _)) by (eapply (rd_ok _ _ _ H _ 0%nat); [lia|done]).
    destruct (wr_ok s pre (m :: rest) (Z.of_nat (length pre)) 0 m (mkMapping (u32 (NextVbn m + a)) (Lbn m)) H ltac:(lia) eq_refl)
      as (s1 & E1 & H1).
    rewrite (bind_ok _ _ _ _ _ E1). cbn [insert list_insert] in H1. rewrite (u32_small (NextVbn m + a)) in H1 by lia.
    replace (u32 (Z.of_nat (length pre) + 1)) with (Z.of_nat (length (pre ++ [mkMapping (NextVbn m + a) (Lbn m)])))
      by (rewrite length_app; cbn [length]; wrap; lia).
    destruct (IH s1 (pre ++ [mkMapping (NextVbn m + a) (Lbn m)]) rest) as (s' & E & H'); [by rewrite <- app_assoc|lia|done|].
    exists s'. rewrite E. split; [done|]. by rewrite <- app_assoc in H'.
Qed.

(** What open_hole leaves: the pairs [rest] from the index it returns still have to
    be moved by [a]. *)
Definition opened (l : list MAPPING) (v a i : Z) (s' : state) : Prop :=
  exists base rest, i = Z.of_nat (length base) /\ holds s' (base ++ rest) /\
    Forall (fun m => 0 <= NextVbn m + a < 2 ^ 32) rest /\
    wf_runs (base ++ shift a rest) /\ fmap_eq (sector_map (base ++ shift a rest)) (f_split v a (sector_map l)).

Lemma opened_new l v a i s' base mid rest old : wf_runs l -> l = base ++ old -> endv 0 base <= v -> 0 <= a ->
  holds s' (base ++ mid ++ rest) -> i = Z.of_nat (length (base ++ mid)) ->
  Forall (fun m => 0 <= NextVbn m + a < 2 ^ 32) rest ->
  runs_chain (endv 0 base) (last_kind 0 KStart base) (mid ++ shift a rest) ->
  last_kind (endv 0 base) (last_kind 0 KStart base) (mid ++ shift a rest) <> KHole ->
  (forall x, endv 0 base <= x -> den (endv 0 base) (mid ++ shift a rest) x = f_split v a (den (endv 0 base) old) x) ->
  opened l v a i s'.
Proof.
  intros Hwf -> He Ha Hs Hi Hr Hc Hk Hd.
  destruct (replaced_runs _ _ _ _ (above_split _ v a He Ha) Hwf Hc Hk Hd) as [H1 H2].
  exists (base ++ mid), rest. rewrite <- !app_assoc. done.
Qed.

Lemma open_hole_ok s pre m post v a : holds s (pre ++ m :: post) -> wf_runs (pre ++ m :: post) ->
  endv 0 pre <= v < NextVbn m -> 0 < a -> endv 0 (pre ++ m :: post) + a < 2 ^ 32 ->
  spec (open_hole answer (Z.of_nat (length pre)) v a s)
    (fun i s' => opened (pre ++ m :: post) v a i s') (fun s' => holds s' (pre ++ m :: post)).
Proof using pool_bound.
  intros H Hwf Hv Ha Hend. destruct (turn_facts _ _ _ _ H Hwf) as (Hc & He & Hmx & Hmb & Hp & Hpk & HL).
  rewrite endv_app in Hend. cbn [endv] in Hend. pose proof (runs_chain_endv _ _ _ Hp) as HE.
  assert (Hrest : Forall (fun m => 0 <= NextVbn m + a < 2 ^ 32) (m :: post)).
  { constructor; [lia|]. eapply List.Forall_impl; [|by eapply runs_chain_bound]. cbn. intros q Hq. lia. }
  pose proof (Forall_inv_tail Hrest) as Hrest'.
  pose proof (runs_chain_shift a _ _ _ ltac:(lia) Hp Hend) as Hps.
  rewrite <- (last_kind_shift a) in Hpk.
  unfold open_hole. step. step. rewrite (bind_ok _ _ _ _ _ (PreviousEndingLbn_ok _ _ _ H Hc _ eq_refl)).
  unfold startv. cbn [take endv]. fold (hole m). destruct (hole m) eqn:Em.
  { apply spec_ret. unfold kind_after in Hps, Hpk. rewrite Em in Hps, Hpk. unfold hole, UNUSED_LBN in *.
    eapply (opened_new _ _ _ _ _ pre [] (m :: post) (m :: post)); [done|done|lia|lia|done|by rewrite app_nil_r|done|..]; cbn [app shift map].
    + cbn [runs_chain]. unfold pair_ok, kind_after, hole, UNUSED_LBN. cbn [NextVbn Lbn]. rewrite Em. split; [split; [lia|done]|done].
    + cbn [last_kind]. unfold kind_after, hole, UNUSED_LBN. cbn [NextVbn Lbn]. by rewrite Em.
    + intros x Hx. cbn [den NextVbn Lbn]. change (map _ post) with (shift a post). rewrite den_shift. unfold f_split, hole, UNUSED_LBN. cbn [NextVbn Lbn den]. rewrite Em.
      destruct (Z.ltb_spec x v), (Z.ltb_spec x (v + a)), (Z.ltb_spec x (NextVbn m + a)), (Z.ltb_spec x (NextVbn m)),
        (Z.ltb_spec (x - a) (NextVbn m)); try done; lia. }
  unfold kind_after in Hps, Hpk. rewrite Em in Hps, Hpk. unfold hole, UNUSED_LBN in Em, Hmb.
  destruct ((endv 0 pre =? v) && negb (Z.of_nat (length pre) =? 0) && (prev_lbn (last_kind 0 KStart pre) =? UNUSED_LBN)) eqn:E1.
  { assert (Ek : last_kind 0 KStart pre = KHole).
    { destruct (prev_cases _ Hc) as [(Ek & _)|(_ & Ep)]; [done|]. lia. }
    destruct (prev_hole _ Hc Ek) as (pre' & h & Epre & Hc' & He' & Hh & Hhl & Hk' & Eh). unfold UNUSED_LBN in *.
    assert (Hl : Z.of_nat (length pre) = Z.of_nat (length pre') + 1) by (rewrite Epre, length_app; cbn; lia).
    apply spec_ret. eapply (opened_new _ _ _ _ _ pre' [] (h :: m :: post) (h :: m :: post));
      [done|by rewrite Epre, <- app_assoc|lia|lia|by rewrite Epre, <- app_assoc in H|rewrite app_nil_r; idx| |..]; cbn [app shift map].
    + constructor; [lia|done].
    + cbn [runs_chain]. change (map _ post) with (shift a post). runs_chain_cases.
    + cbn [last_kind]. change (map _ post) with (shift a post). runs_chain_cases.
    + intros x Hx. cbn [den NextVbn Lbn]. change (map _ post) with (shift a post). rewrite den_shift. revert x Hx. den_cases. }
  assert (Ek : endv 0 pre = v -> last_kind 0 KStart pre <> KHole).
  { intros Ev. destruct (prev_cases _ Hc) as [(Ek & Et & Ep)|(Ek & _)]; [|done]. exfalso.
    assert (Z.of_nat (length pre) <> 0) by (destruct pre; [done|cbn [length]; lia]). lia. }
  clear E1. rewrite (u32_small (v + a)) by lia. unfold UNUSED_LBN in *. destruct (Z.eqb_spec (endv 0 pre) v) as [E2|E2].
  - specialize (Ek E2). add_entry 1; [|done]. steps. apply spec_ret.
    eapply (opened_new _ _ _ _ _ pre [mkMapping (v + a) 4294967295] (m :: post) (m :: post));
      [done|done|lia|lia|eassumption|idx|done|..]; cbn [app shift map].
    + cbn [runs_chain]. change (map _ post) with (shift a post). runs_chain_cases.
    + cbn [last_kind]. change (map _ post) with (shift a post). runs_chain_cases.
    + intros x Hx. cbn [den NextVbn Lbn]. change (map _ post) with (shift a post). rewrite den_shift. revert x Hx. den_cases.
  - add_entry 2; [|done]. steps. apply spec_ret. unfold startv in *. cbn [take endv NextVbn] in *.
    rewrite (u32_small (Lbn m + v - endv 0 pre)) in * by lia.
    eapply (opened_new _ _ _ _ _ pre [mkMapping v (Lbn m); mkMapping (v + a) 4294967295]
      (mkMapping (NextVbn m) (Lbn m + v - endv 0 pre) :: post) (m :: post));
      [done|done|lia|lia|eassumption|idx|constructor; [cbn; lia|done]|..]; cbn [app shift map].
    + cbn [runs_chain]. change (map _ post) with (shift a post). runs_chain_cases.
    + cbn [last_kind]. change (map _ post) with (shift a post). runs_chain_cases.
    + intros x Hx. cbn [den NextVbn Lbn]. change (map _ post) with (shift a post). rewrite den_shift. revert x Hx. den_cases.
Qed.

Lemma FsRtlSplitBaseMcb_ok s l v a : holds s l -> wf_runs l -> 0 <= v < 2 ^ 32 -> 0 < a -> endv 0 l + a < 2 ^ 32 ->
  spec (FsRtlSplitBaseMcb answer v a s)
    (fun r s' => if r then v < endv 0 l /\ means (f_split v a (sector_map l)) s' else endv 0 l <= v /\ holds s' l)
    (fun s' => holds s' l).
Proof using pool_bound.
  intros H Hwf Hv Ha He. pose proof (runs_chain_endv _ _ _ (proj1 Hwf)). unfold FsRtlSplitBaseMcb. rewrite !u32_small by lia.
  apply (spec_find _ s l); [done|done|lia| |].
  2: { intros Hb. by apply spec_ret. }
  intros pre m post -> Hm. apply spec_bind.
  eapply spec_weaken; [apply (open_hole_ok s pre m post v a); done| |done].
  intros i s1 (base & rest & -> & H1 & Hf & Hwf' & Ef). erewrite bind_ok by done. rewrite (holds_count _ _ _ H1).
  destruct (shift_pairs_ok (S (Z.to_nat (Z.of_nat (length base) + Z.of_nat (length rest)))) s1 base rest a H1 ltac:(lia) Hf)
    as (s2 & E & H2).
  rewrite (bind_ok _ _ _ _ _ E). apply spec_ret. cbn. split; [|by eexists].
  destruct (turn_facts _ _ _ _ H Hwf) as (_ & _ & _ & _ & Hp & _). apply runs_chain_endv in Hp. rewrite endv_app. cbn. lia.
Qed.

(** ** Setting up and tearing down *)

Lemma FsRtlInitializeBaseMcb_ok s t :
  spec (FsRtlInitializeBaseMcb answer t s)
    (fun _ s' => PoolType (mcb s') = t /\ holds s' []) (fun s' => PairCount (mcb s') = 0).
Proof using pool_bound.
  unfold FsRtlInitializeBaseMcb. set (o := if t =? PagedPool then FirstMapping else PoolMapping).
  assert (Ea : (if t =? PagedPool then FsRtlAllocateFirstMapping answer
     else FsRtlpAllocatePool answer (SIZEOF_MAPPING * INITIAL_MAXIMUM_PAIR_COUNT)) =
     allocate_mapping answer o (SIZEOF_MAPPING * INITIAL_MAXIMUM_PAIR_COUNT)) by (unfold o; by destruct (t =? PagedPool)).
  rewrite Ea. do 2 (erewrite bind_ok; [|done]). apply spec_bind. set (s1 := mkState _ _).
  destruct (allocate_mapping_ok answer pool_bound o INITIAL_MAXIMUM_PAIR_COUNT s1) as [(new & -> & Hn & _)| ->]; [done|done| |done].
  cbn. split; [done|]. exists new, o. cbn. rewrite Hn. split_and!; try done.
  unfold o. destruct (Z.eqb_spec t PagedPool); split; try done. by intros [? _].
Qed.
(** The buffer goes back where it came from. *)
Lemma FsRtlUninitializeBaseMcb_ok s l : holds s l ->
  exists s', FsRtlUninitializeBaseMcb s = Ok tt s' /\ Mapping (mcb s') = None.
Proof.
  intros (junk & o & HM & HP & HX & HB & Ho). unfold FsRtlUninitializeBaseMcb. erewrite bind_ok by done.
  erewrite bind_ok; [|unfold the_buffer, bind; cbn; rewrite HM; done].
  rewrite (bind_ok _ _ _ _ _ (free_ok _ _ _ Ho (l ++ junk) s)). by eexists.
Qed.
End Ops.
End McbOps.
