(* ===== verification/FsRtlMcbQuery.v ===== *)
(** * Map control blocks: the queries

    Module [McbQuery] describes the runs of a partial function from Vbn to Lbn
    ([maximal_run], [nth_run]) and proves that the queries of the base package
    report them: the lookup of a Vbn, the last mapping, the run of an index and the
    number of runs. *)

From S2P Require Import Prelude FsRtlMcb FsRtlMcbRuns FsRtlMcbExec FsRtlMcbRemove.
#[local] Open Scope Z_scope.

Module McbQuery.
Import Mcb McbRuns McbExec McbRemove.

(** ** Runs of a partial function *)

(** The value at [x] that continues a run, or a hole, from [start]. *)
Definition run_value (lb : option Z) (start x : Z) : option Z := option_map (fun b => b + (x - start)) lb.
Definition maximal_run (f : Z -> option Z) (start c : Z) (lb : option Z) : Prop :=
  0 <= start /\ 0 < c /\ (forall x, start <= x < start + c -> f x = run_value lb start x) /\
  f (start + c) <> run_value lb start (start + c) /\
  (start = 0 \/ f (start - 1) <> run_value lb start (start - 1)).
(** The [i]-th run counted from Vbn 0, holes included. *)
Fixpoint nth_run (f : Z -> option Z) (i : nat) (start c : Z) (lb : option Z) : Prop :=
  maximal_run f start c lb /\
  match i with
  | O => start = 0
  | S i => exists start' c' lb', nth_run f i start' c' lb' /\ start = start' + c'
  end.
(** An Lbn as a LONGLONG, -1 for a hole. *)
Definition large_lbn (lb : option Z) : Z := match lb with Some b => b | None => -1 end.

Definition lookup_spec (f : Z -> option Z) (v : Z) (r : option lookup_result) : Prop :=
  match r with
  | None => ~ mapped_from f v
  | Some r =>
      mapped_from f v /\ LargeLbn r = large_lbn (f v) /\
      exists start lb, maximal_run f start (LargeCountFromStartingLbn r) lb /\
        start <= v < start + LargeCountFromStartingLbn r /\
        LargeSectorCount r = start + LargeCountFromStartingLbn r - v /\
        LargeStartingLbn r = large_lbn lb
  end.
Definition last_spec (f : Z -> option Z) (r : option (Z * Z)) : Prop :=
  match r with
  | None => forall x, f x = None
  | Some (v, b) => f v = Some b /\ forall x, v < x -> f x = None
  end.
Definition next_spec (f : Z -> option Z) (i : Z) (r : option (Z * Z * Z)) : Prop :=
  match r with
  | None => forall start c lb, ~ nth_run f (Z.to_nat i) start c lb
  | Some (v, l, n) => exists lb, nth_run f (Z.to_nat i) v n lb /\ l = large_lbn lb
  end.
Definition count_spec (f : Z -> option Z) (n : Z) : Prop :=
  0 <= n /\ (forall i, Z.of_nat i < n <-> exists start c lb, nth_run f i start c lb).

(** ** The queries on the pairs *)

Definition pair_lbn (m : MAPPING) : option Z := if hole m then None else Some (Lbn m).

Lemma maximal_at pre m post : wf_runs (pre ++ m :: post) ->
  maximal_run (sector_map (pre ++ m :: post)) (endv 0 pre) (NextVbn m - endv 0 pre) (pair_lbn m).
Proof.
  intros Hwf. pose proof Hwf as [Hc Hk]. apply runs_chain_app in Hc as [Hc [Hm Hp]]. pose proof (runs_chain_endv _ _ _ Hc).
  pose proof Hm as [Hmx Hmb]. rewrite last_kind_app in Hk. unfold maximal_run, run_value, pair_lbn.
  replace (endv 0 pre + (NextVbn m - endv 0 pre)) with (NextVbn m) by lia. split_and!; [lia|lia| | |].
  - intros x Hx. rewrite map_at by (done || lia). by destruct (hole m).
  - rewrite map_after by (done || lia). pose proof (no_continuation _ _ _ _ Hm Hp Hk) as Hn. by destruct (hole m).
  - destruct pre as [|q pre' _] using rev_ind; [by left|right].
    rewrite <- app_assoc in Hwf |- *. cbn [app] in *. apply runs_chain_app in Hc as [Hc' [[Hq Hqb] _]].
    rewrite endv_app in *. cbn [endv] in *. rewrite last_kind_app in Hmb. cbn in Hmb. unfold kind_after in Hmb.
    rewrite map_at by (done || lia). destruct (hole q), (hole m); cbn; try done.
    intros [= E]. apply (proj2 (proj2 Hmb)). f_equal. lia.
Qed.
Lemma maximal_unique f start c lb c' lb' : maximal_run f start c lb -> maximal_run f start c' lb' -> c = c' /\ lb = lb'.
Proof.
  intros (H0 & Hc & Hf & Hn & _) (_ & Hc' & Hf' & Hn' & _).
  assert (lb = lb') as <-.
  { pose proof (Hf start ltac:(lia)) as E. rewrite (Hf' start ltac:(lia)) in E. unfold run_value in E.
    destruct lb, lb'; cbn in E; try done. injection E as E. f_equal. lia. }
  split; [|done]. destruct (Z.lt_trichotomy c c') as [L|[L|L]]; [|done|]; exfalso.
  - apply Hn, Hf'. lia.
  - apply Hn', Hf. lia.
Qed.
Lemma no_run_beyond l c lb : wf_runs l -> ~ maximal_run (sector_map l) (endv 0 l) c lb.
Proof.
  intros Hwf (H0 & Hc & Hf & Hn & _). pose proof (Hf (endv 0 l) ltac:(lia)) as E. rewrite map_beyond in E by (done || lia).
  destruct lb; [done|]. apply Hn. rewrite map_beyond by (done || lia). done.
Qed.
Lemma mapped_iff l v : wf_runs l -> 0 <= v -> mapped_from (sector_map l) v <-> v < endv 0 l.
Proof.
  intros Hwf Hv. split.
  - intros (x & Hx & Hf). destruct (Z.lt_ge_cases v (endv 0 l)); [done|]. exfalso. apply Hf. apply map_beyond; [done|lia].
  - intros Hl. pose proof Hwf as [Hc Hk]. destruct (nonempty_mapped _ _ _ Hc Hk) as (x & Hx & Hd); [by destruct l; [cbn in Hl; lia|]|].
    exists (endv 0 l - 1). split; [lia|]. unfold sector_map. rewrite (proj2 (Z.ltb_ge _ 0)) by lia.
    destruct (last_kind 0 KStart l) as [| |e] eqn:Ek; [|done|].
    + destruct l as [|q l _] using rev_ind; [cbn in Hl; lia|]. rewrite last_kind_app in Ek. cbn in Ek. unfold kind_after in Ek. by destruct (hole q).
    + rewrite (den_last _ _ _ _ Hc Ek); [done|]. by destruct l; [cbn in Hl; lia|].
Qed.

(** The runs of the meaning are the pairs. *)
Lemma nth_run_pair l i start c lb : wf_runs l ->
  nth_run (sector_map l) i start c lb <->
  exists m, l !! i = Some m /\ start = vbn l i /\ c = NextVbn m - start /\ lb = pair_lbn m.
Proof.
  intros Hwf. assert (Hat : forall i m, l !! i = Some m -> maximal_run (sector_map l) (vbn l i) (NextVbn m - vbn l i) (pair_lbn m)).
  { intros j m Hj. rewrite <- (take_drop_middle l j m Hj) at 1. unfold vbn. apply maximal_at. by rewrite take_drop_middle. }
  assert (Huniq : forall j c lb, (j <= length l)%nat -> maximal_run (sector_map l) (vbn l j) c lb ->
    exists m, l !! j = Some m /\ c = NextVbn m - vbn l j /\ lb = pair_lbn m).
  { intros j c' lb' Hj Hm. destruct (l !! j) as [m|] eqn:E.
    - exists m. split; [done|]. exact (maximal_unique _ _ _ _ _ _ Hm (Hat _ _ E)).
    - apply lookup_ge_None in E. exfalso. apply (no_run_beyond l c' lb' Hwf). unfold vbn in Hm. by rewrite take_ge in Hm by lia. }
  revert start c lb. induction i as [|i IH]; intros start c lb; cbn [nth_run].
  - split.
    + intros [Hm ->]. destruct (Huniq 0%nat c lb ltac:(lia) Hm) as (m & H1 & H2 & H3). by exists m.
    + intros (m & Hm & -> & -> & ->). split; [by apply Hat|done].
  - split.
    + intros [Hm (s' & c' & lb' & Hr & ->)]. apply IH in Hr as (m & Hi & -> & -> & ->).
      replace (vbn l i + (NextVbn m - vbn l i)) with (vbn l (S i)) in * by (rewrite (vbn_step l i m Hi); lia).
      apply lookup_lt_Some in Hi. destruct (Huniq (S i) c lb ltac:(lia) Hm) as (m' & H1 & H2 & H3). by exists m'.
    + intros (m & Hm & -> & -> & ->). split; [by apply Hat|].
      destruct (lookup_lt_is_Some_2 l i) as [q Hq]; [apply lookup_lt_Some in Hm; lia|].
      exists (vbn l i), (NextVbn q - vbn l i), (pair_lbn q). split; [apply IH; by exists q|]. rewrite (vbn_step l i q Hq). lia.
Qed.

Lemma FsRtlLookupBaseMcbEntry_ok s l v : holds s l -> wf_runs l -> 0 <= v < 2 ^ 32 ->
  exists r, FsRtlLookupBaseMcbEntry v s = Ok r s /\ lookup_spec (sector_map l) v r.
Proof.
  intros H Hwf Hv. unfold FsRtlLookupBaseMcbEntry. rewrite (u32_small v) by lia.
  destruct (locate_vbn l v Hwf ltac:(lia)) as [(pre & m & post & -> & Hm)|He].
  2: { rewrite (bind_ok _ _ _ _ _ (find_end s l v H Hwf ltac:(lia) He)). exists None. split; [done|]. cbn.
    rewrite mapped_iff by (done || lia). lia. }
  rewrite (bind_ok _ _ _ _ _ (find_at s pre m post v H Hwf ltac:(lia) Hm)).
  destruct (turn_facts _ _ _ _ H Hwf) as (Hc & He & Hmx & Hmb & Hp & _ & HL).
  erewrite (bind_ok (StartingLbn _)) by (eapply (StartingLbn_ok _ _ _ H _ 0%nat); [idx|done]).
  erewrite (bind_ok (StartingVbn _)) by (eapply (StartingVbn_ok _ _ _ H _ 0%nat); [idx|cbn; lia]).
  erewrite (bind_ok (EndingVbn _)) by (eapply (EndingVbn_ok _ _ _ H _ 0%nat); [idx|done|lia]).
  unfold startv. cbn [take endv]. eexists. split; [done|]. cbn [lookup_spec LargeLbn LargeSectorCount LargeStartingLbn LargeCountFromStartingLbn].
  fold (hole m). split.
  { apply mapped_iff; [done|lia|]. rewrite endv_app. cbn. apply runs_chain_endv in Hp. lia. }
  rewrite (u32_small (NextVbn m - 1 - endv 0 pre + 1)) by lia. rewrite map_at by done. split.
  { destruct (hole m) eqn:Em; [done|]. cbn. unfold UNUSED_LBN in *. wrap. done. }
  exists (endv 0 pre), (pair_lbn m). replace (NextVbn m - 1 - endv 0 pre + 1) with (NextVbn m - endv 0 pre) by lia. split_and!.
  - by apply maximal_at.
  - lia.
  - lia.
  - wrap. lia.
  - unfold pair_lbn. by destruct (hole m).
Qed.

Lemma FsRtlLookupLastBaseMcbEntry_ok s l : holds s l -> wf_runs l ->
  exists r, FsRtlLookupLastBaseMcbEntry s = Ok r s /\ last_spec (sector_map l) r.
Proof.
  intros H Hwf. unfold FsRtlLookupLastBaseMcbEntry. erewrite bind_ok by done. rewrite (holds_count s [] l H). cbn [length].
  rewrite Z.gtb_ltb, Z.add_0_l. destruct l as [|q l _] using rev_ind.
  { cbn. exists None. split; [done|]. intros x. unfold sector_map. by destruct (x <? 0). }
  rewrite length_app. cbn [length]. rewrite (proj2 (Z.ltb_lt _ _)) by lia.
  destruct (turn_facts _ _ _ _ H Hwf) as (Hc & He & Hmx & Hmb & _ & Hk & HL). cbn in Hk. unfold kind_after in Hk.
  destruct (hole q) eqn:Eq; [done|]. rewrite (u32_small (_ - 1)) by (cbn in HL; lia).
  erewrite (bind_ok (EndingLbn _)).
  2: { eapply (EndingLbn_ok _ _ _ H _ 0%nat); [lia|done|cbn; lia|lia|]. intros _. cbn. lia. }
  erewrite (bind_ok (EndingVbn _)) by (eapply (EndingVbn_ok _ _ _ H _ 0%nat); [lia|done|lia]).
  unfold startv. cbn [take endv]. rewrite Eq. eexists. split; [done|]. cbn. split.
  - rewrite map_at by (done || lia). rewrite Eq. f_equal. lia.
  - intros x Hx. apply map_beyond; [done|]. rewrite endv_app. cbn. lia.
Qed.

Lemma FsRtlGetNextBaseMcbEntry_ok s l i : holds s l -> wf_runs l -> 0 <= i < 2 ^ 32 ->
  exists r, FsRtlGetNextBaseMcbEntry i s = Ok r s /\ next_spec (sector_map l) i r.
Proof.
  intros H Hwf Hi. unfold FsRtlGetNextBaseMcbEntry. erewrite bind_ok by done. rewrite (holds_count s [] l H). cbn [length].
  rewrite Z.add_0_l. destruct (Z.ltb_spec i (Z.of_nat (length l))) as [L|L].
  2: { exists None. split; [done|]. intros start c lb Hr. apply nth_run_pair in Hr as (m & Hm & _); [|done].
    apply lookup_lt_Some in Hm. lia. }
  destruct (lookup_lt_is_Some_2 l (Z.to_nat i) ltac:(lia)) as [m Hm].
  pose proof (vbn_range l _ (proj1 Hwf) _ _ Hm) as Hr. set (k := Z.to_nat i) in *. assert (Ei : i = Z.of_nat (length (@nil MAPPING)) + Z.of_nat k) by (cbn; lia).
  erewrite (bind_ok (StartingVbn _)) by (eapply (StartingVbn_ok s [] l H _ k); [done|lia]).
  erewrite (bind_ok (StartingLbn _)) by (eapply (StartingLbn_ok s [] l H _ k); done).
  change (startv [] l k) with (vbn l k).
  erewrite (bind_ok (SectorsWithinRun _)) by (eapply (SectorsWithinRun_ok s [] l H _ k); [done|done|change (startv [] l k) with (vbn l k); lia|lia]).
  change (startv [] l k) with (vbn l k).
  eexists. split; [done|]. cbn. exists (pair_lbn m). fold k. unfold extend, pair_lbn. rewrite (proj2 (Z.eqb_neq (vbn l k) _)) by (unfold UNUSED_LBN; lia). split.
  - apply nth_run_pair; [done|]. by exists m.
  - fold (hole m). by destruct (hole m).
Qed.

Lemma FsRtlNumberOfRunsInBaseMcb_ok s l : holds s l -> wf_runs l ->
  FsRtlNumberOfRunsInBaseMcb s = Ok (Z.of_nat (length l)) s /\ count_spec (sector_map l) (Z.of_nat (length l)).
Proof.
  intros H Hwf. split; [unfold FsRtlNumberOfRunsInBaseMcb, bind, get; by rewrite (holds_count s [] l H)|].
  split; [lia|]. intros i. split.
  - intros Hi. destruct (lookup_lt_is_Some_2 l i ltac:(lia)) as [m Hm]. do 3 eexists. apply nth_run_pair; [done|]. by exists m.
  - intros (start & c & lb & Hr). apply nth_run_pair in Hr as (m & Hm & _); [|done]. apply lookup_lt_Some in Hm. lia.
Qed.

(** The specifications depend on the function only. *)
Lemma maximal_run_ext f g start c lb : fmap_eq f g -> maximal_run f start c lb -> maximal_run g start c lb.
Proof.
  intros E (H1 & H2 & H3 & H4 & H5). split_and!; try done; rewrite <- ?E; try done.
  intros x Hx. rewrite <- E. auto.
Qed.
Lemma nth_run_ext f g i start c lb : fmap_eq f g -> nth_run f i start c lb -> nth_run g i start c lb.
Proof.
  intros E. revert start c lb. induction i as [|i IH]; intros start c lb [Hm H]; split; try by eapply maximal_run_ext.
  - done.
  - destruct H as (s' & c' & lb' & H & Es). exists s', c', lb'. auto.
Qed.
Lemma mapped_from_ext f g v : fmap_eq f g -> mapped_from f v -> mapped_from g v.
Proof. intros E (x & Hx & Hf). exists x. by rewrite <- E. Qed.
Lemma lookup_spec_ext f g v r : fmap_eq f g -> lookup_spec f v r -> lookup_spec g v r.
Proof.
  intros E. assert (E' : fmap_eq g f) by (by symmetry). destruct r as [r|]; cbn.
  - intros (H1 & H2 & start & lb & H3 & H4). split; [by eapply mapped_from_ext|]. split; [by rewrite <- E|].
    exists start, lb. split; [by eapply maximal_run_ext|done].
  - intros H1 H2. apply H1. by eapply mapped_from_ext.
Qed.
Lemma last_spec_ext f g r : fmap_eq f g -> last_spec f r -> last_spec g r.
Proof.
  intros E. destruct r as [[v b]|]; cbn.
  - intros [H1 H2]. split; [by rewrite <- E|]. intros x Hx. rewrite <- E. auto.
  - intros H x. by rewrite <- E.
Qed.
Lemma next_spec_ext f g i r : fmap_eq f g -> next_spec f i r -> next_spec g i r.
Proof.
  intros E. assert (E' : fmap_eq g f) by (by symmetry). destruct r as [[[v l] n]|]; cbn.
  - intros (lb & H1 & H2). exists lb. split; [by eapply nth_run_ext|done].
  - intros H start c lb H1. eapply H. by eapply nth_run_ext.
Qed.
Lemma count_spec_ext f g n : fmap_eq f g -> count_spec f n -> count_spec g n.
Proof.
  intros E [H0 H]. split; [done|]. assert (E' : fmap_eq g f) by (by symmetry). intros i. rewrite (H i). 
  split; intros (start & c & lb & Hr); exists start, c, lb; by eapply nth_run_ext.
Qed.
Lemma acceptable_ext f g v b n : fmap_eq f g -> acceptable f v b n -> acceptable g v b n.
Proof.
  intros E (k & Hk & Hor). exists k. split; [done|]. destruct Hor as [[Ha Hu]|[Hu Ha]]; [left|right]; split; intros x Hx; rewrite <- E; auto.
Qed.
End McbQuery.
