(* ===== verification/FsRtlMcbSpec.v ===== *)
(** * Map control blocks: the contract of the package

    Module [McbSpec] states what the large package promises in terms of the
    partial function from Vbn to Lbn alone: [mcb_refines_map] for every sequence of
    requests, [mcb_order_independent] for mappings added in different orders,
    [mcb_raise_spec] for the exhaustion of memory and [mcb_small_lookup] for the
    small package.  The last section has the boundary cases the code does not
    guard. *)

From S2P Require Import Prelude FsRtlMcb FsRtlMcbRuns FsRtlMcbExec FsRtlMcbAdd FsRtlMcbRemove FsRtlMcbOps FsRtlMcbQuery.
From Stdlib Require Import Permutation.
#[local] Open Scope Z_scope.

Module McbSpec.
Import Mcb McbRuns McbExec McbAdd McbRemove McbOps McbQuery.

(** ** Requests and replies *)

Inductive op :=
  | OAdd (v b n : Z) | ORemove (v n : Z) | OTruncate (v : Z) | OSplit (v a : Z) | OReset
  | OLookup (v : Z) | OLast | ORuns | ONext (i : Z).
Inductive reply :=
  | RUnit | RBool (r : bool) | RLookup (r : option lookup_result) | RLast (r : option (Z * Z))
  | RCount (n : Z) | RNext (r : option (Z * Z * Z)).

Definition serve (answer : nat -> Z -> option (Z -> MAPPING)) (o : op) : LM reply :=
  match o with
  | OAdd v b n => lmap RBool (FsRtlAddLargeMcbEntry answer v b n)
  | ORemove v n => lmap (fun _ => RUnit) (FsRtlRemoveLargeMcbEntry answer v n)
  | OTruncate v => lmap (fun _ => RUnit) (FsRtlTruncateLargeMcb answer v)
  | OSplit v a => lmap RBool (FsRtlSplitLargeMcb answer v a)
  | OReset => lmap (fun _ => RUnit) (FsRtlResetLargeMcb false)
  | OLookup v => lmap RLookup (FsRtlLookupLargeMcbEntry v)
  | OLast => lmap RLast FsRtlLookupLastLargeMcbEntry
  | ORuns => lmap RCount FsRtlNumberOfRunsInLargeMcb
  | ONext i => lmap RNext (FsRtlGetNextLargeMcbEntry i)
  end.

(** Legal requests.  An addition has at least one sector, its last Vbn and Lbn are
    below 2^32 - 1, and its Lbn is not 0, which the description of
    FsRtlAddBaseMcbEntry calls illegal; a split moves the mapping by at least one
    sector and no further than the Vbns reach.  The section on boundary cases has
    what the code does with an empty addition, the Lbn 0 and an empty split. *)
Definition legal (f : Z -> option Z) (o : op) : Prop :=
  match o with
  | OAdd v b n => request v b n
  | ORemove v n => 0 <= v < 2 ^ 32 /\ 0 <= n < 2 ^ 32
  | OTruncate v | OLookup v => 0 <= v < 2 ^ 32
  | OSplit v a => 0 <= v < 2 ^ 32 /\ 0 < a < 2 ^ 32 /\ forall x, f x <> None -> x + 1 + a < 2 ^ 32
  | ONext i => 0 <= i < 2 ^ 32
  | OReset | OLast | ORuns => True
  end.

(** What a request does to the partial function and what it replies. *)
Definition abs_step (f : Z -> option Z) (o : op) (r : reply) (f' : Z -> option Z) : Prop :=
  match o, r with
  | OAdd v b n, RBool true => acceptable f v b n /\ fmap_eq f' (f_add v b n f)
  | OAdd v b n, RBool false => ~ acceptable f v b n /\ fmap_eq f' f
  | ORemove v n, RUnit => fmap_eq f' (f_remove v n f)
  | OTruncate v, RUnit => fmap_eq f' (f_truncate v f)
  | OSplit v a, RBool true => mapped_from f v /\ fmap_eq f' (f_split v a f)
  | OSplit v a, RBool false => ~ mapped_from f v /\ fmap_eq f' f
  | OReset, RUnit => fmap_eq f' (fun _ => None)
  | OLookup v, RLookup q => lookup_spec f v q /\ fmap_eq f' f
  | OLast, RLast q => last_spec f q /\ fmap_eq f' f
  | ORuns, RCount n => count_spec f n /\ fmap_eq f' f
  | ONext i, RNext q => next_spec f i q /\ fmap_eq f' f
  | _, _ => False
  end.

(** ** The large package on a partial function *)

Definition base (s : lstate) : state := mkState (BaseMcb (large s)) (lcalls s).
Definition lmeans (f : Z -> option Z) (s : lstate) : Prop := GuardedMutex (large s) = false /\ means f (base s).

(** Every request of the sequence is served as on the partial function, until one
    raises for lack of memory; in the end the MCB can be torn down. *)
Fixpoint served (answer : nat -> Z -> option (Z -> MAPPING)) (f : Z -> option Z) (ops : list op) (s : lstate) : Prop :=
  match ops with
  | [] => exists s', FsRtlUninitializeLargeMcb s = Ok tt s' /\ Mapping (BaseMcb (large s')) = None
  | o :: ops =>
      legal f o ->
      match serve answer o s with
      | Ok r s' => exists f', abs_step f o r f' /\ served answer f' ops s'
      | Raise e _ => e = STATUS_INSUFFICIENT_RESOURCES /\
          match o with OAdd _ _ _ | ORemove _ _ | OSplit _ _ => True | _ => False end
      | Fault | Blocked | NoFuel => False
      end
  end.

(** *** From the base package to the large one *)

Lemma run_base_spec {A} (m : M A) s b Q R : GuardedMutex (large s) = false -> spec (m (base s)) Q R ->
  match run_base b m s with
  | Ok a s' => Q a (base s') /\ GuardedMutex (large s') = false
  | Raise e s' => e = STATUS_INSUFFICIENT_RESOURCES /\ R (base s') /\ GuardedMutex (large s') = b
  | Fault | Blocked | NoFuel => False
  end.
Proof.
  intros Hm Hs. unfold run_base. fold (base s). destruct (m (base s)) as [a s'|e s'| | |]; cbn in *; try done.
  - rewrite Hm. by destruct s'.
  - destruct Hs. by destruct s'.
Qed.

(** [good o s f m]: the reply of [m], on an MCB that means [f], is right. *)
Definition good (f : Z -> option Z) (o : op) (x : outcome lstate reply) : Prop :=
  match x with
  | Ok r s' => exists f', abs_step f o r f' /\ lmeans f' s'
  | Raise e _ => e = STATUS_INSUFFICIENT_RESOURCES /\
      match o with OAdd _ _ _ | ORemove _ _ | OSplit _ _ => True | _ => False end
  | Fault | Blocked | NoFuel => False
  end.

Lemma good_run {A} f o (m : M A) (k : A -> reply) (s : lstate) b Q R : lmeans f s -> spec (m (base s)) Q R ->
  (forall a s', Q a s' -> exists f', abs_step f o (k a) f' /\ means f' s') ->
  (forall s', R s' -> match o with OAdd _ _ _ | ORemove _ _ | OSplit _ _ => True | _ => False end) ->
  good f o (lmap k (fun s => if GuardedMutex (large s) then Blocked else run_base b m s) s).
Proof.
  intros [Hm _] Hs Hk HR. unfold lmap. rewrite Hm. pose proof (run_base_spec m s b Q R Hm Hs) as Hr.
  destruct (run_base b m s) as [a s'|e s'| | |]; cbn; try done.
  - destruct Hr as [Hq Hg]. destruct (Hk _ _ Hq) as (f' & H1 & H2). by exists f'.
  - destruct Hr as (-> & Hr & _). split; [done|by eapply HR].
Qed.

(** A query: the state stays, and the reply depends on the function only. *)
Lemma good_query {A} f o (m : M A) (k : A -> reply) (s : lstate) b P :
  lmeans f s -> (forall l, holds (base s) l -> wf_runs l -> exists r, m (base s) = Ok r (base s) /\ P (sector_map l) r) ->
  (forall g r, fmap_eq g f -> P g r -> abs_step f o (k r) f) ->
  good f o (lmap k (fun s => if GuardedMutex (large s) then Blocked else run_base b m s) s).
Proof.
  intros Hf Hm HP. pose proof Hf as [_ (l & Hl & Hwf & E)]. destruct (Hm l Hl Hwf) as (r & Er & Hr).
  apply (good_run f o m k s b (fun a s' => a = r /\ s' = base s) (fun _ => False)); [done| | |done].
  - by rewrite Er.
  - intros a s' [-> ->]. exists f. split; [by eapply HP|]. by exists l.
Qed.

Lemma endv_legal f l a : wf_runs l -> fmap_eq (sector_map l) f -> 0 < a < 2 ^ 32 ->
  (forall x, f x <> None -> x + 1 + a < 2 ^ 32) -> endv 0 l + a < 2 ^ 32.
Proof.
  intros Hwf E Ha H. destruct (Z.lt_ge_cases 0 (endv 0 l)) as [L|L]; [|lia].
  pose proof (proj2 (mapped_iff l (endv 0 l - 1) Hwf ltac:(lia)) ltac:(lia)) as (x & Hx & Hf).
  rewrite E in Hf. specialize (H _ Hf). lia.
Qed.

Section Pool.
Context (answer : nat -> Z -> option (Z -> MAPPING)).
Hypothesis pool_bound : forall n bytes, answer n bytes <> None -> bytes <= 2 ^ 31.

Lemma serve_good f o s : lmeans f s -> legal f o -> good f o (serve answer o s).
Proof using pool_bound.
  intros Hf Hl. pose proof Hf as [Hg (l & H & Hwf & E)]. assert (E' : fmap_eq f (sector_map l)) by (by symmetry).
  destruct o as [v b n|v n|v|v a| |v| | |i]; cbn [serve legal] in *.
  - eapply (good_run f _ (FsRtlAddBaseMcbEntry answer v b n) RBool); [done|by apply FsRtlAddBaseMcbEntry_ok| |done].
    intros [] s' [Ha Hs]; [exists (f_add v b n (sector_map l))|exists f]; cbn; (split; [split|]).
    + by eapply acceptable_ext.
    + by rewrite E.
    + done.
    + intros Ha'. apply Ha. by eapply acceptable_ext.
    + done.
    + by exists l.
  - unfold FsRtlRemoveLargeMcbEntry. rewrite !u32_small by lia.
    eapply (good_run f _ _ (fun _ => RUnit)); [done|apply FsRtlRemoveBaseMcbEntry_ok; [done|exact H|done|lia|lia]| |done].
    intros [] s' Hs. exists (f_remove v n (sector_map l)). split; [cbn; by rewrite E|done].
  - eapply (good_run f _ _ (fun _ => RUnit)); [done|apply FsRtlTruncateBaseMcb_ok; [done|exact H|done|lia]| |done].
    intros [] s' Hs. exists (f_truncate v (sector_map l)). split; [cbn; by rewrite E|done].
  - destruct Hl as (Hv & Ha & Hx). pose proof (endv_legal f l a Hwf E Ha Hx).
    eapply (good_run f _ _ RBool); [done|apply FsRtlSplitBaseMcb_ok; [done|exact H|done|lia|lia|lia]| |done].
    intros [] s' [He Hs]; [exists (f_split v a (sector_map l))|exists f]; cbn; (split; [split|]).
    + eapply mapped_from_ext; [exact E|]. apply mapped_iff; [done|lia|done].
    + by rewrite E.
    + done.
    + intros Hm. eapply mapped_from_ext in Hm; [|exact E']. apply mapped_iff in Hm; [lia|done|lia].
    + done.
    + by exists l.
  - eapply (good_run f _ (set_PairCount 0) (fun _ => RUnit) s true (fun _ s' => means (fun _ => None) s') (fun _ => False)); [done| | |done].
    + destruct (holds_truncated _ [] l 0 H eq_refl) as (s' & -> & Hs'). cbn. exists []. split; [done|]. split; [done|].
      intros x. unfold sector_map. by destruct (x <? 0).
    + intros [] s' Hs. by exists (fun _ => None).
  - apply (good_query f _ (FsRtlLookupBaseMcbEntry v) RLookup s true (fun g r => lookup_spec g v r)); [done| |].
    + intros l' H' Hwf'. by apply FsRtlLookupBaseMcbEntry_ok.
    + intros g r Eg Hr. split; [by eapply lookup_spec_ext|done].
  - apply (good_query f _ FsRtlLookupLastBaseMcbEntry RLast s false last_spec); [done| |].
    + intros l' H' Hwf'. by apply FsRtlLookupLastBaseMcbEntry_ok.
    + intros g r Eg Hr. split; [by eapply last_spec_ext|done].
  - apply (good_query f _ FsRtlNumberOfRunsInBaseMcb RCount s true count_spec); [done| |].
    + intros l' H' Hwf'. exists (Z.of_nat (length l')). by apply FsRtlNumberOfRunsInBaseMcb_ok.
    + intros g r Eg Hr. split; [by eapply count_spec_ext|done].
  - apply (good_query f _ (FsRtlGetNextBaseMcbEntry i) RNext s true (fun g r => next_spec g i r)); [done| |].
    + intros l' H' Hwf'. by apply FsRtlGetNextBaseMcbEntry_ok.
    + intros g r Eg Hr. split; [by eapply next_spec_ext|done].
Qed.

Lemma served_ok ops f s : lmeans f s -> served answer f ops s.
Proof using pool_bound.
  revert f s. induction ops as [|o ops IH]; intros f s Hf; cbn [served].
  - destruct Hf as [_ (l & H & _)]. destruct (FsRtlUninitializeBaseMcb_ok _ _ H) as (s' & E & Hs').
    unfold FsRtlUninitializeLargeMcb, run_base. fold (base s). rewrite E. by eexists.
  - intros Hl. pose proof (serve_good f o s Hf Hl) as Hg. destruct (serve answer o s); try done.
    destruct Hg as (f' & H1 & H2). exists f'. split; [done|by apply IH].
Qed.

Lemma initialized_means t s s' : FsRtlInitializeLargeMcb answer t s = Ok tt s' -> lmeans (fun _ => None) s'.
Proof using pool_bound.
  intros E. unfold FsRtlInitializeLargeMcb in E. set (s0 := mkLState _ _) in E.
  pose proof (run_base_spec (FsRtlInitializeBaseMcb answer t) s0 false _ _ eq_refl (FsRtlInitializeBaseMcb_ok answer pool_bound (base s0) t)) as Hr.
  rewrite E in Hr. destruct Hr as [[_ Hs] Hg]. split; [done|]. exists []. split; [done|]. split; [done|].
  intros x. unfold sector_map. by destruct (x <? 0).
Qed.
End Pool.

(** ** The theorems *)

(** C12: The MCB refines a partial function from Vbn to Lbn: after initialisation, every sequence of legal
    requests is served as on the partial function, without a fault, until one raises for lack of memory, and the
    buffer can be given back in the end.  Legal are additions of at least one sector with Vbns and Lbns below
    2^32 - 1 and an Lbn other than 0, splits by at least one sector after which the Vbns still fit, and all
    removals, truncations, resets and queries with 32-bit arguments.  A lookup of a Vbn in a hole replies with the
    Lbn -1, as the large package does (the description of the base package says 0).  The pool never hands out more
    than 2^31 bytes at once. *)
Theorem mcb_refines_map (answer : nat -> Z -> option (Z -> MAPPING)) (t : Z) (s s' : lstate) (ops : list op) :
  (forall n bytes, answer n bytes <> None -> bytes <= 2 ^ 31) ->
  FsRtlInitializeLargeMcb answer t s = Ok tt s' ->
  served answer (fun _ => None) ops s'.
Proof. intros Hp E. apply served_ok; [done|]. by eapply initialized_means. Qed.

(** A pool that has memory for requests of up to 2^31 bytes. *)
Definition roomy (n : nat) (bytes : Z) : option (Z -> MAPPING) :=
  if bytes <=? 2 ^ 31 then Some (fun i => mkMapping (17 * i) 88) else None.
Lemma roomy_bound n bytes : roomy n bytes <> None -> bytes <= 2 ^ 31.
Proof. unfold roomy. destruct (Z.leb_spec bytes (2 ^ 31)); [done|]. by intros []. Qed.
Definition blank : lstate := mkLState (mkLarge false (mkBase 0 0 0 None)) 0.

Lemma mcb_refines_map_witness :
  exists s', FsRtlInitializeLargeMcb roomy PagedPool blank = Ok tt s' /\
    served roomy (fun _ => None) [OAdd 0 107 1; OAdd 2 109 1; OAdd 1 108 1; OLookup 1; ORuns; OSplit 1 5; ORemove 0 1] s'.
Proof.
  eexists. split; [reflexivity|]. apply (mcb_refines_map roomy PagedPool blank); [exact roomy_bound|reflexivity].
Defined.

(** *** The order of additions *)

(** Adding a list of mappings; the result is whether all were taken. *)
Fixpoint add_all (answer : nat -> Z -> option (Z -> MAPPING)) (rs : list (Z * Z * Z)) : LM bool := fun s =>
  match rs with
  | [] => Ok true s
  | (v, b, n) :: rs =>
      match FsRtlAddLargeMcbEntry answer v b n s with
      | Ok true s' => add_all answer rs s'
      | x => x
      end
  end.
(** The pairs the MCB holds. *)
Definition pairs (s : lstate) : list MAPPING :=
  match Mapping (BaseMcb (large s)) with
  | Some b => take (Z.to_nat (PairCount (BaseMcb (large s)))) (slots b)
  | None => []
  end.

Lemma pairs_holds s l : holds (base s) l -> pairs s = l.
Proof.
  intros (junk & o & HM & HP & _). unfold base in *. cbn in *. unfold pairs. rewrite HM, HP. cbn [slots].
  by rewrite Nat2Z.id, take_app_length.
Qed.

Definition covers (r : Z * Z * Z) (x : Z) : Prop := let '(v, _, n) := r in v <= x < v + n.
Definition value (r : Z * Z * Z) (x : Z) : Z := let '(v, b, _) := r in b + (x - v).

Lemma f_add_extends f v b n x c : acceptable f v b n -> f x = Some c -> f_add v b n f x = Some c.
Proof.
  intros Ha Hf. unfold f_add. destruct ((v <=? x) && (x <? v + n)) eqn:E; [|done]. f_equal.
  destruct (Z.eq_dec c (b + (x - v))) as [|Hne]; [done|]. exfalso. eapply (conflict f v b n x c); try done. lia.
Qed.

Section Order.
Context (answer : nat -> Z -> option (Z -> MAPPING)).
Hypothesis pool_bound : forall n bytes, answer n bytes <> None -> bytes <= 2 ^ 31.

Lemma add_all_map rs f s s' : lmeans f s -> Forall (fun '(v, b, n) => request v b n) rs -> add_all answer rs s = Ok true s' ->
  exists g, lmeans g s' /\ (forall x c, f x = Some c -> g x = Some c) /\
    (forall x r, In r rs -> covers r x -> g x = Some (value r x)) /\
    (forall x, (forall r, In r rs -> ~ covers r x) -> g x = f x).
Proof using pool_bound.
  revert f s. induction rs as [|[[v b] n] rs IH]; intros f s Hf Hr E; cbn [add_all] in E.
  - injection E as <-. exists f. split; [done|]. split; [done|]. split; [by intros x r []|done].
  - apply List.Forall_cons_iff in Hr as [Hr Hrs].
    pose proof (serve_good answer pool_bound f (OAdd v b n) s Hf Hr) as Hg. cbn [serve] in Hg. unfold lmap in Hg.
    destruct (FsRtlAddLargeMcbEntry answer v b n s) as [[] s1|e s1| | |] eqn:Es; try done.
    destruct Hg as (f1 & [Ha E1] & Hf1). destruct (IH f1 s1 Hf1 Hrs E) as (g & Hg & Hx & Hc & Hn).
    assert (Hat : forall x, covers (v, b, n) x -> g x = Some (value (v, b, n) x)).
    { intros x Hcx. cbn in Hcx. apply Hx. rewrite E1. unfold f_add.
      by rewrite (proj2 (Z.leb_le _ _)), (proj2 (Z.ltb_lt _ _)) by lia. }
    exists g. split; [done|]. split_and!.
    + intros x c Hfx. apply Hx. rewrite E1. by apply f_add_extends.
    + intros x r [<-|Hin] Hcx; [by apply Hat|by eapply Hc].
    + intros x Hno. rewrite Hn by (intros r Hin; apply Hno; by right). rewrite E1. unfold f_add.
      destruct ((v <=? x) && (x <? v + n)) eqn:Ex; [|done]. exfalso. apply (Hno (v, b, n)); [by left|]. cbn. lia.
Qed.
End Order.

(** C13: The runs do not depend on the order in which mappings were added: two MCBs with the same mapping
    that take the same legal additions in different orders end with the same pairs. *)
Theorem mcb_order_independent (answer : nat -> Z -> option (Z -> MAPPING)) (f : Z -> option Z)
    (rs rs' : list (Z * Z * Z)) (s1 s2 s1' s2' : lstate) :
  (forall n bytes, answer n bytes <> None -> bytes <= 2 ^ 31) ->
  lmeans f s1 -> lmeans f s2 -> Permutation rs rs' -> Forall (fun '(v, b, n) => request v b n) rs ->
  add_all answer rs s1 = Ok true s1' -> add_all answer rs' s2 = Ok true s2' ->
  pairs s1' = pairs s2'.
Proof.
  intros Hp H1 H2 Hperm Hr E1 E2.
  destruct (add_all_map answer Hp rs f s1 s1' H1 Hr E1) as (g & [_ (l & Hl & Hwf & El)] & _ & Hc & Hn).
  destruct (add_all_map answer Hp rs' f s2 s2' H2 (Permutation_Forall Hperm Hr) E2) as (g' & [_ (l' & Hl' & Hwf' & El')] & _ & Hc' & Hn').
  rewrite (pairs_holds _ _ Hl), (pairs_holds _ _ Hl'). apply runs_canonical; [done|done|].
  intros x. rewrite El, El'.
  destruct (List.Exists_dec (fun r => covers r x) rs) as [Hex|Hno].
  { intros [[v b] n]. cbn. destruct (Z_le_dec v x), (Z_lt_dec x (v + n)); [left; lia|right; lia..]. }
  - apply List.Exists_exists in Hex as (r & Hin & Hcx). rewrite (Hc x r Hin Hcx).
    symmetry. apply Hc'; [|done]. by eapply Permutation_in.
  - rewrite Hn, Hn'; [done| |].
    + intros r Hin Hcx. apply Hno. apply List.Exists_exists. exists r. split; [|done].
      eapply Permutation_in; [by symmetry|done].
    + intros r Hin Hcx. apply Hno. apply List.Exists_exists. by exists r.
Qed.

(** An MCB after its initialisation. *)
Definition fresh_mcb (t : Z) (answer : nat -> Z -> option (Z -> MAPPING)) : lstate :=
  match FsRtlInitializeLargeMcb answer t blank with Ok _ s => s | _ => blank end.
Lemma fresh_means t : lmeans (fun _ => None) (fresh_mcb t roomy).
Proof.
  apply (initialized_means roomy roomy_bound t blank). unfold fresh_mcb, FsRtlInitializeLargeMcb, run_base, FsRtlInitializeBaseMcb.
  by destruct (t =? PagedPool).
Qed.
Definition final (x : outcome lstate bool) : lstate := match x with Ok _ s => s | _ => blank end.

Lemma mcb_order_independent_witness :
  pairs (final (add_all roomy [(0, 107, 1); (2, 109, 1); (1, 108, 1)] (fresh_mcb PagedPool roomy))) =
  pairs (final (add_all roomy [(1, 108, 1); (0, 107, 1); (2, 109, 1)] (fresh_mcb PagedPool roomy))).
Proof.
  apply (mcb_order_independent roomy (fun _ => None) [(0, 107, 1); (2, 109, 1); (1, 108, 1)]
    [(1, 108, 1); (0, 107, 1); (2, 109, 1)] (fresh_mcb PagedPool roomy) (fresh_mcb PagedPool roomy)).
  - exact roomy_bound.
  - apply fresh_means.
  - apply fresh_means.
  - apply (perm_trans (l' := [(0, 107, 1); (1, 108, 1); (2, 109, 1)])); [apply perm_skip, perm_swap|apply perm_swap].
  - unfold request, UNUSED_LBN. repeat constructor; lia.
  - vm_compute. reflexivity.
  - vm_compute. reflexivity.
Defined.

(** *** Exhaustion of memory *)

Definition is_update (o : op) : bool := match o with OAdd _ _ _ | ORemove _ _ => true | _ => false end.

Lemma held_blocks answer o s : GuardedMutex (large s) = true -> serve answer o s = Blocked.
Proof. intros H. destruct o; unfold serve, lmap; cbn; unfold FsRtlAddLargeMcbEntry, FsRtlRemoveLargeMcbEntry, FsRtlTruncateLargeMcb,
  FsRtlSplitLargeMcb, FsRtlLookupLargeMcbEntry, FsRtlLookupLastLargeMcbEntry, FsRtlNumberOfRunsInLargeMcb, FsRtlGetNextLargeMcbEntry,
  locked, locked_finally; by rewrite H. Qed.

(** C14: When memory runs out, FsRtlAddLargeMcbEntry and FsRtlRemoveLargeMcbEntry raise with the mutex held, so that
    every later request waits for ever; the mapping is then the old one, for a removal without a front part of the
    range.  FsRtlSplitLargeMcb releases the mutex and leaves the mapping as it was. *)
Theorem mcb_raise_spec (answer : nat -> Z -> option (Z -> MAPPING)) (f : Z -> option Z) (o : op) (s s' : lstate) (e : Z) :
  (forall n bytes, answer n bytes <> None -> bytes <= 2 ^ 31) ->
  lmeans f s -> legal f o -> serve answer o s = Raise e s' ->
  e = STATUS_INSUFFICIENT_RESOURCES /\
  match o with
  | OAdd _ _ _ => means f (base s') /\ forall o', serve answer o' s' = Blocked
  | ORemove v n => (exists k, 0 <= k <= n /\ means (f_remove v k f) (base s')) /\ forall o', serve answer o' s' = Blocked
  | OSplit _ _ => lmeans f s'
  | _ => False
  end.
Proof.
  intros Hp Hf Hl E. pose proof (serve_good answer Hp f o s Hf Hl) as Hg. rewrite E in Hg. destruct Hg as [-> Ho]. split; [done|].
  pose proof Hf as [Hm (l & H & Hwf & Ef)].
  destruct o as [v b n|v n|v|v a| |v| | |i]; try done; cbn [serve legal] in *; unfold lmap in E.
  - unfold FsRtlAddLargeMcbEntry, locked in E. rewrite Hm in E.
    pose proof (run_base_spec _ s true _ _ Hm (FsRtlAddBaseMcbEntry_ok answer Hp (base s) v b n Hl l H Hwf)) as Hr.
    destruct (run_base _ _ s); try done. injection E as _ <-. destruct Hr as (_ & Hr & Hb).
    split; [by exists l|]. intros o'. by apply held_blocks.
  - unfold FsRtlRemoveLargeMcbEntry, locked in E. rewrite Hm in E. rewrite !u32_small in E by lia.
    pose proof (run_base_spec _ s true _ _ Hm (FsRtlRemoveBaseMcbEntry_ok answer Hp (base s) l v n H Hwf ltac:(lia) ltac:(lia))) as Hr.
    destruct (run_base _ _ s); try done. injection E as _ <-. destruct Hr as (_ & (k & Hk & Hr) & Hb).
    split; [|intros o'; by apply held_blocks]. exists k. split; [done|]. eapply means_ext; [|exact Hr]. by rewrite Ef.
  - unfold FsRtlSplitLargeMcb, locked_finally in E. rewrite Hm in E. destruct Hl as (Hv & Ha & Hx).
    pose proof (endv_legal f l a Hwf Ef Ha Hx) as He.
    pose proof (run_base_spec _ s false _ _ Hm (FsRtlSplitBaseMcb_ok answer Hp (base s) l v a H Hwf Hv ltac:(lia) He)) as Hr.
    destruct (run_base _ _ s); try done. injection E as _ <-. destruct Hr as (_ & Hr & Hb). split; [done|]. by exists l.
Qed.

(** A pool with memory for the first buffer only. *)
Definition scarce (n : nat) (bytes : Z) : option (Z -> MAPPING) := match n with O => roomy n bytes | _ => None end.
Lemma scarce_bound n bytes : scarce n bytes <> None -> bytes <= 2 ^ 31.
Proof. destruct n; [apply (roomy_bound 0)|done]. Qed.
(** Eight runs and the holes between them fill the first buffer. *)
Definition scattered : list (Z * Z * Z) :=
  [(0, 100, 1); (2, 100, 1); (4, 100, 1); (6, 100, 1); (8, 100, 1); (10, 100, 1); (12, 100, 1); (14, 100, 1)].
Definition full_mcb : lstate := Eval vm_compute in final (add_all scarce scattered (fresh_mcb PagedPool scarce)).
Lemma full_means : lmeans (sector_map (pairs full_mcb)) full_mcb.
Proof.
  split; [reflexivity|]. exists (pairs full_mcb). split; [|split; [|reflexivity]].
  - exists [], FirstMapping. split; [reflexivity|]. split; [reflexivity|]. split; [reflexivity|]. split; [vm_compute; split; discriminate|].
    split; [intros _; split; reflexivity|reflexivity].
  - split; [|discriminate]. vm_compute. repeat split; discriminate.
Qed.
Definition raised (x : outcome lstate reply) : lstate := match x with Raise _ s => s | _ => blank end.

Lemma mcb_raise_spec_witness :
  serve scarce (OAdd 20 500 1) full_mcb = Raise STATUS_INSUFFICIENT_RESOURCES (raised (serve scarce (OAdd 20 500 1) full_mcb)) /\
  (forall o', serve scarce o' (raised (serve scarce (OAdd 20 500 1) full_mcb)) = Blocked).
Proof.
  split; [vm_compute; reflexivity|].
  refine (proj2 (proj2 (mcb_raise_spec scarce (sector_map (pairs full_mcb)) (OAdd 20 500 1) full_mcb _ STATUS_INSUFFICIENT_RESOURCES
    scarce_bound full_means _ _))).
  - unfold legal, request, UNUSED_LBN. lia.
  - vm_compute. reflexivity.
Defined.

(** *** The small package *)

(** FsRtlLookupMcbEntry reports the Lbn of a sector as an ULONG, 0 exactly for a hole, and how many sectors
    follow in the same run. *)
Theorem mcb_small_lookup (f : Z -> option Z) (s : lstate) (v : Z) :
  lmeans f s -> 0 <= v < 2 ^ 32 ->
  exists r s', FsRtlLookupMcbEntry v s = Ok r s' /\ lmeans f s' /\
  match r with
  | None => ~ mapped_from f v
  | Some (L, n, i) =>
      mapped_from f v /\ 0 < n /\ (L = 0 <-> f v = None) /\ (forall b, f v = Some b <-> L = b /\ 0 < b) /\
      (forall x, v <= x < v + n -> f x = run_value (f v) v x) /\ f (v + n) <> run_value (f v) v (v + n)
  end.
Proof.
  intros Hf Hv. pose proof Hf as [Hm (l & H & Hwf & E)].
  destruct (FsRtlLookupBaseMcbEntry_ok (base s) l v H Hwf Hv) as (r & Er & Hr).
  unfold FsRtlLookupMcbEntry, lmap, FsRtlLookupLargeMcbEntry, locked. rewrite Hm. unfold run_base. fold (base s). rewrite Er.
  do 2 eexists. split; [done|]. split; [rewrite Hm; split; [done|by exists l]|].
  eapply lookup_spec_ext in Hr; [|exact E]. destruct r as [r|]; cbn; [|done].
  destruct Hr as (Hmf & HL & start & lb & (H0 & Hc & Hrun & Hn & _) & Hvs & HS & _). split; [done|].
  assert (Hbound : v + LargeSectorCount r < 2 ^ 32).
  { destruct (mapped_from_ext f (sector_map l) v) as (y & Hy & Hfy); [by symmetry|done|].
    destruct (Z.lt_ge_cases (start + LargeCountFromStartingLbn r) (2 ^ 32)); [lia|]. exfalso.
    pose proof (runs_chain_endv_max _ _ _ (proj1 Hwf) ltac:(lia)) as He.
    assert (Hb : forall x, endv 0 l <= x -> f x = None) by (intros x Hx; rewrite <- E; by apply map_beyond).
    assert (Hx : run_value lb start (start + LargeCountFromStartingLbn r - 1) = None).
    { rewrite <- Hrun by lia. apply Hb. lia. }
    destruct lb; [done|]. apply Hn. cbn. apply Hb. lia. }
  assert (Hfv : f v = run_value lb start v) by (apply Hrun; lia).
  assert (Hrange : forall b, f v = Some b -> 0 < b < UNUSED_LBN).
  { intros b Hb. rewrite <- E in Hb. unfold sector_map in Hb. rewrite (proj2 (Z.ltb_ge v 0)) in Hb by lia.
    apply (den_range 0 KStart l v b); [apply Hwf|lia|exact Hb]. }
  assert (HLv : small_lbn (LargeLbn r) = match f v with Some b => b | None => 0 end).
  { rewrite HL. unfold small_lbn, large_lbn. destruct (f v) as [b|]; [|done]. specialize (Hrange b eq_refl).
    unfold UNUSED_LBN in *. rewrite u32_small by lia. by rewrite (proj2 (Z.eqb_neq _ _)) by lia. }
  rewrite HLv, (u32_small (LargeSectorCount r)) by lia.
  assert (Hshift : forall x, run_value (f v) v x = run_value lb start x).
  { intros x. rewrite Hfv. destruct lb; cbn; [f_equal; lia|done]. }
  split_and!.
  - lia.
  - destruct (f v) as [b|]; [specialize (Hrange b eq_refl)|done]. split; [intros; exfalso; lia|done].
  - intros b. destruct (f v) as [c|]; [specialize (Hrange c eq_refl)|]; split; try done; try lia.
    + intros [= <-]. lia.
    + intros [-> _]. done.
  - intros x Hx. rewrite Hshift. apply Hrun. lia.
  - rewrite Hshift. replace (v + LargeSectorCount r) with (start + LargeCountFromStartingLbn r) by lia. done.
Qed.

Lemma mcb_small_lookup_witness :
  exists r s', FsRtlLookupMcbEntry 3 full_mcb = Ok r s' /\ lmeans (sector_map (pairs full_mcb)) s' /\
  match r with
  | None => ~ mapped_from (sector_map (pairs full_mcb)) 3
  | Some (L, n, i) =>
      mapped_from (sector_map (pairs full_mcb)) 3 /\ 0 < n /\ (L = 0 <-> sector_map (pairs full_mcb) 3 = None) /\
      (forall b, sector_map (pairs full_mcb) 3 = Some b <-> L = b /\ 0 < b) /\
      (forall x, 3 <= x < 3 + n -> sector_map (pairs full_mcb) x = run_value (sector_map (pairs full_mcb) 3) 3 x) /\
      sector_map (pairs full_mcb) (3 + n) <> run_value (sector_map (pairs full_mcb) 3) 3 (3 + n)
  end.
Proof. apply (mcb_small_lookup (sector_map (pairs full_mcb)) full_mcb 3); [exact full_means|lia]. Defined.

(** *** Boundary cases the code does not guard *)

Ltac computed :=
  lazymatch goal with
  | |- exists _, _ => eexists; computed
  | |- _ /\ _ => split; [vm_compute; reflexivity|computed]
  | |- _ => vm_compute; reflexivity
  end.

Definition one_run : lstate := Eval vm_compute in final (add_all roomy [(0, 100, 10)] (fresh_mcb PagedPool roomy)).

(** Splitting at Vbn 0 by no sectors puts an empty pair in front, whose EndingVbn is 2^32 - 1: a mapped sector is
    then reported as a hole of the size of the address space. *)
Theorem split_by_zero :
  exists s r, FsRtlLookupLargeMcbEntry 5 one_run = Ok (Some (mkLookup 105 5 100 10 0)) one_run /\
    FsRtlSplitLargeMcb roomy 0 0 one_run = Ok true s /\
    FsRtlLookupLargeMcbEntry 5 s = Ok (Some r) s /\ LargeLbn r = -1 /\ LargeSectorCount r = 2 ^ 32 - 5.
Proof. computed. Qed.

(** Adding no sectors at Vbn 0, where the Lbns agree, is taken as a run up to Vbn 2^32 - 1: sectors that were
    never added are mapped. *)
Theorem add_no_sectors :
  exists s r, FsRtlLookupLargeMcbEntry 1000 one_run = Ok None one_run /\
    FsRtlAddLargeMcbEntry roomy 0 100 0 one_run = Ok true s /\
    FsRtlLookupLargeMcbEntry 1000 s = Ok (Some r) s /\ LargeLbn r = 1100.
Proof. computed. Qed.

(** The Lbn 0 in front of a leading hole: the PreviousEndingLbn of index 0 is UNUSED_LBN, which plus 1 wraps to 0,
    so that the code takes the new run for the continuation of an earlier one and accesses Mapping[-1].  Without a
    hole at Vbn 0, or with the Lbn 1, the addition is taken. *)
Definition leading_hole : lstate := Eval vm_compute in final (add_all roomy [(5, 100, 10)] (fresh_mcb PagedPool roomy)).
Theorem add_lbn_zero :
  FsRtlAddLargeMcbEntry roomy 0 0 1 leading_hole = Fault /\
  exists s s', FsRtlAddLargeMcbEntry roomy 0 1 1 leading_hole = Ok true s /\
    FsRtlAddLargeMcbEntry roomy 0 0 1 (fresh_mcb PagedPool roomy) = Ok true s'.
Proof. split; [lazy; reflexivity|computed]. Qed.

(** The example in the description of the package: after Vbn 0 to Lbn 107 and Vbn 2 to Lbn 109, adding Vbn 1 to
    Lbn 106 leaves three runs, not one. *)
Theorem description_example :
  exists s s', add_all roomy [(0, 107, 1); (2, 109, 1); (1, 106, 1)] (fresh_mcb PagedPool roomy) = Ok true s /\
    FsRtlNumberOfRunsInLargeMcb s = Ok 3 s' /\
    pairs (final (add_all roomy [(0, 107, 1); (2, 109, 1); (1, 108, 1)] (fresh_mcb PagedPool roomy))) = [mkMapping 3 107].
Proof. computed. Qed.

(** FsRtlGetNextLargeMcbEntry stores nothing when the run does not exist, and a lookup in a hole reports the Lbn -1. *)
Theorem query_results :
  FsRtlGetNextLargeMcbEntry 1 one_run = Ok None one_run /\
  exists r, FsRtlLookupLargeMcbEntry 1 full_mcb = Ok (Some r) full_mcb /\ LargeLbn r = -1.
Proof. computed. Qed.

End McbSpec.
