(* ===== verification/ExRundown.v ===== *)
(** * Rundown protection (src/ntoskrnl/ex/rundown.c)

    A rundown reference is one pointer-sized word shared by the threads that
    use an object and the thread that tears it down.  While the low bit
    (EX_RUNDOWN_ACTIVE) is clear the word is twice the number of references;
    once rundown starts it is the address of a wait block on the stack of the
    waiting thread, tagged with that bit.

    The routines are loops around InterlockedCompareExchangePointer, so each is
    a step function that runs up to and including one access to shared memory;
    [step] interleaves any number of client threads with the thread that runs
    the object down.  A failed ASSERT and an access to a wait block that is not
    live are the outcome [None].  Words are 32 bits wide (x86). *)

From S2P Require Import Prelude.

Module Rundown.

Definition EX_RUNDOWN_ACTIVE : Z := 0x1.
Definition EX_RUNDOWN_COUNT_SHIFT : Z := 0x1.
Definition EX_RUNDOWN_COUNT_INC : Z := Z.shiftl 1 EX_RUNDOWN_COUNT_SHIFT.

Definition is_active (Value : Z) : bool := negb (Z.land Value EX_RUNDOWN_ACTIVE =? 0).

(** The wait block: Count, and WakeEvent once KeInitializeEvent has run on it
    (the boolean is its signal state). *)
Record EX_RUNDOWN_WAIT_BLOCK := mkWB { wbCount : Z; WakeEvent : option bool }.

(** Shared memory: the RunRef word and the waiter's stack block while live. *)
Record shared := mkSh { RunRef : Z; WaitBlock : option EX_RUNDOWN_WAIT_BLOCK }.

Definition set_RunRef (sh : shared) (w : Z) : shared := mkSh w (WaitBlock sh).
Definition set_WaitBlock (sh : shared) (wb : option EX_RUNDOWN_WAIT_BLOCK) : shared :=
  mkSh (RunRef sh) wb.

(** InterlockedCompareExchangePointer: the new memory and the value found. *)
Definition InterlockedCompareExchangePointer (sh : shared) (Exchange Comperand : Z) : shared * Z :=
  (if RunRef sh =? Comperand then set_RunRef sh Exchange else sh, RunRef sh).

(** ** Client threads *)

Inductive client_op :=
  | ExfAcquire
  | ExAcquireEx (Count : Z)
  | ExfRelease
  | ExReleaseEx (Count : Z).

Definition op_count (op : client_op) : Z :=
  match op with ExfAcquire | ExfRelease => 1 | ExAcquireEx n | ExReleaseEx n => n end.
Definition is_acquire (op : client_op) : bool :=
  match op with ExfAcquire | ExAcquireEx _ => true | _ => false end.

Inductive client_pc :=
  | Idle
  | Read (op : client_op)             (* before [Value = RunRef->Count] *)
  | Try (op : client_op) (Value : Z)  (* at the top of the do loop *)
  | Signal (op : client_op).          (* before KeSetEvent *)

(** [held] counts the references the thread has acquired and not yet given
    back; [ret] is the result of its last acquire. *)
Record client := mkCl { cpc : client_pc; held : Z; ret : option bool }.

Section WithWaiter.

(** The address of the wait block, and the number of processors the ASSERTs
    look at. *)
Variable WaitBlockAddress : Z.
Variable KeNumberProcessors : Z.

Definition ASSERT {A} (b : bool) (k : option A) : option A := if b then k else None.

(** Following a wait block pointer: only the live block can be read. *)
Definition deref (sh : shared) (p : Z) : option EX_RUNDOWN_WAIT_BLOCK :=
  if p =? WaitBlockAddress then WaitBlock sh else None.

(** The do loop of ExfAcquireRundownProtection and ExAcquireRundownProtectionEx,
    which differ in the amount added. *)
Definition ExAcquireRundownProtectionEx_loop (inc : Z) (sh : shared) (op : client_op)
    (Value : Z) (c : client) : option (shared * client) :=
  if is_active Value then Some (sh, mkCl Idle (held c) (Some false))
  else
    let NewValue := u32 (Value + inc) in
    let '(sh', NewValue) := InterlockedCompareExchangePointer sh NewValue Value in
    if NewValue =? Value then Some (sh', mkCl Idle (held c + op_count op) (Some true))
    else Some (sh', mkCl (Try op NewValue) (held c) (ret c)).

(** The do loop of ExfReleaseRundownProtection.  InterlockedDecrement returns
    the decremented LONG. *)
Definition ExfReleaseRundownProtection_loop (sh : shared) (op : client_op)
    (Value : Z) (c : client) : option (shared * client) :=
  if is_active Value then
    let p := Z.land Value (u32 (Z.lnot EX_RUNDOWN_ACTIVE)) in
    wb ← deref sh p;
    ASSERT ((wbCount wb >? 0) || (KeNumberProcessors >? 1))
      (let n := u32 (wbCount wb - 1) in
       let sh' := set_WaitBlock sh (Some (mkWB n (WakeEvent wb))) in
       Some (sh', mkCl (if s32 n =? 0 then Signal op else Idle) (held c - 1) (ret c)))
  else
    ASSERT ((Value >=? EX_RUNDOWN_COUNT_INC) || (KeNumberProcessors >? 1))
      (let NewValue := u32 (Value - EX_RUNDOWN_COUNT_INC) in
       let '(sh', NewValue) := InterlockedCompareExchangePointer sh NewValue Value in
       if NewValue =? Value then Some (sh', mkCl Idle (held c - 1) (ret c))
       else Some (sh', mkCl (Try op NewValue) (held c) (ret c))).

(** The do loop of ExReleaseRundownProtectionEx.  InterlockedExchangeAdd
    returns the LONG that was there before. *)
Definition ExReleaseRundownProtectionEx_loop (Count : Z) (sh : shared) (op : client_op)
    (Value : Z) (c : client) : option (shared * client) :=
  if is_active Value then
    let p := Z.land Value (u32 (Z.lnot EX_RUNDOWN_ACTIVE)) in
    wb ← deref sh p;
    ASSERT ((wbCount wb >=? Count) || (KeNumberProcessors >? 1))
      (let n := u32 (wbCount wb + - s32 Count) in
       let sh' := set_WaitBlock sh (Some (mkWB n (WakeEvent wb))) in
       Some (sh', mkCl (if s32 (wbCount wb) =? s32 Count then Signal op else Idle)
                       (held c - Count) (ret c)))
  else
    ASSERT ((Value >=? u32 (EX_RUNDOWN_COUNT_INC * Count)) || (KeNumberProcessors >? 1))
      (let NewValue := u32 (Value - u32 (EX_RUNDOWN_COUNT_INC * Count)) in
       let '(sh', NewValue) := InterlockedCompareExchangePointer sh NewValue Value in
       if NewValue =? Value then Some (sh', mkCl Idle (held c - Count) (ret c))
       else Some (sh', mkCl (Try op NewValue) (held c) (ret c))).

(** KeSetEvent on the block's event. *)
Definition KeSetEvent (sh : shared) : option shared :=
  wb ← WaitBlock sh;
  match WakeEvent wb with
  | Some _ => Some (set_WaitBlock sh (Some (mkWB (wbCount wb) (Some true))))
  | None => None
  end.

(** One step of a client thread that is inside a routine. *)
Definition client_step (sh : shared) (c : client) : option (shared * client) :=
  match cpc c with
  | Idle => Some (sh, c)
  | Read op => Some (sh, mkCl (Try op (RunRef sh)) (held c) (ret c))
  | Try op Value =>
      match op with
      | ExfAcquire => ExAcquireRundownProtectionEx_loop EX_RUNDOWN_COUNT_INC sh op Value c
      | ExAcquireEx n =>
          ExAcquireRundownProtectionEx_loop (u32 (EX_RUNDOWN_COUNT_INC * n)) sh op Value c
      | ExfRelease => ExfReleaseRundownProtection_loop sh op Value c
      | ExReleaseEx n => ExReleaseRundownProtectionEx_loop n sh op Value c
      end
  | Signal op => sh' ← KeSetEvent sh; Some (sh', mkCl Idle (held c) (ret c))
  end.

(** ** The thread that runs the object down *)

Inductive waiter_pc :=
  | WIdle                           (* not in the routine, object in use *)
  | WFast                           (* before the first compare exchange *)
  | WTry (Value : Z)                (* at the top of the slow-path loop *)
  | WBlocked                        (* in KeWaitForSingleObject *)
  | WDone.                          (* the routine has returned *)

(** ExfWaitForRundownProtectionRelease, one shared access at a time; [Some None]
    is a thread that stays blocked. *)
Definition ExfWaitForRundownProtectionRelease_step (sh : shared) (pc : waiter_pc)
    : option (option (shared * waiter_pc)) :=
  match pc with
  | WFast =>
      let '(sh', Value) := InterlockedCompareExchangePointer sh EX_RUNDOWN_ACTIVE 0 in
      if (Value =? 0) || (Value =? EX_RUNDOWN_ACTIVE)
      then Some (Some (set_WaitBlock sh' None, WDone))
      else Some (Some (sh', WTry Value))
  | WTry Value =>
      wb ← WaitBlock sh;
      let WaitCount := Z.shiftr Value EX_RUNDOWN_COUNT_SHIFT in
      let Event := if (WaitCount >? 0) && bool_decide (WakeEvent wb = None)
                   then Some false else WakeEvent wb in
      let sh := set_WaitBlock sh (Some (mkWB WaitCount Event)) in
      let NewValue := Z.lor WaitBlockAddress EX_RUNDOWN_ACTIVE in
      let '(sh', NewValue) := InterlockedCompareExchangePointer sh NewValue Value in
      if NewValue =? Value then
        if WaitCount >? 0 then Some (Some (sh', WBlocked))
        else Some (Some (set_WaitBlock sh' None, WDone))
      else ASSERT (negb (is_active NewValue)) (Some (Some (sh', WTry NewValue)))
  | WBlocked =>
      wb ← WaitBlock sh;
      match WakeEvent wb with
      | Some true =>
          ASSERT (wbCount wb =? 0) (Some (Some (set_WaitBlock sh None, WDone)))
      | Some false => Some None
      | None => None
      end
  | WIdle | WDone => Some None
  end.

Definition ExfInitializeRundownProtection : shared := mkSh 0 None.

Definition ExfReInitializeRundownProtection (sh : shared) : option shared :=
  ASSERT (is_active (RunRef sh)) (Some (set_RunRef sh 0)).

Definition ExfRundownCompleted (sh : shared) : option shared :=
  ASSERT (is_active (RunRef sh)) (Some (set_RunRef sh EX_RUNDOWN_ACTIVE)).

(** ** The system *)

Record state := mkSt { sh : shared; waiter : waiter_pc; clients : list client }.

Definition initial (n : nat) : state :=
  mkSt ExfInitializeRundownProtection WIdle (replicate n (mkCl Idle 0 None)).

(** References outstanding or being asked for. *)
Definition requested (c : client) : Z :=
  held c + match cpc c with
           | Read op | Try op _ => if is_acquire op then op_count op else 0
           | _ => 0
           end.

(** What the callers promise: a thread gives back only references it holds, a
    request is for at least one reference, and the references held or
    requested at any time fit the counter. *)
Definition may_call (s : state) (c : client) (op : client_op) : Prop :=
  1 <= op_count op /\
  if is_acquire op then zsum requested (clients s) + op_count op < 2 ^ 31
  else op_count op <= held c.

Inductive outcome := Running (s : state) | Fault.

Inductive step (s : state) : outcome -> Prop :=
  | step_call i c op :
      clients s !! i = Some c -> cpc c = Idle -> may_call s c op ->
      step s (Running (mkSt (sh s) (waiter s)
                            (<[i := mkCl (Read op) (held c) (ret c)]> (clients s))))
  | step_client i c sh' c' :
      clients s !! i = Some c -> client_step (sh s) c = Some (sh', c') ->
      step s (Running (mkSt sh' (waiter s) (<[i := c']> (clients s))))
  | step_client_fault i c :
      clients s !! i = Some c -> client_step (sh s) c = None -> step s Fault
  | step_wait_call :
      waiter s = WIdle \/ waiter s = WDone ->
      (waiter s = WDone -> RunRef (sh s) = EX_RUNDOWN_ACTIVE) ->
      step s (Running (mkSt (set_WaitBlock (sh s) (Some (mkWB 0 None))) WFast (clients s)))
  | step_wait sh' pc' :
      ExfWaitForRundownProtectionRelease_step (sh s) (waiter s) = Some (Some (sh', pc')) ->
      step s (Running (mkSt sh' pc' (clients s)))
  | step_wait_fault :
      ExfWaitForRundownProtectionRelease_step (sh s) (waiter s) = None -> step s Fault
  | step_completed sh' :
      waiter s = WDone -> ExfRundownCompleted (sh s) = Some sh' ->
      step s (Running (mkSt sh' WDone (clients s)))
  | step_completed_fault :
      waiter s = WDone -> ExfRundownCompleted (sh s) = None -> step s Fault
  | step_reinit sh' :
      waiter s = WDone -> ExfReInitializeRundownProtection (sh s) = Some sh' ->
      step s (Running (mkSt sh' WIdle (clients s)))
  | step_reinit_fault :
      waiter s = WDone -> ExfReInitializeRundownProtection (sh s) = None -> step s Fault.

Inductive reachable (n : nat) : outcome -> Prop :=
  | reach_init : reachable n (Running (initial n))
  | reach_step s o : reachable n (Running s) -> step s o -> reachable n o.

End WithWaiter.

(** ** Executions

    A scheduler that runs a list of actions; every state it reaches is
    reachable. *)

Inductive action :=
  | ACall (i : nat) (op : client_op) | AClient (i : nat)
  | AWaitCall | AWait | ACompleted | AReInit.

Definition may_callb (s : state) (c : client) (op : client_op) : bool :=
  (1 <=? op_count op) &&
  if is_acquire op then zsum requested (clients s) + op_count op <? 2 ^ 31
  else op_count op <=? held c.

Definition exec (WB N : Z) (s : state) (a : action) : option state :=
  match a with
  | ACall i op =>
      c ← clients s !! i;
      match cpc c with
      | Idle => if may_callb s c op
                then Some (mkSt (sh s) (waiter s)
                             (<[i := mkCl (Read op) (held c) (ret c)]> (clients s)))
                else None
      | _ => None
      end
  | AClient i =>
      c ← clients s !! i;
      '(sh', c') ← client_step WB N (sh s) c;
      Some (mkSt sh' (waiter s) (<[i := c']> (clients s)))
  | AWaitCall =>
      match waiter s with
      | WIdle => Some (mkSt (set_WaitBlock (sh s) (Some (mkWB 0 None))) WFast (clients s))
      | _ => None
      end
  | AWait =>
      match ExfWaitForRundownProtectionRelease_step WB (sh s) (waiter s) with
      | Some (Some (sh', pc')) => Some (mkSt sh' pc' (clients s))
      | _ => None
      end
  | ACompleted =>
      match waiter s with
      | WDone => sh' ← ExfRundownCompleted (sh s); Some (mkSt sh' WDone (clients s))
      | _ => None
      end
  | AReInit =>
      match waiter s with
      | WDone => sh' ← ExfReInitializeRundownProtection (sh s); Some (mkSt sh' WIdle (clients s))
      | _ => None
      end
  end.

Fixpoint run (WB N : Z) (s : state) (acts : list action) : option state :=
  match acts with [] => Some s | a :: acts => s' ← exec WB N s a; run WB N s' acts end.

(** Two threads take references, rundown starts, both leave, the last one
    wakes the waiter. *)
Definition two_holders : list action :=
  [ACall 0 ExfAcquire; AClient 0; AClient 0; ACall 1 (ExAcquireEx 2); AClient 1; AClient 1;
   AWaitCall; AWait; AWait; ACall 0 ExfRelease; AClient 0; AClient 0].
Definition full_rundown : list action :=
  two_holders ++ [ACall 1 (ExReleaseEx 2); AClient 1; AClient 1; AClient 1; AWait].

Definition final (acts : list action) : state :=
  match run 4096 1 (initial 2) acts with Some s => s | None => initial 2 end.


(** ** Invariant *)

Section Proofs.
Variable WB N : Z.
Hypothesis WB_even : WB mod 2 = 0.
Hypothesis WB_range : 0 < WB < 2 ^ 32.

Definition tagged : Z := Z.lor WB EX_RUNDOWN_ACTIVE.

Definition signals (c : client) : Z := match cpc c with Signal _ => 1 | _ => 0 end.

Definition op_ok (c : client) (op : client_op) : Prop :=
  1 <= op_count op /\ (is_acquire op = false -> op_count op <= held c).

Definition client_ok (w : waiter_pc) (c : client) : Prop :=
  0 <= held c /\
  match cpc c with
  | Idle | Signal _ => True
  | Read op => op_ok c op
  | Try op v =>
      op_ok c op /\
      (is_acquire op = false -> if is_active v then v = tagged /\ w = WBlocked else 2 * op_count op <= v)
  end.

(** The word, the wait block, the outstanding references [T] and the pending
    wake-ups [S] agree with what the waiter is doing. *)
Definition phase_ok (sh : shared) (w : waiter_pc) (T S : Z) : Prop :=
  match w with
  | WIdle => RunRef sh = 2 * T /\ S = 0
  | WFast => (RunRef sh = 2 * T \/ (RunRef sh = 1 /\ T = 0)) /\ S = 0 /\
             WaitBlock sh = Some (mkWB 0 None)
  | WTry v => RunRef sh = 2 * T /\ S = 0 /\ is_active v = false /\
              exists n e, WaitBlock sh = Some (mkWB n e) /\ e <> Some true
  | WBlocked => RunRef sh = tagged /\
      exists b, WaitBlock sh = Some (mkWB T (Some b)) /\
        S = (if negb b && (T =? 0) then 1 else 0) /\ (b = true -> T = 0)
  | WDone => (RunRef sh = 1 \/ RunRef sh = tagged) /\ T = 0 /\ S = 0
  end.

Record inv (s : state) : Prop := {
  inv_clients : Forall (client_ok (waiter s)) (clients s);
  inv_room : zsum requested (clients s) < 2 ^ 31;
  inv_phase : phase_ok (sh s) (waiter s) (zsum held (clients s)) (zsum signals (clients s)) }.

(** What one step of a client must establish. *)
Definition client_post (w : waiter_pc) (T S : Z) (c : client) (r : option (shared * client)) : Prop :=
  exists sh' c', r = Some (sh', c') /\ client_ok w c' /\ requested c' <= requested c /\
    phase_ok sh' w (T - held c + held c') (S - signals c + signals c').


(** ** Lemmas and theorems *)

Lemma is_active_odd v : is_active v = Z.odd v.
Proof.
  unfold is_active, EX_RUNDOWN_ACTIVE. change 1 with (Z.ones 1).
  rewrite Z.land_ones by lia. change (2 ^ 1) with 2. rewrite Zmod_odd.
  by destruct (Z.odd v).
Qed.

Lemma even_not_active v : is_active (2 * v) = false.
Proof. rewrite is_active_odd, Z.odd_mul. reflexivity. Qed.

Lemma tagged_eq : tagged = WB + 1.
Proof.
  unfold tagged, EX_RUNDOWN_ACTIVE.
  rewrite <- Z.lxor_lor, <- Z.add_nocarry_lxor; try reflexivity;
  change 1 with (Z.ones 1); rewrite Z.land_ones by lia; exact WB_even.
Qed.

Lemma tagged_active : is_active tagged = true.
Proof. rewrite is_active_odd, tagged_eq, Z.odd_add, (Zodd_mod WB), WB_even. reflexivity. Qed.

Lemma tagged_untag : Z.land tagged (u32 (Z.lnot EX_RUNDOWN_ACTIVE)) = WB.
Proof.
  rewrite tagged_eq.
  change (u32 (Z.lnot EX_RUNDOWN_ACTIVE)) with (Z.land (Z.ones 32) (Z.lnot (Z.ones 1))).
  assert (WB + 1 < 2 ^ 32) by zdiv.
  rewrite Z.land_assoc, Z.land_ones, Z.mod_small, <- Z.ldiff_land by lia.
  rewrite Z.ldiff_ones_r, Z.shiftl_mul_pow2, Z.shiftr_div_pow2 by lia. zdiv.
Qed.


(** Whatever the phase, the word is either twice the references or active;
    it is active with references out only while the waiter is blocked. *)
Lemma phase_word sh w T S :
  phase_ok sh w T S ->
  RunRef sh = 2 * T \/
  (is_active (RunRef sh) = true /\ (0 < T -> RunRef sh = tagged /\ w = WBlocked)).
Proof.
  pose proof tagged_active as Ht. unfold phase_ok.
  destruct w; intros H.
  - left; apply H.
  - destruct H as [[H|[-> ?]] _]; [left; done|right; split; [done|lia]].
  - left; apply H.
  - destruct H as [-> _]. right; done.
  - destruct H as ([->| ->] & ? & _); right; (split; [done|lia]).
Qed.

(** Replacing the word by another reference count keeps an inactive phase. *)
Lemma phase_recount sh w T S T' :
  phase_ok sh w T S -> RunRef sh = 2 * T -> phase_ok (set_RunRef sh (2 * T')) w T' S.
Proof.
  intros H E. pose proof tagged_active as Ht.
  assert (Hne : RunRef sh <> tagged).
  { intros E'. rewrite <- E', E, even_not_active in Ht. done. }
  destruct w; unfold phase_ok in *; cbn [RunRef set_RunRef WaitBlock].
  - tauto.
  - tauto.
  - tauto.
  - tauto.
  - destruct H as ([H|H] & _); [lia|done].
Qed.
Section ClientStep.
Variables (sh : shared) (w : waiter_pc) (T S : Z) (c : client) (op : client_op) (v : Z).
Hypothesis Hphase : phase_ok sh w T S.
Hypothesis Hpc : cpc c = Try op v.
Hypothesis Hc : client_ok w c.
Hypothesis HT : held c <= T.
Hypothesis Hroom : T - held c + requested c < 2 ^ 31.

Lemma client_post_retry sh' v' :
    sh' = sh -> v' = RunRef sh -> client_post w T S c (Some (sh', mkCl (Try op v') (held c) (ret c))).
Proof.
    intros -> ->. pose proof (phase_word _ _ _ _ Hphase) as Hw.
    destruct Hc as [Hh Hop]. unfold client_post, requested, signals, client_ok in *. rewrite Hpc in *.
    eexists _, _. split; [reflexivity|]. cbn [cpc held].
    replace (T - held c + held c) with T by lia. replace (S - 0 + 0) with S by lia.
    destruct Hop as [Hop _].
    split; [|split; [lia|done]]. split; [done|]. split; [exact Hop|]. intros Hrel.
    destruct Hop as [H1 H2]. specialize (H2 Hrel).
    destruct Hw as [Hw|[Hw Hwt]].
    - rewrite Hw, even_not_active. lia.
    - rewrite Hw. apply Hwt. lia.
Qed.

Lemma cas_cases New :
    let '(sh', old) := InterlockedCompareExchangePointer sh New v in
    (old = v /\ RunRef sh = v /\ sh' = set_RunRef sh New) \/ (old <> v /\ old = RunRef sh /\ sh' = sh).
Proof.
    unfold InterlockedCompareExchangePointer.
    destruct (Z.eqb_spec (RunRef sh) v); [left|right]; done.
Qed.

Lemma acquire_loop_ok :
    is_acquire op = true ->
    client_post w T S c (ExAcquireRundownProtectionEx_loop (2 * op_count op) sh op v c).
Proof.
    intros Hacq. unfold ExAcquireRundownProtectionEx_loop.
    destruct Hc as [Hh Hop]. pose proof Hroom as Hr.
    unfold requested in Hr. rewrite Hpc in Hr, Hop. rewrite Hacq in Hr.
    destruct Hop as [[H1 _] _].
    destruct (is_active v) eqn:Hv.
    - eexists _, _. split; [reflexivity|]. unfold client_ok, requested, signals.
      rewrite Hpc, Hacq. cbn [cpc held].
      replace (T - held c + held c) with T by lia. replace (S - 0 + 0) with S by lia.
      split; [done|]. split; [lia|done].
    - pose proof (cas_cases (u32 (v + 2 * op_count op))) as Hcas.
      destruct (InterlockedCompareExchangePointer _ _ _) as [sh' old].
      destruct Hcas as [(-> & Hrun & ->)|(Hne & -> & ->)].
      + rewrite Z.eqb_refl.
        pose proof (phase_word _ _ _ _ Hphase) as [Hw|[Hw _]]; [|congruence].
        eexists _, _. split; [reflexivity|]. unfold client_ok, requested, signals.
        rewrite Hpc, Hacq. cbn [cpc held].
        split; [split; [lia|done]|]. split; [lia|].
        replace (S - 0 + 0) with S by lia.
        replace (u32 (v + 2 * op_count op)) with (2 * (T - held c + (held c + op_count op)))
          by (rewrite u32_small by lia; lia).
        apply (phase_recount sh w T); done.
      + replace (RunRef sh =? v) with false by (symmetry; by apply Z.eqb_neq).
        by apply client_post_retry.
Qed.

(** Both release loops, as one: [last] decides whether to signal. *)
Lemma release_active_ok wb n (last : bool) :
    is_acquire op = false -> is_active v = true -> WaitBlock sh = Some wb ->
    n = wbCount wb - op_count op -> last = (wbCount wb - op_count op =? 0) ->
    client_post w T S c
      (Some (set_WaitBlock sh (Some (mkWB n (WakeEvent wb))),
             mkCl (if last then Signal op else Idle) (held c - op_count op) (ret c))).
Proof.
    intros Hrel Hact Hwb -> ->.
    destruct Hc as [Hh Hop]. rewrite Hpc in Hop. destruct Hop as [[H1 H2] H3].
    specialize (H2 Hrel).
    specialize (H3 Hrel). rewrite Hact in H3. destruct H3 as [_ ->].
    destruct Hphase as (Hrun & b & Hwb' & HS & Hb).
    rewrite Hwb in Hwb'. injection Hwb' as ->. cbn [wbCount WakeEvent].
    assert (b = false) as -> by (destruct b; [specialize (Hb eq_refl); lia|done]).
    replace (negb false && (T =? 0)) with false in HS by (symmetry; cbn; apply Z.eqb_neq; lia).
    eexists _, _. split; [reflexivity|]. unfold client_ok, requested, signals.
    rewrite Hpc, Hrel. cbn [cpc held].
    destruct (Z.eqb_spec (T - op_count op) 0) as [E|E]; cbn [cpc].
    all: split; [split; [lia|done]|]; split; [lia|].
    all: split; [done|]; exists false; cbn [WaitBlock set_WaitBlock].
    all: split; [do 2 f_equal; lia|]; split; [|done].
    - replace (T - held c + (held c - op_count op) =? 0) with true by lia. cbn. lia.
    - replace (T - held c + (held c - op_count op) =? 0) with false by lia. cbn. lia.
Qed.

Lemma release_inactive_ok New :
    is_acquire op = false -> is_active v = false -> New = u32 (v - 2 * op_count op) ->
    client_post w T S c
      (let '(sh', old) := InterlockedCompareExchangePointer sh New v in
       if old =? v then Some (sh', mkCl Idle (held c - op_count op) (ret c))
       else Some (sh', mkCl (Try op old) (held c) (ret c))).
Proof.
    intros Hrel Hv ->. pose proof Hroom as Hr.
    destruct Hc as [Hh Hop]. unfold requested in Hr. rewrite Hpc in Hop, Hr. rewrite Hrel in Hr.
    destruct Hop as [[H1 H2] H3]. specialize (H2 Hrel).
    pose proof (cas_cases (u32 (v - 2 * op_count op))) as Hcas.
    destruct (InterlockedCompareExchangePointer _ _ _) as [sh' old].
    destruct Hcas as [(-> & Hrun & ->)|(Hne & -> & ->)].
    - rewrite Z.eqb_refl.
      pose proof (phase_word _ _ _ _ Hphase) as [Hw|[Hw _]]; [|congruence].
      eexists _, _. split; [reflexivity|]. unfold client_ok, requested, signals.
      rewrite Hpc, Hrel. cbn [cpc held].
      split; [split; [lia|done]|]. split; [lia|].
      replace (S - 0 + 0) with S by lia.
      replace (u32 (v - 2 * op_count op)) with (2 * (T - held c + (held c - op_count op)))
        by (rewrite u32_small by lia; lia).
      apply (phase_recount sh w T); done.
    - replace (RunRef sh =? v) with false by (symmetry; by apply Z.eqb_neq).
      by apply client_post_retry.
Qed.
End ClientStep.

(** A client that sees the tagged word finds the live wait block. *)
Lemma tagged_block sh w T S c op v :
  phase_ok sh w T S -> cpc c = Try op v -> client_ok w c -> held c <= T ->
  is_acquire op = false -> is_active v = true ->
  exists wb, deref WB sh (Z.land v (u32 (Z.lnot EX_RUNDOWN_ACTIVE))) = Some wb /\
             WaitBlock sh = Some wb /\ wbCount wb = T.
Proof.
  intros Hphase Hpc [_ Hop] HT Hrel Hact. rewrite Hpc in Hop. destruct Hop as [_ Hv].
  specialize (Hv Hrel). rewrite Hact in Hv. destruct Hv as [-> ->].
  destruct Hphase as (_ & b & Hwb & _).
  unfold deref. rewrite tagged_untag, Z.eqb_refl, Hwb. eauto.
Qed.

Lemma client_step_ok sh w T S c :
  phase_ok sh w T S -> client_ok w c -> held c <= T -> signals c <= S ->
  T - held c + requested c < 2 ^ 31 ->
  client_post w T S c (client_step WB N sh c).
Proof.
  intros Hphase Hc HT HS Hroom. unfold client_step.
  destruct (cpc c) as [|op|op v|op] eqn:Hpc.
  - exists sh, c. split; [done|]. split; [done|]. split; [lia|].
    replace (T - held c + held c) with T by lia. replace (S - signals c + signals c) with S by lia. done.
  - pose proof Hc as [Hh Hop]. rewrite Hpc in Hop.
    pose proof (phase_word _ _ _ _ Hphase) as Hw.
    eexists _, _. split; [reflexivity|]. unfold client_ok, requested, signals. rewrite Hpc.
    cbn [cpc held]. replace (T - held c + held c) with T by lia. replace (S - 0 + 0) with S by lia.
    split; [|split; [lia|done]]. split; [done|]. split; [done|]. intros Hrel.
    destruct Hop as [H1 H2]. specialize (H2 Hrel).
    destruct Hw as [->|[Hw Hwt]]; [rewrite even_not_active; lia|rewrite Hw; apply Hwt; lia].
  - pose proof Hc as [Hh Hop]. rewrite Hpc in Hop. destruct Hop as [[H1 H2] H3].
    pose proof Hroom as Hr. unfold requested in Hr. rewrite Hpc in Hr.
    destruct op as [|n| |n]; cbn [is_acquire op_count] in *.
    + by apply (acquire_loop_ok sh w T S c ExfAcquire v).
    + replace (u32 (EX_RUNDOWN_COUNT_INC * n)) with (2 * op_count (ExAcquireEx n))
        by (change EX_RUNDOWN_COUNT_INC with 2; cbn [op_count]; rewrite u32_small; lia).
      by apply acquire_loop_ok.
    + specialize (H2 eq_refl). specialize (H3 eq_refl).
      unfold ExfReleaseRundownProtection_loop. destruct (is_active v) eqn:Hact.
      * destruct (tagged_block sh w T S c _ v Hphase Hpc Hc HT eq_refl Hact) as (wb & -> & Hwb & HwT).
        cbn [mbind option_bind]. unfold ASSERT.
        replace (wbCount wb >? 0) with true by lia. cbn [orb].
        rewrite u32_small, s32_small by lia.
        eapply (release_active_ok sh w T S c ExfRelease v); try done; cbn [op_count]; lia.
      * unfold ASSERT. change EX_RUNDOWN_COUNT_INC with 2.
        replace (v >=? 2) with true by lia. cbn [orb].
        by apply (release_inactive_ok sh w T S c ExfRelease v).
    + specialize (H2 eq_refl). specialize (H3 eq_refl).
      unfold ExReleaseRundownProtectionEx_loop. destruct (is_active v) eqn:Hact.
      * destruct (tagged_block sh w T S c _ v Hphase Hpc Hc HT eq_refl Hact) as (wb & -> & Hwb & HwT).
        cbn [mbind option_bind]. unfold ASSERT.
        replace (wbCount wb >=? n) with true by lia. cbn [orb].
        rewrite (s32_small n), u32_small, s32_small by lia.
        eapply (release_active_ok sh w T S c (ExReleaseEx n) v); try done; cbn [op_count]; lia.
      * unfold ASSERT. change EX_RUNDOWN_COUNT_INC with 2. rewrite (u32_small (2 * n)) by lia.
        replace (v >=? 2 * n) with true by lia. cbn [orb].
        by apply (release_inactive_ok sh w T S c (ExReleaseEx n) v).
  - pose proof Hc as [Hh _]. unfold signals in HS. rewrite Hpc in HS.
    unfold KeSetEvent. unfold phase_ok in Hphase.
    destruct w; try lia.
    destruct Hphase as (Hrun & b & Hwb & HSb & Hb).
    rewrite Hwb. cbn [mbind option_bind WakeEvent].
    destruct b; [cbn in HSb; lia|]. cbn [negb andb] in HSb.
    destruct (Z.eqb_spec T 0) as [->|]; [|lia].
    eexists _, _. split; [reflexivity|]. unfold client_ok, requested, signals. rewrite Hpc.
    cbn [cpc held]. split; [done|]. split; [lia|]. cbn [phase_ok]. split; [done|].
    exists true. cbn [WaitBlock set_WaitBlock wbCount]. split; [do 3 f_equal; lia|].
    split; [cbn; lia|]. intros _. lia.
Qed.

(** *** The waiter *)

Lemma waiter_step_ok sh w T S :
  phase_ok sh w T S -> 0 <= T < 2 ^ 31 -> 0 <= S ->
  match ExfWaitForRundownProtectionRelease_step WB sh w with
  | None => False
  | Some None => w = WIdle \/ w = WDone \/ (w = WBlocked /\ (0 < T \/ 0 < S))
  | Some (Some (sh', w')) => phase_ok sh' w' T S /\ (w = WBlocked -> T = 0)
  end.
Proof.
  intros Hphase HT HS. unfold ExfWaitForRundownProtectionRelease_step.
  pose proof tagged_active as Htag.
  destruct w as [| |v| |]; unfold phase_ok in Hphase.
  - by left.
  - unfold InterlockedCompareExchangePointer. change EX_RUNDOWN_ACTIVE with 1 in *.
    destruct Hphase as (Hrun & -> & Hwb).
    destruct (Z.eqb_spec (RunRef sh) 0) as [E0|E0]; [|destruct (Z.eqb_spec (RunRef sh) 1) as [E1|E1]];
      cbn [orb phase_ok RunRef set_WaitBlock set_RunRef WaitBlock].
    + split; [|done]. split; [by left|]. lia.
    + split; [|done]. split; [by left|]. lia.
    + split; [|done]. destruct Hrun as [Hrun|[? _]]; [|done].
      split; [done|]. split; [done|]. split; [rewrite Hrun; apply even_not_active|].
      rewrite Hwb. eexists _, _. split; [reflexivity|discriminate].
  - destruct Hphase as (Hrun & -> & Hv & n & e & Hwb & He). rewrite Hwb. cbn [mbind option_bind WakeEvent].
    fold tagged. unfold InterlockedCompareExchangePointer. cbv beta iota zeta. cbn [RunRef set_WaitBlock].
    set (ev := if _ && _ then Some false else e).
    assert (Hev : ev <> Some true) by (subst ev; destruct (_ && _); done).
    destruct (Z.eqb_spec (RunRef sh) v) as [E|E].
    + assert (Hcnt : Z.shiftr v EX_RUNDOWN_COUNT_SHIFT = T).
      { rewrite <- E, Hrun. unfold EX_RUNDOWN_COUNT_SHIFT. rewrite Z.shiftr_div_pow2 by lia. zdiv. }
      subst ev. rewrite Hcnt in Hev |- *.
      destruct (Z.gtb_spec T 0) as [HT0|HT0].
      * split; [|done]. cbn [phase_ok RunRef set_RunRef WaitBlock]. split; [done|].
        cbn [andb]. replace (if bool_decide (e = None) then Some false else e) with (Some false)
          by (destruct e as [[]|]; done).
        exists false. split; [done|]. split; [|done].
        replace (T =? 0) with false by lia. done.
      * split; [|done]. cbn [phase_ok RunRef set_RunRef set_WaitBlock]. split; [by right|lia].
    + unfold ASSERT. rewrite Hrun, even_not_active. cbn [negb].
      split; [|done]. cbn [phase_ok RunRef WaitBlock]. split; [done|]. split; [done|].
      split; [apply even_not_active|]. eauto.
  - destruct Hphase as (Hrun & b & Hwb & HSb & Hb). rewrite Hwb. cbn [mbind option_bind WakeEvent wbCount].
    destruct b.
    + rewrite (Hb eq_refl) in *. unfold ASSERT. cbn in HSb. cbn [Z.eqb].
      split; [|done]. cbn [phase_ok RunRef set_WaitBlock]. auto.
    + right; right. split; [done|]. cbn in HSb. destruct (Z.eqb_spec T 0); lia.
  - by right; left.
Qed.

(** *** Invariance *)

Lemma client_ok_nonneg w l : Forall (client_ok w) l ->
  Forall (fun c => 0 <= held c) l /\ Forall (fun c => 0 <= requested c - held c) l /\
  Forall (fun c => 0 <= signals c) l.
Proof.
  intros Hl. repeat split; eapply Forall_impl; try exact Hl; intros c [Hh Hop]; [done| |].
  - unfold requested. destruct (cpc c) as [|op|op v|op]; try lia;
      destruct (is_acquire op); unfold op_ok in Hop; lia.
  - unfold signals. destruct (cpc c); lia.
Qed.

Lemma requested_split l : zsum requested l = zsum held l + zsum (fun c => requested c - held c) l.
Proof. induction l as [|c l IH]; cbn [zsum]; lia. Qed.

Lemma inv_bounds s :
  inv s -> 0 <= zsum held (clients s) < 2 ^ 31 /\ 0 <= zsum signals (clients s).
Proof.
  intros [Hcl Hroom _]. destruct (client_ok_nonneg _ _ Hcl) as (H1 & H2 & H3).
  apply zsum_nonneg in H1, H2, H3. rewrite requested_split in Hroom. lia.
Qed.

Lemma inv_client_bounds s i c :
  inv s -> clients s !! i = Some c ->
  client_ok (waiter s) c /\ held c <= zsum held (clients s) /\
  signals c <= zsum signals (clients s) /\
  zsum held (clients s) - held c + requested c < 2 ^ 31.
Proof.
  intros [Hcl Hroom _] Hi. destruct (client_ok_nonneg _ _ Hcl) as (H1 & H2 & H3).
  pose proof (zsum_lookup_le _ _ _ _ H1 Hi). pose proof (zsum_lookup_le _ _ _ _ H2 Hi).
  pose proof (zsum_lookup_le _ _ _ _ H3 Hi). rewrite requested_split in Hroom.
  split; [by eapply Forall_lookup_1|]. cbn in *. lia.
Qed.

(** A client's obligations survive a move of the waiter, unless it leaves the
    blocked state with references out. *)
Lemma client_ok_move w w' l :
  Forall (client_ok w) l -> (w = WBlocked -> zsum held l = 0) -> Forall (client_ok w') l.
Proof.
  intros Hl Hw. apply Forall_lookup. intros i c Hi.
  destruct (client_ok_nonneg _ _ Hl) as (H1 & _).
  pose proof (zsum_lookup_le _ _ _ _ H1 Hi) as Hle.
  pose proof (Forall_lookup_1 _ _ _ _ Hl Hi) as [Hh Hop]. split; [done|].
  destruct (cpc c) as [|op|op v|op]; try done. destruct Hop as [[Ho1 Ho2] Hop].
  split; [done|]. intros Hrel. specialize (Hop Hrel). specialize (Ho2 Hrel).
  destruct (is_active v); [|done]. destruct Hop as [_ ->]. specialize (Hw eq_refl). cbn in Hle. lia.
Qed.

Lemma inv_initial n : inv (initial n).
Proof.
  split; cbn -[zsum].
  - apply Forall_replicate. done.
  - by rewrite zsum_replicate.
  - by rewrite !zsum_replicate.
Qed.

Lemma inv_wait_call s :
  inv s -> waiter s = WIdle \/ waiter s = WDone ->
  (waiter s = WDone -> RunRef (sh s) = EX_RUNDOWN_ACTIVE) ->
  inv (mkSt (set_WaitBlock (sh s) (Some (mkWB 0 None))) WFast (clients s)).
Proof.
  intros [Hcl Hroom Hph] Hw Hrun. split; cbn -[zsum Z.mul]; [|done|].
  - eapply client_ok_move; [exact Hcl|]. intros E; destruct Hw; congruence.
  - destruct Hw as [Hw|Hw]; rewrite Hw in *; cbn -[zsum Z.mul] in Hph.
    + split; [left; apply Hph|]. split; [apply Hph|done].
    + split; [right; split; [by apply Hrun|apply Hph]|]. split; [apply Hph|done].
Qed.

Lemma inv_step s o :
  inv s -> step WB N s o -> match o with Running s' => inv s' | Fault => False end.
Proof.
  intros Hinv Hstep. pose proof (inv_bounds s Hinv) as [HT HS].
  destruct Hstep as [i c op Hi Hpc [Hn Hcall]|i c sh' c' Hi Hcs|i c Hi Hcs|Hw Hrun
    |sh' pc' Hws|Hws|sh' Hw Hop|Hw Hop|sh' Hw Hop|Hw Hop].
  - destruct (inv_client_bounds s i c Hinv Hi) as (Hc & _). destruct Hinv as [Hcl Hroom Hph].
    split; cbn [clients waiter sh]; [|rewrite (zsum_insert _ _ _ _ _ Hi)|].
    + apply Forall_insert; [done|]. destruct Hc as [Hh _]. split; [done|].
      split; [done|]. cbn [held]. intros Hrel. rewrite Hrel in Hcall. done.
    + unfold requested at 2 3. rewrite Hpc. cbn [cpc held]. destruct (is_acquire op); lia.
    + rewrite !(zsum_insert _ _ _ _ _ Hi). unfold signals at 2 3. rewrite Hpc. cbn [cpc held].
      replace (_ - held c + held c) with (zsum held (clients s)) by lia.
      replace (zsum signals (clients s) - 0 + 0) with (zsum signals (clients s)) by lia. done.
  - destruct (inv_client_bounds s i c Hinv Hi) as (Hc & Hh & Hsg & Hr). destruct Hinv as [Hcl Hroom Hph].
    destruct (client_step_ok _ _ _ _ _ Hph Hc Hh Hsg Hr) as (sh1 & c1 & E & Hc1 & Hreq & Hph1).
    rewrite E in Hcs. injection Hcs as -> ->.
    split; cbn [clients waiter sh]; rewrite ?(zsum_insert _ _ _ _ _ Hi);
      [by apply Forall_insert|lia|done].
  - destruct (inv_client_bounds s i c Hinv Hi) as (Hc & Hh & Hsg & Hr). destruct Hinv as [Hcl Hroom Hph].
    destruct (client_step_ok _ _ _ _ _ Hph Hc Hh Hsg Hr) as (sh1 & c1 & E & _). congruence.
  - by apply inv_wait_call.
  - destruct Hinv as [Hcl Hroom Hph].
    pose proof (waiter_step_ok _ _ _ _ Hph HT HS) as Hok. rewrite Hws in Hok.
    destruct Hok as [Hph' Hw]. split; cbn [clients waiter sh]; [|done|done].
    eapply client_ok_move; [exact Hcl|done].
  - destruct Hinv as [Hcl Hroom Hph].
    pose proof (waiter_step_ok _ _ _ _ Hph HT HS) as Hok. by rewrite Hws in Hok.
  - destruct Hinv as [Hcl Hroom Hph]. unfold ExfRundownCompleted, ASSERT in Hop.
    destruct (is_active _); [|done]. injection Hop as <-. rewrite Hw in *.
    split; cbn [clients waiter sh]; [done|done|]. split; [by left|apply Hph].
  - destruct Hinv as [_ _ Hph]. rewrite Hw in Hph. destruct Hph as [Hrun _].
    unfold ExfRundownCompleted, ASSERT in Hop. pose proof tagged_active as Ht.
    destruct Hrun as [E|E]; rewrite E in Hop; [done|]. by rewrite Ht in Hop.
  - destruct Hinv as [Hcl Hroom Hph]. unfold ExfReInitializeRundownProtection, ASSERT in Hop.
    destruct (is_active _); [|done]. injection Hop as <-. rewrite Hw in *.
    split; cbn [clients waiter sh]; [by eapply client_ok_move|done|].
    destruct Hph as (_ & -> & ->). done.
  - destruct Hinv as [_ _ Hph]. rewrite Hw in Hph. destruct Hph as [Hrun _].
    unfold ExfReInitializeRundownProtection, ASSERT in Hop. pose proof tagged_active as Ht.
    destruct Hrun as [E|E]; rewrite E in Hop; [done|]. by rewrite Ht in Hop.
Qed.

Lemma inv_reachable n o :
  reachable WB N n o -> match o with Running s => inv s | Fault => False end.
Proof.
  induction 1 as [|s o Hr IH Hs]; [apply inv_initial|]. by eapply inv_step.
Qed.

End Proofs.

(** An active word is never changed by a client. *)
Lemma cas_active (sh : shared) New v :
is_active (RunRef sh) = true -> is_active v = false ->
InterlockedCompareExchangePointer sh New v = (sh, RunRef sh).
Proof.
intros Hs Hv. unfold InterlockedCompareExchangePointer.
destruct (Z.eqb_spec (RunRef sh) v); [congruence|done].
Qed.

Lemma client_step_RunRef WB N sh c sh' c' :
is_active (RunRef sh) = true -> client_step WB N sh c = Some (sh', c') ->
RunRef sh' = RunRef sh.
Proof.
intros Hact. unfold client_step.
destruct (cpc c) as [|op|op v|op]; [by intros [= <- <-]..| |].
- destruct (is_active v) eqn:Hv.
  + destruct op; unfold ExAcquireRundownProtectionEx_loop, ExfReleaseRundownProtection_loop,
      ExReleaseRundownProtectionEx_loop; rewrite Hv; [by intros [= <- <-]..| |];
      destruct (deref _ _ _) as [wb|]; try done; cbn; unfold ASSERT;
      destruct (_ || _); try done; by intros [= <- <-].
  + destruct op; unfold ExAcquireRundownProtectionEx_loop, ExfReleaseRundownProtection_loop,
      ExReleaseRundownProtectionEx_loop, ASSERT; rewrite Hv, ?cas_active by done;
      repeat (destruct (_ || _); try done);
      destruct (_ =? _); by intros [= <- <-].
- unfold KeSetEvent. destruct (WaitBlock sh) as [wb|]; [|done]. cbn.
  destruct (WakeEvent wb); [|done]. cbn. by intros [= <- <-].
Qed.

(** C24: No interleaving of acquires, releases and rundowns, with any number of
  client threads, ever fails an ASSERT of the routines or touches the wait
  block after the waiting thread has returned: in particular the KeSetEvent
  of the last release always finds the block alive. *)
Theorem rundown_no_fault WB N n o :
WB mod 2 = 0 -> 0 < WB < 2 ^ 32 -> reachable WB N n o -> o <> Fault.
Proof. intros He Hr H ->. exact (inv_reachable WB N He Hr n Fault H). Qed.

(** C1: When ExfWaitForRundownProtectionRelease has returned, no client holds a
  reference, and none can obtain one: every further client step leaves the
  word alone and the thread without references. *)
Theorem rundown_complete_excludes WB N n s :
WB mod 2 = 0 -> 0 < WB < 2 ^ 32 -> reachable WB N n (Running s) -> waiter s = WDone ->
forall i c, clients s !! i = Some c ->
held c = 0 /\
forall sh' c', client_step WB N (sh s) c = Some (sh', c') ->
  held c' = 0 /\ RunRef sh' = RunRef (sh s).
Proof.
intros He Hr H Hw i c Hi.
pose proof (inv_reachable WB N He Hr n _ H) as Hinv. cbn in Hinv.
destruct (inv_client_bounds WB s i c Hinv Hi) as (Hc & Hh & Hsg & Hroom).
destruct Hinv as [_ _ Hph]. rewrite Hw in Hph, Hc.
pose proof Hph as (Hrun & HT & HS).
assert (Hc0 : held c = 0) by (destruct Hc; lia).
split; [done|]. intros sh' c' E.
destruct (client_step_ok WB N He Hr _ _ _ _ _ Hph Hc Hh Hsg Hroom)
  as (sh1 & c1 & E1 & _ & _ & Hph1).
rewrite E in E1. injection E1 as <- <-.
destruct Hph1 as (_ & HT1 & _). split; [lia|].
eapply client_step_RunRef; [|exact E].
pose proof (tagged_active WB He). by destruct Hrun as [->| ->].
Qed.

(** C35: There is no lost wake-up: while the waiter is blocked, either its event
  is signalled and its next step returns, or some client still holds a
  reference or is about to signal the event. *)
Theorem rundown_no_lost_wakeup WB N n s :
WB mod 2 = 0 -> 0 < WB < 2 ^ 32 -> reachable WB N n (Running s) -> waiter s = WBlocked ->
(exists sh', ExfWaitForRundownProtectionRelease_step WB (sh s) (waiter s) = Some (Some (sh', WDone)))
\/ (exists i c, clients s !! i = Some c /\ (0 < held c \/ exists op, cpc c = Signal op)).
Proof.
intros He Hr H Hw.
pose proof (inv_reachable WB N He Hr n _ H) as Hinv. cbn in Hinv.
pose proof (inv_bounds WB s Hinv) as [HT HS]. destruct Hinv as [_ _ Hph].
pose proof (waiter_step_ok WB He _ _ _ _ Hph HT HS) as Hok. rewrite Hw in Hok |- *.
destruct (ExfWaitForRundownProtectionRelease_step _ _ _) as [[[sh' w']|]|] eqn:E; [| |done].
- left. exists sh'. do 3 f_equal.
  unfold ExfWaitForRundownProtectionRelease_step, ASSERT in E.
  destruct (WaitBlock (sh s)) as [wb|]; [|done]. cbn in E.
  destruct (WakeEvent wb) as [[]|]; [|done..]. destruct (_ =? _); congruence.
- right. destruct Hok as [?|[?|[_ [Hpos|Hpos]]]]; try done;
    destruct (zsum_pos_lookup _ _ Hpos) as (i & c & Hi & Hc); exists i, c.
  + auto.
  + split; [done|]. right. unfold signals in Hc. destruct (cpc c); try lia. eauto.
Qed.

(** The word is exact and acquiring is decided by it alone: outside an active
  rundown it is twice the number of outstanding references, and a thread
  that runs an acquire without interference gets TRUE and its references
  when the word is not active, FALSE and an untouched word when it is. *)
Theorem acquire_uncontended WB N n s i c op :
WB mod 2 = 0 -> 0 < WB < 2 ^ 32 -> reachable WB N n (Running s) ->
clients s !! i = Some c -> cpc c = Idle -> may_call s c op -> is_acquire op = true ->
(is_active (RunRef (sh s)) = false ->
   RunRef (sh s) = EX_RUNDOWN_COUNT_INC * zsum held (clients s)) /\
exists sh1 c1 sh2 c2,
  client_step WB N (sh s) (mkCl (Read op) (held c) (ret c)) = Some (sh1, c1) /\
  client_step WB N sh1 c1 = Some (sh2, c2) /\ cpc c2 = Idle /\
  ret c2 = Some (negb (is_active (RunRef (sh s)))) /\
  if is_active (RunRef (sh s)) then sh2 = sh s /\ held c2 = held c
  else RunRef sh2 = RunRef (sh s) + EX_RUNDOWN_COUNT_INC * op_count op /\
       held c2 = held c + op_count op.
Proof.
intros He Hr H Hi Hpc [Hn Hcall] Hacq.
pose proof (inv_reachable WB N He Hr n _ H) as Hinv. cbn in Hinv.
pose proof (inv_bounds WB s Hinv) as [HT _]. pose proof (inv_room WB s Hinv) as Hroom.
rewrite Hacq in Hcall.
pose proof (inv_phase WB s Hinv) as Hph.
pose proof (phase_word WB He _ _ _ _ Hph) as Hw.
assert (Hle : zsum held (clients s) <= zsum requested (clients s)).
{ destruct (client_ok_nonneg WB _ _ (inv_clients WB s Hinv)) as (_ & H2 & _).
  apply zsum_nonneg in H2. rewrite requested_split. lia. }
split.
{ intros Hact. destruct Hw as [Hw|[Hw _]]; [exact Hw|congruence]. }
eexists _, _. 
assert (Hloop : exists sh2 c2,
  ExAcquireRundownProtectionEx_loop (2 * op_count op) (sh s) op (RunRef (sh s))
    (mkCl (Try op (RunRef (sh s))) (held c) (ret c)) = Some (sh2, c2) /\
  cpc c2 = Idle /\ ret c2 = Some (negb (is_active (RunRef (sh s)))) /\
  if is_active (RunRef (sh s)) then sh2 = sh s /\ held c2 = held c
  else RunRef sh2 = RunRef (sh s) + EX_RUNDOWN_COUNT_INC * op_count op /\
       held c2 = held c + op_count op).
{ unfold ExAcquireRundownProtectionEx_loop, InterlockedCompareExchangePointer.
  rewrite !Z.eqb_refl. destruct (is_active (RunRef (sh s))) eqn:Hact.
  - eexists _, _. repeat split; reflexivity.
  - eexists _, _. repeat split; try reflexivity. cbn [RunRef set_RunRef].
    change EX_RUNDOWN_COUNT_INC with 2.
    destruct Hw as [Hw|[Hw _]]; [|congruence]. rewrite u32_small by lia. done. }
destruct Hloop as (sh2 & c2 & E & Hres). exists sh2, c2.
split; [reflexivity|]. split; [|exact Hres]. rewrite <- E.
unfold client_step; cbn [cpc].
destruct op as [|k| |]; try done; cbn [op_count] in *.
change EX_RUNDOWN_COUNT_INC with 2. rewrite u32_small by lia. done.
Qed.

Lemma exec_step WB N s a s' : exec WB N s a = Some s' -> step WB N s (Running s').
Proof.
destruct a as [i op|i| | | |]; cbn [exec]; intros E.
- destruct (clients s !! i) as [c|] eqn:Hi; [|done]. cbn in E.
  destruct (cpc c) eqn:Hpc; try done.
  destruct (may_callb s c op) eqn:Hm; [|done]. injection E as <-.
  eapply step_call; eauto. unfold may_callb, may_call in *.
  destruct (is_acquire op); lia.
- destruct (clients s !! i) as [c|] eqn:Hi; [|done]. cbn in E.
  destruct (client_step _ _ _ c) as [[sh' c']|] eqn:Hs; [|done]. injection E as <-.
  by eapply step_client.
- destruct (waiter s) eqn:Hw; try done. injection E as <-.
  apply step_wait_call; [by left|]. congruence.
- destruct (ExfWaitForRundownProtectionRelease_step _ _ _) as [[[sh' pc']|]|] eqn:Hs; try done.
  injection E as <-. by eapply step_wait.
- destruct (waiter s) eqn:Hw; try done.
  destruct (ExfRundownCompleted _) eqn:Hs; [|done]. injection E as <-. by eapply step_completed.
- destruct (waiter s) eqn:Hw; try done.
  destruct (ExfReInitializeRundownProtection _) eqn:Hs; [|done]. injection E as <-.
  by eapply step_reinit.
Qed.

Lemma run_reachable WB N n acts s s' :
reachable WB N n (Running s) -> run WB N s acts = Some s' -> reachable WB N n (Running s').
Proof.
revert s. induction acts as [|a acts IH]; intros s Hs E; cbn in E; [by simplify_eq|].
destruct (exec WB N s a) as [s1|] eqn:E1; [|done]. cbn in E.
eapply IH; [|exact E]. econstructor; [exact Hs|]. eapply exec_step; exact E1.
Qed.

Lemma final_reachable acts : is_Some (run 4096 1 (initial 2) acts) ->
reachable 4096 1 2 (Running (final acts)).
Proof.
intros [s E]. unfold final. rewrite E. eapply run_reachable; [constructor|exact E].
Qed.

Lemma rundown_no_fault_witness : Running (final full_rundown) <> Fault.
Proof.
apply (rundown_no_fault 4096 1 2 (Running (final full_rundown))); [done|done|].
apply final_reachable. vm_compute. eauto.
Defined.

Lemma rundown_complete_excludes_witness :
waiter (final full_rundown) = WDone /\ held (mkCl Idle 0 (Some true)) = 0.
Proof.
split; [vm_compute; reflexivity|].
apply (rundown_complete_excludes 4096 1 2 (final full_rundown)) with (i := 0%nat);
  [done|done|apply final_reachable; vm_compute; eauto|vm_compute; reflexivity..].
Defined.

Lemma rundown_no_lost_wakeup_witness :
(exists sh', ExfWaitForRundownProtectionRelease_step 4096 (sh (final two_holders))
               (waiter (final two_holders)) = Some (Some (sh', WDone)))
\/ (exists i c, clients (final two_holders) !! i = Some c /\
      (0 < held c \/ exists op, cpc c = Signal op)).
Proof.
apply (rundown_no_lost_wakeup 4096 1 2 (final two_holders));
  [done|done|apply final_reachable; vm_compute; eauto|vm_compute; reflexivity].
Defined.

Lemma acquire_uncontended_witness :
exists sh1 c1 sh2 c2,
  client_step 4096 1 (sh (initial 2)) (mkCl (Read ExfAcquire) 0 None) = Some (sh1, c1) /\
  client_step 4096 1 sh1 c1 = Some (sh2, c2) /\ cpc c2 = Idle /\ ret c2 = Some true /\
  RunRef sh2 = 2 /\ held c2 = 1.
Proof.
refine (proj2 (acquire_uncontended 4096 1 2 (initial 2) 0 (mkCl Idle 0 None) ExfAcquire
  _ _ _ _ _ _ _)); try done. constructor.
Defined.

End Rundown.
