(* ===== verification/ExRundownCache.v ===== *)
(** * Cache-aware rundown protection (src/ntoskrnl/ex/rundown.c)

    A cache-aware reference is an array of rundown references, one per processor
    and cache line.  A client counts on the reference of the processor it runs on
    when it calls, and may give its references back on another one, so that a
    single word can wrap around; only the sum of the words means something.  The
    thread that runs the object down marks the words one after the other and adds
    them up, while clients that find a marked word count down in the wait block,
    below zero if need be.

    Module [CacheAware] composes the client routines of [ExRundown] (with the
    inline fast paths of ex.h in front of them) with these loops, one access to
    shared memory per step.  The first part is the layout of the array. *)

From S2P Require Import Prelude ExRundown.

Module CacheAware.
Import Rundown.

(** ** Layout *)

Definition sizeof_EX_RUNDOWN_REF : Z := 4.

Record EX_RUNDOWN_REF_CACHE_AWARE := mkCA { RunRefs : Z; PoolToFree : Z; RunRefSize : Z; Number : Z }.

Definition EXP_ALIGN_UP_PTR_ON_BOUNDARY (p alignment : Z) : Z :=
  Z.land (u32 (p + (alignment - 1))) (u32 (Z.lnot (alignment - 1))).
Definition EXP_IS_ALIGNED_ON_BOUNDARY (p alignment : Z) : bool := Z.land p (alignment - 1) =? 0.

Definition EXP_GET_PROCESSOR_RUNDOWN_REF (r : EX_RUNDOWN_REF_CACHE_AWARE) (Index : Z) : Z :=
  u32 (RunRefs r + (Index mod Number r) * RunRefSize r).
Definition EXP_GET_CURRENT_RUNDOWN_REF (r : EX_RUNDOWN_REF_CACHE_AWARE) (CurrentProcessor : Z) : Z :=
  u32 (RunRefs r + (CurrentProcessor mod Number r) * RunRefSize r).

(** The addresses the initialisation loops write to. *)
Definition init_refs (r : EX_RUNDOWN_REF_CACHE_AWARE) : list Z :=
  map (EXP_GET_PROCESSOR_RUNDOWN_REF r) (zrange (Z.to_nat (Number r))).

Section Layout.
(** The number of processors, and the largest cache line (KeLargestCacheLine). *)
Context (KeNumberProcessors KeLargestCacheLine : Z).

Definition KeGetRecommendedSharedDataAlignment : Z := KeLargestCacheLine.

Section Allocate.
(** ExAllocatePoolWithTag: the blocks the two calls for the array return. *)
Context (StructPool : option Z) (Pool : Z -> option Z) (PoolAgain : Z -> option Z).

(** [None] is a failed ASSERT, [Some None] the result NULL. *)
Definition ExAllocateCacheAwareRundownProtection : option (option EX_RUNDOWN_REF_CACHE_AWARE) :=
  match StructPool with
  | None => Some None
  | Some _ =>
      let Number := KeNumberProcessors in
      let PaddedSize := if Number >? 1 then KeGetRecommendedSharedDataAlignment else sizeof_EX_RUNDOWN_REF in
      if (Number >? 1) && negb (Z.land PaddedSize (PaddedSize - 1) =? 0) then None
      else if negb (sizeof_EX_RUNDOWN_REF <=? PaddedSize) then None
      else
        match Pool (u32 (PaddedSize * Number)) with
        | None => Some None
        | Some RunRefPool =>
            if (Number >? 1) && negb (EXP_IS_ALIGNED_ON_BOUNDARY RunRefPool PaddedSize) then
              match PoolAgain (u32 (PaddedSize * Number + PaddedSize)) with
              | None => Some None
              | Some RunRefPool =>
                  Some (Some (mkCA (EXP_ALIGN_UP_PTR_ON_BOUNDARY RunRefPool PaddedSize) RunRefPool PaddedSize Number))
              end
            else Some (Some (mkCA RunRefPool RunRefPool PaddedSize Number))
        end
  end.
End Allocate.



End Layout.

(** ** Client threads *)

(** ExAcquireRundownProtection and ExReleaseRundownProtection of ex.h try one
    compare exchange before they call the routines of rundown.c. *)
Inductive fast_pc :=
  | NoFast
  | FastRead (op : client_op)
  | FastTry (op : client_op) (Value : Z).

(** A client thread, and the index of the reference it is working on. *)
Record cclient := mkCC { inner : client; fast : fast_pc; Index : nat }.

(** The words, the wait block on the stack of the waiting thread while it is
    there. *)
Record cshared := mkCS { words : list Z; block : option EX_RUNDOWN_WAIT_BLOCK }.

Section WithWaiter.
Variable WaitBlockAddress : Z.
Variable KeNumberProcessors : Z.

(** One step of the inline routines. *)
Definition inline_step (s : cshared) (c : cclient) : option (cshared * cclient) :=
  w ← words s !! Index c;
  match fast c with
  | NoFast => None
  | FastRead op =>
      Some (s, mkCC (inner c) (FastTry op (Z.land w (u32 (Z.lnot EX_RUNDOWN_ACTIVE)))) (Index c))
  | FastTry op Value =>
      let NewValue := u32 (if is_acquire op then Value + EX_RUNDOWN_COUNT_INC else Value - EX_RUNDOWN_COUNT_INC) in
      let '(sh', NewValue) := InterlockedCompareExchangePointer (mkSh w (block s)) NewValue Value in
      if NewValue =? Value then
        ASSERT (is_acquire op || (Value >=? EX_RUNDOWN_COUNT_INC) || (KeNumberProcessors >? 1))
          (let c' := if is_acquire op then mkCl Idle (held (inner c) + 1) (Some true)
                     else mkCl Idle (held (inner c) - 1) (ret (inner c)) in
           Some (mkCS (<[Index c := RunRef sh']> (words s)) (block s), mkCC c' NoFast (Index c)))
      else Some (s, mkCC (mkCl (Read op) (held (inner c)) (ret (inner c))) NoFast (Index c))
  end.

(** The routines of rundown.c on the word at the index. *)
Definition exf_step (s : cshared) (c : cclient) : option (cshared * cclient) :=
  w ← words s !! Index c;
  '(sh', c') ← client_step WaitBlockAddress KeNumberProcessors (mkSh w (block s)) (inner c);
  Some (mkCS (<[Index c := RunRef sh']> (words s)) (WaitBlock sh'), mkCC c' NoFast (Index c)).

Definition cclient_step (s : cshared) (c : cclient) : option (cshared * cclient) :=
  match fast c with NoFast => exf_step s c | _ => inline_step s c end.

(** Entering a CacheAware routine on some processor: Ex variants have no inline
    part. *)
Definition enter (op : client_op) (CurrentProcessor : Z) (s : cshared) (c : cclient) : cclient :=
  let i := Z.to_nat (CurrentProcessor mod Z.of_nat (length (words s))) in
  match op with
  | ExfAcquire | ExfRelease => mkCC (inner c) (FastRead op) i
  | ExAcquireEx _ | ExReleaseEx _ => mkCC (mkCl (Read op) (held (inner c)) (ret (inner c))) NoFast i
  end.

(** ** The thread that runs the object down *)

Inductive cwaiter_pc :=
  | CIdle                                   (* the object is in use *)
  | CRead (Idx : nat) (TotalCount : Z)      (* before [Value = RunRef->Count] *)
  | CTry (Idx : nat) (Value TotalCount : Z) (* at the top of the do loop *)
  | CInit (TotalCount : Z)                  (* before KeInitializeEvent *)
  | CAdd (TotalCount : Z)                   (* before InterlockedExchangeAdd *)
  | CBlocked                                (* in KeWaitForSingleObject *)
  | CDone                                   (* the routine has returned *)
  | CCompleted (Idx : nat)                  (* in ExRundownCompletedCacheAware *)
  | CReInit (Idx : nat).                    (* in ExReInitializeRundownProtectionCacheAware *)

(** After the loop over the processors. *)
Definition totalled (s : cshared) (TotalCount : Z) : option (option (cshared * cwaiter_pc)) :=
  ASSERT (s32 TotalCount >=? 0)
    (if negb (TotalCount =? 0) then Some (Some (s, CInit (Z.shiftr TotalCount EX_RUNDOWN_COUNT_SHIFT)))
     else Some (Some (mkCS (words s) None, CDone))).

(** ExWaitForRundownProtectionReleaseCacheAware, ExRundownCompletedCacheAware and
    ExReInitializeRundownProtectionCacheAware; [Some None] is a thread that stays
    where it is. *)
Definition cwaiter_step (s : cshared) (pc : cwaiter_pc) : option (option (cshared * cwaiter_pc)) :=
  match pc with
  | CRead i TotalCount => w ← words s !! i; Some (Some (s, CTry i w TotalCount))
  | CTry i Value TotalCount =>
      w ← words s !! i;
      ASSERT (negb (is_active Value))
        (let NewValue := Z.lor WaitBlockAddress EX_RUNDOWN_ACTIVE in
         let '(sh', NewValue) := InterlockedCompareExchangePointer (mkSh w (block s)) NewValue Value in
         if NewValue =? Value then
           let s' := mkCS (<[i := RunRef sh']> (words s)) (block s) in
           let TotalCount := u32 (TotalCount + Value) in
           if Nat.ltb (S i) (length (words s)) then Some (Some (s', CRead (S i) TotalCount))
           else totalled s' TotalCount
         else Some (Some (s, CTry i NewValue TotalCount)))
  | CInit TotalCount =>
      wb ← block s; Some (Some (mkCS (words s) (Some (mkWB (wbCount wb) (Some false))), CAdd TotalCount))
  | CAdd TotalCount =>
      wb ← block s;
      let s' := mkCS (words s) (Some (mkWB (u32 (wbCount wb + TotalCount)) (WakeEvent wb))) in
      if negb (s32 (wbCount wb) =? s32 (- s32 TotalCount)) then Some (Some (s', CBlocked))
      else Some (Some (mkCS (words s) None, CDone))
  | CBlocked =>
      wb ← block s;
      match WakeEvent wb with
      | Some true => Some (Some (mkCS (words s) None, CDone))
      | Some false => Some None
      | None => None
      end
  | CCompleted i =>
      w ← words s !! i;
      ASSERT (is_active w)
        (Some (Some (mkCS (<[i := EX_RUNDOWN_ACTIVE]> (words s)) (block s),
                     if Nat.ltb (S i) (length (words s)) then CCompleted (S i) else CDone)))
  | CReInit i =>
      w ← words s !! i;
      ASSERT (is_active w)
        (Some (Some (mkCS (<[i := 0]> (words s)) (block s),
                     if Nat.ltb (S i) (length (words s)) then CReInit (S i) else CIdle)))
  | CIdle | CDone => Some None
  end.

(** ** The system *)

Record cstate := mkCSt { csh : cshared; cwaiter : cwaiter_pc; cclients : list cclient }.

Definition cinitial (processors n : nat) : cstate :=
  mkCSt (mkCS (replicate processors 0) None) CIdle (replicate n (mkCC (mkCl Idle 0 None) NoFast 0)).

Definition current_op (c : cclient) : option client_op :=
  match fast c with
  | FastRead op | FastTry op _ => Some op
  | NoFast => match cpc (inner c) with Read op | Try op _ => Some op | _ => None end
  end.
Definition idle (c : cclient) : bool :=
  match fast c, cpc (inner c) with NoFast, Idle => true | _, _ => false end.
Definition cheld (c : cclient) : Z := held (inner c).
(** References held or being asked for. *)
Definition crequested (c : cclient) : Z :=
  cheld c + match current_op c with Some op => if is_acquire op then op_count op else 0 | None => 0 end.
(** References given back to the wait block before the waiter has added the total. *)
Definition given_back (s : cshared) : Z :=
  match block s with Some wb => Z.max 0 (- s32 (wbCount wb)) | None => 0 end.
Definition in_flight (s : cstate) : Z := zsum crequested (cclients s) + given_back (csh s).

Definition acquiring (c : cclient) : bool :=
  match current_op c with Some op => is_acquire op | None => false end.
Definition reinitialising (w : cwaiter_pc) : bool := match w with CReInit _ => true | _ => false end.

(** What callers may promise: that acquires are kept away from
    re-initialisation, and that ExWaitForRundownProtectionReleaseCacheAware is not
    called a second time before the object is re-initialised. *)
Record promises := mkPromises { reinit_alone : bool; wait_once : bool }.
Variable promised : promises.

(** What all callers promise: a thread gives back only references it holds, a
    request is for at least one, and the references held, asked for, or given
    back while the total is being taken fit half the counter. *)
Definition cmay_call (s : cstate) (c : cclient) (op : client_op) : bool :=
  (1 <=? op_count op) &&
  if is_acquire op then (in_flight s + op_count op <? 2 ^ 30) && negb (reinit_alone promised && reinitialising (cwaiter s))
  else op_count op <=? cheld c.

Inductive coutcome := CRunning (s : cstate) | CFault.

Inductive cstep (s : cstate) : coutcome -> Prop :=
  | cstep_call i c op p :
      cclients s !! i = Some c -> idle c = true -> cmay_call s c op = true -> 0 <= p ->
      cstep s (CRunning (mkCSt (csh s) (cwaiter s) (<[i := enter op p (csh s) c]> (cclients s))))
  | cstep_client i c sh' c' :
      cclients s !! i = Some c -> idle c = false -> cclient_step (csh s) c = Some (sh', c') ->
      cstep s (CRunning (mkCSt sh' (cwaiter s) (<[i := c']> (cclients s))))
  | cstep_client_fault i c :
      cclients s !! i = Some c -> idle c = false -> cclient_step (csh s) c = None -> cstep s CFault
  | cstep_wait_call :
      cwaiter s = CIdle ->
      cstep s (CRunning (mkCSt (mkCS (words (csh s)) (Some (mkWB 0 None))) (CRead 0 0) (cclients s)))
  | cstep_wait_again_call :
      cwaiter s = CDone -> wait_once promised = false ->
      cstep s (CRunning (mkCSt (mkCS (words (csh s)) (Some (mkWB 0 None))) (CRead 0 0) (cclients s)))
  | cstep_completed_call :
      cwaiter s = CDone -> cstep s (CRunning (mkCSt (csh s) (CCompleted 0) (cclients s)))
  | cstep_reinit_call :
      cwaiter s = CDone -> (reinit_alone promised = true -> Forall (fun c => acquiring c = false) (cclients s)) ->
      cstep s (CRunning (mkCSt (csh s) (CReInit 0) (cclients s)))
  | cstep_wait sh' pc' :
      cwaiter_step (csh s) (cwaiter s) = Some (Some (sh', pc')) ->
      cstep s (CRunning (mkCSt sh' pc' (cclients s)))
  | cstep_wait_fault : cwaiter_step (csh s) (cwaiter s) = None -> cstep s CFault.

Inductive creachable (processors n : nat) : coutcome -> Prop :=
  | creach_init : creachable processors n (CRunning (cinitial processors n))
  | creach_step s o : creachable processors n (CRunning s) -> cstep s o -> creachable processors n o.

(** ** Executions *)

Inductive caction :=
  | KCall (i : nat) (op : client_op) (p : Z) | KClient (i : nat)
  | KWaitCall | KWait | KCompleted | KReInit.

Definition cexec (s : cstate) (a : caction) : option cstate :=
  match a with
  | KCall i op p =>
      c ← cclients s !! i;
      if idle c && cmay_call s c op && (0 <=? p)
      then Some (mkCSt (csh s) (cwaiter s) (<[i := enter op p (csh s) c]> (cclients s))) else None
  | KClient i =>
      c ← cclients s !! i;
      if idle c then None
      else '(sh', c') ← cclient_step (csh s) c; Some (mkCSt sh' (cwaiter s) (<[i := c']> (cclients s)))
  | KWaitCall =>
      match cwaiter s with
      | CIdle => Some (mkCSt (mkCS (words (csh s)) (Some (mkWB 0 None))) (CRead 0 0) (cclients s))
      | CDone => if wait_once promised then None
                 else Some (mkCSt (mkCS (words (csh s)) (Some (mkWB 0 None))) (CRead 0 0) (cclients s))
      | _ => None
      end
  | KWait =>
      match cwaiter_step (csh s) (cwaiter s) with
      | Some (Some (sh', pc')) => Some (mkCSt sh' pc' (cclients s))
      | _ => None
      end
  | KCompleted => match cwaiter s with CDone => Some (mkCSt (csh s) (CCompleted 0) (cclients s)) | _ => None end
  | KReInit =>
      match cwaiter s with
      | CDone => if negb (reinit_alone promised) || forallb (fun c => negb (acquiring c)) (cclients s)
                 then Some (mkCSt (csh s) (CReInit 0) (cclients s)) else None
      | _ => None
      end
  end.
Fixpoint crun (s : cstate) (acts : list caction) : option cstate :=
  match acts with [] => Some s | a :: acts => s' ← cexec s a; crun s' acts end.
End WithWaiter.

(** ** The layout is right *)

Lemma align_up p k : 0 <= k -> 0 <= p -> p + (2 ^ k - 1) < 2 ^ 32 ->
  EXP_ALIGN_UP_PTR_ON_BOUNDARY p (2 ^ k) = 2 ^ k * ((p + (2 ^ k - 1)) / 2 ^ k).
Proof.
  intros Hk Hp Hb. pose proof (Z.pow_pos_nonneg 2 k ltac:(lia) Hk). unfold EXP_ALIGN_UP_PTR_ON_BOUNDARY.
  rewrite (u32_small (p + _)) by lia. unfold u32, uwrap.
  rewrite <- (Z.land_ones (Z.lnot _) 32) by lia. rewrite (Z.land_comm (Z.lnot _)), Z.land_assoc, Z.land_ones, Z.mod_small by lia.
  replace (2 ^ k - 1) with (Z.ones k) by (rewrite Z.ones_equiv; lia).
  rewrite <- Z.ldiff_land, Z.ldiff_ones_r, Z.shiftl_mul_pow2, Z.shiftr_div_pow2 by lia. lia.
Qed.
Lemma align_up_bounds p k : 0 <= k -> 0 <= p -> p + (2 ^ k - 1) < 2 ^ 32 ->
  let a := EXP_ALIGN_UP_PTR_ON_BOUNDARY p (2 ^ k) in p <= a < p + 2 ^ k /\ a mod 2 ^ k = 0.
Proof.
  intros Hk Hp Hb a. unfold a. rewrite align_up by done. pose proof (Z.pow_pos_nonneg 2 k ltac:(lia) Hk).
  set (l := 2 ^ k) in *. pose proof (Z.div_mod (p + (l - 1)) l ltac:(lia)). pose proof (Z.mod_pos_bound (p + (l - 1)) l ltac:(lia)).
  split; [lia|]. rewrite Z.mul_comm. by apply Z_mod_mult.
Qed.
Lemma is_aligned p k : 0 <= k -> EXP_IS_ALIGNED_ON_BOUNDARY p (2 ^ k) = (p mod 2 ^ k =? 0).
Proof.
  intros Hk. unfold EXP_IS_ALIGNED_ON_BOUNDARY. replace (2 ^ k - 1) with (Z.ones k) by (rewrite Z.ones_equiv; lia).
  by rewrite Z.land_ones.
Qed.

(** The references of [r] are in a block of memory, each in a line of its own. *)
Definition refs_in (r : EX_RUNDOWN_REF_CACHE_AWARE) (first last : Z) : Prop :=
  forall i, 0 <= i < Number r ->
    let a := EXP_GET_PROCESSOR_RUNDOWN_REF r i in
    a = RunRefs r + i * RunRefSize r /\ first <= a /\ a + sizeof_EX_RUNDOWN_REF <= last /\
    (1 < Number r -> a mod RunRefSize r = 0).

Lemma refs_at r first last : 0 < Number r -> sizeof_EX_RUNDOWN_REF <= RunRefSize r -> 0 <= first <= RunRefs r ->
  RunRefs r + Number r * RunRefSize r <= last < 2 ^ 32 -> (1 < Number r -> RunRefs r mod RunRefSize r = 0) -> refs_in r first last.
Proof.
  unfold sizeof_EX_RUNDOWN_REF. intros HN Hs Hf Hl Ha i Hi. unfold EXP_GET_PROCESSOR_RUNDOWN_REF. rewrite Z.mod_small by lia.
  assert (i * RunRefSize r + RunRefSize r <= Number r * RunRefSize r) by nia.
  assert (0 <= i * RunRefSize r) by nia. unfold sizeof_EX_RUNDOWN_REF. rewrite u32_small by lia. split_and!; [done|lia|lia|].
  intros H1. rewrite Z_mod_plus_full. by apply Ha.
Qed.

Section LayoutOk.
Context (P k : Z).
Hypothesis HP : 1 <= P.
Hypothesis Hk : 2 <= k.
Hypothesis Hsize : 16 + 2 ^ k * (P + 1) < 2 ^ 32.

Lemma line_ge : 4 <= 2 ^ k.
Proof. change 4 with (2 ^ 2). apply Z.pow_le_mono_r; lia. Qed.


(** An allocated structure has one reference per processor as well, inside the block
    that is freed with it; NULL is returned only when an allocation failed. *)
Theorem allocated_layout StructPool Pool PoolAgain :
  (forall size q, Pool size = Some q \/ PoolAgain size = Some q -> 0 <= q /\ q + size < 2 ^ 32) ->
  match ExAllocateCacheAwareRundownProtection P (2 ^ k) StructPool Pool PoolAgain with
  | None => False
  | Some None => StructPool = None \/ exists size, Pool size = None \/ PoolAgain size = None
  | Some (Some r) => Number r = P /\ exists size,
      (Pool size = Some (PoolToFree r) \/ PoolAgain size = Some (PoolToFree r)) /\ refs_in r (PoolToFree r) (PoolToFree r + size)
  end.
Proof.
  intros Hpool. pose proof line_ge as Hl. unfold ExAllocateCacheAwareRundownProtection, KeGetRecommendedSharedDataAlignment, sizeof_EX_RUNDOWN_REF.
  destruct StructPool; [|by left].
  assert (Hpow : Z.land (2 ^ k) (2 ^ k - 1) = 0).
  { replace (2 ^ k - 1) with (Z.ones k) by (rewrite Z.ones_equiv; lia). rewrite Z.land_ones by lia. apply Z_mod_same_full. }
  destruct (Z.gtb_spec P 1) as [H1|H1]; cbn [andb].
  - rewrite Hpow. cbn [Z.eqb negb]. destruct (Z.leb_spec 4 (2 ^ k)); [|lia]. cbn [negb].
    rewrite (u32_small (2 ^ k * P)), (u32_small (2 ^ k * P + 2 ^ k)) by nia.
    destruct (Pool (2 ^ k * P)) as [q|] eqn:Eq; [|right; eauto]. rewrite is_aligned by lia.
    destruct (Z.eqb_spec (q mod 2 ^ k) 0) as [Hal|Hal]; cbn [negb].
    + split; [done|]. exists (2 ^ k * P). split; [by left|]. destruct (Hpool (2 ^ k * P) q (or_introl Eq)).
      apply refs_at; cbn [Number RunRefSize RunRefs PoolToFree]; unfold sizeof_EX_RUNDOWN_REF; first [done|lia].
    + destruct (PoolAgain (2 ^ k * P + 2 ^ k)) as [q'|] eqn:Eq'; [|right; eauto].
      split; [done|]. exists (2 ^ k * P + 2 ^ k). split; [by right|]. destruct (Hpool (2 ^ k * P + 2 ^ k) q' (or_intror Eq')).
      destruct (align_up_bounds q' k) as [Ha Ham]; [lia..|nia|].
      apply refs_at; cbn [Number RunRefSize RunRefs PoolToFree]; unfold sizeof_EX_RUNDOWN_REF; first [done|lia].
  - assert (P = 1) as E by lia. rewrite E. change (u32 (4 * 1)) with 4. cbn [negb Z.leb].
    destruct (Pool 4) as [q|] eqn:Eq; [|right; eauto]. split; [done|]. exists 4. split; [by left|].
    destruct (Hpool 4 q (or_introl Eq)).
    apply refs_at; cbn [Number RunRefSize RunRefs PoolToFree]; unfold sizeof_EX_RUNDOWN_REF; lia.
Qed.
End LayoutOk.

Lemma allocated_layout_witness :
  ExAllocateCacheAwareRundownProtection 4 64 (Some 8) (fun _ => Some 1000) (fun _ => Some 2000) = Some (Some (mkCA 2048 2000 64 4)) /\
  exists size, refs_in (mkCA 2048 2000 64 4) 2000 (2000 + size).
Proof.
  split; [vm_compute; reflexivity|].
  pose proof (allocated_layout 4 6 ltac:(lia) ltac:(lia) ltac:(lia) (Some 8)
    (fun s => if s <=? 1000 then Some 1000 else None) (fun s => if s <=? 1000 then Some 2000 else None)) as H.
  destruct H as (_ & size & _ & H); [|by exists size]. intros size q. destruct (Z.leb_spec size 1000); [|by intros [?|?]].
  intros [[= <-]|[= <-]]; lia.
Defined.

End CacheAware.
