(* ===== verification/ExRundownCacheInv.v ===== *)
(** * Cache-aware rundown protection: the protocol is correct

    An invariant of the system of [ExRundownCache]: the words and the wait block
    account, modulo 2^32, for the references held, phase by phase ([cphase]).
    [cclient_step_ok] and [cwaiter_step_ok] show that every step of a client and of the
    waiter keeps it and does not fault; the theorems follow.  The last part shows three
    ways in which the routines break outside the promises of their callers. *)

From S2P Require Import Prelude ExRundown ExRundownCache.

Module CacheInv.
Import Rundown CacheAware.

(** The callers keep acquires away from re-initialisation and do not wait again
    before it. *)
Definition disciplined : promises := mkPromises true true.

(** ** Invariant *)

Definition csignals (c : cclient) : Z := signals (inner c).

Definition live (w : cwaiter_pc) : bool :=
  match w with CRead _ _ | CTry _ _ _ | CInit _ | CAdd _ | CBlocked => true | _ => false end.

(** What a word contributes to the sum: nothing once it is marked. *)
Definition count_of (w : Z) : Z := if is_active w then 0 else w.

Lemma u32_even w d : is_active w = false -> is_active (u32 (w + 2 * d)) = false.
Proof.
  rewrite !is_active_odd. intros Hw. destruct (u32_quot (w + 2 * d)) as [q ->].
  replace (w + 2 * d + 2 ^ 32 * q) with (w + 2 * (d + 2 ^ 31 * q)) by lia.
  rewrite Z.odd_add, Z.odd_mul, Hw. done.
Qed.

Section Proofs.
Variable WB N : Z.
Hypothesis WB_even : WB mod 2 = 0.
Hypothesis WB_range : 0 < WB < 2 ^ 32.
Hypothesis N_mp : 1 < N.

Abbreviation tagged := (tagged WB).

Definition count_word (w : Z) : Prop := 0 <= w < 2 ^ 32 /\ is_active w = false.
Definition down_word (w : Z) : Prop := w = tagged \/ w = EX_RUNDOWN_ACTIVE.
Definition each (P : nat -> Z -> Prop) (ws : list Z) : Prop := forall i w, ws !! i = Some w -> P i w.

(** The words, the references held [T], the pending wake-ups [S] and the block
    agree with what the waiter is doing; [R] references were given back to the
    block before the total was added. *)
Definition cphase (s : cshared) (w : cwaiter_pc) (T S : Z) : Prop :=
  match w with
  | CIdle => each (fun _ => count_word) (words s) /\ block s = None /\ S = 0 /\
      exists q, zsum count_of (words s) = 2 * T + 2 ^ 32 * q
  | CRead k Tot | CTry k _ Tot => (k < length (words s))%nat /\
      each (fun i x => if decide (i < k)%nat then x = tagged else count_word x) (words s) /\ S = 0 /\ 0 <= Tot < 2 ^ 32 /\
      match w with CTry _ v _ => is_active v = false | _ => True end /\
      exists R, 0 <= R < 2 ^ 30 /\ block s = Some (mkWB (u32 (- R)) None) /\
        exists q, Tot + zsum count_of (words s) = 2 * (T + R) + 2 ^ 32 * q
  | CInit Tot | CAdd Tot => each (fun _ x => x = tagged) (words s) /\ S = 0 /\
      exists R, 0 <= R < 2 ^ 30 /\ 0 < Tot /\ Tot = T + R /\
        block s = Some (mkWB (u32 (- R)) (match w with CAdd _ => Some false | _ => None end))
  | CBlocked => each (fun _ x => x = tagged) (words s) /\
      exists b, block s = Some (mkWB T (Some b)) /\
        S = (if negb b && (T =? 0) then 1 else 0) /\ (b = true -> T = 0)
  | CDone => each (fun _ => down_word) (words s) /\ block s = None /\ T = 0 /\ S = 0
  | CCompleted k => (k < length (words s))%nat /\ each (fun _ => down_word) (words s) /\ block s = None /\ T = 0 /\ S = 0
  | CReInit k => (k < length (words s))%nat /\ each (fun i x => if decide (i < k)%nat then x = 0 else down_word x) (words s) /\
      block s = None /\ T = 0 /\ S = 0
  end.

Definition op_fits (c : cclient) : Prop :=
  match current_op c with
  | Some op => 1 <= op_count op /\ (is_acquire op = false -> op_count op <= cheld c)
  | None => True
  end.

Definition cclient_ok (processors : nat) (w : cwaiter_pc) (c : cclient) : Prop :=
  0 <= cheld c /\ op_fits c /\ (Index c < processors)%nat /\
  (reinitialising w = true -> acquiring c = false) /\
  match fast c with
  | FastRead op => op_count op = 1 /\ cpc (inner c) = Idle
  | FastTry op v => op_count op = 1 /\ cpc (inner c) = Idle /\ is_active v = false
  | NoFast => match cpc (inner c) with
              | Try op v => is_acquire op = false -> is_active v = true -> v = tagged /\ live w = true
              | _ => True
              end
  end.

Record cinv (processors : nat) (s : cstate) : Prop := {
  cinv_length : length (words (csh s)) = processors;
  cinv_clients : Forall (cclient_ok processors (cwaiter s)) (cclients s);
  cinv_room : in_flight s < 2 ^ 30;
  cinv_phase : cphase (csh s) (cwaiter s) (zsum cheld (cclients s)) (zsum csignals (cclients s)) }.

(** ** What the phases say of a word *)

Lemma cphase_word s w T S i x : cphase s w T S -> words s !! i = Some x ->
  count_word x \/ is_active x = true /\ (0 < T -> x = tagged /\ live w = true).
Proof.
  pose proof (tagged_active WB WB_even) as Ht. unfold cphase.
  assert (H0 : count_word 0) by (unfold count_word; done).
  assert (Hd : forall y, down_word y -> is_active y = true) by (intros y [->| ->]; done).
  intros H Hi. destruct w; cbn [live].
  - left. destruct H as [H _]. exact (H i x Hi).
  - destruct H as (_ & H & _). specialize (H i x Hi). cbn in H. destruct (decide _); [subst; by right|by left].
  - destruct H as (_ & H & _). specialize (H i x Hi). cbn in H. destruct (decide _); [subst; by right|by left].
  - destruct H as [H _]. specialize (H i x Hi). cbn in H. subst. by right.
  - destruct H as [H _]. specialize (H i x Hi). cbn in H. subst. by right.
  - destruct H as [H _]. specialize (H i x Hi). cbn in H. subst. by right.
  - destruct H as (H & _ & -> & _). right. split; [by eapply Hd, H|lia].
  - destruct H as (_ & H & _ & -> & _). right. split; [by eapply Hd, H|lia].
  - destruct H as (_ & H & _ & -> & _). specialize (H i x Hi). cbn in H. destruct (decide _); [subst; by left|].
    right. split; [by apply Hd|lia].
Qed.

Lemma each_insert P ws i y : each P ws -> P i y -> each P (<[i := y]> ws).
Proof.
  intros H Hy j x Hj. destruct (decide (i = j)) as [<-|Hne].
  - destruct (decide (i < length ws)%nat).
    + rewrite list_lookup_insert_eq in Hj by done. by injection Hj as <-.
    + rewrite list_insert_ge in Hj by lia. by apply H.
  - rewrite list_lookup_insert_ne in Hj by done. by apply H.
Qed.

(** Counting on a word that is not marked. *)
Lemma cphase_count s w T S i x d : cphase s w T S -> words s !! i = Some x -> is_active x = false ->
  reinitialising w = false ->
  cphase (mkCS (<[i := u32 (x + 2 * d)]> (words s)) (block s)) w (T + d) S.
Proof.
  pose proof (tagged_active WB WB_even) as Ht. intros H Hi Hx Hre.
  assert (Hne : forall P, each P (words s) -> P i x) by (intros P HP; by apply HP).
  assert (Hcw : count_word (u32 (x + 2 * d))).
  { split; [apply uwrap_range; lia|by apply u32_even]. }
  destruct (u32_quot (x + 2 * d)) as [q0 Hq0].
  assert (Hsum : zsum count_of (<[i := u32 (x + 2 * d)]> (words s)) = zsum count_of (words s) + 2 * d + 2 ^ 32 * q0).
  { rewrite (zsum_insert _ _ _ _ _ Hi). unfold count_of at 2 3. rewrite Hx, u32_even by done. lia. }
  unfold cphase in *. destruct w; cbn [words block]; rewrite ?length_insert, ?Hsum; try done.
  - destruct H as (H & Hb & HS & q & Hq). split_and!; [by apply each_insert|done..|]. exists (q + q0). lia.
  - destruct H as (Hk & H & HS & HT & _ & R & HR & Hb & q & Hq). pose proof (Hne _ H) as Hw. cbn in Hw.
    split_and!; [done| |first [done|lia]..|].
    { apply each_insert; [done|]. destruct (decide _); [congruence|done]. }
    exists R. split_and!; [lia|lia|done|]. exists (q + q0). lia.
  - destruct H as (Hk & H & HS & HT & Hv & R & HR & Hb & q & Hq). pose proof (Hne _ H) as Hw. cbn in Hw.
    split_and!; [done| |first [done|lia]..|].
    { apply each_insert; [done|]. destruct (decide _); [congruence|done]. }
    exists R. split_and!; [lia|lia|done|]. exists (q + q0). lia.
  - destruct H as [H _]. pose proof (Hne _ H). cbn in *. congruence.
  - destruct H as [H _]. pose proof (Hne _ H). cbn in *. congruence.
  - destruct H as [H _]. pose proof (Hne _ H). cbn in *. congruence.
  - destruct H as [H _]. destruct (Hne _ H) as [->| ->]; [congruence|done].
  - destruct H as (_ & H & _). destruct (Hne _ H) as [->| ->]; [congruence|done].
Qed.

(** Giving references back to the block. *)
Lemma cphase_down s w T S n : cphase s w T S -> live w = true -> 1 <= n <= T -> T + given_back s < 2 ^ 30 ->
  exists cnt ev, block s = Some (mkWB cnt ev) /\ 0 <= cnt < 2 ^ 32 /\
    let s' := mkCS (words s) (Some (mkWB (u32 (cnt - n)) ev)) in
    cphase s' w (T - n) (S + if s32 cnt =? n then 1 else 0) /\ given_back s' <= given_back s + n.
Proof.
  intros H Hl Hn Hroom.
  assert (HR : forall R ev, 0 <= R < 2 ^ 30 -> block s = Some (mkWB (u32 (- R)) ev) ->
    0 <= u32 (- R) < 2 ^ 32 /\ u32 (u32 (- R) - n) = u32 (- (R + n)) /\ (s32 (u32 (- R)) =? n) = false /\
    0 <= R + n < 2 ^ 30 /\ given_back (mkCS (words s) (Some (mkWB (u32 (- (R + n))) ev))) <= given_back s + n).
  { intros R ev HR Hb. unfold given_back in *. rewrite Hb in *. cbn [block wbCount] in *.
    pose proof (uwrap_range 32 (- R) ltac:(lia)). rewrite !s32_neg in * by lia. split_and!; try lia.
    rewrite <- Z.add_opp_r, u32_add_l. f_equal. lia. }
  unfold cphase in *. destruct w; try done; cbn [words block].
  - destruct H as (Hk & H & HS & HT & Hv & R & HRr & Hb & q & Hq). destruct (HR _ _ HRr Hb) as (A1 & A2 & A3 & A4 & A5).
    exists (u32 (- R)), None. rewrite A2, A3, Z.add_0_r. split_and!; try done; try lia. exists (R + n). split_and!; try done; try lia.
    exists q. lia.
  - destruct H as (Hk & H & HS & HT & Hv & R & HRr & Hb & q & Hq). destruct (HR _ _ HRr Hb) as (A1 & A2 & A3 & A4 & A5).
    exists (u32 (- R)), None. rewrite A2, A3, Z.add_0_r. split_and!; try done; try lia. exists (R + n). split_and!; try done; try lia.
    exists q. lia.
  - destruct H as (H & HS & R & HRr & Hp & HT & Hb). destruct (HR _ _ HRr Hb) as (A1 & A2 & A3 & A4 & A5).
    exists (u32 (- R)), None. rewrite A2, A3, Z.add_0_r. split_and!; try done; try lia. exists (R + n). split_and!; try done; try lia.
  - destruct H as (H & HS & R & HRr & Hp & HT & Hb). destruct (HR _ _ HRr Hb) as (A1 & A2 & A3 & A4 & A5).
    exists (u32 (- R)), (Some false). rewrite A2, A3, Z.add_0_r. split_and!; try done; try lia. exists (R + n). split_and!; try done; try lia.
  - destruct H as (H & b & Hb & HS & Hbt). assert (b = false) as -> by (destruct b; [lia|done]). cbn [negb andb] in *.
    assert (0 <= given_back s) by (unfold given_back; destruct (block s); lia).
    exists T, (Some false). unfold given_back. rewrite Hb. cbn [block wbCount].
    rewrite u32_small by lia. rewrite !s32_small by lia. split_and!; try done; try lia.
    exists false. split_and!; [done| |done]. cbn [negb andb].
    destruct (Z.eqb_spec T n), (Z.eqb_spec (T - n) 0), (Z.eqb_spec T 0); lia.
Qed.

Lemma cphase_signal s w T S : cphase s w T S -> 1 <= S ->
  exists cnt b, block s = Some (mkWB cnt (Some b)) /\
    let s' := mkCS (words s) (Some (mkWB cnt (Some true))) in cphase s' w T (S - 1) /\ given_back s' = given_back s.
Proof.
  unfold cphase. intros H HS. destruct w; try (exfalso; lia).
  destruct H as (H & b & Hb & HSb & Hbt). destruct b; [cbn in HSb; lia|]. cbn [negb andb] in HSb.
  destruct (Z.eqb_spec T 0) as [->|]; [|lia].
  exists 0, false. unfold given_back. rewrite Hb. cbn [block words wbCount]. split_and!; try done.
  exists true. split_and!; try done. cbn. lia.
Qed.
End Proofs.

Lemma untag_inactive x : is_active (Z.land x (u32 (Z.lnot EX_RUNDOWN_ACTIVE))) = false.
Proof.
  unfold is_active. rewrite <- Z.land_assoc. change (Z.land (u32 _) EX_RUNDOWN_ACTIVE) with 0. by rewrite Z.land_0_r.
Qed.
Lemma cshared_same s i x : words s !! i = Some x -> mkCS (<[i := x]> (words s)) (block s) = s.
Proof. intros H. rewrite list_insert_id by done. by destruct s. Qed.

Section Client.
Variable WB N : Z.
Hypothesis WB_even : WB mod 2 = 0.
Hypothesis WB_range : 0 < WB < 2 ^ 32.
Hypothesis N_mp : 1 < N.
Abbreviation tagged := (tagged WB).

Variables (n : nat) (s : cshared) (w : cwaiter_pc) (T S : Z) (c : cclient).
Hypothesis Hphase : cphase WB s w T S.
Hypothesis Hlen : length (words s) = n.
Hypothesis Hc : cclient_ok WB n w c.
Hypothesis HT : cheld c <= T.
Hypothesis HS : csignals c <= S.
Hypothesis Hroom : T - cheld c + crequested c + given_back s < 2 ^ 30.

(** What one step of a client must establish. *)
Definition cpost (r : option (cshared * cclient)) : Prop :=
  exists s' c', r = Some (s', c') /\ length (words s') = n /\ cclient_ok WB n w c' /\
    crequested c' + given_back s' <= crequested c + given_back s /\
    cphase WB s' w (T - cheld c + cheld c') (S - csignals c + csignals c').

Lemma reinit_none : reinitialising w = true -> T = 0.
Proof. destruct w; try done. intros _. apply Hphase. Qed.

Lemma cpost_local c' : cheld c' = cheld c -> csignals c' = csignals c -> crequested c' <= crequested c ->
  cclient_ok WB n w c' -> cpost (Some (s, c')).
Proof.
  intros E1 E2 E3 Hok. exists s, c'. split_and!; [done..|lia|]. rewrite E1, E2.
  by replace (T - cheld c + cheld c) with T by lia; replace (S - csignals c + csignals c) with S by lia.
Qed.

(** The client after it has returned. *)
Definition returned (h : Z) (r : option bool) : cclient := mkCC (mkCl Idle h r) NoFast (Index c).
Lemma returned_ok h r : 0 <= h -> cclient_ok WB n w (returned h r).
Proof.
  destruct Hc as (_ & _ & Hi & _). intros Hh. unfold cclient_ok, op_fits, acquiring, current_op, returned, cheld. cbn.
  split_and!; done.
Qed.

Lemma cpost_count x d h r : words s !! Index c = Some x -> is_active x = false -> csignals c = 0 ->
  current_op c <> None -> h = cheld c + d -> 0 <= h -> h <= crequested c ->
  (acquiring c = false -> 1 <= cheld c) ->
  cpost (Some (mkCS (<[Index c := u32 (x + 2 * d)]> (words s)) (block s), returned h r)).
Proof.
  intros Hx Ha Hs Hop Hh Hh0 Hreq Hrel.
  assert (Hre : reinitialising w = false).
  { destruct (reinitialising w) eqn:E; [|done]. pose proof (reinit_none E). destruct Hc as (_ & _ & _ & Hacq & _).
    specialize (Hrel (Hacq E)). lia. }
  eexists _, _. split_and!; [reflexivity|cbn; by rewrite length_insert|by apply returned_ok| |].
  - unfold crequested at 1. unfold current_op, returned, cheld at 1, given_back. cbn [fast inner cpc held block]. lia.
  - rewrite Hs. change (csignals (returned h r)) with 0. change (cheld (returned h r)) with h.
    replace (S - 0 + 0) with S by lia. replace (T - cheld c + h) with (T + d) by lia.
    by apply (cphase_count WB WB_even).
Qed.

Lemma cpost_down k : live w = true -> csignals c = 0 -> 1 <= k <= cheld c -> current_op c <> None ->
  exists cnt ev, block s = Some (mkWB cnt ev) /\ 0 <= cnt < 2 ^ 32 /\
  forall op, cpost (Some (mkCS (words s) (Some (mkWB (u32 (cnt - k)) ev)),
    mkCC (mkCl (if s32 cnt =? k then Signal op else Idle) (cheld c - k) (ret (inner c))) NoFast (Index c))).
Proof.
  intros Hl Hs Hk Hop.
  assert (Hreq : cheld c <= crequested c).
  { unfold crequested. destruct Hc as (_ & Hf & _). unfold op_fits in Hf. destruct (current_op c) as [op|]; [|done].
    destruct (is_acquire op); lia. }
  destruct (cphase_down WB s w T S k Hphase Hl ltac:(lia) ltac:(lia)) as (cnt & ev & Hb & Hcnt & Hph & Hg).
  exists cnt, ev. split_and!; [done|lia|lia|]. intros op. eexists _, _. split_and!; [reflexivity|done| | |].
  - destruct Hc as (Hh & _ & Hi & _). unfold cclient_ok, op_fits, acquiring, current_op, cheld. cbn [fast inner cpc held Index].
    destruct (s32 cnt =? k); (split_and!; [cbn; unfold cheld in *; lia|done..]).
  - unfold crequested at 1, current_op, cheld at 1. cbn [fast inner cpc held].
    destruct (s32 cnt =? k); unfold cheld in *; lia.
  - rewrite Hs. unfold csignals, signals, cheld at 2. cbn [inner cpc held].
    replace (T - cheld c + (cheld c - k)) with (T - k) by lia.
    replace (S - 0 + match (if s32 cnt =? k then Signal op else Idle) with Signal _ => 1 | _ => 0 end)
      with (S + if s32 cnt =? k then 1 else 0) by (destruct (s32 cnt =? k); lia). exact Hph.
Qed.

Section Word.
Variable x : Z.
Hypothesis Hx : words s !! Index c = Some x.

Lemma inline_ok : fast c <> NoFast -> cpost (inline_step N s c).
Proof.
  intros Hf. pose proof Hc as (Hh & Hfit & Hi & Hre & Hpc). unfold inline_step. rewrite Hx. cbn [mbind option_bind].
  destruct (fast c) as [|op|op v] eqn:Ef; [done| |].
  - destruct Hpc as [H1 Hid]. apply cpost_local; [done|done| |].
    + unfold crequested, current_op. rewrite Ef. cbn. unfold cheld. cbn. lia.
    + unfold cclient_ok, op_fits, acquiring, current_op, cheld in *. rewrite Ef in *. cbn [fast inner Index] in *.
      split_and!; first [apply untag_inactive|tauto].
  - destruct Hpc as (H1 & Hid & Hv). assert (Hs : csignals c = 0) by (unfold csignals, signals; by rewrite Hid).
    assert (Hop : current_op c = Some op) by (unfold current_op; by rewrite Ef).
    unfold op_fits in Hfit. rewrite Hop in Hfit.
    unfold InterlockedCompareExchangePointer. cbn [RunRef]. destruct (Z.eqb_spec x v) as [->|Hne].
    + unfold ASSERT. replace (N >? 1) with true by lia. rewrite orb_true_r. cbn [RunRef set_RunRef].
      change EX_RUNDOWN_COUNT_INC with (2 * 1).
      destruct (is_acquire op) eqn:Ea.
      * apply cpost_count; try done; [congruence|unfold cheld in *; lia| |].
        -- unfold crequested. rewrite Hop, Ea. unfold cheld. lia.
        -- unfold acquiring. rewrite Hop. congruence.
      * replace (v - 2 * 1) with (v + 2 * (-1)) by lia. destruct Hfit as [_ Hfit]. specialize (Hfit eq_refl). unfold cheld in *.
        apply cpost_count; try done; unfold cheld; [congruence|lia| |lia].
        unfold crequested. rewrite Hop, Ea. unfold cheld. lia.
    + apply cpost_local; [done| | |].
      * by rewrite Hs.
      * unfold crequested. rewrite Hop. cbn. unfold cheld. cbn. lia.
      * unfold cclient_ok, op_fits, acquiring in *. rewrite Hop in Hre. unfold current_op, cheld in *. cbn [fast inner cpc held Index] in *.
        split_and!; tauto.
Qed.

Lemma retry_ok op h r : h = cheld c -> csignals c = 0 -> current_op c = Some op ->
  cpost (Some (s, mkCC (mkCl (Try op x) h r) NoFast (Index c))).
Proof.
  intros -> Hs Hop. pose proof Hc as (Hh & Hfit & Hi & Hre & _). unfold op_fits, acquiring in *. rewrite Hop in *.
  apply cpost_local; [done|by rewrite Hs| |].
  - unfold crequested. rewrite Hop. done.
  - unfold cclient_ok, op_fits, acquiring, current_op. cbn [fast inner cpc held Index]. split_and!; try tauto.
    intros Hrel Hact. destruct Hfit as [Hf1 Hf2]. specialize (Hf2 Hrel).
    destruct (cphase_word WB WB_even _ _ _ _ _ _ Hphase Hx) as [[_ Hcw]|[_ Htag]]; [congruence|]. apply Htag. lia.
Qed.

(** The loops of rundown.c, on the word and the block. *)
Definition lift (r : option (shared * client)) : option (cshared * cclient) :=
  '(sh', c') ← r; Some (mkCS (<[Index c := RunRef sh']> (words s)) (WaitBlock sh'), mkCC c' NoFast (Index c)).

Lemma lift_same c' : lift (Some (mkSh x (block s), c')) = Some (s, mkCC c' NoFast (Index c)).
Proof. cbn. by rewrite cshared_same. Qed.

Section Try.
Variables (op : client_op) (v : Z).
Hypothesis Hfast : fast c = NoFast.
Hypothesis Hpc : cpc (inner c) = Try op v.

Lemma try_facts : current_op c = Some op /\ csignals c = 0 /\ 1 <= op_count op /\
  (is_acquire op = false -> op_count op <= cheld c /\ (is_active v = true -> v = tagged /\ live w = true)).
Proof.
  pose proof Hc as (_ & Hfit & _ & _ & Hv). unfold op_fits, current_op, csignals, signals in *. rewrite Hfast, Hpc in *.
  split_and!; try tauto.
Qed.

Lemma cas_retry New : x <> v -> InterlockedCompareExchangePointer (mkSh x (block s)) New v = (mkSh x (block s), x).
Proof. intros H. unfold InterlockedCompareExchangePointer. cbn. by destruct (Z.eqb_spec x v). Qed.
Lemma cas_done New : x = v -> InterlockedCompareExchangePointer (mkSh x (block s)) New v = (mkSh New (block s), v).
Proof. intros ->. unfold InterlockedCompareExchangePointer. cbn. by rewrite Z.eqb_refl. Qed.

Lemma try_acquire_ok inc : is_acquire op = true -> inc = u32 (2 * op_count op) ->
  cpost (lift (ExAcquireRundownProtectionEx_loop inc (mkSh x (block s)) op v (inner c))).
Proof.
  intros Ha ->. destruct try_facts as (Hop & Hs & H1 & _). pose proof Hc as (Hh & _).
  assert (Hreq : crequested c = cheld c + op_count op) by (unfold crequested; by rewrite Hop, Ha).
  unfold ExAcquireRundownProtectionEx_loop. destruct (is_active v) eqn:Ev.
  { rewrite lift_same. apply cpost_local; [done|by rewrite Hs| |by apply returned_ok].
    rewrite Hreq. unfold crequested, cheld. cbn. unfold cheld. lia. }
  destruct (decide (x = v)) as [E|E].
  - rewrite cas_done, Z.eqb_refl by done. cbn [lift mbind option_bind RunRef WaitBlock].
    replace (u32 (v + u32 (2 * op_count op))) with (u32 (x + 2 * op_count op)) by (rewrite E, (Z.add_comm v (u32 _)), u32_add_l; f_equal; lia).
    apply cpost_count; try done; unfold cheld in *; try congruence; try lia.
    unfold acquiring. rewrite Hop. congruence.
  - rewrite cas_retry by done. replace (x =? v) with false by lia. rewrite lift_same. by apply retry_ok.
Qed.

Lemma deref_tagged : deref WB (mkSh x (block s)) (Z.land tagged (u32 (Z.lnot EX_RUNDOWN_ACTIVE))) = block s.
Proof. unfold deref. by rewrite tagged_untag, Z.eqb_refl. Qed.

Lemma try_count_down k : is_acquire op = false -> op_count op = k -> is_active v = false ->
  cpost (lift (let '(sh', NewValue) := InterlockedCompareExchangePointer (mkSh x (block s)) (u32 (v - u32 (2 * k))) v in
    if NewValue =? v then Some (sh', mkCl Idle (held (inner c) - k) (ret (inner c)))
    else Some (sh', mkCl (Try op NewValue) (held (inner c)) (ret (inner c))))).
Proof.
  intros Ha <- Ev. destruct try_facts as (Hop & Hs & H1 & Hr). specialize (Hr Ha) as [Hk _].
  destruct (decide (x = v)) as [E|E].
  - rewrite cas_done, Z.eqb_refl by done. cbn [lift mbind option_bind RunRef WaitBlock].
    replace (u32 (v - u32 (2 * op_count op))) with (u32 (x + 2 * (- op_count op))).
    2: { destruct (u32_quot (2 * op_count op)) as [q ->]. rewrite E.
         replace (v - (2 * op_count op + 2 ^ 32 * q)) with (v + 2 * - op_count op + 2 ^ 32 * (- q)) by lia. by rewrite u32_shift. }
    apply cpost_count; try done; unfold cheld in *; try congruence; try lia.
    unfold crequested. rewrite Hop, Ha. unfold cheld. lia.
  - rewrite cas_retry by done. replace (x =? v) with false by lia. rewrite lift_same. by apply retry_ok.
Qed.

Lemma try_release_ok : op = ExfRelease -> cpost (lift (ExfReleaseRundownProtection_loop WB N (mkSh x (block s)) op v (inner c))).
Proof.
  intros Eop. destruct try_facts as (Hop & Hs & H1 & Hr). rewrite Eop in Hr at 1. specialize (Hr eq_refl) as [Hk Htag].
  assert (Hk1 : op_count op = 1) by (by rewrite Eop). unfold ExfReleaseRundownProtection_loop, ASSERT.
  replace (N >? 1) with true by lia. rewrite !orb_true_r. destruct (is_active v) eqn:Ev.
  - destruct (Htag eq_refl) as [-> Hl].
    destruct (cpost_down 1 Hl Hs ltac:(lia) ltac:(congruence)) as (cnt & ev & Hb & Hcnt & Hpost).
    rewrite deref_tagged, Hb. cbn [mbind option_bind wbCount WakeEvent]. rewrite orb_true_r.
    cbn [mbind option_bind lift set_WaitBlock RunRef WaitBlock]. rewrite list_insert_id by done. replace (s32 (u32 (cnt - 1)) =? 0) with (s32 cnt =? 1); [apply Hpost|].
    unfold s32, u32, swrap, uwrap. zdiv.
  - change EX_RUNDOWN_COUNT_INC with (u32 (2 * 1)). apply try_count_down; [by rewrite Eop|done|done].
Qed.

Lemma try_releaseEx_ok k : op = ExReleaseEx k -> k < 2 ^ 30 ->
  cpost (lift (ExReleaseRundownProtectionEx_loop WB N k (mkSh x (block s)) op v (inner c))).
Proof.
  intros Eop Hk30. destruct try_facts as (Hop & Hs & H1 & Hr). rewrite Eop in Hr at 1. specialize (Hr eq_refl) as [Hk Htag].
  assert (Hk1 : op_count op = k) by (by rewrite Eop). unfold ExReleaseRundownProtectionEx_loop, ASSERT.
  replace (N >? 1) with true by lia. rewrite !orb_true_r. destruct (is_active v) eqn:Ev.
  - destruct (Htag eq_refl) as [-> Hl].
    destruct (cpost_down k Hl Hs ltac:(lia) ltac:(congruence)) as (cnt & ev & Hb & Hcnt & Hpost).
    rewrite deref_tagged, Hb. cbn [mbind option_bind wbCount WakeEvent]. rewrite orb_true_r.
    cbn [mbind option_bind lift set_WaitBlock RunRef WaitBlock]. rewrite list_insert_id by done. rewrite (s32_small k) by lia. rewrite Z.add_opp_r. apply Hpost.
  - change EX_RUNDOWN_COUNT_INC with 2. apply try_count_down; [by rewrite Eop|done|done].
Qed.
End Try.

Lemma exf_ok : fast c = NoFast -> idle c = false -> cpost (exf_step WB N s c).
Proof.
  intros Hf Hid. unfold exf_step. rewrite Hx. cbn [mbind option_bind]. fold (lift (client_step WB N (mkSh x (block s)) (inner c))).
  unfold idle in Hid. rewrite Hf in Hid. unfold client_step. pose proof Hc as (Hh & Hfit & Hi & Hre & Hv).
  destruct (cpc (inner c)) as [|op|op v|op] eqn:Hpc; [done| | |].
  - rewrite lift_same. cbn [RunRef]. apply retry_ok; [done| |].
    + unfold csignals, signals. by rewrite Hpc.
    + unfold current_op. by rewrite Hf, Hpc.
  - pose proof (try_facts op v Hf Hpc) as (Hop & _ & H1 & Hr). destruct op as [|k| |k].
    + by apply try_acquire_ok.
    + by apply try_acquire_ok.
    + by apply try_release_ok.
    + apply try_releaseEx_ok; [done..|]. destruct (Hr eq_refl) as [Hk _]. cbn in Hk.
      assert (0 <= given_back s) by (unfold given_back; destruct (block s); lia).
      unfold crequested in Hroom. rewrite Hop in Hroom. cbn in Hroom. lia.
  - assert (Hs : csignals c = 1) by (unfold csignals, signals; by rewrite Hpc).
    destruct (cphase_signal WB s w T S Hphase ltac:(lia)) as (cnt & b & Hb & Hph & Hg).
    unfold KeSetEvent. cbn [WaitBlock]. rewrite Hb. cbn [mbind option_bind WakeEvent wbCount set_WaitBlock lift RunRef WaitBlock].
    rewrite list_insert_id by done. eexists _, _. split_and!; [reflexivity|done|by apply returned_ok| |].
    + rewrite Hg. unfold crequested, current_op. rewrite Hf, Hpc. cbn. unfold cheld. cbn. lia.
    + rewrite Hs. unfold csignals, signals, cheld at 2. cbn [inner cpc held]. unfold cheld.
      replace (T - held (inner c) + held (inner c)) with T by lia. by replace (S - 1 + 0) with (S - 1) by lia.
Qed.
End Word.

Lemma cclient_step_ok : idle c = false -> cpost (cclient_step WB N s c).
Proof.
  intros Hid. pose proof Hc as (_ & _ & Hi & _). rewrite <- Hlen in Hi.
  destruct (lookup_lt_is_Some_2 (words s) (Index c) Hi) as [x Hx]. unfold cclient_step.
  destruct (fast c) eqn:Ef; [by eapply exf_ok|eapply inline_ok; [done|congruence]..].
Qed.
End Client.

Section Waiter.
Variable WB N : Z.
Hypothesis WB_even : WB mod 2 = 0.
Hypothesis WB_range : 0 < WB < 2 ^ 32.
Abbreviation tagged := (tagged WB).

(** What one step of the waiter must establish. *)
Definition wpost (n : nat) (s : cshared) (w : cwaiter_pc) (T S : Z) (r : option (option (cshared * cwaiter_pc))) : Prop :=
  match r with
  | None => False
  | Some None => w = CIdle \/ w = CDone \/ w = CBlocked /\ (0 < T \/ 0 < S)
  | Some (Some (s', w')) => length (words s') = n /\ cphase WB s' w' T S /\ given_back s' <= given_back s /\
      (live w = true -> live w' = true \/ T = 0) /\ (reinitialising w' = true -> reinitialising w = true)
  end.

Lemma given_back_None ws : given_back (mkCS ws None) = 0.
Proof. done. Qed.
Lemma given_back_nonneg s : 0 <= given_back s.
Proof. unfold given_back. destruct (block s); lia. Qed.

Section Step.
Variables (n : nat) (s : cshared) (T S : Z).
Hypothesis Hlen : length (words s) = n.
Hypothesis HT : 0 <= T.
Hypothesis Hroom : T + given_back s < 2 ^ 30.

(** The total is twice the references held and those given back meanwhile. *)
Lemma totalled_ok w ws Tot R : S = 0 -> live w = true -> length ws = n -> each (fun _ x => x = tagged) ws -> 0 <= R < 2 ^ 30 ->
  block s = Some (mkWB (u32 (- R)) None) -> 0 <= Tot < 2 ^ 32 -> (exists q, Tot = 2 * (T + R) + 2 ^ 32 * q) ->
  wpost n s w T S (totalled (mkCS ws (block s)) Tot).
Proof.
  intros HS Hlw Hl Hw HR Hb Htot [q Hq].
  assert (HTR : T + R < 2 ^ 30).
  { unfold given_back in Hroom. rewrite Hb in Hroom. cbn in Hroom. rewrite s32_neg in Hroom by lia. lia. }
  assert (q = 0) as -> by lia. unfold totalled, ASSERT. rewrite s32_small by lia.
  replace (Tot >=? 0) with true by lia. destruct (Z.eqb_spec Tot 0) as [E|E]; cbn [negb wpost words].
  - split_and!; [done| | |by right; lia|done].
    + split_and!; [|done|lia|done]. intros i x Hi. left. by eapply Hw.
    + rewrite given_back_None. apply given_back_nonneg.
  - split_and!; [done| |done|by left|done].
    split_and!; [exact Hw|done|]. exists R. rewrite Z.shiftr_div_pow2 by done. change (2 ^ EX_RUNDOWN_COUNT_SHIFT) with 2.
    split_and!; [lia|lia|zdiv|zdiv|done].
Qed.

Lemma mark_ok k v Tot : cphase WB s (CTry k v Tot) T S -> words s !! k = Some v ->
  wpost n s (CTry k v Tot) T S
    (if Nat.ltb (Datatypes.S k) (length (words s))
     then Some (Some (mkCS (<[k := tagged]> (words s)) (block s), CRead (Datatypes.S k) (u32 (Tot + v))))
     else totalled (mkCS (<[k := tagged]> (words s)) (block s)) (u32 (Tot + v))).
Proof.
  intros (Hk & Hw & HS & HTot & Hv & R & HR & Hb & q & Hq) Hkv.
  pose proof (tagged_active WB WB_even) as Ht.
  assert (Hsum : zsum count_of (<[k := tagged]> (words s)) = zsum count_of (words s) - v).
  { rewrite (zsum_insert _ _ _ _ _ Hkv). unfold count_of at 2 3. rewrite Hv, Ht. lia. }
  assert (Hmark : each (fun i x => if decide (i < Datatypes.S k)%nat then x = tagged else count_word x) (<[k := tagged]> (words s))).
  { intros i x Hi. destruct (decide (k = i)) as [<-|Hne].
    - rewrite list_lookup_insert_eq in Hi by done. injection Hi as <-. by rewrite decide_True by lia.
    - rewrite list_lookup_insert_ne in Hi by done. specialize (Hw i x Hi). cbn in Hw.
      destruct (decide (i < k)%nat); [rewrite decide_True by lia; done|rewrite decide_False by lia; done]. }
  pose proof (uwrap_range 32 (Tot + v) ltac:(lia)) as Hur. destruct (u32_quot (Tot + v)) as [q' Hq'].
  destruct (Nat.ltb_spec (Datatypes.S k) (length (words s))) as [Hlt|Hge].
  - cbn [wpost words]. rewrite length_insert. split_and!; [done| |done|by left|done].
    cbn [cphase words block]. rewrite length_insert. split_and!; [done|exact Hmark|done|lia|lia|done|].
    exists R. split_and!; [lia|lia|done|]. exists (q + q'). rewrite Hsum. lia.
  - eapply totalled_ok; [done|done|by rewrite length_insert| |exact HR|done|exact Hur|].
    + intros i x Hi. specialize (Hmark i x Hi). cbn in Hmark. apply lookup_lt_Some in Hi. rewrite length_insert in Hi.
      by rewrite decide_True in Hmark by lia.
    + exists (q + q'). assert (zsum count_of (<[k := tagged]> (words s)) = 0); [|lia].
      apply zsum_all_zero. intros i x Hi. specialize (Hmark i x Hi). cbn in Hmark. apply lookup_lt_Some in Hi.
      rewrite length_insert in Hi. rewrite decide_True in Hmark by lia. subst x. unfold count_of. by rewrite Ht.
Qed.

Lemma down_active x : down_word WB x -> is_active x = true.
Proof. pose proof (tagged_active WB WB_even). by intros [->| ->]. Qed.

Lemma cwaiter_step_ok w : cphase WB s w T S -> wpost n s w T S (cwaiter_step WB s w).
Proof.
  intros Hph. destruct w as [|k Tot|k v Tot|Tot|Tot| | |k|k]; cbn [cwaiter_step].
  - by left.
  - pose proof Hph as (Hk & Hw & HS & HTot & _ & R & HR & Hb & q & Hq).
    destruct (lookup_lt_is_Some_2 _ _ Hk) as [x Hx]. rewrite Hx. cbn [mbind option_bind wpost].
    split_and!; [done| |done|by left|done].
    specialize (Hw k x Hx). cbn in Hw. rewrite decide_False in Hw by lia.
    destruct Hph as (? & ? & ? & ? & _ & ?). cbn [cphase]. split_and!; first [done|lia|apply Hw|idtac].
  - pose proof Hph as (Hk & Hw & HS & HTot & Hv & R & HR & Hb & q & Hq).
    destruct (lookup_lt_is_Some_2 _ _ Hk) as [x Hx]. rewrite Hx. cbn [mbind option_bind]. unfold ASSERT. rewrite Hv. cbn [negb].
    unfold InterlockedCompareExchangePointer. cbn [RunRef set_RunRef]. destruct (Z.eqb_spec x v) as [->|Hne].
    + cbn [RunRef set_RunRef]. by apply mark_ok.
    + cbn [wpost]. split_and!; [done| |done|by left|done].
      specialize (Hw k x Hx). cbn in Hw. rewrite decide_False in Hw by lia.
      destruct Hph as (? & ? & ? & ? & _ & ?). cbn [cphase]. split_and!; first [done|lia|apply Hw|idtac].
  - destruct Hph as (Hw & HS & R & HR & Hp & HTot & Hb). rewrite Hb. cbn [mbind option_bind wpost wbCount words].
    split_and!; [done| | |by left|done].
    + cbn [cphase words block]. split_and!; [done|done|]. exists R. split_and!; try done; lia.
    + unfold given_back. by rewrite Hb.
  - destruct Hph as (Hw & HS & R & HR & Hp & HTot & Hb). rewrite Hb. cbn [mbind option_bind wbCount WakeEvent].
    assert (HTR : T + R < 2 ^ 30).
    { unfold given_back in Hroom. rewrite Hb in Hroom. cbn in Hroom. rewrite s32_neg in Hroom by lia. lia. }
    rewrite s32_neg by lia. rewrite (s32_small Tot), (s32_small (- Tot)) by lia.
    destruct (Z.eqb_spec (- R) (- Tot)) as [E|E]; cbn [negb wpost words].
    + split_and!; [done| |rewrite given_back_None; apply given_back_nonneg|right; lia|done].
      split_and!; [|done|lia|done]. intros i x Hi. left. by eapply Hw.
    + assert (Hu : u32 (u32 (- R) + Tot) = T) by (rewrite u32_add_l, u32_small; lia). rewrite Hu.
      split_and!; [done| | |by left|done].
      * cbn [cphase words block]. split; [done|]. exists false. cbn [negb andb]. split_and!; [done| |done].
        destruct (Z.eqb_spec T 0); lia.
      * unfold given_back at 1. cbn [block wbCount]. rewrite s32_small by lia. pose proof (given_back_nonneg s). lia.
  - destruct Hph as (Hw & b & Hb & HS & Hbt). rewrite Hb. cbn [mbind option_bind WakeEvent]. destruct b; cbn [wpost words].
    + specialize (Hbt eq_refl). subst T. cbn in HS. subst S.
      split_and!; [done| |rewrite given_back_None; apply given_back_nonneg|by right|done].
      split_and!; [|done..]. intros i x Hi. left. by eapply Hw.
    + right. right. split; [done|]. cbn in HS. destruct (Z.eqb_spec T 0); lia.
  - by right; left.
  - pose proof Hph as (Hk & Hw & Hb & HT0 & HS). destruct (lookup_lt_is_Some_2 _ _ Hk) as [x Hx]. rewrite Hx.
    cbn [mbind option_bind]. unfold ASSERT. rewrite down_active by (by eapply Hw). cbn [wpost words]. rewrite length_insert.
    assert (He : each (fun _ => down_word WB) (<[k := EX_RUNDOWN_ACTIVE]> (words s))) by (apply each_insert; [done|by right]).
    split_and!; [done| |done|done|by destruct (Nat.ltb _ _)].
    destruct (Nat.ltb_spec (Datatypes.S k) (length (words s))); cbn [cphase words block]; rewrite ?length_insert; split_and!; done.
  - pose proof Hph as (Hk & Hw & Hb & HT0 & HS). destruct (lookup_lt_is_Some_2 _ _ Hk) as [x Hx]. rewrite Hx.
    cbn [mbind option_bind]. unfold ASSERT. pose proof (Hw k x Hx) as Hxd. cbn in Hxd. rewrite decide_False in Hxd by lia.
    rewrite down_active by done. cbn [wpost words]. rewrite length_insert.
    assert (He : each (fun i x => if decide (i < Datatypes.S k)%nat then x = 0 else down_word WB x) (<[k := 0]> (words s))).
    { intros i y Hi. destruct (decide (k = i)) as [<-|Hne].
      - rewrite list_lookup_insert_eq in Hi by done. injection Hi as <-. by rewrite decide_True by lia.
      - rewrite list_lookup_insert_ne in Hi by done. specialize (Hw i y Hi). cbn in Hw.
        destruct (decide (i < k)%nat); [rewrite decide_True by lia; done|rewrite decide_False by lia; done]. }
    split_and!; [done| |done|done|by destruct (Nat.ltb _ _)].
    destruct (Nat.ltb_spec (Datatypes.S k) (length (words s))); cbn [cphase words block]; rewrite ?length_insert; [by split_and!|].
    assert (H0 : forall i y, <[k := 0]> (words s) !! i = Some y -> y = 0).
    { intros i y Hi. specialize (He i y Hi). cbn in He. apply lookup_lt_Some in Hi. rewrite length_insert in Hi.
      by rewrite decide_True in He by lia. }
    split_and!; [|done|done|].
    + intros i y Hi. rewrite (H0 i y Hi). done.
    + exists 0. rewrite zsum_all_zero; [lia|]. intros i y Hi. by rewrite (H0 i y Hi).
Qed.
End Step.
End Waiter.

(** ** The invariant is kept *)

Section Invariant.
Variable WB N : Z.
Variable processors : nat.
Hypothesis WB_even : WB mod 2 = 0.
Hypothesis WB_range : 0 < WB < 2 ^ 32.
Hypothesis N_mp : 1 < N.
Hypothesis Hproc : (0 < processors)%nat.
Abbreviation ok := (cclient_ok WB processors).

Lemma cclient_ok_nonneg w c : ok w c -> 0 <= cheld c /\ 0 <= csignals c /\ cheld c <= crequested c.
Proof.
  intros (Hh & Hfit & _). split_and!; [done|unfold csignals, signals; destruct (cpc (inner c)); lia|].
  unfold crequested, op_fits in *. destruct (current_op c) as [op|]; [|lia]. destruct (is_acquire op); lia.
Qed.

Lemma clients_nonneg w l : Forall (ok w) l ->
  Forall (fun c => 0 <= cheld c) l /\ Forall (fun c => 0 <= csignals c) l /\ zsum cheld l <= zsum crequested l.
Proof.
  intros H. split_and!; [eapply List.Forall_impl; [|exact H]; intros c Hc; apply (cclient_ok_nonneg w c Hc)..|].
  induction H as [|c l Hc H IH]; cbn; [lia|]. destruct (cclient_ok_nonneg w c Hc) as (_ & _ & ?). lia.
Qed.

Lemma cinv_bounds s : cinv WB processors s ->
  0 <= zsum cheld (cclients s) /\ 0 <= zsum csignals (cclients s) /\ zsum cheld (cclients s) + given_back (csh s) < 2 ^ 30.
Proof.
  intros [Hl Hc Hr Hp]. destruct (clients_nonneg _ _ Hc) as (H1 & H2 & H3). unfold in_flight in Hr.
  split_and!; [by apply zsum_nonneg..|lia].
Qed.

Lemma clients_move w w' l : Forall (ok w) l ->
  (live w = true -> live w' = true \/ zsum cheld l = 0) ->
  (reinitialising w' = true -> reinitialising w = true \/ Forall (fun c => acquiring c = false) l) ->
  Forall (ok w') l.
Proof.
  intros Hl Hlive Hre. apply Forall_lookup. intros i c Hi.
  pose proof (proj1 (Forall_lookup _ _) Hl i c Hi) as Hok. pose proof Hok as (Hh & Hfit & Hx & Hacq & Hpc).
  assert (Hle : cheld c <= zsum cheld l).
  { eapply zsum_lookup_le; [|exact Hi]. apply (clients_nonneg w l Hl). }
  split_and!; [done|done|done| |].
  - intros E. destruct (Hre E) as [E'|E']; [by apply Hacq|]. exact (proj1 (Forall_lookup _ _) E' i c Hi).
  - unfold op_fits, current_op in Hfit. destruct (fast c); [|done..]. destruct (cpc (inner c)) as [| |op v|]; [done..| |done].
    intros Ha Hv. destruct (Hpc Ha Hv) as [-> Hlw]. split; [done|]. destruct (Hlive Hlw) as [|E]; [done|].
    destruct Hfit as [Hf1 Hf2]. specialize (Hf2 Ha). lia.
Qed.

Lemma cinv_initial n : cinv WB processors (cinitial processors n).
Proof.
  split; cbn.
  - apply length_replicate.
  - apply Forall_replicate. unfold cclient_ok, op_fits, acquiring, current_op, cheld. cbn. split_and!; done.
  - unfold in_flight, given_back. cbn. by rewrite zsum_replicate.
  - split_and!.
    + intros i w Hi. apply lookup_replicate in Hi as [-> _]. done.
    + done.
    + by rewrite zsum_replicate.
    + exists 0. by rewrite !zsum_replicate.
Qed.

Lemma enter_ok s i c op p : cinv WB processors s -> cclients s !! i = Some c -> idle c = true ->
  cmay_call disciplined s c op = true -> 0 <= p ->
  cinv WB processors (mkCSt (csh s) (cwaiter s) (<[i := enter op p (csh s) c]> (cclients s))).
Proof.
  intros [Hl Hc Hr Hp] Hi Hid Hmay Hp0. set (c' := enter op p (csh s) c).
  pose proof (proj1 (Forall_lookup _ _) Hc i c Hi) as Hok. pose proof Hok as (Hh & _).
  unfold cmay_call in Hmay. apply andb_true_iff in Hmay as [H1 Hmay].
  assert (Hidx : (Z.to_nat (p `mod` Z.of_nat (length (words (csh s)))) < processors)%nat).
  { rewrite Hl. pose proof (Z.mod_pos_bound p (Z.of_nat processors) ltac:(lia)). lia. }
  assert (Eh : cheld c' = cheld c) by (by destruct op).
  assert (Eop : current_op c' = Some op) by (by destruct op).
  assert (Es : csignals c' = 0 /\ csignals c = 0 /\ current_op c = None).
  { unfold idle in Hid. unfold csignals, signals, current_op. destruct (fast c); [|done..].
    destruct (cpc (inner c)) eqn:E; try done. destruct op; cbn; by rewrite ?E. }
  destruct Es as (Es1 & Es2 & Eop0).
  assert (Hok' : ok (cwaiter s) c').
  { split_and!; [by rewrite Eh| | | |].
    - unfold op_fits. rewrite Eop. split; [lia|]. intros Ha. rewrite Ha in Hmay. rewrite Eh. lia.
    - by destruct op.
    - intros Hre. unfold acquiring. rewrite Eop. destruct (is_acquire op) eqn:Ea; [|done]. rewrite Hre in Hmay. cbn in Hmay. lia.
    - unfold idle in Hid. destruct (fast c); [|done..]. destruct (cpc (inner c)) eqn:E; try done.
      destruct op; cbn; rewrite ?E; done. }
  split; cbn [csh cwaiter cclients].
  - done.
  - by apply Forall_insert.
  - unfold in_flight in *. cbn [csh cclients]. rewrite (zsum_insert _ _ _ _ _ Hi). unfold crequested at 2 3. rewrite Eop, Eop0, Eh.
    destruct (is_acquire op); lia.
  - rewrite !(zsum_insert _ _ _ _ _ Hi), Eh, Es1, Es2.
    replace (zsum cheld (cclients s) - cheld c + cheld c) with (zsum cheld (cclients s)) by lia.
    by replace (zsum csignals (cclients s) - 0 + 0) with (zsum csignals (cclients s)) by lia.
Qed.

Lemma client_turn s i c : cinv WB processors s -> cclients s !! i = Some c -> idle c = false ->
  exists s' c', cclient_step WB N (csh s) c = Some (s', c') /\
    cinv WB processors (mkCSt s' (cwaiter s) (<[i := c']> (cclients s))).
Proof.
  intros Hinv Hi Hid. pose proof (cinv_bounds s Hinv) as (HT & HS & Hroom). destruct Hinv as [Hl Hc Hr Hp].
  pose proof (proj1 (Forall_lookup _ _) Hc i c Hi) as Hok. destruct (clients_nonneg _ _ Hc) as (N1 & N2 & N3).
  assert (Hrq : zsum cheld (cclients s) - cheld c + crequested c + given_back (csh s) < 2 ^ 30).
  { assert (Hsub : zsum cheld (<[i := mkCC (mkCl Idle 0 None) NoFast 0]> (cclients s)) <=
      zsum crequested (<[i := mkCC (mkCl Idle 0 None) NoFast 0]> (cclients s))).
    { apply (clients_nonneg (cwaiter s)). apply Forall_insert; [done|].
      unfold cclient_ok, op_fits, acquiring, current_op, cheld. cbn. split_and!; done. }
    rewrite !(zsum_insert _ _ _ _ _ Hi) in Hsub. change (cheld (mkCC (mkCl Idle 0 None) NoFast 0)) with 0 in Hsub.
    change (crequested (mkCC (mkCl Idle 0 None) NoFast 0)) with 0 in Hsub. unfold in_flight in Hr. lia. }
  pose proof (zsum_lookup_le _ _ _ _ N1 Hi) as L1. pose proof (zsum_lookup_le _ _ _ _ N2 Hi) as L2.
  destruct (cclient_step_ok WB N WB_even WB_range N_mp processors (csh s) (cwaiter s) _ _ c Hp Hl Hok L1 L2 Hrq Hid)
    as (s' & c' & Hstep & Hl' & Hok' & Hreq & Hph).
  exists s', c'. split; [done|]. split; cbn [csh cwaiter cclients].
  - done.
  - by apply Forall_insert.
  - unfold in_flight in *. cbn [csh cclients]. rewrite (zsum_insert _ _ _ _ _ Hi). lia.
  - by rewrite !(zsum_insert _ _ _ _ _ Hi).
Qed.

Lemma cinv_step s o : cinv WB processors s -> cstep WB N disciplined s o ->
  match o with CRunning s' => cinv WB processors s' | CFault => False end.
Proof.
  intros Hinv Hstep. pose proof (cinv_bounds s Hinv) as (HT & HS & Hroom).
  destruct Hstep as [i c op p Hi Hid Hm Hp|i c sh' c' Hi Hid Hst|i c Hi Hid Hst|Hw|Hw Honce|Hw|Hw Hacq|sh' pc' Hst|Hst].
  - by apply enter_ok.
  - destruct (client_turn s i c Hinv Hi Hid) as (s1 & c1 & E & H). rewrite E in Hst. by injection Hst as -> ->.
  - destruct (client_turn s i c Hinv Hi Hid) as (s1 & c1 & E & _). congruence.
  - destruct Hinv as [Hl Hc Hr Hp]. rewrite Hw in *. destruct Hp as (Hws & Hb & HS0 & q & Hq).
    unfold in_flight, given_back in Hr. rewrite Hb in Hr.
    split; cbn [csh cwaiter cclients words].
    + done.
    + eapply clients_move; [exact Hc|done..].
    + done.
    + cbn [cphase words block]. split_and!; [lia| |done|lia|lia|done|].
      * intros j x Hj. rewrite decide_False by lia. by eapply Hws.
      * exists 0. split_and!; [lia|lia|done|]. exists q. lia.
  - done.
  - destruct Hinv as [Hl Hc Hr Hp]. rewrite Hw in *. destruct Hp as (Hws & Hb & HT0 & HS0). split; cbn [csh cwaiter cclients].
    + done.
    + eapply clients_move; [exact Hc|done..].
    + done.
    + split_and!; [lia|done..].
  - destruct Hinv as [Hl Hc Hr Hp]. rewrite Hw in *. destruct Hp as (Hws & Hb & HT0 & HS0). split; cbn [csh cwaiter cclients].
    + done.
    + eapply clients_move; [exact Hc|done|]. intros _. right. by apply Hacq.
    + done.
    + split_and!; [lia| |done..]. intros j x Hj. rewrite decide_False by lia. by eapply Hws.
  - destruct Hinv as [Hl Hc Hr Hp].
    pose proof (cwaiter_step_ok WB WB_even processors (csh s) _ _ Hl HT Hroom _ Hp) as Hpost. rewrite Hst in Hpost.
    destruct Hpost as (Hl' & Hp' & Hg & Hlv & Hre). split; cbn [csh cwaiter cclients].
    + done.
    + eapply clients_move; [exact Hc|exact Hlv|]. intros E. left. by apply Hre.
    + unfold in_flight in *. cbn [csh cclients]. lia.
    + done.
  - destruct Hinv as [Hl Hc Hr Hp].
    pose proof (cwaiter_step_ok WB WB_even processors (csh s) _ _ Hl HT Hroom _ Hp) as Hpost. by rewrite Hst in Hpost.
Qed.

Lemma cinv_reachable n o : creachable WB N disciplined processors n o ->
  match o with CRunning s => cinv WB processors s | CFault => False end.
Proof. induction 1 as [|s o Hr IH Hs]; [apply cinv_initial|]. by eapply cinv_step. Qed.
End Invariant.

(** A marked word is never changed by a client. *)
Lemma cclient_step_words WB N s c s' c' x : words s !! Index c = Some x -> is_active x = true ->
  (forall op v, fast c = FastTry op v -> is_active v = false) -> cclient_step WB N s c = Some (s', c') -> words s' = words s.
Proof.
  intros Hx Ha Hf. unfold cclient_step, inline_step, exf_step. rewrite Hx. cbn [mbind option_bind].
  destruct (fast c) as [|op|op v] eqn:Ef.
  - destruct (client_step WB N (mkSh x (block s)) (inner c)) as [[sh1 c1]|] eqn:E; [|done]. cbn. intros [= <- _]. cbn.
    apply client_step_RunRef in E; [|done]. rewrite E. by apply list_insert_id.
  - by intros [= <- _].
  - specialize (Hf op v eq_refl). rewrite cas_active by done. cbn [RunRef].
    destruct (Z.eqb_spec x v); [congruence|]. by intros [= <- _].
Qed.

(** ** Theorems *)

Section Theorems.
Context (WB N : Z) (processors n : nat).
Hypothesis He : WB mod 2 = 0.
Hypothesis Hr : 0 < WB < 2 ^ 32.
Hypothesis HN : 1 < N.
Hypothesis Hp : (0 < processors)%nat.

(** C20: On a multiprocessor no interleaving of acquires, releases, rundowns, completions
    and re-initialisations of a cache-aware reference, with any number of threads that
    move between processors, fails an ASSERT, reads outside the array or touches the wait
    block when it is not there, as long as the callers keep acquires away from
    re-initialisation, wait only once before it, give back only what they hold, and have
    fewer than 2^30 references out or asked for. *)
Theorem cache_no_fault o : creachable WB N disciplined processors n o -> o <> CFault.
Proof. intros H ->. exact (cinv_reachable WB N processors He Hr HN Hp n CFault H). Qed.

(** C19: On a multiprocessor whose callers are [disciplined] (acquires apart from
    re-initialisation, one wait before it) and have fewer than 2^30 references out or
    asked for, once ExWaitForRundownProtectionReleaseCacheAware has returned, no thread
    holds a reference, and none can obtain one on any processor: every further client step leaves
    the words alone and the thread without references. *)
Theorem cache_complete_excludes s : creachable WB N disciplined processors n (CRunning s) ->
  cwaiter s = CDone \/ (exists k, cwaiter s = CCompleted k) ->
  forall i c, cclients s !! i = Some c ->
  cheld c = 0 /\
  forall sh' c', idle c = false -> cclient_step WB N (csh s) c = Some (sh', c') ->
    cheld c' = 0 /\ words sh' = words (csh s).
Proof.
  intros H Hw i c Hi. pose proof (cinv_reachable WB N processors He Hr HN Hp n _ H) as Hinv. cbn in Hinv.
  assert (Hdown : forall s', cinv WB processors s' -> cwaiter s' = cwaiter s ->
    zsum cheld (cclients s') = 0 /\ each (fun _ => down_word WB) (words (csh s'))).
  { intros s' [_ _ _ Hph] E. rewrite E in Hph. destruct Hw as [Hw|[k Hw]]; rewrite Hw in Hph; split; apply Hph. }
  assert (Hzero : forall s' c', cinv WB processors s' -> cwaiter s' = cwaiter s -> cclients s' !! i = Some c' -> cheld c' = 0).
  { intros s' c' Hi' E Hl'. destruct (Hdown s' Hi' E) as [HT _]. destruct Hi' as [_ Hc' _ _].
    pose proof (zsum_lookup_le _ _ _ _ (proj1 (clients_nonneg WB processors Hp _ _ Hc')) Hl').
    pose proof (proj1 (Forall_lookup _ _) Hc' i c' Hl') as (Hh & _). lia. }
  split; [by apply (Hzero s)|]. intros sh' c' Hid Hst.
  destruct (client_turn WB N processors He Hr HN Hp s i c Hinv Hi Hid) as (s1 & c1 & E & Hinv').
  rewrite E in Hst. injection Hst as -> ->. split.
  - apply (Hzero _ c' Hinv'); [done|]. cbn. apply list_lookup_insert_eq. by eapply lookup_lt_Some.
  - destruct (Hdown s Hinv eq_refl) as [_ Hdw]. destruct Hinv as [Hl Hc _ _].
    pose proof (proj1 (Forall_lookup _ _) Hc i c Hi) as (_ & _ & Hidx & _ & Hpc). rewrite <- Hl in Hidx.
    destruct (lookup_lt_is_Some_2 _ _ Hidx) as [x Hx].
    eapply cclient_step_words; [exact Hx|by eapply (down_active WB He), Hdw| |exact E].
    intros op v Ef. rewrite Ef in Hpc. apply Hpc.
Qed.

(** C39: On a multiprocessor whose callers are [disciplined] (acquires apart from
    re-initialisation, one wait before it) and have fewer than 2^30 references out or
    asked for, there is no lost wake-up: while the thread that runs the object down is
    blocked, its event is signalled and its next step returns, or some thread still holds a
    reference or is about to signal the event. *)
Theorem cache_no_lost_wakeup s : creachable WB N disciplined processors n (CRunning s) -> cwaiter s = CBlocked ->
  (exists sh', cwaiter_step WB (csh s) (cwaiter s) = Some (Some (sh', CDone))) \/
  (exists i c, cclients s !! i = Some c /\ (0 < cheld c \/ exists op, cpc (inner c) = Signal op)).
Proof.
  intros H Hw. pose proof (cinv_reachable WB N processors He Hr HN Hp n _ H) as Hinv. cbn in Hinv.
  pose proof (cinv_bounds WB processors Hp s Hinv) as (HT & HS & Hroom). destruct Hinv as [Hl Hc Hfl Hph].
  pose proof (cwaiter_step_ok WB He processors (csh s) _ _ Hl HT Hroom _ Hph) as Hpost. rewrite Hw in *.
  destruct (cwaiter_step WB (csh s) CBlocked) as [[[sh' w']|]|] eqn:E; [| |done].
  - left. exists sh'. do 3 f_equal. cbn in E. destruct (block (csh s)) as [wb|]; [|done]. cbn in E.
    destruct (WakeEvent wb) as [[]|]; congruence.
  - right. destruct Hpost as [?|[?|[_ [Hpos|Hpos]]]]; try done;
      destruct (zsum_pos_lookup _ _ Hpos) as (i & c & Hi & Hci); exists i, c; (split; [done|]).
    + by left.
    + right. unfold csignals, signals in Hci. destruct (cpc (inner c)); try lia. eauto.
Qed.

(** While the object is in use the words of all processors add up, modulo 2^32, to twice
    the number of references, though each of them may have wrapped around. *)
Theorem cache_sum s : creachable WB N disciplined processors n (CRunning s) -> cwaiter s = CIdle ->
  u32 (zsum id (words (csh s))) = EX_RUNDOWN_COUNT_INC * zsum cheld (cclients s) /\
  forall i w, words (csh s) !! i = Some w -> is_active w = false.
Proof.
  intros H Hw. pose proof (cinv_reachable WB N processors He Hr HN Hp n _ H) as Hinv. cbn in Hinv.
  pose proof (cinv_bounds WB processors Hp s Hinv) as (HT & HS & Hroom). destruct Hinv as [Hl Hc Hfl Hph].
  rewrite Hw in Hph. destruct Hph as (Hws & Hb & _ & q & Hq).
  assert (Hsame : forall l, each (fun _ => count_word) l -> zsum count_of l = zsum id l).
  { induction l as [|a l IH]; intros Hl'; [done|]. cbn. rewrite IH.
    - unfold count_of. destruct (Hl' 0%nat a eq_refl) as [_ ->]. done.
    - intros i w Hi. exact (Hl' (S i) w Hi). }
  split.
  - rewrite <- Hsame, Hq, u32_shift by done. unfold given_back in Hroom. rewrite Hb in Hroom.
    change EX_RUNDOWN_COUNT_INC with 2. rewrite u32_small; lia.
  - intros i w Hi. apply (Hws i w Hi).
Qed.
End Theorems.

Lemma cexec_step WB N pr s a s' : cexec WB N pr s a = Some s' -> cstep WB N pr s (CRunning s').
Proof.
  destruct a as [i op p|i| | | |]; cbn [cexec]; intros E.
  - destruct (cclients s !! i) as [c|] eqn:Hi; [|done]. cbn in E. destruct (idle c) eqn:Hid; [|done].
    destruct (cmay_call pr s c op) eqn:Hm; [|done]. cbn in E. destruct (Z.leb_spec 0 p); [|done]. injection E as <-.
    by eapply cstep_call.
  - destruct (cclients s !! i) as [c|] eqn:Hi; [|done]. cbn in E. destruct (idle c) eqn:Hid; [done|].
    destruct (cclient_step WB N (csh s) c) as [[sh' c']|] eqn:Hs; [|done]. injection E as <-. by eapply cstep_client.
  - destruct (cwaiter s) eqn:Hw; try done.
    + injection E as <-. by apply cstep_wait_call.
    + destruct (wait_once pr) eqn:Ho; [done|]. injection E as <-. by apply cstep_wait_again_call.
  - destruct (cwaiter_step WB (csh s) (cwaiter s)) as [[[sh' pc']|]|] eqn:Hs; try done. injection E as <-. by apply cstep_wait.
  - destruct (cwaiter s) eqn:Hw; try done. injection E as <-. by apply cstep_completed_call.
  - destruct (cwaiter s) eqn:Hw; try done. destruct (negb (reinit_alone pr) || _) eqn:Eb; [|done]. injection E as <-.
    apply cstep_reinit_call; [done|]. intros Hal. rewrite Hal in Eb. cbn in Eb. apply Forall_forall. intros c Hc.
    rewrite forallb_forall in Eb. specialize (Eb c Hc). by apply negb_true_iff in Eb.
Qed.

Lemma crun_reachable WB N pr p n acts s s' : creachable WB N pr p n (CRunning s) -> crun WB N pr s acts = Some s' ->
  creachable WB N pr p n (CRunning s').
Proof.
  revert s. induction acts as [|a acts IH]; intros s Hs E; cbn in E; [by simplify_eq|].
  destruct (cexec WB N pr s a) as [s1|] eqn:E1; [|done]. cbn in E.
  eapply IH; [|exact E]. econstructor; [exact Hs|]. eapply cexec_step; exact E1.
Qed.

(** A thread takes two references on processor 0 and gives one back on processor 1;
    the object is run down; the thread gives back the other while the words are being
    marked, another thread gives back its reference after that. *)
Definition cache_blocked : list caction :=
  [KCall 0 (ExAcquireEx 2) 0; KClient 0; KClient 0; KCall 0 ExfRelease 1; KClient 0; KClient 0;
   KCall 1 ExfAcquire 1; KClient 1; KClient 1;
   KWaitCall; KWait; KWait; KCall 0 ExfRelease 2; KClient 0; KClient 0; KClient 0; KClient 0;
   KWait; KWait; KWait; KWait].
Definition cache_rundown : list caction :=
  cache_blocked ++ [KCall 1 ExfRelease 0; KClient 1; KClient 1; KClient 1; KClient 1; KClient 1; KWait].
Definition cfinal (acts : list caction) : cstate :=
  match crun 4096 2 disciplined (cinitial 2 2) acts with Some s => s | None => cinitial 2 2 end.
Lemma cfinal_reachable acts : is_Some (crun 4096 2 disciplined (cinitial 2 2) acts) ->
  creachable 4096 2 disciplined 2 2 (CRunning (cfinal acts)).
Proof. intros [s E]. unfold cfinal. rewrite E. eapply crun_reachable; [constructor|exact E]. Qed.

Lemma cache_no_fault_witness : CRunning (cfinal cache_rundown) <> CFault.
Proof.
  apply (cache_no_fault 4096 2 2 2); [done|done|lia|lia|]. apply cfinal_reachable. vm_compute. eauto.
Defined.
Lemma cache_complete_excludes_witness : cwaiter (cfinal cache_rundown) = CDone /\
  exists c, cclients (cfinal cache_rundown) !! 1%nat = Some c /\ cheld c = 0.
Proof.
  split; [vm_compute; reflexivity|]. eexists. split; [vm_compute; reflexivity|].
  apply (cache_complete_excludes 4096 2 2 2) with (s := cfinal cache_rundown) (i := 1%nat);
    [done|done|lia|lia|apply cfinal_reachable; vm_compute; eauto|left; vm_compute; reflexivity|vm_compute; reflexivity].
Defined.
Lemma cache_no_lost_wakeup_witness : cwaiter (cfinal cache_blocked) = CBlocked /\
  ((exists sh', cwaiter_step 4096 (csh (cfinal cache_blocked)) (cwaiter (cfinal cache_blocked)) = Some (Some (sh', CDone))) \/
   (exists i c, cclients (cfinal cache_blocked) !! i = Some c /\ (0 < cheld c \/ exists op, cpc (inner c) = Signal op))).
Proof.
  split; [vm_compute; reflexivity|].
  apply (cache_no_lost_wakeup 4096 2 2 2); [done|done|lia|lia|apply cfinal_reachable; vm_compute; eauto|vm_compute; reflexivity].
Defined.
(** On the way a word wraps around. *)
Definition cache_wrapped : list caction :=
  [KCall 0 (ExAcquireEx 2) 0; KClient 0; KClient 0; KCall 0 ExfRelease 1; KClient 0; KClient 0].
Lemma cache_sum_witness : words (csh (cfinal cache_wrapped)) = [4; 4294967294] /\
  u32 (zsum id (words (csh (cfinal cache_wrapped)))) = EX_RUNDOWN_COUNT_INC * zsum cheld (cclients (cfinal cache_wrapped)).
Proof.
  split; [vm_compute; reflexivity|].
  apply (cache_sum 4096 2 2 2 eq_refl); [done|lia|lia|apply cfinal_reachable; vm_compute; eauto|vm_compute; reflexivity].
Defined.

(** ** Where the code breaks *)

Lemma crun_fault WB N pr p n acts : 
  match crun WB N pr (cinitial p n) acts with
  | Some s => match cclients s !! 0%nat with
              | Some c => idle c = false /\ cclient_step WB N (csh s) c = None
              | None => False
              end
  | None => False
  end -> creachable WB N pr p n CFault.
Proof.
  destruct (crun WB N pr (cinitial p n) acts) as [s|] eqn:E; [|done].
  destruct (cclients s !! 0%nat) as [c|] eqn:Ec; [|done]. intros [Hid Hst].
  eapply creach_step; [eapply crun_reachable; [constructor|exact E]|]. by eapply cstep_client_fault.
Qed.

(** Re-initialisation is not atomic: a thread can acquire on a processor whose word
    has been reset and give the reference back on one whose word still points to the
    wait block of the thread that has returned. *)
Theorem reinit_race : creachable 4096 2 (mkPromises false true) 2 1 CFault.
Proof.
  apply (crun_fault _ _ _ _ _ [KWaitCall; KWait; KWait; KWait; KWait; KReInit; KWait;
    KCall 0 ExfAcquire 0; KClient 0; KClient 0; KCall 0 ExfRelease 1; KClient 0; KClient 0; KClient 0]).
  vm_compute. split; reflexivity.
Qed.

(** On one processor the release between marking and adding the total finds a count
    of zero, which the ASSERT excludes there. *)
Theorem uniprocessor_assert : creachable 4096 1 disciplined 1 1 CFault.
Proof.
  apply (crun_fault _ _ _ _ _ [KCall 0 ExfAcquire 0; KClient 0; KClient 0; KWaitCall; KWait; KWait;
    KCall 0 ExfRelease 0; KClient 0; KClient 0; KClient 0]).
  vm_compute. split; reflexivity.
Qed.

(** Waiting again after ExRundownCompletedCacheAware, which its description calls safe,
    fails the ASSERT of the loop on the first word. *)
Theorem wait_again_asserts : creachable 4096 2 (mkPromises true false) 2 1 CFault.
Proof.
  pose (acts := [KWaitCall; KWait; KWait; KWait; KWait; KCompleted; KWait; KWait; KWaitCall; KWait]).
  destruct (crun 4096 2 (mkPromises true false) (cinitial 2 1) acts) as [s|] eqn:E; [|vm_compute in E; discriminate E].
  eapply creach_step; [eapply crun_reachable; [constructor|exact E]|]. apply cstep_wait_fault.
  vm_compute in E. injection E as <-. vm_compute. reflexivity.
Qed.

End CacheInv.
