(* ===== verification/SeAccess.v ===== *)
(** * Access checking (src/ntoskrnl/se/accessck.c)

    The security reference monitor's decision: which of the accesses a thread
    asks for its token is granted by an object's security descriptor.  The
    discretionary ACL is a list of access control entries in order; a SID is a
    structured value compared for equality (the source compares revision, count
    and then the memory); an access mask is a 32-bit number.  A type list is the
    array the source walks, entries updated by index; an access outside the
    array is the outcome [None].

    Tokens are not locked in the model: the routines below run under the lock
    their callers take.  Whether the pool allocation of the privilege set
    succeeds is an argument.  The ASSERTs of SepAccessCheck (that Privileges is
    there when ACCESS_SYSTEM_SECURITY is asked for, that accesses remain when the
    DACL is empty, that no generic access is asked for) and of SepTokenIsOwner
    (that the descriptor has an owner) are taken as in a free build, where they are
    empty: the theorems hold whether their conditions do or not, and a descriptor
    has an owner. *)

From S2P Require Import Prelude.

Module Access.

(** ** Constants *)

Definition READ_CONTROL : Z := 0x00020000.
Definition WRITE_DAC : Z := 0x00040000.
Definition WRITE_OWNER : Z := 0x00080000.
Definition ACCESS_SYSTEM_SECURITY : Z := 0x01000000.
Definition MAXIMUM_ALLOWED : Z := 0x02000000.
Definition SE_GROUP_ENABLED : Z := 0x00000004.
Definition SE_GROUP_USE_FOR_DENY_ONLY : Z := 0x00000010.
Definition SE_PRIVILEGE_ENABLED : Z := 0x00000002.
Definition INHERIT_ONLY_ACE : Z := 0x8.
Definition TOKEN_IS_RESTRICTED : Z := 0x10.
Definition ACCESS_MAX_LEVEL : Z := 4.

Inductive NTSTATUS :=
  | STATUS_SUCCESS
  | STATUS_ACCESS_DENIED
  | STATUS_PRIVILEGE_NOT_HELD
  | STATUS_NO_MEMORY
  | STATUS_INVALID_PARAMETER
  | STATUS_INSUFFICIENT_RESOURCES
  | STATUS_NOT_IMPLEMENTED
  | STATUS_BAD_IMPERSONATION_LEVEL.

Definition NT_SUCCESS (s : NTSTATUS) : bool := match s with STATUS_SUCCESS => true | _ => false end.

(** Masks: [hits a m] is the C test [a & m], [without a m] is [a & ~m]. *)
Definition hits (a m : Z) : bool := negb (Z.land a m =? 0).
Definition without (a m : Z) : Z := Z.land a (Z.lnot m).

(** ** Tokens, security descriptors, access control lists *)

Record SID := mkSid { Revision : Z; IdentifierAuthority : list Z; SubAuthority : list Z }.

#[export] Instance SID_eq_dec : EqDecision SID.
Proof. solve_decision. Defined.

Definition SePrincipalSelfSid : SID := mkSid 1 [0; 0; 0; 0; 0; 5] [10].
Definition SeWorldSid : SID := mkSid 1 [0; 0; 0; 0; 0; 1] [0].

(** The luid of a privilege is its number. *)
Definition SeSecurityPrivilege : Z := 8.
Definition SeTakeOwnershipPrivilege : Z := 9.

Record TOKEN := mkToken {
  UserAndGroups : list (SID * Z);
  RestrictedSids : list (SID * Z);
  Privileges : list (Z * Z);
  TokenFlags : Z }.

(** The entries an access check looks at; [OtherAce] is an entry of any other
    type (audit, alarm).  An object ACE without an object type is the source's
    RtlObjectAceObjectType returning NULL; a GUID is a 128-bit number. *)
Inductive ACE_BODY :=
  | ACCESS_ALLOWED_ACE (Mask : Z) (Sid : SID)
  | ACCESS_ALLOWED_OBJECT_ACE (Mask : Z) (ObjectType : option Z) (Sid : SID)
  | ACCESS_ALLOWED_COMPOUND_ACE (Mask : Z) (ClientSid ServerSid : SID)
  | ACCESS_DENIED_ACE (Mask : Z) (Sid : SID)
  | ACCESS_DENIED_OBJECT_ACE (Mask : Z) (ObjectType : option Z) (Sid : SID)
  | OtherAce.

Record ACE := mkAce { AceFlags : Z; Body : ACE_BODY }.

(** SE_DACL_PRESENT, the owner, and the DACL pointer. *)
Record SECURITY_DESCRIPTOR := mkSD { DaclPresent : bool; Owner : SID; Dacl : option (list ACE) }.

(** Finding the DACL: NULL also when SE_DACL_PRESENT is clear. *)
Definition RtlpDaclAddrSecurityDescriptor (sd : SECURITY_DESCRIPTOR) : option (list ACE) :=
  if DaclPresent sd then Dacl sd else None.

Inductive KPROCESSOR_MODE := KernelMode | UserMode.

(** ** Privileges *)

(** SepPrivilegeCheck for the one privilege SepSinglePrivilegeCheck asks for:
    an enabled privilege with that luid. *)
Definition SepSinglePrivilegeCheck (DesiredPrivilege : Z) (Token : TOKEN) (PreviousMode : KPROCESSOR_MODE) : bool :=
  match PreviousMode with
  | KernelMode => true
  | UserMode =>
      existsb (fun '(Luid, Attributes) => hits Attributes SE_PRIVILEGE_ENABLED && (Luid =? DesiredPrivilege))
        (Privileges Token)
  end.

Definition SeTokenIsRestricted (Token : TOKEN) : bool := hits (TokenFlags Token) TOKEN_IS_RESTRICTED.

(** ** SIDs in a token *)

(** The replacement of the constant PRINCIPAL_SELF_SID. *)
Definition self_sid (PrincipalSelfSid : option SID) (Sid : SID) : SID :=
  match PrincipalSelfSid with
  | Some self => if bool_decide (SePrincipalSelfSid = Sid) then self else Sid
  | None => Sid
  end.

(** The loop of SepSidInToken: the first entry that matches decides. *)
Fixpoint sid_in_token (i : nat) (l : list (SID * Z)) (Sid : SID) (DenyAce : bool) : bool :=
  match l with
  | [] => false
  | (MatchSid, Attributes) :: l =>
      if bool_decide (Sid = MatchSid) then
        (i =? 0)%nat || hits Attributes SE_GROUP_ENABLED ||
        (DenyAce && hits Attributes SE_GROUP_USE_FOR_DENY_ONLY)
      else sid_in_token (S i) l Sid DenyAce
  end.

Definition SepSidInToken (Token : TOKEN) (PrincipalSelfSid : option SID) (Sid : SID) (DenyAce : bool) : bool :=
  sid_in_token 0 (UserAndGroups Token) (self_sid PrincipalSelfSid Sid) DenyAce.

(** The loop of SepSidInTokenEx. *)
Fixpoint sid_in_token_ex (i : nat) (l : list (SID * Z)) (Sid : SID) (DenyAce Restricted : bool) : bool :=
  match l with
  | [] => false
  | (MatchSid, Attributes) :: l =>
      if bool_decide (Sid = MatchSid) then
        (negb Restricted && (i =? 0)%nat && negb (hits Attributes SE_GROUP_USE_FOR_DENY_ONLY)) ||
        hits Attributes SE_GROUP_ENABLED ||
        (DenyAce && hits Attributes SE_GROUP_USE_FOR_DENY_ONLY)
      else sid_in_token_ex (S i) l Sid DenyAce Restricted
  end.

Definition SepSidInTokenEx (Token : TOKEN) (PrincipalSelfSid : option SID) (Sid : SID)
    (DenyAce Restricted : bool) : bool :=
  sid_in_token_ex 0 (if Restricted then RestrictedSids Token else UserAndGroups Token)
    (self_sid PrincipalSelfSid Sid) DenyAce Restricted.

Definition SepTokenIsOwner (Token : TOKEN) (sd : SECURITY_DESCRIPTOR) : bool :=
  let rc := SepSidInToken Token None (Owner sd) false in
  if rc && hits (TokenFlags Token) TOKEN_IS_RESTRICTED
  then SepSidInTokenEx Token None (Owner sd) false true
  else rc.

(** ** Object type lists *)

Record IOBJECT_TYPE_LIST := mkType {
  Level : Z; ObjectType : Z; ParentIndex : Z;
  Remaining : Z; CurrentGranted : Z; CurrentDenied : Z }.

Definition set_Remaining (e : IOBJECT_TYPE_LIST) (v : Z) : IOBJECT_TYPE_LIST :=
  mkType (Level e) (ObjectType e) (ParentIndex e) v (CurrentGranted e) (CurrentDenied e).
Definition set_CurrentGranted (e : IOBJECT_TYPE_LIST) (v : Z) : IOBJECT_TYPE_LIST :=
  mkType (Level e) (ObjectType e) (ParentIndex e) (Remaining e) v (CurrentDenied e).
Definition set_CurrentDenied (e : IOBJECT_TYPE_LIST) (v : Z) : IOBJECT_TYPE_LIST :=
  mkType (Level e) (ObjectType e) (ParentIndex e) (Remaining e) (CurrentGranted e) v.

Inductive ACCESS_MASK_FIELD_TO_UPDATE := UpdateRemaining | UpdateCurrentGranted | UpdateCurrentDenied.

(** SeCaptureObjectTypeList: the loop over the caller's (Level, ObjectType)
    pairs, [Levels] the last index seen at each level (unwritten entries are
    [None]; reading one would be a fault). *)
Fixpoint capture_types (i : Z) (prev : option Z) (Levels : list (option Z)) (l : list (Z * Z))
    : option (NTSTATUS * list IOBJECT_TYPE_LIST) :=
  match l with
  | [] => Some (STATUS_SUCCESS, [])
  | (CurrentLevel, Guid) :: l =>
      if CurrentLevel >? ACCESS_MAX_LEVEL then Some (STATUS_INVALID_PARAMETER, [])
      else if match prev with
              | None => negb (CurrentLevel =? 0)
              | Some p => (CurrentLevel >? p + 1) || (CurrentLevel =? 0)
              end
      then Some (STATUS_INVALID_PARAMETER, [])
      else
        Parent ← (if CurrentLevel =? 0 then Some (-1)
                  else p ← Levels !! Z.to_nat (CurrentLevel - 1); p);
        let Levels := <[Z.to_nat CurrentLevel := Some i]> Levels in
        '(Status, rest) ← capture_types (i + 1) (Some CurrentLevel) Levels l;
        Some (Status, mkType CurrentLevel Guid Parent 0 0 0 :: rest)
  end.

(** The count whose entries, of sizeof(IOBJECT_TYPE_LIST) = 36 bytes, fit the
    system range. *)
Definition IsValidElementCount (MmSystemRangeStart Count : Z) : bool :=
  Count <? u32 (0xFFFFFFFF - MmSystemRangeStart + 1) / 36.

(** The captured list, empty for NULL.  The caller's memory is readable (the
    exception handler would return the exception code); [PoolOk] is whether the
    allocation succeeds. *)
Definition SeCaptureObjectTypeList (ObjectTypeList : option (list (Z * Z))) (ObjectTypeListLength : Z)
    (RequestorMode : KPROCESSOR_MODE) (MmSystemRangeStart : Z) (PoolOk : bool) : option (NTSTATUS * list IOBJECT_TYPE_LIST) :=
  match RequestorMode with
  | KernelMode => Some (STATUS_NOT_IMPLEMENTED, [])
  | UserMode =>
      if ObjectTypeListLength =? 0 then Some (STATUS_SUCCESS, [])
      else
        match ObjectTypeList with
        | None => Some (STATUS_INVALID_PARAMETER, [])
        | Some l =>
            if negb (IsValidElementCount MmSystemRangeStart ObjectTypeListLength) then Some (STATUS_INVALID_PARAMETER, [])
            else if negb PoolOk then Some (STATUS_INSUFFICIENT_RESOURCES, [])
            else
              '(Status, t) ← capture_types 0 None (replicate 5 None) (take (Z.to_nat ObjectTypeListLength) l);
              Some (Status, if NT_SUCCESS Status then t else [])
        end
  end.

Fixpoint find_type (i : nat) (g : Z) (l : list IOBJECT_TYPE_LIST) : option nat :=
  match l with
  | [] => None
  | e :: l => if g =? ObjectType e then Some i else find_type (S i) g l
  end.

Definition SepObjectInTypeList (g : Z) (l : list IOBJECT_TYPE_LIST) : option nat := find_type 0 g l.

(** The loop over the children of a parent at level [plevel]: the accumulated
    Remaining, CurrentGranted and CurrentDenied of the direct children. *)
Fixpoint sum_children (plevel level : Z) (l : list IOBJECT_TYPE_LIST) (r g d : Z) : Z * Z * Z :=
  match l with
  | [] => (r, g, d)
  | e :: l =>
      if Level e <=? plevel then (r, g, d)
      else if negb (Level e =? level) then sum_children plevel level l r g d
      else sum_children plevel level l (Z.lor r (Remaining e)) (Z.land g (CurrentGranted e))
             (Z.lor d (CurrentDenied e))
  end.

Fixpoint SepUpdateParentTypeList (fuel : nat) (l : list IOBJECT_TYPE_LIST) (StartIndex : nat)
    : option (list IOBJECT_TYPE_LIST) :=
  match fuel with
  | O => None
  | S fuel =>
      e ← l !! StartIndex;
      if ParentIndex e =? -1 then Some l
      else
        let Parent := Z.to_nat (ParentIndex e) in
        p ← l !! Parent;
        let '(r, g, d) := sum_children (Level p) (Level e) (drop (S Parent) l) 0 0xFFFFFFFF 0 in
        if (r =? Remaining p) && (g =? CurrentGranted p) && (d =? CurrentDenied p) then Some l
        else
          let p' := set_CurrentDenied (set_CurrentGranted (set_Remaining p r) g) d in
          SepUpdateParentTypeList fuel (<[Parent := p']> l) Parent
  end.

Definition update_entry (f : ACCESS_MASK_FIELD_TO_UPDATE) (AccessMask : Z) (e : IOBJECT_TYPE_LIST)
    : IOBJECT_TYPE_LIST :=
  match f with
  | UpdateRemaining => set_Remaining e (without (Remaining e) AccessMask)
  | UpdateCurrentGranted =>
      set_CurrentGranted e (Z.lor (CurrentGranted e) (without AccessMask (CurrentDenied e)))
  | UpdateCurrentDenied =>
      set_CurrentDenied e (Z.lor (CurrentDenied e) (without AccessMask (CurrentGranted e)))
  end.

Definition field_of (f : ACCESS_MASK_FIELD_TO_UPDATE) (e : IOBJECT_TYPE_LIST) : Z :=
  match f with
  | UpdateRemaining => Remaining e
  | UpdateCurrentGranted => CurrentGranted e
  | UpdateCurrentDenied => CurrentDenied e
  end.

(** The loop over the entries after the target, up to the first one that is
    not below it. *)
Fixpoint update_children (f : ACCESS_MASK_FIELD_TO_UPDATE) (AccessMask level : Z)
    (l : list IOBJECT_TYPE_LIST) : list IOBJECT_TYPE_LIST :=
  match l with
  | [] => []
  | e :: l' => if Level e <=? level then l
               else update_entry f AccessMask e :: update_children f AccessMask level l'
  end.

Definition SepAddAccessTypeList (l : list IOBJECT_TYPE_LIST) (StartIndex : nat) (AccessMask : Z)
    (f : ACCESS_MASK_FIELD_TO_UPDATE) : option (list IOBJECT_TYPE_LIST) :=
  e ← l !! StartIndex;
  let e' := update_entry f AccessMask e in
  let unchanged := field_of f e =? field_of f e' in
  let l := <[StartIndex := e']> l in
  match f, unchanged with
  | UpdateRemaining, true => Some l
  | _, _ =>
      l ← (if unchanged then Some l else SepUpdateParentTypeList (S (length l)) l StartIndex);
      Some (take (S StartIndex) l ++ update_children f AccessMask (Level e) (drop (S StartIndex) l))
  end.

(** ** The two walks over the DACL *)

Section Checks.
Variables (EToken PrimaryToken : TOKEN) (PrincipalSelfSid : option SID).
(** ObjectTypeListLength: the length of the list the caller passed. *)
Variable ObjectTypeListLength : Z.

(** An entry applied to the whole object: element 0, directly when it is the
    only one. *)
Definition update_object (l : list IOBJECT_TYPE_LIST) (Mask : Z) (f : ACCESS_MASK_FIELD_TO_UPDATE)
    : option (list IOBJECT_TYPE_LIST) :=
  match l with
  | [e] => Some [update_entry f Mask e]
  | _ => SepAddAccessTypeList l 0 Mask f
  end.

(** An entry applied to the object type it names, if the list has it. *)
Definition update_type (l : list IOBJECT_TYPE_LIST) (g Mask : Z) (f : ACCESS_MASK_FIELD_TO_UPDATE)
    : option (list IOBJECT_TYPE_LIST) :=
  match SepObjectInTypeList g l with
  | Some Index => SepAddAccessTypeList l Index Mask f
  | None => Some l
  end.

(** The body of the loop of SepMaximumAccessCheck. *)
Definition max_ace (Restricted : bool) (Ace : ACE) (l : list IOBJECT_TYPE_LIST)
    : option (list IOBJECT_TYPE_LIST) :=
  if hits (AceFlags Ace) INHERIT_ONLY_ACE then Some l
  else
    match Body Ace with
    | ACCESS_ALLOWED_ACE Mask Sid =>
        if SepSidInTokenEx EToken PrincipalSelfSid Sid false Restricted
        then update_object l Mask UpdateCurrentGranted else Some l
    | ACCESS_ALLOWED_OBJECT_ACE Mask None Sid =>
        if SepSidInTokenEx EToken PrincipalSelfSid Sid false Restricted
        then update_object l Mask UpdateCurrentGranted else Some l
    | ACCESS_ALLOWED_OBJECT_ACE Mask (Some g) Sid =>
        if ObjectTypeListLength =? 0 then Some l
        else if SepSidInTokenEx EToken PrincipalSelfSid Sid false Restricted
        then update_type l g Mask UpdateCurrentGranted else Some l
    | ACCESS_ALLOWED_COMPOUND_ACE Mask ClientSid ServerSid =>
        if SepSidInTokenEx EToken PrincipalSelfSid ClientSid false Restricted &&
           SepSidInTokenEx PrimaryToken None ServerSid false false
        then update_object l Mask UpdateCurrentGranted else Some l
    | ACCESS_DENIED_ACE Mask Sid =>
        if SepSidInTokenEx EToken PrincipalSelfSid Sid true Restricted
        then update_object l Mask UpdateCurrentDenied else Some l
    | ACCESS_DENIED_OBJECT_ACE Mask ObjectTypeInAce Sid =>
        if SepSidInTokenEx EToken PrincipalSelfSid Sid true Restricted then
          match ObjectTypeInAce with
          | None => update_object l Mask UpdateCurrentDenied
          | Some g =>
              if ObjectTypeListLength =? 0 then
                match l with
                | e :: l => Some (update_entry UpdateCurrentDenied Mask e :: l)
                | [] => None
                end
              else update_type l g Mask UpdateCurrentDenied
          end
        else Some l
    | OtherAce => Some l
    end.

Fixpoint max_aces (Restricted : bool) (Aces : list ACE) (l : list IOBJECT_TYPE_LIST)
    : option (list IOBJECT_TYPE_LIST) :=
  match Aces with
  | [] => Some l
  | Ace :: Aces => l ← max_ace Restricted Ace l; max_aces Restricted Aces l
  end.

Definition SepMaximumAccessCheck (Aces : list ACE) (l : list IOBJECT_TYPE_LIST) (Restricted : bool)
    : option (list IOBJECT_TYPE_LIST) :=
  let l := if Restricted
           then map (fun e => set_CurrentGranted (set_Remaining e (CurrentGranted e)) 0) l
           else l in
  l ← max_aces Restricted Aces l;
  Some (if Restricted
        then map (fun e => set_CurrentGranted e (Z.land (CurrentGranted e) (Remaining e))) l
        else l).

(** The body of the loop of SepNormalAccessCheck: the list, and whether the
    loop is left by [break]. *)
Definition normal_ace (Restricted : bool) (Ace : ACE) (l : list IOBJECT_TYPE_LIST)
    : option (list IOBJECT_TYPE_LIST * bool) :=
  let continue (o : option (list IOBJECT_TYPE_LIST)) := l ← o; Some (l, false) in
  let root := match l with e :: _ => Remaining e | [] => 0 end in
  if hits (AceFlags Ace) INHERIT_ONLY_ACE then Some (l, false)
  else
    match Body Ace with
    | ACCESS_ALLOWED_ACE Mask Sid =>
        if SepSidInTokenEx EToken PrincipalSelfSid Sid false Restricted
        then continue (update_object l Mask UpdateRemaining) else Some (l, false)
    | ACCESS_ALLOWED_OBJECT_ACE Mask None Sid =>
        if SepSidInTokenEx EToken PrincipalSelfSid Sid false Restricted
        then continue (update_object l Mask UpdateRemaining) else Some (l, false)
    | ACCESS_ALLOWED_OBJECT_ACE Mask (Some g) Sid =>
        if ObjectTypeListLength =? 0 then Some (l, false)
        else if SepSidInTokenEx EToken PrincipalSelfSid Sid false Restricted
        then continue (update_type l g Mask UpdateRemaining) else Some (l, false)
    | ACCESS_ALLOWED_COMPOUND_ACE Mask ClientSid ServerSid =>
        if SepSidInTokenEx EToken PrincipalSelfSid ClientSid false Restricted &&
           SepSidInTokenEx PrimaryToken None ServerSid false Restricted
        then continue (update_object l Mask UpdateRemaining) else Some (l, false)
    | ACCESS_DENIED_ACE Mask Sid =>
        if SepSidInTokenEx EToken PrincipalSelfSid Sid true Restricted
        then Some (l, hits root Mask) else Some (l, false)
    | ACCESS_DENIED_OBJECT_ACE Mask ObjectTypeInAce Sid =>
        if SepSidInTokenEx EToken PrincipalSelfSid Sid true Restricted then
          match ObjectTypeInAce with
          | None => Some (l, hits root Mask)
          | Some g =>
              if ObjectTypeListLength =? 0 then Some (l, hits root Mask)
              else
                match SepObjectInTypeList g l with
                | Some Index => e ← l !! Index; Some (l, hits (Remaining e) Mask)
                | None => Some (l, false)
                end
          end
        else Some (l, false)
    | OtherAce => Some (l, false)
    end.

Fixpoint normal_aces (Restricted : bool) (Aces : list ACE) (l : list IOBJECT_TYPE_LIST)
    : option (list IOBJECT_TYPE_LIST) :=
  match Aces with
  | [] => Some l
  | Ace :: Aces =>
      e ← head l;
      if Remaining e =? 0 then Some l
      else
        '(l, stop) ← normal_ace Restricted Ace l;
        if stop : bool then Some l else normal_aces Restricted Aces l
  end.

Definition SepNormalAccessCheck (Rem : Z) (Aces : list ACE) (l : list IOBJECT_TYPE_LIST) (Restricted : bool)
    : option (list IOBJECT_TYPE_LIST) :=
  normal_aces Restricted Aces (map (fun e => set_Remaining e Rem) l).

End Checks.

(** ** SepAccessCheck *)

(** What the routine returns: its value, GrantedAccess and AccessStatus (one
    entry each, or one per element of the type list), the privilege set built
    (SystemSecurity, WriteOwner), and the two flags. *)
Record check_result := mkResult {
  RetVal : bool;
  GrantedAccess : list Z;
  AccessStatus : list NTSTATUS;
  PrivilegesUsed : option (bool * bool);
  SomeAccessGranted : bool;
  SomeAccessDenied : bool }.

(** SepAssemblePrivileges: the set returned through *Privileges, NULL when
    the pool allocation fails, and nothing when Privileges is NULL. *)
Definition SepAssemblePrivileges (PrivilegesPresent PoolOk SystemSecurity WriteOwner : bool)
    : option (bool * bool) :=
  if PrivilegesPresent && PoolOk then Some (SystemSecurity, WriteOwner) else None.

(** From the label ReturnOneStatus on. *)
Definition ReturnOneStatus (PrivilegesPresent PoolOk SystemSecurity WriteOwner ReturnResultList : bool)
    (ObjectTypeListLength : Z) (Status : NTSTATUS) (PreviouslyGrantedAccess : Z) : check_result :=
  let Status := match Status with
                | STATUS_SUCCESS =>
                    if PreviouslyGrantedAccess =? 0 then STATUS_ACCESS_DENIED else STATUS_SUCCESS
                | _ => Status
                end in
  let used := SystemSecurity || WriteOwner in
  let privs := if NT_SUCCESS Status && used
               then SepAssemblePrivileges PrivilegesPresent PoolOk SystemSecurity WriteOwner else None in
  let failed := NT_SUCCESS Status && used && PrivilegesPresent &&
                match privs with None => true | Some _ => false end in
  let Status := if failed then STATUS_NO_MEMORY else Status in
  let PreviouslyGrantedAccess := if failed then 0 else PreviouslyGrantedAccess in
  let n := if ReturnResultList then Z.to_nat ObjectTypeListLength else 1%nat in
  mkResult (negb failed) (replicate n PreviouslyGrantedAccess) (replicate n Status) privs
    (NT_SUCCESS Status) (negb (NT_SUCCESS Status)).

(** The results for each element of the type list. *)
Definition result_list (DesiredAccess PreviouslyGrantedAccess : Z) (l : list IOBJECT_TYPE_LIST)
    : list (Z * NTSTATUS) :=
  let maximum := hits DesiredAccess MAXIMUM_ALLOWED in
  let all := Z.lor DesiredAccess PreviouslyGrantedAccess in
  let GrantedAccessMask := if maximum then u32 (Z.lnot MAXIMUM_ALLOWED) else all in
  let RequiredAccessMask := if maximum then without all MAXIMUM_ALLOWED else all in
  map (fun e =>
         let granted := Z.land (Z.lor (CurrentGranted e) PreviouslyGrantedAccess) GrantedAccessMask in
         (granted,
          if granted =? 0 then STATUS_ACCESS_DENIED
          else if negb (Z.land (u32 (Z.lnot granted)) RequiredAccessMask =? 0) then STATUS_ACCESS_DENIED
          else STATUS_SUCCESS)) l.

Definition FixedTypeList : list IOBJECT_TYPE_LIST := [mkType 0 0 (-1) 0 0 0].

Definition head_of (l : list IOBJECT_TYPE_LIST) (f : IOBJECT_TYPE_LIST -> Z) : Z :=
  match l with e :: _ => f e | [] => 0 end.

Definition SepAccessCheck (sd : SECURITY_DESCRIPTOR) (PrincipalSelfSid : option SID)
    (PrimaryToken : TOKEN) (ClientToken : option TOKEN) (DesiredAccess : Z)
    (ObjectTypeList : list IOBJECT_TYPE_LIST) (GenericAll PreviouslyGrantedAccess : Z)
    (PreviousMode : KPROCESSOR_MODE) (PrivilegesPresent PoolOk ReturnResultList : bool)
    : option check_result :=
  let EToken := match ClientToken with Some t => t | None => PrimaryToken end in
  let ObjectTypeListLength := Z.of_nat (length ObjectTypeList) in
  let return_one := fun SystemSecurity WriteOwner Status Granted =>
    Some (ReturnOneStatus PrivilegesPresent PoolOk SystemSecurity WriteOwner ReturnResultList
            ObjectTypeListLength Status Granted) in
  let Rem := DesiredAccess in
  let SystemSecurity := hits Rem ACCESS_SYSTEM_SECURITY in
  if SystemSecurity && negb (SepSinglePrivilegeCheck SeSecurityPrivilege EToken PreviousMode)
  then return_one false false STATUS_PRIVILEGE_NOT_HELD 0
  else
    let Rem := if SystemSecurity then without Rem ACCESS_SYSTEM_SECURITY else Rem in
    let Granted := if SystemSecurity then Z.lor PreviouslyGrantedAccess ACCESS_SYSTEM_SECURITY
                   else PreviouslyGrantedAccess in
    if SystemSecurity && (Rem =? 0) then return_one SystemSecurity false STATUS_SUCCESS Granted
    else
      match RtlpDaclAddrSecurityDescriptor sd with
      | None =>
          let Granted := if hits DesiredAccess MAXIMUM_ALLOWED
                         then Z.lor GenericAll (without (Z.lor DesiredAccess Granted) MAXIMUM_ALLOWED)
                         else Z.lor Granted DesiredAccess in
          return_one SystemSecurity false STATUS_SUCCESS Granted
      | Some Aces =>
          let WriteOwner := hits Rem WRITE_OWNER && PrivilegesPresent &&
                            SepSinglePrivilegeCheck SeTakeOwnershipPrivilege EToken PreviousMode in
          let Rem := if WriteOwner then without Rem WRITE_OWNER else Rem in
          let Granted := if WriteOwner then Z.lor Granted WRITE_OWNER else Granted in
          if WriteOwner && (Rem =? 0) then return_one SystemSecurity WriteOwner STATUS_SUCCESS Granted
          else
            match Aces with
            | [] =>
                if (Rem =? MAXIMUM_ALLOWED) && negb (Granted =? 0)
                then return_one SystemSecurity WriteOwner STATUS_SUCCESS Granted
                else return_one SystemSecurity WriteOwner STATUS_ACCESS_DENIED 0
            | _ =>
                let LocalTypeList := if ObjectTypeListLength =? 0 then FixedTypeList else ObjectTypeList in
                if hits DesiredAccess MAXIMUM_ALLOWED || ReturnResultList then
                  l ← SepMaximumAccessCheck EToken PrimaryToken PrincipalSelfSid ObjectTypeListLength
                        Aces LocalTypeList false;
                  l ← (if SeTokenIsRestricted EToken
                       then SepMaximumAccessCheck EToken PrimaryToken PrincipalSelfSid ObjectTypeListLength
                              Aces l true
                       else Some l);
                  if ReturnResultList then
                    let res := result_list DesiredAccess Granted l in
                    let someGranted := existsb (fun '(_, s) => NT_SUCCESS s) res in
                    let someDenied := existsb (fun '(_, s) => negb (NT_SUCCESS s)) res in
                    let used := someGranted && (SystemSecurity || WriteOwner) in
                    let privs := if used then SepAssemblePrivileges PrivilegesPresent PoolOk SystemSecurity WriteOwner
                                 else None in
                    if used && PrivilegesPresent && match privs with None => true | Some _ => false end
                    then Some (mkResult false (map (fun _ => 0) l) (map (fun _ => STATUS_NO_MEMORY) l)
                                 None false true)
                    else Some (mkResult true (map fst res) (map snd res) privs someGranted someDenied)
                  else
                    let current := head_of l CurrentGranted in
                    let Rem := without Rem (Z.lor MAXIMUM_ALLOWED current) in
                    if negb (Rem =? 0) then return_one SystemSecurity WriteOwner STATUS_ACCESS_DENIED 0
                    else return_one SystemSecurity WriteOwner STATUS_SUCCESS (Z.lor Granted current)
                else
                  l ← SepNormalAccessCheck EToken PrimaryToken PrincipalSelfSid ObjectTypeListLength
                        Rem Aces LocalTypeList false;
                  if negb (head_of l Remaining =? 0)
                  then return_one SystemSecurity WriteOwner STATUS_ACCESS_DENIED 0
                  else
                    l ← (if SeTokenIsRestricted EToken
                         then SepNormalAccessCheck EToken PrimaryToken PrincipalSelfSid ObjectTypeListLength
                                Rem Aces l true
                         else Some l);
                    if negb (head_of l Remaining =? 0)
                    then return_one SystemSecurity WriteOwner STATUS_ACCESS_DENIED 0
                    else return_one SystemSecurity WriteOwner STATUS_SUCCESS (Z.lor Granted DesiredAccess)
            end
      end.

(** ** The exported routines *)

Inductive SECURITY_IMPERSONATION_LEVEL :=
  | SecurityAnonymous | SecurityIdentification | SecurityImpersonation | SecurityDelegation.

Definition level_num (l : SECURITY_IMPERSONATION_LEVEL) : Z :=
  match l with
  | SecurityAnonymous => 0 | SecurityIdentification => 1 | SecurityImpersonation => 2 | SecurityDelegation => 3
  end.

Record SECURITY_SUBJECT_CONTEXT := mkSubject {
  sscClientToken : option TOKEN;
  ImpersonationLevel : SECURITY_IMPERSONATION_LEVEL;
  sscPrimaryToken : TOKEN }.

Definition EffectiveToken (ctx : SECURITY_SUBJECT_CONTEXT) : TOKEN :=
  match sscClientToken ctx with Some t => t | None => sscPrimaryToken ctx end.

(** SeAccessCheck: the BOOLEAN returned, *GrantedAccess where it is written,
    and *AccessStatus.  Where nothing is asked for, the routine writes to
    *Privileges without looking whether Privileges is NULL. *)
Definition SeAccessCheck (SecurityDescriptor : option SECURITY_DESCRIPTOR) (ctx : SECURITY_SUBJECT_CONTEXT)
    (DesiredAccess PreviouslyGrantedAccess GenericAll : Z) (AccessMode : KPROCESSOR_MODE)
    (PrivilegesPresent PoolOk : bool) : option (bool * option Z * NTSTATUS) :=
  match AccessMode with
  | KernelMode =>
      let Granted :=
        if hits DesiredAccess MAXIMUM_ALLOWED
        then Z.lor (Z.lor GenericAll (without DesiredAccess MAXIMUM_ALLOWED)) PreviouslyGrantedAccess
        else Z.lor DesiredAccess PreviouslyGrantedAccess in
      Some (true, Some Granted, STATUS_SUCCESS)
  | UserMode =>
      match SecurityDescriptor with
      | None => Some (false, None, STATUS_ACCESS_DENIED)
      | Some sd =>
          if match sscClientToken ctx with
             | Some _ => level_num (ImpersonationLevel ctx) <? level_num SecurityImpersonation
             | None => false
             end
          then Some (false, None, STATUS_BAD_IMPERSONATION_LEVEL)
          else if DesiredAccess =? 0 then
            if PreviouslyGrantedAccess =? 0 then Some (false, None, STATUS_ACCESS_DENIED)
            else if PrivilegesPresent then Some (true, Some PreviouslyGrantedAccess, STATUS_SUCCESS)
            else None (* *Privileges = NULL *)
          else
            let own := hits DesiredAccess (Z.lor (Z.lor WRITE_DAC READ_CONTROL) MAXIMUM_ALLOWED) &&
                       SepTokenIsOwner (EffectiveToken ctx) sd in
            let Granted :=
              if own then
                if hits DesiredAccess MAXIMUM_ALLOWED
                then Z.lor PreviouslyGrantedAccess (Z.lor WRITE_DAC READ_CONTROL)
                else Z.lor PreviouslyGrantedAccess (Z.land DesiredAccess (Z.lor WRITE_DAC READ_CONTROL))
              else PreviouslyGrantedAccess in
            let Desired := if own then without DesiredAccess (Z.lor WRITE_DAC READ_CONTROL)
                           else DesiredAccess in
            if Desired =? 0 then Some (true, Some Granted, STATUS_SUCCESS)
            else
              r ← SepAccessCheck sd None (sscPrimaryToken ctx) (sscClientToken ctx) Desired [] GenericAll
                    Granted AccessMode PrivilegesPresent PoolOk false;
              g ← head (GrantedAccess r);
              st ← head (AccessStatus r);
              Some (RetVal r && SomeAccessGranted r, Some g, st)
      end
  end.

(** SePrivilegePolicyCheck: the status, RemainingDesiredAccess,
    PreviouslyGrantedAccess and the privileges put in the set. *)
Definition SePrivilegePolicyCheck (RemainingDesiredAccess PreviouslyGrantedAccess : Z) (Token : TOKEN)
    (PreviousMode : KPROCESSOR_MODE) (PoolOk : bool) : NTSTATUS * Z * Z * list Z :=
  let SystemSecurity := hits RemainingDesiredAccess ACCESS_SYSTEM_SECURITY in
  if SystemSecurity && negb (SepSinglePrivilegeCheck SeSecurityPrivilege Token PreviousMode)
  then (STATUS_PRIVILEGE_NOT_HELD, RemainingDesiredAccess, PreviouslyGrantedAccess, [])
  else
    let Rem := if SystemSecurity then without RemainingDesiredAccess ACCESS_SYSTEM_SECURITY
               else RemainingDesiredAccess in
    let Granted := if SystemSecurity then Z.lor PreviouslyGrantedAccess ACCESS_SYSTEM_SECURITY
                   else PreviouslyGrantedAccess in
    let WriteOwner := hits Rem WRITE_OWNER &&
                      SepSinglePrivilegeCheck SeTakeOwnershipPrivilege Token PreviousMode in
    let Rem := if WriteOwner then without Rem WRITE_OWNER else Rem in
    let Granted := if WriteOwner then Z.lor Granted WRITE_OWNER else Granted in
    if (SystemSecurity || WriteOwner) && negb PoolOk
    then (STATUS_INSUFFICIENT_RESOURCES, Rem, Granted, [])
    else (STATUS_SUCCESS, Rem, Granted,
          (if WriteOwner then [SeTakeOwnershipPrivilege] else []) ++
          (if SystemSecurity then [SeSecurityPrivilege] else [])).

(** The loop of SeFastTraverseCheck (WORLD_TRAVERSAL_INCLUDES_ANONYMOUS). *)
Fixpoint traverse_aces (TraverseAccess : Z) (Aces : list ACE) : bool :=
  match Aces with
  | [] => false
  | Ace :: Aces =>
      if hits (AceFlags Ace) INHERIT_ONLY_ACE then traverse_aces TraverseAccess Aces
      else
        match Body Ace with
        | ACCESS_ALLOWED_ACE Mask Sid =>
            if hits TraverseAccess Mask && bool_decide (SeWorldSid = Sid) then true
            else traverse_aces TraverseAccess Aces
        | ACCESS_DENIED_ACE Mask Sid =>
            if hits TraverseAccess Mask then false else traverse_aces TraverseAccess Aces
        | _ => traverse_aces TraverseAccess Aces
        end
  end.

Definition SeFastTraverseCheck (SecurityDescriptor : option SECURITY_DESCRIPTOR) (AccessStateFlags : Z)
    (TraverseAccess : Z) : bool :=
  match SecurityDescriptor with
  | None => false
  | Some sd =>
      match RtlpDaclAddrSecurityDescriptor sd with
      | None => true
      | Some [] => false
      | Some Aces =>
          if hits AccessStateFlags TOKEN_IS_RESTRICTED then false
          else traverse_aces TraverseAccess Aces
      end
  end.

(** ** Masks, bit by bit *)

Lemma without_bit a m b : 0 <= b -> Z.testbit (without a m) b = Z.testbit a b && negb (Z.testbit m b).
Proof. intros. unfold without. by rewrite Z.land_spec, Z.lnot_spec. Qed.

Lemma zero_bits a : a = 0 <-> forall b, 0 <= b -> Z.testbit a b = false.
Proof.
  split; [intros -> b Hb; apply Z.bits_0|]. intros H. apply Z.bits_inj'. intros b Hb.
  by rewrite Z.bits_0, H.
Qed.

Lemma hits_false a m :
  hits a m = false <-> forall b, 0 <= b -> Z.testbit a b = true -> Z.testbit m b = false.
Proof.
  unfold hits. rewrite negb_false_iff, Z.eqb_eq, zero_bits. split; intros H b Hb.
  - intros Ha. specialize (H b Hb). rewrite Z.land_spec, Ha in H. done.
  - rewrite Z.land_spec. destruct (Z.testbit a b) eqn:E; [by rewrite H|done].
Qed.

Lemma hits_bit a k : 0 <= k -> hits a (2 ^ k) = Z.testbit a k.
Proof.
  intros Hk. destruct (Z.testbit a k) eqn:E.
  - destruct (hits a (2 ^ k)) eqn:Eh; [done|]. rewrite hits_false in Eh.
    specialize (Eh k Hk E). by rewrite Z.pow2_bits_true in Eh by lia.
  - apply hits_false. intros b Hb Ha. rewrite Z.pow2_bits_eqb by lia.
    apply Z.eqb_neq. intros ->. congruence.
Qed.

(** ** What an ACL decides *)

Section Decision.
Variables (EToken PrimaryToken : TOKEN) (PrincipalSelfSid : option SID).

(** What an entry says to a token when the caller passed no type list: the
    accesses it allows or denies, or nothing.  [Restricted] chooses the SIDs of
    the effective token, [ServerRestricted] those of the primary token. *)
Definition ace_verdict (Restricted ServerRestricted : bool) (Ace : ACE) : option (bool * Z) :=
  let inside := fun Sid deny => SepSidInTokenEx EToken PrincipalSelfSid Sid deny Restricted in
  if hits (AceFlags Ace) INHERIT_ONLY_ACE then None
  else
    match Body Ace with
    | ACCESS_ALLOWED_ACE Mask Sid | ACCESS_ALLOWED_OBJECT_ACE Mask None Sid =>
        if inside Sid false then Some (true, Mask) else None
    | ACCESS_ALLOWED_OBJECT_ACE _ (Some _) _ | OtherAce => None
    | ACCESS_ALLOWED_COMPOUND_ACE Mask ClientSid ServerSid =>
        if inside ClientSid false && SepSidInTokenEx PrimaryToken None ServerSid false ServerRestricted
        then Some (true, Mask) else None
    | ACCESS_DENIED_ACE Mask Sid | ACCESS_DENIED_OBJECT_ACE Mask _ Sid =>
        if inside Sid true then Some (false, Mask) else None
    end.

(** The first entry that speaks about an access decides it. *)
Fixpoint acl_grants (Restricted ServerRestricted : bool) (Aces : list ACE) (b : Z) : bool :=
  match Aces with
  | [] => false
  | Ace :: Aces =>
      match ace_verdict Restricted ServerRestricted Ace with
      | Some (allow, Mask) =>
          if Z.testbit Mask b then allow else acl_grants Restricted ServerRestricted Aces b
      | None => acl_grants Restricted ServerRestricted Aces b
      end
  end.

Lemma max_ace_single R Ace e :
  max_ace EToken PrimaryToken PrincipalSelfSid 0 R Ace [e] =
  Some [match ace_verdict R false Ace with
        | Some (true, m) => update_entry UpdateCurrentGranted m e
        | Some (false, m) => update_entry UpdateCurrentDenied m e
        | None => e
        end].
Proof.
  unfold max_ace, ace_verdict, update_object. destruct (hits (AceFlags Ace) INHERIT_ONLY_ACE); [done|].
  destruct (Body Ace) as [m s|m [g|] s|m c s|m s|m [g|] s|];
    repeat match goal with |- context [if ?b then _ else _] => destruct b eqn:? end; done.
Qed.

Lemma max_aces_single R Aces e :
  exists e', max_aces EToken PrimaryToken PrincipalSelfSid 0 R Aces [e] = Some [e'] /\
    Remaining e' = Remaining e /\
    forall b, 0 <= b -> Z.testbit (CurrentGranted e') b =
      Z.testbit (CurrentGranted e) b || (negb (Z.testbit (CurrentDenied e) b) && acl_grants R false Aces b).
Proof.
  revert e. induction Aces as [|Ace Aces IH]; intros e; cbn [max_aces acl_grants].
  { exists e. split; [done|]. split; [done|]. intros b _. by rewrite andb_false_r, orb_false_r. }
  rewrite max_ace_single. cbn [mbind option_bind].
  destruct (ace_verdict R false Ace) as [[[] m]|].
  - destruct (IH (update_entry UpdateCurrentGranted m e)) as (e' & -> & Hr & Hg).
    exists e'. split; [done|]. split; [done|]. intros b Hb. rewrite Hg by done. cbn.
    rewrite Z.lor_spec, without_bit by done.
    by destruct (Z.testbit (CurrentGranted e) b), (Z.testbit m b), (Z.testbit (CurrentDenied e) b).
  - destruct (IH (update_entry UpdateCurrentDenied m e)) as (e' & -> & Hr & Hg).
    exists e'. split; [done|]. split; [done|]. intros b Hb. rewrite Hg by done. cbn.
    rewrite Z.lor_spec, without_bit by done.
    by destruct (Z.testbit (CurrentGranted e) b), (Z.testbit m b), (Z.testbit (CurrentDenied e) b).
  - apply IH.
Qed.

(** The whole of SepMaximumAccessCheck, first on the normal SIDs and then, for
    a restricted token, on the restricted ones. *)
Lemma SepMaximumAccessCheck_single Aces e :
  CurrentGranted e = 0 -> CurrentDenied e = 0 ->
  exists e', SepMaximumAccessCheck EToken PrimaryToken PrincipalSelfSid 0 Aces [e] false = Some [e'] /\
    (forall b, 0 <= b -> Z.testbit (CurrentGranted e') b = acl_grants false false Aces b).
Proof.
  intros Hg Hd. unfold SepMaximumAccessCheck.
  destruct (max_aces_single false Aces e) as (e' & -> & _ & Hb). exists e'. split; [done|].
  intros b H0. rewrite Hb, Hg, Hd, Z.bits_0 by done. done.
Qed.

Lemma max_aces_denied R Aces e e' :
  max_aces EToken PrimaryToken PrincipalSelfSid 0 R Aces [e] = Some [e'] ->
  (forall b, 0 <= b -> Z.testbit (CurrentGranted e) b && Z.testbit (CurrentDenied e) b = false) ->
  forall b, 0 <= b -> Z.testbit (CurrentGranted e') b && Z.testbit (CurrentDenied e') b = false.
Proof.
  revert e. induction Aces as [|Ace Aces IH]; intros e; cbn [max_aces].
  { intros [= <-]. done. }
  rewrite max_ace_single. cbn [mbind option_bind]. intros E Hdis. apply (IH _ E).
  intros b Hb. specialize (Hdis b Hb). destruct (ace_verdict R false Ace) as [[[] m]|]; [| |done].
  - cbn. rewrite Z.lor_spec, without_bit by done.
    by destruct (Z.testbit (CurrentGranted e) b), (Z.testbit m b), (Z.testbit (CurrentDenied e) b).
  - cbn. rewrite Z.lor_spec, without_bit by done.
    by destruct (Z.testbit (CurrentGranted e) b), (Z.testbit m b), (Z.testbit (CurrentDenied e) b).
Qed.

Lemma SepMaximumAccessCheck_both Aces e :
  CurrentGranted e = 0 -> CurrentDenied e = 0 ->
  exists e1 e2,
    SepMaximumAccessCheck EToken PrimaryToken PrincipalSelfSid 0 Aces [e] false = Some [e1] /\
    SepMaximumAccessCheck EToken PrimaryToken PrincipalSelfSid 0 Aces [e1] true = Some [e2] /\
    (forall b, 0 <= b -> Z.testbit (CurrentGranted e1) b = acl_grants false false Aces b) /\
    (forall b, 0 <= b -> Z.testbit (CurrentGranted e2) b =
       acl_grants false false Aces b && acl_grants true false Aces b).
Proof.
  intros Hg Hd. destruct (SepMaximumAccessCheck_single Aces e Hg Hd) as (e1 & E1 & H1).
  pose proof E1 as E1'. unfold SepMaximumAccessCheck in E1'.
  destruct (max_aces_single false Aces e) as (e1' & Em & _ & _). rewrite Em in E1'.
  cbn [mbind option_bind] in E1'. injection E1' as ->.
  assert (Hdis : forall b, 0 <= b -> Z.testbit (CurrentGranted e1) b && Z.testbit (CurrentDenied e1) b = false).
  { apply (max_aces_denied _ _ _ _ Em). intros b Hb. by rewrite Hg, Z.bits_0. }
  set (e1r := set_CurrentGranted (set_Remaining e1 (CurrentGranted e1)) 0).
  destruct (max_aces_single true Aces e1r) as (e2 & E2 & Hr & H2).
  exists e1, (set_CurrentGranted e2 (Z.land (CurrentGranted e2) (Remaining e2))).
  split; [done|]. split; [unfold SepMaximumAccessCheck; cbn [map]; fold e1r; by rewrite E2|]. split; [done|].
  intros b Hb. cbn [CurrentGranted set_CurrentGranted]. rewrite Z.land_spec, H2, Hr by done.
  cbn [CurrentGranted CurrentDenied Remaining set_CurrentGranted set_Remaining e1r].
  rewrite Z.bits_0, <- H1 by done. specialize (Hdis b Hb).
  by destruct (Z.testbit (CurrentGranted e1) b), (Z.testbit (CurrentDenied e1) b), (acl_grants true false Aces b).
Qed.

Lemma normal_ace_single R Ace e :
  normal_ace EToken PrimaryToken PrincipalSelfSid 0 R Ace [e] =
  Some (match ace_verdict R R Ace with
        | Some (true, m) => ([update_entry UpdateRemaining m e], false)
        | Some (false, m) => ([e], hits (Remaining e) m)
        | None => ([e], false)
        end).
Proof.
  unfold normal_ace, ace_verdict, update_object. destruct (hits (AceFlags Ace) INHERIT_ONLY_ACE); [done|].
  destruct (Body Ace) as [m s|m [g|] s|m c s|m s|m [g|] s|];
    repeat match goal with |- context [if ?b then _ else _] => destruct b eqn:? end; done.
Qed.

Lemma normal_aces_single R Aces e :
  exists e', normal_aces EToken PrimaryToken PrincipalSelfSid 0 R Aces [e] = Some [e'] /\
    (Remaining e' = 0 <->
     forall b, 0 <= b -> Z.testbit (Remaining e) b = true -> acl_grants R R Aces b = true).
Proof.
  revert e. induction Aces as [|Ace Aces IH]; intros e; cbn [normal_aces acl_grants].
  { exists e. split; [done|]. rewrite zero_bits. split; intros H b Hb.
    - intros Ht. by rewrite H in Ht.
    - destruct (Z.testbit (Remaining e) b) eqn:E; [by rewrite <- (H b Hb E)|done]. }
  cbn [head mbind option_bind]. destruct (Z.eqb_spec (Remaining e) 0) as [Hz|Hz].
  { exists e. split; [done|]. split; [|done]. intros _ b Hb Ht. by rewrite Hz, Z.bits_0 in Ht. }
  rewrite normal_ace_single. cbn [mbind option_bind].
  destruct (ace_verdict R R Ace) as [[[] m]|].
  - destruct (IH (update_entry UpdateRemaining m e)) as (e' & -> & He).
    exists e'. split; [done|]. rewrite He. cbn. split; intros H b Hb.
    + intros Ht. destruct (Z.testbit m b) eqn:Em; [done|]. apply H; [done|].
      by rewrite without_bit, Ht, Em.
    + rewrite without_bit by done. intros Ht. apply andb_true_iff in Ht. destruct Ht as [Ht Em].
      specialize (H b Hb Ht). by destruct (Z.testbit m b).
  - destruct (hits (Remaining e) m) eqn:Eh.
    + exists e. split; [done|]. split; [done|]. intros H. exfalso.
      assert (hits (Remaining e) m = false); [|congruence]. apply hits_false. intros b Hb Ht.
      specialize (H b Hb Ht). by destruct (Z.testbit m b).
    + destruct (IH e) as (e' & -> & He). exists e'. split; [done|]. rewrite He.
      rewrite hits_false in Eh. split; intros H b Hb Ht.
      * rewrite (Eh b Hb Ht). by apply H.
      * specialize (H b Hb Ht). by rewrite (Eh b Hb Ht) in H.
  - apply IH.
Qed.

Lemma SepNormalAccessCheck_single R Rem Aces e :
  exists e', SepNormalAccessCheck EToken PrimaryToken PrincipalSelfSid 0 Rem Aces [e] R = Some [e'] /\
    (Remaining e' = 0 <-> forall b, 0 <= b -> Z.testbit Rem b = true -> acl_grants R R Aces b = true).
Proof. unfold SepNormalAccessCheck. cbn [map]. apply (normal_aces_single R Aces (set_Remaining e Rem)). Qed.

(** The decision for the token as a whole: for a restricted token both lists of
    SIDs must grant.  The walk for MAXIMUM_ALLOWED looks for a compound
    entry's server SID among the normal SIDs ([maximum] is true), the other among
    the restricted ones. *)
Definition dacl_grants (maximum : bool) (Aces : list ACE) (b : Z) : bool :=
  acl_grants false false Aces b &&
  (negb (SeTokenIsRestricted EToken) || acl_grants true (negb maximum) Aces b).

End Decision.

(** ** SepAccessCheck without a type list *)

(** A single status and mask: access and status agree, a failure grants
    nothing, and a success satisfies [P]. *)
Definition one_status (r : check_result) (P : Z -> Prop) : Prop :=
  exists g st, GrantedAccess r = [g] /\ AccessStatus r = [st] /\ SomeAccessGranted r = NT_SUCCESS st /\
    SomeAccessDenied r = negb (NT_SUCCESS st) /\
    (st = STATUS_SUCCESS /\ RetVal r = true /\ g <> 0 /\ P g \/ st <> STATUS_SUCCESS /\ g = 0).

Lemma ReturnOneStatus_ok PP Pool ss wo n st g (P : Z -> Prop) :
  (st <> STATUS_SUCCESS -> g = 0) -> (st = STATUS_SUCCESS -> P g) ->
  one_status (ReturnOneStatus PP Pool ss wo false n st g) P.
Proof.
  intros Hz HP. unfold ReturnOneStatus, one_status. cbn [GrantedAccess AccessStatus SomeAccessGranted
    SomeAccessDenied RetVal replicate].
  eexists _, _. split; [reflexivity|]. split; [reflexivity|]. split; [reflexivity|]. split; [reflexivity|].
  destruct st; try (right; split; [done|]; by rewrite Hz by done).
  destruct (Z.eqb_spec g 0) as [->|Hg]; [by right|]. cbn [NT_SUCCESS andb].
  destruct (ss || wo), PP, Pool; cbn;
    first [right; done | left; split; [done|]; split; [done|]; split; [done|]; by apply HP].
Qed.

Section AccessCheck.
Variables (sd : SECURITY_DESCRIPTOR) (PrincipalSelfSid : option SID) (PrimaryToken : TOKEN)
  (ClientToken : option TOKEN) (GenericAll : Z) (PreviousMode : KPROCESSOR_MODE)
  (PrivilegesPresent PoolOk : bool).

Definition effective : TOKEN := match ClientToken with Some t => t | None => PrimaryToken end.
Definition holds (p : Z) : bool := SepSinglePrivilegeCheck p effective PreviousMode.
Definition dacl_allows (maximum : bool) (Aces : list ACE) (b : Z) : bool :=
  dacl_grants effective PrimaryToken PrincipalSelfSid maximum Aces b.

(** Why an access may be granted: it was granted before, a privilege grants it,
    there is no DACL, or the DACL grants it. *)
Definition reason (DesiredAccess PreviouslyGrantedAccess b : Z) : Prop :=
  let asked := Z.testbit DesiredAccess b = true in
  let maximum := Z.testbit DesiredAccess 25 in
  Z.testbit PreviouslyGrantedAccess b = true \/
  (b = 24 /\ asked /\ holds SeSecurityPrivilege = true) \/
  (b = 19 /\ asked /\ holds SeTakeOwnershipPrivilege = true) \/
  (RtlpDaclAddrSecurityDescriptor sd = None /\ (asked \/ maximum = true /\ Z.testbit GenericAll b = true)) \/
  (exists Aces, RtlpDaclAddrSecurityDescriptor sd = Some Aces /\
     (asked \/ maximum = true) /\ dacl_allows maximum Aces b = true).

Definition all_asked (DesiredAccess g : Z) : Prop :=
  forall b, 0 <= b -> b <> 25 -> Z.testbit DesiredAccess b = true -> Z.testbit g b = true.

Local Abbreviation check D Prev :=
  (SepAccessCheck sd PrincipalSelfSid PrimaryToken ClientToken D [] GenericAll Prev PreviousMode
     PrivilegesPresent PoolOk false).

Lemma MAXIMUM_bit b : 0 <= b -> Z.testbit MAXIMUM_ALLOWED b = (b =? 25).
Proof. intros. change MAXIMUM_ALLOWED with (2 ^ 25). rewrite Z.pow2_bits_eqb by lia. lia. Qed.
Lemma SYSTEM_bit b : 0 <= b -> Z.testbit ACCESS_SYSTEM_SECURITY b = (b =? 24).
Proof. intros. change ACCESS_SYSTEM_SECURITY with (2 ^ 24). rewrite Z.pow2_bits_eqb by lia. lia. Qed.
Lemma OWNER_bit b : 0 <= b -> Z.testbit WRITE_OWNER b = (b =? 19).
Proof. intros. change WRITE_OWNER with (2 ^ 19). rewrite Z.pow2_bits_eqb by lia. lia. Qed.

Lemma hits_max D : hits D MAXIMUM_ALLOWED = Z.testbit D 25.
Proof. apply (hits_bit D 25). lia. Qed.
Lemma hits_sys D : hits D ACCESS_SYSTEM_SECURITY = Z.testbit D 24.
Proof. apply (hits_bit D 24). lia. Qed.
Lemma hits_own D : hits D WRITE_OWNER = Z.testbit D 19.
Proof. apply (hits_bit D 19). lia. Qed.

(** The walk over a non-empty DACL, for both kinds of request. *)
Lemma max_walk Aces :
  exists e,
    (l ← SepMaximumAccessCheck effective PrimaryToken PrincipalSelfSid 0 Aces FixedTypeList false;
     if SeTokenIsRestricted effective
     then SepMaximumAccessCheck effective PrimaryToken PrincipalSelfSid 0 Aces l true else Some l)
    = Some [e] /\
    forall b, 0 <= b -> Z.testbit (CurrentGranted e) b = dacl_allows true Aces b.
Proof.
  destruct (SepMaximumAccessCheck_both effective PrimaryToken PrincipalSelfSid Aces (mkType 0 0 (-1) 0 0 0))
    as (e1 & e2 & E1 & E2 & H1 & H2); [done|done|].
  unfold FixedTypeList, dacl_allows, dacl_grants. rewrite E1. cbn [mbind option_bind].
  destruct (SeTokenIsRestricted effective).
  - exists e2. split; [done|]. intros b Hb. by rewrite H2.
  - exists e1. split; [done|]. intros b Hb. rewrite H1 by done. by rewrite andb_true_r.
Qed.

Lemma normal_walk Rem Aces :
  exists e1 e2,
    SepNormalAccessCheck effective PrimaryToken PrincipalSelfSid 0 Rem Aces FixedTypeList false = Some [e1] /\
    (if SeTokenIsRestricted effective
     then SepNormalAccessCheck effective PrimaryToken PrincipalSelfSid 0 Rem Aces [e1] true
     else Some [e1]) = Some [e2] /\
    ((Remaining e1 = 0 /\ Remaining e2 = 0) <->
     forall b, 0 <= b -> Z.testbit Rem b = true -> dacl_allows false Aces b = true).
Proof.
  destruct (SepNormalAccessCheck_single effective PrimaryToken PrincipalSelfSid false Rem Aces
    (mkType 0 0 (-1) 0 0 0)) as (e1 & E1 & H1).
  destruct (SepNormalAccessCheck_single effective PrimaryToken PrincipalSelfSid true Rem Aces e1)
    as (e2 & E2 & H2).
  exists e1. unfold FixedTypeList, dacl_allows, dacl_grants. destruct (SeTokenIsRestricted effective).
  - exists e2. split; [done|]. split; [done|]. rewrite H1, H2. cbn [negb orb]. split.
    + intros [Ha Hb] b H0 Ht. by rewrite Ha, Hb.
    + intros H. split; intros b H0 Ht; specialize (H b H0 Ht); apply andb_true_iff in H; tauto.
  - exists e1. split; [done|]. split; [done|]. rewrite H1. cbn [negb orb]. split.
    + intros [Ha _] b H0 Ht. by rewrite Ha.
    + intros H. split; intros b H0 Ht; specialize (H b H0 Ht); apply andb_true_iff in H; tauto.
Qed.

(** The last part of the routine, with the accesses [Rem] still to be granted
    by a non-empty DACL and [G] granted so far. *)
Definition dacl_part (D Rem G : Z) (ss wo : bool) (Aces : list ACE) : option check_result :=
  if hits D MAXIMUM_ALLOWED || false then
    l ← SepMaximumAccessCheck effective PrimaryToken PrincipalSelfSid 0 Aces FixedTypeList false;
    l ← (if SeTokenIsRestricted effective
         then SepMaximumAccessCheck effective PrimaryToken PrincipalSelfSid 0 Aces l true else Some l);
    if negb (without Rem (Z.lor MAXIMUM_ALLOWED (head_of l CurrentGranted)) =? 0)
    then Some (ReturnOneStatus PrivilegesPresent PoolOk ss wo false 0 STATUS_ACCESS_DENIED 0)
    else Some (ReturnOneStatus PrivilegesPresent PoolOk ss wo false 0 STATUS_SUCCESS
                 (Z.lor G (head_of l CurrentGranted)))
  else
    l ← SepNormalAccessCheck effective PrimaryToken PrincipalSelfSid 0 Rem Aces FixedTypeList false;
    if negb (head_of l Remaining =? 0)
    then Some (ReturnOneStatus PrivilegesPresent PoolOk ss wo false 0 STATUS_ACCESS_DENIED 0)
    else
      l ← (if SeTokenIsRestricted effective
           then SepNormalAccessCheck effective PrimaryToken PrincipalSelfSid 0 Rem Aces l true else Some l);
      if negb (head_of l Remaining =? 0)
      then Some (ReturnOneStatus PrivilegesPresent PoolOk ss wo false 0 STATUS_ACCESS_DENIED 0)
      else Some (ReturnOneStatus PrivilegesPresent PoolOk ss wo false 0 STATUS_SUCCESS (Z.lor G D)).

Lemma dacl_part_ok D Rem G ss wo Aces :
  exists st g,
    dacl_part D Rem G ss wo Aces = Some (ReturnOneStatus PrivilegesPresent PoolOk ss wo false 0 st g) /\
    if Z.testbit D 25 then
      exists c, (forall b, 0 <= b -> Z.testbit c b = dacl_allows true Aces b) /\
        ((st = STATUS_SUCCESS /\ g = Z.lor G c /\
          forall b, 0 <= b -> b <> 25 -> Z.testbit Rem b = true -> dacl_allows true Aces b = true) \/
         (st = STATUS_ACCESS_DENIED /\ g = 0 /\
          exists b, 0 <= b /\ b <> 25 /\ Z.testbit Rem b = true /\ dacl_allows true Aces b = false))
    else
      (st = STATUS_SUCCESS /\ g = Z.lor G D /\
       forall b, 0 <= b -> Z.testbit Rem b = true -> dacl_allows false Aces b = true) \/
      (st = STATUS_ACCESS_DENIED /\ g = 0 /\
       ~ forall b, 0 <= b -> Z.testbit Rem b = true -> dacl_allows false Aces b = true).
Proof.
  unfold dacl_part. rewrite hits_max, orb_false_r. destruct (Z.testbit D 25).
  - destruct (max_walk Aces) as (e & E & He).
    destruct (SepMaximumAccessCheck _ _ _ _ _ FixedTypeList false) as [l|]; [|done].
    cbn [mbind option_bind] in E |- *. rewrite E. cbn [mbind option_bind head_of].
    destruct (Z.eqb_spec (without Rem (Z.lor MAXIMUM_ALLOWED (CurrentGranted e))) 0) as [Ez|Ez]; cbn [negb].
    + eexists _, _. split; [reflexivity|]. exists (CurrentGranted e). split; [done|]. left.
      split; [done|]. split; [done|]. intros b Hb Hne Ht. rewrite zero_bits in Ez. specialize (Ez b Hb).
      rewrite without_bit, Z.lor_spec, MAXIMUM_bit, He, Ht in Ez by done.
      destruct (Z.eqb_spec b 25); [lia|]. by destruct (dacl_allows true Aces b).
    + eexists _, _. split; [reflexivity|]. exists (CurrentGranted e). split; [done|]. right.
      split; [done|]. split; [done|].
      destruct (zbit_exists _ Ez) as (b & Hb & Ht).
      rewrite without_bit, Z.lor_spec, MAXIMUM_bit, He in Ht by done.
      apply andb_true_iff in Ht. destruct Ht as [Ht Hn]. apply negb_true_iff, orb_false_iff in Hn.
      exists b. split; [done|]. split; [lia|]. split; [done|tauto].
  - destruct (normal_walk Rem Aces) as (e1 & e2 & -> & E2 & Hiff). cbn [mbind option_bind head_of].
    destruct (Z.eqb_spec (Remaining e1) 0) as [E1|E1]; cbn [negb].
    + rewrite E2. cbn [mbind option_bind head_of].
      destruct (Z.eqb_spec (Remaining e2) 0) as [Ez|Ez]; cbn [negb]; eexists _, _; (split; [reflexivity|]).
      * left. split; [done|]. split; [done|]. by apply Hiff.
      * right. split; [done|]. split; [done|]. rewrite <- Hiff. tauto.
    + eexists _, _. split; [reflexivity|]. right. split; [done|]. split; [done|]. rewrite <- Hiff. tauto.
Qed.

Local Abbreviation one := (ReturnOneStatus PrivilegesPresent PoolOk).

Lemma SepAccessCheck_eq D Prev :
  check D Prev =
  let ss := Z.testbit D 24 in
  if ss && negb (holds SeSecurityPrivilege) then Some (one false false false 0 STATUS_PRIVILEGE_NOT_HELD 0)
  else
    let Rem := if ss then without D ACCESS_SYSTEM_SECURITY else D in
    let G := if ss then Z.lor Prev ACCESS_SYSTEM_SECURITY else Prev in
    if ss && (Rem =? 0) then Some (one ss false false 0 STATUS_SUCCESS G)
    else
      match RtlpDaclAddrSecurityDescriptor sd with
      | None =>
          Some (one ss false false 0 STATUS_SUCCESS
            (if Z.testbit D 25 then Z.lor GenericAll (without (Z.lor D G) MAXIMUM_ALLOWED) else Z.lor G D))
      | Some Aces =>
          let wo := Z.testbit Rem 19 && PrivilegesPresent && holds SeTakeOwnershipPrivilege in
          let Rem := if wo then without Rem WRITE_OWNER else Rem in
          let G := if wo then Z.lor G WRITE_OWNER else G in
          if wo && (Rem =? 0) then Some (one ss wo false 0 STATUS_SUCCESS G)
          else
            match Aces with
            | [] => if (Rem =? MAXIMUM_ALLOWED) && negb (G =? 0)
                    then Some (one ss wo false 0 STATUS_SUCCESS G)
                    else Some (one ss wo false 0 STATUS_ACCESS_DENIED 0)
            | _ => dacl_part D Rem G ss wo Aces
            end
      end.
Proof.
  unfold SepAccessCheck. cbv zeta. rewrite hits_sys.
  rewrite hits_own, hits_max.
  change (Z.of_nat (length (@nil IOBJECT_TYPE_LIST)) =? 0) with true.
  change (Z.of_nat (length (@nil IOBJECT_TYPE_LIST))) with 0. unfold dacl_part. rewrite hits_max.
  destruct (RtlpDaclAddrSecurityDescriptor sd) as [[|a Aces]|]; reflexivity.
Qed.

(** [G] granted so far and [Rem] remaining, of the accesses [D] asked for:
    nothing asked for is lost, nothing is granted without a reason. *)
Record staged (D Prev Rem G : Z) : Prop := {
  st_split : forall b, 0 <= b -> Z.testbit D b = true -> Z.testbit G b = true \/ Z.testbit Rem b = true;
  st_sub : forall b, 0 <= b -> Z.testbit Rem b = true -> Z.testbit D b = true;
  st_reason : forall b, 0 <= b -> Z.testbit G b = true -> reason D Prev b }.

Definition good (D Prev g : Z) : Prop :=
  all_asked D g /\ forall b, 0 <= b -> Z.testbit g b = true -> reason D Prev b.

(** Moving one access from the remaining to the granted ones. *)
Lemma staged_move (c : bool) D Prev Rem G k :
  staged D Prev Rem G -> 0 <= k -> (c = true -> reason D Prev k) ->
  staged D Prev (if c then without Rem (2 ^ k) else Rem) (if c then Z.lor G (2 ^ k) else G).
Proof.
  intros [H1 H2 H3] Hk Hc. destruct c; [|done]. split; intros b Hb Ht.
  - rewrite without_bit, Z.lor_spec, Z.pow2_bits_eqb by lia. destruct (H1 b Hb Ht) as [-> | ->]; [by left|].
    destruct (k =? b); [left; apply orb_true_r|by right].
  - rewrite without_bit in Ht by done. apply andb_true_iff in Ht. apply H2; tauto.
  - rewrite Z.lor_spec, Z.pow2_bits_eqb in Ht by lia. apply orb_true_iff in Ht.
    destruct Ht as [Ht|Ht]; [by apply H3|]. apply Z.eqb_eq in Ht. subst b. by apply Hc.
Qed.

Lemma staged_done D Prev Rem G :
  staged D Prev Rem G -> Rem = 0 \/ Rem = MAXIMUM_ALLOWED -> good D Prev G.
Proof.
  intros [H1 _ H3] Hr. split; [|done]. intros b Hb Hne Ht. destruct (H1 b Hb Ht) as [|Hf]; [done|].
  destruct Hr as [-> | ->]; [by rewrite Z.bits_0 in Hf|]. rewrite MAXIMUM_bit in Hf by done. lia.
Qed.

Lemma staged_no_dacl D Prev Rem G :
  staged D Prev Rem G -> RtlpDaclAddrSecurityDescriptor sd = None ->
  good D Prev (if Z.testbit D 25 then Z.lor GenericAll (without (Z.lor D G) MAXIMUM_ALLOWED) else Z.lor G D).
Proof.
  intros [_ _ H3] Hd.
  assert (Hasked : forall b, Z.testbit D b = true -> reason D Prev b).
  { intros b Ht. do 3 right. left. split; [done|by left]. }
  destruct (Z.testbit D 25) eqn:E25; split; intros b Hb.
  - intros Hne Ht. rewrite Z.lor_spec, without_bit, Z.lor_spec, MAXIMUM_bit, Ht by done.
    destruct (Z.eqb_spec b 25); [done|]. by rewrite orb_true_r.
  - intros Ht. rewrite Z.lor_spec, without_bit, Z.lor_spec in Ht by done.
    destruct (Z.testbit GenericAll b) eqn:Eg; [do 3 right; left; split; [done|by right]|].
    cbn [orb] in Ht. apply andb_true_iff in Ht. destruct Ht as [Ht _].
    apply orb_true_iff in Ht. destruct Ht; [by apply Hasked|by apply H3].
  - intros Hne Ht. rewrite Z.lor_spec, Ht. apply orb_true_r.
  - intros Ht. rewrite Z.lor_spec in Ht. apply orb_true_iff in Ht.
    destruct Ht; [by apply H3|by apply Hasked].
Qed.

Lemma staged_dacl D Prev Rem G ss wo Aces :
  staged D Prev Rem G -> RtlpDaclAddrSecurityDescriptor sd = Some Aces ->
  exists r, dacl_part D Rem G ss wo Aces = Some r /\ one_status r (good D Prev).
Proof.
  intros [H1 H2 H3] Hd. destruct (dacl_part_ok D Rem G ss wo Aces) as (st & g & -> & Hres).
  eexists. split; [reflexivity|].
  assert (Hdacl : forall b, 0 <= b -> Z.testbit D b = true \/ Z.testbit D 25 = true ->
    dacl_allows (Z.testbit D 25) Aces b = true -> reason D Prev b).
  { intros b Hb Hor Hda. do 4 right. exists Aces. done. }
  destruct (Z.testbit D 25) eqn:E25.
  - destruct Hres as (c & Hc & [(-> & -> & Hall)|(-> & -> & _)]); apply ReturnOneStatus_ok; try done.
    intros _. split; intros b Hb.
    + intros Hne Ht. rewrite Z.lor_spec, Hc by done.
      destruct (H1 b Hb Ht) as [->|Hf]; [done|]. rewrite (Hall b Hb Hne Hf). apply orb_true_r.
    + intros Ht. rewrite Z.lor_spec, Hc in Ht by done. apply orb_true_iff in Ht.
      destruct Ht as [Ht|Ht]; [by apply H3|]. apply Hdacl; [done|by right|done].
  - destruct Hres as [(-> & -> & Hall)|(-> & -> & _)]; apply ReturnOneStatus_ok; try done.
    intros _. split; intros b Hb.
    + intros Hne Ht. rewrite Z.lor_spec, Ht. apply orb_true_r.
    + intros Ht. rewrite Z.lor_spec in Ht. apply orb_true_iff in Ht.
      destruct Ht as [Ht|Ht]; [by apply H3|].
      destruct (H1 b Hb Ht) as [|Hf]; [by apply H3|]. apply Hdacl; [done|by left|by apply Hall].
Qed.

Lemma SepAccessCheck_ok D Prev : exists r, check D Prev = Some r /\ one_status r (good D Prev).
Proof.
  rewrite SepAccessCheck_eq. cbv zeta.
  destruct (Z.testbit D 24 && negb (holds SeSecurityPrivilege)) eqn:Ess.
  { eexists. split; [reflexivity|]. by apply ReturnOneStatus_ok. }
  assert (Hst : staged D Prev D Prev).
  { split; [by right|done|]. intros b Hb Ht. by left. }
  apply (staged_move (Z.testbit D 24) _ _ _ _ 24) in Hst; [|lia|].
  2:{ intros Hs. right. left. rewrite Hs in Ess. split; [done|]. split; [done|]. by apply negb_false_iff. }
  change (2 ^ 24) with ACCESS_SYSTEM_SECURITY in Hst. set (Rem := if Z.testbit D 24 then _ else _) in *.
  set (G := if Z.testbit D 24 then Z.lor _ _ else _) in *.
  destruct (Z.testbit D 24 && (Rem =? 0)) eqn:Er0.
  { eexists. split; [reflexivity|]. apply ReturnOneStatus_ok; [done|]. intros _.
    eapply staged_done; [exact Hst|left; lia]. }
  destruct (RtlpDaclAddrSecurityDescriptor sd) as [Aces|] eqn:Edacl.
  2:{ eexists. split; [reflexivity|]. apply ReturnOneStatus_ok; [done|]. intros _.
      by apply (staged_no_dacl _ _ Rem). }
  set (wo := Z.testbit Rem 19 && PrivilegesPresent && holds SeTakeOwnershipPrivilege).
  pose proof (staged_move wo _ _ _ _ 19 Hst ltac:(lia)) as Hst'. change (2 ^ 19) with WRITE_OWNER in Hst'.
  set (Rem' := if wo then _ else _) in *. set (G' := if wo then Z.lor _ _ else _) in *.
  assert (staged D Prev Rem' G') as Hst2.
  { apply Hst'. unfold wo. rewrite !andb_true_iff. intros [[Hw _] Hh]. right. right. left.
    split; [done|]. split; [|done]. apply (st_sub _ _ _ _ Hst); [lia|done]. }
  destruct (wo && (Rem' =? 0)) eqn:Er1.
  { eexists. split; [reflexivity|]. apply ReturnOneStatus_ok; [done|]. intros _.
    eapply staged_done; [exact Hst2|left; lia]. }
  destruct Aces as [|a Aces]; [|by apply staged_dacl].
  destruct ((Rem' =? MAXIMUM_ALLOWED) && negb (G' =? 0)) eqn:Em; eexists; (split; [reflexivity|]);
    apply ReturnOneStatus_ok; try done. intros _. eapply staged_done; [exact Hst2|right; lia].
Qed.

(** *** Requests that involve no privilege *)

(** Without ACCESS_SYSTEM_SECURITY, and without WRITE_OWNER unless no privilege
    can satisfy it, the DACL alone decides. *)
Definition plain (D : Z) : Prop :=
  Z.testbit D 24 = false /\
  (Z.testbit D 19 && PrivilegesPresent && holds SeTakeOwnershipPrivilege) = false.

Lemma SepAccessCheck_plain D Prev Aces :
  RtlpDaclAddrSecurityDescriptor sd = Some Aces -> plain D ->
  check D Prev =
    match Aces with
    | [] => if (D =? MAXIMUM_ALLOWED) && negb (Prev =? 0)
            then Some (one false false false 0 STATUS_SUCCESS Prev)
            else Some (one false false false 0 STATUS_ACCESS_DENIED 0)
    | _ => dacl_part D D Prev false false Aces
    end.
Proof.
  intros Hd [H24 H19]. rewrite SepAccessCheck_eq. cbv zeta. rewrite H24, Hd. cbn [andb].
  by rewrite H19.
Qed.

Lemma one_success g : g <> 0 ->
  one false false false 0 STATUS_SUCCESS g =
  mkResult true [g] [STATUS_SUCCESS] None true false.
Proof. intros Hg. unfold ReturnOneStatus. by destruct (Z.eqb_spec g 0). Qed.

Lemma one_denied :
  one false false false 0 STATUS_ACCESS_DENIED 0 =
  mkResult true [0] [STATUS_ACCESS_DENIED] None false true.
Proof. done. Qed.

Lemma lor_ne0 a b : b <> 0 -> Z.lor a b <> 0.
Proof. intros Hb Hl. apply Z.lor_eq_0_iff in Hl. tauto. Qed.

(** A request for specific accesses. *)
Lemma normal_exact D Prev Aces :
  RtlpDaclAddrSecurityDescriptor sd = Some Aces -> plain D -> Z.testbit D 25 = false -> D <> 0 ->
  ((forall b, 0 <= b -> Z.testbit D b = true -> dacl_allows false Aces b = true) /\
   check D Prev = Some (mkResult true [Z.lor Prev D] [STATUS_SUCCESS] None true false)) \/
  (~ (forall b, 0 <= b -> Z.testbit D b = true -> dacl_allows false Aces b = true) /\
   check D Prev = Some (mkResult true [0] [STATUS_ACCESS_DENIED] None false true)).
Proof.
  intros Hd Hp H25 Hne. rewrite (SepAccessCheck_plain D Prev Aces Hd Hp).
  destruct Aces as [|a Aces].
  - right. split.
    + intros H. destruct (zbit_exists D Hne) as (b & Hb & Ht). by specialize (H b Hb Ht).
    + destruct (Z.eqb_spec D MAXIMUM_ALLOWED) as [->|]; [done|]. by rewrite one_denied.
  - destruct (dacl_part_ok D D Prev false false (a :: Aces)) as (st & g & -> & Hres). rewrite H25 in Hres.
    destruct Hres as [(-> & -> & Hall)|(-> & -> & Hno)].
    + left. split; [done|]. by rewrite one_success by (by apply lor_ne0).
    + right. split; [done|]. by rewrite one_denied.
Qed.

(** *** Requests for specific accesses, privileges included *)

(** An access a privilege pays for. *)
Definition paid (b : Z) : bool :=
  (b =? 24) && holds SeSecurityPrivilege ||
  (b =? 19) && PrivilegesPresent && holds SeTakeOwnershipPrivilege.

(** Every access asked for is paid for or granted by the DACL. *)
Definition covered (Aces : list ACE) (D : Z) : Prop :=
  forall b, 0 <= b -> Z.testbit D b = true -> paid b = true \/ dacl_allows false Aces b = true.

(** The answer when [g] is granted, with the privileges used: they are returned
    where the caller has given a pointer, and without memory for them the request
    fails. *)
Definition granted_with (ss wo : bool) (g : Z) : check_result :=
  if (ss || wo) && PrivilegesPresent && negb PoolOk then mkResult false [0] [STATUS_NO_MEMORY] None false true
  else mkResult true [g] [STATUS_SUCCESS] (if (ss || wo) && PrivilegesPresent then Some (ss, wo) else None) true false.

Lemma one_granted ss wo g : g <> 0 -> one ss wo false 0 STATUS_SUCCESS g = granted_with ss wo g.
Proof.
  intros Hg. unfold ReturnOneStatus, granted_with, SepAssemblePrivileges. destruct (Z.eqb_spec g 0); [done|].
  by destruct ss, wo, PrivilegesPresent, PoolOk.
Qed.

Lemma one_refused ss wo : one ss wo false 0 STATUS_ACCESS_DENIED 0 = mkResult true [0] [STATUS_ACCESS_DENIED] None false true.
Proof. done. Qed.

Lemma move_bit (c : bool) a m b : 0 <= b -> Z.testbit (if c then without a m else a) b = Z.testbit a b && negb (c && Z.testbit m b).
Proof. intros Hb. destruct c; [by apply without_bit|]. by rewrite andb_true_r. Qed.
Lemma grant_bit (c : bool) a m b : 0 <= b -> Z.testbit (if c then Z.lor a m else a) b = Z.testbit a b || c && Z.testbit m b.
Proof. intros Hb. destruct c; [apply Z.lor_spec|]. by rewrite orb_false_r. Qed.

(** The two privileges move exactly the accesses they pay for. *)
Lemma paid_bits D p b : Z.testbit D 24 && negb (holds SeSecurityPrivilege) = false ->
  let wo := Z.testbit D 19 && PrivilegesPresent && holds SeTakeOwnershipPrivilege in
  Z.testbit D b && negb (Z.testbit D 24 && (b =? 24)) && negb (wo && (b =? 19)) = Z.testbit D b && negb (paid b) /\
  p || Z.testbit D 24 && (b =? 24) || wo && (b =? 19) = p || Z.testbit D b && paid b.
Proof.
  cbv zeta. unfold paid. destruct (Z.eqb_spec b 24) as [->|H24]; [|destruct (Z.eqb_spec b 19) as [->|H19]]; cbn [Z.eqb Pos.eqb].
  - destruct (Z.testbit D 24), (holds SeSecurityPrivilege), p; done || by rewrite ?andb_false_r.
  - destruct (Z.testbit D 19), (Z.testbit D 24), PrivilegesPresent, (holds SeTakeOwnershipPrivilege), p; done.
  - rewrite !andb_false_r. by destruct (Z.testbit D b), p.
Qed.

Lemma specific_exact D Prev Aces :
  RtlpDaclAddrSecurityDescriptor sd = Some Aces -> Z.testbit D 25 = false -> D <> 0 ->
  if Z.testbit D 24 && negb (holds SeSecurityPrivilege)
  then check D Prev = Some (mkResult true [0] [STATUS_PRIVILEGE_NOT_HELD] None false true)
  else
    (covered Aces D /\
     check D Prev = Some (granted_with (Z.testbit D 24)
       (Z.testbit D 19 && PrivilegesPresent && holds SeTakeOwnershipPrivilege) (Z.lor Prev D))) \/
    (~ covered Aces D /\ check D Prev = Some (mkResult true [0] [STATUS_ACCESS_DENIED] None false true)).
Proof.
  intros Hd H25 Hne. rewrite SepAccessCheck_eq. cbv zeta. rewrite Hd.
  destruct (Z.testbit D 24 && negb (holds SeSecurityPrivilege)) eqn:Ess; [done|].
  set (Rem1 := if Z.testbit D 24 then without D ACCESS_SYSTEM_SECURITY else D).
  set (G1 := if Z.testbit D 24 then Z.lor Prev ACCESS_SYSTEM_SECURITY else Prev).
  assert (Z.testbit Rem1 19 = Z.testbit D 19) as ->.
  { unfold Rem1. destruct (Z.testbit D 24); [|done]. rewrite without_bit, SYSTEM_bit by lia. apply andb_true_r. }
  set (wo := Z.testbit D 19 && PrivilegesPresent && holds SeTakeOwnershipPrivilege).
  set (Rem := if wo then without Rem1 WRITE_OWNER else Rem1). set (G := if wo then Z.lor G1 WRITE_OWNER else G1).
  assert (HR : forall b, 0 <= b -> Z.testbit Rem b = Z.testbit D b && negb (paid b)).
  { intros b Hb. unfold Rem. rewrite move_bit, OWNER_bit by done. unfold Rem1. rewrite move_bit, SYSTEM_bit by done.
    unfold wo. by apply paid_bits. }
  assert (HG : forall b, 0 <= b -> Z.testbit G b = Z.testbit Prev b || (Z.testbit D b && paid b)).
  { intros b Hb. unfold G. rewrite grant_bit, OWNER_bit by done. unfold G1. rewrite grant_bit, SYSTEM_bit by done.
    unfold wo. by apply paid_bits. }
  assert (Hlor : Z.lor G D = Z.lor Prev D).
  { apply Z.bits_inj'. intros b Hb. rewrite !Z.lor_spec, HG by done. by destruct (Z.testbit D b), (Z.testbit Prev b), (paid b). }
  assert (Hcov : covered Aces D <-> forall b, 0 <= b -> Z.testbit Rem b = true -> dacl_allows false Aces b = true).
  { split; intros H b Hb Ht.
    - rewrite HR in Ht by done. apply andb_true_iff in Ht as [Ht Hp%negb_true_iff]. destruct (H b Hb Ht); [congruence|done].
    - destruct (paid b) eqn:Ep; [by left|right]. apply (H b Hb). by rewrite HR, Ht, Ep by done. }
  assert (Hzero : Rem = 0 -> covered Aces D /\ G = Z.lor Prev D).
  { intros Hz. split; [apply Hcov; intros b _; by rewrite Hz, Z.bits_0|]. rewrite <- Hlor. apply Z.bits_inj'. intros b Hb.
    rewrite Z.lor_spec, HG by done. specialize (HR b Hb). rewrite Hz, Z.bits_0 in HR.
    by destruct (Z.testbit D b), (Z.testbit Prev b), (paid b). }
  assert (Hone : forall ss wo, one ss wo false 0 STATUS_SUCCESS (Z.lor Prev D) = granted_with ss wo (Z.lor Prev D)).
  { intros. by apply one_granted, lor_ne0. }
  destruct (Z.testbit D 24 && (Rem1 =? 0)) eqn:Er1.
  { apply andb_true_iff in Er1 as [H24 Hz%Z.eqb_eq].
    assert (wo = false) as Hwo.
    { unfold wo. destruct (Z.testbit D 19) eqn:E19; [|done]. exfalso. assert (Z.testbit Rem1 19 = true) as Hc; [|by rewrite Hz, Z.bits_0 in Hc].
      unfold Rem1. rewrite H24, without_bit, SYSTEM_bit, E19 by lia. done. }
    unfold Rem, G in Hzero. rewrite Hwo in Hzero |- *. destruct (Hzero Hz) as [Hc ->]. left. split; [done|]. by rewrite Hone. }
  destruct (wo && (Rem =? 0)) eqn:Er2.
  { apply andb_true_iff in Er2 as [_ Hz%Z.eqb_eq]. destruct (Hzero Hz) as [Hc ->]. left. split; [done|]. by rewrite Hone. }
  assert (Hnz : Rem <> 0).
  { intros Hz. rewrite Hz, Z.eqb_refl, andb_true_r in Er2. unfold Rem in Hz. rewrite Er2 in Hz. rewrite Hz, Z.eqb_refl, andb_true_r in Er1.
    unfold Rem1 in Hz. by rewrite Er1 in Hz. }
  destruct Aces as [|a Aces].
  { right. split.
    - rewrite Hcov. intros H. destruct (zbit_exists Rem Hnz) as (b & Hb & Ht). by specialize (H b Hb Ht).
    - destruct (Z.eqb_spec Rem MAXIMUM_ALLOWED) as [E|]; [exfalso|by rewrite one_refused].
      specialize (HR 25 ltac:(lia)). rewrite E, H25 in HR. done. }
  destruct (dacl_part_ok D Rem G (Z.testbit D 24) wo (a :: Aces)) as (st & g & -> & Hres). rewrite H25 in Hres. rewrite Hcov.
  destruct Hres as [(-> & -> & Hall)|(-> & -> & Hno)]; [left|right; by rewrite one_refused].
  split; [done|]. by rewrite Hlor, Hone.
Qed.

(** A request for MAXIMUM_ALLOWED alone. *)
Lemma maximum_exact Prev Aces :
  RtlpDaclAddrSecurityDescriptor sd = Some Aces ->
  exists g, (forall b, 0 <= b -> Z.testbit g b = Z.testbit Prev b || dacl_allows true Aces b) /\
    check MAXIMUM_ALLOWED Prev =
      Some (if g =? 0 then mkResult true [0] [STATUS_ACCESS_DENIED] None false true
            else mkResult true [g] [STATUS_SUCCESS] None true false).
Proof.
  intros Hd. rewrite (SepAccessCheck_plain _ Prev Aces Hd) by done. destruct Aces as [|a Aces].
  - exists Prev. split; [intros b _; by rewrite orb_false_r|]. rewrite Z.eqb_refl. cbn [andb].
    destruct (Z.eqb_spec Prev 0); cbn [negb]; [by rewrite one_denied|by rewrite one_success].
  - destruct (dacl_part_ok MAXIMUM_ALLOWED MAXIMUM_ALLOWED Prev false false (a :: Aces)) as (st & g & -> & Hres).
    change (Z.testbit MAXIMUM_ALLOWED 25) with true in Hres. cbv iota in Hres.
    destruct Hres as (c & Hc & [(-> & -> & _)|(_ & _ & b & Hb & Hne & Ht & _)]).
    + exists (Z.lor Prev c). split; [intros b Hb; by rewrite Z.lor_spec, Hc|].
      destruct (Z.eqb_spec (Z.lor Prev c) 0) as [E|E]; [|by rewrite one_success].
      unfold ReturnOneStatus. by rewrite E.
    + rewrite MAXIMUM_bit in Ht by done. lia.
Qed.
End AccessCheck.

(** ** Agreement of the two walks *)

Definition is_compound (a : ACE) : bool :=
  match Body a with ACCESS_ALLOWED_COMPOUND_ACE _ _ _ => true | _ => false end.
Definition is_denied_object (a : ACE) : bool :=
  match Body a with ACCESS_DENIED_OBJECT_ACE _ _ _ => true | _ => false end.

Lemma verdict_server E P self R sr sr' a :
  is_compound a = false -> ace_verdict E P self R sr a = ace_verdict E P self R sr' a.
Proof. intros H. unfold ace_verdict, is_compound in *. by destruct (Body a). Qed.

Lemma acl_grants_server E P self R sr sr' Aces b :
  Forall (fun a => is_compound a = false) Aces ->
  acl_grants E P self R sr Aces b = acl_grants E P self R sr' Aces b.
Proof.
  induction 1 as [|a Aces Ha _ IH]; cbn [acl_grants]; [done|].
  by rewrite (verdict_server E P self R sr sr' a Ha), IH.
Qed.

Lemma dacl_grants_agree E P self Aces b :
  SeTokenIsRestricted E = false \/ Forall (fun a => is_compound a = false) Aces ->
  dacl_grants E P self true Aces b = dacl_grants E P self false Aces b.
Proof.
  intros H. unfold dacl_grants. destruct (SeTokenIsRestricted E); [|done].
  destruct H as [|H]; [done|]. by rewrite (acl_grants_server E P self true (negb true) (negb false)).
Qed.

(** ** Restricting a token *)

Lemma one_granted_inv PP Pool ss wo st g : SomeAccessGranted (ReturnOneStatus PP Pool ss wo false 0 st g) = true ->
  st = STATUS_SUCCESS /\ g <> 0 /\ (ss || wo) && PP && negb Pool = false.
Proof.
  unfold ReturnOneStatus. destruct st; cbn; try done. destruct (Z.eqb_spec g 0); [done|]. cbn.
  by destruct ss, wo, PP, Pool.
Qed.

Lemma one_granted_intro PP Pool ss wo g : g <> 0 -> (ss || wo) && PP && negb Pool = false ->
  let r := ReturnOneStatus PP Pool ss wo false 0 STATUS_SUCCESS g in
  SomeAccessGranted r = true /\ RetVal r = true /\ GrantedAccess r = [g].
Proof.
  intros Hg. unfold ReturnOneStatus. destruct (Z.eqb_spec g 0); [done|]. cbn. by destruct ss, wo, PP, Pool.
Qed.

(** The token with other flags, and the subject whose effective token has them. *)
Definition with_flags (Flags : Z) (t : TOKEN) : TOKEN := mkToken (UserAndGroups t) (RestrictedSids t) (Privileges t) Flags.
Definition primary_with (Flags : Z) (Primary : TOKEN) (Client : option TOKEN) : TOKEN :=
  match Client with Some _ => Primary | None => with_flags Flags Primary end.
Definition client_with (Flags : Z) (Client : option TOKEN) : option TOKEN := option_map (with_flags Flags) Client.

Section Restriction.
Variables (self : option SID) (Primary : TOKEN) (Client : option TOKEN) (Flags : Z) (PP Pool : bool).
Hypothesis Hflags : hits Flags TOKEN_IS_RESTRICTED = false.
Let Primary' := primary_with Flags Primary Client.
Let Client' := client_with Flags Client.

Lemma allows_unrestricted maximum Aces b : dacl_allows self Primary Client maximum Aces b = true ->
  dacl_allows self Primary' Client' maximum Aces b = true.
Proof.
  unfold dacl_allows, dacl_grants, SeTokenIsRestricted, Primary', Client', primary_with, client_with.
  destruct Client; intros [H _]%andb_true_iff; cbn [effective option_map TokenFlags with_flags];
    rewrite Hflags; cbn [negb orb]; rewrite andb_true_r; exact H.
Qed.

Lemma dacl_part_unrestricted D Rem G ss wo Aces r :
  dacl_part self Primary Client PP Pool D Rem G ss wo Aces = Some r -> SomeAccessGranted r = true ->
  exists r', dacl_part self Primary' Client' PP Pool D Rem G ss wo Aces = Some r' /\
    SomeAccessGranted r' = true /\ RetVal r' = true /\ (Z.testbit D 25 = false -> r' = r) /\
    exists g g', GrantedAccess r = [g] /\ GrantedAccess r' = [g'] /\ forall b, 0 <= b -> Z.testbit g b = true -> Z.testbit g' b = true.
Proof.
  destruct (dacl_part_ok self Primary Client PP Pool D Rem G ss wo Aces) as (st & g & -> & Hres).
  destruct (dacl_part_ok self Primary' Client' PP Pool D Rem G ss wo Aces) as (st' & g' & -> & Hres').
  intros [= <-] (-> & Hg & Hmem)%one_granted_inv. destruct (one_granted_intro PP Pool ss wo g Hg Hmem) as (_ & _ & HG).
  eexists. split; [reflexivity|].
  assert (forall x, (forall b, 0 <= b -> Z.testbit g b = true -> Z.testbit x b = true) -> x <> 0) as Hx.
  { intros x Hsub ->. destruct (zbit_exists g Hg) as (b & Hb & Ht). specialize (Hsub b Hb Ht). by rewrite Z.bits_0 in Hsub. }
  destruct (Z.testbit D 25).
  - destruct Hres as (c & Hc & [(_ & -> & Hall)|(? & _)]); [|done]. destruct Hres' as (c' & Hc' & [(-> & -> & _)|(_ & _ & b & Hb & H25 & Ht & Hf)]).
    + assert (forall b, 0 <= b -> Z.testbit (Z.lor G c) b = true -> Z.testbit (Z.lor G c') b = true) as Hsub.
      { intros b Hb. rewrite !Z.lor_spec, Hc, Hc' by done. intros [->|H%allows_unrestricted]%orb_true_iff; [done|]. rewrite H. apply orb_true_r. }
      destruct (one_granted_intro PP Pool ss wo _ (Hx _ Hsub) Hmem) as (H1 & H2 & H3). split_and!; [done..|]. by eexists _, _.
    + specialize (Hall b Hb H25 Ht). apply allows_unrestricted in Hall. congruence.
  - destruct Hres as [(_ & -> & Hall)|(? & _)]; [|done].
    destruct Hres' as [(-> & -> & _)|(_ & _ & Hno)]; [|exfalso; apply Hno; intros b Hb Ht; by apply allows_unrestricted, Hall].
    destruct (one_granted_intro PP Pool ss wo _ Hg Hmem) as (H1 & H2 & H3). split_and!; [done..|]. by eexists _, _.
Qed.

Lemma restricted_grants sd GA mode D Prev r :
  SepAccessCheck sd self Primary Client D [] GA Prev mode PP Pool false = Some r -> SomeAccessGranted r = true ->
  exists r', SepAccessCheck sd self Primary' Client' D [] GA Prev mode PP Pool false = Some r' /\
    SomeAccessGranted r' = true /\ RetVal r' = true /\ (Z.testbit D 25 = false -> r' = r) /\
    exists g g', GrantedAccess r = [g] /\ GrantedAccess r' = [g'] /\ forall b, 0 <= b -> Z.testbit g b = true -> Z.testbit g' b = true.
Proof.
  rewrite !SepAccessCheck_eq. cbv zeta.
  replace (holds Primary' Client') with (holds Primary Client) by by destruct Client.
  assert (forall ss wo st g, Some (ReturnOneStatus PP Pool ss wo false 0 st g) = Some r -> SomeAccessGranted r = true ->
    exists r', Some (ReturnOneStatus PP Pool ss wo false 0 st g) = Some r' /\ SomeAccessGranted r' = true /\ RetVal r' = true /\
      (Z.testbit D 25 = false -> r' = r) /\
      exists g g', GrantedAccess r = [g] /\ GrantedAccess r' = [g'] /\ forall b, 0 <= b -> Z.testbit g b = true -> Z.testbit g' b = true) as Hsame.
  { intros ss wo st g [= <-] Hs. pose proof (one_granted_inv _ _ _ _ _ _ Hs) as (-> & Hg & Hm).
    destruct (one_granted_intro PP Pool ss wo g Hg Hm) as (H1 & H2 & H3). eexists. split_and!; [done..|]. by eexists _, _. }
  destruct (Z.testbit D 24 && negb _); [apply Hsame|].
  destruct (Z.testbit D 24 && _); [apply Hsame|].
  destruct (RtlpDaclAddrSecurityDescriptor sd) as [Aces|]; [|apply Hsame].
  destruct (_ && _ && _ && _); [apply Hsame|].
  destruct Aces as [|a Aces]; [|apply dacl_part_unrestricted].
  destruct (_ && _); apply Hsame.
Qed.
End Restriction.

(** ** Fast traversal *)

Lemma self_world self : self_sid self SeWorldSid = SeWorldSid.
Proof. unfold self_sid. destruct self; [|done]. by rewrite bool_decide_eq_false_2. Qed.

Lemma hits_pow2_l k m : 0 <= k -> hits (2 ^ k) m = Z.testbit m k.
Proof. intros Hk. unfold hits. rewrite Z.land_comm. by apply hits_bit. Qed.

Lemma traverse_grants E P self k Aces :
  0 <= k -> SepSidInTokenEx E self SeWorldSid false false = true ->
  Forall (fun a => is_denied_object a = false) Aces ->
  traverse_aces (2 ^ k) Aces = true -> acl_grants E P self false false Aces k = true.
Proof.
  intros Hk Hw. induction 1 as [|a Aces Ha _ IH]; cbn [traverse_aces acl_grants]; [done|].
  unfold ace_verdict, is_denied_object in *.
  destruct (hits (AceFlags a) INHERIT_ONLY_ACE); [done|].
  destruct (Body a) as [m s|m [g|] s|m c s|m s|m g s|]; rewrite ?hits_pow2_l by done; try done.
  - destruct (Z.testbit m k) eqn:Em; cbn [andb].
    + destruct (bool_decide_reflect (SeWorldSid = s)) as [<-|Hne].
      * by rewrite Hw, Em.
      * intros Ht. destruct (SepSidInTokenEx E self s false false); [by rewrite Em|auto].
    + intros Ht. destruct (SepSidInTokenEx E self s false false); [rewrite Em|]; auto.
  - intros Ht. destruct (SepSidInTokenEx E self s false false); [|auto]. destruct (Z.testbit m k); auto.
  - intros Ht. destruct (_ && _); [|auto]. destruct (Z.testbit m k); auto.
  - destruct (Z.testbit m k) eqn:Em; [done|]. intros Ht.
    destruct (SepSidInTokenEx E self s true false); [rewrite Em|]; auto.
Qed.

(** ** SeAccessCheck *)

(** An access the owner of the object is given. *)
Definition owner_access (ctx : SECURITY_SUBJECT_CONTEXT) (sd : SECURITY_DESCRIPTOR) (b : Z) : Prop :=
  SepTokenIsOwner (EffectiveToken ctx) sd = true /\ (b = 17 \/ b = 18).

Lemma OWN_bits b : 0 <= b -> Z.testbit (Z.lor WRITE_DAC READ_CONTROL) b = (b =? 18) || (b =? 17).
Proof.
  intros. rewrite Z.lor_spec. change WRITE_DAC with (2 ^ 18). change READ_CONTROL with (2 ^ 17).
  rewrite !Z.pow2_bits_eqb by lia. lia.
Qed.

Lemma reason_weaken sd self P C GA mode D D' Prev Prev' b (Q : Prop) :
  reason sd self P C GA mode D' Prev' b ->
  Z.testbit D' 25 = Z.testbit D 25 ->
  (Z.testbit D' b = true -> Z.testbit D b = true) ->
  (Z.testbit Prev' b = true -> Z.testbit Prev b = true \/ Q) ->
  reason sd self P C GA mode D Prev b \/ Q.
Proof.
  intros Hr Hm Hd Hp. unfold reason in *. rewrite <- Hm.
  destruct Hr as [H|[(H1 & H2 & H3)|[(H1 & H2 & H3)|[(H1 & H2)|(A & H1 & H2 & H3)]]]].
  - destruct (Hp H); [left; by left|by right].
  - left. right. left. auto.
  - left. do 2 right. left. auto.
  - left. do 3 right. left. split; [done|]. destruct H2; auto.
  - left. do 4 right. exists A. split; [done|]. split; [|done]. destruct H2; auto.
Qed.

Lemma SeAccessCheck_ok sd ctx D Prev GA PP Pool :
  match SeAccessCheck (Some sd) ctx D Prev GA UserMode PP Pool with
  | None => D = 0 /\ Prev <> 0 /\ PP = false
  | Some (ok, g, st) =>
    (ok = true <-> st = STATUS_SUCCESS) /\
    (ok = true -> exists m, g = Some m /\ m <> 0 /\
       (forall b, 0 <= b -> Z.testbit m b = true ->
          reason sd None (sscPrimaryToken ctx) (sscClientToken ctx) GA UserMode D Prev b \/
          owner_access ctx sd b)) /\
    (ok = false -> g = None \/ g = Some 0)
  end.
Proof.
  unfold SeAccessCheck.
  destruct (match sscClientToken ctx with Some _ => _ | None => false end).
  { split; [done|]. split; [done|auto]. }
  destruct (Z.eqb_spec D 0) as [->|HD].
  { destruct (Z.eqb_spec Prev 0) as [->|HP]; [|destruct PP; [|done]].
    - split; [done|]. split; [done|auto].
    - split; [done|]. split; [|done]. intros _. exists Prev. split; [done|]. split; [done|].
      intros b Hb Ht. left. by left. }
  set (own := hits D _ && SepTokenIsOwner _ _).
  set (D' := if own then without _ _ else _). 
  set (G := if own then if hits D MAXIMUM_ALLOWED then Z.lor Prev (Z.lor WRITE_DAC READ_CONTROL)
                        else Z.lor Prev (Z.land D (Z.lor WRITE_DAC READ_CONTROL)) else Prev).
  assert (HG : forall b, 0 <= b -> Z.testbit G b = true -> Z.testbit Prev b = true \/ owner_access ctx sd b).
  { intros b Hb. unfold G. destruct own eqn:Eo; [|auto].
    apply andb_true_iff in Eo. destruct Eo as [_ Eo].
    assert (Hob : (b =? 18) || (b =? 17) = true -> owner_access ctx sd b) by (intros; split; [done|lia]).
    destruct (hits D MAXIMUM_ALLOWED); rewrite Z.lor_spec.
    - rewrite OWN_bits by done. intros Ht. apply orb_true_iff in Ht. destruct Ht; auto.
    - rewrite Z.land_spec, OWN_bits by done. intros Ht. apply orb_true_iff in Ht.
      destruct Ht as [Ht|Ht]; [auto|]. apply andb_true_iff in Ht. destruct Ht; auto. }
  assert (HD' : forall b, 0 <= b -> Z.testbit D' b = true -> Z.testbit D b = true).
  { intros b Hb. unfold D'. destruct own; [|done]. rewrite without_bit by done. intros Ht.
    apply andb_true_iff in Ht. tauto. }
  assert (H25 : Z.testbit D' 25 = Z.testbit D 25).
  { unfold D'. destruct own; [|done]. rewrite without_bit, OWN_bits by lia. apply andb_true_r. }
  destruct (Z.eqb_spec D' 0) as [E|E].
  { split; [done|]. split; [|done]. intros _. exists G.
    split; [done|]. split.
    - intros HG0. destruct own eqn:Eo; [|done]. unfold G, D' in *.
      destruct (zbit_exists D HD) as (b & Hb & Ht).
      assert (Z.testbit 0 b = true) as Hc; [|by rewrite Z.bits_0 in Hc]. rewrite <- HG0.
      rewrite zero_bits in E. specialize (E b Hb). rewrite without_bit, Ht, OWN_bits in E by done.
      assert (Hob : (b =? 18) || (b =? 17) = true) by (by destruct ((b =? 18) || (b =? 17))).
      destruct (hits D MAXIMUM_ALLOWED); rewrite Z.lor_spec.
      + rewrite OWN_bits, Hob by done. apply orb_true_r.
      + rewrite Z.land_spec, OWN_bits, Ht, Hob by done. apply orb_true_r.
    - intros b Hb Ht. destruct (HG b Hb Ht); [left; by left|by right]. }
  destruct (SepAccessCheck_ok sd None (sscPrimaryToken ctx) (sscClientToken ctx) GA UserMode PP Pool D' G)
    as (r & -> & m & st & Hm & Hst & Hsg & _ & Hres).
  cbn [mbind option_bind]. rewrite Hm, Hst. cbn [head mbind option_bind]. rewrite Hsg.
  destruct Hres as [(-> & Hret & Hne & _ & Hreason)|(Hne & ->)].
  - rewrite Hret. split; [done|]. split; [|done]. intros _. exists m. split; [done|]. split; [done|].
    intros b Hb Ht. eapply reason_weaken; [by apply Hreason|done|by apply HD'|by apply HG].
  - destruct st; try done; cbn [NT_SUCCESS]; rewrite andb_false_r; (split; [done|split; [done|auto]]).
Qed.

(** ** Captured type lists *)

(** Entry [i] has its parent before it, one level up, with nothing but its
    siblings and their descendants in between; entry 0 is the only root. *)
Definition entry_wf (l : list IOBJECT_TYPE_LIST) (i : nat) (e : IOBJECT_TYPE_LIST) : Prop :=
  match i with
  | O => Level e = 0 /\ ParentIndex e = -1
  | S _ => 1 <= Level e <= ACCESS_MAX_LEVEL /\
      exists p pe, ParentIndex e = Z.of_nat p /\ (p < i)%nat /\ l !! p = Some pe /\ Level pe = Level e - 1 /\
        forall j ej, (p < j < i)%nat -> l !! j = Some ej -> Level e <= Level ej
  end.

Definition type_list_wf (l : list IOBJECT_TYPE_LIST) : Prop := forall i e, l !! i = Some e -> entry_wf l i e.

Lemma entry_wf_app l r i e : (i < length l)%nat -> entry_wf l i e -> entry_wf (l ++ r) i e.
Proof.
  intros Hi. destruct i; [done|]. intros (Hl & p & pe & Hp & Hlt & Hpe & Hlv & Hbetween).
  split; [done|]. exists p, pe. split; [done|]. split; [done|]. split; [by apply lookup_app_l_Some|].
  split; [done|]. intros j ej Hj Hej. rewrite lookup_app_l in Hej by lia. by apply (Hbetween j).
Qed.

Lemma type_list_wf_snoc l e : type_list_wf l -> entry_wf (l ++ [e]) (length l) e -> type_list_wf (l ++ [e]).
Proof.
  intros Hl He i x Hx. destruct (decide (i < length l)%nat).
  - rewrite lookup_app_l in Hx by done. apply entry_wf_app; [done|by apply Hl].
  - assert (i = length l) as ->.
    { apply lookup_lt_Some in Hx. rewrite length_app in Hx. cbn in Hx. lia. }
    rewrite lookup_app_r, Nat.sub_diag in Hx by lia. by injection Hx as <-.
Qed.

(** [Levels] holds, for every level up to that of the last entry, the last
    entry of that level, and everything after it is deeper. *)
Definition levels_ok (pre : list IOBJECT_TYPE_LIST) (prev : option Z) (Levels : list (option Z)) : Prop :=
  length Levels = 5%nat /\
  match prev with
  | None => pre = []
  | Some p => pre <> [] /\ 0 <= p <= ACCESS_MAX_LEVEL /\
      forall v, 0 <= v <= p -> exists j ej,
        Levels !! Z.to_nat v = Some (Some (Z.of_nat j)) /\ pre !! j = Some ej /\ Level ej = v /\
        forall k ek, (j < k)%nat -> pre !! k = Some ek -> v < Level ek
  end.

Lemma levels_ok_step pre prev Levels lv e :
  levels_ok pre prev Levels -> 0 <= lv <= ACCESS_MAX_LEVEL -> Level e = lv ->
  (forall p, prev = Some p -> lv <= p + 1) -> (prev = None -> lv = 0) ->
  levels_ok (pre ++ [e]) (Some lv) (<[Z.to_nat lv := Some (Z.of_nat (length pre))]> Levels).
Proof.
  unfold ACCESS_MAX_LEVEL. intros [Hlen Hprev] Hlv He Hp Hnone.
  split; [by rewrite length_insert|]. split; [by destruct pre|]. split; [done|]. intros v Hv.
  destruct (Z.eq_dec v lv) as [->|Hne].
  - exists (length pre), e. split; [apply list_lookup_insert_eq; lia|].
    split; [by rewrite lookup_app_r, Nat.sub_diag by lia|]. split; [done|].
    intros k ek Hk Hek. apply lookup_lt_Some in Hek. rewrite length_app in Hek. cbn in Hek. lia.
  - destruct prev as [p|]; [|specialize (Hnone eq_refl); lia].
    destruct Hprev as (_ & Hp4 & Hall). specialize (Hp p eq_refl).
    destruct (Hall v) as (j & ej & Hj & Hej & Hlj & Hafter); [lia|].
    exists j, ej. split; [rewrite list_lookup_insert_ne by lia; done|].
    split; [by apply lookup_app_l_Some|]. split; [done|]. intros k ek Hk Hek.
    destruct (decide (k < length pre)%nat).
    + rewrite lookup_app_l in Hek by done. by apply (Hafter k).
    + rewrite lookup_app_r in Hek by lia. destruct (k - length pre)%nat eqn:Ek; [|done].
      injection Hek as <-. lia.
Qed.

Lemma capture_types_ok l pre prev Levels :
  Forall (fun x => 0 <= x.1) l -> levels_ok pre prev Levels -> type_list_wf pre ->
  exists st t, capture_types (Z.of_nat (length pre)) prev Levels l = Some (st, t) /\
    (st = STATUS_SUCCESS -> type_list_wf (pre ++ t) /\ map (fun e => (Level e, ObjectType e)) t = l /\
       Forall (fun e => Remaining e = 0 /\ CurrentGranted e = 0 /\ CurrentDenied e = 0) t).
Proof.
  intros Hnn. revert pre prev Levels.
  induction Hnn as [|[lv g] l Hlv _ IH]; intros pre prev Levels Hok Hwf; cbn [capture_types].
  { eexists _, _. split; [reflexivity|]. intros _. rewrite app_nil_r. done. }
  cbn [fst] in Hlv. destruct (Z.gtb_spec lv ACCESS_MAX_LEVEL) as [Hgt|Hmax].
  { eexists _, _. split; [reflexivity|]. done. }
  destruct (match prev with None => _ | Some _ => _ end) eqn:Echk.
  { eexists _, _. split; [reflexivity|]. done. }
  assert (Hp : forall p, prev = Some p -> 1 <= lv <= p + 1) by (intros p ->; lia).
  assert (Hn : prev = None -> lv = 0) by (intros ->; lia).
  assert (Hparent : exists Parent,
    (if lv =? 0 then Some (-1) else p ← Levels !! Z.to_nat (lv - 1); p) = Some Parent /\
    entry_wf (pre ++ [mkType lv g Parent 0 0 0]) (length pre) (mkType lv g Parent 0 0 0)).
  { destruct Hok as [Hlen Hprev]. destruct prev as [p|].
    - destruct Hprev as (Hne & Hp4 & Hall). specialize (Hp p eq_refl).
      destruct (Hall (lv - 1)) as (j & ej & Hj & Hej & Hlj & Hafter); [lia|].
      destruct (Z.eqb_spec lv 0); [lia|]. rewrite Hj. cbn [mbind option_bind].
      exists (Z.of_nat j). split; [done|]. destruct (length pre) as [|len] eqn:El; [by destruct pre|].
      pose proof (lookup_lt_Some _ _ _ Hej). cbn [entry_wf Level ParentIndex]. split; [lia|].
      exists j, ej. split; [done|]. split; [lia|]. split; [by apply lookup_app_l_Some|]. split; [done|].
      intros k ek Hk Hek. rewrite lookup_app_l in Hek by lia. specialize (Hafter k ek ltac:(lia) Hek). lia.
    - rewrite (Hn eq_refl), Hprev. exists (-1). done. }
  destruct Hparent as (Parent & -> & Hentry). cbn [mbind option_bind].
  set (e := mkType lv g Parent 0 0 0) in *.
  destruct (IH (pre ++ [e]) (Some lv) (<[Z.to_nat lv := Some (Z.of_nat (length pre))]> Levels)) as (st & t & E & Ht).
  { apply (levels_ok_step pre prev); try done; try lia; intros p Hpp; specialize (Hp p Hpp); lia. }
  { by apply type_list_wf_snoc. }
  rewrite length_app in E. cbn [length] in E. replace (Z.of_nat (length pre + 1)) with (Z.of_nat (length pre) + 1) in E by lia.
  rewrite E. cbn [mbind option_bind]. eexists _, _. split; [reflexivity|]. intros Hst.
  destruct (Ht Hst) as (H1 & H2 & H3). rewrite <- app_assoc in H1. split; [done|].
  split; [cbn [map]; by rewrite H2|]. by constructor.
Qed.

(** ** Properties *)

(** C2: the reference monitor grants nothing without a reason.  When
    SeAccessCheck lets a user-mode request through, every access it grants was
    granted before the call, belongs to the owner of the object (READ_CONTROL,
    WRITE_DAC), is paid for by an enabled privilege (ACCESS_SYSTEM_SECURITY,
    WRITE_OWNER), or is granted by the object's DACL, or the object has no DACL;
    when it refuses, it grants nothing.  The status returned and the BOOLEAN
    agree.  The only fault is the write through a NULL Privileges pointer when no
    access is asked for and some were granted before. *)
Theorem SeAccessCheck_sound sd ctx DesiredAccess PreviouslyGrantedAccess GenericAll PrivilegesPresent PoolOk :
  match SeAccessCheck (Some sd) ctx DesiredAccess PreviouslyGrantedAccess GenericAll UserMode PrivilegesPresent PoolOk with
  | None => DesiredAccess = 0 /\ PreviouslyGrantedAccess <> 0 /\ PrivilegesPresent = false
  | Some (ok, g, st) =>
    (ok = true <-> st = STATUS_SUCCESS) /\
    (ok = true -> exists m, g = Some m /\ m <> 0 /\
       (forall b, 0 <= b -> Z.testbit m b = true ->
          reason sd None (sscPrimaryToken ctx) (sscClientToken ctx) GenericAll UserMode
            DesiredAccess PreviouslyGrantedAccess b \/
          owner_access ctx sd b)) /\
    (ok = false -> g = None \/ g = Some 0)
  end.
Proof. apply SeAccessCheck_ok. Qed.

(** C8: on an object with a DACL and without a type list, a request for one or more
    specific accesses ([D], not MAXIMUM_ALLOWED) is decided access by access.  Asking for
    ACCESS_SYSTEM_SECURITY without SeSecurityPrivilege is refused with
    STATUS_PRIVILEGE_NOT_HELD.  Otherwise SepAccessCheck grants the request when
    every access asked for is paid for by a privilege (ACCESS_SYSTEM_SECURITY by
    SeSecurityPrivilege; WRITE_OWNER by SeTakeOwnershipPrivilege, when the caller
    asks for the privileges used) or granted by the first entry of the DACL that
    speaks about it, for the normal SIDs and, for a restricted token, for the
    restricted SIDs too; else it denies the request as a whole and grants nothing.
    Privileges used are returned; without memory for them a request that would be
    granted fails with STATUS_NO_MEMORY. *)
Theorem SepAccessCheck_first_match sd self P C GA mode PP Pool D Prev Aces :
  RtlpDaclAddrSecurityDescriptor sd = Some Aces -> Z.testbit D 25 = false -> D <> 0 ->
  let check := SepAccessCheck sd self P C D [] GA Prev mode PP Pool false in
  let all_covered := forall b, 0 <= b -> Z.testbit D b = true ->
    paid P C mode PP b = true \/ dacl_allows self P C false Aces b = true in
  if Z.testbit D 24 && negb (holds P C mode SeSecurityPrivilege)
  then check = Some (mkResult true [0] [STATUS_PRIVILEGE_NOT_HELD] None false true)
  else
    (all_covered /\
     check = Some (granted_with PP Pool (Z.testbit D 24)
       (Z.testbit D 19 && PP && holds P C mode SeTakeOwnershipPrivilege) (Z.lor Prev D))) \/
    (~ all_covered /\ check = Some (mkResult true [0] [STATUS_ACCESS_DENIED] None false true)).
Proof. apply specific_exact. Qed.

(** C21: MAXIMUM_ALLOWED is exact, on an object with a DACL, without a type list,
    with nothing granted before, for a token that is not restricted or a DACL without
    compound entries: the mask [g] a request for MAXIMUM_ALLOWED computes by walking the whole DACL has
    precisely the accesses that would be granted when asked for.  A request [D] for
    specific accesses in which no privilege plays a part ([plain]: no
    ACCESS_SYSTEM_SECURITY, and no WRITE_OWNER that SeTakeOwnershipPrivilege would
    pay for) succeeds if and only if [D] is contained in [g]. *)
Theorem maximum_allowed_exact sd self P C GA mode PP Pool Aces :
  RtlpDaclAddrSecurityDescriptor sd = Some Aces ->
  SeTokenIsRestricted (effective P C) = false \/ Forall (fun a => is_compound a = false) Aces ->
  exists g,
    SepAccessCheck sd self P C MAXIMUM_ALLOWED [] GA 0 mode PP Pool false =
      Some (if g =? 0 then mkResult true [0] [STATUS_ACCESS_DENIED] None false true
            else mkResult true [g] [STATUS_SUCCESS] None true false) /\
    forall D, plain P C mode PP D -> Z.testbit D 25 = false -> D <> 0 ->
      (SepAccessCheck sd self P C D [] GA 0 mode PP Pool false =
         Some (mkResult true [D] [STATUS_SUCCESS] None true false) <->
       forall b, 0 <= b -> Z.testbit D b = true -> Z.testbit g b = true).
Proof.
  intros Hd Hc. destruct (maximum_exact sd self P C GA mode PP Pool 0 Aces Hd) as (g & Hg & E).
  exists g. split; [done|]. intros D Hp H25 Hne.
  assert (Hbit : forall b, 0 <= b -> Z.testbit g b = dacl_allows self P C false Aces b).
  { intros b Hb. rewrite Hg, Z.bits_0 by done. by apply dacl_grants_agree. }
  destruct (normal_exact sd self P C GA mode PP Pool D 0 Aces Hd Hp H25 Hne) as [[Hall ->]|[Hno ->]].
  - split; [|done]. intros _ b Hb Ht. rewrite Hbit by done. by apply Hall.
  - split; [done|]. intros Hsub. exfalso. apply Hno. intros b Hb Ht. rewrite <- Hbit by done. by apply Hsub.
Qed.

(** C26: restricting a token never widens access, in a check without a type list:
    whatever SepAccessCheck grants to a subject whose effective token (the client's,
    else the primary one) is restricted, by the DACL, by privileges or for want of a
    DACL, it also grants to the same subject with the restriction taken from that
    token, and for a request without MAXIMUM_ALLOWED the answers are the same. *)
Theorem restricted_subset sd self Primary Client Flags GA mode PP Pool D Prev r :
  hits Flags TOKEN_IS_RESTRICTED = false ->
  SepAccessCheck sd self Primary Client D [] GA Prev mode PP Pool false = Some r ->
  SomeAccessGranted r = true ->
  exists r', SepAccessCheck sd self (primary_with Flags Primary Client) (client_with Flags Client) D [] GA Prev
               mode PP Pool false = Some r' /\
    SomeAccessGranted r' = true /\ RetVal r' = true /\
    (Z.testbit D 25 = false -> r' = r) /\
    exists g g', GrantedAccess r = [g] /\ GrantedAccess r' = [g'] /\
      forall b, 0 <= b -> Z.testbit g b = true -> Z.testbit g' b = true.
Proof. intros Hf. by apply restricted_grants. Qed.

(** C34: the shortcut is sound.  When SeFastTraverseCheck lets a traversal
    through by the DACL, and the DACL has no object-specific deny entry, the full
    check grants the access to every unrestricted token that has the Everyone
    SID. *)
Theorem SeFastTraverseCheck_sound sd Flags k Aces self P C GA mode PP Pool Prev :
  RtlpDaclAddrSecurityDescriptor sd = Some Aces ->
  Forall (fun a => is_denied_object a = false) Aces ->
  0 <= k -> k <> 25 -> plain P C mode PP (2 ^ k) ->
  SepSidInTokenEx (effective P C) self SeWorldSid false false = true ->
  SeTokenIsRestricted (effective P C) = false ->
  SeFastTraverseCheck (Some sd) Flags (2 ^ k) = true ->
  SepAccessCheck sd self P C (2 ^ k) [] GA Prev mode PP Pool false =
    Some (mkResult true [Z.lor Prev (2 ^ k)] [STATUS_SUCCESS] None true false).
Proof.
  intros Hd Hobj Hk H25 Hp Hw Hr Ht. unfold SeFastTraverseCheck in Ht. rewrite Hd in Ht.
  assert (Htr : traverse_aces (2 ^ k) Aces = true).
  { destruct Aces as [|a Aces]; [done|]. by destruct (hits Flags TOKEN_IS_RESTRICTED). }
  destruct (normal_exact sd self P C GA mode PP Pool (2 ^ k) Prev Aces Hd Hp) as [[_ E]|[Hno _]];
    [rewrite Z.pow2_bits_eqb by lia; lia|lia|done|].
  exfalso. apply Hno. intros b Hb Hbk. rewrite Z.pow2_bits_eqb in Hbk by lia. apply Z.eqb_eq in Hbk.
  subst b. unfold dacl_allows, dacl_grants. rewrite Hr. cbn [negb orb].
  by rewrite (traverse_grants _ _ _ _ _ Hk Hw Hobj Htr).
Qed.

(** The owner of an object is always granted READ_CONTROL and WRITE_DAC,
    whatever the DACL says. *)
Theorem owner_access_granted sd ctx DesiredAccess GenericAll PrivilegesPresent PoolOk :
  SepTokenIsOwner (EffectiveToken ctx) sd = true ->
  (forall t, sscClientToken ctx = Some t -> 2 <= level_num (ImpersonationLevel ctx)) ->
  DesiredAccess <> 0 ->
  (forall b, 0 <= b -> Z.testbit DesiredAccess b = true -> b = 17 \/ b = 18) ->
  SeAccessCheck (Some sd) ctx DesiredAccess 0 GenericAll UserMode PrivilegesPresent PoolOk =
    Some (true, Some DesiredAccess, STATUS_SUCCESS).
Proof.
  intros Hown Hlv Hne Hbits. unfold SeAccessCheck.
  replace (match sscClientToken ctx with Some _ => _ | None => false end) with false
    by (destruct (sscClientToken ctx) as [t|]; [specialize (Hlv t eq_refl); cbn [level_num]; lia|done]).
  destruct (Z.eqb_spec DesiredAccess 0); [done|]. rewrite Hown, andb_true_r.
  assert (Hob : forall b, 0 <= b -> Z.testbit DesiredAccess b = true ->
    Z.testbit (Z.lor WRITE_DAC READ_CONTROL) b = true).
  { intros b Hb Ht. rewrite OWN_bits by done. destruct (Hbits b Hb Ht) as [-> | ->]; done. }
  destruct (hits DesiredAccess (Z.lor (Z.lor WRITE_DAC READ_CONTROL) MAXIMUM_ALLOWED)) eqn:Eh.
  2:{ exfalso. rewrite hits_false in Eh. destruct (zbit_exists _ Hne) as (b & Hb & Ht).
      specialize (Eh b Hb Ht). by rewrite Z.lor_spec, Hob in Eh. }
  replace (hits DesiredAccess MAXIMUM_ALLOWED) with false.
  2:{ rewrite hits_max. symmetry. destruct (Z.testbit DesiredAccess 25) eqn:E; [|done].
      by destruct (Hbits 25 ltac:(lia) E). }
  assert (without DesiredAccess (Z.lor WRITE_DAC READ_CONTROL) = 0) as ->.
  { apply zero_bits. intros b Hb. rewrite without_bit by done.
    destruct (Z.testbit DesiredAccess b) eqn:E; [by rewrite Hob|done]. }
  rewrite Z.eqb_refl. do 4 f_equal. rewrite Z.lor_0_l. apply Z.bits_inj'. intros b Hb. rewrite Z.land_spec.
  destruct (Z.testbit DesiredAccess b) eqn:E; [by rewrite Hob|done].
Qed.

(** C36: SeCaptureObjectTypeList reads only entries of its level table that it
    has written, and every list it accepts is a tree: one root, and each entry's
    parent precedes it one level up with only its siblings and their descendants in
    between. *)
Theorem SeCaptureObjectTypeList_wf l MmSystemRangeStart PoolOk :
  Forall (fun x => 0 <= x.1) l ->
  exists st t,
    SeCaptureObjectTypeList (Some l) (Z.of_nat (length l)) UserMode MmSystemRangeStart PoolOk = Some (st, t) /\
    (st = STATUS_SUCCESS -> type_list_wf t /\ map (fun e => (Level e, ObjectType e)) t = l) /\
    (st <> STATUS_SUCCESS -> t = []).
Proof.
  intros Hnn. unfold SeCaptureObjectTypeList.
  destruct (Z.eqb_spec (Z.of_nat (length l)) 0) as [Hz|Hz].
  { eexists _, _. split; [reflexivity|]. destruct l; [|done]. split; [|done]. intros _. split; [|done].
    intros i e He. done. }
  destruct (negb (IsValidElementCount _ _)); [eexists _, _; split; [reflexivity|done]|].
  destruct PoolOk; cbn [negb]; [|eexists _, _; split; [reflexivity|done]].
  rewrite Nat2Z.id, take_ge by lia.
  destruct (capture_types_ok l [] None (replicate 5 None) Hnn) as (st & t & E & Ht).
  { split; done. } { intros i e He. done. }
  change (Z.of_nat (length (@nil IOBJECT_TYPE_LIST))) with 0 in E. rewrite E. cbn [mbind option_bind].
  eexists _, _. split; [reflexivity|].
  destruct st; cbn [NT_SUCCESS]; split; try done. intros _. destruct (Ht eq_refl) as (H1 & H2 & _). done.
Qed.

(** ** Where the two walks, and the shortcuts, differ *)

Definition sid (n : Z) : SID := mkSid 1 [0; 0; 0; 0; 0; 5] [21; n].
Definition user (n flags : Z) (restricted : list Z) : TOKEN :=
  mkToken [(sid n, 0); (SeWorldSid, SE_GROUP_ENABLED)]
    (map (fun r => (sid r, SE_GROUP_ENABLED)) restricted) [] flags.
Definition object (owner : Z) (Aces : list ACE) : SECURITY_DESCRIPTOR := mkSD true (sid owner) (Some Aces).

(** For a restricted token and a compound entry, MAXIMUM_ALLOWED reports
    an access that is denied when it is asked for: the two walks look for the
    server SID in different lists of the primary token. *)
Theorem compound_divergence :
  let t := user 1 TOKEN_IS_RESTRICTED [1] in
  let sd := object 9 [mkAce 0 (ACCESS_ALLOWED_COMPOUND_ACE 1 (sid 1) SeWorldSid)] in
  SepAccessCheck sd None t None MAXIMUM_ALLOWED [] 0 0 UserMode false true false =
    Some (mkResult true [1] [STATUS_SUCCESS] None true false) /\
  SepAccessCheck sd None t None 1 [] 0 0 UserMode false true false =
    Some (mkResult true [0] [STATUS_ACCESS_DENIED] None false true).
Proof. split; vm_compute; reflexivity. Qed.

(** An object-specific deny entry that stops the full check is skipped by
    SeFastTraverseCheck, which lets the traversal through. *)
Theorem traverse_divergence :
  let t := user 1 0 [] in
  let sd := object 9 [mkAce 0 (ACCESS_DENIED_OBJECT_ACE 0x20 None (sid 1)); mkAce 0 (ACCESS_ALLOWED_ACE 0x20 SeWorldSid)] in
  SeFastTraverseCheck (Some sd) 0 0x20 = true /\
  SepAccessCheck sd None t None 0x20 [] 0 0 UserMode false true false =
    Some (mkResult true [0] [STATUS_ACCESS_DENIED] None false true).
Proof. split; vm_compute; reflexivity. Qed.

(** MAXIMUM_ALLOWED grants ACCESS_SYSTEM_SECURITY without the privilege when
    the DACL names it, though the same access is refused when it is asked for. *)
Theorem maximum_system_security :
  let t := user 1 0 [] in
  let sd := object 9 [mkAce 0 (ACCESS_ALLOWED_ACE ACCESS_SYSTEM_SECURITY (sid 1))] in
  SepAccessCheck sd None t None MAXIMUM_ALLOWED [] 0 0 UserMode true true false =
    Some (mkResult true [ACCESS_SYSTEM_SECURITY] [STATUS_SUCCESS] None true false) /\
  SepAccessCheck sd None t None ACCESS_SYSTEM_SECURITY [] 0 0 UserMode true true false =
    Some (mkResult true [0] [STATUS_PRIVILEGE_NOT_HELD] None false true).
Proof. split; vm_compute; reflexivity. Qed.

(** Without a desired access SeAccessCheck writes through the Privileges pointer,
    which a caller may leave out, when accesses were granted before. *)
Theorem null_privileges :
  let check := SeAccessCheck (Some (object 9 [])) (mkSubject None SecurityAnonymous (user 1 0 [])) 0 READ_CONTROL 0 UserMode in
  check false true = None /\ check true true = Some (true, Some READ_CONTROL, STATUS_SUCCESS).
Proof. split; vm_compute; reflexivity. Qed.

(** A user SID that is in the token for deny only does not count for an
    allow entry, but still makes the token the owner of the object. *)
Theorem deny_only_owner :
  let t := mkToken [(sid 1, SE_GROUP_USE_FOR_DENY_ONLY)] [] [] 0 in
  let sd := object 1 [mkAce 0 (ACCESS_ALLOWED_ACE WRITE_DAC (sid 1))] in
  SepAccessCheck sd None t None WRITE_DAC [] 0 0 UserMode false true false =
    Some (mkResult true [0] [STATUS_ACCESS_DENIED] None false true) /\
  SeAccessCheck (Some sd) (mkSubject None SecurityAnonymous t) WRITE_DAC 0 0 UserMode false true =
    Some (true, Some WRITE_DAC, STATUS_SUCCESS).
Proof. split; vm_compute; reflexivity. Qed.

(** With a type list, restricting a token can widen access.  The
    restricted pass keeps the accesses of the first pass in Remaining, but
    SepUpdateParentTypeList then recomputes a parent's Remaining as the union of
    its children's: here the first pass grants access 1 on one of two properties
    only, so that the object as a whole is denied without the restriction, and
    granted with it, though the second property still has no access. *)
Theorem restricted_type_list_widening :
  let types := [mkType 0 100 (-1) 0 0 0; mkType 1 101 0 0 0 0; mkType 1 102 0 0 0 0] in
  let sd := object 9 [mkAce 0 (ACCESS_ALLOWED_OBJECT_ACE 1 (Some 101) (sid 1));
                      mkAce 0 (ACCESS_ALLOWED_OBJECT_ACE 1 (Some 101) (sid 2));
                      mkAce 0 (ACCESS_ALLOWED_OBJECT_ACE 1 (Some 102) (sid 2))] in
  SepAccessCheck sd None (user 1 0 [2]) None MAXIMUM_ALLOWED types 0 0 UserMode false true false =
    Some (mkResult true [0] [STATUS_ACCESS_DENIED] None false true) /\
  SepAccessCheck sd None (user 1 TOKEN_IS_RESTRICTED [2]) None MAXIMUM_ALLOWED types 0 0 UserMode false true false =
    Some (mkResult true [1] [STATUS_SUCCESS] None true false) /\
  SepAccessCheck sd None (user 1 TOKEN_IS_RESTRICTED [2]) None MAXIMUM_ALLOWED types 0 0 UserMode false true true =
    Some (mkResult true [1; 1; 0] [STATUS_SUCCESS; STATUS_SUCCESS; STATUS_ACCESS_DENIED] None true true).
Proof. split; [|split]; vm_compute; reflexivity. Qed.

(** ** Witnesses *)

Definition sample_sd : SECURITY_DESCRIPTOR :=
  object 9 [mkAce 0 (ACCESS_DENIED_ACE 0x2 (sid 1)); mkAce 0 (ACCESS_ALLOWED_ACE 0x7 SeWorldSid)].

Lemma SepAccessCheck_first_match_witness :
  SepAccessCheck sample_sd None (user 1 0 []) None 0x5 [] 0 0 UserMode false true false =
    Some (mkResult true [0x5] [STATUS_SUCCESS] None true false).
Proof.
  destruct (SepAccessCheck_first_match sample_sd None (user 1 0 []) None 0 UserMode false true 0x5 0
    [mkAce 0 (ACCESS_DENIED_ACE 0x2 (sid 1)); mkAce 0 (ACCESS_ALLOWED_ACE 0x7 SeWorldSid)])
    as [[_ E]|[_ E]]; [reflexivity|reflexivity|lia|exact E|vm_compute in E; discriminate E].
Defined.

Lemma maximum_allowed_exact_witness :
  exists g, SepAccessCheck sample_sd None (user 1 0 []) None MAXIMUM_ALLOWED [] 0 0 UserMode false true false =
    Some (if g =? 0 then mkResult true [0] [STATUS_ACCESS_DENIED] None false true
          else mkResult true [g] [STATUS_SUCCESS] None true false).
Proof.
  destruct (maximum_allowed_exact sample_sd None (user 1 0 []) None 0 UserMode false true
    [mkAce 0 (ACCESS_DENIED_ACE 0x2 (sid 1)); mkAce 0 (ACCESS_ALLOWED_ACE 0x7 SeWorldSid)])
    as (g & E & _); [reflexivity|left; reflexivity|]. exists g. exact E.
Defined.

Lemma restricted_subset_witness : exists r',
  SepAccessCheck sample_sd None (user 2 0 []) (Some (mkToken (UserAndGroups (user 2 0 [])) [(SeWorldSid, 4)] [] 0))
    0x2 [] 0 0 UserMode false true false = Some r' /\ SomeAccessGranted r' = true.
Proof.
  destruct (restricted_subset sample_sd None (user 2 0 [])
    (Some (mkToken (UserAndGroups (user 2 0 [])) [(SeWorldSid, 4)] [] TOKEN_IS_RESTRICTED)) 0 0 UserMode false true 0x2 0
    (mkResult true [2] [STATUS_SUCCESS] None true false)) as (r' & E & H & _);
    [reflexivity|vm_compute; reflexivity|reflexivity|]. exists r'. split; [exact E|exact H].
Defined.

Lemma SeFastTraverseCheck_sound_witness :
  SepAccessCheck sample_sd None (user 2 0 []) None (2 ^ 0) [] 0 0 UserMode false true false =
    Some (mkResult true [Z.lor 0 (2 ^ 0)] [STATUS_SUCCESS] None true false).
Proof.
  apply (SeFastTraverseCheck_sound sample_sd 0 0
    [mkAce 0 (ACCESS_DENIED_ACE 0x2 (sid 1)); mkAce 0 (ACCESS_ALLOWED_ACE 0x7 SeWorldSid)]);
    [reflexivity|by repeat constructor|lia|lia|by split|vm_compute; reflexivity..].
Defined.

Lemma owner_access_granted_witness :
  SeAccessCheck (Some (object 1 [])) (mkSubject None SecurityAnonymous (user 1 0 [])) WRITE_DAC 0 0 UserMode false true =
    Some (true, Some WRITE_DAC, STATUS_SUCCESS).
Proof.
  apply owner_access_granted; [vm_compute; reflexivity|done|done|].
  intros b Hb Ht. change WRITE_DAC with (2 ^ 18) in Ht. rewrite Z.pow2_bits_eqb in Ht by lia. lia.
Defined.

Lemma SeCaptureObjectTypeList_wf_witness :
  exists st t, SeCaptureObjectTypeList (Some [(0, 7); (1, 8); (2, 9); (2, 10); (1, 11)]) 5 UserMode 0x80000000 true
    = Some (st, t) /\ map ParentIndex t = [-1; 0; 1; 1; 0] /\ (st = STATUS_SUCCESS -> type_list_wf t).
Proof.
  destruct (SeCaptureObjectTypeList_wf [(0, 7); (1, 8); (2, 9); (2, 10); (1, 11)] 0x80000000 true)
    as (st & t & E & Hwf & _); [by repeat constructor|].
  exists st, t. split; [exact E|]. split; [|apply Hwf].
  vm_compute in E. injection E as _ <-. reflexivity.
Defined.

End Access.
