(* ===== verification/SeAclCheck.v ===== *)
(** * ACLs in memory and the access check

    The access check ([SeAccess]) is about lists of entries, the editing routines
    ([RtlAcl]) about bytes.  Module [AclCheck] joins them: [dacl_of] walks an ACL in
    memory as the loops of SepNormalAccessCheck and SepMaximumAccessCheck do, and
    takes every entry apart with the macros they use.  A valid ACL is walked
    without an access outside it; what the routines wrote is what the check sees;
    and from that follows what adding an entry does to the accesses granted. *)

From S2P Require Import Prelude RtlAcl RtlAclLayout RtlAclOps RtlAclSpec SeAccess.

Module AclCheck.

Import Acl AclLayout AclOps.
Import Access(SID(..), mkSid, ACE(..), mkAce, ACE_BODY(..), Revision, IdentifierAuthority, SubAuthority, TOKEN,
  SECURITY_DESCRIPTOR(..), mkSD, acl_grants, ace_verdict, SepSidInTokenEx, SepAccessCheck, check_result(..), mkResult, plain,
  effective, hits).

(** ** Reading *)

Fixpoint decode_subs (m : list Z) (o : Z) (n : nat) : option (list Z) :=
  match n with O => Some [] | S n => x ← ULONG_at m o; xs ← decode_subs m (o + 4) n; Some (x :: xs) end.

Definition decode_sid (m : list Z) (Sid : Z) : option SID :=
  r ← UCHAR_at m Sid; c ← UCHAR_at m (Sid + 1); auth ← read m (Sid + 2) 6;
  subs ← decode_subs m (Sid + 8) (Z.to_nat c); Some (mkSid r auth subs).

Definition RtlCompoundAceServerSid (Ace : Z) : Z := Ace + 12.
Definition RtlCompoundAceClientSid (m : list Z) (Ace : Z) : option Z :=
  l ← SeLengthSid m (RtlCompoundAceServerSid Ace); Some (Ace + 12 + l).

(** The GUID itself, as a number; [None] for NULL. *)
Definition RtlObjectAceObjectType (m : list Z) (Ace : Z) : option (option Z) :=
  p ← RtlObjectAceObjectTypePresent m Ace;
  if p : bool then g ← read m (Ace + 12) sizeof_GUID; Some (Some (le g)) else Some None.

Definition decode_ace (m : list Z) (Ace : Z) : option ACE :=
  t ← AceType m Ace; f ← UCHAR_at m (Ace + 1);
  body ←
    (if t =? ACCESS_ALLOWED_ACE_TYPE then
       mask ← ULONG_at m (Ace + 4); s ← decode_sid m (Ace + 8); Some (ACCESS_ALLOWED_ACE mask s)
     else if t =? ACCESS_DENIED_ACE_TYPE then
       mask ← ULONG_at m (Ace + 4); s ← decode_sid m (Ace + 8); Some (ACCESS_DENIED_ACE mask s)
     else if t =? ACCESS_ALLOWED_COMPOUND_ACE_TYPE then
       mask ← ULONG_at m (Ace + 4); server ← decode_sid m (RtlCompoundAceServerSid Ace);
       c ← RtlCompoundAceClientSid m Ace; client ← decode_sid m c; Some (ACCESS_ALLOWED_COMPOUND_ACE mask client server)
     else if t =? ACCESS_ALLOWED_OBJECT_ACE_TYPE then
       mask ← ULONG_at m (Ace + 4); g ← RtlObjectAceObjectType m Ace; o ← RtlObjectAceSid m Ace;
       s ← decode_sid m o; Some (ACCESS_ALLOWED_OBJECT_ACE mask g s)
     else if t =? ACCESS_DENIED_OBJECT_ACE_TYPE then
       mask ← ULONG_at m (Ace + 4); g ← RtlObjectAceObjectType m Ace; o ← RtlObjectAceSid m Ace;
       s ← decode_sid m o; Some (ACCESS_DENIED_OBJECT_ACE mask g s)
     else Some OtherAce);
  Some (mkAce f body).

(** [for (i = 0, Ace = FirstAce(Dacl); i < AceCount; i++, Ace = NextAce(Ace))], to
    the last entry; the check itself may stop before. *)
Fixpoint walk_dacl (m : list Z) (n : nat) (Ace : Z) : option (list ACE) :=
  match n with
  | O => Some []
  | S n => a ← decode_ace m Ace; Ace ← NextAce m Ace; l ← walk_dacl m n Ace; Some (a :: l)
  end.

Definition dacl_of (m : list Z) : option (list ACE) := n ← AceCount m; walk_dacl m (Z.to_nat n) FirstAce.

(** ** A valid entry is read within its bytes *)

Section Local.
Variables (pre post : list Z).

Lemma decode_subs_in a n o : 0 <= o -> o + 4 * Z.of_nat n <= len a ->
  exists xs, decode_subs a o n = Some xs /\ decode_subs (pre ++ a ++ post) (len pre + o) n = Some xs.
Proof.
  revert o. induction n as [|n IH]; intros o Ho Hl; cbn [decode_subs]; [by exists []|].
  rewrite ULONG_in by lia. destruct (IH (o + 4)) as (xs & H1 & H2); [lia..|].
  rewrite <- Z.add_assoc, H1, H2. unfold ULONG_at, read.
  destruct (Z.leb_spec 0 o), (Z.leb_spec (o + 4) (len a)); try lia. cbn. by eexists.
Qed.

Lemma UCHAR_is a o : 0 <= o < len a -> exists b, UCHAR_at a o = Some b.
Proof. intros H. rewrite UCHAR_some by done. apply (lookup_lt_is_Some_2 a). lia. Qed.

Lemma ULONG_is a o : 0 <= o -> o + 4 <= len a -> exists b, ULONG_at a o = Some b.
Proof. intros. unfold ULONG_at, read. destruct (Z.leb_spec 0 o), (Z.leb_spec (o + 4) (len a)); try lia. by eexists. Qed.

Lemma decode_sid_in a o l : bytes a -> 0 <= o -> SeLengthSid a o = Some l -> o + l <= len a ->
  exists s, decode_sid a o = Some s /\ decode_sid (pre ++ a ++ post) (len pre + o) = Some s.
Proof.
  intros Hb Ho Hl Hin. unfold SeLengthSid in Hl. destruct (UCHAR_at a (o + 1)) as [c|] eqn:Ec; [|done].
  injection Hl as <-. pose proof (UCHAR_byte _ _ _ Hb Ec) as Hc. unfold decode_sid.
  rewrite <- !Z.add_assoc, !UCHAR_in, read_in, Ec by lia. destruct (UCHAR_is a o) as [r ->]; [lia|]. cbn [mbind option_bind].
  assert (exists auth, read a (o + 2) 6 = Some auth) as [auth ->].
  { unfold read. destruct (Z.leb_spec 0 (o + 2)), (Z.leb_spec (o + 2 + 6) (len a)); try lia. by eexists. }
  cbn [mbind option_bind]. destruct (decode_subs_in a (Z.to_nat c) (o + 8)) as (xs & -> & ->); [lia..|]. by eexists.
Qed.

Lemma valid_sid_in_ace a o s before behind : bytes a -> valid_sid a o s before behind = Some true -> 0 <= o ->
  o <= before -> 0 <= behind -> s = len a ->
  exists d, decode_sid a o = Some d /\ decode_sid (pre ++ a ++ post) (len pre + o) = Some d.
Proof.
  intros Hb Hv Ho Hbef Hbeh ->. apply valid_sid_bound in Hv as (l & Hl & _ & Hs); [|done].
  apply (decode_sid_in a o l); [done..|lia].
Qed.

Lemma mask_in a : 8 <= len a -> exists mask, ULONG_at a 4 = Some mask /\ ULONG_at (pre ++ a ++ post) (len pre + 4) = Some mask.
Proof. intros H. rewrite ULONG_in by lia. destruct (ULONG_is a 4) as [mask ->]; [lia..|]. by eexists. Qed.

Lemma known_in a : bytes a -> valid_known a 0 (len a) = Some true -> 8 <= len a /\
  exists d, decode_sid a 8 = Some d /\ decode_sid (pre ++ a ++ post) (len pre + 8) = Some d.
Proof.
  intros Hb. unfold valid_known. destruct (negb _ || _) eqn:E; [done|]. apply orb_false_iff in E as [_ E%Z.ltb_ge].
  unfold sizeof_KNOWN_ACE, sizeof_SID in *. intros Hv. split; [lia|]. eapply valid_sid_in_ace; [done|exact Hv|lia..].
Qed.

Lemma compound_in r a : bytes a -> valid_compound a r 0 (len a) = Some true -> 8 <= len a /\
  (exists d, decode_sid a 12 = Some d /\ decode_sid (pre ++ a ++ post) (len pre + 12) = Some d) /\
  exists l d, RtlCompoundAceClientSid a 0 = Some (12 + l) /\
    RtlCompoundAceClientSid (pre ++ a ++ post) (len pre) = Some (len pre + (12 + l)) /\
    decode_sid a (12 + l) = Some d /\ decode_sid (pre ++ a ++ post) (len pre + (12 + l)) = Some d.
Proof.
  intros Hb. unfold valid_compound. destruct (_ || _ || _) eqn:E; [done|]. apply orb_false_iff in E as [_ E%Z.ltb_ge].
  unfold sizeof_KNOWN_COMPOUND_ACE, sizeof_SID in *. destruct (USHORT_at a (0 + 8)) as [t|]; [|done]. cbn [mbind option_bind].
  destruct (negb _); [done|]. change (0 + 12) with 12. destruct (valid_sid a 12 _ _ _) as [[]|] eqn:Ev; [|done..].
  cbn [mbind option_bind negb]. pose proof (valid_sid_bound _ _ _ _ _ Hb Ev) as (l & Hl & Hl8 & Hle). rewrite Hl. cbn [mbind option_bind].
  intros Hv. split; [lia|]. split; [eapply valid_sid_in_ace; [done|exact Ev|lia..]|]. exists l.
  edestruct (valid_sid_in_ace a (12 + l)) as (d & H1 & H2); [done|exact Hv|lia..|]. exists d.
  unfold RtlCompoundAceClientSid, RtlCompoundAceServerSid. rewrite SeLengthSid_in by lia. change (0 + 12) with 12. rewrite Hl.
  cbn [mbind option_bind]. split; [done|]. split; [f_equal; lia|done].
Qed.

Lemma object_in r a : bytes a -> valid_object a r 0 (len a) = Some true -> 8 <= len a /\
  (exists g, RtlObjectAceObjectType a 0 = Some g /\ RtlObjectAceObjectType (pre ++ a ++ post) (len pre) = Some g) /\
  exists o d, RtlObjectAceSid a 0 = Some o /\ RtlObjectAceSid (pre ++ a ++ post) (len pre) = Some (len pre + o) /\
    decode_sid a o = Some d /\ decode_sid (pre ++ a ++ post) (len pre + o) = Some d.
Proof.
  intros Hb. unfold valid_object, RtlObjectAceObjectType. destruct (_ || _ || _) eqn:E; [done|]. apply orb_false_iff in E as [_ E%Z.ltb_ge].
  unfold RtlObjectAceSid, sizeof_KNOWN_OBJECT_ACE, sizeof_SID, sizeof_GUID in *.
  destruct (object_flags_in pre post a) as [-> ->]; [lia|].
  destruct (RtlObjectAceObjectTypePresent a 0) as [o|]; [|done].
  destruct (RtlObjectAceInheritedObjectTypePresent a 0) as [i|]; [|done]. cbn [mbind option_bind].
  destruct (Z.ltb_spec (len a) (16 - 4 + ((if o then 16 else 0) + (if i then 16 else 0)) + 12)) as [|Hl]; [done|].
  intros Hv. split; [lia|]. split.
  - destruct o; [|by eexists]. rewrite read_in by (destruct i; lia). change (0 + 12) with 12. unfold read.
    destruct (Z.leb_spec (12 + 16) (len a)); [|destruct i; lia]. by eexists.
  - eexists. edestruct (valid_sid_in_ace a) as (d & H1 & H2); [done|exact Hv|destruct o, i; lia..|]. exists d.
    split; [done|]. split; [f_equal; lia|]. split; [exact H1|exact H2].
Qed.

Lemma decode_ace_in r a : ace_ok r a ->
  exists x, decode_ace a 0 = Some x /\ decode_ace (pre ++ a ++ post) (len pre) = Some x.
Proof.
  intros Hok. pose proof (ace_valid _ _ Hok) as Hv. destruct Hok as [Hb H4 Hs _]. unfold decode_ace. rewrite AceType_in by lia. rewrite UCHAR_in by lia. change (0 + 1) with 1.
  unfold valid_ace in Hv. destruct (AceType a 0) as [t|]; [|done]. destruct (UCHAR_is a 1) as [f ->]; [lia|].
  cbn [mbind option_bind] in Hv |- *. change (0 + 4) with 4. change (0 + 8) with 8. unfold RtlCompoundAceServerSid. change (0 + 12) with 12.
  destruct (Z.eqb_spec t ACCESS_ALLOWED_ACE_TYPE) as [->|]; [|destruct (Z.eqb_spec t ACCESS_DENIED_ACE_TYPE) as [->|]].
  1,2: destruct (known_in a Hb Hv) as (H8 & d & -> & ->); destruct (mask_in a H8) as (k & -> & ->); by eexists.
  destruct (Z.eqb_spec t ACCESS_ALLOWED_COMPOUND_ACE_TYPE) as [->|].
  { destruct (compound_in r a Hb Hv) as (H8 & (d & -> & ->) & l & d' & -> & -> & Hd & Hd').
    destruct (mask_in a H8) as (k & -> & ->). cbn [mbind option_bind]. rewrite Hd, Hd'. by eexists. }
  destruct (Z.eqb_spec t ACCESS_ALLOWED_OBJECT_ACE_TYPE) as [->|]; [|destruct (Z.eqb_spec t ACCESS_DENIED_OBJECT_ACE_TYPE) as [->|]].
  1,2: destruct (object_in r a Hb Hv) as (H8 & (g & -> & ->) & o & d & -> & -> & Hd & Hd');
    destruct (mask_in a H8) as (k & -> & ->); cbn [mbind option_bind]; rewrite Hd, Hd'; by eexists.
  by eexists.
Qed.

End Local.

(** ** The whole ACL *)

Section Whole.
Variable Acl : Z.

Lemma walk_dacl_in r pre aces post : Forall (ace_ok r) aces ->
  exists l, mapM (fun a => decode_ace a 0) aces = Some l /\
    walk_dacl (pre ++ concat aces ++ post) (length aces) (len pre) = Some l.
Proof.
  intros Ha. revert pre. induction Ha as [|a aces Ha _ IH]; intros pre; cbn [walk_dacl length]; [by exists []|].
  rewrite concat_cons_mem, <- app_assoc. destruct (decode_ace_in pre (concat aces ++ post) r a Ha) as (x & Hx & ->).
  rewrite NextAce_in by apply Ha. cbn [mbind option_bind]. rewrite app_assoc. destruct (IH (pre ++ a)) as (l & Hl & ->).
  exists (x :: l). cbn. by rewrite Hx, Hl.
Qed.

(** The check sees the entries of the ACL, one by one. *)
Lemma dacl_of_spec m A behind : is_acl Acl m A behind ->
  exists l, mapM (fun a => decode_ace a 0) (Aces A) = Some l /\ dacl_of m = Some l.
Proof.
  intros Hm. unfold dacl_of. rewrite (run_AceCount Acl Hm). cbn [mbind option_bind]. rewrite Nat2Z.id.
  destruct Hm as [(s1 & s2 & room & _ & _ & ->) _ _ _ Ha _].
  apply (walk_dacl_in (Rev A) (header (Rev A) s1 (total A) (len (Aces A)) s2) (Aces A) (room ++ behind) Ha).
Qed.

End Whole.

(** ** Encoding and decoding *)

Definition encode_sid (s : SID) : list Z :=
  [Revision s; len (SubAuthority s)] ++ IdentifierAuthority s ++ concat (map (le_bytes 4) (SubAuthority s)).

(** A SID as it can be in memory, of the revision RtlValidAcl accepts. *)
Record sid_wf (s : SID) : Prop := mkSidWf {
  wf_revision : Revision s = SID_REVISION;
  wf_authority : length (IdentifierAuthority s) = 6%nat /\ bytes (IdentifierAuthority s);
  wf_count : len (SubAuthority s) <= SID_MAX_SUB_AUTHORITIES;
  wf_subs : Forall (fun x => 0 <= x < 2 ^ 32) (SubAuthority s) }.

Lemma subs_length xs : length (concat (map (le_bytes 4) xs)) = (4 * length xs)%nat.
Proof. induction xs as [|x xs IH]; [done|]. cbn [map concat]. rewrite length_app, IH. cbn. lia. Qed.

Lemma encode_length s : sid_wf s -> len (encode_sid s) = 8 + 4 * len (SubAuthority s).
Proof. intros [_ [H _] _ _]. unfold encode_sid. rewrite !length_app, subs_length, H. cbn [length]. lia. Qed.

Lemma encode_is_sid s : sid_wf s -> is_sid (encode_sid s).
Proof.
  intros Hs. pose proof (encode_length s Hs) as Hl. destruct Hs as [Hr [Ha Hb] Hc _]. unfold SID_MAX_SUB_AUTHORITIES in Hc. split.
  - exists (len (SubAuthority s)), (IdentifierAuthority s ++ concat (map (le_bytes 4) (SubAuthority s))).
    unfold SID_MAX_SUB_AUTHORITIES. split; [unfold encode_sid; by rewrite Hr|]. split; [lia|done].
  - unfold encode_sid. rewrite Hr. repeat apply Forall_cons_2; [unfold SID_REVISION; lia|lia|].
    apply Forall_app_2; [done|]. clear. induction (SubAuthority s) as [|x xs IH]; [constructor|]. cbn [map concat].
    apply Forall_app_2; [apply le_bytes_bytes|done].
Qed.

Lemma decode_subs_encode pre xs post : Forall (fun x => 0 <= x < 2 ^ 32) xs ->
  decode_subs (pre ++ concat (map (le_bytes 4) xs) ++ post) (len pre) (length xs) = Some xs.
Proof.
  intros Hx. revert pre. induction Hx as [|x xs Hx _ IH]; intros pre; cbn [map concat decode_subs length]; [done|].
  rewrite <- app_assoc. unfold ULONG_at. rewrite <- (Z.add_0_r (len pre)) at 1. rewrite read_in by in_place.
  change (read (le_bytes 4 x) 0 4) with (Some (le_bytes 4 x)). cbn [mbind option_bind fmap option_fmap option_map].
  rewrite le_bytes_small by done. rewrite app_assoc.
  replace (len pre + 4) with (len (pre ++ le_bytes 4 x)) by (rewrite length_app, le_bytes_length; lia). by rewrite IH.
Qed.

Lemma decode_encode_sid pre s post : sid_wf s -> decode_sid (pre ++ encode_sid s ++ post) (len pre) = Some s.
Proof.
  intros Hs. pose proof (encode_length s Hs) as Hl. unfold decode_sid.
  rewrite <- (Z.add_0_r (len pre)) at 1. rewrite !UCHAR_in, read_in by lia. rewrite !UCHAR_some by lia.
  change (encode_sid s !! Z.to_nat 0) with (Some (Revision s)). change (encode_sid s !! Z.to_nat 1) with (Some (len (SubAuthority s))).
  cbn [mbind option_bind]. destruct Hs as [_ [Ha _] _ Hx].
  assert (read (encode_sid s) 2 6 = Some (IdentifierAuthority s)) as ->.
  { transitivity (read (IdentifierAuthority s) 0 6); [apply (read_in [Revision s; len (SubAuthority s)] (IdentifierAuthority s) (concat (map (le_bytes 4) (SubAuthority s))) 0 6); lia|].
    unfold read. rewrite Ha. change (Some (take 6 (IdentifierAuthority s)) = Some (IdentifierAuthority s)). by rewrite take_ge by lia. }
  cbn [mbind option_bind]. unfold encode_sid. rewrite <- !app_assoc.
  replace (len pre + 8) with (len (pre ++ [Revision s; len (SubAuthority s)] ++ IdentifierAuthority s))
    by (rewrite !length_app, Ha; cbn [length]; lia).
  rewrite Nat2Z.id. rewrite (app_assoc [_; _]), (app_assoc pre). rewrite decode_subs_encode by done. by destruct s.
Qed.

(** ** Entries built by the routines *)

Inductive kind := Allow | Deny.
Record entry := mkEntry {
  Kind : kind; Flags : Z; EntryMask : Z; ObjectGuid : option (list Z); InheritedGuid : option (list Z); EntrySid : SID }.

Record entry_wf (e : entry) : Prop := mkEntryWf {
  wf_flags : 0 <= Flags e <= VALID_INHERIT_FLAGS;
  wf_mask : 0 <= EntryMask e < 2 ^ 32;
  wf_guids : guid_ok (ObjectGuid e) /\ guid_ok (InheritedGuid e);
  wf_sid : sid_wf (EntrySid e);
  wf_long : SubAuthority (EntrySid e) <> [] }.

Definition has_guid (e : entry) : bool := match ObjectGuid e, InheritedGuid e with None, None => false | _, _ => true end.

(** The entry the check is to see. *)
Definition entry_ace (e : entry) : ACE :=
  mkAce (Flags e)
    (match Kind e, has_guid e with
     | Allow, false => ACCESS_ALLOWED_ACE (EntryMask e) (EntrySid e)
     | Allow, true => ACCESS_ALLOWED_OBJECT_ACE (EntryMask e) (le <$> ObjectGuid e) (EntrySid e)
     | Deny, false => ACCESS_DENIED_ACE (EntryMask e) (EntrySid e)
     | Deny, true => ACCESS_DENIED_OBJECT_ACE (EntryMask e) (le <$> ObjectGuid e) (EntrySid e)
     end).

Definition entry_bytes (e : entry) : list Z :=
  if has_guid e
  then object_ace (match Kind e with Allow => ACCESS_ALLOWED_OBJECT_ACE_TYPE | Deny => ACCESS_DENIED_OBJECT_ACE_TYPE end)
         (Flags e) (EntryMask e) (ObjectGuid e) (InheritedGuid e) (encode_sid (EntrySid e))
  else known_ace (match Kind e with Allow => ACCESS_ALLOWED_ACE_TYPE | Deny => ACCESS_DENIED_ACE_TYPE end)
         (Flags e) (EntryMask e) (encode_sid (EntrySid e)).

Lemma ace_mask t f mask rest : 0 <= mask < 2 ^ 32 -> ULONG_at (ace t f (le_bytes 4 mask ++ rest)) (0 + 4) = Some mask.
Proof.
  intros H. unfold ULONG_at, ace. change (0 + 4) with (len (ace_header t f (4 + len (le_bytes 4 mask ++ rest))) + 0).
  rewrite read_in by in_place. change (Some (le (le_bytes 4 mask)) = Some mask). by rewrite le_bytes_small.
Qed.

Lemma ace_flags t f body : 0 <= f < 256 -> UCHAR_at (ace t f body) (0 + 1) = Some f.
Proof.
  intros H. unfold UCHAR_at, ace. rewrite read_head by in_place. change (Some (f mod 256 + 256 * 0) = Some f).
  rewrite Z.mod_small by done. f_equal. lia.
Qed.

Lemma ace_decode_sid t f front s : sid_wf s -> decode_sid (ace t f (front ++ encode_sid s)) (4 + len front) = Some s.
Proof.
  intros Hs. unfold ace. set (h := ace_header t f (4 + len (front ++ encode_sid s))).
  pose proof (decode_encode_sid (h ++ front) s [] Hs) as H. rewrite app_nil_r, <- app_assoc, length_app in H.
  rewrite <- H. f_equal. rewrite Nat2Z.inj_add. done.
Qed.

Lemma decode_known (allow : bool) f mask s : sid_wf s -> 0 <= f < 256 -> 0 <= mask < 2 ^ 32 ->
  decode_ace (known_ace (if allow then ACCESS_ALLOWED_ACE_TYPE else ACCESS_DENIED_ACE_TYPE) f mask (encode_sid s)) 0 =
    Some (mkAce f (if allow then ACCESS_ALLOWED_ACE mask s else ACCESS_DENIED_ACE mask s)).
Proof.
  intros Hs Hf Hm. unfold decode_ace, known_ace. rewrite ace_AceType by (by destruct allow). rewrite ace_flags by done.
  cbn [mbind option_bind]. rewrite ace_mask by done. change (0 + 8) with (4 + len (le_bytes 4 mask)).
  rewrite ace_decode_sid by done. by destruct allow.
Qed.

Lemma decode_object (allow : bool) f mask g1 g2 s : sid_wf s -> 0 <= f < 256 -> 0 <= mask < 2 ^ 32 -> guid_ok g1 -> guid_ok g2 ->
  decode_ace (object_ace (if allow then ACCESS_ALLOWED_OBJECT_ACE_TYPE else ACCESS_DENIED_OBJECT_ACE_TYPE) f mask g1 g2 (encode_sid s)) 0 =
    Some (mkAce f (if allow then ACCESS_ALLOWED_OBJECT_ACE mask (le <$> g1) s else ACCESS_DENIED_OBJECT_ACE mask (le <$> g1) s)).
Proof.
  intros Hs Hf Hm H1 H2. destruct (guid_flags_cases g1 g2) as (F1 & F2 & F3). unfold decode_ace, object_ace.
  set (t := if allow then ACCESS_ALLOWED_OBJECT_ACE_TYPE else ACCESS_DENIED_OBJECT_ACE_TYPE).
  set (G := default [] g1 ++ default [] g2). set (flags := le_bytes 4 (guid_flags g1 g2)).
  assert (len G = (if bool_decide (is_Some g1) then 16 else 0) + (if bool_decide (is_Some g2) then 16 else 0)) as HG.
  { unfold G. rewrite length_app. destruct g1, g2; cbn in *; lia. }
  rewrite ace_AceType by (by destruct allow). rewrite ace_flags by done. cbn [mbind option_bind]. rewrite ace_mask by done.
  assert (ULONG_at (ace t f (le_bytes 4 mask ++ flags ++ G ++ encode_sid s)) (0 + 8) = Some (guid_flags g1 g2)) as Hfl.
  { unfold ULONG_at, ace. rewrite (app_assoc (ace_header _ _ _)).
    change (0 + 8) with (len (ace_header t f (4 + len (le_bytes 4 mask ++ flags ++ G ++ encode_sid s)) ++ le_bytes 4 mask) + 0).
    rewrite read_in by in_place. change (Some (le flags) = Some (guid_flags g1 g2)). unfold flags. rewrite le_bytes_small by lia. done. }
  assert (RtlObjectAceSid (ace t f (le_bytes 4 mask ++ flags ++ G ++ encode_sid s)) 0 = Some (4 + len ((le_bytes 4 mask ++ flags) ++ G))) as Hsid.
  { unfold RtlObjectAceSid, RtlObjectAceObjectTypePresent, RtlObjectAceInheritedObjectTypePresent. rewrite Hfl. cbn [mbind option_bind].
    rewrite F1, F2. f_equal. rewrite !length_app. unfold flags. rewrite !le_bytes_length. unfold sizeof_GUID. lia. }
  assert (RtlObjectAceObjectType (ace t f (le_bytes 4 mask ++ flags ++ G ++ encode_sid s)) 0 = Some (le <$> g1)) as Hg.
  { unfold RtlObjectAceObjectType, RtlObjectAceObjectTypePresent. rewrite Hfl. cbn [mbind option_bind]. rewrite F1.
    destruct g1 as [g|]; [|done]. rewrite bool_decide_eq_true_2 by done. destruct H1 as [H1 _].
    set (h := ace_header t f (4 + len (le_bytes 4 mask ++ flags ++ G ++ encode_sid s))).
    assert (ace t f (le_bytes 4 mask ++ flags ++ G ++ encode_sid s) =
      ((h ++ le_bytes 4 mask) ++ flags) ++ g ++ (default [] g2 ++ encode_sid s)) as ->.
    { unfold ace. fold h. clearbody h. unfold G. by rewrite <- !app_assoc. }
    change (0 + 12) with (len ((h ++ le_bytes 4 mask) ++ flags) + 0).
    rewrite read_in by (unfold sizeof_GUID; lia). unfold read, sizeof_GUID. rewrite H1. change (Some (Some (le (take 16 g))) = Some (Some (le g))).
    by rewrite take_ge by lia. }
  rewrite Hsid, Hg. cbn [mbind option_bind]. rewrite (app_assoc _ flags), (app_assoc _ G), ace_decode_sid by done. by destruct allow.
Qed.

(** ** Building an ACL *)

Section Building.
Variable Acl : Z.

(** The call that adds the entry. *)
Definition add_entry (m : list Z) (e : entry) : option (Z * list Z) :=
  match Kind e with
  | Allow => RtlAddAccessAllowedObjectAce Acl m ACL_REVISION4 (Flags e) (EntryMask e) (ObjectGuid e) (InheritedGuid e)
               (Some (encode_sid (EntrySid e)))
  | Deny => RtlAddAccessDeniedObjectAce Acl m ACL_REVISION4 (Flags e) (EntryMask e) (ObjectGuid e) (InheritedGuid e)
              (Some (encode_sid (EntrySid e)))
  end.

Fixpoint add_entries (m : list Z) (es : list entry) : option (list Z * list Z) :=
  match es with
  | [] => Some ([], m)
  | e :: es => '(st, m) ← add_entry m e; '(sts, m) ← add_entries m es; Some (st :: sts, m)
  end.

Lemma long_encode s : sid_wf s -> SubAuthority s <> [] -> 12 <= len (encode_sid s).
Proof. intros Hs Hn. rewrite encode_length by done. destruct (SubAuthority s); [done|]. cbn [length]. lia. Qed.

Lemma inherit_flags f : 0 <= f <= VALID_INHERIT_FLAGS -> Z.ldiff f 0x1F = 0 /\ u8 f = f.
Proof.
  unfold VALID_INHERIT_FLAGS. intros H. split; [|apply u8_small; lia]. change 0x1F with (Z.ones 5).
  rewrite Z.ldiff_ones_r, Z.shiftr_div_pow2, Z.div_small, Z.shiftl_0_l by lia. done.
Qed.

(** What the two routines are to do, for an entry of either kind. *)
Lemma append_fits A a : len a <= Free A -> append A ACL_REVISION4 a = (STATUS_SUCCESS, mkAcl ACL_REVISION4 (Aces A ++ [a]) (Free A - len a)).
Proof. intros H. unfold append. by destruct (Z.gtb_spec (len a) (Free A)); [lia|]. Qed.

Lemma spec_known_ok A f mask sid t : is_sid sid -> 0 <= f <= VALID_INHERIT_FLAGS -> Rev A <= ACL_REVISION4 -> t <> SYSTEM_AUDIT_ACE_TYPE ->
  spec_known A ACL_REVISION4 f mask (Some sid) t = append A ACL_REVISION4 (known_ace t f mask sid).
Proof.
  intros Hs Hf Hr Ht. destruct (inherit_flags f Hf) as [Hld Hu]. unfold spec_known. rewrite (run_valid_sid Hs).
  destruct (Z.eqb_spec t SYSTEM_AUDIT_ACE_TYPE); [done|]. rewrite Hld, Hu, Z.max_r by done. done.
Qed.

Lemma spec_object_ok A f mask g1 g2 sid t : is_sid sid -> 0 <= f <= VALID_INHERIT_FLAGS -> t <> SYSTEM_AUDIT_ACE_TYPE ->
  t <> SYSTEM_AUDIT_OBJECT_ACE_TYPE ->
  spec_object A ACL_REVISION4 f mask g1 g2 (Some sid) t = append A ACL_REVISION4 (object_ace t f mask g1 g2 sid).
Proof.
  intros Hs Hf Ht Ht'. destruct (inherit_flags f Hf) as [Hld Hu]. unfold spec_object. rewrite (run_valid_sid Hs).
  destruct (Z.eqb_spec t SYSTEM_AUDIT_ACE_TYPE); [done|]. destruct (Z.eqb_spec t SYSTEM_AUDIT_OBJECT_ACE_TYPE); [done|].
  cbn [orb]. by rewrite Hld, Hu.
Qed.

(** An entry is added when there is room for it. *)
Lemma add_entry_spec m A behind e : is_acl Acl m A behind -> Forall even_size (Aces A) -> entry_wf e ->
  len (entry_bytes e) <= Free A ->
  does Acl m behind (add_entry m e)
    (STATUS_SUCCESS, mkAcl ACL_REVISION4 (Aces A ++ [entry_bytes e]) (Free A - len (entry_bytes e))).
Proof.
  intros Hm He [Hf Hk [H1 H2] Hs Hn] Hfree. destruct (acl_rev _ _ _ _ Hm) as [_ Hr]. unfold MAX_ACL_REVISION in Hr.
  pose proof (encode_is_sid _ Hs) as Hsid. pose proof (long_encode _ Hs Hn) as Hlong.
  assert (sid_arg (Some (encode_sid (EntrySid e)))) as Harg by (intros _; done).
  rewrite <- append_fits by done.
  unfold add_entry, entry_bytes, has_guid, RtlAddAccessAllowedObjectAce, RtlAddAccessDeniedObjectAce, add_object_ace in *.
  destruct (Kind e), (ObjectGuid e) as [g1|], (InheritedGuid e) as [g2|];
    first [rewrite <- spec_object_ok by done; by apply (AddObject_spec Acl Hm He)
          | rewrite <- spec_known_ok by done; by apply (AddKnown_spec Acl Hm He)].
Qed.

Lemma decode_entry e : entry_wf e -> decode_ace (entry_bytes e) 0 = Some (entry_ace e).
Proof.
  intros [Hf Hk [H1 H2] Hs _]. unfold VALID_INHERIT_FLAGS in Hf. unfold entry_bytes, entry_ace.
  destruct (has_guid e), (Kind e).
  - apply (decode_object true); done || lia.
  - apply (decode_object false); done || lia.
  - apply (decode_known true); done || lia.
  - apply (decode_known false); done || lia.
Qed.

Lemma add_entries_spec es m A behind : is_acl Acl m A behind -> Forall even_size (Aces A) -> Forall entry_wf es ->
  len (concat (map entry_bytes es)) <= Free A ->
  exists m' A', add_entries m es = Some (replicate (length es) STATUS_SUCCESS, m') /\ is_acl Acl m' A' behind /\
    Aces A' = Aces A ++ map entry_bytes es.
Proof.
  intros Hm He Hwf. revert m A Hm He. induction Hwf as [|e es Hwf _ IH]; intros m A Hm He Hfree.
  - exists m, A. split; [done|]. split; [done|]. by rewrite app_nil_r.
  - cbn [map concat] in Hfree. rewrite length_app in Hfree.
    destruct (add_entry_spec m A behind e Hm He Hwf) as (m1 & H1 & Hm1 & He1 & _); [lia|].
    destruct (IH m1 _ Hm1 He1) as (m' & A' & H2 & Hm' & HA); [cbn [snd Free]; lia|]. exists m', A'.
    cbn [add_entries]. rewrite H1. cbn [mbind option_bind fst]. rewrite H2. split; [done|]. split; [done|].
    rewrite HA. cbn [snd Aces map]. by rewrite <- app_assoc.
Qed.

Lemma decode_entries es : Forall entry_wf es -> mapM (fun a => decode_ace a 0) (map entry_bytes es) = Some (map entry_ace es).
Proof. induction 1 as [|e es He _ IH]; [done|]. cbn [map mapM]. cbn. by rewrite decode_entry, IH. Qed.

(** ** What an added entry does to the access check *)

(** A denying entry behind all others changes nothing. *)
Lemma grants_deny_last E P self R sr Aces a b : (forall k, ace_verdict E P self R sr a <> Some (true, k)) ->
  acl_grants E P self R sr (Aces ++ [a]) b = acl_grants E P self R sr Aces b.
Proof.
  intros Ha. induction Aces as [|x Aces IH]; cbn [app acl_grants].
  - destruct (ace_verdict E P self R sr a) as [[[] k]|]; [by destruct (Ha k)|by destruct (Z.testbit k b)|done].
  - by rewrite IH.
Qed.

Lemma deny_verdict E P self R sr e k : Kind e = Deny -> ace_verdict E P self R sr (entry_ace e) <> Some (true, k).
Proof.
  intros Hk. unfold ace_verdict, entry_ace. rewrite Hk. destruct (hits _ _); [done|]. by destruct (has_guid e); cbn; destruct (SepSidInTokenEx _ _ _ _ _).
Qed.

(** A denying entry in front of all others takes its accesses away. *)
Lemma grants_deny_first E P self R sr Aces e b : Kind e = Deny -> hits (Flags e) Access.INHERIT_ONLY_ACE = false ->
  SepSidInTokenEx E self (EntrySid e) true R = true -> Z.testbit (EntryMask e) b = true ->
  acl_grants E P self R sr (entry_ace e :: Aces) b = false.
Proof.
  intros Hk Hf Hs Hb. cbn [acl_grants]. unfold ace_verdict, entry_ace. cbn [Access.AceFlags Access.Body]. rewrite Hf, Hk.
  destruct (has_guid e); by rewrite Hs, Hb.
Qed.

Lemma mapM_app_Some {X Y} (f : X -> option Y) xs ys l k : mapM f xs = Some l -> mapM f ys = Some k -> mapM f (xs ++ ys) = Some (l ++ k).
Proof.
  revert l. induction xs as [|x xs IH]; intros l; cbn; [by intros [= <-]|]. destruct (f x); [|done]. cbn.
  destruct (mapM f xs) as [l'|]; [|done]. intros [= <-] Hk. cbn. by rewrite (IH l').
Qed.

(** The entry at the end and at the front, as the check sees it. *)
Lemma entry_last m A behind e l : is_acl Acl m A behind -> Forall even_size (Aces A) -> entry_wf e ->
  len (entry_bytes e) <= Free A -> mapM (fun a => decode_ace a 0) (Aces A) = Some l ->
  exists last, add_entry m e = Some (STATUS_SUCCESS, last) /\ dacl_of last = Some (l ++ [entry_ace e]) /\
    ace_ok ACL_REVISION4 (entry_bytes e) /\ even_size (entry_bytes e).
Proof.
  intros Hm He Hwf Hfree Hl. destruct (add_entry_spec m A behind e Hm He Hwf Hfree) as (last & H1 & Hm1 & He1 & _).
  exists last. split; [done|]. cbn [snd Aces] in *. split.
  - destruct (dacl_of_spec Acl last _ _ Hm1) as (l1 & Hl1 & ->). cbn [Aces] in Hl1.
    rewrite (mapM_app_Some _ _ _ l [entry_ace e]) in Hl1; [by injection Hl1 as <-|done|]. cbn. by rewrite decode_entry.
  - pose proof (acl_aces _ _ _ _ Hm1) as Ha. cbn [Rev Aces] in Ha. apply Forall_app in Ha as [_ [Ha _]%Forall_cons_1].
    by apply Forall_app in He1 as [_ [He1 _]%Forall_cons_1].
Qed.

Lemma entry_first m A behind e l : is_acl Acl m A behind -> Forall even_size (Aces A) -> entry_wf e ->
  ace_ok ACL_REVISION4 (entry_bytes e) -> even_size (entry_bytes e) ->
  len (entry_bytes e) <= Free A -> mapM (fun a => decode_ace a 0) (Aces A) = Some l ->
  exists first, RtlAddAce Acl m ACL_REVISION4 0 (entry_bytes e) (len (entry_bytes e)) = Some (STATUS_SUCCESS, first) /\
    dacl_of first = Some (entry_ace e :: l).
Proof.
  intros Hm He Hwf Hok Hev Hfree Hl. pose proof (acl_bounds Acl Hm) as (_ & Hb & _).
  destruct (AddAce_spec Acl Hm He ACL_REVISION4 0 [entry_bytes e] []) as (first & H1 & Hm1 & _ & _).
  - by vm_compute.
  - lia.
  - by apply Forall_singleton.
  - by apply Forall_singleton.
  - cbn [concat]. rewrite app_nil_r. unfold total, sizeof_ACL in Hb. lia.
  - assert (spec_add A ACL_REVISION4 0 [entry_bytes e] =
      (STATUS_SUCCESS, mkAcl (Z.max (Rev A) ACL_REVISION4) (entry_bytes e :: Aces A) (Free A - len (entry_bytes e)))) as E.
    { unfold spec_add. cbn [forallb concat]. rewrite app_nil_r, andb_true_r.
      assert (type_allowed ACL_REVISION4 (entry_bytes e) = true) as ->.
      { unfold type_allowed. pose proof (decode_entry e Hwf) as Hd. unfold decode_ace in Hd. destruct (AceType _ 0); [|done].
        by rewrite !andb_false_r. }
      cbn [negb]. destruct (Z.gtb_spec (len (entry_bytes e)) (Free A)); [lia|]. rewrite Z.min_l by lia. done. }
    rewrite E in H1, Hm1. cbn [fst snd concat] in H1, Hm1. rewrite !app_nil_r in H1. exists first. split; [done|].
    destruct (dacl_of_spec Acl first _ _ Hm1) as (l1 & Hl1 & ->). cbn [Aces] in Hl1. cbn in Hl1.
    rewrite decode_entry, Hl in Hl1 by done. by injection Hl1 as <-.
Qed.

(** ** The theorems *)

(** C11: What is built is what is checked: on a buffer at an even address that is
    large enough, RtlCreateAcl and calls of RtlAddAccessAllowedObjectAce and
    RtlAddAccessDeniedObjectAce at revision 4, for any list of entries with and without
    object types, with inheritance flags only and SIDs of revision 1 with one to fifteen
    sub-authorities, all succeed, RtlValidAcl accepts the result, and the walk of the
    access check over the bytes finds exactly these entries, in this order, with their
    flags, masks, object types and SIDs. *)
Theorem acl_build_roundtrip m L r es : bytes m -> sizeof_ACL <= L <= len m -> L <= MAX_USTRING ->
  MIN_ACL_REVISION <= r <= MAX_ACL_REVISION -> Z.even Acl = true -> Forall entry_wf es ->
  sizeof_ACL + len (concat (map entry_bytes es)) <= 4 * (L / 4) ->
  exists m0 m', RtlCreateAcl m L r = Some (STATUS_SUCCESS, m0) /\
    add_entries m0 es = Some (replicate (length es) STATUS_SUCCESS, m') /\
    RtlValidAcl Acl m' = true /\ dacl_of m' = Some (map entry_ace es).
Proof.
  intros Hb HL Hmax Hr He Hwf Hfit. destruct (Create_spec Acl m L r Hb HL Hmax Hr He) as (m0 & H0 & Hm0).
  destruct (add_entries_spec es m0 _ _ Hm0) as (m' & A' & H1 & Hm' & HA); [constructor|done|cbn [Free]; lia|].
  exists m0, m'. split; [done|]. split; [done|]. split; [apply (run_valid Acl Hm')|].
  destruct (dacl_of_spec Acl m' A' _ Hm') as (l & Hl & ->). rewrite HA in Hl. cbn [Aces app] in Hl.
  rewrite decode_entries in Hl by done. by injection Hl as <-.
Qed.

(** C33: A valid ACL is read within its size: when RtlValidAcl has accepted it, the
    walk of the access check over all its entries, down to the last sub-authority
    and GUID, succeeds and depends on the AclSize bytes only, whatever lies behind
    them. *)
Theorem dacl_inside m s : bytes m -> 8 <= len m -> AclSize m = Some s -> s <= len m -> RtlValidAcl Acl m = true ->
  exists Aces, forall behind, dacl_of (take (Z.to_nat s) m ++ behind) = Some Aces.
Proof.
  intros Hb H8 Hs Hle Hv.
  destruct (valid_inv Acl m Hb H8) as (A & behind0 & Hm); [by rewrite Hs; intros ? [= <-]|done|].
  rewrite (run_AclSize Acl Hm) in Hs. injection Hs as <-. destruct (dacl_of_spec Acl m A behind0 Hm) as (l & Hl & _).
  exists l. intros behind. destruct Hm as [(s1 & s2 & room & Hr & HB & Em) Hv' Ht He Ha Hal].
  assert (is_acl Acl (take (Z.to_nat (total A)) m ++ behind) A behind) as Hm2.
  { split; [|done..]. exists s1, s2, room. split; [done|]. split; [done|]. rewrite Em, !app_assoc. f_equal.
    apply take_app_length'. rewrite !length_app. cbn [length header le_bytes app]. unfold total, sizeof_ACL. lia. }
  destruct (dacl_of_spec Acl _ A behind Hm2) as (l' & Hl' & ->). congruence.
Qed.

(** C10: The place of a denying entry, with inheritance flags only and a SID of revision
    1 with one to fifteen sub-authorities, decides what it does, when it applies to the object itself (it is not
    INHERIT_ONLY) and there is room for it.  Put at the end of a valid ACL with entries of
    even size, as RtlAddAccessDeniedObjectAce puts it, it
    never changes the answer of SepAccessCheck, called without a type list, to a request
    for specific accesses in which no privilege plays a part ([plain]: no
    ACCESS_SYSTEM_SECURITY, and no WRITE_OWNER that SeTakeOwnershipPrivilege would pay
    for); put at the front with RtlAddAce, it makes SepAccessCheck deny every such
    request for one of its accesses to a token that has its SID. *)
Theorem deny_placement m A behind e : is_acl Acl m A behind -> Forall even_size (Aces A) -> entry_wf e ->
  Kind e = Deny -> hits (Flags e) Access.INHERIT_ONLY_ACE = false -> len (entry_bytes e) <= Free A ->
  exists Aces last first, dacl_of m = Some Aces /\
    add_entry m e = Some (STATUS_SUCCESS, last) /\ dacl_of last = Some (Aces ++ [entry_ace e]) /\
    RtlAddAce Acl m ACL_REVISION4 0 (entry_bytes e) (len (entry_bytes e)) = Some (STATUS_SUCCESS, first) /\
    dacl_of first = Some (entry_ace e :: Aces) /\
    forall owner self P C GA mode PP Pool D Prev, plain P C mode PP D -> Z.testbit D 25 = false -> D <> 0 ->
      let check l := SepAccessCheck (mkSD true owner (Some l)) self P C D [] GA Prev mode PP Pool false in
      check (Aces ++ [entry_ace e]) = check Aces /\
      (forall b, SepSidInTokenEx (effective P C) self (EntrySid e) true false = true -> 0 <= b ->
         Z.testbit D b = true -> Z.testbit (EntryMask e) b = true ->
         check (entry_ace e :: Aces) = Some (mkResult true [0] [Access.STATUS_ACCESS_DENIED] None false true)).
Proof.
  intros Hm He Hwf Hk Hf Hfree. destruct (dacl_of_spec Acl m A behind Hm) as (l & Hl & Hd).
  destruct (entry_last m A behind e l Hm He Hwf Hfree Hl) as (last & Ha & Hda & Hok & Hev).
  destruct (entry_first m A behind e l Hm He Hwf Hok Hev Hfree Hl) as (first & Hb & Hdb).
  exists l, last, first. do 5 (split; [done|]). intros owner self P C GA mode PP Pool D Prev Hp H25 Hne. cbn zeta beta.
  pose proof (fun Aces => Access.normal_exact (mkSD true owner (Some Aces)) self P C GA mode PP Pool D Prev Aces eq_refl Hp H25 Hne) as Hex.
  assert (forall b, Access.dacl_allows self P C false (l ++ [entry_ace e]) b = Access.dacl_allows self P C false l b) as Hlast.
  { intros b. unfold Access.dacl_allows, Access.dacl_grants. rewrite !grants_deny_last by (intros k; by apply deny_verdict). done. }
  split.
  - destruct (Hex (l ++ [entry_ace e])) as [[H1 ->]|[H1 ->]], (Hex l) as [[H2 ->]|[H2 ->]]; try done; exfalso.
    + apply H2. intros b Hb0 Hbit. rewrite <- Hlast. by apply H1.
    + apply H1. intros b Hb0 Hbit. rewrite Hlast. by apply H2.
  - intros b Hin Hb0 HD Hmask. destruct (Hex (entry_ace e :: l)) as [[H1 _]|[_ H1]]; [|done]. exfalso.
    specialize (H1 b Hb0 HD). unfold Access.dacl_allows, Access.dacl_grants in H1. by rewrite grants_deny_first in H1.
Qed.

End Building.

(** ** Examples *)

Definition ex_world : SID := mkSid 1 [0; 0; 0; 0; 0; 1] [0].
Definition ex_deny : entry := mkEntry Deny 0 2 None None ex_world.
Definition ex_allow : entry := mkEntry Allow 3 0x1ff (Some AclSpec.ex_guid) None ex_world.

Lemma ex_world_wf : sid_wf ex_world.
Proof.
  split; [done| |by vm_compute|by apply Forall_cons_2; [|constructor]]. split; [done|by apply AclSpec.bytes_check].
Qed.

Lemma ex_deny_wf : entry_wf ex_deny.
Proof. split; [by vm_compute|by vm_compute|done|apply ex_world_wf|done]. Qed.

Lemma ex_allow_wf : entry_wf ex_allow.
Proof.
  split; [by vm_compute|by vm_compute| |apply ex_world_wf|done]. split; [|done]. split; [done|by apply AclSpec.bytes_check].
Qed.

Lemma acl_build_roundtrip_witness : exists m0 m', RtlCreateAcl (replicate 200 0) 200 2 = Some (STATUS_SUCCESS, m0) /\
  add_entries 4096 m0 [ex_deny; ex_allow] = Some ([STATUS_SUCCESS; STATUS_SUCCESS], m') /\ RtlValidAcl 4096 m' = true /\
  dacl_of m' = Some [entry_ace ex_deny; entry_ace ex_allow].
Proof.
  apply (acl_build_roundtrip 4096 (replicate 200 0) 200 2 [ex_deny; ex_allow]).
  - by apply AclSpec.bytes_check.
  - by vm_compute.
  - by vm_compute.
  - by vm_compute.
  - done.
  - apply Forall_cons_2; [apply ex_deny_wf|apply Forall_cons_2; [apply ex_allow_wf|constructor]].
  - by vm_compute.
Defined.

Lemma dacl_inside_witness : exists Aces, forall behind, dacl_of (take 48 AclSpec.ex_two_mem ++ behind) = Some Aces.
Proof.
  apply (dacl_inside 4096 AclSpec.ex_two_mem 48); by first [apply AclSpec.bytes_check | vm_compute].
Defined.

Lemma deny_placement_witness : exists last first, add_entry 4096 AclSpec.ex_acl ex_deny = Some (STATUS_SUCCESS, last) /\
  dacl_of last = Some [entry_ace ex_deny] /\
  RtlAddAce 4096 AclSpec.ex_acl 4 0 (entry_bytes ex_deny) 20 = Some (STATUS_SUCCESS, first) /\
  dacl_of first = Some [entry_ace ex_deny].
Proof.
  destruct (deny_placement 4096 AclSpec.ex_acl (mkAcl 2 [] 192) [] ex_deny AclSpec.ex_is_acl) as (l & last & first & H0 & H1 & H2 & H3 & H4 & _);
    [constructor|apply ex_deny_wf|done|done|by vm_compute|].
  vm_compute in H0. injection H0 as <-. exists last, first. by split_and!.
Defined.

End AclCheck.
