(* ===== verification/SeTypeTree.v ===== *)
(** * Trees of object types (src/ntoskrnl/se/accessck.c)

    The array of object types an access check works on is a tree, written in
    preorder with levels and parent indices.  The comment of
    SepUpdateParentTypeList says what the routines keep true of it: an entry's
    Remaining and CurrentDenied are the union of those of its children, its
    CurrentGranted their intersection.  This file proves that
    SepAddAccessTypeList keeps it true for every tree, while it applies its mask
    to the target and all its descendants and to no other leaf, and that the two
    walks over the DACL do. *)

From S2P Require Import Prelude SeAccess.
Import Access.

Module TypeTree.

(** ** The invariant *)

Definition shape (e : IOBJECT_TYPE_LIST) : Z * Z * Z := (Level e, ObjectType e, ParentIndex e).

(** Fields are 32-bit masks, and nothing is both granted and denied. *)
Record entry_ok (e : IOBJECT_TYPE_LIST) : Prop := {
  ok_Remaining : 0 <= Remaining e < 2 ^ 32;
  ok_Granted : 0 <= CurrentGranted e < 2 ^ 32;
  ok_Denied : 0 <= CurrentDenied e < 2 ^ 32;
  ok_disjoint : forall b, 0 <= b -> Z.testbit (CurrentGranted e) b = true -> Z.testbit (CurrentDenied e) b = false }.

Definition kid (l : list IOBJECT_TYPE_LIST) (q j : nat) (e : IOBJECT_TYPE_LIST) : Prop :=
  l !! j = Some e /\ ParentIndex e = Z.of_nat q.

Definition leaf (l : list IOBJECT_TYPE_LIST) (q : nat) : Prop := forall j e, ~ kid l q j e.

(** The masks [r], [g], [d] summarise the children of [q]. *)
Definition summary (l : list IOBJECT_TYPE_LIST) (q : nat) (r g d : Z) : Prop :=
  forall b, 0 <= b < 32 ->
    (Z.testbit r b = true <-> exists j e, kid l q j e /\ Z.testbit (Remaining e) b = true) /\
    (Z.testbit g b = true <-> forall j e, kid l q j e -> Z.testbit (CurrentGranted e) b = true) /\
    (Z.testbit d b = true <-> exists j e, kid l q j e /\ Z.testbit (CurrentDenied e) b = true).

Definition node_ok (l : list IOBJECT_TYPE_LIST) (q : nat) (e : IOBJECT_TYPE_LIST) : Prop :=
  leaf l q \/ summary l q (Remaining e) (CurrentGranted e) (CurrentDenied e).

Record tree_ok (l : list IOBJECT_TYPE_LIST) : Prop := {
  tree_wf : type_list_wf l;
  tree_entries : forall i e, l !! i = Some e -> entry_ok e;
  tree_nodes : forall q e, l !! q = Some e -> node_ok l q e }.

(** [j] is below [i]: it follows, and everything from there to it is deeper. *)
Definition below (l : list IOBJECT_TYPE_LIST) (i j : nat) : Prop :=
  (i < j)%nat /\ exists e, l !! i = Some e /\
    forall k ek, (i < k <= j)%nat -> l !! k = Some ek -> Level e < Level ek.

(** ** Shapes *)

Lemma shape_lookup l l' i e :
  map shape l = map shape l' -> l !! i = Some e -> exists e', l' !! i = Some e' /\ shape e' = shape e.
Proof.
  intros Hs He. assert (map shape l !! i = Some (shape e)) as H by (by rewrite list_lookup_fmap, He).
  rewrite Hs in H. apply list_lookup_fmap_Some in H. destruct H as (e' & ? & ?). by exists e'.
Qed.

Lemma shape_fields e e' : shape e = shape e' -> Level e = Level e' /\ ParentIndex e = ParentIndex e'.
Proof. intros [= H1 H2 H3]. done. Qed.

Lemma shape_wf l l' : map shape l = map shape l' -> type_list_wf l -> type_list_wf l'.
Proof.
  intros Hs Hwf i e' He'. destruct (shape_lookup l' l i e' (eq_sym Hs) He') as (e & He & Hee).
  apply shape_fields in Hee. destruct Hee as [HL HP]. specialize (Hwf i e He). destruct i as [|i].
  { cbn in *. rewrite <- HL, <- HP. done. }
  destruct Hwf as (Hl & p & pe & Hp & Hlt & Hpe & Hlv & Hb). cbn. rewrite <- HL, <- HP. split; [done|].
  destruct (shape_lookup l l' p pe Hs Hpe) as (pe' & Hpe' & Hpp). apply shape_fields in Hpp.
  destruct Hpp as [HLp _]. exists p, pe'. split; [done|]. split; [done|]. split; [done|]. split; [by rewrite HLp|].
  intros j ej Hj Hej. destruct (shape_lookup l' l j ej (eq_sym Hs) Hej) as (ej0 & Hej0 & Hj0).
  apply shape_fields in Hj0. destruct Hj0 as [<- _]. by apply (Hb j).
Qed.

Lemma shape_insert l i e e' :
  l !! i = Some e -> shape e' = shape e -> map shape (<[i := e']> l) = map shape l.
Proof.
  intros He Hs. rewrite list_fmap_insert, Hs. apply list_insert_id. by rewrite list_lookup_fmap, He.
Qed.

Lemma shape_update f m e : shape (update_entry f m e) = shape e.
Proof. by destruct f. Qed.

(** ** Parents and children in a well-formed list *)

Section Wf.
Variable l : list IOBJECT_TYPE_LIST.
Hypothesis Hwf : type_list_wf l.

Lemma kid_inv q j e :
  kid l q j e -> (q < j)%nat /\ exists qe, l !! q = Some qe /\ Level e = Level qe + 1 /\
    forall k ek, (q < k < j)%nat -> l !! k = Some ek -> Level e <= Level ek.
Proof.
  intros [He Hp]. pose proof (Hwf j e He) as H. destruct j as [|j].
  { destruct H as [_ H]. lia. }
  destruct H as (_ & p & pe & Hpp & Hlt & Hpe & Hlv & Hb). assert (p = q) as -> by lia.
  split; [done|]. exists pe. split; [done|]. split; [lia|]. done.
Qed.

Lemma kid_of q j e qe :
  l !! q = Some qe -> l !! j = Some e -> (q < j)%nat -> Level e = Level qe + 1 ->
  (forall k ek, (q < k <= j)%nat -> l !! k = Some ek -> Level qe < Level ek) -> kid l q j e.
Proof.
  intros Hq He Hlt Hlv Hreg. split; [done|]. pose proof (Hwf j e He) as H. destruct j as [|j]; [lia|].
  destruct H as (_ & p & pe & Hpp & Hpj & Hpe & Hplv & Hb). rewrite Hpp. f_equal.
  destruct (Nat.lt_trichotomy p q) as [Hpq|[->|Hpq]]; [|done|].
  - pose proof (Hb q qe ltac:(lia) Hq). lia.
  - pose proof (Hreg p pe ltac:(lia) Hpe). lia.
Qed.

Lemma kid_below q i j e : below l i q \/ i = q -> kid l q j e -> below l i j.
Proof.
  intros Hq Hk. destruct (kid_inv q j e Hk) as (Hlt & qe & Hqe & Hlv & Hb). destruct Hk as [He _].
  assert (Hgt : forall k ek, (q < k <= j)%nat -> l !! k = Some ek -> Level qe < Level ek).
  { intros k ek Hk Hek. destruct (Nat.eq_dec k j) as [->|]; [rewrite He in Hek; injection Hek as <-; lia|].
    pose proof (Hb k ek ltac:(lia) Hek). lia. }
  destruct Hq as [(Hiq & ie & Hie & Hreg)|<-].
  - split; [lia|]. exists ie. split; [done|]. intros k ek Hk Hek.
    destruct (decide (k <= q)%nat); [apply (Hreg k); [lia|done]|].
    pose proof (Hgt k ek ltac:(lia) Hek). pose proof (Hreg q qe ltac:(lia) Hqe). lia.
  - split; [lia|]. exists qe. split; [done|]. intros k ek Hk Hek. by apply (Hgt k).
Qed.

Lemma below_parent i j q e : below l i j -> kid l q j e -> below l i q \/ i = q.
Proof.
  intros (Hij & ie & Hie & Hreg) Hk. destruct (kid_inv q j e Hk) as (Hlt & qe & Hqe & Hlv & Hb).
  destruct Hk as [He _]. pose proof (Hreg j e ltac:(lia) He).
  destruct (Nat.lt_trichotomy q i) as [Hqi|[->|Hqi]]; [|by right|left].
  - pose proof (Hb i ie ltac:(lia) Hie). lia.
  - split; [done|]. exists ie. split; [done|]. intros k ek Hkk Hek. apply (Hreg k); [lia|done].
Qed.
End Wf.

(** ** The sum over the children *)

Fixpoint contrib (pl lv : Z) (l : list IOBJECT_TYPE_LIST) : list IOBJECT_TYPE_LIST :=
  match l with
  | [] => []
  | e :: l => if Level e <=? pl then [] else if Level e =? lv then e :: contrib pl lv l else contrib pl lv l
  end.

Lemma contrib_spec pl lv l e :
  In e (contrib pl lv l) <->
  exists j, l !! j = Some e /\ Level e = lv /\ forall k ek, (k <= j)%nat -> l !! k = Some ek -> pl < Level ek.
Proof.
  induction l as [|a l IH]; cbn [contrib In].
  { split; [done|]. intros (j & Hj & _). done. }
  destruct (Z.leb_spec (Level a) pl) as [Hle|Hgt]; cbn [In].
  { split; [done|]. intros (j & Hj & _ & H). specialize (H 0%nat a ltac:(lia) eq_refl). lia. }
  assert (Hstep : (exists j, l !! j = Some e /\ Level e = lv /\ forall k ek, (k <= j)%nat -> l !! k = Some ek -> pl < Level ek) <->
    exists j, (a :: l) !! S j = Some e /\ Level e = lv /\ forall k ek, (k <= S j)%nat -> (a :: l) !! k = Some ek -> pl < Level ek).
  { split; intros (j & Hj & Hl & H); exists j; (split; [done|]; split; [done|]).
    - intros [|k] ek Hk Hek; [injection Hek as <-; done|]. apply (H k); [lia|done].
    - intros k ek Hk Hek. apply (H (S k)); [lia|done]. }
  destruct (Z.eqb_spec (Level a) lv) as [Hlv|Hlv]; cbn [In]; rewrite IH, Hstep.
  - split.
    + intros [->|(j & H)]; [|by exists (S j)]. exists 0%nat. split; [done|]. split; [done|].
      intros k ek Hk Hek. assert (k = 0%nat) as -> by lia. by injection Hek as <-.
    + intros ([|j] & Hj & Hl & H); [left; by injection Hj|right; exists j; done].
  - split; [intros (j & H); by exists (S j)|].
    intros ([|j] & Hj & Hl & H); [injection Hj as ->; done|exists j; done].
Qed.

Lemma sum_children_bits pl lv l r g d r' g' d' b :
  sum_children pl lv l r g d = (r', g', d') ->
  Z.testbit r' b = Z.testbit r b || existsb (fun e => Z.testbit (Remaining e) b) (contrib pl lv l) /\
  Z.testbit g' b = Z.testbit g b && forallb (fun e => Z.testbit (CurrentGranted e) b) (contrib pl lv l) /\
  Z.testbit d' b = Z.testbit d b || existsb (fun e => Z.testbit (CurrentDenied e) b) (contrib pl lv l).
Proof.
  revert r g d. induction l as [|a l IH]; intros r g d; cbn [sum_children contrib].
  { intros [= -> -> ->]. cbn. by rewrite !orb_false_r, andb_true_r. }
  destruct (Level a <=? pl).
  { intros [= -> -> ->]. cbn. by rewrite !orb_false_r, andb_true_r. }
  destruct (Level a =? lv); cbn [negb]; [|apply IH].
  intros E. destruct (IH _ _ _ E) as (-> & -> & ->). cbn [existsb forallb].
  rewrite !Z.lor_spec, Z.land_spec, !orb_assoc, andb_assoc. done.
Qed.

Lemma contrib_kids l q qe e :
  type_list_wf l -> l !! q = Some qe ->
  In e (contrib (Level qe) (Level qe + 1) (drop (S q) l)) <-> exists j, kid l q j e.
Proof.
  intros Hwf Hq. rewrite contrib_spec. split.
  - intros (j & Hj & Hlv & H). rewrite lookup_drop in Hj. exists (S q + j)%nat.
    apply (kid_of l Hwf q _ e qe); try done; [lia|]. intros k ek Hk Hek.
    apply (H (k - S q)%nat); [lia|]. rewrite lookup_drop. by replace (S q + (k - S q))%nat with k by lia.
  - intros (j & Hk). destruct (kid_inv l Hwf q j e Hk) as (Hlt & qe' & Hqe' & Hlv & Hb).
    rewrite Hq in Hqe'. injection Hqe' as <-. destruct Hk as [He _]. exists (j - S q)%nat.
    split; [rewrite lookup_drop; by replace (S q + (j - S q))%nat with j by lia|]. split; [done|].
    intros k ek Hk Hek. rewrite lookup_drop in Hek. destruct (Nat.eq_dec (S q + k)%nat j) as [Ej|].
    + rewrite Ej, He in Hek. injection Hek as <-. lia.
    + pose proof (Hb (S q + k)%nat ek ltac:(lia) Hek). lia.
Qed.


Lemma sum_children_ok l q qe r g d :
  type_list_wf l -> (forall i e, l !! i = Some e -> entry_ok e) -> l !! q = Some qe ->
  sum_children (Level qe) (Level qe + 1) (drop (S q) l) 0 0xFFFFFFFF 0 = (r, g, d) ->
  summary l q r g d /\ 0 <= r < 2 ^ 32 /\ 0 <= g < 2 ^ 32 /\ 0 <= d < 2 ^ 32.
Proof.
  intros Hwf Hent Hq E. set (c := contrib (Level qe) (Level qe + 1) (drop (S q) l)).
  assert (Hin : forall e, In e c <-> exists j, kid l q j e) by (intros; by apply contrib_kids).
  assert (Hc : forall e, In e c -> entry_ok e) by (intros e He; apply Hin in He as (j & He & _); by apply (Hent j)).
  assert (Hb : forall b, _) by (intros b; exact (sum_children_bits _ _ _ _ _ _ _ _ _ b E)). fold c in Hb.
  assert (Hones : forall b, 0 <= b -> Z.testbit 0xFFFFFFFF b = (b <? 32)).
  { intros b H0. change 0xFFFFFFFF with (Z.ones 32). destruct (Z.ltb_spec b 32);
      [apply Z.ones_spec_low|apply Z.ones_spec_high]; lia. }
  assert (Hhigh : forall (fld : IOBJECT_TYPE_LIST -> Z) b, (forall e, entry_ok e -> 0 <= fld e < 2 ^ 32) -> 32 <= b ->
    existsb (fun e => Z.testbit (fld e) b) c = false).
  { intros fld b Hf H32. apply not_true_is_false. rewrite existsb_exists. intros (e & He & Ht).
    rewrite (Z_bits_above _ 32) in Ht; [done|by apply Hf, Hc|lia|lia]. }
  split.
  - intros b Hr. destruct (Hb b) as (-> & -> & ->). rewrite Z.bits_0, Hones by lia.
    replace (b <? 32) with true by lia. cbn [orb andb].
    rewrite !existsb_exists, forallb_forall. split; [|split].
    + split; [intros (e & He & Ht); apply Hin in He as (j & Hk); by exists j, e|].
      intros (j & e & Hk & Ht). exists e. split; [apply Hin; by exists j|done].
    + split; [intros H j e Hk; apply H, Hin; by exists j|]. intros H e He. apply Hin in He as (j & Hk). by apply (H j).
    + split; [intros (e & He & Ht); apply Hin in He as (j & Hk); by exists j, e|].
      intros (j & e & Hk & Ht). exists e. split; [apply Hin; by exists j|done].
  - split; [|split]; apply Z_bits_bound; try lia; intros b H32; destruct (Hb b) as (H1 & H2 & H3);
      rewrite ?H1, ?H2, ?H3, ?Z.bits_0, ?Hones by lia.
    + apply (Hhigh Remaining); [apply ok_Remaining|done].
    + by replace (b <? 32) with false by lia.
    + apply (Hhigh CurrentDenied); [apply ok_Denied|done].
Qed.

(** ** Lists that agree on the children of an entry *)

Definition same_kids (l l' : list IOBJECT_TYPE_LIST) (q : nat) : Prop := forall j e, kid l q j e <-> kid l' q j e.

Lemma same_kids_node l l' q e : same_kids l l' q -> node_ok l q e -> node_ok l' q e.
Proof.
  intros Hk [Hl|Hs]; [left|right].
  - intros j x Hx. by apply (Hl j x), Hk.
  - intros b Hb. destruct (Hs b Hb) as (H1 & H2 & H3). setoid_rewrite <- (Hk _ _). done.
Qed.

Lemma kid_insert l k x old q :
  l !! k = Some old -> shape x = shape old -> ParentIndex old <> Z.of_nat q ->
  same_kids l (<[k := x]> l) q.
Proof.
  intros Hk Hs Hp j e. apply shape_fields in Hs. destruct Hs as [_ Hpx]. unfold kid.
  destruct (decide (k = j)) as [->|Hne]; [|by rewrite list_lookup_insert_ne].
  rewrite list_lookup_insert_eq by eauto with kernel. rewrite Hk.
  split; intros [[= <-] H]; congruence.
Qed.

Lemma leaf_shape l l' q : map shape l = map shape l' -> leaf l q -> leaf l' q.
Proof.
  intros Hs Hl j e [He Hp]. destruct (shape_lookup l' l j e (eq_sym Hs) He) as (e0 & He0 & H0).
  apply shape_fields in H0. destruct H0 as [_ H0]. apply (Hl j e0). split; [done|congruence].
Qed.

Lemma below_shape l l' i j : map shape l = map shape l' -> below l i j -> below l' i j.
Proof.
  intros Hs (Hij & e & He & H). split; [done|]. destruct (shape_lookup l l' i e Hs He) as (e' & He' & Hee).
  apply shape_fields in Hee. destruct Hee as [HL _]. exists e'. split; [done|]. intros k ek Hk Hek.
  destruct (shape_lookup l' l k ek (eq_sym Hs) Hek) as (ek0 & Hek0 & H0). apply shape_fields in H0.
  destruct H0 as [H0 _]. specialize (H k ek0 Hk Hek0). lia.
Qed.

Lemma summary_disjoint l q r g d :
  (forall i e, l !! i = Some e -> entry_ok e) -> ~ leaf l q -> summary l q r g d ->
  0 <= g < 2 ^ 32 -> forall b, 0 <= b -> Z.testbit g b = true -> Z.testbit d b = false.
Proof.
  intros Hent Hnl Hs Hg b Hb Ht. apply not_true_is_false. intros Hd.
  destruct (Z.lt_ge_cases b 32) as [Hlt|Hge].
  2:{ rewrite (Z_bits_above _ 32) in Ht; [done|lia..]. }
  destruct (Hs b ltac:(lia)) as (_ & Hgg & Hdd). apply Hdd in Hd as (j & e & Hk & Hde).
  pose proof (proj1 Hgg Ht j e Hk) as Hge. destruct Hk as [He _].
  pose proof (ok_disjoint e (Hent j e He) b Hb Hge). congruence.
Qed.

(** ** SepUpdateParentTypeList *)

(** Everything but the entry [i] under change, and the one [skip] whose
    children have just changed, is up to date. *)
Record pending (l : list IOBJECT_TYPE_LIST) (i : nat) (skip : nat -> Prop) : Prop := {
  pend_wf : type_list_wf l;
  pend_entries : forall k e, l !! k = Some e -> entry_ok e;
  pend_nodes : forall q e, l !! q = Some e -> q <> i -> ~ skip q -> node_ok l q e }.

Definition parent_of (l : list IOBJECT_TYPE_LIST) (k q : nat) : Prop := exists e, kid l q k e.

Lemma parent_of_lookup l k e q : l !! k = Some e -> parent_of l k q <-> ParentIndex e = Z.of_nat q.
Proof.
  intros He. split; [intros (x & Hx & Hp); congruence|]. intros Hp. exists e. done.
Qed.

Lemma update_parent_ok fuel l i cur e :
  pending l i (parent_of l cur) -> l !! cur = Some e -> (cur < fuel)%nat -> (cur <= i)%nat ->
  exists l', SepUpdateParentTypeList fuel l cur = Some l' /\ map shape l' = map shape l /\
    pending l' i (fun _ => False) /\
    forall j ej, l !! j = Some ej -> leaf l j \/ (cur <= j)%nat -> l' !! j = Some ej.
Proof.
  revert l cur e. induction fuel as [|fuel IH]; intros l cur e Hp He Hf Hi; [lia|].
  destruct Hp as [Hwf Hent Hnodes]. cbn [SepUpdateParentTypeList]. rewrite He. cbn [mbind option_bind].
  destruct (Z.eqb_spec (ParentIndex e) (-1)) as [Hroot|Hroot].
  { exists l. split; [done|]. split; [done|]. split; [|done]. constructor; [done..|].
    intros q qe Hq Hqi _. apply Hnodes; [done|done|]. rewrite (parent_of_lookup l cur e) by done. lia. }
  assert (exists q, ParentIndex e = Z.of_nat q) as (q & Hpq).
  { pose proof (Hwf cur e He) as H. destruct cur; [by destruct H|]. destruct H as (_ & p & _ & H & _). by exists p. }
  assert (Hk : kid l q cur e) by done.
  destruct (kid_inv l Hwf q cur e Hk) as (Hlt & qe & Hqe & Hlv & _).
  rewrite Hpq, Nat2Z.id, Hqe, Hlv. cbn [mbind option_bind].
  destruct (sum_children (Level qe) (Level qe + 1) (drop (S q) l) 0 0xFFFFFFFF 0) as [[r g] d] eqn:Es.
  destruct (sum_children_ok l q qe r g d Hwf Hent Hqe Es) as (Hsum & Hr & Hg & Hd).
  destruct ((r =? Remaining qe) && (g =? CurrentGranted qe) && (d =? CurrentDenied qe)) eqn:Eq.
  { exists l. split; [done|]. split; [done|]. split; [|done]. constructor; [done..|].
    intros q' qe' Hq' Hqi _. destruct (decide (q' = q)) as [->|Hne].
    - right. rewrite Hqe in Hq'. injection Hq' as <-.
      assert (r = Remaining qe /\ g = CurrentGranted qe /\ d = CurrentDenied qe) as (-> & -> & ->) by lia. done.
    - apply Hnodes; [done|done|]. rewrite (parent_of_lookup l cur e) by done. lia. }
  set (qe' := set_CurrentDenied (set_CurrentGranted (set_Remaining qe r) g) d).
  assert (Hsh : shape qe' = shape qe) by done.
  assert (Hms : map shape (<[q := qe']> l) = map shape l) by (by apply (shape_insert l q qe)).
  assert (Hnl : ~ leaf l q) by (intros H; by apply (H cur e)).
  assert (Hqp : ParentIndex qe <> Z.of_nat q).
  { intros H. destruct (kid_inv l Hwf q q qe) as [? _]; [done|lia]. }
  destruct (IH (<[q := qe']> l) q qe') as (l' & E' & Hs' & Hp' & Hrest).
  - constructor.
    + by apply (shape_wf l).
    + intros k x Hx. destruct (decide (q = k)) as [->|Hne].
      * rewrite list_lookup_insert_eq in Hx by eauto with kernel. injection Hx as <-.
        constructor; try done. by apply (summary_disjoint l k r g d).
      * rewrite list_lookup_insert_ne in Hx by done. by apply (Hent k).
    + intros q2 x Hx Hq2i Hsk.
      assert (~ ParentIndex qe = Z.of_nat q2) as Hqq.
      { rewrite (parent_of_lookup _ q qe') in Hsk; [done|]. apply list_lookup_insert_eq. eauto with kernel. }
      apply (same_kids_node l); [by apply (kid_insert l q qe' qe)|].
      destruct (decide (q = q2)) as [->|Hne].
      * rewrite list_lookup_insert_eq in Hx by eauto with kernel. injection Hx as <-. by right.
      * rewrite list_lookup_insert_ne in Hx by done. apply Hnodes; [done|done|].
        rewrite (parent_of_lookup l cur e) by done. lia.
  - apply list_lookup_insert_eq. eauto with kernel.
  - lia.
  - lia.
  - exists l'. split; [done|]. split; [congruence|]. split; [done|]. intros j ej Hj Hc. apply Hrest.
    + rewrite list_lookup_insert_ne; [done|]. intros <-. destruct Hc; [done|lia].
    + destruct Hc as [Hc|Hc]; [left; by apply (leaf_shape l)|right; lia].
Qed.


(** ** One entry *)

Lemma update_entry_ok f m e : 0 <= m < 2 ^ 32 -> entry_ok e -> entry_ok (update_entry f m e).
Proof.
  intros Hm [Hr Hg Hd Hdis].
  assert (Hland : forall a c, 0 <= a < 2 ^ 32 -> 0 <= without a c < 2 ^ 32).
  { intros a c Ha. apply Z_bits_bound; [lia|]. intros b Hb. rewrite without_bit, (Z_bits_above a 32) by lia. done. }
  assert (Hlor : forall a c, 0 <= a < 2 ^ 32 -> 0 <= c < 2 ^ 32 -> 0 <= Z.lor a c < 2 ^ 32).
  { intros a c Ha Hc. apply Z_bits_bound; [lia|]. intros b Hb. by rewrite Z.lor_spec, !(Z_bits_above _ 32) by lia. }
  destruct f; constructor; cbn; auto.
  - intros b Hb. rewrite Z.lor_spec, without_bit by done. specialize (Hdis b Hb).
    destruct (Z.testbit (CurrentGranted e) b), (Z.testbit (CurrentDenied e) b), (Z.testbit m b); naive_solver.
  - intros b Hb. rewrite Z.lor_spec, without_bit by done. specialize (Hdis b Hb).
    destruct (Z.testbit (CurrentGranted e) b), (Z.testbit (CurrentDenied e) b), (Z.testbit m b); naive_solver.
Qed.

Lemma update_entry_same f m e : field_of f e = field_of f (update_entry f m e) -> update_entry f m e = e.
Proof. destruct f, e; cbn; intros H; by rewrite <- H. Qed.


Lemma kids_dec l q (p : IOBJECT_TYPE_LIST -> bool) :
  (forall j x, kid l q j x -> p x = true) \/ exists j x, kid l q j x /\ p x = false.
Proof.
  assert (H : forall n, (forall j x, (j < n)%nat -> kid l q j x -> p x = true) \/ exists j x, kid l q j x /\ p x = false).
  { induction n as [|n [IH|IH]]; [left; intros; lia| |by right].
    destruct (l !! n) as [y|] eqn:E; [destruct (decide (ParentIndex y = Z.of_nat q)) as [Hy|Hy]; [destruct (p y) eqn:Ep|]|].
    2: right; by exists n, y.
    all: left; intros j x Hj [Hx Hp]; destruct (decide (j = n)) as [->|]; [congruence|apply (IH j); [lia|done]]. }
  destruct (H (length l)) as [H1|H1]; [left|by right]. intros j x Hk. apply (H1 j); [|done].
  destruct Hk as [Hx _]. eauto with kernel.
Qed.

(** Updating an entry and its children alike keeps the summary. *)
Lemma exists_update {K : nat -> IOBJECT_TYPE_LIST -> Prop} {K' : nat -> IOBJECT_TYPE_LIST -> Prop} u (F : IOBJECT_TYPE_LIST -> Prop) :
  (forall j x', K' j x' <-> exists x, K j x /\ x' = u x) ->
  (exists j x', K' j x' /\ F x') <-> exists j x, K j x /\ F (u x).
Proof.
  intros Hk. split.
  - intros (j & x' & H & HF). apply Hk in H as (x & H & ->). by exists j, x.
  - intros (j & x & H & HF). exists j, (u x). split; [apply Hk; by exists x|done].
Qed.

Lemma forall_update {K : nat -> IOBJECT_TYPE_LIST -> Prop} {K' : nat -> IOBJECT_TYPE_LIST -> Prop} u (F : IOBJECT_TYPE_LIST -> Prop) :
  (forall j x', K' j x' <-> exists x, K j x /\ x' = u x) ->
  (forall j x', K' j x' -> F x') <-> forall j x, K j x -> F (u x).
Proof.
  intros Hk. split.
  - intros H j x Hx. apply (H j). apply Hk. by exists x.
  - intros H j x' Hx. apply Hk in Hx as (x & Hx & ->). by apply (H j).
Qed.

Lemma summary_update l l' f m q e :
  (forall j x, kid l q j x -> entry_ok x) ->
  (forall j x', kid l' q j x' <-> exists x, kid l q j x /\ x' = update_entry f m x) ->
  ~ leaf l q -> summary l q (Remaining e) (CurrentGranted e) (CurrentDenied e) ->
  let e' := update_entry f m e in
  summary l' q (Remaining e') (CurrentGranted e') (CurrentDenied e').
Proof.
  intros Hx Hk Hnl Hs e' b Hb. destruct (Hs b Hb) as (H1 & H2 & H3).
  rewrite (exists_update _ (fun x => Z.testbit (Remaining x) b = true) Hk),
    (exists_update _ (fun x => Z.testbit (CurrentDenied x) b = true) Hk),
    (forall_update _ (fun x => Z.testbit (CurrentGranted x) b = true) Hk).
  assert (Hdis : forall j x, kid l q j x -> Z.testbit (CurrentGranted x) b = true -> Z.testbit (CurrentDenied x) b = false).
  { intros j x Hkx. apply ok_disjoint; [by apply (Hx j)|lia]. }
  clear Hk Hs Hx. unfold e'.
  destruct f; cbn [update_entry set_Remaining set_CurrentGranted set_CurrentDenied Remaining CurrentGranted CurrentDenied];
    (split; [|split]); try done.
  - setoid_rewrite without_bit; [|lia..]. setoid_rewrite andb_true_iff. rewrite H1. split.
    + intros [(j & x & Hkx & Ht) Hm]. by exists j, x.
    + intros (j & x & Hkx & Ht & Hm). split; [by exists j, x|done].
  - setoid_rewrite Z.lor_spec. setoid_rewrite without_bit; [|lia..].
    destruct (Z.testbit m b); cbn [andb]; [|by setoid_rewrite orb_false_r].
    destruct (Z.testbit (CurrentDenied e) b) eqn:Ed; cbn [negb].
    + rewrite orb_false_r, H2. split; [intros H j x Hkx; by rewrite (H j x Hkx)|]. intros H.
      destruct (proj1 H3 eq_refl) as (j & x & Hkx & Hd). exfalso. specialize (H j x Hkx). rewrite Hd, orb_false_r in H.
      specialize (Hdis j x Hkx H). congruence.
    + rewrite orb_true_r. split; [|done]. intros _ j x Hkx. destruct (Z.testbit (CurrentDenied x) b) eqn:E; [|apply orb_true_r].
      discriminate (proj2 H3). by exists j, x.
  - setoid_rewrite Z.lor_spec. setoid_rewrite without_bit; [|lia..].
    destruct (Z.testbit m b); cbn [andb]; [|by setoid_rewrite orb_false_r].
    destruct (Z.testbit (CurrentGranted e) b) eqn:Eg; cbn [negb].
    + rewrite orb_false_r, H3. split; intros (j & x & Hkx & H); exists j, x; (split; [done|]).
      * by rewrite H.
      * by rewrite (proj1 H2 eq_refl j x Hkx), orb_false_r in H.
    + rewrite orb_true_r. split; [|done]. intros _.
      destruct (kids_dec l q (fun x => Z.testbit (CurrentGranted x) b)) as [Hall|(j & x & Hkx & Hg)].
      { by discriminate (proj2 H2 Hall). }
      exists j, x. split; [done|]. by rewrite Hg, orb_true_r.
Qed.

(** ** The loop over the descendants *)

Lemma update_children_lookup f m lv l j :
  update_children f m lv l !! j =
  if forallb (fun e => negb (Level e <=? lv)) (take (S j) l) then update_entry f m <$> l !! j else l !! j.
Proof.
  revert j. induction l as [|e l IH]; intros j; cbn [update_children]; [by destruct j|].
  destruct (Level e <=? lv) eqn:E; [cbn [take forallb]; by rewrite E|].
  destruct j as [|j]; [cbn [take forallb lookup list_lookup]; by rewrite E, take_0|].
  cbn [lookup list_lookup]. rewrite IH. cbn [take forallb]. rewrite E. done.
Qed.

Definition belowb (l : list IOBJECT_TYPE_LIST) (i j : nat) : bool :=
  match l !! i with
  | Some e => (i <? j)%nat && forallb (fun x => negb (Level x <=? Level e)) (take (j - i) (drop (S i) l))
  | None => false
  end.

Lemma belowb_spec l i j : (j < length l)%nat -> belowb l i j = true <-> below l i j.
Proof.
  intros Hj. unfold belowb, below. destruct (l !! i) as [e|] eqn:Ei.
  2:{ split; [done|]. intros (_ & e & He & _). congruence. }
  rewrite andb_true_iff, Nat.ltb_lt. split; intros [Hij H]; (split; [done|]).
  - exists e. split; [done|]. intros k ek Hk Hek. rewrite forallb_forall in H.
    assert (Hin : In ek (take (j - i) (drop (S i) l))).
    { apply list_elem_of_In, list_elem_of_lookup. exists (k - S i)%nat.
      rewrite lookup_take_lt, lookup_drop by lia. by replace (S i + (k - S i))%nat with k by lia. }
    specialize (H ek Hin). lia.
  - destruct H as (e0 & He0 & H). assert (e0 = e) as -> by congruence. apply forallb_forall. intros x Hx.
    apply list_elem_of_In, list_elem_of_lookup in Hx as (k & Hk). apply lookup_take_Some in Hk as [Hk Hlt].
    rewrite lookup_drop in Hk. specialize (H (S i + k)%nat x ltac:(lia) Hk). lia.
Qed.

(** The whole of the second half of SepAddAccessTypeList. *)
Lemma update_tail_lookup f m l i e j :
  l !! i = Some e ->
  (take (S i) l ++ update_children f m (Level e) (drop (S i) l)) !! j =
  if belowb l i j then update_entry f m <$> l !! j else l !! j.
Proof.
  intros He. unfold belowb. rewrite He. pose proof (lookup_lt_Some _ _ _ He) as Hlt.
  destruct (Nat.ltb_spec i j) as [Hij|Hij]; cbn [andb].
  - rewrite lookup_app_r by (rewrite length_take; lia). rewrite length_take, Nat.min_l by lia.
    rewrite update_children_lookup, lookup_drop. replace (S (j - S i)) with (j - i)%nat by lia.
    by replace (S i + (j - S i))%nat with j by lia.
  - rewrite lookup_app_l by (rewrite length_take; lia). apply lookup_take_lt. lia.
Qed.

Lemma remaining_below l i e j x b :
  tree_ok l -> l !! i = Some e -> below l i j -> l !! j = Some x -> 0 <= b < 32 ->
  Z.testbit (Remaining x) b = true -> Z.testbit (Remaining e) b = true.
Proof.
  intros [Hwf Hent Hn] He. revert x. induction (lt_wf j) as [j _ IH]. intros x Hb Hx H32 Ht.
  pose proof (Hwf j x Hx) as Hj. destruct j as [|j]; [destruct Hb; lia|].
  destruct Hj as (_ & q & qe & Hq & Hqj & Hqe & _).
  assert (Hk : kid l q (S j) x) by done.
  assert (Htq : Z.testbit (Remaining qe) b = true).
  { destruct (Hn q qe Hqe) as [Hl|Hs]; [by destruct (Hl (S j) x)|].
    apply (Hs b H32). by exists (S j), x. }
  destruct (below_parent l Hwf i (S j) q x Hb Hk) as [Hbq| ->].
  - by apply (IH q ltac:(lia) qe).
  - congruence.
Qed.

(** ** SepAddAccessTypeList *)

(** What an update of the entry [i] does: it is applied to the entry and to all
    its descendants, other leaves keep their masks, the tree keeps its shape,
    and the entries above are brought up to date. *)
Record updated (f : ACCESS_MASK_FIELD_TO_UPDATE) (m : Z) (i : nat) (l l' : list IOBJECT_TYPE_LIST) : Prop := {
  upd_tree : tree_ok l';
  upd_shape : map shape l' = map shape l;
  upd_below : forall j x, l !! j = Some x -> j = i \/ below l i j -> l' !! j = Some (update_entry f m x);
  upd_leaf : forall j x, l !! j = Some x -> leaf l j -> j <> i -> ~ below l i j -> l' !! j = Some x }.

Section Update.
Variables (f : ACCESS_MASK_FIELD_TO_UPDATE) (m : Z) (l l2 : list IOBJECT_TYPE_LIST) (i : nat) (e : IOBJECT_TYPE_LIST).
Hypothesis Hm : 0 <= m < 2 ^ 32.
Hypothesis Hl : tree_ok l.
Hypothesis He : l !! i = Some e.
Hypothesis Hpend : pending l2 i (fun _ => False).
Hypothesis Hsh : map shape l2 = map shape l.
Hypothesis Hi2 : l2 !! i = Some (update_entry f m e).
Hypothesis Hrest : forall j x, l !! j = Some x -> j <> i -> leaf l j \/ (i <= j)%nat -> l2 !! j = Some x.

Let l3 := take (S i) l2 ++ update_children f m (Level e) (drop (S i) l2).

Lemma l3_lookup j :
  l3 !! j = if belowb l2 i j then update_entry f m <$> l2 !! j else l2 !! j.
Proof. unfold l3. rewrite <- (update_tail_lookup f m l2 i _ j Hi2). by destruct f. Qed.

Lemma l2_length : length l2 = length l.
Proof. rewrite <- (length_map shape l2), Hsh. apply length_map. Qed.

Lemma below_l2 j x : l2 !! j = Some x -> belowb l2 i j = true <-> below l i j.
Proof.
  intros Hx. rewrite belowb_spec by eauto with kernel.
  split; apply below_shape; [done|by symmetry].
Qed.

Lemma l3_shape : map shape l3 = map shape l.
Proof.
  rewrite <- Hsh. apply list_eq. intros j. rewrite !list_lookup_fmap, l3_lookup.
  destruct (belowb l2 i j); [|done]. destruct (l2 !! j); cbn; [|done]. by rewrite shape_update.
Qed.

Lemma l3_below j x : l !! j = Some x -> j = i \/ below l i j -> l3 !! j = Some (update_entry f m x).
Proof.
  intros Hx Hb. rewrite l3_lookup. destruct (decide (j = i)) as [->|Hne].
  - assert (x = e) as -> by congruence. rewrite Hi2. destruct (belowb l2 i i) eqn:E; [|done].
    apply (below_l2 i _ Hi2) in E. destruct E. lia.
  - destruct Hb as [|Hb]; [done|]. assert (Hx2 : l2 !! j = Some x).
    { apply Hrest; [done|done|right]. destruct Hb. lia. }
    rewrite Hx2. by rewrite (proj2 (below_l2 j x Hx2) Hb).
Qed.

Lemma l3_other j : ~ below l i j -> l3 !! j = l2 !! j.
Proof.
  intros Hb. rewrite l3_lookup. destruct (l2 !! j) as [x|] eqn:E; [|by destruct (belowb l2 i j)].
  destruct (belowb l2 i j) eqn:Eb; [|done]. by apply (below_l2 j x E) in Eb.
Qed.

Lemma l3_inside q x : l !! q = Some x -> q = i \/ below l i q -> node_ok l3 q (update_entry f m x).
Proof.
  intros Hx Hb. destruct Hl as [Hwf Hent Hn].
  destruct (Hn q x Hx) as [Hleaf|Hs]; [left; by apply (leaf_shape l); [symmetry; apply l3_shape|]|].
  destruct (kids_dec l q (fun _ => false)) as [Hno|(j0 & x0 & Hk0 & _)].
  { left. apply (leaf_shape l); [symmetry; apply l3_shape|]. intros j y Hk. discriminate (Hno j y Hk). }
  right. assert (Hk' : forall j y, kid l q j y -> l3 !! j = Some (update_entry f m y)).
  { intros j y Hk. apply l3_below; [apply Hk|]. right. apply (kid_below l Hwf q i j y); [|done].
    destruct Hb as [->|]; [by right|by left]. }
  apply (summary_update l); try done.
  - intros j y [Hy _]. by apply (Hent j).
  - intros j y'. split.
    + intros [Hy' Hp]. destruct (shape_lookup l3 l j y' l3_shape Hy') as (y & Hy & Hys).
      assert (Hk : kid l q j y). { split; [done|]. apply shape_fields in Hys. destruct Hys. congruence. }
      exists y. split; [done|]. rewrite (Hk' j y Hk) in Hy'. congruence.
    + intros (y & Hk & ->). split; [by apply Hk'|]. pose proof (shape_update f m y) as Hu.
      apply shape_fields in Hu. destruct Hu as [_ Hu], Hk. congruence.
  - intros H. by apply (H j0 x0).
Qed.

Lemma l3_outside q x : l2 !! q = Some x -> q <> i -> ~ below l i q -> node_ok l3 q x.
Proof.
  intros Hx Hqi Hb. destruct Hpend as [Hwf2 _ Hn2]. apply (same_kids_node l2); [|apply Hn2; auto].
  assert (Hj : forall j y, kid l2 q j y -> ~ below l i j).
  { intros j y Hk Hbj. apply (below_shape l l2) in Hbj; [|done].
    destruct (below_parent l2 Hwf2 i j q y Hbj Hk) as [H| ->]; [|done].
    apply Hb. by apply (below_shape l2 l). }
  intros j y. split.
  - intros Hk. split; [|apply Hk]. rewrite l3_other by (by apply (Hj j y)). apply Hk.
  - intros [Hy Hp]. destruct (shape_lookup l3 l2 j y) as (y2 & Hy2 & Hs); [by rewrite l3_shape|done|].
    apply shape_fields in Hs. destruct Hs as [_ Hs]. assert (Hk : kid l2 q j y2) by (split; [done|congruence]).
    rewrite l3_other in Hy by (by apply (Hj j y2)). split; [done|congruence].
Qed.

Lemma update_finish : updated f m i l l3.
Proof.
  destruct Hl as [Hwf Hent _].
  assert (Hcase : forall j y, l3 !! j = Some y ->
    (exists x, l !! j = Some x /\ (j = i \/ below l i j) /\ y = update_entry f m x) \/
    (l2 !! j = Some y /\ j <> i /\ ~ below l i j)).
  { intros j y Hy. destruct (shape_lookup l3 l j y l3_shape Hy) as (x & Hx & _).
    destruct (decide (j = i)) as [->|Hne]; [left|destruct (belowb l i j) eqn:Eb; [left|right]].
    - exists x. split; [done|]. split; [by left|]. rewrite (l3_below i x Hx) in Hy by (by left). congruence.
    - apply belowb_spec in Eb; [|eauto with kernel]. exists x. split; [done|]. split; [by right|].
      rewrite (l3_below j x Hx) in Hy by (by right). congruence.
    - assert (~ below l i j) as Hnb.
      { rewrite <- belowb_spec, Eb; [done|eauto with kernel]. }
      rewrite l3_other in Hy; done. }
  constructor.
  - constructor.
    + apply (shape_wf l); [symmetry; apply l3_shape|done].
    + intros j y Hy. destruct (Hcase j y Hy) as [(x & Hx & _ & ->)|(Hy2 & _)].
      * apply update_entry_ok; [done|by apply (Hent j)].
      * by apply (pend_entries _ _ _ Hpend j).
    + intros q y Hy. destruct (Hcase q y Hy) as [(x & Hx & Hb & ->)|(Hy2 & Hqi & Hb)];
        [by apply l3_inside|by apply l3_outside].
  - apply l3_shape.
  - apply l3_below.
  - intros j x Hx Hlf Hne Hb. rewrite l3_other by done. apply Hrest; [done|done|by left].
Qed.
End Update.

Lemma SepAddAccessTypeList_ok f m l i e :
  tree_ok l -> 0 <= m < 2 ^ 32 -> l !! i = Some e ->
  exists l', SepAddAccessTypeList l i m f = Some l' /\ updated f m i l l'.
Proof.
  intros Hl Hm He. unfold SepAddAccessTypeList. rewrite He. cbn [mbind option_bind].
  set (e' := update_entry f m e). pose proof Hl as [Hwf Hent Hn].
  assert (Hsame : (field_of f e =? field_of f e') = true -> <[i := e']> l = l).
  { intros E. apply list_insert_id. rewrite He. f_equal. symmetry. apply update_entry_same. by apply Z.eqb_eq in E. }
  destruct (field_of f e =? field_of f e') eqn:E.
  - rewrite (Hsame eq_refl). clear Hsame. apply Z.eqb_eq, update_entry_same in E. fold e' in E.
    assert (Hgo : updated f m i l (take (S i) l ++ update_children f m (Level e) (drop (S i) l))).
    { apply update_finish; try done; [|rewrite He; f_equal; exact (eq_sym E)]. constructor; [done..|]. intros; by apply Hn. }
    destruct f; [|by eexists..]. exists l. split; [done|].
    assert (Hid : forall j x, l !! j = Some x -> j = i \/ below l i j -> update_entry UpdateRemaining m x = x).
    { intros j x Hx [->|Hb]; [assert (x = e) as -> by congruence; exact E|]. destruct x as [a1 a2 a3 r g d]. unfold update_entry, set_Remaining. cbn. f_equal.
      pose proof (Hent j _ Hx) as [Hr _ _ _]. cbn in Hr. apply Z.bits_inj'. intros b Hb0. rewrite without_bit by done.
      destruct (Z.testbit r b) eqn:Er; [cbn|done]. destruct (Z.lt_ge_cases b 32) as [H32|H32].
      2:{ rewrite (Z_bits_above r 32) in Er; [done|lia..]. }
      pose proof (remaining_below l i e j _ b Hl He Hb Hx (conj Hb0 H32) Er) as Hre.
      pose proof (f_equal (fun x => Z.testbit (Remaining x) b) E) as Hm'. cbn in Hm'.
      rewrite without_bit, !Hre in Hm' by done. by destruct (Z.testbit m b). }
    constructor; try done. intros j x Hx Hb. by rewrite (Hid j x Hx Hb).
  - clear Hsame.
    assert (Hlt : (i < length l)%nat) by eauto with kernel.
    assert (Hms : map shape (<[i := e']> l) = map shape l) by (apply (shape_insert l i e); [done|apply shape_update]).
    assert (Hi1 : <[i := e']> l !! i = Some e') by (by apply list_lookup_insert_eq).
    destruct (update_parent_ok (S (length (<[i := e']> l))) (<[i := e']> l) i i e') as (l2 & E2 & Hs2 & Hp2 & Hr2);
      [|done|rewrite length_insert; lia|lia|].
    { constructor; [by apply (shape_wf l)| |].
      - intros k x Hx. destruct (decide (i = k)) as [->|Hne].
        + rewrite Hi1 in Hx. injection Hx as <-. apply update_entry_ok; [done|by apply (Hent k)].
        + rewrite list_lookup_insert_ne in Hx by done. by apply (Hent k).
      - intros q x Hx Hqi Hsk. rewrite list_lookup_insert_ne in Hx by done.
        rewrite (parent_of_lookup _ i e') in Hsk by done.
        pose proof (shape_update f m e) as Hu. apply shape_fields in Hu. destruct Hu as [_ Hu].
        apply (same_kids_node l); [|by apply Hn]. apply (kid_insert l i e' e); [done|apply shape_update|]. rewrite <- Hu. exact Hsk. }
    assert (Hfin : updated f m i l (take (S i) l2 ++ update_children f m (Level e) (drop (S i) l2))).
    { apply update_finish; try done; [congruence|apply Hr2; [done|by right]|]. intros j x Hx Hne Hc.
      apply Hr2; [by rewrite list_lookup_insert_ne|]. destruct Hc; [left; by apply (leaf_shape l)|by right]. }
    rewrite E2. cbn [mbind option_bind]. exists (take (S i) l2 ++ update_children f m (Level e) (drop (S i) l2)).
    split; [by destruct f|done].
Qed.

(** ** Leaves *)

Lemma below_trans l i j k : below l i j -> below l j k -> below l i k.
Proof.
  intros (Hij & ei & Hei & Hi) (Hjk & ej & Hej & Hj). split; [lia|]. exists ei. split; [done|].
  intros n en Hn Hen. destruct (decide (n <= j)%nat); [apply (Hi n); [lia|done]|].
  pose proof (Hi j ej ltac:(lia) Hej). pose proof (Hj n en ltac:(lia) Hen). lia.
Qed.

(** Induction over the tree, from the leaves up. *)
Lemma tree_ind l (P : nat -> Prop) :
  type_list_wf l ->
  (forall i, leaf l i -> P i) ->
  (forall i, (exists j x, kid l i j x) -> (forall j x, kid l i j x -> P j) -> P i) ->
  forall i, P i.
Proof.
  intros Hwf Hleaf Hnode.
  assert (H : forall n i, (length l - i <= n)%nat -> P i).
  { induction n as [|n IH]; intros i Hi; destruct (kids_dec l i (fun _ => false)) as [Hno|(j & x & Hk & _)].
    1,3: apply Hleaf; intros j x Hk; discriminate (Hno j x Hk).
    - destruct (kid_inv l Hwf i j x Hk) as [Hlt _]. destruct Hk as [Hx _]. apply lookup_lt_Some in Hx. lia.
    - apply Hnode; [by exists j, x|]. clear j x Hk. intros j x Hk. apply IH.
      destruct (kid_inv l Hwf i j x Hk) as [Hlt _]. lia. }
  intros i. by apply (H (length l - i)%nat).
Qed.

Lemma kid_node l q qe j x :
  tree_ok l -> l !! q = Some qe -> kid l q j x ->
  summary l q (Remaining qe) (CurrentGranted qe) (CurrentDenied qe).
Proof. intros [_ _ Hn] Hq Hk. destruct (Hn q qe Hq) as [H|H]; [by destruct (H j x)|done]. Qed.

(** An entry's Remaining is the union, its CurrentGranted the intersection, of
    those of the leaves at or below it. *)
Lemma remaining_leaves l i e b :
  tree_ok l -> l !! i = Some e -> 0 <= b < 32 ->
  Z.testbit (Remaining e) b = true <->
  exists j x, leaf l j /\ (j = i \/ below l i j) /\ l !! j = Some x /\ Z.testbit (Remaining x) b = true.
Proof.
  intros Hl He Hb. split.
  - revert e He. pattern i. apply (tree_ind l); [apply Hl| |]; clear i.
    + intros i Hlf e He Ht. exists i, e. split; [done|]. split; [by left|done].
    + intros i (j0 & x0 & Hk0) IH e He Ht. destruct (kid_node l i e j0 x0 Hl He Hk0 b Hb) as (Hr & _).
      destruct (proj1 Hr Ht) as (j & x & Hk & Hxt). destruct (IH j x Hk x (proj1 Hk) Hxt) as (j' & x' & Hlf & Hj' & Hx').
      exists j', x'. split; [done|]. split; [|done]. right.
      pose proof (kid_below l (tree_wf l Hl) i i j x (or_intror eq_refl) Hk) as Hbj.
      destruct Hj' as [->|Hj']; [done|]. by apply (below_trans l i j).
  - intros (j & x & _ & [->|Hj] & Hx & Ht); [congruence|]. by apply (remaining_below l i e j x).
Qed.

Lemma granted_leaves l i e b :
  tree_ok l -> l !! i = Some e -> 0 <= b < 32 ->
  Z.testbit (CurrentGranted e) b = true <->
  forall j x, leaf l j -> j = i \/ below l i j -> l !! j = Some x -> Z.testbit (CurrentGranted x) b = true.
Proof.
  intros Hl He Hb. split.
  - intros Ht j x _ Hj Hx. destruct Hj as [->|Hj]; [congruence|]. revert x Hx Hj.
    induction (lt_wf j) as [j _ IH]. intros x Hx Hj. pose proof (tree_wf l Hl j x Hx) as Hw.
    destruct j as [|j]; [destruct Hj; lia|]. destruct Hw as (_ & q & qe & Hq & Hqj & Hqe & _).
    assert (Hk : kid l q (S j) x) by done. apply (proj1 (proj2 (kid_node l q qe _ x Hl Hqe Hk b Hb))) with (S j); [|done].
    destruct (below_parent l (tree_wf l Hl) i (S j) q x Hj Hk) as [Hbq| ->]; [by apply (IH q)|congruence].
  - revert e He. pattern i. apply (tree_ind l); [apply Hl| |]; clear i.
    + intros i Hlf e He H. apply (H i); [done|by left|done].
    + intros i (j0 & x0 & Hk0) IH e He H. apply (kid_node l i e j0 x0 Hl He Hk0 b Hb). intros j x Hk.
      apply (IH j x Hk x (proj1 Hk)). intros j' x' Hlf Hj' Hx'. apply (H j'); [done| |done]. right.
      pose proof (kid_below l (tree_wf l Hl) i i j x (or_intror eq_refl) Hk) as Hbj.
      destruct Hj' as [->|Hj']; [done|]. by apply (below_trans l i j).
Qed.

Lemma below_root l j x : type_list_wf l -> l !! j = Some x -> j = 0%nat \/ below l 0 j.
Proof.
  intros Hwf Hx. destruct j as [|j]; [by left|right]. split; [lia|]. destruct l as [|e l]; [done|]. exists e.
  split; [done|]. intros k ek Hk Hek. pose proof (Hwf 0%nat e eq_refl) as [H0 _]. pose proof (Hwf k ek Hek) as H.
  destruct k; [lia|]. destruct H as [H _]. lia.
Qed.

Lemma root_zero l :
  tree_ok l -> l <> [] ->
  head_of l Remaining = 0 <->
  forall j x b, leaf l j -> l !! j = Some x -> 0 <= b < 32 -> Z.testbit (Remaining x) b = false.
Proof.
  intros Hl Hne. destruct l as [|e l'] eqn:El; [done|]. rewrite <- El in *.
  assert (He : l !! 0%nat = Some e) by (by rewrite El). replace (head_of l Remaining) with (Remaining e) by (by rewrite El).
  split.
  - intros Hz j x b Hlf Hx Hb. apply not_true_is_false. intros Ht.
    assert (Z.testbit (Remaining e) b = true); [|by rewrite Hz, Z.bits_0 in *].
    apply (remaining_leaves l 0 e b Hl He Hb). exists j, x. split; [done|]. split; [|done].
    by apply (below_root l j x (tree_wf l Hl)).
  - intros H. apply zero_bits. intros b Hb. destruct (Z.lt_ge_cases b 32) as [Hlt|Hge].
    2:{ apply (Z_bits_above _ 32); [apply (tree_entries l Hl 0 e He)|lia..]. }
    apply not_true_is_false. intros Ht. apply (remaining_leaves l 0 e b Hl He) in Ht as (j & x & Hlf & _ & Hx & Hxt); [|lia].
    by rewrite (H j x b) in Hxt.
Qed.

Lemma hits_true a m : hits a m = true -> exists b, 0 <= b /\ Z.testbit a b = true /\ Z.testbit m b = true.
Proof.
  unfold hits. rewrite negb_true_iff, Z.eqb_neq. intros H. destruct (zbit_exists _ H) as (b & Hb & Ht).
  rewrite Z.land_spec in Ht. apply andb_true_iff in Ht. by exists b.
Qed.

(** ** The walks over the DACL *)

Lemma shape_length l l' : map shape l = map shape l' -> length l = length l'.
Proof. intros H. rewrite <- (length_map shape l), H. apply length_map. Qed.

Lemma find_type_shape i g l l' : map shape l = map shape l' -> find_type i g l = find_type i g l'.
Proof.
  revert i l'. induction l as [|e l IH]; intros i [|e' l'] [=]; [done|].
  cbn [find_type]. destruct e, e'; cbn in *; subst. destruct (g =? _); [done|]. by apply IH.
Qed.

Lemma find_type_lookup i g l t : find_type i g l = Some t -> exists e, (i <= t)%nat /\ l !! (t - i)%nat = Some e.
Proof.
  revert i. induction l as [|e l IH]; intros i; cbn [find_type]; [done|]. destruct (g =? ObjectType e).
  - intros [= ->]. exists e. split; [lia|]. by rewrite Nat.sub_diag.
  - intros H. destruct (IH _ H) as (x & Hle & Hx). exists x. split; [lia|]. by replace (t - i)%nat with (S (t - S i)) by lia.
Qed.

Lemma update_object_ok f m l :
  tree_ok l -> l <> [] -> 0 <= m < 2 ^ 32 ->
  exists l', update_object l m f = Some l' /\ updated f m 0 l l'.
Proof.
  intros Hl Hne Hm. destruct l as [|e [|e2 l]]; [done| |].
  - destruct (SepAddAccessTypeList_ok f m [e] 0 e Hl Hm eq_refl) as (l' & _ & Hu).
    exists l'. split; [|done]. cbn [update_object]. f_equal.
    pose proof (shape_length _ _ (upd_shape _ _ _ _ _ Hu)) as Hlen.
    pose proof (upd_below _ _ _ _ _ Hu 0%nat e eq_refl (or_introl eq_refl)) as H0.
    destruct l' as [|x [|y l']]; try done. cbn in H0. congruence.
  - destruct (SepAddAccessTypeList_ok f m (e :: e2 :: l) 0 e Hl Hm eq_refl) as (l' & E & Hu). by exists l'.
Qed.

Section Walks.
Variables (EToken PrimaryToken : TOKEN) (PrincipalSelfSid : option SID).

(** What an entry says to a token: allow or deny, the accesses, and the object
    type it is about. *)
Definition ace_statement (Restricted ServerRestricted : bool) (Ace : ACE) : option (bool * Z * option Z) :=
  let inside := fun Sid deny => SepSidInTokenEx EToken PrincipalSelfSid Sid deny Restricted in
  if hits (AceFlags Ace) INHERIT_ONLY_ACE then None
  else
    match Body Ace with
    | ACCESS_ALLOWED_ACE Mask Sid => if inside Sid false then Some (true, Mask, None) else None
    | ACCESS_ALLOWED_OBJECT_ACE Mask type Sid => if inside Sid false then Some (true, Mask, type) else None
    | ACCESS_ALLOWED_COMPOUND_ACE Mask ClientSid ServerSid =>
        if inside ClientSid false && SepSidInTokenEx PrimaryToken None ServerSid false ServerRestricted
        then Some (true, Mask, None) else None
    | ACCESS_DENIED_ACE Mask Sid => if inside Sid true then Some (false, Mask, None) else None
    | ACCESS_DENIED_OBJECT_ACE Mask type Sid => if inside Sid true then Some (false, Mask, type) else None
    | OtherAce => None
    end.

(** The entry of the type list it is about: the object itself, or the type if
    the list has it. *)
Definition scope (l : list IOBJECT_TYPE_LIST) (type : option Z) : option nat :=
  match type with None => Some 0%nat | Some g => SepObjectInTypeList g l end.

(** It speaks about an entry [j] at or below that one. *)
Definition speaks (l : list IOBJECT_TYPE_LIST) (type : option Z) (j : nat) : bool :=
  match scope l type with Some t => (t =? j)%nat || belowb l t j | None => false end.

(** First match, for one entry of the type list. *)
Fixpoint type_grants (Restricted ServerRestricted : bool) (l : list IOBJECT_TYPE_LIST) (Aces : list ACE)
    (j : nat) (b : Z) : bool :=
  match Aces with
  | [] => false
  | Ace :: Aces =>
      match ace_statement Restricted ServerRestricted Ace with
      | Some (allow, Mask, type) =>
          if speaks l type j && Z.testbit Mask b then allow
          else type_grants Restricted ServerRestricted l Aces j b
      | None => type_grants Restricted ServerRestricted l Aces j b
      end
  end.

Definition mask_ok (Ace : ACE) : Prop :=
  match Body Ace with
  | ACCESS_ALLOWED_ACE Mask _ | ACCESS_ALLOWED_OBJECT_ACE Mask _ _ | ACCESS_ALLOWED_COMPOUND_ACE Mask _ _
  | ACCESS_DENIED_ACE Mask _ | ACCESS_DENIED_OBJECT_ACE Mask _ _ => 0 <= Mask < 2 ^ 32
  | OtherAce => True
  end.

Lemma statement_mask R SR Ace allow m g : mask_ok Ace -> ace_statement R SR Ace = Some (allow, m, g) -> 0 <= m < 2 ^ 32.
Proof.
  unfold mask_ok, ace_statement. destruct (hits (AceFlags Ace) INHERIT_ONLY_ACE); [done|].
  destruct (Body Ace); intros Hm; try case_match; try done; by intros [= <- <- <-].
Qed.

Lemma belowb_shape l l' i j : map shape l = map shape l' -> (j < length l)%nat -> belowb l i j = belowb l' i j.
Proof.
  intros Hs Hj. apply eq_bool_prop_intro. split; intros H; apply Is_true_true; apply Is_true_true in H.
  - apply belowb_spec; [by rewrite <- (shape_length _ _ Hs)|]. apply (below_shape l); [done|]. by apply belowb_spec.
  - apply belowb_spec; [done|]. apply (below_shape l'); [done|]. apply belowb_spec; [by rewrite <- (shape_length _ _ Hs)|done].
Qed.

Lemma speaks_shape l l' g j : map shape l = map shape l' -> (j < length l)%nat -> speaks l g j = speaks l' g j.
Proof.
  intros Hs Hj. unfold speaks, scope, SepObjectInTypeList. destruct g as [g|].
  - rewrite (find_type_shape 0 g l l' Hs). destruct (find_type 0 g l') as [t|]; [|done]. by rewrite (belowb_shape l l').
  - by rewrite (belowb_shape l l').
Qed.

Lemma type_grants_shape R SR l l' Aces j b :
  map shape l = map shape l' -> (j < length l)%nat -> type_grants R SR l Aces j b = type_grants R SR l' Aces j b.
Proof.
  intros Hs Hj. induction Aces as [|a Aces IH]; cbn [type_grants]; [done|].
  destruct (ace_statement R SR a) as [[[al m] g]|]; [|done]. rewrite IH. by rewrite (speaks_shape l l').
Qed.

(** Applying an entry of the DACL. *)
Definition apply_to (l : list IOBJECT_TYPE_LIST) (g : option Z) (m : Z) (f : ACCESS_MASK_FIELD_TO_UPDATE)
    : option (list IOBJECT_TYPE_LIST) :=
  match g with None => update_object l m f | Some g => update_type l g m f end.

Lemma max_ace_eq n R Ace l :
  n <> 0 ->
  max_ace EToken PrimaryToken PrincipalSelfSid n R Ace l =
  match ace_statement R false Ace with
  | Some (allow, m, g) => apply_to l g m (if allow then UpdateCurrentGranted else UpdateCurrentDenied)
  | None => Some l
  end.
Proof.
  intros Hn. unfold max_ace, ace_statement, apply_to. destruct (hits (AceFlags Ace) INHERIT_ONLY_ACE); [done|].
  apply Z.eqb_neq in Hn.
  destruct (Body Ace) as [m s|m [g|] s|m c s|m s|m [g|] s|]; rewrite ?Hn;
    repeat match goal with |- context [if ?b then _ else _] => destruct b eqn:? end; done.
Qed.

Lemma normal_ace_eq n R Ace l :
  n <> 0 ->
  normal_ace EToken PrimaryToken PrincipalSelfSid n R Ace l =
  match ace_statement R R Ace with
  | Some (true, m, g) => l ← apply_to l g m UpdateRemaining; Some (l, false)
  | Some (false, m, g) =>
      match g with
      | None => Some (l, hits (head_of l Remaining) m)
      | Some g => match SepObjectInTypeList g l with
                  | Some t => e ← l !! t; Some (l, hits (Remaining e) m)
                  | None => Some (l, false)
                  end
      end
  | None => Some (l, false)
  end.
Proof.
  intros Hn. unfold normal_ace, ace_statement, apply_to, head_of. destruct (hits (AceFlags Ace) INHERIT_ONLY_ACE); [done|].
  apply Z.eqb_neq in Hn.
  destruct (Body Ace) as [m s|m [g|] s|m c s|m s|m [g|] s|]; rewrite ?Hn;
    repeat match goal with |- context [if ?b then _ else _] => destruct b eqn:? end; done.
Qed.

(** An update through [apply_to], as the leaves see it. *)
Lemma apply_to_ok f m g l :
  tree_ok l -> l <> [] -> 0 <= m < 2 ^ 32 ->
  exists l', apply_to l g m f = Some l' /\ tree_ok l' /\ map shape l' = map shape l /\
    forall j x, leaf l j -> l !! j = Some x -> l' !! j = Some (if speaks l g j then update_entry f m x else x).
Proof.
  intros Hl Hne Hm.
  assert (Hupd : forall t l', scope l g = Some t -> updated f m t l l' ->
    forall j x, leaf l j -> l !! j = Some x -> l' !! j = Some (if speaks l g j then update_entry f m x else x)).
  { intros t l' Hsc Hu j x Hlf Hx. unfold speaks. rewrite Hsc. pose proof (belowb_spec l t j (lookup_lt_Some _ _ _ Hx)) as Hb.
    destruct (Nat.eqb_spec t j) as [->|Htj]; cbn [orb]; [apply (upd_below _ _ _ _ _ Hu); [done|by left]|].
    destruct (belowb l t j); [apply (upd_below _ _ _ _ _ Hu); [done|right; by apply Hb]|].
    apply (upd_leaf _ _ _ _ _ Hu); [done|done|done|]. rewrite <- Hb. done. }
  unfold apply_to. destruct g as [g|].
  - unfold update_type. destruct (SepObjectInTypeList g l) as [t|] eqn:E.
    + destruct (find_type_lookup 0 g l t E) as (e & _ & He). rewrite Nat.sub_0_r in He.
      destruct (SepAddAccessTypeList_ok f m l t e Hl Hm He) as (l' & E' & Hu). exists l'. split; [done|].
      split; [apply Hu|]. split; [apply Hu|]. by apply (Hupd t l').
    + exists l. split; [done|]. split; [done|]. split; [done|]. intros j x Hlf Hx. unfold speaks, scope. by rewrite E.
  - destruct (update_object_ok f m l Hl Hne Hm) as (l' & E' & Hu). exists l'. split; [done|].
    split; [apply Hu|]. split; [apply Hu|]. by apply (Hupd 0%nat l').
Qed.

Lemma shape_ne l l' : map shape l' = map shape l -> l <> [] -> l' <> [].
Proof. destruct l, l'; done. Qed.

(** The walk for MAXIMUM_ALLOWED: every leaf gets what the first match says. *)
Lemma max_aces_tree n R Aces l :
  n <> 0 -> tree_ok l -> l <> [] -> Forall mask_ok Aces ->
  exists l', max_aces EToken PrimaryToken PrincipalSelfSid n R Aces l = Some l' /\ tree_ok l' /\
    map shape l' = map shape l /\
    forall j x, leaf l j -> l !! j = Some x -> exists x', l' !! j = Some x' /\
      forall b, 0 <= b -> Z.testbit (CurrentGranted x') b =
        Z.testbit (CurrentGranted x) b || (negb (Z.testbit (CurrentDenied x) b) && type_grants R false l Aces j b).
Proof.
  intros Hn. revert l. induction Aces as [|a Aces IH]; intros l Hl Hne Hm; cbn [max_aces type_grants].
  { exists l. split; [done|]. split; [done|]. split; [done|]. intros j x _ Hx. exists x. split; [done|].
    intros b _. by rewrite andb_false_r, orb_false_r. }
  apply Forall_cons_1 in Hm as [Ha Hm]. rewrite max_ace_eq by done.
  destruct (ace_statement R false a) as [[[al m] g]|] eqn:Es; [|by apply IH].
  pose proof (statement_mask _ _ _ _ _ _ Ha Es) as Hmr.
  destruct (apply_to_ok (if al then UpdateCurrentGranted else UpdateCurrentDenied) m g l Hl Hne Hmr)
    as (l1 & -> & Hl1 & Hs1 & Hleaf1). cbn [mbind option_bind].
  destruct (IH l1 Hl1 (shape_ne _ _ Hs1 Hne) Hm) as (l' & -> & Hl' & Hs' & Hleaf').
  exists l'. split; [done|]. split; [done|]. split; [congruence|]. intros j x Hlf Hx.
  destruct (Hleaf' j _ (leaf_shape l l1 j (eq_sym Hs1) Hlf) (Hleaf1 j x Hlf Hx)) as (x' & Hx' & Hb).
  exists x'. split; [done|]. intros b H0. rewrite (Hb b H0).
  rewrite (type_grants_shape R false l l1) by (eauto with kernel).
  destruct (speaks l g j); cbn [andb]; [|done].
  destruct al; cbn; rewrite Z.lor_spec, without_bit by done;
    by destruct (Z.testbit (CurrentGranted x) b), (Z.testbit m b), (Z.testbit (CurrentDenied x) b).
Qed.

(** The part of an entry [e] that a deny entry about [g] looks at. *)
Lemma normal_deny l g m :
  tree_ok l -> l <> [] ->
  exists stop : bool,
    match g with
    | None => Some (l, hits (head_of l Remaining) m)
    | Some g => match SepObjectInTypeList g l with
                | Some t => e ← l !! t; Some (l, hits (Remaining e) m)
                | None => Some (l, false)
                end
    end = Some (l, stop) /\
    if stop then exists j x b, leaf l j /\ l !! j = Some x /\ 0 <= b < 32 /\ Z.testbit (Remaining x) b = true /\
                   speaks l g j = true /\ Z.testbit m b = true
    else forall j x b, l !! j = Some x -> 0 <= b < 32 -> Z.testbit (Remaining x) b = true ->
           speaks l g j && Z.testbit m b = false.
Proof.
  intros Hl Hne.
  assert (Hgo : forall t e, scope l g = Some t -> l !! t = Some e ->
    if hits (Remaining e) m
    then exists j x b, leaf l j /\ l !! j = Some x /\ 0 <= b < 32 /\ Z.testbit (Remaining x) b = true /\
           speaks l g j = true /\ Z.testbit m b = true
    else forall j x b, l !! j = Some x -> 0 <= b < 32 -> Z.testbit (Remaining x) b = true ->
           speaks l g j && Z.testbit m b = false).
  { intros t e Hsc He. destruct (hits (Remaining e) m) eqn:Eh.
    - destruct (hits_true _ _ Eh) as (b & Hb & Ht & Hmb).
      assert (Hb32 : 0 <= b < 32).
      { split; [done|]. destruct (Z.lt_ge_cases b 32); [done|].
        rewrite (Z_bits_above _ 32) in Ht; [done|apply (tree_entries l Hl t e He)|lia..]. }
      destruct (proj1 (remaining_leaves l t e b Hl He Hb32) Ht) as (j & x & Hlf & Hj & Hx & Hxb).
      exists j, x, b. split; [done|]. split; [done|]. split; [done|]. split; [done|]. split; [|done].
      unfold speaks. rewrite Hsc. destruct Hj as [->|Hj]; [by rewrite Nat.eqb_refl|].
      rewrite (proj2 (belowb_spec l t j (lookup_lt_Some _ _ _ Hx)) Hj). apply orb_true_r.
    - rewrite hits_false in Eh. intros j x b Hx Hb Hxb. unfold speaks. rewrite Hsc.
      destruct ((t =? j)%nat || belowb l t j) eqn:Es; [|done]. cbn. apply Eh; [lia|].
      apply orb_true_iff in Es as [Es|Es].
      + apply Nat.eqb_eq in Es as ->. congruence.
      + apply belowb_spec in Es; [|eauto with kernel]. by apply (remaining_below l t e j x). }
  destruct g as [g|].
  - destruct (SepObjectInTypeList g l) as [t|] eqn:E.
    + destruct (find_type_lookup 0 g l t E) as (e & _ & He). rewrite Nat.sub_0_r in He. rewrite He.
      exists (hits (Remaining e) m). split; [done|]. by apply (Hgo t).
    + exists false. split; [done|]. intros j x b _ _ _. unfold speaks, scope. by rewrite E.
  - destruct l as [|e l]; [done|]. exists (hits (Remaining e) m). split; [done|]. by apply (Hgo 0%nat).
Qed.

(** The walk for specific accesses: nothing remains for the object exactly when
    every leaf has every access by first match. *)
Lemma normal_aces_tree n R Aces l :
  n <> 0 -> tree_ok l -> l <> [] -> Forall mask_ok Aces ->
  exists l', normal_aces EToken PrimaryToken PrincipalSelfSid n R Aces l = Some l' /\ tree_ok l' /\
    map shape l' = map shape l /\
    (head_of l' Remaining = 0 <->
     forall j x b, leaf l j -> l !! j = Some x -> 0 <= b < 32 -> Z.testbit (Remaining x) b = true ->
       type_grants R R l Aces j b = true).
Proof.
  intros Hn. revert l. induction Aces as [|a Aces IH]; intros l Hl Hne Hm; cbn [normal_aces type_grants].
  { exists l. split; [done|]. split; [done|]. split; [done|]. rewrite (root_zero l Hl Hne). split.
    - intros H j x b Hlf Hx Hb Ht. by rewrite (H j x b) in Ht.
    - intros H j x b Hlf Hx Hb. apply not_true_is_false. intros Ht. by specialize (H j x b Hlf Hx Hb Ht). }
  apply Forall_cons_1 in Hm as [Ha Hm]. destruct l as [|e0 l0] eqn:El; [done|]. rewrite <- El in *.
  assert (Hhd : head l = Some e0) by (by rewrite El).
  assert (Hho : head_of l Remaining = Remaining e0) by (by rewrite El).
  rewrite Hhd. cbn [mbind option_bind]. destruct (Z.eqb_spec (Remaining e0) 0) as [Hz|Hz].
  { exists l. split; [done|]. split; [done|]. split; [done|]. split; [|by rewrite Hho].
    rewrite (root_zero l Hl Hne). intros H j x b Hlf Hx Hb Ht. by rewrite (H j x b) in Ht. }
  rewrite normal_ace_eq by done.
  destruct (ace_statement R R a) as [[[[] m] g]|] eqn:Es; [| |by apply IH].
  - pose proof (statement_mask _ _ _ _ _ _ Ha Es) as Hmr.
    destruct (apply_to_ok UpdateRemaining m g l Hl Hne Hmr) as (l1 & -> & Hl1 & Hs1 & Hleaf1). cbn [mbind option_bind].
    destruct (IH l1 Hl1 (shape_ne _ _ Hs1 Hne) Hm) as (l' & -> & Hl' & Hs' & Hiff).
    exists l'. split; [done|]. split; [done|]. split; [congruence|]. rewrite Hiff. split; intros H j x b Hlf Hx Hb Ht.
    + rewrite (type_grants_shape R R l l1) by (eauto with kernel).
      destruct (speaks l g j && Z.testbit m b) eqn:Esp; [done|].
      apply (H j _ b (leaf_shape l l1 j (eq_sym Hs1) Hlf) (Hleaf1 j x Hlf Hx) Hb).
      destruct (speaks l g j); [|done]. cbn in Esp |- *. by rewrite without_bit, Ht, Esp by lia.
    + destruct (shape_lookup l1 l j x Hs1 Hx) as (x0 & Hx0 & _). apply (leaf_shape l1 l j Hs1) in Hlf.
      rewrite (Hleaf1 j x0 Hlf Hx0) in Hx. injection Hx as <-.
      assert (Z.testbit (Remaining x0) b = true /\ speaks l g j && Z.testbit m b = false) as [Ht0 Hsp].
      { destruct (speaks l g j); [|done]. cbn in Ht. rewrite without_bit in Ht by lia.
        apply andb_true_iff in Ht as [? Hmb]. apply negb_true_iff in Hmb. done. }
      specialize (H j x0 b Hlf Hx0 Hb Ht0). rewrite Hsp in H.
      by rewrite (type_grants_shape R R l1 l) by (first [done | rewrite (shape_length _ _ Hs1); eauto with kernel]).
  - destruct (normal_deny l g m Hl Hne) as (stop & -> & Hst). cbn [mbind option_bind]. destruct stop.
    + exists l. split; [done|]. split; [done|]. split; [done|]. rewrite Hho. split; [done|]. intros H. exfalso.
      destruct Hst as (j & x & b & Hlf & Hx & Hb & Ht & Hsp & Hmb). specialize (H j x b Hlf Hx Hb Ht).
      by rewrite Hsp, Hmb in H.
    + destruct (IH l Hl Hne Hm) as (l' & -> & Hl' & Hs' & Hiff). exists l'. split; [done|]. split; [done|].
      split; [done|]. rewrite Hiff. split; intros H j x b Hlf Hx Hb Ht.
      * rewrite (Hst j x b Hx Hb Ht). by apply (H j x).
      * specialize (H j x b Hlf Hx Hb Ht). by rewrite (Hst j x b Hx Hb Ht) in H.
Qed.

End Walks.
(** ** Lists as the routines start from them *)

(** As SeCaptureObjectTypeList leaves a list: no access anywhere yet. *)
Definition no_access (e : IOBJECT_TYPE_LIST) : Prop := Remaining e = 0 /\ CurrentGranted e = 0 /\ CurrentDenied e = 0.
Definition fresh (l : list IOBJECT_TYPE_LIST) : Prop := type_list_wf l /\ Forall no_access l.

Lemma fresh_tree l : fresh l -> tree_ok l.
Proof.
  intros [Hwf Hz]. rewrite Forall_lookup in Hz. constructor; [done| |].
  - intros i e He. destruct (Hz i e He) as (Hr & Hg & Hdn). constructor; rewrite ?Hr, ?Hg, ?Hdn; try lia. intros b _. by rewrite Z.bits_0.
  - intros q e He. destruct (kids_dec l q (fun _ => false)) as [Hno|(j & x & Hk & _)].
    { left. intros j x Hk. discriminate (Hno j x Hk). }
    right. intros b Hb. destruct (Hz q e He) as (-> & -> & ->). rewrite Z.bits_0. split; [|split]; (split; [done|]).
    + intros (j' & x' & [Hx' _] & Ht). destruct (Hz j' x' Hx') as (Hr & _). by rewrite Hr, Z.bits_0 in Ht.
    + intros H. specialize (H j x Hk). destruct Hk as [Hx _]. destruct (Hz j x Hx) as (_ & Hg & _).
      by rewrite Hg, Z.bits_0 in H.
    + intros (j' & x' & [Hx' _] & Ht). destruct (Hz j' x' Hx') as (_ & _ & Hr). by rewrite Hr, Z.bits_0 in Ht.
Qed.

(** Setting Remaining everywhere alike, as SepNormalAccessCheck does first. *)
Lemma uniform_tree l r : tree_ok l -> 0 <= r < 2 ^ 32 -> tree_ok (map (fun e => set_Remaining e r) l).
Proof.
  intros [Hwf Hent Hn] Hr. set (l' := map (fun e => set_Remaining e r) l).
  assert (Hs : map shape l' = map shape l) by (unfold l'; rewrite map_map; by apply map_ext).
  assert (Hl' : forall i x', l' !! i = Some x' <-> exists x, l !! i = Some x /\ x' = set_Remaining x r).
  { intros i x'. unfold l'. rewrite list_lookup_fmap_Some. split; intros (x & H1 & H2); by exists x. }
  assert (Hk : forall q j x', kid l' q j x' <-> exists x, kid l q j x /\ x' = set_Remaining x r).
  { intros q j x'. unfold kid. rewrite Hl'. split.
    - intros [(x & Hx & ->) Hp]. by exists x.
    - intros (x & [Hx Hp] & ->). split; [by exists x|done]. }
  constructor; [by apply (shape_wf l)| |].
  - intros i x' Hx'. apply Hl' in Hx' as (x & Hx & ->). destruct (Hent i x Hx). by constructor.
  - intros q e' He'. apply Hl' in He' as (e & He & ->).
    destruct (kids_dec l q (fun _ => false)) as [Hno|(j & x & Hkx & _)].
    { left. intros j x Hkx. apply Hk in Hkx as (y & Hy & _). discriminate (Hno j y Hy). }
    right. intros b Hb. destruct (Hn q e He) as [Hl|Hsum]; [by destruct (Hl j x)|]. destruct (Hsum b Hb) as (_ & H2 & H3).
    rewrite (exists_update _ (fun x => Z.testbit (Remaining x) b = true) (Hk q)),
      (exists_update _ (fun x => Z.testbit (CurrentDenied x) b = true) (Hk q)),
      (forall_update _ (fun x => Z.testbit (CurrentGranted x) b = true) (Hk q)).
    split; [|done]. cbn. split; [intros Ht; by exists j, x|by intros (_ & _ & _ & Ht)].
Qed.

Lemma leaf_exists l i e :
  tree_ok l -> l !! i = Some e -> exists j x, leaf l j /\ (j = i \/ below l i j) /\ l !! j = Some x.
Proof.
  intros Hl. revert e. pattern i. apply (tree_ind l); [apply Hl| |]; clear i.
  - intros i Hlf e He. exists i, e. split; [done|]. split; [by left|done].
  - intros i (j & x & Hk) IH e He. destruct (IH j x Hk x (proj1 Hk)) as (j' & x' & Hlf & Hj' & Hx').
    exists j', x'. split; [done|]. split; [|done]. right.
    pose proof (kid_below l (tree_wf l Hl) i i j x (or_intror eq_refl) Hk) as Hbj.
    destruct Hj' as [->|Hj']; [done|]. by apply (below_trans l i j).
Qed.

(** ** SepAccessCheck with a type list *)

Section Check.
Variables (sd : SECURITY_DESCRIPTOR) (PrincipalSelfSid : option SID) (PrimaryToken : TOKEN)
  (ClientToken : option TOKEN) (GenericAll : Z) (PreviousMode : KPROCESSOR_MODE) (PrivilegesPresent PoolOk : bool).
Variables (l : list IOBJECT_TYPE_LIST) (Aces : list ACE).
Hypothesis Hd : RtlpDaclAddrSecurityDescriptor sd = Some Aces.
Hypothesis Hmasks : Forall mask_ok Aces.
Hypothesis Hne : l <> [].

Local Abbreviation eff := (effective PrimaryToken ClientToken).

(** First match for one entry of the list and the token as a whole. *)
Definition type_allows (j : nat) (b : Z) : bool :=
  type_grants eff PrimaryToken PrincipalSelfSid false false l Aces j b &&
  (negb (SeTokenIsRestricted eff) || type_grants eff PrimaryToken PrincipalSelfSid true true l Aces j b).

(** Every leaf has every access of [D]. *)
Definition all_leaves (D : Z) (P : nat -> Z -> bool) : Prop :=
  forall j x b, leaf l j -> l !! j = Some x -> 0 <= b < 32 -> Z.testbit D b = true -> P j b = true.

Lemma normal_pass R D l0 :
  tree_ok l0 -> map shape l0 = map shape l -> 0 <= D < 2 ^ 32 ->
  exists l', SepNormalAccessCheck eff PrimaryToken PrincipalSelfSid (Z.of_nat (length l)) D Aces l0 R = Some l' /\
    tree_ok l' /\ map shape l' = map shape l /\
    (head_of l' Remaining = 0 <->
     all_leaves D (type_grants eff PrimaryToken PrincipalSelfSid R R l Aces)).
Proof.
  intros Hl0 Hs HD. set (l1 := map (fun e => set_Remaining e D) l0).
  assert (Hs1 : map shape l1 = map shape l) by (rewrite <- Hs; unfold l1; rewrite map_map; by apply map_ext).
  destruct (normal_aces_tree eff PrimaryToken PrincipalSelfSid (Z.of_nat (length l)) R Aces l1)
    as (l' & E & Hl' & Hs' & Hiff); [by destruct l|by apply uniform_tree|by apply (shape_ne l)|done|].
  exists l'. split; [done|]. split; [done|]. split; [congruence|]. rewrite Hiff.
  assert (Hall : forall j x, l1 !! j = Some x -> Remaining x = D).
  { intros j x Hx. unfold l1 in Hx. apply list_lookup_fmap_Some in Hx as (y & -> & _). done. }
  split; intros H j x b Hlf Hx Hb Ht.
  - destruct (shape_lookup l l1 j x (eq_sym Hs1) Hx) as (x1 & Hx1 & _).
    rewrite <- (type_grants_shape _ _ _ R R l1 l) by (eauto with kernel).
    apply (H j x1 b); [by apply (leaf_shape l)|done|done|]. by rewrite (Hall j x1 Hx1).
  - destruct (shape_lookup l1 l j x Hs1 Hx) as (x0 & Hx0 & _).
    rewrite (type_grants_shape _ _ _ R R l1 l) by (eauto with kernel).
    apply (H j x0 b); [by apply (leaf_shape l1)|done|done|]. by rewrite <- (Hall j x Hx).
Qed.

(** The test of what remains, and the two ways it ends. *)
Lemma last_test D Prev n h :
  D <> 0 -> (h = 0 <-> all_leaves D type_allows) ->
  let r := if negb (h =? 0)
           then Some (ReturnOneStatus PrivilegesPresent PoolOk false false false n STATUS_ACCESS_DENIED 0)
           else Some (ReturnOneStatus PrivilegesPresent PoolOk false false false n STATUS_SUCCESS (Z.lor Prev D)) in
  (all_leaves D type_allows /\ r = Some (mkResult true [Z.lor Prev D] [STATUS_SUCCESS] None true false)) \/
  (~ all_leaves D type_allows /\ r = Some (mkResult true [0] [STATUS_ACCESS_DENIED] None false true)).
Proof.
  intros HD Hh. destruct (Z.eqb_spec h 0); cbn [negb]; [left|right]; (split; [tauto|]); [|done].
  unfold ReturnOneStatus. destruct (Z.eqb_spec (Z.lor Prev D) 0) as [E|]; [|done].
  apply Z.lor_eq_0_iff in E. tauto.
Qed.

Lemma type_list_check D Prev :
  fresh l -> plain PrimaryToken ClientToken PreviousMode PrivilegesPresent D ->
  Z.testbit D 25 = false -> 0 < D < 2 ^ 32 ->
  (all_leaves D type_allows /\
   SepAccessCheck sd PrincipalSelfSid PrimaryToken ClientToken D l GenericAll Prev PreviousMode PrivilegesPresent PoolOk false =
     Some (mkResult true [Z.lor Prev D] [STATUS_SUCCESS] None true false)) \/
  (~ all_leaves D type_allows /\
   SepAccessCheck sd PrincipalSelfSid PrimaryToken ClientToken D l GenericAll Prev PreviousMode PrivilegesPresent PoolOk false =
     Some (mkResult true [0] [STATUS_ACCESS_DENIED] None false true)).
Proof.
  intros Hf [H24 H19] H25 HD. pose proof (fresh_tree l Hf) as Hl. unfold SepAccessCheck. cbv zeta.
  rewrite hits_sys, H24, Hd, hits_own, hits_max, H25. cbn [andb orb].
  change (SepSinglePrivilegeCheck SeTakeOwnershipPrivilege _ PreviousMode)
    with (holds PrimaryToken ClientToken PreviousMode SeTakeOwnershipPrivilege). rewrite H19. cbn [andb].
  assert (Hlen : (Z.of_nat (length l) =? 0) = false)
    by (apply Z.eqb_neq; intros H; apply Hne, nil_length_inv; lia). rewrite Hlen.
  assert (HA : Aces = [] \/ forall A (x y : A), match Aces with [] => x | _ :: _ => y end = y)
    by (destruct Aces; [by left|by right]). destruct HA as [EA|EA].
  { right. rewrite EA. split.
    - intros H. destruct (lookup_lt_is_Some_2 l 0) as [e0 He0]; [destruct l; [done|cbn; lia]|].
      destruct (leaf_exists l 0 e0 Hl He0) as (j & x & Hlf & _ & Hx).
      destruct (zbit_exists D ltac:(lia)) as (b & Hb & Ht). destruct (Z.lt_ge_cases b 32) as [Hlt|Hge].
      + specialize (H j x b Hlf Hx (conj Hb Hlt) Ht). unfold type_allows in H. by rewrite EA in H.
      + rewrite (Z_bits_above D 32) in Ht; [done|lia..].
    - destruct (Z.eqb_spec D MAXIMUM_ALLOWED) as [E|]; [by rewrite E, MAXIMUM_bit in H25|]. done. }
  rewrite EA. destruct (normal_pass false D l Hl eq_refl ltac:(lia)) as (l1 & E1 & Hl1 & Hs1 & Hi1).
  unfold effective in E1. rewrite E1. cbn [mbind option_bind].
  destruct (Z.eqb_spec (head_of l1 Remaining) 0) as [Hz1|Hz1]; cbn [negb].
  2:{ right. split; [|done]. intros H. apply Hz1, Hi1. intros j x b Hlf Hx Hb Ht.
      specialize (H j x b Hlf Hx Hb Ht). unfold type_allows in H. apply andb_true_iff in H. tauto. }
  destruct (normal_pass true D l1 Hl1 Hs1 ltac:(lia)) as (l2 & E2 & _ & _ & Hi2).
  unfold effective in E2. rewrite E2. fold eff.
  destruct (SeTokenIsRestricted eff) eqn:ER; cbn [mbind option_bind].
  - assert (Hh : head_of l2 Remaining = 0 <-> all_leaves D type_allows).
    { rewrite Hi2. unfold all_leaves, type_allows. rewrite ER. apply Hi1 in Hz1. split; intros H j x b Hlf Hx Hb Ht.
      - by rewrite (Hz1 j x b), (H j x b).
      - specialize (H j x b Hlf Hx Hb Ht). apply andb_true_iff in H. tauto. }
    apply last_test; [lia|done].
  - assert (Hh : head_of l1 Remaining = 0 <-> all_leaves D type_allows).
    { rewrite Hi1. unfold all_leaves, type_allows. rewrite ER. split; intros H j x b Hlf Hx Hb Ht.
      - by rewrite (H j x b).
      - specialize (H j x b Hlf Hx Hb Ht). apply andb_true_iff in H. tauto. }
    apply last_test; [lia|done].
Qed.

(** The results for every entry of the list, with MAXIMUM_ALLOWED. *)
Lemma max_result_list :
  fresh l -> SeTokenIsRestricted eff = false ->
  exists r, SepAccessCheck sd PrincipalSelfSid PrimaryToken ClientToken MAXIMUM_ALLOWED l GenericAll 0 PreviousMode
              PrivilegesPresent PoolOk true = Some r /\
    forall i e, l !! i = Some e -> exists g,
      GrantedAccess r !! i = Some g /\
      AccessStatus r !! i = Some (if g =? 0 then STATUS_ACCESS_DENIED else STATUS_SUCCESS) /\
      forall b, 0 <= b < 32 -> b <> 25 ->
        Z.testbit g b = true <->
        forall j x, leaf l j -> j = i \/ below l i j -> l !! j = Some x -> type_allows j b = true.
Proof.
  intros Hf ER. pose proof (fresh_tree l Hf) as Hl. unfold SepAccessCheck. cbv zeta. rewrite Hd.
  change (hits MAXIMUM_ALLOWED ACCESS_SYSTEM_SECURITY) with false.
  cbn [andb]. change (hits MAXIMUM_ALLOWED WRITE_OWNER) with false.
  change (hits MAXIMUM_ALLOWED MAXIMUM_ALLOWED) with true. cbn [andb orb]. assert (Hlen : (Z.of_nat (length l) =? 0) = false)
    by (apply Z.eqb_neq; intros H; apply Hne, nil_length_inv; lia). rewrite Hlen.
  assert (HA : Aces = [] \/ forall A (x y : A), match Aces with [] => x | _ :: _ => y end = y)
    by (destruct Aces; [by left|by right]). destruct HA as [EA|EA].
  { rewrite EA. eexists. split; [reflexivity|]. intros i e He. exists 0. pose proof (lookup_lt_Some _ _ _ He) as Hlt.
    unfold ReturnOneStatus. cbn [GrantedAccess AccessStatus]. rewrite !lookup_replicate_2 by (rewrite Nat2Z.id; done).
    split; [done|]. split; [done|]. intros b Hb Hne25. rewrite Z.bits_0. split; [done|]. intros H.
    destruct (leaf_exists l i e Hl He) as (j & x & Hlf & Hj & Hx). specialize (H j x Hlf Hj Hx).
    unfold type_allows in H. by rewrite EA in H. }
  rewrite EA.
  destruct (max_aces_tree eff PrimaryToken PrincipalSelfSid (Z.of_nat (length l)) false Aces l)
    as (l' & E & Hl' & Hs' & Hleaf); [by apply Z.eqb_neq|done..|].
  unfold SepMaximumAccessCheck. unfold effective in E. rewrite E. cbn [mbind option_bind]. fold eff. rewrite ER.
  cbn [mbind option_bind]. rewrite andb_false_r. cbn [andb]. eexists. split; [reflexivity|]. intros i e He.
  destruct (shape_lookup l l' i e (eq_sym Hs') He) as (e' & He' & _).
  cbn [GrantedAccess AccessStatus]. rewrite !list_lookup_fmap. unfold result_list. rewrite list_lookup_fmap, He'.
  cbn [fmap option_fmap option_map fst snd]. eexists. split; [reflexivity|]. split.
  - change (hits MAXIMUM_ALLOWED MAXIMUM_ALLOWED) with true. cbv iota.
    change (without (Z.lor MAXIMUM_ALLOWED 0) MAXIMUM_ALLOWED) with 0. rewrite Z.land_0_r. done.
  - intros b Hb Hne25. rewrite Z.land_spec, Z.lor_spec, Z.bits_0, orb_false_r.
    change (hits MAXIMUM_ALLOWED MAXIMUM_ALLOWED) with true. cbv iota.
    replace (Z.testbit (u32 (Z.lnot MAXIMUM_ALLOWED)) b) with true.
    2:{ unfold uwrap. rewrite Z.mod_pow2_bits_low, Z.lnot_spec, MAXIMUM_bit by lia. by destruct (Z.eqb_spec b 25). }
    rewrite andb_true_r, (granted_leaves l' i e' b Hl' He' Hb). destruct Hf as [_ Hz]. rewrite Forall_lookup in Hz.
    assert (Hbit : forall j x x', leaf l j -> l !! j = Some x -> l' !! j = Some x' ->
      Z.testbit (CurrentGranted x') b = type_allows j b).
    { intros j x x' Hlf Hx Hx'. destruct (Hleaf j x Hlf Hx) as (x0 & Hx0 & Hxb). assert (x0 = x') as -> by congruence.
      destruct (Hz j x Hx) as (_ & Hg & Hdn). rewrite Hxb, Hg, Hdn, Z.bits_0 by lia. unfold type_allows. rewrite ER.
      by rewrite andb_true_r. }
    split; intros H j x Hlf Hj Hx.
    + destruct (shape_lookup l l' j x (eq_sym Hs') Hx) as (x' & Hx' & _). rewrite <- (Hbit j x x') by done.
      apply (H j); [by apply (leaf_shape l)| |done]. destruct Hj as [Hj|Hj]; [by left|right].
      by apply (below_shape l).
    + apply (leaf_shape l' l j Hs') in Hlf. destruct (shape_lookup l' l j x Hs' Hx) as (x0 & Hx0 & _).
      rewrite (Hbit j x0 x) by done. apply (H j x0); [done| |done]. destruct Hj as [Hj|Hj]; [by left|right].
      by apply (below_shape l').
Qed.
End Check.
(** ** Properties *)

(** C23: SepAddAccessTypeList keeps the tree of object types consistent.  Started
    on a list where every entry's Remaining and CurrentDenied are the union of its
    children's and its CurrentGranted the intersection, it ends without leaving the
    array, applies the mask to the target and to all its descendants, leaves every
    other leaf as it was, and re-establishes the same relation for all entries. *)
Theorem SepAddAccessTypeList_tree f m l i e :
  tree_ok l -> 0 <= m < 2 ^ 32 -> l !! i = Some e ->
  exists l', SepAddAccessTypeList l i m f = Some l' /\ updated f m i l l'.
Proof. apply SepAddAccessTypeList_ok. Qed.

(** C22: on an object with a DACL, with a type list as SeCaptureObjectTypeList builds
    it, a request for specific accesses in which no privilege plays a part ([plain]: no
    ACCESS_SYSTEM_SECURITY, and no WRITE_OWNER that SeTakeOwnershipPrivilege would pay
    for) is granted exactly when every leaf of the list has every access asked for by
    the first entry of the DACL that speaks about that leaf: an entry without an object
    type speaks about all of them, one with a type about the leaves at or below it.  For
    a restricted token both the normal and the restricted SIDs must grant.  Otherwise
    the request is denied as a whole. *)
Theorem type_list_first_match sd self P C GA mode PP Pool l Aces D Prev :
  RtlpDaclAddrSecurityDescriptor sd = Some Aces -> Forall mask_ok Aces -> l <> [] -> fresh l ->
  plain P C mode PP D -> Z.testbit D 25 = false -> 0 < D < 2 ^ 32 ->
  (all_leaves l D (type_allows self P C l Aces) /\
   SepAccessCheck sd self P C D l GA Prev mode PP Pool false =
     Some (mkResult true [Z.lor Prev D] [STATUS_SUCCESS] None true false)) \/
  (~ all_leaves l D (type_allows self P C l Aces) /\
   SepAccessCheck sd self P C D l GA Prev mode PP Pool false =
     Some (mkResult true [0] [STATUS_ACCESS_DENIED] None false true)).
Proof. intros. by apply type_list_check. Qed.

(** C27: the result list.  For a token that is not restricted, on an object with a
    DACL, with a type list as SeCaptureObjectTypeList builds it and nothing granted
    before, a request for MAXIMUM_ALLOWED alone with a result list reports for every
    entry of the type list exactly the accesses (other than the bit MAXIMUM_ALLOWED
    itself) that all leaves at or below it are granted by first match, and
    STATUS_SUCCESS for it exactly when the mask reported is not empty. *)
Theorem type_list_maximum sd self P C GA mode PP Pool l Aces :
  RtlpDaclAddrSecurityDescriptor sd = Some Aces -> Forall mask_ok Aces -> l <> [] -> fresh l ->
  SeTokenIsRestricted (effective P C) = false ->
  exists r, SepAccessCheck sd self P C MAXIMUM_ALLOWED l GA 0 mode PP Pool true = Some r /\
    forall i e, l !! i = Some e -> exists g,
      GrantedAccess r !! i = Some g /\
      AccessStatus r !! i = Some (if g =? 0 then STATUS_ACCESS_DENIED else STATUS_SUCCESS) /\
      forall b, 0 <= b < 32 -> b <> 25 ->
        Z.testbit g b = true <->
        forall j x, leaf l j -> j = i \/ below l i j -> l !! j = Some x -> type_allows self P C l Aces j b = true.
Proof. intros. by apply max_result_list. Qed.

(** ** Witnesses *)

(** An object with a property set of two properties and a property on its own,
    as SeCaptureObjectTypeList builds it. *)
Definition sample_types : list IOBJECT_TYPE_LIST :=
  [mkType 0 100 (-1) 0 0 0; mkType 1 101 0 0 0 0; mkType 2 102 1 0 0 0; mkType 2 103 1 0 0 0; mkType 1 104 0 0 0 0].

Lemma sample_fresh : fresh sample_types.
Proof.
  destruct (capture_types_ok [(0, 100); (1, 101); (2, 102); (2, 103); (1, 104)] [] None (replicate 5 None))
    as (st & t & E & H); [by repeat constructor|split; done|intros i e He; done|].
  vm_compute in E. injection E as <- <-. destruct (H eq_refl) as (Hwf & _ & Hz). split; [exact Hwf|exact Hz].
Qed.

(** Access 1 is denied on property 103 and allowed on the set 101, access 2 is
    allowed on everything. *)
Definition sample_aces : list ACE :=
  [mkAce 0 (ACCESS_DENIED_OBJECT_ACE 1 (Some 103) (sid 1)); mkAce 0 (ACCESS_ALLOWED_OBJECT_ACE 1 (Some 101) (sid 1));
   mkAce 0 (ACCESS_ALLOWED_ACE 2 (sid 1))].

Lemma SepAddAccessTypeList_tree_witness :
  exists l', SepAddAccessTypeList sample_types 1 1 UpdateCurrentGranted = Some l' /\
    updated UpdateCurrentGranted 1 1 sample_types l' /\ map CurrentGranted l' = [0; 1; 1; 1; 0].
Proof.
  destruct (SepAddAccessTypeList_tree UpdateCurrentGranted 1 sample_types 1 (mkType 1 101 0 0 0 0))
    as (l' & E & Hu); [apply fresh_tree, sample_fresh|lia|reflexivity|].
  exists l'. split; [exact E|]. split; [exact Hu|]. vm_compute in E. injection E as <-. reflexivity.
Defined.

Lemma type_list_first_match_witness :
  all_leaves sample_types 2 (type_allows None (user 1 0 []) None sample_types sample_aces) /\
  SepAccessCheck (object 9 sample_aces) None (user 1 0 []) None 2 sample_types 0 0 UserMode false true false =
    Some (mkResult true [2] [STATUS_SUCCESS] None true false).
Proof.
  destruct (type_list_first_match (object 9 sample_aces) None (user 1 0 []) None 0 UserMode false true sample_types
    sample_aces 2 0) as [H|[_ H]];
    [reflexivity|by repeat constructor|done|apply sample_fresh|by vm_compute|reflexivity|lia|exact H|].
  exfalso. vm_compute in H. discriminate H.
Defined.

Lemma type_list_maximum_witness :
  exists r, SepAccessCheck (object 9 sample_aces) None (user 1 0 []) None MAXIMUM_ALLOWED sample_types 0 0 UserMode false
              true true = Some r /\
    GrantedAccess r = [2; 2; 3; 2; 2] /\
    exists g, GrantedAccess r !! 1%nat = Some g /\ forall b, 0 <= b < 32 -> b <> 25 ->
      Z.testbit g b = true <->
      forall j x, leaf sample_types j -> j = 1%nat \/ below sample_types 1 j -> sample_types !! j = Some x ->
        type_allows None (user 1 0 []) None sample_types sample_aces j b = true.
Proof.
  destruct (type_list_maximum (object 9 sample_aces) None (user 1 0 []) None 0 UserMode false true sample_types
    sample_aces) as (r & E & H); [reflexivity|by repeat constructor|done|apply sample_fresh|reflexivity|].
  exists r. split; [exact E|]. split; [vm_compute in E; injection E as <-; reflexivity|].
  destruct (H 1%nat (mkType 1 101 0 0 0 0) eq_refl) as (g & Hg & _ & Hb). exists g. split; [exact Hg|exact Hb].
Defined.

End TypeTree.
